(* ===== verification/_CoqProject ===== *)
-Q . S2P
Prelude.v
Rows.v
Program.v
PyValue.v
Json.v
Sha256.v
Uuid.v
Base64.v
JsonRead.v
Signing.v
SigningProofs.v
Attestation.v
Sessions.v
Vault.v
VaultProofs.v
OAuth.v
OAuthService.v
Catalog.v
Runtime.v
Policy.v
ControlPlane.v
OAuthProofs.v
PlanGraph.v
PlanSchema.v
Planner.v
Decimal.v
Approval.v
DispatchLedger.v
EffectGroup.v
SpendLedger.v
Branches.v
Actor.v
Permissions.v
Calendar.v
Verification.v
VerificationProofs.v
Consent.v
ConsentProofs.v
Workflow.v
WorkflowProofs.v
WorkflowAuthority.v
WorkflowClaims.v
Executor.v
ExecutorProofs.v
ExecutorLiveness.v
Actions.v
ActionProofs.v
PostgresActions.v
Broker.v
BrokerProofs.v
BrokerEvidence.v
Dispatcher.v
DispatcherProofs.v
Reconciliation.v
Outbox.v
OutboxProofs.v
OutboxWorker.v
Conversation.v
ConversationProofs.v
Campaign.v
CampaignProofs.v
SessionProofs.v
OAuthServiceProofs.v
