(* ===== verification/Prelude.v ===== *)
(** * AgentTrust / Tessera: verification library

    Tessera lets agents act for people: a request becomes a plan of steps, a
    person approves it, a worker runs it step by step, and a broker carries out
    each effect at a provider.  This library models the part of the program
    that decides what may happen and keeps the record of what did, and proves
    what that part promises.  All paths below are under src/.

    ** How the parts work together

    - A model proposes a raw plan; the plan compiler (agents/orchestrator/
      planner.py) checks it against the capability catalog and the tenant's
      connections and hashes it.
    - The workflow repository (agents/orchestrator/workflow_repository.py)
      stores runs, numbered revisions of the plan, their steps, approvals,
      one-use claims of a step, receipts and attestations.
    - The executor (agents/orchestrator/workflow_executor.py) authorises,
      claims, resolves and dispatches one step at a time, after asking the
      tenant control plane (libs/integrations/control_plane.py).
    - Each effect is bound: the policy (agents/orchestrator/policy.py) decides
      on the binding, the action repository (action_repository.py) holds the
      approved proposal of a write and the lease that lets one dispatch act.
    - The dispatcher (workflow_broker_dispatcher.py) turns a claimed step into
      one binding, proposal and lease; the action broker
      (services/action_broker/app.py) checks them all again, consumes them, and
      calls the provider's runtime (libs/integrations/catalog.py) once; what it
      answers becomes the outcome the executor records.
    - What could not be observed is reconciled (reconciliation.py) and
      published to readers through the outbox (workflow_repository.py and
      services/workflow_worker/app.py), next to the conversations people see.
    - People and agents prove who they are with Ed25519 keys (libs/signing.py,
      libs/request_auth.py); a browser exchanges such a proof for a session
      (services/session), in which proposals are approved.
    - The broker signs an attestation of what it did (attestation.py); the
      verification service (services/verification) holds it against the
      provider's own record, and what is confirmed counts in the agent's
      reputation (libs/reputation_repository.py, registry/app.py).
    - The vault (vault/) keeps credentials under envelopes
      and releases them to agents by grant; the OAuth service (services/oauth)
      takes a person to a provider and back, puts the tokens in the vault, and
      keeps connections, installations and the switches the control plane reads.
    - Money goes through the spend ledger and the approval gate, messages
      through consent, branches and permissions of the contacts directory.

    ** Files

    Shared: [Prelude] (results, transactions, strings, tactics), [Rows]
    (tables whose rows change along a relation, and lemmas on histories of
    calls), [PyValue] (dynamic Python values), [Json] (canonical JSON and its
    injectivity), [JsonRead] (its parser), [Base64], [Sha256], [Decimal],
    [Calendar], [Uuid], and [Program]: methods whose statements interleave
    with those of other threads, and the rule for invariants of the system.

    - [Catalog], [PlanSchema], [PlanGraph], [Planner]: descriptors and the plan
      compiler; [Planner.compile] is [PlanCompiler.compile].
    - [Policy]: [PolicyEvaluator.evaluate], check by check.
    - [ControlPlane]: the tenant gate; [Plane.decide] is
      [TenantControlPlane.decide], with its cache as the state.
    - [Workflow]: the repository's tables as a record of row lists, one
      definition per method; [WorkflowProofs], [WorkflowAuthority],
      [WorkflowClaims] its theorems.
    - [Executor], [ExecutorProofs]: [run_next] and [run_until_blocked], with
      arbitrary calls of other workers between two repository calls;
      [ExecutorLiveness]: a plan that can complete does.
    - [Actions], [ActionProofs]: [ActionRepository]; [PostgresActions]:
      [PostgresActionRepository] over the same rows, and its equivalence.
    - [Runtime]: connection snapshots, the runtime registry and the credential
      strategies of catalog.py.
    - [Broker], [BrokerProofs]: [ActionBroker.execute] over the action
      repository and the list of provider calls, its endpoint, and the decision
      of a person ([decide_request] is [ActionBroker.decide]).
    - [Dispatcher], [DispatcherProofs]: [WorkflowBrokerDispatcher.__call__] and
      the client that posts to the broker, over a network that may lose the
      request or its answer; and the composition of executor, dispatcher,
      broker and both stores.
    - [Reconciliation]: [WorkflowReconciler], [reconcile_unknown_action] and
      the delivery verdict service.
    - [Outbox], [OutboxProofs], [OutboxWorker]: the transactional outbox, its
      watermarks, and any number of workers draining it.
    - [Conversation], [ConversationProofs]: conversations, turns, answers and
      outcome events.
    - [Approval] (approval.py), [DispatchLedger] (dispatch_ledger.py),
      [EffectGroup] (compound.py and its dispatch loop), [SpendLedger]
      (libs/spend_ledger.py).
    - [Campaign], [CampaignProofs]: the campaign repository and worker
      (campaign_repository.py, services/campaign_worker/app.py).
    - [Signing], [SigningProofs]: session assertions, signed requests, the nonce
      cache and [RequestAuthenticator.authenticate], over the interface
      [Ed25519]; [Sessions], [SessionProofs]: both session repositories, the
      session service, and the broker's approval in a session.
    - [Vault], [VaultProofs]: the credential repository, the envelope cipher
      over the interface of its key service, and every operation of the vault
      service, as programs whose statements interleave.
    - [OAuth], [OAuthProofs]: the in-memory OAuth repository, one definition per
      method, and its histories; [OAuthService], [OAuthServiceProofs]: the
      flows of the OAuth service over the sessions, the repository, the vault
      and the providers, and the system of all of them.
    - [Attestation]: [ExecutionAttestor.create] and its check;
      [BrokerEvidence]: what the broker attests of an execution;
      [Verification], [VerificationProofs]: the verification service, its
      receipt verifiers, the reputation store and the registry's report of a
      verdict, as programs whose statements interleave.
    - [Branches] (libs/contacts_repository.py), [Permissions]
      (libs/contacts_permissions.py), [Actor], [Consent] and [ConsentProofs]
      (libs/contacts_consent.py).

    ** Conventions

    A method over SQLite is a state transformer [stm] (Prelude) from the tables
    to the tables and a value or an exception; the ones in BEGIN IMMEDIATE are
    [transaction]s, and constraints raise.  Clocks, random identifiers and
    tokens are arguments.  Integers are Python's, unbounded.  Text is UTF-8
    bytes.  A theorem about "every history" quantifies over all sequences of
    the component's calls from the empty store.

    ** What the theorems show

    - Authority: a dispatch is allowed exactly by its specification; an
      authorised step was asked for by the person named, for that very plan;
      an execution runs what its user approved; a lease is one-use; a stop
      takes hold within the life of the cache; a consent reading is eligible
      only on a live grant, and a STOP is honoured.
    - Identity: an accepted request was signed link by link, a replay is
      accepted at most once more, headers made by the client are accepted, and
      an approval goes back to an assertion its principal's key signed.
    - Custody: a secret leaves the vault only to an agent its owner granted it
      to, a rotated document is what is read back, a consent is spent once by
      who asked for it, what is connected goes back to its owner's consent, and
      writes follow the last word said on each switch.
    - Evidence: what the broker attests is what it did, and passes; and every
      reputation counts verdicts that can be accounted for, no execution twice.
    - From plan to provider: what reaches a provider is the approved step with
      its resolved input, cleared by every check; after a pass the workflow
      store and the action store agree; every failure is settled.
    - Once and only once: attempts are dispatched once, an approved write is
      sent once by however many brokers, a campaign reaches each contact once
      by however many workers, a dispatched effect is never handed out again,
      recovery never repeats a write, one attempt is in flight, completions,
      turns and events are recorded once and in order.
    - State machines: steps move only along their state machine; proposals,
      turns and outbox events likewise; an unknown outcome leaves that state
      only on a provider's evidence.
    - Bounds and termination: attempts, spend and plans are bounded; the
      dependency sort and a worker's loop end, and an approved plan with a
      dispatcher that answers is carried out to its last step.
    - Round trips, equivalences, refinements: the receipt reported is the one
      read back; the PostgreSQL and SQLite ledgers agree, and so do the two
      action repositories within one account and the two session repositories;
      two resolutions of
      branch authority agree; a worker's loop is a run of the abstract system.

    ** Fuel

    [Executor.run_until_blocked] takes fuel; one more than the number of
    unfinished steps is enough ([run_until_blocked_ends]).  [PlanGraph.kahn]
    takes the number of steps, which its theorem shows is enough
    ([topological_order_decides]); [PlanGraph.ancestors_loop] the edges left
    and the stack.  [Branches.ancestors_loop] takes one more than the number
    of branches: every turn sees a branch not seen before
    ([ancestors_loop_total]).  [JsonRead.loads] takes two more than twice the
    length of the text; any more gives the same ([loads_any_fuel]).

    ** Not modelled

    - Pure I/O and wiring: HTTP handlers (web, services/*/app.py apart from
      the worker loop, registry/app.py, audit), the command line,
      the SDK, the mobile and web clients, infrastructure, and migrations other
      than the constraints the models cite.
    - Model-facing text: brain.py, tools.py, result_presenter.py, web/nl.py:
      prompts and wording with no contract a kernel can check.
    - Cryptography and providers: Ed25519, the cipher and the key service, the
      token endpoints and provider clients are called through their documented
      interface only.
    - Not modelled: the PostgreSQL workflow and OAuth repositories, the Slack
      resolver runs and promotion report of the workflow repository, the
      campaign service, imports and proposals of contacts, the registry's
      directory and the marketplaces, the voice bridge. *)

From stdpp Require Export base tactics option list list_numbers gmap strings sorting.
From Stdlib Require Export ZArith Lia.
From Stdlib Require Ascii String.

Abbreviation ascii := Ascii.ascii.

(** ** Results: the value or the exception of a Python call *)

Inductive result (E A : Type) : Type :=
| Ok (a : A)
| Err (e : E).
Arguments Ok {E A} a.
Arguments Err {E A} e.

Global Instance result_ret {E} : MRet (result E) := fun A a => Ok a.
Global Instance result_bind {E} : MBind (result E) := fun A B k m =>
  match m with Ok a => k a | Err e => Err e end.
Global Instance result_fmap {E} : FMap (result E) := fun A B f m =>
  match m with Ok a => Ok (f a) | Err e => Err e end.

Global Instance result_eq_dec {E A} `{EqDecision E, EqDecision A} :
  EqDecision (result E A).
Proof. solve_decision. Defined.

(** [guard_or e b] is Python's [if not b: raise e]. *)
Definition guard_or {E} (e : E) (b : bool) : result E unit :=
  if b then Ok tt else Err e.

Definition is_ok {E A} (r : result E A) : bool :=
  match r with Ok _ => true | Err _ => false end.

(** Traverse a list with a fallible function, left to right, stopping at
    the first exception. *)
Fixpoint mapM_result {E A B} (f : A -> result E B) (l : list A)
    : result E (list B) :=
  match l with
  | [] => Ok []
  | x :: l' =>
      match f x with
      | Err e => Err e
      | Ok y => match mapM_result f l' with
                | Err e => Err e
                | Ok ys => Ok (y :: ys)
                end
      end
  end.

(** ** State with exceptions, and database transactions

    A statement sequence maps a state to a state and an outcome.  An
    exception keeps the writes already made; [transaction] models
    [BEGIN ... COMMIT / ROLLBACK], which undoes them. *)

Definition stm (S E A : Type) : Type := S -> S * result E A.

Definition stm_ret {S E A} (a : A) : stm S E A := fun s => (s, Ok a).
Definition stm_raise {S E A} (e : E) : stm S E A := fun s => (s, Err e).
Definition stm_bind {S E A B} (m : stm S E A) (k : A -> stm S E B) : stm S E B :=
  fun s => match m s with
           | (s', Ok a) => k a s'
           | (s', Err e) => (s', Err e)
           end.
Definition stm_get {S E} : stm S E S := fun s => (s, Ok s).
Definition stm_modify {S E} (f : S -> S) : stm S E unit := fun s => (f s, Ok tt).
Definition transaction {S E A} (m : stm S E A) : stm S E A :=
  fun s => match m s with
           | (s', Ok a) => (s', Ok a)
           | (_, Err e) => (s, Err e)
           end.

Declare Scope stm_scope.
Delimit Scope stm_scope with stm.
Notation "x <~ m ;; k" := (stm_bind m (fun x => k))
  (at level 100, m at next level, right associativity) : stm_scope.
Notation "m ;;; k" := (stm_bind m (fun _ => k))
  (at level 100, right associativity) : stm_scope.

(** Run a statement for every element, in order. *)
Fixpoint stm_iter {S E A} (f : A -> stm S E unit) (l : list A) : stm S E unit :=
  match l with
  | [] => stm_ret tt
  | x :: l' => stm_bind (f x) (fun _ => stm_iter f l')
  end.

(** ** Python truthiness of the common types *)

Class Truthy (A : Type) := truthy : A -> bool.
Global Instance truthy_bool : Truthy bool := fun b => b.
Global Instance truthy_string : Truthy string := fun s => negb (String.eqb s "").
Global Instance truthy_option {A} `{Truthy A} : Truthy (option A) :=
  fun o => match o with Some a => truthy a | None => false end.
Global Instance truthy_list {A} : Truthy (list A) :=
  fun l => match l with [] => false | _ => true end.

(** [or_else a b] is Python's [a or b]. *)
Definition or_else {A} `{Truthy A} (a b : A) : A := if truthy a then a else b.

(** Membership of a string in a tuple or frozenset of string constants. *)
Definition str_in (s : string) (l : list string) : bool :=
  existsb (String.eqb s) l.

(** ** Strings *)

(** The character with a given code. *)
Definition chr (n : N) : ascii := Ascii.ascii_of_N n.
Definition ord (c : ascii) : N := Ascii.N_of_ascii c.

Fixpoint str_length (s : string) : nat :=
  match s with "" => 0 | String _ s' => S (str_length s') end.

Fixpoint str_forallb (p : ascii -> bool) (s : string) : bool :=
  match s with "" => true | String c s' => p c && str_forallb p s' end.

(** [starts_with p s] is [s.startswith(p)]. *)
Fixpoint starts_with (p s : string) : bool :=
  match p, s with
  | "", _ => true
  | String a p', String b s' => Ascii.eqb a b && starts_with p' s'
  | _, "" => false
  end.

(** [s.endswith(p)]. *)
Fixpoint ends_with (p s : string) : bool :=
  String.eqb s p || match s with "" => false | String _ s' => ends_with p s' end.

(** [p in s]. *)
Fixpoint substring (p s : string) : bool :=
  starts_with p s ||
  match s with "" => false | String _ s' => substring p s' end.

(** [s.lower()] on ASCII text; bytes above 127 are kept. *)
Definition lower_char (c : ascii) : ascii :=
  let n := ord c in if N.leb 65 n && N.leb n 90 then chr (n + 32) else c.
Fixpoint lower (s : string) : string :=
  match s with "" => "" | String c s' => String (lower_char c) (lower s') end.

(** [s.strip()] on ASCII white space. *)
Definition is_space (c : ascii) : bool :=
  let n := ord c in
  (N.leb 9 n && N.leb n 13) || (N.leb 28 n && N.leb n 32).
Fixpoint lstrip (s : string) : string :=
  match s with
  | String c s' => if is_space c then lstrip s' else s
  | "" => ""
  end.
Fixpoint rstrip (s : string) : string :=
  match s with
  | String c s' =>
      match rstrip s' with
      | "" => if is_space c then "" else String c ""
      | t => String c t
      end
  | "" => ""
  end.
Definition strip (s : string) : string := rstrip (lstrip s).

(** [sep.join(l)]. *)
Fixpoint str_join (sep : string) (l : list string) : string :=
  match l with
  | [] => ""
  | [x] => x
  | x :: l' => x +:+ sep +:+ str_join sep l'
  end.

(** [sorted(l)] on strings: [str.__lt__] on code points, which is the byte
    order of the UTF-8 encodings. *)
Definition str_sort (l : list string) : list string := merge_sort String.le l.

(** [sorted(set(l))] on strings. *)
Definition str_sorted_set (l : list string) : list string :=
  str_sort (remove_dups l).

(** [s[:n]], by characters of the UTF-8 text. *)
Fixpoint take_chars (n : nat) (s : string) : string :=
  match s with
  | "" => ""
  | String c s' =>
      if N.leb 128 (ord c) && N.ltb (ord c) 192 then String c (take_chars n s')
      else match n with
           | O => ""
           | S n' => String c (take_chars n' s')
           end
  end.

(** ** Tactics of the development *)

(** Split every boolean conjunction and turn boolean tests into
    propositions in the hypotheses. *)
Ltac bool_hyps :=
  repeat match goal with
  | H : _ && _ = true |- _ => apply andb_true_iff in H; destruct H
  | H : _ || _ = false |- _ => apply orb_false_iff in H; destruct H
  | H : negb _ = true |- _ => apply negb_true_iff in H
  | H : negb _ = false |- _ => apply negb_false_iff in H
  | H : String.eqb _ _ = true |- _ => apply String.eqb_eq in H
  | H : String.eqb _ _ = false |- _ => apply String.eqb_neq in H
  | H : Z.eqb _ _ = true |- _ => apply Z.eqb_eq in H
  | H : Z.eqb _ _ = false |- _ => apply Z.eqb_neq in H
  | H : Z.ltb _ _ = true |- _ => apply Z.ltb_lt in H
  | H : Z.ltb _ _ = false |- _ => apply Z.ltb_ge in H
  | H : Z.leb _ _ = true |- _ => apply Z.leb_le in H
  | H : Z.leb _ _ = false |- _ => apply Z.leb_gt in H
  end.

(** Walk down a chain of guards: case on the scrutinee of the outermost
    [if]/[match] of a hypothesis and discard the impossible branches. *)
Ltac step_guard H :=
  match type of H with
  | context [match ?x with _ => _ end] =>
      let E := fresh "E" in destruct x eqn:E; try discriminate H
  end.
Ltac guards H := repeat step_guard H.

(** Same for the goal. *)
Ltac step_goal :=
  match goal with
  | |- context [match ?x with _ => _ end] =>
      let E := fresh "E" in destruct x eqn:E
  end.

(** ** Generic lemmas *)

Create HintDb tessera.
Create Rewrite HintDb tessera.

Section results.
Context {E A B : Type}.

Lemma result_bind_ok (m : result E A) (k : A -> result E B) b :
  (m ≫= k) = Ok b <-> exists a, m = Ok a /\ k a = Ok b.
Proof. destruct m; simpl; naive_solver. Qed.

Lemma guard_or_ok (e : E) b u : guard_or e b = Ok u <-> b = true.
Proof. unfold guard_or. destruct b, u; naive_solver. Qed.

Lemma mapM_result_ok (f : A -> result E B) l l' :
  mapM_result f l = Ok l' <-> Forall2 (fun x y => f x = Ok y) l l'.
Proof.
  revert l'; induction l as [|x l IH]; intros l'; simpl.
  { split; [intros [= <-]; constructor | inversion 1; done]. }
  split.
  - intros H. guards H. simplify_eq. constructor; [done|by apply IH].
  - inversion 1 as [|? y ? ys Hx Hl]; subst. rewrite Hx.
    apply IH in Hl. by rewrite Hl.
Qed.
End results.

Section transactions.
Context {S E A : Type}.

(** A transaction that raises leaves the database as it was. *)
Lemma transaction_err (m : stm S E A) s s' e :
  transaction m s = (s', Err e) -> s' = s.
Proof. unfold transaction. destruct (m s) as [? []]; naive_solver. Qed.

Lemma transaction_ok (m : stm S E A) s s' a :
  transaction m s = (s', Ok a) <-> m s = (s', Ok a).
Proof. unfold transaction. destruct (m s) as [? []]; naive_solver. Qed.
End transactions.

(** Statements that leave a part of the state alone. *)
Section frames.
Context {S E T : Type} (part : S -> T).

Definition leaves {A} (m : stm S E A) : Prop := forall s, part (m s).1 = part s.

Lemma leaves_ret {A} (a : A) : leaves (stm_ret a).
Proof. done. Qed.
Lemma leaves_raise {A} e : leaves (stm_raise (A := A) e).
Proof. done. Qed.
Lemma leaves_bind {A B} (m : stm S E A) (k : A -> stm S E B) :
  leaves m -> (forall a, leaves (k a)) -> leaves (stm_bind m k).
Proof.
  intros Hm Hk s. unfold stm_bind. specialize (Hm s). destruct (m s) as [s' [a|e]]; [|done].
  rewrite <- Hm. apply Hk.
Qed.
Lemma leaves_get {A} (k : S -> stm S E A) : (forall s, leaves (k s)) -> leaves (stm_bind stm_get k).
Proof. intros Hk s. apply Hk. Qed.
Lemma leaves_transaction {A} (m : stm S E A) : leaves m -> leaves (transaction m).
Proof. intros Hm s. specialize (Hm s). unfold transaction. by destruct (m s) as [s' [a|e]]. Qed.
Lemma leaves_iter {A} (f : A -> stm S E unit) l : (forall x, leaves (f x)) -> leaves (stm_iter f l).
Proof. intros Hf. induction l as [|x l IH]; [done|]. by apply leaves_bind. Qed.
Lemma leaves_if {A} (b : bool) (m1 m2 : stm S E A) :
  leaves m1 -> leaves m2 -> leaves (if b then m1 else m2).
Proof. by destruct b. Qed.
End frames.

(** Follow the structure of a statement sequence. *)
Ltac leaving :=
  repeat match goal with
  | |- leaves _ (transaction _) => apply leaves_transaction
  | |- leaves _ (stm_bind stm_get _) => apply leaves_get; intros ?
  | |- leaves _ (stm_bind _ _) => apply leaves_bind; [|intros ?]
  | |- leaves _ (stm_iter _ _) => apply leaves_iter; intros ?
  | |- leaves _ (if _ then _ else _) => apply leaves_if
  | |- leaves _ (match ?x with _ => _ end) => destruct x
  | |- leaves _ (stm_ret _) => apply leaves_ret
  | |- leaves _ (stm_raise _) => apply leaves_raise
  | |- leaves _ (stm_modify _) => intros ?; reflexivity
  end.

Lemma str_in_spec s l : str_in s l = true <-> s ∈ l.
Proof.
  unfold str_in. rewrite existsb_exists. split.
  - intros (x & Hx & He). apply String.eqb_eq in He. subst.
    by apply list_elem_of_In.
  - intros H. exists s. split; [by apply list_elem_of_In|].
    apply String.eqb_refl.
Qed.

Lemma str_in_false s l : str_in s l = false <-> s ∉ l.
Proof. rewrite <- str_in_spec. destruct (str_in s l); naive_solver. Qed.

Lemma str_sorted_set_elem s l : s ∈ str_sorted_set l <-> s ∈ l.
Proof.
  unfold str_sorted_set, str_sort.
  rewrite (merge_sort_Permutation _ _). apply elem_of_remove_dups.
Qed.

Lemma str_sorted_set_NoDup l : NoDup (str_sorted_set l).
Proof.
  unfold str_sorted_set, str_sort.
  rewrite (merge_sort_Permutation _ _). apply NoDup_remove_dups.
Qed.

Lemma str_sorted_set_sorted l : StronglySorted String.le (str_sorted_set l).
Proof. apply (StronglySorted_merge_sort _). Qed.

#[export] Hint Resolve str_sorted_set_NoDup str_sorted_set_sorted : tessera.
#[export] Hint Rewrite str_in_spec str_in_false str_sorted_set_elem : tessera.

Lemma str_app_nil (s : string) : "" +:+ s = s.
Proof. done. Qed.

Lemma str_app_cons c (a b : string) : String c a +:+ b = String c (a +:+ b).
Proof. done. Qed.

Lemma str_app_assoc (a b c : string) : (a +:+ b) +:+ c = a +:+ b +:+ c.
Proof. induction a as [|x a IH]; [done|]. by rewrite !str_app_cons, IH. Qed.

Lemma str_app_nil_r (s : string) : s +:+ "" = s.
Proof. induction s as [|x s IH]; [done|]. by rewrite str_app_cons, IH. Qed.

Lemma NoDup_map_filter {A B} (f : A -> B) p l :
  NoDup (map f l) -> NoDup (map f (List.filter p l)).
Proof.
  induction l as [|x l IH]; simpl; intros H; [done|].
  inversion H as [|? ? Hx Hl]; subst. case_match; [|auto]. simpl.
  constructor; [|auto]. rewrite list_elem_of_fmap in *.
  intros (y & ? & Hy%list_elem_of_In). apply filter_In in Hy as [Hy _].
  apply Hx. exists y. split; [done|by apply list_elem_of_In].
Qed.
