(* ===== verification/Rows.v ===== *)
(** * Tables whose rows change along a relation

    A table is a list of keyed rows inside a state.  A statement [tracks] a
    change relation when it keeps keys unique, changes rows only along the
    relation, never removes or reorders them, and appends only fresh rows.
    The components that store rows prove it of each method, statement by
    statement, and get the lemmas on whole histories of calls. *)

From S2P Require Import Prelude.

Section rows.
Context {S Exn R K : Type} (rows : S -> list R) (key : R -> K).

Definition keyed (s : S) : Prop := NoDup (map key (rows s)).

Section changes.
Context (change : R -> R -> Prop) (fresh : R -> Prop).

Definition follows (l l' : list R) : Prop :=
  exists old new, l' = old ++ new /\ Forall2 (rtc change) l old
    /\ Forall (fun r => exists r0, fresh r0 /\ rtc change r0 r) new.

Lemma rows_refl l : Forall2 (rtc change) l l.
Proof. induction l; constructor; [reflexivity|done]. Qed.

Lemma follows_refl l : follows l l.
Proof. exists l, []. rewrite app_nil_r. split; [done|]. split; [apply rows_refl|constructor]. Qed.

Lemma follows_trans l1 l2 l3 : follows l1 l2 -> follows l2 l3 -> follows l1 l3.
Proof.
  intros (old & new & -> & Ho & Hn) (old' & new' & -> & Ho' & Hn').
  apply Forall2_app_inv_l in Ho' as (oo & on & Hoo & Hon & ->).
  exists oo, (on ++ new'). split; [by rewrite app_assoc|]. split.
  - clear -Ho Hoo. revert oo Hoo. induction Ho as [|x y l l' H _ IH]; intros oo Hoo.
    + inversion Hoo. constructor.
    + apply Forall2_cons_inv_l in Hoo as (z & oo' & Hz & Hoo' & ->).
      constructor; [by etrans|]. by apply IH.
  - apply Forall_app. split; [|done]. clear -Hn Hon.
    induction Hon as [|x y l l' H _ IH]; [constructor|].
    apply Forall_cons in Hn as [(r0 & H0 & Hr) Hn]. constructor; [|by apply IH].
    exists r0. split; [done|]. by etrans.
Qed.

(** Rows of the new table come from the old one or are fresh. *)
Lemma follows_inv l l' r :
  follows l l' -> r ∈ l' ->
  (exists r0, r0 ∈ l /\ rtc change r0 r) \/ (exists r0, fresh r0 /\ rtc change r0 r).
Proof.
  intros (old & new & -> & Ho & Hn) [Hr|Hr]%elem_of_app.
  - left. apply list_elem_of_lookup_1 in Hr as [i Hi].
    destruct (Forall2_lookup_r _ _ _ _ _ Ho Hi) as (r0 & H0 & Hr0).
    eauto using list_elem_of_lookup_2.
  - right. rewrite Forall_forall in Hn. by apply Hn.
Qed.

(** Rows of the old table are still there. *)
Lemma follows_fwd l l' r : follows l l' -> r ∈ l -> exists r', r' ∈ l' /\ rtc change r r'.
Proof.
  intros (old & new & -> & Ho & _) Hr. apply list_elem_of_lookup_1 in Hr as [i Hi].
  destruct (Forall2_lookup_l _ _ _ _ _ Ho Hi) as (r' & Hi' & Hr'). exists r'. split; [|done].
  apply elem_of_app. left. by eapply list_elem_of_lookup_2.
Qed.

Definition tracks {A} (m : stm S Exn A) : Prop :=
  forall s, keyed s -> keyed (m s).1 /\ follows (rows s) (rows (m s).1).

Lemma tracks_ret {A} (a : A) : tracks (stm_ret a).
Proof. intros s Hs. split; [done|apply follows_refl]. Qed.
Lemma tracks_raise {A} e : tracks (stm_raise (A := A) e).
Proof. intros s Hs. split; [done|apply follows_refl]. Qed.
Lemma tracks_bind_at {A B} (m : stm S Exn A) (k : A -> stm S Exn B) s :
  keyed (m s).1 /\ follows (rows s) (rows (m s).1) ->
  (forall s' a, m s = (s', Ok a) -> keyed s' ->
     keyed (k a s').1 /\ follows (rows s') (rows (k a s').1)) ->
  keyed (stm_bind m k s).1 /\ follows (rows s) (rows (stm_bind m k s).1).
Proof.
  unfold stm_bind. intros [Hs Hf] Hk. destruct (m s) as [s' [a|e]] eqn:E; [|done].
  destruct (Hk s' a eq_refl Hs) as [Hs' Hf']. split; [done|]. by eapply follows_trans.
Qed.
Lemma tracks_bind {A B} (m : stm S Exn A) (k : A -> stm S Exn B) :
  tracks m -> (forall a, tracks (k a)) -> tracks (stm_bind m k).
Proof. intros Hm Hk s Hs. apply tracks_bind_at; [by apply Hm|]. intros s' a _ Hs'. by apply Hk. Qed.
Lemma tracks_get {A} (k : S -> stm S Exn A) :
  (forall s0, keyed s0 -> tracks (k s0)) -> tracks (stm_bind stm_get k).
Proof. intros Hk s Hs. by apply Hk. Qed.
Lemma tracks_transaction {A} (m : stm S Exn A) : tracks m -> tracks (transaction m).
Proof.
  intros Hm s Hs. specialize (Hm s Hs). unfold transaction.
  destruct (m s) as [s' [a|e]]; [done|]. split; [done|apply follows_refl].
Qed.
Lemma tracks_iter {A} (f : A -> stm S Exn unit) l :
  (forall x, x ∈ l -> tracks (f x)) -> tracks (stm_iter f l).
Proof.
  induction l as [|x l IH]; intros Hf; [apply tracks_ret|].
  apply tracks_bind; [apply Hf; by left|]. intros _. apply IH. intros y Hy. apply Hf. by right.
Qed.
Lemma tracks_if {A} (b : bool) (m1 m2 : stm S Exn A) :
  tracks m1 -> tracks m2 -> tracks (if b then m1 else m2).
Proof. by destruct b. Qed.
Lemma tracks_frame {A} (m : stm S Exn A) : leaves rows m -> tracks m.
Proof. intros Hm s Hs. unfold keyed. rewrite Hm. split; [done|apply follows_refl]. Qed.

(** [UPDATE ... SET f WHERE p]. *)
Definition update_where (p : R -> bool) (f : R -> R) (l : list R) : list R :=
  map (fun r => if p r then f r else r) l.

Lemma update_follows p f l :
  (forall r, r ∈ l -> p r = true -> change r (f r)) -> follows l (update_where p f l).
Proof.
  intros Hf. exists (update_where p f l), []. rewrite app_nil_r. split; [done|].
  split; [|constructor]. induction l as [|r l IH]; [constructor|]. simpl. constructor.
  - destruct (p r) eqn:E; [|done]. apply rtc_once, Hf; [by left|done].
  - apply IH. intros x Hx. apply Hf. by right.
Qed.

Lemma update_keys p f l :
  (forall r, key (f r) = key r) -> map key (update_where p f l) = map key l.
Proof.
  intros Hk. unfold update_where. rewrite map_map. apply map_ext. intros r. by case_match.
Qed.

Lemma tracks_update {A} (m : stm S Exn A) p f :
  (forall s, rows (m s).1 = update_where p f (rows s)) ->
  (forall r, key (f r) = key r) -> (forall r, p r = true -> change r (f r)) -> tracks m.
Proof.
  intros Hm Hk Hf s Hs. unfold keyed. rewrite Hm. split.
  - by rewrite update_keys.
  - apply update_follows. auto.
Qed.

(** [INSERT], which the table's key may refuse. *)
Lemma tracks_insert {A} (m : stm S Exn A) r :
  (forall s, rows (m s).1 = rows s
             \/ rows (m s).1 = rows s ++ [r] /\ key r ∉ map key (rows s)) ->
  fresh r -> tracks m.
Proof.
  intros Hm Hr s Hs. unfold keyed. destruct (Hm s) as [->|[-> Hn]].
  { split; [exact Hs|apply follows_refl]. }
  split.
  - rewrite map_app. apply NoDup_app. split; [exact Hs|].
    split; [|apply NoDup_singleton]. by intros k Hk ->%list_elem_of_singleton.
  - exists (rows s), [r]. split; [done|]. split; [apply rows_refl|].
    apply Forall_singleton. by exists r.
Qed.
End changes.

(** ** Keys *)

Lemma key_unique l r r' : NoDup (map key l) -> r ∈ l -> r' ∈ l -> key r = key r' -> r = r'.
Proof.
  intros Hnd Hr Hr' E. apply list_elem_of_lookup_1 in Hr as [i Hi], Hr' as [j Hj].
  assert (i = j) as ->; [|naive_solver].
  eapply (NoDup_lookup (map key l)); [exact Hnd|..]; rewrite list_lookup_fmap.
  - by rewrite Hi.
  - rewrite Hj. simpl. by rewrite E.
Qed.

Lemma filter_one (p : R -> bool) l x :
  NoDup (map key l) -> x ∈ l -> p x = true -> (forall y, y ∈ l -> p y = true -> y = x) ->
  List.filter p l = [x].
Proof.
  intros Hnd Hx Hp Hu.
  induction l as [|y l IH]; [by apply elem_of_nil in Hx|].
  simpl in Hnd. apply NoDup_cons in Hnd as [Hn Hnd]. simpl. destruct (p y) eqn:E.
  - rewrite (Hu y ltac:(by left) E) in *. f_equal.
    destruct (List.filter p l) as [|z l'] eqn:Ef; [done|]. exfalso.
    assert (z ∈ List.filter p l) as Hz by (rewrite Ef; by left).
    rewrite list_elem_of_In in Hz. apply filter_In in Hz as [Hz Hpz]. apply list_elem_of_In in Hz.
    apply Hn. rewrite <- (Hu z ltac:(by right) Hpz). by apply list_elem_of_fmap_2.
  - apply elem_of_cons in Hx as [->|Hx]; [congruence|]. apply IH; [done|done|].
    intros z Hz. apply Hu. by right.
Qed.

Lemma NoDup_split_key a r b y :
  NoDup (map key (a ++ r :: b)) -> y ∈ a ++ b -> key y <> key r.
Proof.
  rewrite map_app. simpl. intros Hnd Hy E.
  apply NoDup_app in Hnd as (_ & Hab & Hb). apply NoDup_cons in Hb as [Hb _].
  apply elem_of_app in Hy as [Hy|Hy].
  - apply (Hab (key y)); [by apply list_elem_of_fmap_2|]. rewrite E. by left.
  - apply Hb. rewrite <- E. by apply list_elem_of_fmap_2.
Qed.

Lemma update_split (p : R -> bool) f a r b :
  p r = true -> (forall y, y ∈ a ++ b -> p y = false) ->
  update_where p f (a ++ r :: b) = a ++ f r :: b.
Proof.
  intros Hr Hn. unfold update_where. rewrite map_app. simpl. rewrite Hr.
  assert (forall l, (forall y, y ∈ l -> p y = false) -> map (fun r => if p r then f r else r) l = l) as Hid.
  { intros l Hl. rewrite <- (map_id l) at 2. apply map_ext_in. intros y Hy%list_elem_of_In.
    by rewrite Hl. }
  rewrite !Hid; [done|..]; intros y Hy; apply Hn; apply elem_of_app; auto.
Qed.

(** ** Histories *)

Section histories.
Context {C : Type} (exec : C -> S -> S) (change : C -> R -> R -> Prop) (fresh : C -> R -> Prop).
Hypothesis Hexec : forall c s, keyed s ->
  keyed (exec c s) /\ follows (change c) (fresh c) (rows s) (rows (exec c s)).

Definition history (cs : list C) (s : S) : S := fold_left (fun s c => exec c s) cs s.

Lemma history_keyed cs s : keyed s -> keyed (history cs s).
Proof.
  revert s. induction cs as [|c cs IH]; intros s Hs; [done|]. apply IH. by apply Hexec.
Qed.

(** A predicate on rows that every change of the calls preserves, and every
    new row has, holds throughout. *)
Lemma history_invariant (P : R -> Prop) cs s :
  keyed s ->
  (forall c r r', c ∈ cs -> change c r r' -> P r -> P r') ->
  (forall c r, c ∈ cs -> fresh c r -> P r) ->
  (forall r, r ∈ rows s -> P r) -> forall r, r ∈ rows (history cs s) -> P r.
Proof.
  revert s. induction cs as [|c cs IH]; intros s Hs Hch Hnew HP; [done|].
  destruct (Hexec c s Hs) as [Hs' Hf].
  assert (forall r r', rtc (change c) r r' -> P r -> P r') as Hrtc.
  { intros r r'. induction 1 as [|x y z Hxy _ IH']; [done|]. intros Hx. apply IH'.
    apply (Hch c x y); [by left|done|done]. }
  apply (IH (exec c s)); [done| | |].
  - intros c' r r' Hc. apply Hch. by right.
  - intros c' r Hc. apply Hnew. by right.
  - intros r Hr. destruct (follows_inv _ _ _ _ r Hf Hr) as [(r0 & H0 & Hr0)|(r0 & H0 & Hr0)].
    + apply (Hrtc r0 r Hr0). by apply HP.
    + apply (Hrtc r0 r Hr0), (Hnew c); [by left|done].
Qed.

(** Where a row that was there before is now. *)
Lemma history_row cs s r :
  keyed s -> r ∈ rows s ->
  exists r', r' ∈ rows (history cs s)
    /\ rtc (fun a b => exists c, c ∈ cs /\ change c a b) r r'.
Proof.
  revert s r. induction cs as [|c cs IH]; intros s r Hs Hr; [by exists r|].
  destruct (Hexec c s Hs) as [Hs' Hf].
  destruct (follows_fwd _ _ _ _ r Hf Hr) as (r1 & Hr1 & Hch).
  destruct (IH (exec c s) r1 Hs' Hr1) as (r2 & Hin & Hr2).
  exists r2. split; [exact Hin|]. etrans.
  - eapply rtc_subrel; [|exact Hch]. intros a b Hab. exists c. split; [by left|done].
  - eapply rtc_subrel; [|exact Hr2]. intros a b (c' & Hc' & Hab). exists c'. split; [by right|done].
Qed.
End histories.
End rows.

Lemma find_In {A} (f : A -> bool) l x : List.find f l = Some x -> x ∈ l /\ f x = true.
Proof. intros H. apply find_some in H as [Hin Hf]. by split; [apply list_elem_of_In|]. Qed.

Lemma in_filter {A} (f : A -> bool) l x : x ∈ List.filter f l <-> x ∈ l /\ f x = true.
Proof. by rewrite !list_elem_of_In, filter_In. Qed.

Lemma filter_all {A} (f : A -> bool) l : (forall x, x ∈ l -> f x = true) -> List.filter f l = l.
Proof.
  induction l as [|x l IH]; intros H; [done|]. cbn. rewrite (H x) by left. f_equal. apply IH. intros y Hy. apply H. by right.
Qed.
Lemma filter_none {A} (f : A -> bool) l : (forall x, x ∈ l -> f x = false) -> List.filter f l = [].
Proof.
  induction l as [|x l IH]; intros Hf; [done|]. simpl. rewrite (Hf x); [|left].
  apply IH. intros y Hy. apply Hf. by right.
Qed.

Lemma find_split {A} (f : A -> bool) l x :
  List.find f l = Some x ->
  exists a b, l = a ++ x :: b /\ f x = true /\ forall y, y ∈ a -> f y = false.
Proof.
  induction l as [|y l IH]; simpl; [done|]. destruct (f y) eqn:E.
  - intros [= ->]. exists [], l. split; [done|]. split; [done|]. by intros z Hz%elem_of_nil.
  - intros (a & b & -> & Hx & Ha)%IH. exists (y :: a), b. split; [done|]. split; [done|].
    intros z [->|Hz]%elem_of_cons; auto.
Qed.

Lemma find_snoc {A} (f : A -> bool) l x :
  (forall y, y ∈ l -> f y = false) -> f x = true -> List.find f (l ++ [x]) = Some x.
Proof.
  induction l as [|y l IH]; intros Hn Hx; simpl; [by rewrite Hx|].
  rewrite (Hn y) by left. apply IH; [|done]. intros z Hz. apply Hn. by right.
Qed.
