(* ===== verification/Program.v ===== *)
(** * Programs that share a store

    A method that talks to the database more than once is not atomic: other
    threads run between two of its statements.  [prog] is such a method: it
    performs statements or transactions ([Do]) one by one on the shared store,
    asks its surroundings questions ([Ask]: the clock, a permission, a provider)
    whose answers it does not control, and ends with a value or an exception.

    [run] executes one program alone; [system_step] interleaves a pool of them,
    with any answers, and keeps the log of what was asked and answered.
    [system_sound] is the rule by which invariants of the whole system are
    proved thread by thread ([wp]). *)

From S2P Require Import Prelude.

Section program.
Context {St E : Type} {Q : Type -> Type}.

Inductive prog (A : Type) : Type :=
| Ret (r : result E A)
| Do {B : Type} (m : stm St E B) (k : result E B -> prog A)
| Ask {B : Type} (q : Q B) (k : B -> prog A).

Arguments Ret {A} r.
Arguments Do {A B} m k.
Arguments Ask {A B} q k.

(** An exception leaves the method. *)
Fixpoint prog_bind {A B} (p : prog A) (f : A -> prog B) : prog B :=
  match p with
  | Ret (Ok a) => f a
  | Ret (Err e) => Ret (Err e)
  | Do m k => Do m (fun r => prog_bind (k r) f)
  | Ask q k => Ask q (fun x => prog_bind (k x) f)
  end.
Definition atom {A} (m : stm St E A) : prog A := Do m Ret.
Definition ask {A} (q : Q A) : prog A := Ask q (fun x => Ret (Ok x)).
Definition give {A} (a : A) : prog A := Ret (Ok a).
Definition raise {A} (e : E) : prog A := Ret (Err e).
Definition of_result {A} (r : result E A) : prog A := Ret r.

(** A method called for its effect. *)
Fixpoint forget {A} (p : prog A) : prog unit :=
  match p with
  | Ret _ => Ret (Ok tt)
  | Do m k => Do m (fun r => forget (k r))
  | Ask q k => Ask q (fun x => forget (k x))
  end.

(** ** Alone *)

(** The answers, by question and by how many were asked before. *)
Definition oracle : Type := forall B, Q B -> nat -> B.
Fixpoint run_from {A} (o : oracle) (n : nat) (p : prog A) (s : St) : St * result E A * nat :=
  match p with
  | Ret r => (s, r, n)
  | Do m k => let (s', r) := m s in run_from o n (k r) s'
  | Ask q k => run_from o (S n) (k (o _ q n)) s
  end.
Definition run {A} (o : oracle) (p : prog A) (s : St) : St * result E A := (run_from o 0 p s).1.

(** ** Together *)

Definition event : Type := {B : Type & (Q B * B)%type}.
Definition answered {B} (q : Q B) (x : B) : event := existT B (q, x).
Record system := { store_of : St; pool : list (prog unit); log : list event }.

(** A thread starts, makes a statement, gets an answer, or dies. *)
Inductive system_step (may_start : prog unit -> Prop) : system -> system -> Prop :=
| sys_start p s l g :
    may_start p ->
    system_step may_start {| store_of := s; pool := l; log := g |} {| store_of := s; pool := l ++ [p]; log := g |}
| sys_do B (m : stm St E B) k s a b g :
    system_step may_start {| store_of := s; pool := a ++ Do m k :: b; log := g |}
      {| store_of := (m s).1; pool := a ++ k (m s).2 :: b; log := g |}
| sys_ask B (q : Q B) k x s a b g :
    system_step may_start {| store_of := s; pool := a ++ Ask q k :: b; log := g |}
      {| store_of := s; pool := a ++ k x :: b; log := g ++ [answered q x] |}
| sys_die p s a b g :
    system_step may_start {| store_of := s; pool := a ++ p :: b; log := g |}
      {| store_of := s; pool := a ++ b; log := g |}.

(** *** A schedule: who moves when *)

Inductive move := Launch (p : prog unit) | Turn (i : nat).
(** The next move of thread [i]; [o] answers by how much is in the log. *)
Definition turn (o : oracle) (i : nat) (c : system) : system :=
  match pool c !! i with
  | Some (Do m k) => {| store_of := (m (store_of c)).1; pool := <[i := k (m (store_of c)).2]> (pool c); log := log c |}
  | Some (Ask q k) => let x := o _ q (length (log c)) in
      {| store_of := store_of c; pool := <[i := k x]> (pool c); log := log c ++ [answered q x] |}
  | _ => c
  end.
Definition play (o : oracle) (c : system) (v : move) : system :=
  match v with
  | Launch p => {| store_of := store_of c; pool := pool c ++ [p]; log := log c |}
  | Turn i => turn o i c
  end.
Lemma turn_reach may_start o i c : rtc (system_step may_start) c (turn o i c).
Proof.
  unfold turn. destruct (pool c !! i) as [p|] eqn:Ep0; [|done]. apply list_elem_of_split_length in Ep0 as (a & b & Ep & Hi).
  destruct c as [s l g]. cbn in *. subst l i. destruct p as [r|B m k|B q k]; [done|..]; apply rtc_once.
  - rewrite insert_app_r_alt, Nat.sub_diag by done. apply sys_do.
  - rewrite insert_app_r_alt, Nat.sub_diag by done. apply sys_ask.
Qed.
Lemma play_reach (may_start : prog unit -> Prop) o vs c :
  Forall (fun v => match v with Launch p => may_start p | Turn _ => True end) vs ->
  rtc (system_step may_start) c (fold_left (play o) vs c).
Proof.
  intros H. revert c. induction H as [|v vs Hv _ IH]; intros c; [done|]. cbn. etrans; [|apply IH]. destruct v as [p|i].
  - destruct c. apply rtc_once. by apply sys_start.
  - apply turn_reach.
Qed.

(** ** Thread by thread *)

Section soundness.
Context {L : Type} (inv : St -> list L -> list event -> Prop) (idle : L).

(** From the ghost state [l] of its thread the program keeps the invariant,
    whatever the other threads do, and ends in [post]. *)
Fixpoint wp {A} (l : L) (p : prog A) (post : L -> result E A -> Prop) : Prop :=
  match p with
  | Ret r => post l r
  | Do m k => exists next,
      (forall s a b g, inv s (a ++ l :: b) g -> inv (m s).1 (a ++ next (m s).2 :: b) g)
      /\ forall r, wp (next r) (k r) post
  | Ask q k => forall x, exists l',
      (forall s a b g, inv s (a ++ l :: b) g -> inv s (a ++ l' :: b) (g ++ [answered q x]))
      /\ wp l' (k x) post
  end.

Lemma wp_mono {A} l (p : prog A) (P P' : L -> result E A -> Prop) :
  wp l p P -> (forall l r, P l r -> P' l r) -> wp l p P'.
Proof.
  intros H HP. revert l H. induction p as [r|B m k IH|B q k IH]; intros l H; cbn in *.
  - by apply HP.
  - destruct H as (next & Hinv & Hk). exists next. split; [done|]. intros r. by apply IH.
  - intros x. destruct (H x) as (l' & Hinv & Hk). exists l'. split; [done|]. by apply IH.
Qed.
Lemma wp_bind {A B} l (p : prog A) (f : A -> prog B) (P : L -> result E B -> Prop) :
  wp l p (fun l' r => match r with Ok a => wp l' (f a) P | Err e => P l' (Err e) end) ->
  wp l (prog_bind p f) P.
Proof.
  revert l. induction p as [[a|e]|C m k IH|C q k IH]; intros l H; cbn in *; [done..| |].
  - destruct H as (next & Hinv & Hk). exists next. split; [done|]. intros r. by apply IH.
  - intros x. destruct (H x) as (l' & Hinv & Hk). exists l'. split; [done|]. by apply IH.
Qed.
Lemma wp_forget {A} l (p : prog A) (P : L -> Prop) :
  wp l p (fun l' _ => P l') -> wp l (forget p) (fun l' _ => P l').
Proof.
  revert l. induction p as [r|C m k IH|C q k IH]; intros l H; cbn in *; [done| |].
  - destruct H as (next & Hinv & Hk). exists next. split; [done|]. intros r. by apply IH.
  - intros x. destruct (H x) as (l' & Hinv & Hk). exists l'. split; [done|]. by apply IH.
Qed.

Definition anything {A} : L -> result E A -> Prop := fun _ _ => True.
Context (may_start : prog unit -> Prop).
Hypothesis Hstart : forall p, may_start p -> wp idle p anything.
Hypothesis Hborn : forall s ls g, inv s ls g -> inv s (ls ++ [idle]) g.
Hypothesis Hdead : forall s a l b g, inv s (a ++ l :: b) g -> inv s (a ++ b) g.

Definition covered (c : system) : Prop :=
  exists ls, Forall2 (fun l p => wp l p anything) ls (pool c) /\ inv (store_of c) ls (log c).

Lemma system_step_covered c c' : system_step may_start c c' -> covered c -> covered c'.
Proof.
  intros H (ls & Hls & Hinv). destruct H as [p s l g Hp|B m k s a b g|B q k x s a b g|p s a b g]; cbn in *.
  - exists (ls ++ [idle]). split; [|by apply Hborn]. apply Forall2_app; [done|]. by repeat constructor; apply Hstart.
  - apply Forall2_app_inv_r in Hls as (la & lb & Ha & Hb & ->).
    apply Forall2_cons_inv_r in Hb as (l & lb' & Hl & Hb & ->). destruct Hl as (next & Hn & Hk).
    exists (la ++ next (m s).2 :: lb'). split; [|by apply Hn]. apply Forall2_app; [done|]. by constructor.
  - apply Forall2_app_inv_r in Hls as (la & lb & Ha & Hb & ->).
    apply Forall2_cons_inv_r in Hb as (l & lb' & Hl & Hb & ->). destruct (Hl x) as (l' & Hn & Hk).
    exists (la ++ l' :: lb'). split; [|by apply Hn]. apply Forall2_app; [done|]. by constructor.
  - apply Forall2_app_inv_r in Hls as (la & lb & Ha & Hb & ->).
    apply Forall2_cons_inv_r in Hb as (l & lb' & _ & Hb & ->).
    exists (la ++ lb'). split; [|by apply Hdead in Hinv]. by apply Forall2_app.
Qed.

(** The invariant holds in every state the system reaches. *)
Lemma system_sound c c' :
  rtc (system_step may_start) c c' -> covered c -> exists ls, inv (store_of c') ls (log c').
Proof.
  induction 1 as [c|c1 c2 c3 Hstep _ IH]; intros Hc.
  - destruct Hc as (ls & _ & Hinv). by exists ls.
  - apply IH. by eapply system_step_covered.
Qed.
End soundness.
End program.
Arguments prog : clear implicits.
Arguments Ret {St E Q A} r.
Arguments Do {St E Q A B} m k.
Arguments Ask {St E Q A B} q k.
Arguments move : clear implicits.
Arguments Launch {St E Q} p.
Arguments Turn {St E Q} i.
Arguments system : clear implicits.

(** An exception handled where it is called. *)
Fixpoint attempt {St E : Type} {Q : Type -> Type} {A} (p : prog St E Q A) : prog St E Q (result E A) :=
  match p with
  | Ret r => Ret (Ok r)
  | Do m k => Do m (fun r => attempt (k r))
  | Ask q k => Ask q (fun x => attempt (k x))
  end.

(** A program of a component, in a system that has the component as a part. *)
Section within.
Context {S W E E' : Type} {Q Q' : Type -> Type} (part : W -> S) (put : S -> W -> W) (err : E -> E') (qq : forall B, Q B -> Q' B).
Definition stm_within {A} (m : stm S E A) : stm W E' A := fun w =>
  let (s, r) := m (part w) in (put s w, match r with Ok a => Ok a | Err e => Err (err e) end).
(** The part's exceptions are kept as values until the program ends. *)
Definition step_within {A} (m : stm S E A) : stm W E' (result E A) := fun w => let (s, r) := m (part w) in (put s w, Ok r).
Fixpoint prog_within {A} (p : prog S E Q A) : prog W E' Q' A :=
  match p with
  | Ret (Ok a) => Ret (Ok a)
  | Ret (Err e) => Ret (Err (err e))
  | Do m k => Do (step_within m) (fun r => match r with Ok r => prog_within (k r) | Err e => Ret (Err e) end)
  | Ask q k => Ask (qq _ q) (fun x => prog_within (k x))
  end.
End within.

Declare Scope prog_scope.
Delimit Scope prog_scope with prog.
Notation "x <- m ;; k" := (prog_bind m (fun x => k))
  (at level 100, m at next level, right associativity) : prog_scope.
Notation "m ;; k" := (prog_bind m (fun _ => k))
  (at level 100, right associativity) : prog_scope.
