(* ===== verification/PyValue.v ===== *)
(** * Dynamic Python values

    The policy evaluator, the planner and the workflow models receive plain
    mappings: what a JSON body, a database row or a model proposal contains.
    [pyval] is that data (floats are not used by the modelled code), with
    Python's truthiness, equality, [int()] and [set()] on it, and how a value
    compares with a text column ([bind_text]).  Text is kept as its
    UTF-8 bytes. *)

From stdpp Require Import pretty.
From S2P Require Import Prelude.

Inductive pyval : Type :=
| VNone
| VBool (b : bool)
| VInt (z : Z)
| VStr (s : string)
| VList (l : list pyval)
| VDict (d : list (string * pyval)).

(** The exceptions the dynamic operations raise. *)
Inductive pyexn : Type :=
| TypeError
| ValueError
| KeyError
| LookupError
| InvalidOperation.

Global Instance pyexn_eq_dec : EqDecision pyexn.
Proof. solve_decision. Defined.

Section induction.
Variable P : pyval -> Prop.
Hypothesis HNone : P VNone.
Hypothesis HBool : forall b, P (VBool b).
Hypothesis HInt : forall z, P (VInt z).
Hypothesis HStr : forall s, P (VStr s).
Hypothesis HList : forall l, Forall P l -> P (VList l).
Hypothesis HDict : forall d, Forall (fun kv => P kv.2) d -> P (VDict d).

(** Induction with the hypothesis on every element and every field. *)
Fixpoint pyval_ind' (v : pyval) : P v :=
  match v with
  | VNone => HNone
  | VBool b => HBool b
  | VInt z => HInt z
  | VStr s => HStr s
  | VList l =>
      HList l ((fix go l : Forall P l :=
        match l with
        | [] => Forall_nil_2 P
        | x :: l' => Forall_cons_2 P x l' (pyval_ind' x) (go l')
        end) l)
  | VDict d =>
      HDict d ((fix go d : Forall (fun kv => P kv.2) d :=
        match d with
        | [] => Forall_nil_2 _
        | x :: d' => Forall_cons_2 _ x d' (pyval_ind' x.2) (go d')
        end) d)
  end.
End induction.

Fixpoint pyval_dec (a b : pyval) {struct a} : {a = b} + {a <> b}.
Proof.
  refine (
    match a, b with
    | VNone, VNone => left eq_refl
    | VBool x, VBool y => cast_if (decide (x = y))
    | VInt x, VInt y => cast_if (decide (x = y))
    | VStr x, VStr y => cast_if (decide (x = y))
    | VList x, VList y => cast_if (@list_eq_dec _ pyval_dec x y)
    | VDict x, VDict y =>
        cast_if (@list_eq_dec _ (@prod_eq_dec _ _ _ pyval_dec) x y)
    | _, _ => right _
    end); abstract congruence.
Defined.
Global Instance pyval_eq_dec : EqDecision pyval := pyval_dec.

(** ** Reading mappings *)

(** [d.get(key)], with [None] for an absent key. *)
Fixpoint dget (d : list (string * pyval)) (key : string) : option pyval :=
  match d with
  | [] => None
  | (k, v) :: d' => if String.eqb k key then Some v else dget d' key
  end.

(** [value.get(key)] of a value already known to be a mapping (the empty
    mapping stands for anything else, as in [x if isinstance(x, Mapping)
    else {}]). *)
Definition as_mapping (v : pyval) : list (string * pyval) :=
  match v with VDict d => d | _ => [] end.

Definition get (d : list (string * pyval)) (key : string) : pyval :=
  default VNone (dget d key).
Definition get_or (d : list (string * pyval)) (key : string) (dflt : pyval)
    : pyval := default dflt (dget d key).

(** ** Truthiness, equality, identity with constants *)

Global Instance truthy_pyval : Truthy pyval := fun v =>
  match v with
  | VNone => false
  | VBool b => b
  | VInt z => negb (Z.eqb z 0)
  | VStr s => negb (String.eqb s "")
  | VList l => match l with [] => false | _ => true end
  | VDict d => match d with [] => false | _ => true end
  end.

(** The integer a number compares as: [True == 1]. *)
Definition as_number (v : pyval) : option Z :=
  match v with
  | VBool b => Some (if b then 1 else 0)%Z
  | VInt z => Some z
  | _ => None
  end.

(** Python's [==]: numbers by value, lists in order, dictionaries by key. *)
Fixpoint py_eqb (a b : pyval) {struct a} : bool :=
  match a with
  | VNone => match b with VNone => true | _ => false end
  | VBool _ | VInt _ =>
      match as_number a, as_number b with
      | Some x, Some y => Z.eqb x y
      | _, _ => false
      end
  | VStr x => match b with VStr y => String.eqb x y | _ => false end
  | VList x =>
      match b with
      | VList y =>
          (fix go (x y : list pyval) : bool :=
             match x, y with
             | [], [] => true
             | u :: x', w :: y' => py_eqb u w && go x' y'
             | _, _ => false
             end) x y
      | _ => false
      end
  | VDict x =>
      match b with
      | VDict y =>
          Nat.eqb (length x) (length y) &&
          forallb (fun kv => match dget y kv.1 with
                             | Some w => py_eqb kv.2 w
                             | None => false
                             end) x
      | _ => false
      end
  end.

Definition py_neqb (a b : pyval) : bool := negb (py_eqb a b).

(** [v is True] and [v is False]. *)
Definition is_true (v : pyval) : bool :=
  match v with VBool true => true | _ => false end.
Definition is_false (v : pyval) : bool :=
  match v with VBool false => true | _ => false end.

(** [v in (c1, ..., cn)] for string constants, and [v == c]. *)
Definition val_in (v : pyval) (l : list string) : bool :=
  match v with VStr s => str_in s l | _ => false end.
Definition val_is (v : pyval) (s : string) : bool :=
  match v with VStr t => String.eqb t s | _ => false end.

Lemma val_is_spec v s : val_is v s = true <-> v = VStr s.
Proof. destruct v; simpl; rewrite ?String.eqb_eq; naive_solver. Qed.

(** ** [int(v)] *)

Definition digit_val (c : ascii) : option Z :=
  let n := Z.of_N (Ascii.N_of_ascii c) in
  if (48 <=? n)%Z && (n <=? 57)%Z then Some (n - 48)%Z else None.

Definition is_py_space (c : ascii) : bool :=
  let n := Ascii.N_of_ascii c in
  N.eqb n 32 || (N.leb 9 n && N.leb n 13) || (N.leb 28 n && N.leb n 31).

Fixpoint lstrip (s : string) : string :=
  match s with
  | String c s' => if is_py_space c then lstrip s' else s
  | "" => ""
  end.
Definition strip (s : string) : string :=
  String.rev (lstrip (String.rev (lstrip s))).

(** Digits with single underscores between them; [prev] says whether the
    character before was a digit. *)
Fixpoint digits_val (s : string) (acc : Z) (prev : bool) : option Z :=
  match s with
  | "" => if prev then Some acc else None
  | String c s' =>
      if Ascii.eqb c (chr 95)
      then if prev then digits_val s' acc false else None
      else match digit_val c with
           | Some d => digits_val s' (acc * 10 + d)%Z true
           | None => None
           end
  end.

Definition parse_int (s : string) : option Z :=
  match strip s with
  | "" => None
  | String c s' =>
      if Ascii.eqb c (chr 45) then Z.opp <$> digits_val s' 0 false
      else if Ascii.eqb c (chr 43) then digits_val s' 0 false
      else digits_val (String c s') 0 false
  end.

(** [int(v)]: a number is itself, text is parsed, anything else is a
    [TypeError]. *)
Definition py_int (v : pyval) : result pyexn Z :=
  match v with
  | VBool b => Ok (if b then 1 else 0)%Z
  | VInt z => Ok z
  | VStr s => match parse_int s with Some z => Ok z | None => Err ValueError end
  | _ => Err TypeError
  end.

(** A value bound to a TEXT column; the binding refuses lists and mappings. *)
Definition bind_text (v : pyval) : option string :=
  match v with
  | VStr t => Some t
  | VInt z => Some (pretty z)
  | VBool b => Some (if b then "1" else "0")
  | _ => None
  end.

(** ** [set(v)] and [sorted(set(v))] *)

Definition hashable (v : pyval) : bool :=
  match v with VList _ | VDict _ => false | _ => true end.

(** The characters of a text, one string each. *)
Fixpoint str_chars (s : string) : list string :=
  match s with
  | "" => []
  | String c s' => String c "" :: str_chars s'
  end.

(** The elements iteration yields. *)
Definition py_iter (v : pyval) : result pyexn (list pyval) :=
  match v with
  | VList l => Ok l
  | VDict d => Ok (map (fun kv => VStr kv.1) d)
  | VStr s => Ok (map VStr (str_chars s))
  | _ => Err TypeError
  end.

Fixpoint py_dedup (l : list pyval) (seen : list pyval) : list pyval :=
  match l with
  | [] => []
  | x :: l' =>
      if existsb (fun y => py_eqb y x) seen then py_dedup l' seen
      else x :: py_dedup l' (x :: seen)
  end.

(** [set(v or ())]: the distinct elements, first occurrence kept. *)
Definition py_set (v : pyval) : result pyexn (list pyval) :=
  if truthy v then
    match py_iter v with
    | Err e => Err e
    | Ok l => if forallb hashable l then Ok (py_dedup l []) else Err TypeError
    end
  else Ok [].

Definition mem (x : pyval) (l : list pyval) : bool :=
  existsb (fun y => py_eqb y x) l.

(** [a.issubset(b)]. *)
Definition subset (a b : list pyval) : bool := forallb (fun x => mem x b) a.

Fixpoint all_strs (l : list pyval) : option (list string) :=
  match l with
  | [] => Some []
  | VStr s :: l' => cons s <$> all_strs l'
  | _ => None
  end.
Fixpoint all_nums (l : list pyval) : bool :=
  match l with
  | [] => true
  | x :: l' => match as_number x with Some _ => all_nums l' | None => false end
  end.

Definition num_le (a b : pyval) : Prop :=
  (default 0 (as_number a) <= default 0 (as_number b))%Z.
Global Instance num_le_dec : RelDecision num_le.
Proof. intros a b. unfold num_le. apply _. Defined.

(** [sorted(l)]: text by code point, numbers by value; mixing the two (or
    comparing [None]) is a [TypeError] as soon as two elements meet. *)
Definition py_sorted (l : list pyval) : result pyexn (list pyval) :=
  match l with
  | [] | [_] => Ok l
  | _ =>
      match all_strs l with
      | Some ss => Ok (map VStr (str_sort ss))
      | None => if all_nums l then Ok (merge_sort num_le l) else Err TypeError
      end
  end.

(** [sorted(set(v or ()))]. *)
Definition py_sorted_set (v : pyval) : result pyexn (list pyval) :=
  match py_set v with Err e => Err e | Ok l => py_sorted l end.

(** ** Scope lists: absent, empty, or a list of texts *)

Definition scope_list (v : pyval) : Prop :=
  truthy v = false \/ exists ss, v = VList (map VStr ss).

Lemma py_dedup_strs ss seen :
  exists ts, py_dedup (map VStr ss) seen = map VStr ts.
Proof.
  revert seen; induction ss as [|s ss IH]; intros seen; simpl; [by exists []|].
  case_match; [apply IH|]. destruct (IH (VStr s :: seen)) as [ts ->].
  by exists (s :: ts).
Qed.

Lemma py_set_scopes v :
  scope_list v -> exists ts, py_set v = Ok (map VStr ts).
Proof.
  intros [H|[ss ->]]; unfold py_set; [rewrite H; by exists []|].
  case_match; [|by exists []]. simpl.
  assert (forallb hashable (map VStr ss) = true) as ->
    by (clear; by induction ss).
  destruct (py_dedup_strs ss []) as [ts ->]. by exists ts.
Qed.

Lemma all_strs_map ss : all_strs (map VStr ss) = Some ss.
Proof. induction ss as [|s ss IH]; simpl; [done|]. by rewrite IH. Qed.

Lemma py_sorted_strs ss : exists ts, py_sorted (map VStr ss) = Ok (map VStr ts).
Proof.
  unfold py_sorted. destruct ss as [|a [|b ss]]; [by exists []|by exists [a]|].
  cbn [map]. change (VStr a :: VStr b :: map VStr ss) with (map VStr (a :: b :: ss)).
  rewrite all_strs_map. by eexists.
Qed.

Lemma py_sorted_set_scopes v :
  scope_list v -> exists ts, py_sorted_set v = Ok (map VStr ts).
Proof.
  intros [ts H]%py_set_scopes. unfold py_sorted_set. rewrite H.
  apply py_sorted_strs.
Qed.
