(* ===== verification/Json.v ===== *)
(** * Canonical JSON

    [dumps v] is [json.dumps(v, ensure_ascii=False, sort_keys=True,
    separators=(",", ":"))], the text every content hash of the orchestrator
    is taken over ([_canonical] of policy.py, planner.py, attestation.py and
    dispatch_ledger.py).  [norm v] sorts the keys of every dictionary; two
    values with the same canonical text have the same normal form
    ([dumps_inj]), so hashing the text binds the whole value. *)

From stdpp Require Import pretty.
From S2P Require Import Prelude PyValue.

(** ** The printer *)

Definition hex_char (n : N) : ascii := if N.ltb n 10 then chr (48 + n) else chr (87 + n).

(** The escape of one character inside a JSON string. *)
Definition esc_char (c : ascii) : string :=
  let n := ord c in
  let bs := String (chr 92) "" in
  if N.eqb n 34 then bs +:+ String (chr 34) ""
  else if N.eqb n 92 then bs +:+ bs
  else if N.eqb n 10 then bs +:+ "n"
  else if N.eqb n 13 then bs +:+ "r"
  else if N.eqb n 9 then bs +:+ "t"
  else if N.eqb n 12 then bs +:+ "f"
  else if N.eqb n 8 then bs +:+ "b"
  else if N.ltb n 32 then
    bs +:+ "u00" +:+ String (hex_char (N.div n 16))
                      (String (hex_char (N.modulo n 16)) "")
  else String c "".

Fixpoint esc (s : string) : string :=
  match s with
  | "" => ""
  | String c s' => esc_char c +:+ esc s'
  end.

Definition quote_char : ascii := chr 34.
Definition quote (s : string) : string :=
  String quote_char (esc s +:+ String quote_char "").

Definition key_le (p q : string * string) : Prop := String.le p.1 q.1.
Global Instance key_le_dec : RelDecision key_le.
Proof. intros p q. unfold key_le. apply _. Defined.

Fixpoint dumps (v : pyval) : string :=
  match v with
  | VNone => "null"
  | VBool true => "true"
  | VBool false => "false"
  | VInt z => pretty z
  | VStr s => quote s
  | VList l => "[" +:+ str_join "," (map dumps l) +:+ "]"
  | VDict d =>
      "{" +:+ str_join ","
        (map snd (merge_sort key_le
          (map (fun kv => (kv.1, quote kv.1 +:+ ":" +:+ dumps kv.2)) d)))
      +:+ "}"
  end.

(** ** The normal form: dictionary keys sorted, at every level *)

Definition field_le (p q : string * pyval) : Prop := String.le p.1 q.1.
Global Instance field_le_dec : RelDecision field_le.
Proof. intros p q. unfold field_le. apply _. Defined.

Fixpoint norm (v : pyval) : pyval :=
  match v with
  | VList l => VList (map norm l)
  | VDict d => VDict (merge_sort field_le (map (fun kv => (kv.1, norm kv.2)) d))
  | _ => v
  end.

(** The printer without the sorting step. *)
Fixpoint dumps_raw (v : pyval) : string :=
  match v with
  | VNone => "null"
  | VBool true => "true"
  | VBool false => "false"
  | VInt z => pretty z
  | VStr s => quote s
  | VList l => "[" +:+ str_join "," (map dumps_raw l) +:+ "]"
  | VDict d =>
      "{" +:+ str_join "," (map (fun kv => quote kv.1 +:+ ":" +:+ dumps_raw kv.2) d)
      +:+ "}"
  end.

(** [json.dumps(value, sort_keys=True, separators=(",", ":"))]: the canonical
    text with every character outside ASCII written as [\uXXXX] escapes of
    its UTF-16 code units. *)
Definition hex4 (n : N) : string :=
  String (hex_char (N.modulo (n / 4096) 16)) (String (hex_char (N.modulo (n / 256) 16))
    (String (hex_char (N.modulo (n / 16) 16)) (String (hex_char (N.modulo n 16)) ""))).
Definition u_escape (n : N) : string := String (chr 92) (String (chr 117) (hex4 n)).
Definition unicode_escape (n : N) : string :=
  if N.ltb n 65536 then u_escape n
  else let m := N.sub n 65536 in
       u_escape (55296 + N.div m 1024) +:+ u_escape (56320 + N.modulo m 1024).
(** [need] continuation bytes of the code point [cp] are still to come. *)
Fixpoint ascii_escape (s : string) (cp : N) (need : nat) : string :=
  match s with
  | "" => ""
  | String c s' =>
      let n := ord c in
      match need with
      | O => if N.ltb n 127 then String c (ascii_escape s' 0 0)
             else if N.eqb n 127 then unicode_escape 127 +:+ ascii_escape s' 0 0
             else if N.ltb n 224 then ascii_escape s' (N.modulo n 32) 1
             else if N.ltb n 240 then ascii_escape s' (N.modulo n 16) 2
             else ascii_escape s' (N.modulo n 8) 3
      | S need' =>
          let cp' := (cp * 64 + N.modulo n 64)%N in
          match need' with
          | O => unicode_escape cp' +:+ ascii_escape s' 0 0
          | S _ => ascii_escape s' cp' need'
          end
      end
  end.
Definition json_text (v : pyval) : string := ascii_escape (dumps v) 0 0.

Section merge_sort_map.
Context {A B : Type} (R : relation A) (Q : relation B).
Context `{!RelDecision R, !RelDecision Q} (f : A -> B).
Hypothesis f_mono : forall x y, R x y <-> Q (f x) (f y).

Lemma list_merge_map l1 l2 :
  list_merge Q (map f l1) (map f l2) = map f (list_merge R l1 l2).
Proof.
  revert l2; induction l1 as [|x l1 IH1]; intros l2; [by destruct l2|].
  induction l2 as [|y l2 IH2]; [done|]. cbn [map].
  rewrite !list_merge_cons, <- (decide_ext _ _ _ _ (f_mono x y)).
  destruct (decide (R x y)); cbn [map]; f_equal; [apply (IH1 (y :: l2))|].
  apply IH2.
Qed.

Lemma merge_list_to_stack_map st l :
  merge_list_to_stack Q (map (option_map (map f)) st) (map f l)
  = map (option_map (map f)) (merge_list_to_stack R st l).
Proof.
  revert l; induction st as [|[l'|] st IH]; intros l; simpl; [done| |done].
  by rewrite list_merge_map, IH.
Qed.

Lemma merge_stack_map st :
  merge_stack Q (map (option_map (map f)) st) = map f (merge_stack R st).
Proof.
  induction st as [|[l'|] st IH]; simpl; [done| |done].
  by rewrite IH, list_merge_map.
Qed.

(** Sorting commutes with a function that preserves the order. *)
Lemma merge_sort_map l : merge_sort Q (map f l) = map f (merge_sort R l).
Proof.
  unfold merge_sort.
  assert (forall st l,
    merge_sort_aux Q (map (option_map (map f)) st) (map f l)
    = map f (merge_sort_aux R st l)) as H.
  { intros st l'; revert st. induction l' as [|x l' IH]; intros st; simpl.
    - apply merge_stack_map.
    - rewrite <- IH. f_equal. apply (merge_list_to_stack_map st [x]). }
  apply (H []).
Qed.
End merge_sort_map.

(** The printer prints the normal form. *)
Lemma dumps_norm v : dumps v = dumps_raw (norm v).
Proof.
  induction v as [| | | |l IH|d IH] using pyval_ind'; simpl; try done.
  - do 3 f_equal. rewrite map_map. induction IH; simpl; [done|congruence].
  - do 3 f_equal.
    set (g := fun kv : string * pyval =>
      (kv.1, quote kv.1 +:+ ":" +:+ dumps_raw kv.2)).
    transitivity (map snd (map g (merge_sort field_le
      (map (fun kv => (kv.1, norm kv.2)) d)))).
    + f_equal. rewrite <- (merge_sort_map field_le key_le g).
      2: { intros [] []. done. }
      f_equal. rewrite map_map. unfold g; simpl.
      induction IH as [|[k v] d Hv _ IH]; simpl; [done|].
      simpl in Hv. by rewrite Hv, IH.
    + rewrite map_map. done.
Qed.

(** ** Unique readability *)

Definition is_num_char (c : ascii) : bool :=
  N.eqb (ord c) 45 || (N.leb 48 (ord c) && N.leb (ord c) 57).

(** What may follow a value: nothing, or a closing or separating mark. *)
Definition ends_value (r : string) : Prop :=
  match r with
  | "" => True
  | String c _ => c = chr 44 \/ c = chr 93 \/ c = chr 125
  end.

(** Reads back the first character of an escaped text. *)
Definition unesc (s : string) : option (ascii * string) :=
  match s with
  | "" => None
  | String c s1 =>
      if N.eqb (ord c) 34 then None
      else if N.eqb (ord c) 92 then
        match s1 with
        | "" => None
        | String e s2 =>
            let m := ord e in
            if N.eqb m 34 then Some (chr 34, s2)
            else if N.eqb m 92 then Some (chr 92, s2)
            else if N.eqb m 110 then Some (chr 10, s2)
            else if N.eqb m 114 then Some (chr 13, s2)
            else if N.eqb m 116 then Some (chr 9, s2)
            else if N.eqb m 102 then Some (chr 12, s2)
            else if N.eqb m 98 then Some (chr 8, s2)
            else match s2 with
                 | String _ (String _ (String h (String l s3))) =>
                     let dig c := if N.leb (ord c) 57 then (ord c - 48)%N
                                  else (ord c - 87)%N in
                     Some (chr (16 * dig h + dig l), s3)
                 | _ => None
                 end
        end
      else Some (c, s1)
  end.

Lemma unesc_esc c r : unesc (esc_char c +:+ r) = Some (c, r).
Proof. destruct c as [[] [] [] [] [] [] [] []]; reflexivity. Qed.

Lemma esc_prefix s1 s2 r1 r2 :
  esc s1 +:+ String quote_char r1 = esc s2 +:+ String quote_char r2 ->
  s1 = s2 /\ r1 = r2.
Proof.
  revert s2; induction s1 as [|c1 s1 IH]; intros [|c2 s2]; cbn [esc].
  - intros H. by injection H as ->.
  - intros H. apply (f_equal unesc) in H. rewrite str_app_assoc, unesc_esc in H.
    discriminate H.
  - intros H. apply (f_equal unesc) in H. rewrite str_app_assoc, unesc_esc in H.
    discriminate H.
  - intros H. apply (f_equal unesc) in H.
    rewrite !str_app_assoc, !unesc_esc in H. injection H as -> H.
    apply IH in H as [-> ->]. done.
Qed.

Lemma quote_prefix s1 s2 r1 r2 :
  quote s1 +:+ r1 = quote s2 +:+ r2 -> s1 = s2 /\ r1 = r2.
Proof.
  unfold quote. rewrite !str_app_cons, !str_app_assoc. intros H.
  apply esc_prefix with (r1 := r1) (r2 := r2). by injection H.
Qed.

Lemma num_prefix s1 s2 r1 r2 :
  str_forallb is_num_char s1 = true -> str_forallb is_num_char s2 = true ->
  ends_value r1 -> ends_value r2 ->
  s1 +:+ r1 = s2 +:+ r2 -> s1 = s2 /\ r1 = r2.
Proof.
  assert (forall c s r, is_num_char c = true -> ends_value r ->
    String c s = r -> False) as Hnot.
  { intros c s r Hc Hr <-. simpl in Hr. by destruct Hr as [->|[->| ->]]. }
  revert s2; induction s1 as [|c1 s1 IH]; intros [|c2 s2]; simpl;
    intros H1 H2 Hr1 Hr2 H; rewrite ?str_app_cons, ?str_app_nil in H;
    bool_hyps; [done|exfalso; eauto|exfalso; eauto|].
  injection H as -> H. apply IH in H as [-> ->]; auto.
Qed.

Lemma pretty_N_go_num n acc :
  str_forallb is_num_char acc = true ->
  str_forallb is_num_char (pretty_N_go n acc) = true.
Proof.
  revert acc. induction (N.lt_wf_0 n) as [n _ IH]. intros acc Hacc.
  destruct (decide (n = 0)%N) as [->|Hn]; [by rewrite pretty_N_go_0|].
  rewrite pretty_N_go_step by lia. apply IH; [apply N.div_lt; lia|].
  simpl. rewrite Hacc, andb_true_r.
  unfold pretty_N_char. by repeat case_match.
Qed.

Lemma pretty_N_num (n : N) : str_forallb is_num_char (pretty n) = true /\ pretty n <> "".
Proof.
  unfold pretty, pretty_N. destruct (decide (n = 0)%N) as [->|Hn]; [done|].
  split; [by apply pretty_N_go_num|].
  rewrite pretty_N_go_step by lia.
  enough (forall m acc, acc <> "" -> pretty_N_go m acc <> "") as Hne by by apply Hne.
  intros m. induction (N.lt_wf_0 m) as [m _ IH]. intros acc Hacc.
  destruct (decide (m = 0)%N) as [->|Hm]; [by rewrite pretty_N_go_0|].
  rewrite pretty_N_go_step by lia. by apply IH; [apply N.div_lt; lia|].
Qed.

Lemma pretty_Z_num (z : Z) :
  str_forallb is_num_char (pretty z) = true /\ pretty z <> "".
Proof.
  unfold pretty, pretty_Z. destruct z as [|p|p]; simpl; [done| |].
  - apply (pretty_N_num (Npos p)).
  - destruct (pretty_N_num (Npos p)) as [H _]. done.
Qed.

Lemma str_cons_inj (c1 c2 : ascii) (s1 s2 : string) :
  String c1 s1 = String c2 s2 -> c1 = c2 /\ s1 = s2.
Proof. by intros [= -> ->]. Qed.

(** The text a list of printed elements has between its brackets. *)
Fixpoint joined (l : list string) (close : ascii) (r : string) : string :=
  match l with
  | [] => String close r
  | [x] => x +:+ String close r
  | x :: l' => x +:+ String (chr 44) (joined l' close r)
  end.

Lemma str_join_joined l close r :
  str_join "," l +:+ String close "" +:+ r = joined l close r.
Proof.
  induction l as [|x [|y l] IH]; [done|done|].
  cbn [str_join joined] in *. rewrite !str_app_assoc. f_equal.
  change ("," +:+ str_join "," (y :: l) +:+ String close "" +:+ r)
    with (String (chr 44) (str_join "," (y :: l) +:+ String close "" +:+ r)).
  cbn [str_join]. by rewrite IH.
Qed.

Section elements.
Context {A : Type} (pr : A -> string) (close : ascii).
Hypothesis close_ends : close = chr 93 \/ close = chr 125.
(** An element is readable when its text followed by the end of a value
    determines it, and its text does not begin with a closing mark. *)
Definition readable (x : A) : Prop :=
  (forall y r1 r2, ends_value r1 -> ends_value r2 ->
     pr x +:+ r1 = pr y +:+ r2 -> x = y /\ r1 = r2).
Definition opens (x : A) : Prop :=
  exists c s, pr x = String c s /\ c <> chr 93 /\ c <> chr 125.
Hypothesis all_open : forall x, opens x.

Lemma joined_prefix l1 l2 r1 r2 :
  Forall readable l1 ->
  joined (map pr l1) close r1 = joined (map pr l2) close r2 ->
  l1 = l2 /\ r1 = r2.
Proof.
  assert (forall r, ends_value (String close r)) as Hend
    by (intros; simpl; tauto).
  assert (forall r, ends_value (String (chr 44) r)) as Hcomma
    by (intros; simpl; tauto).
  assert (forall x r t, pr x +:+ r = String close t -> False) as Hopen.
  { intros x r t H. destruct (all_open x) as (c & s & Hx & ? & ?).
    rewrite Hx, str_app_cons in H. injection H as -> _.
    by destruct close_ends. }
  assert (chr 44 <> close) as Hne by (by destruct close_ends as [->| ->]).
  intros Hl; revert l2; induction Hl as [|x l1 Hx Hl IH].
  { intros [|y [|z l2]] H; cbn [map joined] in H.
    - by injection H as ->.
    - symmetry in H. by apply Hopen in H.
    - symmetry in H. by apply Hopen in H. }
  intros [|y l2] H.
  { destruct l1; cbn [map joined] in H; by apply Hopen in H. }
  destruct l1 as [|x' l1], l2 as [|y' l2]; cbn [map joined] in H;
    apply Hx in H as [-> H]; auto; injection H as H; try done.
  cbn [map joined] in IH. destruct (IH (y' :: l2) H) as [-> ->]. done.
Qed.
End elements.

(** The first character of a printed value tells its kind and is never a
    closing mark. *)
Lemma dumps_raw_opens v : opens dumps_raw v.
Proof.
  destruct v as [|[]|z|s|l|d]; try (eexists _, _; split; [reflexivity|done]).
  destruct (pretty_Z_num z) as [Hn Hne]. unfold opens. simpl.
  destruct (pretty z) as [|c s]; [done|]. simpl in Hn. bool_hyps.
  exists c, s. split; [done|]. split; intros ->; done.
Qed.

Definition dumps_field (kv : string * pyval) : string :=
  quote kv.1 +:+ ":" +:+ dumps_raw kv.2.

Lemma dumps_field_opens kv : opens dumps_field kv.
Proof. eexists _, _. split; [reflexivity|done]. Qed.

Lemma dumps_list_eq l r :
  dumps_raw (VList l) +:+ r = String (chr 91) (joined (map dumps_raw l) (chr 93) r).
Proof.
  cbn [dumps_raw]. rewrite !str_app_assoc. rewrite <- str_join_joined. done.
Qed.

Lemma dumps_dict_eq d r :
  dumps_raw (VDict d) +:+ r = String (chr 123) (joined (map dumps_field d) (chr 125) r).
Proof.
  cbn [dumps_raw]. rewrite !str_app_assoc. rewrite <- str_join_joined. done.
Qed.

Lemma dumps_field_readable kv :
  readable dumps_raw kv.2 -> readable dumps_field kv.
Proof.
  intros Hv [k2 v2] r1 r2 H1 H2 H. destruct kv as [k v]. unfold dumps_field in H.
  cbn [fst snd] in *. rewrite !str_app_assoc in H.
  apply quote_prefix in H as [-> H]. injection H as H.
  apply Hv in H as [-> ->]; auto.
Qed.

Ltac other_kind H :=
  exfalso; revert H; rewrite ?dumps_list_eq, ?dumps_dict_eq;
  cbn [dumps_raw]; unfold quote; rewrite ?str_app_cons; discriminate.

(** A number's text begins with a digit or a sign, and no other kind's does. *)
Lemma num_kind (z : Z) v r1 r2 :
  pretty z +:+ r1 = dumps_raw v +:+ r2 -> exists z', v = VInt z'.
Proof.
  destruct (pretty_Z_num z) as [Hn Hne]. destruct (pretty z) as [|c s]; [done|].
  cbn [str_forallb] in Hn. bool_hyps. rewrite str_app_cons. intros H'.
  destruct v as [|[]|z'|s'|l|d]; [..|by eexists| | |]; exfalso; revert H';
    rewrite ?dumps_list_eq, ?dumps_dict_eq; cbn [dumps_raw]; unfold quote;
    rewrite ?str_app_cons; injection 1 as -> _; done.
Qed.

Ltac same_text H :=
  cbn [dumps_raw] in H; rewrite !str_app_cons, !str_app_nil in H; by injection H as ->.
Ltac not_number H := by (symmetry in H; apply num_kind in H as [? ?]).

(** Unique readability of the canonical text. *)
Lemma dumps_raw_readable v : readable dumps_raw v.
Proof.
  induction v as [|[]| | |l IH|d IH] using pyval_ind'; intros w r1 r2 H1 H2 H;
    [| | |destruct (num_kind _ _ _ _ H) as [z' ->]; cbn [dumps_raw] in H;
       apply num_prefix in H as [H ->]; [|apply pretty_Z_num..|done|done];
       by apply (inj pretty) in H as -> | | |];
    destruct w as [|[]|z'|s'|l'|d'];
    first [not_number H | same_text H | other_kind H | idtac].
  - by apply quote_prefix in H as [-> ->].
  - rewrite !dumps_list_eq in H. injection H as H.
    apply joined_prefix in H as [-> ->]; auto using dumps_raw_opens.
  - rewrite !dumps_dict_eq in H. injection H as H.
    apply joined_prefix in H as [-> ->]; auto using dumps_field_opens.
    eapply Forall_impl; [done|]. intros kv. apply dumps_field_readable.
Qed.

(** The canonical text determines the value up to the order of keys. *)
Lemma dumps_inj v w : dumps v = dumps w -> norm v = norm w.
Proof.
  rewrite !dumps_norm. intros H.
  destruct (dumps_raw_readable (norm v) (norm w) "" "") as [-> _]; simpl; auto.
  by rewrite H.
Qed.

(** Two values with the same normal form answer every key alike, whatever
    the order their fields were written in. *)
Lemma dget_in_distinct (d : list (string * pyval)) k v : NoDup d.*1 -> (k, v) ∈ d -> dget d k = Some v.
Proof.
  induction d as [|[k' v'] d IH]; cbn; [intros _ H; by apply elem_of_nil in H|]. intros [Hk Hd]%NoDup_cons [[= <- <-]|H]%elem_of_cons.
  - by rewrite String.eqb_refl.
  - destruct (String.eqb_spec k' k) as [->|]; [|by apply IH]. destruct Hk. apply list_elem_of_fmap. by exists (k, v).
Qed.
Lemma dget_perm (d1 d2 : list (string * pyval)) k :
  NoDup d1.*1 -> d1 ≡ₚ d2 -> dget d1 k = dget d2 k.
Proof.
  intros Hnd Hp. revert Hnd.
  induction Hp as [|[k1 v1] d1 d2 _ IH|[k1 v1] [k2 v2] d|d1 d2 d3 Hp IH1 _ IH2];
    simpl; intros Hnd; [done| | |].
  - inversion Hnd; subst. case_match; auto.
  - inversion Hnd as [|? ? Hni]; subst.
    destruct (String.eqb k1 k) eqn:H1, (String.eqb k2 k) eqn:H2; bool_hyps;
      subst; try done. exfalso. apply Hni. left.
  - rewrite IH1 by done. apply IH2. by rewrite <- Hp.
Qed.

Lemma dget_map (d : list (string * pyval)) f k :
  dget (map (fun kv => (kv.1, f kv.2)) d) k = f <$> dget d k.
Proof. induction d as [|[k' v] d IH]; simpl; [done|]. by case_match. Qed.

Lemma norm_dict_get d k :
  NoDup d.*1 ->
  exists d', norm (VDict d) = VDict d' /\ dget d' k = norm <$> dget d k.
Proof.
  intros Hnd. eexists. split; [reflexivity|].
  rewrite <- dget_map. symmetry. apply dget_perm.
  - rewrite <- list_fmap_compose. done.
  - symmetry. apply merge_sort_Permutation.
Qed.

(** Equal canonical texts agree, field by field. *)
Lemma dumps_dict_field d1 d2 k :
  NoDup d1.*1 -> NoDup d2.*1 -> dumps (VDict d1) = dumps (VDict d2) ->
  norm <$> dget d1 k = norm <$> dget d2 k.
Proof.
  intros H1 H2 H%dumps_inj.
  destruct (norm_dict_get d1 k H1) as (e1 & Hn1 & <-).
  destruct (norm_dict_get d2 k H2) as (e2 & Hn2 & <-).
  rewrite Hn1, Hn2 in H. by injection H as ->.
Qed.

Example dumps_example :
  dumps (VDict [("b", VInt (-12)); ("a", VList [VStr "x"; VNone; VBool true])])
  = "{" +:+ quote "a" +:+ ":[" +:+ quote "x" +:+ ",null,true]," +:+ quote "b" +:+ ":-12}".
Proof. reflexivity. Qed.
