(* ===== verification/Sha256.v ===== *)
(** * SHA-256

    [hashlib.sha256(text.encode("utf-8")).hexdigest()], the digest of every
    content hash, fingerprint and idempotency identity in the repository
    (FIPS 180-4), executable, over 32-bit words kept as [N].  Its collision
    resistance is not a theorem; the properties that depend on it say which
    two texts would have to collide. *)

From S2P Require Import Prelude.
Local Open Scope N_scope.

Definition w32 (n : N) : N := N.land n 4294967295.
Definition rotr (n x : N) : N :=
  w32 (N.lor (N.shiftr x n) (N.shiftl x (32 - n))).
Definition ch (x y z : N) : N :=
  N.lxor (N.land x y) (N.land (N.lxor x 4294967295) z).
Definition maj (x y z : N) : N :=
  N.lxor (N.lxor (N.land x y) (N.land x z)) (N.land y z).
Definition bsig0 (x : N) : N := N.lxor (N.lxor (rotr 2 x) (rotr 13 x)) (rotr 22 x).
Definition bsig1 (x : N) : N := N.lxor (N.lxor (rotr 6 x) (rotr 11 x)) (rotr 25 x).
Definition ssig0 (x : N) : N := N.lxor (N.lxor (rotr 7 x) (rotr 18 x)) (N.shiftr x 3).
Definition ssig1 (x : N) : N := N.lxor (N.lxor (rotr 17 x) (rotr 19 x)) (N.shiftr x 10).

(** The constants are the first 32 bits of the fractional parts of the cube
    roots (round constants) and square roots (initial state) of the first
    primes, computed here rather than copied. *)
Definition is_prime (n : nat) : bool :=
  Nat.leb 2 n && forallb (fun d => negb (Nat.eqb (n mod d)%nat 0)) (seq 2 (n - 2)).
Definition primes (count : nat) : list N :=
  take count (map N.of_nat (List.filter is_prime (seq 2 320))).

(** [floor (cbrt n)], bit by bit from bit [k - 1] down. *)
Fixpoint icbrt (k : nat) (acc n : N) : N :=
  match k with
  | O => acc
  | S k' =>
      let c := acc + 2 ^ N.of_nat k' in
      icbrt k' (if c * c * c <=? n then c else acc) n
  end.

Definition k256 : list N :=
  Eval vm_compute in map (fun p => w32 (icbrt 40 0 (p * 2 ^ 96))) (primes 64).
Definition h256 : list N :=
  Eval vm_compute in map (fun p => w32 (N.sqrt (p * 2 ^ 64))) (primes 8).

Fixpoint bytes_of (s : string) : list N :=
  match s with "" => [] | String c s' => ord c :: bytes_of s' end.

(** The big-endian bytes of the message length. *)
Fixpoint be_bytes (k : nat) (n : N) : list N :=
  match k with O => [] | S k' => be_bytes k' (n / 256) ++ [n mod 256] end.

Definition pad (m : list N) : list N :=
  let len := N.of_nat (length m) in
  let zeros := (119 - len mod 64) mod 64 in
  m ++ [128] ++ replicate (N.to_nat zeros) 0 ++ be_bytes 8 (8 * len).

Fixpoint words_of (m : list N) : list N :=
  match m with
  | a :: b :: c :: d :: m' =>
      (a * 16777216 + b * 65536 + c * 256 + d) :: words_of m'
  | _ => []
  end.

(** The message schedule, extended one word at a time; [rw] is the schedule
    so far, newest first. *)
Fixpoint extend (k : nat) (rw : list N) : list N :=
  match k with
  | O => rev rw
  | S k' =>
      let w i := nth i rw 0 in
      extend k' (w32 (ssig1 (w 1%nat) + w 6%nat + ssig0 (w 14%nat) + w 15%nat) :: rw)
  end.
Definition schedule (block : list N) : list N := extend 48 (rev block).

Definition round (st : list N) (kw : N * N) : list N :=
  match st with
  | [a; b; c; d; e; f; g; h] =>
      let t1 := h + bsig1 e + ch e f g + kw.1 + kw.2 in
      let t2 := bsig0 a + maj a b c in
      [w32 (t1 + t2); a; b; c; w32 (d + t1); e; f; g]
  | _ => st
  end.

Definition compress (st : list N) (block : list N) : list N :=
  zip_with (fun x y => w32 (x + y)) st
    (foldl round st (zip k256 (schedule block))).

Fixpoint blocks (fuel : nat) (st : list N) (ws : list N) : list N :=
  match fuel, ws with
  | S fuel', _ :: _ => blocks fuel' (compress st (take 16 ws)) (drop 16 ws)
  | _, _ => st
  end.

Definition hex_digit (n : N) : ascii := if n <? 10 then chr (48 + n) else chr (87 + n).
Fixpoint hex_word (k : nat) (n : N) (acc : string) : string :=
  match k with
  | O => acc
  | S k' => hex_word k' (n / 16) (String (hex_digit (n mod 16)) acc)
  end.

(** [hashlib.sha256(s.encode()).hexdigest()]. *)
Definition sha256 (s : string) : string :=
  let ws := words_of (pad (bytes_of s)) in
  foldr (fun w acc => hex_word 8 w acc) "" (blocks (length ws) h256 ws).

(** Two texts that a second-preimage attack would have to find. *)
Definition collides (a b : string) : Prop := a <> b /\ sha256 a = sha256 b.

Example sha256_abc :
  sha256 "abc" = "ba7816bf8f01cfea414140de5dae2223b00361a396177a9cb410ff61f20015ad".
Proof. vm_compute. reflexivity. Qed.
Example sha256_empty :
  sha256 "" = "e3b0c44298fc1c149afbf4c8996fb92427ae41e4649b934ca495991b7852b855".
Proof. vm_compute. reflexivity. Qed.
Example sha256_two_blocks :
  sha256 "abcdbcdecdefdefgefghfghighijhijkijkljklmklmnlmnomnopnopq"
  = "248d6a61d20638b8e5c026930c3e6039a33ce45964ff2167f6ecedd419db06c1".
Proof. vm_compute. reflexivity. Qed.
