(* ===== verification/Uuid.v ===== *)
(** * Name-based identifiers

    [uuid.uuid5(uuid.NAMESPACE_URL, name)]: SHA-1 (FIPS 180-4) of the namespace
    and the name, with the version and the variant put in (RFC 4122).  The
    identifiers of provider connections are made this way. *)

From S2P Require Import Prelude Sha256.
Local Open Scope N_scope.

Definition rotl (n x : N) : N := w32 (N.lor (N.shiftl x n) (N.shiftr x (32 - n))).
Definition h160 : list N := [1732584193; 4023233417; 2562383102; 271733878; 3285377520].

Fixpoint extend160 (k : nat) (rw : list N) : list N :=
  match k with
  | O => rev rw
  | S k' =>
      let w i := nth i rw 0 in
      extend160 k' (rotl 1 (N.lxor (N.lxor (w 2%nat) (w 7%nat)) (N.lxor (w 13%nat) (w 15%nat))) :: rw)
  end.
Definition parity (x y z : N) : N := N.lxor (N.lxor x y) z.
Definition step160 (t : nat) (b c d : N) : N * N :=
  if Nat.ltb t 20 then (ch b c d, 1518500249)
  else if Nat.ltb t 40 then (parity b c d, 1859775393)
  else if Nat.ltb t 60 then (maj b c d, 2400959708)
  else (parity b c d, 3395469782).
Definition round160 (st : list N) (tw : nat * N) : list N :=
  match st with
  | [a; b; c; d; e] =>
      let (f, k) := step160 tw.1 b c d in
      [w32 (rotl 5 a + f + e + k + tw.2); a; rotl 30 b; c; d]
  | _ => st
  end.
Definition compress160 (st : list N) (block : list N) : list N :=
  zip_with (fun x y => w32 (x + y)) st
    (foldl round160 st (zip (seq 0 80) (extend160 64 (rev block)))).
Fixpoint blocks160 (fuel : nat) (st : list N) (ws : list N) : list N :=
  match fuel, ws with
  | S fuel', _ :: _ => blocks160 fuel' (compress160 st (take 16 ws)) (drop 16 ws)
  | _, _ => st
  end.
(** The digest, as bytes. *)
Definition sha1_bytes (m : list N) : list N :=
  let ws := words_of (pad m) in flat_map (be_bytes 4) (blocks160 (length ws) h160 ws).

Definition NAMESPACE_URL : list N := [107; 167; 184; 17; 157; 173; 17; 209; 128; 180; 0; 192; 79; 212; 48; 200].
Definition stamp (i : nat) (b : N) : N :=
  match i with
  | 6%nat => N.lor (N.land b 15) 80
  | 8%nat => N.lor (N.land b 63) 128
  | _ => b
  end.
Definition hex_byte (b : N) (s : string) : string := hex_word 2 b s.
(** 8-4-4-4-12 digits. *)
Fixpoint uuid_text (i : nat) (l : list N) : string :=
  match l with
  | [] => ""
  | b :: l' =>
      let rest := uuid_text (S i) l' in
      hex_byte b (match i with 3%nat | 5%nat | 7%nat | 9%nat => String (chr 45) rest | _ => rest end)
  end.
Definition uuid5 (name : string) : string :=
  uuid_text 0 (imap stamp (take 16 (sha1_bytes (NAMESPACE_URL ++ bytes_of name)))).

Example sha1_abc : foldr hex_byte "" (sha1_bytes (bytes_of "abc")) = "a9993e364706816aba3e25717850c26c9cd0d89d".
Proof. by vm_compute. Qed.
Example uuid5_connection : uuid5 "tessera:slack:A1:T1:" = "8c02ef24-32d4-5df0-9870-0771c9177365".
Proof. by vm_compute. Qed.
Example uuid5_two_blocks : uuid5 "xxxxxxxxxxxxxxxxxxxxxxxxxxxxxxxxxxxxxxxxxxxxxxxxxxxxxxxxxxxxxxxxxxxxxx" = "62131fe0-1278-5d5b-a732-4ccb219b77a9".
Proof. by vm_compute. Qed.
