(* ===== verification/Base64.v ===== *)
(** * Base64

    Python's [base64] and [binascii] on bytes: [b64encode]; [b64decode], which
    skips what is not in the alphabet and stops at the padding that ends a
    group; [b64decode(..., validate=True)]; and the URL-safe alphabet.  Keys,
    signatures and callback tokens travel in it. *)

From S2P Require Import Prelude.
Local Open Scope N_scope.

(** ** The alphabet *)

Definition b64_char (n : N) : ascii :=
  if n <? 26 then chr (65 + n) else if n <? 52 then chr (71 + n) else if n <? 62 then chr (n - 4)
  else if n =? 62 then chr 43 else chr 47.
Definition b64_val (c : ascii) : option N :=
  let n := ord c in
  if (65 <=? n) && (n <=? 90) then Some (n - 65)
  else if (97 <=? n) && (n <=? 122) then Some (n - 71)
  else if (48 <=? n) && (n <=? 57) then Some (n + 4)
  else if n =? 43 then Some 62 else if n =? 47 then Some 63 else None.
Definition is_pad (c : ascii) : bool := ord c =? 61.
Definition pad_char : ascii := chr 61.

(** ** Encoding *)

Fixpoint b64encode (s : string) : string :=
  match s with
  | "" => ""
  | String a "" =>
      String (b64_char (ord a / 4)) (String (b64_char (ord a mod 4 * 16)) (String pad_char (String pad_char "")))
  | String a (String b "") =>
      String (b64_char (ord a / 4)) (String (b64_char (ord a mod 4 * 16 + ord b / 16))
        (String (b64_char (ord b mod 16 * 4)) (String pad_char "")))
  | String a (String b (String c s')) =>
      String (b64_char (ord a / 4)) (String (b64_char (ord a mod 4 * 16 + ord b / 16))
        (String (b64_char (ord b mod 16 * 4 + ord c / 64)) (String (b64_char (ord c mod 64)) (b64encode s'))))
  end.

(** ** Decoding *)

(** [binascii.a2b_base64]: [quad] characters of the group were read and [left]
    is what is left of them; [pads] counts the padding since. *)
Fixpoint a2b (s : string) (quad left : N) (pads : N) : option string :=
  match s with
  | "" => if quad =? 0 then Some "" else None
  | String c s' =>
      if is_pad c then
        if 2 <=? quad then if 4 <=? quad + (pads + 1) then Some "" else a2b s' quad left (pads + 1)
        else a2b s' quad left pads
      else match b64_val c with
      | None => a2b s' quad left pads
      | Some v =>
          if quad =? 0 then a2b s' 1 v 0
          else if quad =? 1 then String (chr (left * 4 + v / 16)) <$> a2b s' 2 (v mod 16) 0
          else if quad =? 2 then String (chr (left * 16 + v / 4)) <$> a2b s' 3 (v mod 4) 0
          else String (chr (left * 64 + v)) <$> a2b s' 0 0 0
      end
  end.
(** [None] is [binascii.Error], a [ValueError]. *)
Definition b64decode (s : string) : option string := a2b s 0 0 0.

(** [re.fullmatch(b'[A-Za-z0-9+/]*={0,2}', s)]. *)
Fixpoint well_formed (s : string) : bool :=
  match s with
  | "" => true
  | String c s' =>
      match b64_val c with
      | Some _ => well_formed s'
      | None => is_pad c && (String.eqb s' "" || String.eqb s' (String pad_char ""))
      end
  end.
Definition b64decode_strict (s : string) : option string := if well_formed s then b64decode s else None.

(** *** The URL-safe alphabet *)

Fixpoint map_string (f : ascii -> ascii) (s : string) : string :=
  match s with "" => "" | String c s' => String (f c) (map_string f s') end.
Definition to_url (c : ascii) : ascii :=
  if ord c =? 43 then chr 45 else if ord c =? 47 then chr 95 else c.
Definition from_url (c : ascii) : ascii :=
  if ord c =? 45 then chr 43 else if ord c =? 95 then chr 47 else c.
Definition urlsafe_b64encode (s : string) : string := map_string to_url (b64encode s).
Definition urlsafe_b64decode (s : string) : option string := b64decode (map_string from_url s).

(** ** Decoding what was encoded *)

Lemma ord_bound c : ord c < 256.
Proof. destruct c as [[] [] [] [] [] [] [] []]; done. Qed.
Lemma chr_ord c : chr (ord c) = c.
Proof. apply Ascii.ascii_N_embedding. Qed.
Lemma b64_val_char n : n < 64 -> b64_val (b64_char n) = Some n.
Proof.
  intros Hn. assert (exists k, n = N.of_nat k /\ (k < 64)%nat) as (k & -> & Hk) by (exists (N.to_nat n); lia).
  do 64 (destruct k as [|k]; [reflexivity|]). lia.
Qed.
Lemma b64_char_pad n : n < 64 -> is_pad (b64_char n) = false.
Proof.
  intros Hn. assert (exists k, n = N.of_nat k /\ (k < 64)%nat) as (k & -> & Hk) by (exists (N.to_nat n); lia).
  do 64 (destruct k as [|k]; [reflexivity|]). lia.
Qed.
(** One character of a group. *)
Lemma a2b_char n s quad left pads :
  n < 64 ->
  a2b (String (b64_char n) s) quad left pads
  = if quad =? 0 then a2b s 1 n 0
    else if quad =? 1 then String (chr (left * 4 + n / 16)) <$> a2b s 2 (n mod 16) 0
    else if quad =? 2 then String (chr (left * 16 + n / 4)) <$> a2b s 3 (n mod 4) 0
    else String (chr (left * 64 + n)) <$> a2b s 0 0 0.
Proof. intros Hn. cbn [a2b]. by rewrite b64_char_pad, b64_val_char. Qed.

Lemma string_ind3 (P : string -> Prop) :
  P "" -> (forall a, P (String a "")) -> (forall a b, P (String a (String b ""))) ->
  (forall a b c s, P s -> P (String a (String b (String c s)))) -> forall s, P s.
Proof.
  intros H0 H1 H2 H3. fix IH 1. intros [|a [|b [|c s]]]; [apply H0|apply H1|apply H2|apply H3, IH].
Qed.

Local Ltac Zify.zify_post_hook ::= Z.to_euclidean_division_equations.
Lemma join_high a x : x < 16 -> a / 4 * 4 + (a mod 4 * 16 + x) / 16 = a.
Proof. lia. Qed.
Lemma rest_high a x : x < 16 -> (a mod 4 * 16 + x) mod 16 = x.
Proof. lia. Qed.
Lemma join_mid b x : x < 4 -> b / 16 * 16 + (b mod 16 * 4 + x) / 4 = b.
Proof. lia. Qed.
Lemma rest_mid b x : x < 4 -> (b mod 16 * 4 + x) mod 4 = x.
Proof. lia. Qed.
Lemma join_low c : c / 64 * 64 + c mod 64 = c.
Proof. lia. Qed.
Lemma sextets a b c :
  a < 256 -> b < 256 -> c < 256 ->
  a / 4 < 64 /\ a mod 4 * 16 + b / 16 < 64 /\ a mod 4 * 16 < 64 /\ b mod 16 * 4 < 64
  /\ b mod 16 * 4 + c / 64 < 64 /\ c mod 64 < 64 /\ b / 16 < 16 /\ c / 64 < 4.
Proof. lia. Qed.

(** Every byte string is read back, whatever padding was counted before. *)
Lemma a2b_encode s left pads : a2b (b64encode s) 0 left pads = Some s.
Proof.
  revert left pads. induction s as [|a|a b|a b c s IH] using string_ind3; intros left pads; [done|..]; cbn [b64encode].
  - destruct (sextets (ord a) 0 0) as (H1 & _ & H2 & _); [apply ord_bound|done..|].
    rewrite a2b_char by done. cbn [N.eqb]. rewrite a2b_char by done. cbn [N.eqb Pos.eqb].
    pose proof (join_high (ord a) 0 eq_refl) as Hj. rewrite N.add_0_r in Hj. rewrite Hj, chr_ord. done.
  - destruct (sextets (ord a) (ord b) 0) as (H1 & H2 & _ & H3 & _ & _ & H4 & _); [apply ord_bound..|done|].
    rewrite a2b_char by done. cbn [N.eqb]. rewrite a2b_char by done. cbn [N.eqb Pos.eqb].
    rewrite join_high, rest_high, chr_ord by done. rewrite a2b_char by done. cbn [N.eqb Pos.eqb].
    pose proof (join_mid (ord b) 0 eq_refl) as Hj. rewrite N.add_0_r in Hj. rewrite Hj, chr_ord. done.
  - destruct (sextets (ord a) (ord b) (ord c)) as (H1 & H2 & _ & _ & H3 & H4 & H5 & H6); [apply ord_bound..|].
    rewrite a2b_char by done. cbn [N.eqb]. rewrite a2b_char by done. cbn [N.eqb Pos.eqb].
    rewrite join_high, rest_high, chr_ord by done. rewrite a2b_char by done. cbn [N.eqb Pos.eqb].
    rewrite join_mid, rest_mid, chr_ord by done. rewrite a2b_char by done. cbn [N.eqb Pos.eqb].
    rewrite join_low, chr_ord. by rewrite IH.
Qed.
Lemma b64decode_encode s : b64decode (b64encode s) = Some s.
Proof. apply a2b_encode. Qed.
Lemma b64encode_inj s t : b64encode s = b64encode t -> s = t.
Proof. intros H. apply (f_equal b64decode) in H. rewrite !b64decode_encode in H. by injection H. Qed.

Lemma well_formed_char n s : n < 64 -> well_formed (String (b64_char n) s) = well_formed s.
Proof. intros Hn. cbn [well_formed]. by rewrite b64_val_char. Qed.
Lemma well_formed_encode s : well_formed (b64encode s) = true.
Proof.
  induction s as [|a|a b|a b c s IH] using string_ind3; [done|..]; cbn [b64encode].
  - destruct (sextets (ord a) 0 0) as (H1 & _ & H2 & _); [apply ord_bound|done..|]. by rewrite !well_formed_char.
  - destruct (sextets (ord a) (ord b) 0) as (H1 & H2 & _ & H3 & _); [apply ord_bound..|done|].
    by rewrite !well_formed_char.
  - destruct (sextets (ord a) (ord b) (ord c)) as (H1 & H2 & _ & _ & H3 & H4 & _); [apply ord_bound..|].
    by rewrite !well_formed_char.
Qed.
Lemma b64decode_strict_encode s : b64decode_strict (b64encode s) = Some s.
Proof. unfold b64decode_strict. by rewrite well_formed_encode, b64decode_encode. Qed.

(** *** URL-safe, with the padding cut off and put back *)

(** [value.rstrip("=")]. *)
Fixpoint rstrip_pad (s : string) : string :=
  match s with
  | "" => ""
  | String c s' => match rstrip_pad s' with
                   | "" => if is_pad c then "" else String c ""
                   | t => String c t
                   end
  end.
(** ["=" * (-len(value) % 4)]. *)
Definition padding (s : string) : string :=
  match str_length s mod 4 with
  | 1 => String pad_char (String pad_char (String pad_char ""))
  | 2 => String pad_char (String pad_char "")
  | 3 => String pad_char ""
  | _ => ""
  end%nat.
Lemma url_back_char n : n < 64 -> from_url (to_url (b64_char n)) = b64_char n.
Proof.
  intros Hn. assert (exists k, n = N.of_nat k /\ (k < 64)%nat) as (k & -> & Hk) by (exists (N.to_nat n); lia).
  do 64 (destruct k as [|k]; [reflexivity|]). lia.
Qed.
Lemma url_pad_char n : n < 64 -> is_pad (to_url (b64_char n)) = false.
Proof.
  intros Hn. assert (exists k, n = N.of_nat k /\ (k < 64)%nat) as (k & -> & Hk) by (exists (N.to_nat n); lia).
  do 64 (destruct k as [|k]; [reflexivity|]). lia.
Qed.
Lemma rstrip_char n s :
  n < 64 -> rstrip_pad (String (to_url (b64_char n)) s) = String (to_url (b64_char n)) (rstrip_pad s).
Proof. intros Hn. cbn [rstrip_pad]. rewrite url_pad_char by done. by destruct (rstrip_pad s). Qed.
Lemma url_unpadded s :
  map_string from_url (rstrip_pad (urlsafe_b64encode s) +:+ padding (rstrip_pad (urlsafe_b64encode s))) = b64encode s.
Proof.
  unfold urlsafe_b64encode. induction s as [|a|a b|a b c s IH] using string_ind3; [done|..]; cbn [b64encode map_string].
  - destruct (sextets (ord a) 0 0) as (H1 & _ & H2 & _); [apply ord_bound|done..|].
    rewrite !rstrip_char by done. change (rstrip_pad (String (to_url pad_char) _)) with "".
    rewrite !str_app_cons, str_app_nil. cbn [map_string]. by rewrite !url_back_char.
  - destruct (sextets (ord a) (ord b) 0) as (H1 & H2 & _ & H3 & _); [apply ord_bound..|done|].
    rewrite !rstrip_char by done. change (rstrip_pad (String (to_url pad_char) _)) with "".
    rewrite !str_app_cons, str_app_nil. cbn [map_string]. by rewrite !url_back_char.
  - destruct (sextets (ord a) (ord b) (ord c)) as (H1 & H2 & _ & _ & H3 & H4 & _); [apply ord_bound..|].
    rewrite !rstrip_char by done. set (t := rstrip_pad _) in *.
    assert (padding (String (to_url (b64_char (ord a / 4))) (String (to_url (b64_char (ord a mod 4 * 16 + ord b / 16)))
      (String (to_url (b64_char (ord b mod 16 * 4 + ord c / 64))) (String (to_url (b64_char (ord c mod 64))) t)))) = padding t) as Hp.
    { unfold padding. cbn [str_length]. change (S (S (S (S (str_length t))))) with (4 + str_length t)%nat.
      rewrite <- Nat.Div0.add_mod_idemp_l. done. }
    rewrite Hp, !str_app_cons. cbn [map_string]. rewrite !url_back_char by done. by rewrite <- IH.
Qed.
Lemma urlsafe_roundtrip s :
  urlsafe_b64decode (rstrip_pad (urlsafe_b64encode s) +:+ padding (rstrip_pad (urlsafe_b64encode s))) = Some s.
Proof. unfold urlsafe_b64decode. by rewrite url_unpadded, b64decode_encode. Qed.

Example b64_hello : b64encode "hello" = "aGVsbG8=" /\ b64decode "aG-Vs bG8=x" = Some "hello" /\ b64decode_strict "aG-Vs bG8=" = None
  /\ b64decode "aGVsbG8" = None.
Proof. done. Qed.
