(* ===== verification/JsonRead.v ===== *)
(** * Reading JSON

    [loads] is [json.loads] on a text, given as its UTF-8 bytes: white space,
    strings with their escapes, whole numbers, arrays, and objects whose last
    duplicate key wins.  Numbers with a fraction or an exponent, [NaN] and the
    infinities read as floats in Python and escaped lone surrogates as text that
    has no encoding; the model of values has neither, and such a document gives
    [Unmodelled].

    [loads_json_text]: what [json.dumps] wrote is read back, with sorted keys. *)

From stdpp Require Import pretty.
From S2P Require Import Prelude PyValue Json Base64.

Inductive loads_error : Type := Malformed | Unmodelled.
Definition reading (A : Type) : Type := result loads_error (A * string).

(** ** Scalars *)

Definition is_json_space (c : ascii) : bool :=
  N.eqb (ord c) 32 || N.eqb (ord c) 9 || N.eqb (ord c) 10 || N.eqb (ord c) 13.
Fixpoint skip_space (s : string) : string :=
  match s with String c s' => if is_json_space c then skip_space s' else s | "" => "" end.

Definition hex_val (c : ascii) : option N :=
  let n := ord c in
  if N.leb 48 n && N.leb n 57 then Some (n - 48)%N
  else if N.leb 97 n && N.leb n 102 then Some (n - 87)%N
  else if N.leb 65 n && N.leb n 70 then Some (n - 55)%N else None.
Definition hex4_val (a b c d : ascii) : option N :=
  match hex_val a, hex_val b, hex_val c, hex_val d with
  | Some w, Some x, Some y, Some z => Some (w * 4096 + x * 256 + y * 16 + z)%N
  | _, _, _, _ => None
  end.

(** The UTF-8 bytes of a code point. *)
Definition utf8 (n : N) : string :=
  if N.ltb n 128 then String (chr n) ""
  else if N.ltb n 2048 then String (chr (192 + n / 64)) (String (chr (128 + n mod 64)) "")
  else if N.ltb n 65536 then
    String (chr (224 + n / 4096)) (String (chr (128 + (n / 64) mod 64)) (String (chr (128 + n mod 64)) ""))
  else String (chr (240 + n / 262144)) (String (chr (128 + (n / 4096) mod 64))
         (String (chr (128 + (n / 64) mod 64)) (String (chr (128 + n mod 64)) ""))).
Definition high_surrogate (n : N) : bool := N.leb 55296 n && N.ltb n 56320.
Definition low_surrogate (n : N) : bool := N.leb 56320 n && N.ltb n 57344.

Definition simple_escape (c : ascii) : option ascii :=
  let n := ord c in
  if N.eqb n 34 || N.eqb n 92 || N.eqb n 47 then Some c
  else if N.eqb n 98 then Some (chr 8) else if N.eqb n 102 then Some (chr 12)
  else if N.eqb n 110 then Some (chr 10) else if N.eqb n 114 then Some (chr 13)
  else if N.eqb n 116 then Some (chr 9) else None.
Definition prefix_with (p : string) (r : reading string) : reading string :=
  match r with Ok (t, s) => Ok (p +:+ t, s) | Err e => Err e end.
(** The rest of a string, after its opening quote. *)
Fixpoint read_string (s : string) : reading string :=
  match s with
  | "" => Err Malformed
  | String c s1 =>
      if N.eqb (ord c) 34 then Ok ("", s1)
      else if N.ltb (ord c) 32 then Err Malformed
      else if negb (N.eqb (ord c) 92) then prefix_with (String c "") (read_string s1)
      else match s1 with
      | "" => Err Malformed
      | String e s2 =>
          if negb (N.eqb (ord e) 117) then
            match simple_escape e with
            | Some x => prefix_with (String x "") (read_string s2)
            | None => Err Malformed
            end
          else match s2 with
          | String h1 (String h2 (String h3 (String h4 s3))) =>
              match hex4_val h1 h2 h3 h4 with
              | None => Err Malformed
              | Some n =>
                  if high_surrogate n then
                    match s3 with
                    | String b (String u (String l1 (String l2 (String l3 (String l4 s4))))) =>
                        if N.eqb (ord b) 92 && N.eqb (ord u) 117 then
                          match hex4_val l1 l2 l3 l4 with
                          | None => Err Malformed
                          | Some m =>
                              if low_surrogate m
                              then prefix_with (utf8 (65536 + (n - 55296) * 1024 + (m - 56320))%N) (read_string s4)
                              else Err Unmodelled
                          end
                        else Err Unmodelled
                    | _ => Err Unmodelled
                    end
                  else if low_surrogate n then Err Unmodelled
                  else prefix_with (utf8 n) (read_string s3)
              end
          | _ => Err Malformed
          end
      end
  end.

Definition digit_of (c : ascii) : option N :=
  let n := ord c in if N.leb 48 n && N.leb n 57 then Some (n - 48)%N else None.
Fixpoint read_digits (s : string) (acc : N) : N * string :=
  match s with
  | String c s' => match digit_of c with Some d => read_digits s' (acc * 10 + d)%N | None => (acc, s) end
  | "" => (acc, "")
  end.
Definition starts_digit (s : string) : bool :=
  match s with String c _ => match digit_of c with Some _ => true | None => false end | "" => false end.
(** A fraction or an exponent follows: the number is a float. *)
Definition is_float_rest (s : string) : bool :=
  match s with
  | String c s' =>
      if N.eqb (ord c) 46 then starts_digit s'
      else if N.eqb (ord c) 101 || N.eqb (ord c) 69 then
        starts_digit s' || match s' with
                           | String g s2 => (N.eqb (ord g) 43 || N.eqb (ord g) 45) && starts_digit s2
                           | "" => false
                           end
      else false
  | "" => false
  end.
Definition read_natural (s : string) : reading N :=
  match s with
  | String c s' =>
      match digit_of c with
      | None => Err Malformed
      | Some d =>
          let (n, r) := if N.eqb d 0 then (0%N, s') else read_digits s' d in
          if is_float_rest r then Err Unmodelled else Ok (n, r)
      end
  | "" => Err Malformed
  end.
Definition read_number (s : string) : reading pyval :=
  match s with
  | String c s' =>
      if N.eqb (ord c) 45 then
        match read_natural s' with Ok (n, r) => Ok (VInt (- Z.of_N n), r) | Err e => Err e end
      else match read_natural s with Ok (n, r) => Ok (VInt (Z.of_N n), r) | Err e => Err e end
  | "" => Err Malformed
  end.

(** ** Values *)

(** Assigning a key: the last value, in the place of the first. *)
Fixpoint dput (d : list (string * pyval)) (k : string) (v : pyval) : list (string * pyval) :=
  match d with
  | [] => [(k, v)]
  | (k', v') :: d' => if String.eqb k' k then (k, v) :: d' else (k', v') :: dput d' k v
  end.
Definition dict_of (l : list (string * pyval)) : list (string * pyval) :=
  fold_left (fun d kv => dput d kv.1 kv.2) l [].
(** [s] after the word [w]. *)
Fixpoint after_word (w s : string) : option string :=
  match w, s with
  | "", _ => Some s
  | String a w', String b s' => if Ascii.eqb a b then after_word w' s' else None
  | _, "" => None
  end.
Definition word_or (w : string) (v : pyval) (s : string) (k : reading pyval) : reading pyval :=
  match after_word w s with Some r => Ok (v, r) | None => k end.
(** Words that read as floats. *)
Definition read_word (s : string) : reading pyval :=
  word_or "null" VNone s (word_or "true" (VBool true) s (word_or "false" (VBool false) s (
    match after_word "NaN" s, after_word "Infinity" s, after_word "-Infinity" s with
    | None, None, None => read_number s
    | _, _, _ => Err Unmodelled
    end))).

Fixpoint read_value (fuel : nat) (s : string) : reading pyval :=
  match fuel with
  | O => Err Malformed
  | S fuel' =>
      match s with
      | "" => Err Malformed
      | String c s1 =>
          if N.eqb (ord c) 34 then
            match read_string s1 with Ok (t, r) => Ok (VStr t, r) | Err e => Err e end
          else if N.eqb (ord c) 123 then
            match skip_space s1 with
            | String c2 r => if N.eqb (ord c2) 125 then Ok (VDict [], r) else read_fields fuel' (String c2 r) []
            | "" => Err Malformed
            end
          else if N.eqb (ord c) 91 then
            match skip_space s1 with
            | String c2 r => if N.eqb (ord c2) 93 then Ok (VList [], r) else read_elements fuel' (String c2 r) []
            | "" => Err Malformed
            end
          else read_word s
      end
  end
with read_fields (fuel : nat) (s : string) (acc : list (string * pyval)) : reading pyval :=
  match fuel with
  | O => Err Malformed
  | S fuel' =>
      match s with
      | String c s1 =>
          if negb (N.eqb (ord c) 34) then Err Malformed else
          match read_string s1 with
          | Err e => Err e
          | Ok (k, s2) =>
              match skip_space s2 with
              | String colon s3 =>
                  if negb (N.eqb (ord colon) 58) then Err Malformed else
                  match read_value fuel' (skip_space s3) with
                  | Err e => Err e
                  | Ok (v, s4) =>
                      match skip_space s4 with
                      | String m r =>
                          if N.eqb (ord m) 125 then Ok (VDict (dict_of (rev ((k, v) :: acc))), r)
                          else if N.eqb (ord m) 44 then read_fields fuel' (skip_space r) ((k, v) :: acc)
                          else Err Malformed
                      | "" => Err Malformed
                      end
                  end
              | "" => Err Malformed
              end
          end
      | "" => Err Malformed
      end
  end
with read_elements (fuel : nat) (s : string) (acc : list pyval) : reading pyval :=
  match fuel with
  | O => Err Malformed
  | S fuel' =>
      match read_value fuel' s with
      | Err e => Err e
      | Ok (v, s1) =>
          match skip_space s1 with
          | String m r =>
              if N.eqb (ord m) 93 then Ok (VList (rev (v :: acc)), r)
              else if N.eqb (ord m) 44 then read_elements fuel' (skip_space r) (v :: acc)
              else Err Malformed
          | "" => Err Malformed
          end
      end
  end.
(** Nothing but white space may follow.  Every call but that of an array for
    its element consumes a character. *)
Definition loads (s : string) : result loads_error pyval :=
  match read_value (S (S (2 * str_length s))) (skip_space s) with
  | Err e => Err e
  | Ok (v, r) => if String.eqb (skip_space r) "" then Ok v else Err Malformed
  end.

Definition q : string := String (chr 34) "".
Example loads_example :
  loads (" {" +:+ q +:+ "a" +:+ q +:+ " : [1, -20 ,{}], " +:+ q +:+ "b" +:+ q +:+ ":null," +:+ q +:+ "a" +:+ q +:+ ":true }")
  = Ok (VDict [("a", VBool true); ("b", VNone)])
  /\ loads "[1,]" = Err Malformed /\ loads "01" = Err Malformed /\ loads "1.5" = Err Unmodelled /\ loads "[1 2]" = Err Malformed
  /\ loads (String (chr 34) ("\ud83d\ude00" +:+ q)) = Ok (VStr (utf8 128512)).
Proof. vm_compute. by split_and!. Qed.

(** ** The fuel is enough *)

Lemma skip_space_length s : str_length (skip_space s) <= str_length s.
Proof. induction s as [|c s IH]; cbn; [done|]. destruct (is_json_space c); cbn; lia. Qed.
Lemma read_string_length s t r : read_string s = Ok (t, r) -> str_length r < str_length s.
Proof.
  remember (str_length s) as n eqn:En. revert s t r En. induction (lt_wf n) as [n _ IH]. intros s t r En H.
  assert (forall p u t, str_length u < n -> prefix_with p (read_string u) = Ok (t, r) -> str_length r < n) as Hp.
  { intros p u t' Hu H'. destruct (read_string u) as [[t0 r0]|e] eqn:E; [|done]. injection H' as _ ->.
    pose proof (IH _ Hu u t0 r eq_refl E). lia. }
  subst n. destruct s as [|c s1]; [done|]. cbn [read_string] in H.
  repeat case_match; try done; simplify_eq; try (cbn; lia); (eapply Hp; [|exact H]; cbn; lia).
Qed.
Lemma read_digits_length s a : str_length (read_digits s a).2 <= str_length s.
Proof. revert a. induction s as [|c s IH]; intros a; cbn; [done|]. destruct (digit_of c); cbn; [|done]. etrans; [apply IH|lia]. Qed.
Lemma read_natural_length s n r : read_natural s = Ok (n, r) -> str_length r < str_length s.
Proof.
  destruct s as [|c s]; [done|]. cbn [read_natural]. destruct (digit_of c) as [d|]; [|done].
  assert (str_length (if N.eqb d 0 then (0%N, s) else read_digits s d).2 <= str_length s) as Hl
    by (destruct (N.eqb d 0); [done|apply read_digits_length]).
  destruct (if N.eqb d 0 then _ else _) as [n' r']. cbn in Hl. destruct (is_float_rest r'); [done|].
  intros [= <- <-]. cbn. lia.
Qed.
Lemma read_number_length s v r : read_number s = Ok (v, r) -> str_length r < str_length s.
Proof.
  destruct s as [|c s]; [done|]. unfold read_number.
  destruct (N.eqb (ord c) 45); [destruct (read_natural s) as [[n r']|e] eqn:E|destruct (read_natural (String c s)) as [[n r']|e] eqn:E];
    try done; intros [= <- <-]; apply read_natural_length in E; cbn in *; lia.
Qed.
Lemma after_word_length w s r : after_word w s = Some r -> str_length r + str_length w = str_length s.
Proof.
  revert s. induction w as [|a w IH]; intros s; [intros [= ->]; cbn; lia|].
  destruct s as [|b s]; [done|]. cbn. destruct (Ascii.eqb a b); [|done]. intros H%IH. lia.
Qed.
Lemma read_word_length s v r : read_word s = Ok (v, r) -> str_length r < str_length s.
Proof.
  unfold read_word, word_or.
  destruct (after_word "null" s) eqn:E1; [intros [= <- <-]; apply after_word_length in E1; cbn in E1; lia|].
  destruct (after_word "true" s) eqn:E2; [intros [= <- <-]; apply after_word_length in E2; cbn in E2; lia|].
  destruct (after_word "false" s) eqn:E3; [intros [= <- <-]; apply after_word_length in E3; cbn in E3; lia|].
  repeat case_match; try done. apply read_number_length.
Qed.

(** A value takes at least one character, and no more fuel than twice the
    length of its text. *)
Lemma read_consumes n :
  (forall s v r, read_value n s = Ok (v, r) -> str_length r < str_length s)
  /\ (forall s acc v r, read_fields n s acc = Ok (v, r) -> str_length r < str_length s)
  /\ (forall s acc v r, read_elements n s acc = Ok (v, r) -> str_length r < str_length s).
Proof.
  induction n as [|n (IHv & IHf & IHe)]; [done|]. split_and!.
  - intros [|c s1] v r; [done|]. cbn [read_value]. pose proof (skip_space_length s1) as Hs.
    destruct (N.eqb (ord c) 34).
    { destruct (read_string s1) as [[t r']|e] eqn:E; [|done]. intros [= <- <-]. apply read_string_length in E. cbn. lia. }
    destruct (N.eqb (ord c) 123).
    { destruct (skip_space s1) as [|c2 r2]; [done|]. cbn in Hs. destruct (N.eqb (ord c2) 125); [intros [= <- <-]; cbn; lia|].
      intros H%IHf. cbn in *. lia. }
    destruct (N.eqb (ord c) 91).
    { destruct (skip_space s1) as [|c2 r2]; [done|]. cbn in Hs. destruct (N.eqb (ord c2) 93); [intros [= <- <-]; cbn; lia|].
      intros H%IHe. cbn in *. lia. }
    apply read_word_length.
  - intros [|c s1] acc v r; [done|]. cbn [read_fields]. destruct (negb _); [done|].
    destruct (read_string s1) as [[k s2]|e] eqn:E; [|done]. apply read_string_length in E.
    pose proof (skip_space_length s2) as H2. destruct (skip_space s2) as [|colon s3]; [done|]. destruct (negb _); [done|].
    pose proof (skip_space_length s3) as H3. destruct (read_value n (skip_space s3)) as [[v' s4]|e] eqn:Ev; [|done].
    apply IHv in Ev. pose proof (skip_space_length s4) as H4. destruct (skip_space s4) as [|m r']; [done|].
    destruct (N.eqb (ord m) 125); [intros [= <- <-]; cbn in *; lia|]. destruct (N.eqb (ord m) 44); [|done].
    intros H%IHf. pose proof (skip_space_length r'). cbn in *. lia.
  - intros s acc v r. cbn [read_elements]. destruct (read_value n s) as [[v' s1]|e] eqn:Ev; [|done]. apply IHv in Ev.
    pose proof (skip_space_length s1) as H1. destruct (skip_space s1) as [|m r']; [done|].
    destruct (N.eqb (ord m) 93); [intros [= <- <-]; cbn in *; lia|]. destruct (N.eqb (ord m) 44); [|done].
    intros H%IHe. pose proof (skip_space_length r'). cbn in *. lia.
Qed.
Lemma read_fuel n :
  (forall s m, 2 * str_length s < n -> 2 * str_length s < m -> read_value n s = read_value m s)
  /\ (forall s acc m, 2 * str_length s < n -> 2 * str_length s < m -> read_fields n s acc = read_fields m s acc)
  /\ (forall s acc m, 2 * str_length s + 1 < n -> 2 * str_length s + 1 < m -> read_elements n s acc = read_elements m s acc).
Proof.
  induction n as [|n (IHv & IHf & IHe)]; [split_and!; intros; lia|].
  split_and!.
  - intros [|c s1] [|m] Hn Hm; try lia; [done|]. cbn [read_value]. cbn [str_length] in *. pose proof (skip_space_length s1) as Hs.
    destruct (N.eqb (ord c) 34); [done|]. destruct (N.eqb (ord c) 123).
    { destruct (skip_space s1) as [|c2 r2]; [done|]. cbn [str_length] in Hs. destruct (N.eqb (ord c2) 125); [done|].
      apply IHf; cbn [str_length]; lia. }
    destruct (N.eqb (ord c) 91); [|done].
    destruct (skip_space s1) as [|c2 r2]; [done|]. cbn [str_length] in Hs. destruct (N.eqb (ord c2) 93); [done|].
    apply IHe; cbn [str_length]; lia.
  - intros [|c s1] acc [|m] Hn Hm; try lia; [done|]. cbn [read_fields]. cbn [str_length] in *. destruct (negb _); [done|].
    destruct (read_string s1) as [[k s2]|e] eqn:E; [|done]. apply read_string_length in E.
    pose proof (skip_space_length s2) as H2. destruct (skip_space s2) as [|colon s3]; [done|]. cbn [str_length] in *.
    destruct (negb _); [done|]. pose proof (skip_space_length s3) as H3.
    rewrite (IHv (skip_space s3) m) by lia. destruct (read_value m (skip_space s3)) as [[v' s4]|e] eqn:Ev; [|done].
    apply (proj1 (read_consumes m)) in Ev. pose proof (skip_space_length s4) as H4. destruct (skip_space s4) as [|c' r']; [done|].
    destruct (N.eqb (ord c') 125); [done|]. destruct (N.eqb (ord c') 44); [|done].
    pose proof (skip_space_length r'). cbn [str_length] in *. apply IHf; lia.
  - intros s acc [|m] Hn Hm; try lia. cbn [read_elements].
    rewrite (IHv s m) by lia. destruct (read_value m s) as [[v' s1]|e] eqn:Ev; [|done].
    apply (proj1 (read_consumes m)) in Ev. pose proof (skip_space_length s1) as H1. destruct (skip_space s1) as [|c' r']; [done|].
    destruct (N.eqb (ord c') 93); [done|]. destruct (N.eqb (ord c') 44); [|done].
    pose proof (skip_space_length r'). cbn [str_length] in *. apply IHe; lia.
Qed.
(** More fuel changes nothing. *)
Lemma loads_any_fuel s n :
  2 * str_length (skip_space s) < n ->
  loads s = match read_value n (skip_space s) with
            | Err e => Err e
            | Ok (v, r) => if String.eqb (skip_space r) "" then Ok v else Err Malformed
            end.
Proof.
  intros Hn. unfold loads. pose proof (skip_space_length s).
  by rewrite (proj1 (read_fuel n) (skip_space s) (S (S (2 * str_length s)))) by lia.
Qed.

(** ** Text *)

(** A Unicode text: the UTF-8 bytes of code points that are not surrogates. *)
Definition scalar (n : N) : Prop := (n < 55296 \/ 57344 <= n < 1114112)%N.
Fixpoint encode (l : list N) : string := match l with [] => "" | n :: l' => utf8 n +:+ encode l' end.
Definition text (s : string) : Prop := exists l, Forall scalar l /\ s = encode l.
Fixpoint texts (v : pyval) : Prop :=
  match v with
  | VStr s => text s
  | VList l => Forall id (map texts l)
  | VDict d => Forall id (map (fun kv => text kv.1 /\ texts kv.2) d)
  | _ => True
  end.
Fixpoint distinct_keys (v : pyval) : Prop :=
  match v with
  | VList l => Forall id (map distinct_keys l)
  | VDict d => NoDup d.*1 /\ Forall id (map (fun kv => distinct_keys kv.2) d)
  | _ => True
  end.

(** ASCII text, as all the program's own keys are. *)
Definition ascii_text (s : string) : bool := str_forallb (fun c => N.ltb (ord c) 128) s.
Lemma text_ascii s : ascii_text s = true -> text s.
Proof.
  induction s as [|c s IH]; intros H; [by exists []|]. unfold ascii_text in H. cbn [str_forallb] in H.
  apply andb_true_iff in H as [Hc (l & Hl & ->)%IH]. apply N.ltb_lt in Hc. exists (ord c :: l).
  split; [constructor; [left; lia|done]|]. cbn [encode]. unfold utf8. rewrite (proj2 (N.ltb_lt _ _) Hc).
  unfold chr, ord. by rewrite Ascii.ascii_N_embedding.
Qed.
Lemma text_app s t : text s -> text t -> text (s +:+ t).
Proof.
  intros (l & Hl & ->) (m & Hm & ->). exists (l ++ m). split; [by apply Forall_app|].
  clear. induction l as [|n l IH]; [done|]. cbn [encode app]. by rewrite str_app_assoc, IH.
Qed.

Section numbers.
Local Open Scope N_scope.
Local Ltac Zify.zify_post_hook ::= Z.to_euclidean_division_equations.

Lemma ord_chr n : n < 256 -> ord (chr n) = n.
Proof. intros H. apply Ascii.N_ascii_embedding. done. Qed.
Lemma hex_val_char n : n < 16 -> hex_val (hex_char n) = Some n.
Proof.
  intros Hn. assert (exists k, n = N.of_nat k /\ (k < 16)%nat) as (k & -> & Hk) by (exists (N.to_nat n); lia).
  do 16 (destruct k as [|k]; [reflexivity|]). lia.
Qed.
Lemma hex4_split n : n < 65536 ->
  n / 4096 mod 16 * 4096 + n / 256 mod 16 * 256 + n / 16 mod 16 * 16 + n mod 16 = n.
Proof. lia. Qed.
Lemma hex4_val_hex4 n a b c d : n < 65536 -> hex4 n = String a (String b (String c (String d ""))) ->
  hex4_val a b c d = Some n.
Proof.
  intros Hn [= <- <- <- <-]. unfold hex4_val.
  rewrite !hex_val_char by (apply N.mod_lt; done). by rewrite hex4_split.
Qed.

(** A continuation byte carries six bits. *)
Lemma continuation n : (128 + n mod 64) mod 64 = n mod 64 /\ 128 + n mod 64 < 256.
Proof. lia. Qed.
Lemma lead2 n : n < 2048 -> 128 <= n -> 192 + n / 64 < 224 /\ 194 <= 192 + n / 64 /\ (192 + n / 64) mod 32 * 64 + n mod 64 = n.
Proof. lia. Qed.
Lemma lead3 n : n < 65536 -> 224 + n / 4096 < 240 /\ 224 <= 224 + n / 4096 /\ ((224 + n / 4096) mod 16 * 64 + (n / 64) mod 64) * 64 + n mod 64 = n.
Proof. lia. Qed.
Lemma lead4 n : n < 1114112 -> 240 + n / 262144 < 248 /\ 240 <= 240 + n / 262144
  /\ (((240 + n / 262144) mod 8 * 64 + (n / 4096) mod 64) * 64 + (n / 64) mod 64) * 64 + n mod 64 = n.
Proof. lia. Qed.
Lemma surrogates n : 65536 <= n -> n < 1114112 ->
  let hi := 55296 + (n - 65536) / 1024 in let lo := 56320 + (n - 65536) mod 1024 in
  hi < 56320 /\ 55296 <= hi /\ lo < 57344 /\ 56320 <= lo /\ 65536 + (hi - 55296) * 1024 + (lo - 56320) = n.
Proof. cbv zeta. lia. Qed.
End numbers.

(** One code point, escaped. *)
Lemma escape_wide n r :
  (128 <= n)%N -> scalar n -> ascii_escape (utf8 n +:+ r) 0 0 = unicode_escape n +:+ ascii_escape r 0 0.
Proof.
  intros Hn Hs. unfold utf8. assert (n < 1114112)%N as Hmax by (destruct Hs; lia).
  rewrite (proj2 (N.ltb_ge _ _) Hn). destruct (N.ltb_spec n 2048) as [H2|H2].
  { destruct (lead2 n H2 Hn) as (L1 & L2 & L3). rewrite !str_app_cons, str_app_nil.
    cbn [ascii_escape]. rewrite !ord_chr by (try apply continuation; lia).
    rewrite (proj2 (N.ltb_ge _ _)), (proj2 (N.eqb_neq _ _)), (proj2 (N.ltb_lt _ _) L1) by lia.
    rewrite (proj1 (continuation _)), L3. done. }
  destruct (N.ltb_spec n 65536) as [H3|H3].
  { destruct (lead3 n H3) as (L1 & L2 & L3). rewrite !str_app_cons, str_app_nil.
    cbn [ascii_escape]. rewrite !ord_chr by (try apply continuation; lia).
    rewrite (proj2 (N.ltb_ge _ _)), (proj2 (N.eqb_neq _ _)), (proj2 (N.ltb_ge (_ + _) 224)), (proj2 (N.ltb_lt _ _) L1) by lia.
    rewrite !(proj1 (continuation _)), L3. done. }
  destruct (lead4 n Hmax) as (L1 & L2 & L3). rewrite !str_app_cons, str_app_nil.
  cbn [ascii_escape]. rewrite !ord_chr by (try apply continuation; lia).
  rewrite (proj2 (N.ltb_ge _ _)), (proj2 (N.eqb_neq _ _)), (proj2 (N.ltb_ge (_ + _) 224)), (proj2 (N.ltb_ge (_ + _) 240)) by lia.
  rewrite !(proj1 (continuation _)), L3. done.
Qed.
Lemma read_u_escape n s :
  (n < 65536)%N -> (n < 55296 \/ 57344 <= n)%N ->
  read_string (u_escape n +:+ s) = prefix_with (utf8 n) (read_string s).
Proof.
  intros Hn Hs. unfold u_escape, hex4. rewrite !str_app_cons, str_app_nil.
  cbn [read_string]. change (N.eqb (ord (chr 92)) 34) with false. change (N.ltb (ord (chr 92)) 32) with false.
  change (N.eqb (ord (chr 92)) 92) with true. change (N.eqb (ord (chr 117)) 117) with true. cbn [negb].
  rewrite (hex4_val_hex4 n _ _ _ _ Hn eq_refl). unfold high_surrogate, low_surrogate.
  destruct (N.leb_spec 55296 n), (N.ltb_spec n 56320), (N.leb_spec 56320 n), (N.ltb_spec n 57344); cbn [andb]; try lia; done.
Qed.
Lemma read_escape n s :
  (128 <= n)%N -> scalar n -> read_string (unicode_escape n +:+ s) = prefix_with (utf8 n) (read_string s).
Proof.
  intros Hn Hs. unfold unicode_escape. destruct (N.ltb_spec n 65536) as [H|H].
  { apply read_u_escape; [done|]. destruct Hs; lia. }
  assert (n < 1114112)%N as Hmax by (destruct Hs; lia).
  destruct (surrogates n H Hmax) as (H1 & H2 & H3 & H4 & H5). revert H1 H2 H3 H4 H5.
  set (hi := (55296 + (n - 65536) / 1024)%N). set (lo := (56320 + (n - 65536) mod 1024)%N). intros H1 H2 H3 H4 H5.
  rewrite str_app_assoc. unfold u_escape at 1, hex4. rewrite !str_app_cons, str_app_nil.
  cbn [read_string]. change (N.eqb (ord (chr 92)) 34) with false. change (N.ltb (ord (chr 92)) 32) with false.
  change (N.eqb (ord (chr 92)) 92) with true. change (N.eqb (ord (chr 117)) 117) with true. cbn [negb].
  rewrite (hex4_val_hex4 hi _ _ _ _ ltac:(lia) eq_refl).
  assert (high_surrogate hi = true) as -> by (unfold high_surrogate; apply andb_true_iff; rewrite N.leb_le, N.ltb_lt; lia).
  unfold u_escape, hex4. rewrite !str_app_cons, str_app_nil.
  change (N.eqb (ord (chr 92)) 92 && N.eqb (ord (chr 117)) 117) with true. cbv iota.
  rewrite (hex4_val_hex4 lo _ _ _ _ ltac:(lia) eq_refl).
  assert (low_surrogate lo = true) as -> by (unfold low_surrogate; apply andb_true_iff; rewrite N.leb_le, N.ltb_lt; lia).
  by rewrite H5.
Qed.
Ltac each_below k := do 128 (destruct k as [|k]; [reflexivity|]); lia.
Lemma escape_narrow n r :
  (n < 128)%N ->
  ascii_escape (esc_char (chr n) +:+ r) 0 0 = ascii_escape (esc_char (chr n)) 0 0 +:+ ascii_escape r 0 0.
Proof.
  intros Hn. assert (exists k, n = N.of_nat k /\ k < 128) as (k & -> & Hk) by (exists (N.to_nat n); lia). each_below k.
Qed.
Lemma read_narrow n s :
  (n < 128)%N ->
  read_string (ascii_escape (esc_char (chr n)) 0 0 +:+ s) = prefix_with (utf8 n) (read_string s).
Proof.
  intros Hn. assert (exists k, n = N.of_nat k /\ k < 128) as (k & -> & Hk) by (exists (N.to_nat n); lia). each_below k.
Qed.
Lemma esc_app s t : esc (s +:+ t) = esc s +:+ esc t.
Proof. induction s as [|c s IH]; [done|]. rewrite str_app_cons. cbn [esc]. by rewrite IH, str_app_assoc. Qed.
Lemma esc_char_wide c : (128 <= ord c)%N -> esc_char c = String c "".
Proof. destruct c as [[] [] [] [] [] [] [] []]; try done; intros H; exfalso; revert H; by cbv. Qed.
Lemma esc_wide n : (128 <= n)%N -> scalar n -> esc (utf8 n) = utf8 n.
Proof.
  intros Hn Hs. assert (n < 1114112)%N as Hmax by (destruct Hs; lia).
  unfold utf8. rewrite (proj2 (N.ltb_ge _ _) Hn). pose proof (fun m => proj2 (continuation m)) as Hc.
  destruct (N.ltb_spec n 2048) as [H2|H2]; [destruct (lead2 n H2 Hn) as (L1 & L2 & _)|
    destruct (N.ltb_spec n 65536) as [H3|H3]; [destruct (lead3 n H3) as (L1 & L2 & _)|destruct (lead4 n Hmax) as (L1 & L2 & _)]];
    cbn [esc]; rewrite !esc_char_wide by (rewrite ord_chr by (done || lia); try lia; apply N.le_add_r); done.
Qed.

(** A printed text is read back. *)
Lemma read_printed l r :
  Forall scalar l ->
  read_string (ascii_escape (esc (encode l) +:+ String quote_char r) 0 0) = Ok (encode l, ascii_escape r 0 0).
Proof.
  intros Hl. induction Hl as [|n l Hn Hl IH]; [done|]. cbn [encode]. rewrite esc_app, str_app_assoc.
  destruct (N.ltb_spec n 128) as [H|H].
  - assert (utf8 n = String (chr n) "") as E by (unfold utf8; by rewrite (proj2 (N.ltb_lt _ _) H)).
    rewrite E at 1. cbn [esc]. rewrite str_app_nil_r, escape_narrow, read_narrow, IH by done. done.
  - rewrite esc_wide, escape_wide, read_escape, IH by done. done.
Qed.
Lemma escape_ascii c r : N.ltb (ord c) 127 = true -> ascii_escape (String c r) 0 0 = String c (ascii_escape r 0 0).
Proof. intros H. cbn [ascii_escape]. by rewrite H. Qed.

(** *** Numbers *)

Lemma digit_of_pretty n : (n < 10)%N -> digit_of (pretty_N_char n) = Some n.
Proof.
  intros Hn. assert (exists k, n = N.of_nat k /\ k < 10) as (k & -> & Hk) by (exists (N.to_nat n); lia).
  do 10 (destruct k as [|k]; [reflexivity|]). lia.
Qed.
Lemma pretty_digits n acc :
  (0 < n)%N -> exists c d rest, pretty_N_go n acc = String c rest /\ digit_of c = Some d /\ (0 < d)%N
  /\ forall t, read_digits (rest +:+ t) d = read_digits (acc +:+ t) n.
Proof.
  revert acc. induction (N.lt_wf_0 n) as [n _ IH]. intros acc Hn. rewrite pretty_N_go_step by lia.
  destruct (decide (n < 10)%N) as [Hs|Hb].
  - rewrite N.div_small, pretty_N_go_0 by done. rewrite N.mod_small by done. exists (pretty_N_char n), n, acc.
    split_and!; [done|by apply digit_of_pretty|done|done].
  - destruct (IH (n / 10)%N) with (acc := String (pretty_N_char (n mod 10)) acc) as (c & d & rest & E & Hd & Hpos & Hr).
    { apply N.div_lt; lia. } { apply N.div_str_pos. lia. }
    exists c, d, rest. split_and!; [done|done|done|]. intros t. rewrite Hr, str_app_cons. cbn [read_digits].
    rewrite digit_of_pretty by (apply N.mod_lt; done). f_equal. pose proof (N.div_mod n 10 ltac:(done)). lia.
Qed.
(** What may follow a value in a document. *)
Definition ends_number (r : string) : Prop :=
  match r with "" => True | String c _ => c = chr 44 \/ c = chr 93 \/ c = chr 125 end.
Lemma ends_digits r a : ends_number r -> read_digits r a = (a, r).
Proof. by destruct r as [|c r]; [|intros [->|[->| ->]]]. Qed.
Lemma ends_float r : ends_number r -> is_float_rest r = false.
Proof. by destruct r as [|c r]; [|intros [->|[->| ->]]]. Qed.
Lemma read_pretty_N (n : N) r : ends_number r -> read_natural (pretty n +:+ r) = Ok (n, r).
Proof.
  intros Hr. unfold pretty, pretty_N. destruct (decide (n = 0)%N) as [->|Hn].
  { rewrite str_app_cons, str_app_nil. cbn [read_natural]. change (digit_of _) with (Some 0%N). cbn. by rewrite ends_float. }
  destruct (pretty_digits n "") as (c & d & rest & -> & Hd & Hpos & Hrest); [lia|].
  rewrite str_app_cons. cbn [read_natural]. rewrite Hd, (proj2 (N.eqb_neq _ _)) by lia.
  rewrite Hrest, str_app_nil, ends_digits, ends_float by done. done.
Qed.
Lemma digit_first c d s :
  digit_of c = Some d -> read_word (String c s) = match read_natural (String c s) with
                                                  | Ok (n, r) => Ok (VInt (Z.of_N n), r) | Err e => Err e end.
Proof. destruct c as [[] [] [] [] [] [] [] []]; intros H; done. Qed.
Lemma minus_first c d s :
  digit_of c = Some d -> read_word (String (chr 45) (String c s)) = match read_natural (String c s) with
                                                  | Ok (n, r) => Ok (VInt (- Z.of_N n), r) | Err e => Err e end.
Proof. destruct c as [[] [] [] [] [] [] [] []]; intros H; done. Qed.
Lemma pretty_N_first (n : N) : exists c d s, pretty n = String c s /\ digit_of c = Some d.
Proof.
  unfold pretty, pretty_N. destruct (decide (n = 0)%N) as [->|Hn]; [by eexists _, _, _|].
  destruct (pretty_digits n "") as (c & d & rest & -> & Hd & _); [lia|]. by exists c, d, rest.
Qed.
Lemma read_pretty z r : ends_number r -> read_word (pretty z +:+ r) = Ok (VInt z, r).
Proof.
  intros Hr. assert (forall n : N, read_word (pretty n +:+ r) = Ok (VInt (Z.of_N n), r)) as Hn.
  { intros n. destruct (pretty_N_first n) as (c & d & s & E & Hd).
    pose proof (read_pretty_N n r Hr) as H. rewrite E, str_app_cons in *. by rewrite (digit_first c d), H. }
  destruct z as [|p|p]; [apply (Hn 0%N)|apply (Hn (Npos p))|].
  - change (pretty (Zneg p)) with (String (chr 45) (pretty (Npos p))). destruct (pretty_N_first (Npos p)) as (c & d & s & E & Hd).
    pose proof (read_pretty_N (Npos p) r Hr) as H. rewrite E, !str_app_cons in *. by rewrite (minus_first c d), H.
Qed.
Lemma escape_nums s r :
  str_forallb is_num_char s = true -> ascii_escape (s +:+ r) 0 0 = s +:+ ascii_escape r 0 0.
Proof.
  induction s as [|c s IH]; [done|]. cbn [str_forallb]. intros [Hc Hs]%andb_true_iff.
  rewrite !str_app_cons, escape_ascii, IH; [done|done|]. unfold is_num_char in Hc. apply N.ltb_lt.
  apply orb_true_iff in Hc as [Hc%N.eqb_eq|Hc]; [lia|]. apply andb_true_iff in Hc as [_ Hc%N.leb_le]. lia.
Qed.

(** *** Values *)

(** The first character of a value is no space and closes nothing. *)
Definition solid (c : ascii) : Prop :=
  is_json_space c = false /\ N.ltb (ord c) 127 = true /\ N.eqb (ord c) 93 = false /\ N.eqb (ord c) 125 = false.
Lemma dumps_solid v : exists c s, dumps_raw v = String c s /\ solid c.
Proof.
  destruct v as [|[]|z|s|l|d]; try (eexists _, _; by split; [reflexivity|]).
  cbn [dumps_raw]. destruct z as [|p|p].
  - by eexists _, _.
  - change (pretty (Zpos p)) with (pretty (Npos p)). destruct (pretty_N_first (Npos p)) as (c & d & s & E & Hd). exists c, s.
    split; [done|]. by destruct c as [[] [] [] [] [] [] [] []].
  - change (pretty (Zneg p)) with (String (chr 45) (pretty (Npos p))). by eexists _, _.
Qed.
Lemma skip_solid c s : solid c -> skip_space (ascii_escape (String c s) 0 0) = String c (ascii_escape s 0 0).
Proof. intros (H1 & H2 & _). rewrite escape_ascii by done. cbn [skip_space]. by rewrite H1. Qed.

Abbreviation reads v := (forall r, ends_number r ->
  exists n0, forall n, n0 <= n -> read_value n (ascii_escape (dumps_raw v +:+ r) 0 0) = Ok (v, ascii_escape r 0 0)).
Lemma ends_close c r : c = chr 44 \/ c = chr 93 \/ c = chr 125 -> ends_number (String c r).
Proof. done. Qed.

Lemma reads_elements l acc r :
  l <> [] -> Forall (fun v => reads v) l ->
  exists n0, forall n, n0 <= n ->
    read_elements n (ascii_escape (joined (map dumps_raw l) (chr 93) r) 0 0) acc = Ok (VList (rev acc ++ l), ascii_escape r 0 0).
Proof.
  intros Hne Hl. revert acc Hne. induction Hl as [|x l Hx Hl IH]; intros acc Hne; [done|]. destruct l as [|y l].
  - destruct (Hx (String (chr 93) r)) as (n0 & H0); [by apply ends_close; auto|]. exists (S n0). intros [|n] Hn; [lia|].
    cbn [map joined read_elements]. rewrite H0 by lia. rewrite escape_ascii by done. done.
  - destruct (Hx (String (chr 44) (joined (map dumps_raw (y :: l)) (chr 93) r))) as (n0 & H0); [by apply ends_close; auto|].
    destruct (IH (x :: acc)) as (n1 & H1); [done|]. exists (S (n0 + n1)). intros [|n] Hn; [lia|].
    change (joined (map dumps_raw (x :: y :: l)) (chr 93) r)
      with (dumps_raw x +:+ String (chr 44) (joined (map dumps_raw (y :: l)) (chr 93) r)).
    cbn [read_elements]. rewrite H0 by lia. rewrite escape_ascii by done.
    change (skip_space (String (chr 44) ?s)) with (String (chr 44) s).
    change (N.eqb (ord (chr 44)) 93) with false. change (N.eqb (ord (chr 44)) 44) with true. cbv iota.
    assert (exists c s, joined (map dumps_raw (y :: l)) (chr 93) r = String c s /\ solid c) as (c & s & E & Hc).
    { destruct (dumps_solid y) as (c & s & E & Hc). cbn [map joined]. rewrite E. destruct l; rewrite str_app_cons; by eexists _, _. }
    rewrite E in *. rewrite (skip_solid c s Hc). rewrite <- (escape_ascii c s) by apply Hc. rewrite H1 by lia.
    cbn [rev]. by rewrite <- app_assoc.
Qed.
Lemma reads_fields d acc r :
  d <> [] -> Forall (fun kv => text kv.1 /\ reads kv.2) d ->
  exists n0, forall n, n0 <= n ->
    read_fields n (ascii_escape (joined (map dumps_field d) (chr 125) r) 0 0) acc
    = Ok (VDict (dict_of (rev acc ++ d)), ascii_escape r 0 0).
Proof.
  intros Hne Hd. revert acc Hne. induction Hd as [|[k v] d [(l & Hl & E0) Hx] Hd IH]; intros acc Hne; [done|].
  cbn [fst snd] in E0, Hx. subst k.
  assert (forall t, dumps_field (encode l, v) +:+ t = String (chr 34) (esc (encode l) +:+ String quote_char (String (chr 58) (dumps_raw v +:+ t)))) as Hf.
  { intros t. unfold dumps_field, quote. cbn [fst snd]. by rewrite !str_app_cons, !str_app_assoc, !str_app_cons, !str_app_nil, ?str_app_cons, ?str_app_nil. }
  destruct (dumps_solid v) as (c & s & Ev & Hc).
  assert (forall t, skip_space (ascii_escape (dumps_raw v +:+ t) 0 0) = ascii_escape (dumps_raw v +:+ t) 0 0) as Hskip.
  { intros t. rewrite Ev, str_app_cons, skip_solid, escape_ascii by apply Hc. done. }
  destruct d as [|y d].
  - destruct (Hx (String (chr 125) r)) as (n0 & H0); [by apply ends_close; auto|]. exists (S n0). intros [|n] Hn; [lia|].
    cbn [map joined]. rewrite Hf, escape_ascii by done. cbn [read_fields].
    change (N.eqb (ord (chr 34)) 34) with true. cbn [negb]. rewrite read_printed by done.
    rewrite (escape_ascii (chr 58)) by done. change (skip_space (String (chr 58) ?s)) with (String (chr 58) s).
    change (N.eqb (ord (chr 58)) 58) with true. cbn [negb]. rewrite Hskip, H0 by lia. rewrite escape_ascii by done. done.
  - destruct (Hx (String (chr 44) (joined (map dumps_field (y :: d)) (chr 125) r))) as (n0 & H0); [by apply ends_close; auto|].
    destruct (IH ((encode l, v) :: acc)) as (n1 & H1); [done|]. exists (S (n0 + n1)). intros [|n] Hn; [lia|].
    change (joined (map dumps_field ((encode l, v) :: y :: d)) (chr 125) r)
      with (dumps_field (encode l, v) +:+ String (chr 44) (joined (map dumps_field (y :: d)) (chr 125) r)).
    rewrite Hf, escape_ascii by done. cbn [read_fields].
    change (N.eqb (ord (chr 34)) 34) with true. cbn [negb]. rewrite read_printed by done.
    rewrite (escape_ascii (chr 58)) by done. change (skip_space (String (chr 58) ?s)) with (String (chr 58) s).
    change (N.eqb (ord (chr 58)) 58) with true. cbn [negb]. rewrite Hskip, H0 by lia. rewrite escape_ascii by done.
    change (skip_space (String (chr 44) ?s)) with (String (chr 44) s).
    change (N.eqb (ord (chr 44)) 125) with false. change (N.eqb (ord (chr 44)) 44) with true. cbv iota.
    assert (exists s', joined (map dumps_field (y :: d)) (chr 125) r = String (chr 34) s') as (s' & E).
    { unfold dumps_field, quote. cbn [map joined]. destruct d; rewrite !str_app_cons; by eexists. }
    rewrite E in *. rewrite (skip_solid (chr 34) s') by done. rewrite <- (escape_ascii (chr 34) s') by done. rewrite H1 by lia.
    cbn [rev]. by rewrite <- app_assoc.
Qed.

Lemma dput_fresh d k v : k ∉ d.*1 -> dput d k v = d ++ [(k, v)].
Proof.
  induction d as [|[k' v'] d IH]; intros Hk; [done|]. cbn in *. apply not_elem_of_cons in Hk as [Hne Hk].
  rewrite (proj2 (String.eqb_neq _ _)) by done. by rewrite IH.
Qed.
Lemma dict_of_distinct d : NoDup d.*1 -> dict_of d = d.
Proof.
  unfold dict_of. assert (forall d0, NoDup (d0 ++ d).*1 -> fold_left (fun d kv => dput d kv.1 kv.2) d d0 = d0 ++ d) as H.
  { induction d as [|[k v] d IH]; intros d0 Hn; cbn [fold_left]; [by rewrite app_nil_r|].
    rewrite dput_fresh.
    - rewrite IH; [by rewrite <- app_assoc|by rewrite <- app_assoc].
    - rewrite fmap_app in Hn. apply NoDup_app in Hn as (_ & Hn & _). intros Hk. by apply (Hn k Hk); left. }
  apply (H []).
Qed.
Lemma read_dumped v : texts v -> distinct_keys v -> reads v.
Proof.
  induction v as [|b|z|s|l IH|d IH] using pyval_ind'; cbn [texts distinct_keys]; intros Ht Hk r Hr.
  - exists 1. intros [|n] Hn; [lia|]. done.
  - exists 1. intros [|n] Hn; [lia|]. by destruct b.
  - exists 1. intros [|n] Hn; [lia|]. cbn [dumps_raw]. rewrite escape_nums by apply pretty_Z_num.
    assert (ends_number (ascii_escape r 0 0)) as Hr' by (destruct r as [|c r]; [done|]; destruct Hr as [->|[->| ->]]; rewrite escape_ascii by done; cbn; auto).
    rewrite <- (read_pretty z _ Hr'). destruct (dumps_solid (VInt z)) as (c & s & E & Hc). cbn [dumps_raw] in E.
    pose proof (proj1 (pretty_Z_num z)) as Hnum. rewrite E in *. rewrite str_app_cons. cbn [read_value].
    cbn [str_forallb] in Hnum. apply andb_true_iff in Hnum as [Hnum _].
    by destruct c as [[] [] [] [] [] [] [] []].
  - exists 1. intros [|n] Hn; [lia|]. destruct Ht as (l & Hl & ->). cbn [dumps_raw]. unfold quote.
    rewrite str_app_cons, str_app_assoc, str_app_cons, str_app_nil, escape_ascii by done.
    change (read_value (S n) (String quote_char ?s)) with
      (match read_string s with Ok (t, r0) => Ok (VStr t, r0) | Err e => Err (A := pyval * string) e end).
    by rewrite read_printed.
  - assert (Forall (fun v => reads v) l) as Hl.
    { rewrite Forall_map in Ht, Hk. induction IH as [|x l Hx _ IHl]; [constructor|].
      inversion Ht; inversion Hk; subst. constructor; [by apply Hx|by apply IHl]. }
    rewrite dumps_list_eq. destruct l as [|x l].
    + exists 1. intros [|n] Hn; [lia|]. cbn [map joined]. rewrite !escape_ascii by done. done.
    + destruct (reads_elements (x :: l) [] r) as (n0 & H0); [done|done|]. exists (S n0). intros [|n] Hn; [lia|].
      rewrite escape_ascii by done. destruct (dumps_solid x) as (c & s & E & Hc).
      assert (exists s', joined (map dumps_raw (x :: l)) (chr 93) r = String c s') as (s' & E').
      { cbn [map joined]. rewrite E. destruct l; rewrite str_app_cons; by eexists. }
      rewrite E' in *. change (read_value (S n) (String (chr 91) ?s)) with
        (match skip_space s with
         | String c2 r0 => if N.eqb (ord c2) 93 then Ok (VList [], r0) else read_elements n (String c2 r0) []
         | "" => Err Malformed end).
      rewrite (skip_solid c s') by done. destruct Hc as (_ & Hc1 & Hc2 & _). rewrite Hc2.
      rewrite <- (escape_ascii c s') by done. apply H0. lia.
  - destruct Hk as [Hnd Hk]. assert (Forall (fun kv => text kv.1 /\ reads kv.2) d) as Hd.
    { clear Hnd. rewrite Forall_map in Ht, Hk. induction IH as [|x l Hx _ IHl]; [constructor|].
      inversion Ht as [|? ? [Ht1 Ht2]]; inversion Hk; subst. constructor; [split; [done|by apply Hx]|by apply IHl]. }
    rewrite dumps_dict_eq. destruct d as [|x d].
    + exists 1. intros [|n] Hn; [lia|]. cbn [map joined]. rewrite !escape_ascii by done. done.
    + destruct (reads_fields (x :: d) [] r) as (n0 & H0); [done|done|]. exists (S n0). intros [|n] Hn; [lia|].
      rewrite escape_ascii by done.
      assert (exists s', joined (map dumps_field (x :: d)) (chr 125) r = String (chr 34) s') as (s' & E').
      { unfold dumps_field, quote. cbn [map joined]. destruct d; rewrite !str_app_cons; by eexists. }
      rewrite E' in *. change (read_value (S n) (String (chr 123) ?s)) with
        (match skip_space s with
         | String c2 r0 => if N.eqb (ord c2) 125 then Ok (VDict [], r0) else read_fields n (String c2 r0) []
         | "" => Err Malformed end).
      rewrite (skip_solid (chr 34) s') by done. change (N.eqb (ord (chr 34)) 125) with false. cbv iota.
      rewrite <- (escape_ascii (chr 34) s') by done. rewrite H0 by lia. cbn [rev app]. by rewrite dict_of_distinct.
Qed.

(** What [json.dumps] wrote, [json.loads] reads: the value, its keys sorted. *)
Lemma loads_json_text v : texts (norm v) -> distinct_keys (norm v) -> loads (json_text v) = Ok (norm v).
Proof.
  intros Ht Hk. unfold json_text. rewrite dumps_norm. destruct (read_dumped (norm v) Ht Hk "" I) as (n0 & H0).
  rewrite str_app_nil_r in H0. set (s := ascii_escape (dumps_raw (norm v)) 0 0) in *.
  assert (skip_space s = s) as Hs.
  { destruct (dumps_solid (norm v)) as (c & t & E & Hc). unfold s. rewrite E, skip_solid, escape_ascii by apply Hc. done. }
  rewrite (loads_any_fuel s (S (n0 + 2 * str_length (skip_space s)))) by lia. rewrite Hs, H0 by lia. done.
Qed.

(** Base64 is ASCII. *)
Lemma ascii_b64_char n s : (n < 64)%N -> ascii_text (String (b64_char n) s) = ascii_text s.
Proof.
  intros Hn. unfold ascii_text. cbn [str_forallb]. assert (N.ltb (ord (b64_char n)) 128 = true) as ->; [|done].
  assert (exists k, n = N.of_nat k /\ (k < 64)%nat) as (k & -> & Hk) by (exists (N.to_nat n); lia).
  do 64 (destruct k as [|k]; [reflexivity|]). lia.
Qed.
Lemma ascii_b64encode s : ascii_text (b64encode s) = true.
Proof.
  induction s as [|a|a b|a b c s IH] using string_ind3; [done|..]; cbn [b64encode].
  - destruct (sextets (ord a) 0 0) as (H1 & _ & H2 & _); [apply ord_bound|done..|]. by rewrite !ascii_b64_char.
  - destruct (sextets (ord a) (ord b) 0) as (H1 & H2 & _ & H3 & _); [apply ord_bound..|done|]. by rewrite !ascii_b64_char.
  - destruct (sextets (ord a) (ord b) (ord c)) as (H1 & H2 & _ & _ & H3 & H4 & _); [apply ord_bound..|].
    by rewrite !ascii_b64_char.
Qed.
Lemma b64encode_nonempty s : s <> "" -> truthy (b64encode s) = true.
Proof. destruct s as [|a [|b [|c s]]]; done. Qed.
