(* ===== verification/Signing.v ===== *)
(** * Signed sessions and signed requests

    src/libs/signing.py and src/libs/request_auth.py: a principal's key signs a
    session assertion, the session's key signs each request over its method,
    path, body, timestamp and nonce, and [RequestAuthenticator] checks both, with
    a cache of public keys and of the nonces it has seen.  Ed25519 is the
    interface [Ed25519], with what is relied on as its laws.

    Times are the numbers [time.time()] returns, as rationals: comparing two of
    them and subtracting a whole number of seconds from one is exact in Python
    too. *)

From stdpp Require Import pretty gmap.
From Stdlib Require Import QArith Qround Qabs.
From S2P Require Import Prelude PyValue Json JsonRead Base64 Sha256.
Local Close Scope Q_scope.
Local Open Scope Z_scope.

(** ** Ed25519 (PyNaCl) *)

(** [signs pk m]: the holder of the private half of [pk] has signed [m].
    [verify] is [VerifyKey(pk).verify(m, sg)] returning at all. *)
Class Ed25519 := {
  key : Type;
  public : key -> string;                              (* [bytes(verify_key)] *)
  sign : key -> string -> string;                      (* [sign(m).signature] *)
  verify : string -> string -> string -> bool;
  signs : string -> string -> Prop;
}.
Class Ed25519Laws (E : Ed25519) := {
  public_length k : str_length (public k) = 32%nat;
  sign_length k m : str_length (sign k m) = 64%nat;
  sign_verifies k m : verify (public k) m (sign k m) = true;
  unforgeable pk m sg : verify pk m sg = true -> signs pk m;
}.

Inductive signing_error : Type :=
| SigningError (message : string)
| SignatureError (message : string)
| ExpiredError (message : string)
| AttributeError.                       (* not a [SigningError]: callers do not expect it *)

(** [value.encode("ascii")] then [base64.b64decode]; both failures are
    [ValueError]s. *)
Definition decode_text (s : string) : option string := if ascii_text s then b64decode s else None.
(** A value that is no text has no [encode]. *)
Definition decode_value (v : pyval) : result signing_error (option string) :=
  match v with VStr s => Ok (decode_text s) | _ => Err AttributeError end.

(** [int(x)] of a float. *)
Definition trunc (t : Q) : Z := if Qle_bool 0 t then Qfloor t else - Qfloor (- t).
Definition qlt (a b : Q) : bool := negb (Qle_bool b a).

(** [NonceCache]: when each nonce was recorded. *)
Abbreviation nonces := (gmap string Q).
Abbreviation headers := (list (string * string)).

Section signing.
Context {E : Ed25519}.

Definition public_key_b64 (k : key) : string := b64encode (public k).
(** The raw key; [VerifyKey] refuses any length but 32. *)
Definition load_verify_key (pk : pyval) : result signing_error string :=
  raw ← decode_value pk;
  match raw with
  | Some r => if Nat.eqb (str_length r) 32 then Ok r else Err (SigningError "invalid public key")
  | None => Err (SigningError "invalid public key")
  end.

(** ** Session assertions *)

Definition session_claims (principal session issued expires : pyval) : pyval := VDict [
  ("principal_id", principal); ("session_public_key", session); ("issued_at", issued); ("expires_at", expires)].
Definition _canonical_session_bytes (principal session issued expires : pyval) : string :=
  json_text (session_claims principal session issued expires).
Definition build_session_assertion (principal_id : string) (k : key) (session_public_key : string)
    (ttl_seconds : Z) (now_ts : Q) : list (string * pyval) :=
  let issued := trunc now_ts in let expires := issued + ttl_seconds in
  [("principal_id", VStr principal_id); ("session_public_key", VStr session_public_key);
   ("issued_at", VInt issued); ("expires_at", VInt expires);
   ("signature", VStr (b64encode (sign k (_canonical_session_bytes (VStr principal_id) (VStr session_public_key)
                                            (VInt issued) (VInt expires)))))].
Definition verify_session_assertion (assertion : list (string * pyval)) (public_key : pyval) (now_ts : Q)
    : result signing_error pyval :=
  let principal := PyValue.get assertion "principal_id" in
  let session := PyValue.get assertion "session_public_key" in
  let expires := PyValue.get assertion "expires_at" in
  let signature := PyValue.get assertion "signature" in
  guard_or (SignatureError "assertion principal_id does not match principal") (py_eqb principal public_key) ≫= fun _ =>
  guard_or (SignatureError "assertion is missing its signature") (truthy signature) ≫= fun _ =>
  pk ← load_verify_key public_key;
  sg ← decode_value signature;
  let message := _canonical_session_bytes principal session (PyValue.get assertion "issued_at") expires in
  guard_or (SignatureError "session assertion signature invalid")
    (match sg with Some sg => verify pk message sg | None => false end) ≫= fun _ =>
  guard_or (ExpiredError "session assertion has expired")
    (match as_number expires with Some e => Qle_bool now_ts (inject_Z e) | None => false end) ≫= fun _ =>
  Ok session.

(** ** Requests *)

Definition newline : string := String (chr 10) "".
Definition canonical_request (method path body : string) (timestamp : Z) (nonce : string) : string :=
  str_join newline [method; path; sha256 body; pretty timestamp; nonce].
Definition sign_request (k : key) (method path body : string) (timestamp : Z) (nonce : string) : string :=
  b64encode (sign k (canonical_request method path body timestamp nonce)).
Definition verify_request_signature (session_public_key : pyval) (method path body : string) (timestamp : Z)
    (nonce signature : string) : result signing_error unit :=
  pk ← load_verify_key session_public_key;
  guard_or (SignatureError "request signature invalid")
    (match decode_text signature with
     | Some sg => verify pk (canonical_request method path body timestamp nonce) sg
     | None => false
     end).

Definition timestamp_fresh (timestamp : Z) (now_ts : Q) (skew_seconds : Z) : bool :=
  Qle_bool (Qabs (now_ts - inject_Z timestamp)) (inject_Z skew_seconds).

(** ** Nonces *)

Definition _evict (skew_seconds : Z) (now_ts : Q) (seen : nonces) : nonces :=
  let cutoff := (now_ts - inject_Z skew_seconds)%Q in
  filter (fun x => Qle_bool cutoff x.2 = true) seen.
Definition check_and_add (skew_seconds : Z) (nonce : string) (now_ts : Q) (seen : nonces) : nonces * bool :=
  let seen := _evict skew_seconds now_ts seen in
  match seen !! nonce with
  | Some _ => (seen, false)
  | None => (<[nonce := now_ts]> seen, true)
  end.

(** ** The authenticator *)

Definition HEADER_PRINCIPAL := "X-AT-Principal".
Definition HEADER_SESSION := "X-AT-Session".
Definition HEADER_SESSION_PUB := "X-AT-Session-Pub".
Definition HEADER_SIGNATURE := "X-AT-Signature".
Definition HEADER_TIMESTAMP := "X-AT-Timestamp".
Definition HEADER_NONCE := "X-AT-Nonce".

(** The last of the headers with a name, whatever their case. *)
Definition _lower_headers (l : headers) : gmap string string :=
  fold_left (fun m h => <[lower h.1 := h.2]> m) l ∅.
Definition header (l : headers) (name : string) : string := default "" (_lower_headers l !! lower name).

Definition build_auth_headers (principal_id : string) (assertion : list (string * pyval)) (k : key)
    (method path body : string) (now_ts : Q) (nonce : string) : headers :=
  let timestamp := trunc now_ts in [
  (HEADER_PRINCIPAL, principal_id);
  (HEADER_SESSION, json_text (VDict assertion));
  (HEADER_SESSION_PUB, match PyValue.get assertion "session_public_key" with VStr s => s | _ => "" end);
  (HEADER_SIGNATURE, sign_request k method path body timestamp nonce);
  (HEADER_TIMESTAMP, pretty timestamp);
  (HEADER_NONCE, nonce)].

(** Raw JSON, or base64 of its UTF-8 text.  A document the model of values cannot hold is
    left out: [None]. *)
Definition _parse_assertion (raw : string) : pyval :=
  match loads raw with
  | Ok v => v
  | Err _ =>
      match decode_text raw with
      | Some t => match loads t with Ok v => v | Err _ => VNone end
      | None => VNone
      end
  end.

Record RequestAuthenticator := {
  require_signatures : bool;
  skew_seconds : Z;
  pubkey_cache_ttl : Z;
}.
Record caches := { seen : nonces; pubkeys : gmap string (string * Q) }.
Definition no_caches : caches := {| seen := ∅; pubkeys := ∅ |}.
(** What the registry answers: nothing known, a key, or no answer. *)
Definition registry : Type := string -> result unit (option string).
Record AuthError := { status : Z; message : string }.
Definition _err (m : string) : AuthError := {| status := 401; message := m |}.

(** A key at most [pubkey_cache_ttl] old is not asked for again, nor is an
    empty one kept. *)
Definition _resolve_public_key (self : RequestAuthenticator) (ask : registry) (principal_id : string) (now_ts : Q)
    (s : caches) : caches * result unit (option string) :=
  match pubkeys s !! principal_id with
  | Some (value, cached_at) =>
      if qlt (now_ts - cached_at) (inject_Z (pubkey_cache_ttl self)) then (s, Ok (Some value)) else
      match ask principal_id with
      | Ok (Some v) => ({| seen := seen s; pubkeys := if truthy v then <[principal_id := (v, now_ts)]> (pubkeys s) else pubkeys s |},
                        Ok (Some v))
      | r => (s, r)
      end
  | None =>
      match ask principal_id with
      | Ok (Some v) => ({| seen := seen s; pubkeys := if truthy v then <[principal_id := (v, now_ts)]> (pubkeys s) else pubkeys s |},
                        Ok (Some v))
      | r => (s, r)
      end
  end.

(** The principal, or why not; [Err] is an exception that leaves the method. *)
Definition answer : Type := result signing_error (option string * option AuthError).
Definition refuse (m : string) : answer := Ok (None, Some (_err m)).
Definition check_request (self : RequestAuthenticator) (method path body principal_id signature nonce : string)
    (timestamp : Z) (assertion : list (string * pyval)) (principal_public_key : string) (now_ts : Q) (s : caches)
    : caches * answer :=
  match verify_session_assertion assertion (VStr principal_public_key) now_ts with
  | Err (ExpiredError _) => (s, refuse "session assertion expired")
  | Err AttributeError => (s, Err AttributeError)
  | Err _ => (s, refuse "session assertion invalid")
  | Ok session_public_key =>
      match verify_request_signature session_public_key method path body timestamp nonce signature with
      | Err AttributeError => (s, Err AttributeError)
      | Err _ => (s, refuse "request signature invalid")
      | Ok _ =>
          if negb (timestamp_fresh timestamp now_ts (skew_seconds self))
          then (s, refuse "request timestamp stale or skewed") else
          let (seen', fresh) := check_and_add (skew_seconds self) nonce now_ts (seen s) in
          ({| seen := seen'; pubkeys := pubkeys s |},
           if fresh : bool then Ok (Some principal_id, None) else refuse "nonce replay detected")
      end
  end.
Definition authenticate (self : RequestAuthenticator) (ask : registry) (method path body : string) (hs : headers)
    (now_ts : Q) (s : caches) : caches * answer :=
  if negb (require_signatures self) then (s, Ok (None, None)) else
  let principal_id := header hs HEADER_PRINCIPAL in
  let session_raw := header hs HEADER_SESSION in
  let signature := header hs HEADER_SIGNATURE in
  let timestamp_raw := header hs HEADER_TIMESTAMP in
  let nonce := header hs HEADER_NONCE in
  if negb (truthy principal_id && truthy session_raw && truthy signature && truthy timestamp_raw && truthy nonce)
  then (s, refuse "missing authentication headers") else
  match parse_int timestamp_raw with
  | None => (s, refuse "invalid timestamp header")
  | Some timestamp =>
      match _parse_assertion session_raw with
      | VDict assertion =>
          let (s, r) := _resolve_public_key self ask principal_id now_ts s in
          match r with
          | Err _ => (s, refuse "registry unreachable resolving principal")
          | Ok pk =>
              if negb (truthy pk) then (s, refuse "unknown principal or no registered public key") else
              check_request self method path body principal_id signature nonce timestamp assertion (default "" pk) now_ts s
          end
      | _ => (s, refuse "invalid session assertion encoding")
      end
  end.
End signing.
