(* ===== verification/SigningProofs.v ===== *)
(** * Who signed a request, and how often it counts

    Theorems about Signing.v: an accepted request was signed, link by link; what
    a client signs the server accepts; and how often one signed request is
    accepted as time goes on. *)

From stdpp Require Import pretty gmap.
From Stdlib Require Import QArith Qround Qabs Lqa.
From S2P Require Import Prelude Rows PyValue Json JsonRead Base64 Sha256 Signing.
Local Close Scope Q_scope.
Local Open Scope Z_scope.

(** ** A server over time *)

Record call := {
  c_method : string;
  c_path : string;
  c_body : string;
  c_headers : headers;
  c_now : Q;
  c_registry : registry;
}.
Definition c_nonce (c : call) : string := header (c_headers c) HEADER_NONCE.
Definition c_timestamp (c : call) : Z := default 0 (parse_int (header (c_headers c) HEADER_TIMESTAMP)).

Section server.
Context {E : Ed25519} (self : RequestAuthenticator).

Definition handle (s : caches) (c : call) : caches * answer :=
  authenticate self (c_registry c) (c_method c) (c_path c) (c_body c) (c_headers c) (c_now c) s.
Definition is_accepted (a : answer) : bool := match a with Ok (Some _, None) => true | _ => false end.
(** When, and with what timestamp, the nonce [n] was accepted. *)
Fixpoint acceptances (n : string) (s : caches) (cs : list call) : list (Z * Q) :=
  match cs with
  | [] => []
  | c :: cs' =>
      let (s', a) := handle s c in
      (if is_accepted a && String.eqb (c_nonce c) n then [(c_timestamp c, c_now c)] else []) ++ acceptances n s' cs'
  end.

Lemma check_request_cases method path body p sg nonce t d pk now s s' a :
  check_request self method path body p sg nonce t d pk now s = (s', a) ->
  seen s' = seen s /\ is_accepted a = false
  \/ seen s' = (check_and_add (skew_seconds self) nonce now (seen s)).1
     /\ is_accepted a = (check_and_add (skew_seconds self) nonce now (seen s)).2
     /\ timestamp_fresh t now (skew_seconds self) = true.
Proof.
  unfold check_request. destruct (verify_session_assertion _ _ _) as [v|[]]; try (intros [= <- <-]; by left).
  destruct (verify_request_signature _ _ _ _ _ _ _) as [u|[]]; try (intros [= <- <-]; by left).
  destruct (timestamp_fresh _ _ _) eqn:Ef; cbn [negb]; [|intros [= <- <-]; by left].
  destruct (check_and_add _ _ _ _) as [seen' fresh]. intros [= <- <-]. right. by destruct fresh.
Qed.
Lemma resolve_seen ask p now s : seen (_resolve_public_key self ask p now s).1 = seen s.
Proof. unfold _resolve_public_key. repeat case_match; done. Qed.
Lemma handle_cases s c s' a :
  require_signatures self = true -> handle s c = (s', a) ->
  seen s' = seen s /\ is_accepted a = false
  \/ seen s' = (check_and_add (skew_seconds self) (c_nonce c) (c_now c) (seen s)).1
     /\ is_accepted a = (check_and_add (skew_seconds self) (c_nonce c) (c_now c) (seen s)).2
     /\ timestamp_fresh (c_timestamp c) (c_now c) (skew_seconds self) = true.
Proof.
  intros Hreq. unfold handle, authenticate. rewrite Hreq. cbn [negb].
  destruct (negb (_ && _)); [intros [= <- <-]; by left|]. unfold c_timestamp, c_nonce.
  destruct (parse_int _) as [t|]; [|intros [= <- <-]; by left].
  destruct (_parse_assertion _) as [| | | | |d]; try (intros [= <- <-]; by left).
  pose proof (resolve_seen (c_registry c) (header (c_headers c) HEADER_PRINCIPAL) (c_now c) s) as Hs.
  destruct (_resolve_public_key _ _ _ _ _) as [s1 [pk|e]]; cbn [fst] in Hs; [|intros [= <- <-]; by left].
  destruct (negb (truthy pk)); [intros [= <- <-]; by left|]. rewrite <- Hs. apply check_request_cases.
Qed.

(** A recorded nonce is kept while it is within the window. *)
Definition remembered (n : string) (t now : Q) (m : nonces) : Prop :=
  (t < now - inject_Z (skew_seconds self))%Q \/ m !! n = Some t.
Lemma evict_keeps n t now now' m :
  (now <= now')%Q -> remembered n t now m -> remembered n t now' (_evict (skew_seconds self) now' m).
Proof.
  intros Hle [H|H]; [left; lra|]. destruct (Qlt_le_dec t (now' - inject_Z (skew_seconds self))) as [Hl|Hl]; [by left|right].
  unfold _evict. apply map_lookup_filter_Some. split; [done|]. cbn. by apply Qle_bool_iff.
Qed.
Lemma check_keeps n t now now' m nonce :
  (now <= now')%Q -> remembered n t now m -> remembered n t now' (check_and_add (skew_seconds self) nonce now' m).1.
Proof.
  intros Hle H. apply (evict_keeps _ _ _ now') in H; [|done]. unfold check_and_add.
  destruct (_evict _ _ _ !! nonce) as [u|] eqn:En; [done|]. destruct H as [H|H]; [by left|right]. cbn.
  rewrite lookup_insert_ne; [done|]. intros ->. congruence.
Qed.
Lemma remembered_later n t now now' m : (now <= now')%Q -> remembered n t now m -> remembered n t now' m.
Proof. intros Hle [H|H]; [left; lra|by right]. Qed.
Lemma check_true_gap n t now now' m :
  (now <= now')%Q -> remembered n t now m -> (check_and_add (skew_seconds self) n now' m).2 = true ->
  (t + inject_Z (skew_seconds self) < now')%Q.
Proof.
  intros Hle H. apply (evict_keeps _ _ _ now') in H; [|done]. unfold check_and_add.
  destruct (_evict _ _ _ !! n) as [u|] eqn:En; [done|]. intros _. destruct H as [H|H]; [lra|congruence].
Qed.
Lemma check_true_remembered n now m :
  (check_and_add (skew_seconds self) n now m).2 = true -> remembered n now now (check_and_add (skew_seconds self) n now m).1.
Proof.
  unfold check_and_add. destruct (_evict _ _ _ !! n) as [u|]; [done|]. intros _. right. apply lookup_insert_eq.
Qed.

Definition apart (x y : Z * Q) : Prop := (x.2 + inject_Z (skew_seconds self) < y.2)%Q.
Lemma acceptances_later n s cs t now :
  require_signatures self = true -> StronglySorted Qle (now :: map c_now cs) -> remembered n t now (seen s) ->
  Forall (fun y => t + inject_Z (skew_seconds self) < y.2)%Q (acceptances n s cs).
Proof.
  intros Hreq. revert s now. induction cs as [|c cs IH]; intros s now Hs Hr; [constructor|].
  apply StronglySorted_inv in Hs as [Hs Hall]. cbn [map] in Hall, Hs. apply Forall_cons in Hall as [Hle _].
  cbn [acceptances]. destruct (handle s c) as [s' a] eqn:Eh.
  destruct (handle_cases s c s' a Hreq Eh) as [[E1 E2]|(E1 & E2 & _)]; rewrite E2.
  - cbn [andb app]. apply (IH s' (c_now c)); [done|]. rewrite E1. by apply (remembered_later _ _ now).
  - apply Forall_app. split.
    + destruct (String.eqb_spec (c_nonce c) n) as [<-|_]; [|rewrite andb_false_r; constructor].
      destruct (check_and_add _ _ _ _).2 eqn:Ec; [|constructor]. cbn. constructor; [|constructor]. cbn.
      by apply (check_true_gap _ _ now _ _ Hle Hr).
    + apply (IH s' (c_now c)); [done|]. rewrite E1. by apply (check_keeps _ _ now).
Qed.
Lemma acceptances_apart n s cs :
  require_signatures self = true -> StronglySorted Qle (map c_now cs) ->
  StronglySorted apart (acceptances n s cs)
  /\ Forall (fun x => timestamp_fresh x.1 x.2 (skew_seconds self) = true) (acceptances n s cs).
Proof.
  intros Hreq. revert s. induction cs as [|c cs IH]; intros s Hs; [by split; constructor|].
  cbn [acceptances]. destruct (handle s c) as [s' a] eqn:Eh.
  cbn [map] in Hs. destruct (IH s') as [IH1 IH2]; [by apply StronglySorted_inv in Hs as [? _]|].
  destruct (handle_cases s c s' a Hreq Eh) as [[E1 E2]|(E1 & E2 & E3)]; rewrite E2; [done|].
  destruct (String.eqb_spec (c_nonce c) n) as [<-|_]; [|by rewrite andb_false_r].
  destruct (check_and_add _ _ _ _).2 eqn:Ec; [|done]. cbn [andb app]. split; constructor; try done.
  apply (acceptances_later _ _ _ _ (c_now c) Hreq Hs). rewrite E1. by apply check_true_remembered.
Qed.
End server.

Lemma fresh_spec t now skew :
  timestamp_fresh t now skew = true <-> (inject_Z t - inject_Z skew <= now <= inject_Z t + inject_Z skew)%Q.
Proof. unfold timestamp_fresh. rewrite Qle_bool_iff, Qabs_Qle_condition. split; lra. Qed.

Section bounds.
Context {E : Ed25519}.

(** C13. A signed request is accepted at most twice, and only once unless its
    timestamp was still ahead of the server's clock when it was first accepted.
    Whatever requests a server handles as its clock goes forward: two
    acceptances of one nonce lie more than the skew apart, so of one nonce and
    timestamp there are at most two, and after one that was not ahead of its
    time there is none. *)
Theorem replays_are_bounded (self : RequestAuthenticator) cs n :
  require_signatures self = true -> StronglySorted Qle (map c_now cs) ->
  let l := acceptances self n no_caches cs in
  StronglySorted (apart self) l
  /\ (forall T, (length (List.filter (fun x => Z.eqb x.1 T) l) <= 2)%nat)
  /\ forall pre T t post, l = pre ++ (T, t) :: post -> (inject_Z T <= t)%Q -> ~ T ∈ map fst post.
Proof.
  intros Hreq Hs l. destruct (acceptances_apart self n no_caches cs Hreq Hs) as [Ha Hf]. fold l in Ha, Hf.
  split; [done|]. split.
  - intros T. revert Ha Hf. generalize l as k. clear.
    assert (forall k, StronglySorted (apart self) k -> StronglySorted (apart self) (List.filter (fun x => Z.eqb x.1 T) k)) as Hsub.
    { induction 1 as [|x k _ IH Hx]; cbn; [constructor|]. destruct (Z.eqb x.1 T); [|done]. constructor; [done|].
      rewrite Forall_forall in *. intros y [Hy _]%in_filter. by apply Hx. }
    intros k Ha Hf. pose proof (Hsub k Ha) as Hb.
    assert (Forall (fun x => x.1 = T /\ timestamp_fresh x.1 x.2 (skew_seconds self) = true) (List.filter (fun x => Z.eqb x.1 T) k)) as Hg.
    { rewrite Forall_forall in *. intros x [Hx E1%Z.eqb_eq]%in_filter. auto. }
    destruct (List.filter _ k) as [|x [|y [|z r]]]; cbn; try lia. exfalso.
    apply StronglySorted_inv in Hb as [Hb Hx]. apply StronglySorted_inv in Hb as [_ Hy].
    apply Forall_cons in Hx as [Hxy _]. apply Forall_cons in Hy as [Hyz _].
    apply Forall_cons in Hg as [[E1 F1] Hg]. apply Forall_cons in Hg as [_ Hg]. apply Forall_cons in Hg as [[E3 F3] _].
    apply fresh_spec in F1, F3. rewrite E1 in F1. rewrite E3 in F3. unfold apart in Hxy, Hyz. lra.
  - intros pre T t post E1 Hle ([T' u] & -> & Hu)%list_elem_of_fmap. cbn in Hle.
    rewrite E1 in Ha, Hf. apply StronglySorted_app_1_r in Ha. apply StronglySorted_inv in Ha as [_ Ha].
    apply Forall_app in Hf as [_ Hf]. apply Forall_cons in Hf as [_ Hf].
    rewrite Forall_forall in Ha, Hf. specialize (Ha _ Hu). specialize (Hf _ Hu). apply fresh_spec in Hf.
    unfold apart in Ha. cbn in *. lra.
Qed.
End bounds.

(** ** What an accepted request is signed by *)

Section accepted.
Context {E : Ed25519} {L : Ed25519Laws E}.

(** The key was asked for now, or at most [pubkey_cache_ttl] before. *)
Definition vouched (self : RequestAuthenticator) (ask : registry) (s : caches) (p pk : string) (now : Q) : Prop :=
  ask p = Ok (Some pk)
  \/ exists at_, pubkeys s !! p = Some (pk, at_) /\ (now < at_ + inject_Z (pubkey_cache_ttl self))%Q.
Lemma resolve_vouched self ask p now s s' pk :
  _resolve_public_key self ask p now s = (s', Ok (Some pk)) -> vouched self ask s p pk now.
Proof.
  unfold _resolve_public_key, vouched. intros H.
  destruct (pubkeys s !! p) as [[v at_]|].
  - destruct (qlt _ _) eqn:Eq; [|destruct (ask p) as [[w|]|] eqn:Ea; try done; injection H as _ ->; by left].
    injection H as _ ->. right. exists at_. split; [done|]. unfold qlt in Eq. apply negb_true_iff in Eq.
    destruct (Qlt_le_dec now (at_ + inject_Z (pubkey_cache_ttl self))) as [Hl|Hl]; [done|exfalso].
    assert (inject_Z (pubkey_cache_ttl self) <= now - at_)%Q as Hq by lra. apply Qle_bool_iff in Hq. congruence.
  - destruct (ask p) as [[w|]|] eqn:Ea; try done. injection H as _ ->. by left.
Qed.
Lemma load_key_value pk raw : load_verify_key pk = Ok raw ->
  exists t, pk = VStr t /\ decode_text t = Some raw /\ str_length raw = 32%nat.
Proof.
  unfold load_verify_key. destruct pk as [| | |t| |]; try done. cbn. destruct (decode_text t) as [r|] eqn:Ed; [|done].
  destruct (Nat.eqb_spec (str_length r) 32); [|done]. intros [= ->]. by exists t.
Qed.
Lemma assertion_signed d pk now v :
  verify_session_assertion d (VStr pk) now = Ok v ->
  exists raw expires, decode_text pk = Some raw /\ PyValue.get d "principal_id" = VStr pk
  /\ v = PyValue.get d "session_public_key"
  /\ signs raw (_canonical_session_bytes (VStr pk) v (PyValue.get d "issued_at") (PyValue.get d "expires_at"))
  /\ as_number (PyValue.get d "expires_at") = Some expires /\ (now <= inject_Z expires)%Q.
Proof.
  unfold verify_session_assertion. intros H.
  apply result_bind_ok in H as ([] & H1 & H). apply guard_or_ok in H1.
  apply result_bind_ok in H as ([] & H2 & H).
  apply result_bind_ok in H as (raw & H3 & H). apply result_bind_ok in H as (sg & H4 & H).
  apply result_bind_ok in H as ([] & H5 & H). apply guard_or_ok in H5.
  apply result_bind_ok in H as ([] & H6 & H). apply guard_or_ok in H6. injection H as <-.
  apply load_key_value in H3 as (t & [= <-] & Hd & _).
  assert (PyValue.get d "principal_id" = VStr pk) as Hp.
  { destruct (PyValue.get d "principal_id"); try done; cbn in H1. apply String.eqb_eq in H1. by subst. }
  destruct sg as [sg|]; [|done]. apply unforgeable in H5. rewrite Hp in H5.
  destruct (as_number _) as [e|] eqn:Ee; [|done]. apply Qle_bool_iff in H6. by exists raw, e.
Qed.

(** C12. An accepted request was signed, link by link.  When the authenticator
    names a principal: the registry vouched for a key of that principal, now or
    within the life of the cache; that key signed an assertion for a session key
    that has not expired; the session key signed this very method, path, body,
    timestamp and nonce; and the timestamp is within the skew. *)
Theorem accepted_request_was_signed self ask method path body hs now s s' p :
  require_signatures self = true ->
  authenticate self ask method path body hs now s = (s', Ok (Some p, None)) ->
  header hs HEADER_PRINCIPAL = p
  /\ exists pk raw issued expires until session session_raw timestamp,
       vouched self ask s p pk now /\ decode_text pk = Some raw
       /\ signs raw (_canonical_session_bytes (VStr pk) (VStr session) issued expires)
       /\ as_number expires = Some until /\ (now <= inject_Z until)%Q
       /\ decode_text session = Some session_raw
       /\ parse_int (header hs HEADER_TIMESTAMP) = Some timestamp
       /\ signs session_raw (canonical_request method path body timestamp (header hs HEADER_NONCE))
       /\ (inject_Z timestamp - inject_Z (skew_seconds self) <= now <= inject_Z timestamp + inject_Z (skew_seconds self))%Q.
Proof.
  intros Hreq. unfold authenticate. rewrite Hreq. cbn [negb]. destruct (negb (_ && _)); [done|].
  destruct (parse_int _) as [t|] eqn:Et; [|done]. destruct (_parse_assertion _) as [| | | | |d]; try done.
  destruct (_resolve_public_key _ _ _ _ _) as [s1 [[pk|]|e]] eqn:Er; try done.
  apply resolve_vouched in Er. destruct (negb (truthy (Some pk))); [done|]. unfold check_request. cbn [default].
  destruct (verify_session_assertion _ _ _) as [v|[]] eqn:Ev; try done.
  destruct (verify_request_signature _ _ _ _ _ _ _) as [u|[]] eqn:Eu; try done.
  destruct (timestamp_fresh _ _ _) eqn:Ef; [|done]. cbn [negb]. destruct (check_and_add _ _ _ _) as [seen' [|]]; [|done].
  intros [= _ Hp]. split; [done|]. apply assertion_signed in Ev as (raw & until & Hraw & _ & Hv & Hsig & Hun & Hle).
  unfold verify_request_signature in Eu. apply result_bind_ok in Eu as (sraw & Hs & Eu). apply guard_or_ok in Eu.
  apply load_key_value in Hs as (session & Hsv & Hsd & _).
  destruct (decode_text (header hs HEADER_SIGNATURE)) as [sg|]; [|done]. apply unforgeable in Eu.
  rewrite Hsv in Hsig. rewrite Hp in Er.
  exists pk, raw, (PyValue.get d "issued_at"), (PyValue.get d "expires_at"), until, session, sraw, t.
  split_and!; try done; by apply fresh_spec.
Qed.
End accepted.

(** ** What a client signs, the server accepts *)

Lemma decode_b64encode s : decode_text (b64encode s) = Some s.
Proof. unfold decode_text. by rewrite ascii_b64encode, b64decode_encode. Qed.

(** *** [int(str(z))] *)

Lemma digit_val_pretty n : (n < 10)%N -> digit_val (pretty_N_char n) = Some (Z.of_N n) /\ Ascii.eqb (pretty_N_char n) (chr 95) = false.
Proof.
  intros Hn. assert (exists k, n = N.of_nat k /\ (k < 10)%nat) as (k & -> & Hk) by (exists (N.to_nat n); lia).
  do 10 (destruct k as [|k]; [done|]). lia.
Qed.
Lemma digits_val_pretty n acc b :
  (0 < n)%N -> digits_val (pretty_N_go n acc) 0 b = digits_val acc (Z.of_N n) true.
Proof.
  intros Hn. revert acc b Hn. induction (N.lt_wf_0 n) as [n _ IH]. intros acc b Hn.
  rewrite pretty_N_go_step by lia. destruct (decide (n < 10)%N) as [Hs|Hb].
  - rewrite N.div_small, pretty_N_go_0, N.mod_small by done. cbn [digits_val].
    destruct (digit_val_pretty n Hs) as [-> ->]. done.
  - rewrite IH; [|apply N.div_lt; lia|apply N.div_str_pos; lia]. cbn [digits_val].
    destruct (digit_val_pretty (n mod 10)) as [-> ->]; [by apply N.mod_lt|]. f_equal.
    pose proof (N.div_mod n 10 ltac:(done)). lia.
Qed.
Lemma rev_app_spec s t : String.rev_app s t = String.rev s +:+ t.
Proof.
  unfold String.rev. revert t. induction s as [|c s IH]; intros t; [done|]. cbn [String.rev_app].
  rewrite (IH (String c t)), (IH (String c "")), str_app_assoc. done.
Qed.
Lemma rev_cons c s : String.rev (String c s) = String.rev s +:+ String c "".
Proof. exact (rev_app_spec s (String c "")). Qed.
Lemma rev_snoc s c : String.rev (s +:+ String c "") = String c (String.rev s).
Proof. induction s as [|b s IH]; [done|]. by rewrite str_app_cons, !rev_cons, IH. Qed.
Lemma rev_rev s : String.rev (String.rev s) = s.
Proof. induction s as [|c s IH]; [done|]. by rewrite rev_cons, rev_snoc, IH. Qed.
Lemma forallb_app p s t : str_forallb p (s +:+ t) = str_forallb p s && str_forallb p t.
Proof. induction s as [|c s IH]; [done|]. rewrite str_app_cons. cbn [str_forallb]. by rewrite IH, andb_assoc. Qed.
Lemma forallb_rev p s : str_forallb p (String.rev s) = str_forallb p s.
Proof. induction s as [|c s IH]; [done|]. rewrite rev_cons, forallb_app. cbn [str_forallb]. rewrite IH. by destruct (p c), (str_forallb p s). Qed.
Lemma lstrip_num s : str_forallb is_num_char s = true -> PyValue.lstrip s = s.
Proof.
  destruct s as [|c s]; [done|]. cbn [str_forallb PyValue.lstrip]. intros [H _]%andb_true_iff.
  by destruct c as [[] [] [] [] [] [] [] []].
Qed.
Lemma strip_num s : str_forallb is_num_char s = true -> PyValue.strip s = s.
Proof.
  intros H. unfold PyValue.strip. rewrite (lstrip_num s) by done.
  rewrite lstrip_num by by rewrite forallb_rev. apply rev_rev.
Qed.
Lemma parse_int_pretty z : parse_int (pretty z) = Some z.
Proof.
  unfold parse_int. rewrite strip_num by apply pretty_Z_num. destruct z as [|p|p]; [done| |].
  - change (pretty (Zpos p)) with (pretty_N_go (Npos p) "").
    destruct (pretty_digits (Npos p) "") as (c & d & rest & E & Hd & _); [done|].
    pose proof (digits_val_pretty (Npos p) "" false ltac:(done)) as E'. rewrite E in *.
    by destruct c as [[] [] [] [] [] [] [] []].
  - change (pretty (Zneg p)) with (String (chr 45) (pretty_N_go (Npos p) "")).
    pose proof (digits_val_pretty (Npos p) "" false ltac:(done)) as E'.
    change (Ascii.eqb (chr 45) (chr 45)) with true. cbv iota. rewrite E'. done.
Qed.

(** *** Headers and the assertion *)

Lemma built_headers p (d : list (string * pyval)) pub sg t n :
  let hs := [(HEADER_PRINCIPAL, p); (HEADER_SESSION, json_text (VDict d)); (HEADER_SESSION_PUB, pub);
             (HEADER_SIGNATURE, sg); (HEADER_TIMESTAMP, t); (HEADER_NONCE, n)] in
  header hs HEADER_PRINCIPAL = p /\ header hs HEADER_SESSION = json_text (VDict d)
  /\ header hs HEADER_SIGNATURE = sg /\ header hs HEADER_TIMESTAMP = t /\ header hs HEADER_NONCE = n.
Proof.
  cbv zeta. unfold header, _lower_headers. cbn [fold_left fst snd].
  split_and!; repeat first [rewrite lookup_insert_eq | rewrite lookup_insert_ne by done]; done.
Qed.

Section client.
Context {E : Ed25519} {L : Ed25519Laws E}.

Lemma public_key_nonempty k : public k <> "".
Proof. pose proof (public_length k) as H. by destruct (public k). Qed.
Lemma load_public k : load_verify_key (VStr (public_key_b64 k)) = Ok (public k).
Proof. unfold load_verify_key, public_key_b64. cbn. by rewrite decode_b64encode, public_length. Qed.
Lemma read_assertion principal k session ttl t0 :
  ascii_text principal = true -> ascii_text session = true ->
  let d := build_session_assertion principal k session ttl t0 in
  exists d', _parse_assertion (json_text (VDict d)) = VDict d' /\ forall key, PyValue.get d' key = PyValue.get d key.
Proof.
  intros Hp Hs d.
  assert (norm (VDict d) = VDict [
    ("expires_at", VInt (trunc t0 + ttl)); ("issued_at", VInt (trunc t0)); ("principal_id", VStr principal);
    ("session_public_key", VStr session); ("signature", PyValue.get d "signature")]) as Hn by reflexivity.
  eexists. split.
  - unfold _parse_assertion. rewrite loads_json_text; [by rewrite Hn| |]; rewrite Hn; cbn -[text].
    + repeat constructor; try (by apply text_ascii). apply text_ascii, ascii_b64encode.
    + split; [|by repeat constructor]. by apply (bool_decide_unpack _).
  - intros x. unfold PyValue.get. f_equal. apply dget_perm; [by apply (bool_decide_unpack _)|].
    exact (merge_sort_Permutation field_le d).
Qed.

(** C14. What a client signs, the server accepts.  The headers that
    [build_auth_headers] makes for a session its principal's key vouched for are
    accepted, as that principal, by any server the registry answers, as long as
    the session has not expired, the clocks differ by at most the skew, and the
    nonce was not used within it. *)
Theorem signed_headers_are_accepted self ask k sk ttl t0 method path body t1 nonce now s s' :
  let principal := public_key_b64 k in
  let hs := build_auth_headers principal (build_session_assertion principal k (public_key_b64 sk) ttl t0) sk
              method path body t1 nonce in
  require_signatures self = true ->
  _resolve_public_key self ask principal now s = (s', Ok (Some principal)) ->
  (now <= inject_Z (trunc t0 + ttl))%Q -> timestamp_fresh (trunc t1) now (skew_seconds self) = true ->
  nonce <> "" -> _evict (skew_seconds self) now (seen s) !! nonce = None ->
  (authenticate self ask method path body hs now s).2 = Ok (Some principal, None).
Proof.
  intros principal hs Hreq Hask Hexp Hfresh Hne Hnew. unfold authenticate. rewrite Hreq. cbn [negb].
  set (d := build_session_assertion principal k (public_key_b64 sk) ttl t0) in *.
  change hs with [(HEADER_PRINCIPAL, principal); (HEADER_SESSION, json_text (VDict d)); (HEADER_SESSION_PUB, public_key_b64 sk);
    (HEADER_SIGNATURE, sign_request sk method path body (trunc t1) nonce); (HEADER_TIMESTAMP, pretty (trunc t1));
    (HEADER_NONCE, nonce)].
  destruct (built_headers principal d (public_key_b64 sk) (sign_request sk method path body (trunc t1) nonce)
    (pretty (trunc t1)) nonce) as (-> & -> & -> & -> & ->).
  assert (forall k m, truthy (b64encode (sign k m)) = true) as Hsg.
  { intros k' m. apply b64encode_nonempty. pose proof (sign_length k' m) as H. by destruct (sign k' m). }
  assert (truthy principal = true) as -> by apply b64encode_nonempty, public_key_nonempty.
  assert (truthy (pretty (trunc t1)) = true) as -> by (destruct (pretty_Z_num (trunc t1)) as [_ H]; by destruct (pretty (trunc t1))).
  destruct (read_assertion principal k (public_key_b64 sk) ttl t0) as (d' & Hd' & Hget); [apply ascii_b64encode..|].
  fold d in Hd', Hget.
  assert (truthy (json_text (VDict d)) = true) as -> by reflexivity.
  assert (truthy (sign_request sk method path body (trunc t1) nonce) = true) as -> by apply Hsg.
  assert (truthy nonce = true) as -> by (by destruct nonce).
  assert (truthy (Some principal) = true) as Hp by apply b64encode_nonempty, public_key_nonempty.
  cbn [andb negb]. rewrite parse_int_pretty, Hd', Hask, Hp. cbn [negb from_option id].
  unfold check_request.
  assert (verify_session_assertion d' (VStr principal) now = Ok (VStr (public_key_b64 sk))) as ->.
  { unfold verify_session_assertion. rewrite !Hget. unfold d, build_session_assertion. cbn -[trunc load_verify_key _canonical_session_bytes Z.add b64encode].
    rewrite String.eqb_refl. cbn -[trunc load_verify_key _canonical_session_bytes Z.add b64encode].
    match goal with |- guard_or _ ?b ≫= _ = _ => change b with (truthy (b64encode (sign k (_canonical_session_bytes (VStr principal)
      (VStr (public_key_b64 sk)) (VInt (trunc t0)) (VInt (trunc t0 + ttl)))))) end.
    rewrite Hsg. unfold principal. rewrite load_public. cbn -[trunc _canonical_session_bytes Z.add b64encode].
    rewrite decode_b64encode, sign_verifies. cbn -[trunc Z.add]. by rewrite (proj2 (Qle_bool_iff _ _) Hexp). }
  assert (verify_request_signature (VStr (public_key_b64 sk)) method path body (trunc t1) nonce
            (sign_request sk method path body (trunc t1) nonce) = Ok tt) as ->.
  { unfold verify_request_signature. rewrite load_public. cbn. unfold sign_request. by rewrite decode_b64encode, sign_verifies. }
  rewrite Hfresh. cbn [negb].
  assert (seen s' = seen s) as -> by (pose proof (resolve_seen self ask principal now s) as Hr; by rewrite Hask in Hr).
  unfold check_and_add. by rewrite Hnew.
Qed.
End client.

(** ** Concrete runs *)

(** Two keys; a signature names its key. *)
Fixpoint repeated (n : nat) (c : ascii) : string := match n with O => "" | S n => String c (repeated n c) end.
Definition toy_public (k : bool) : string := repeated 32 (chr (if k then 65 else 66)).
Definition toy_sign (k : bool) (m : string) : string := repeated 64 (chr (if k then 65 else 66)).
Definition toy_verify (pk m sg : string) : bool :=
  existsb (fun k => String.eqb pk (toy_public k) && String.eqb sg (toy_sign k m)) [true; false].
Global Instance toy : Ed25519 :=
  {| key := bool; public := toy_public; sign := toy_sign; verify := toy_verify; signs pk m := exists k, pk = toy_public k |}.
Global Instance toy_laws : Ed25519Laws toy.
Proof.
  constructor; [by intros []|by intros []| |].
  - intros k m. change (toy_verify (toy_public k) m (toy_sign k m) = true). unfold toy_verify. apply existsb_exists. exists k. split; [destruct k; cbn; auto|].
    by rewrite !String.eqb_refl.
  - intros pk m sg H. change (toy_verify pk m sg = true) in H. unfold toy_verify in H. apply existsb_exists in H as (k & _ & H).
    apply andb_true_iff in H as [H%String.eqb_eq _]. by exists k.
Qed.

Definition toy_server : RequestAuthenticator := {| require_signatures := true; skew_seconds := 120; pubkey_cache_ttl := 60 |}.
Definition toy_principal : string := public_key_b64 (E := toy) true.
Definition toy_registry : registry := fun _ => Ok (Some toy_principal).
(** A request stamped at [t]. *)
Definition toy_headers (t : Q) : headers :=
  build_auth_headers (E := toy) toy_principal (build_session_assertion (E := toy) toy_principal true
    (public_key_b64 (E := toy) false) 900 100) false "GET" "/a" "" t "n1".
Definition toy_call (t now : Q) : call :=
  {| c_method := "GET"; c_path := "/a"; c_body := ""; c_headers := toy_headers t; c_now := now; c_registry := toy_registry |}.

Lemma signed_headers_are_accepted_witness :
  (authenticate (E := toy) toy_server toy_registry "GET" "/a" "" (toy_headers 150) 160 no_caches).2
  = Ok (Some toy_principal, None).
Proof.
  apply (signed_headers_are_accepted (E := toy) toy_server toy_registry true false 900 100 "GET" "/a" "" 150 "n1" 160 no_caches
    {| seen := ∅; pubkeys := {[toy_principal := (toy_principal, 160%Q)]} |}); try done; by vm_compute.
Defined.
Lemma accepted_request_was_signed_witness :
  exists s', authenticate (E := toy) toy_server toy_registry "GET" "/a" "" (toy_headers 150) 160 no_caches
             = (s', Ok (Some toy_principal, None))
  /\ header (toy_headers 150) HEADER_PRINCIPAL = toy_principal.
Proof.
  destruct (authenticate (E := toy) toy_server toy_registry "GET" "/a" "" (toy_headers 150) 160 no_caches) as [s' a] eqn:Ea.
  assert (a = Ok (Some toy_principal, None)) as ->
    by (change a with (s', a).2; rewrite <- Ea; vm_compute; reflexivity).
  exists s'. split; [reflexivity|].
  exact (proj1 (accepted_request_was_signed (E := toy) toy_server toy_registry "GET" "/a" "" (toy_headers 150) 160 no_caches s'
    toy_principal eq_refl Ea)).
Defined.

(** A request stamped ahead of the server's clock, replayed after its nonce was
    evicted and while its timestamp is still fresh, is accepted again. *)
Definition toy_replay : list call := [toy_call 219 100; toy_call 219 219; toy_call 219 221; toy_call 219 339].
Example replay_is_accepted : acceptances (E := toy) toy_server "n1" no_caches toy_replay = [(219, 100%Q); (219, 221%Q)].
Proof. by vm_compute. Qed.
Lemma replays_are_bounded_witness :
  (length (List.filter (fun x => Z.eqb x.1 219) (acceptances (E := toy) toy_server "n1" no_caches toy_replay)) <= 2)%nat.
Proof.
  apply (replays_are_bounded (E := toy) toy_server toy_replay "n1"); [done|].
  repeat constructor; by apply Qle_bool_iff.
Defined.
