(* ===== verification/Attestation.v ===== *)
(** * Execution attestations

    src/agents/orchestrator/attestation.py: what the broker signs about an
    effect it carried out ([ExecutionAttestor.create]), and how whoever is
    handed such a document checks it ([verify_execution_attestation]).  The
    signature is over the canonical JSON of the thirteen other fields. *)

From stdpp Require Import gmap pretty.
From Stdlib Require Import QArith.
From S2P Require Import Prelude PyValue Json JsonRead Base64 Sha256 Signing.
From S2P Require SigningProofs.
Local Close Scope Q_scope.
Local Open Scope Z_scope.

Abbreviation dict := (list (string * pyval)).

Inductive attestation_error : Type :=
| AttestationError (message : string)
| Python (e : pyexn).                   (* what the callers do not expect *)

Definition _SIGNED_FIELDS : list string :=
  ["attestation_id"; "task_id"; "user_principal_id"; "agent_principal_id"; "credential_id"; "capability_id";
   "approved_payload_hash"; "provider_receipt"; "idempotency_key"; "executed_at"; "outcome"; "broker_key_id";
   "material_hashes"].
Definition _REQUIRED_FIELDS : list string := _SIGNED_FIELDS ++ ["signature"].
Definition _RECEIPT_FIELDS : list string :=
  ["provider"; "capability_id"; "provider_id"; "provider_account_hash"; "provider_timestamp"; "team_id"; "channel_id";
   "message_ts"; "file_id"; "reaction"].

(** [{key: d[key] for key in keys if key in d}]. *)
Definition restrict (keys : list string) (d : dict) : dict :=
  omap (fun k => (fun v => (k, v)) <$> dget d k) keys.

Definition _canonical (v : pyval) : string := dumps v.
Definition _canonical_bytes (attestation : dict) : string := _canonical (VDict (restrict _SIGNED_FIELDS attestation)).
Definition _hash (v : pyval) : string := sha256 (_canonical v).

(** ** What is hashed of the payload *)

Definition email_of (v : pyval) : option string :=
  match v with VDict d => match get d "email" with VStr s => Some s | _ => None end | _ => None end.
Definition material_projection (capability_id : string) (payload : pyval) : dict :=
  let payload := as_mapping payload in
  if String.eqb capability_id "calendar.create" then
    let event := as_mapping (get payload "event") in
    restrict ["summary"; "start"; "end"] event
    ++ match get event "attendees" with
       | VList l => [("attendees", VList (map VStr (str_sort (omap email_of l))))]
       | _ => []
       end
  else if String.eqb capability_id "gmail.send" then restrict ["raw"] payload
  else if String.eqb capability_id "drive.upload" then restrict ["name"; "mime_type"] payload
  else if str_in capability_id ["slack.message.send"; "slack.thread.reply"]
  then restrict ["channel_id"; "thread_ts"; "text"] payload
  else if String.eqb capability_id "slack.reaction.add" then restrict ["channel_id"; "message_ts"; "reaction"] payload
  else if String.eqb capability_id "slack.file.upload" then restrict ["channel_id"; "filename"; "content_hash"] payload
  else [].
Definition material_hashes (capability_id : string) (payload : pyval) : dict :=
  map (fun kv => (kv.1, VStr (_hash kv.2))) (material_projection capability_id payload).

Definition nonempty_text (v : pyval) : bool := match v with VStr s => truthy s | _ => false end.
Definition _filtered_receipt (receipt : pyval) : result attestation_error dict :=
  match receipt with
  | VDict d =>
      let filtered := restrict _RECEIPT_FIELDS d in
      match List.find (fun field => negb (nonempty_text (get filtered field))) ["provider"; "capability_id"; "provider_id"] with
      | Some field => Err (AttestationError ("provider receipt is missing " +:+ field))
      | None => Ok filtered
      end
  | _ => Err (AttestationError "provider receipt must be an object")
  end.

(** ** Issuing *)

Definition is_hex (c : ascii) : bool := let n := ord c in ((48 <=? n) && (n <=? 57) || (97 <=? n) && (n <=? 102))%N.
Definition is_sha256 (s : string) : bool := Nat.eqb (str_length s) 64 && str_forallb is_hex s.

(** The arguments of [create]. *)
Record execution := {
  x_task : pyval;
  x_user : pyval;
  x_agent : pyval;
  x_credential : pyval;
  x_capability : pyval;
  x_payload_hash : pyval;
  x_receipt : pyval;
  x_idempotency_key : pyval;
  x_outcome : pyval;
  x_payload : pyval;                    (* [None]: not given *)
  x_executed_at : option Q;
}.

Section attestation.
Context {E : Ed25519}.

Record ExecutionAttestor := { broker_key_id : string; signing_key : key }.
Definition new_attestor (broker_key_id : pyval) (k : key) : result pyexn ExecutionAttestor :=
  match broker_key_id with
  | VStr s => if truthy s then Ok {| broker_key_id := s; signing_key := k |} else Err ValueError
  | _ => Err ValueError
  end.

Definition text_of (v : pyval) : string := match v with VStr s => s | _ => "" end.
(** The attestation before it is signed. *)
Definition unsigned (self : ExecutionAttestor) (clock : Q) (x : execution) (receipt : dict) : dict := [
  ("attestation_id", VStr ("attestation-" +:+
     _hash (VDict [("idempotency_key", x_idempotency_key x); ("provider_receipt", VDict receipt)])));
  ("task_id", x_task x);
  ("user_principal_id", x_user x);
  ("agent_principal_id", x_agent x);
  ("credential_id", x_credential x);
  ("capability_id", x_capability x);
  ("approved_payload_hash", x_payload_hash x);
  ("provider_receipt", VDict receipt);
  ("idempotency_key", x_idempotency_key x);
  ("executed_at", VInt (trunc (default clock (x_executed_at x))));
  ("outcome", x_outcome x);
  ("broker_key_id", VStr (broker_key_id self));
  ("material_hashes", VDict (material_hashes (text_of (x_capability x)) (x_payload x)))].
Definition create (self : ExecutionAttestor) (clock : Q) (x : execution) : result attestation_error dict :=
  guard_or (AttestationError "all execution binding fields are required")
    (forallb nonempty_text [x_task x; x_user x; x_agent x; x_credential x; x_capability x; x_payload_hash x;
                            x_idempotency_key x; x_outcome x]) ≫= fun _ =>
  guard_or (AttestationError "approved payload hash must be sha256") (is_sha256 (text_of (x_payload_hash x))) ≫= fun _ =>
  receipt ← _filtered_receipt (x_receipt x);
  guard_or (AttestationError "receipt capability does not match execution")
    (py_eqb (get receipt "capability_id") (x_capability x)) ≫= fun _ =>
  let attestation := unsigned self clock x receipt in
  Ok (attestation ++ [("signature", VStr (b64encode (sign (signing_key self) (_canonical_bytes attestation))))]).

(** ** Checking *)

Inductive broker_keys : Type :=
| Keys (d : dict)
| Lookup (f : pyval -> pyval)             (* a function of the caller's *)
| NoKeys.
Definition broker_key (keys : broker_keys) (key_id : pyval) : result attestation_error pyval :=
  match keys with
  | Lookup f => Ok (f key_id)
  | Keys d => match key_id with
              | VStr s => Ok (get d s)
              | v => if hashable v then Ok VNone else Err (Python TypeError)
              end
  | NoKeys => Ok VNone
  end.
Definition same_keys (d : dict) (keys : list string) : bool :=
  forallb (fun kv => str_in kv.1 keys) d && forallb (fun k => str_in k d.*1) keys.
(** [base64.b64decode(v, validate=True)]. *)
Definition strict_value (v : pyval) : option string :=
  match v with VStr s => if ascii_text s then b64decode_strict s else None | _ => None end.
Definition verify_execution_attestation (attestation : pyval) (keys : broker_keys) : result attestation_error unit :=
  match attestation with
  | VDict a =>
      if negb (same_keys a _REQUIRED_FIELDS) then Err (AttestationError "execution attestation shape is invalid") else
      public_key ← broker_key keys (get a "broker_key_id");
      match public_key with
      | VStr pk =>
          if negb (truthy pk) then Err (AttestationError "broker signing key is unknown") else
          _ ← _filtered_receipt (get a "provider_receipt");
          match get a "material_hashes" with
          | VDict _ =>
              guard_or (AttestationError "execution attestation signature is invalid")
                (match decode_text pk, strict_value (get a "signature") with
                 | Some raw, Some sg => Nat.eqb (str_length raw) 32 && verify raw (_canonical_bytes a) sg
                 | _, _ => false
                 end)
          | _ => Err (AttestationError "material_hashes must be an object")
          end
      | _ => Err (AttestationError "broker signing key is unknown")
      end
  | _ => Err (AttestationError "execution attestation shape is invalid")
  end.
End attestation.

(** ** Issued and accepted *)

Lemma restrict_keys keys d : forall k, k ∈ (restrict keys d).*1 -> k ∈ keys.
Proof.
  intros k ([k' v] & -> & H)%list_elem_of_fmap. apply list_elem_of_omap in H as (x & Hx & E).
  destruct (dget d x); [|done]. by injection E as -> _.
Qed.
Lemma restrict_has keys d k : k ∈ keys -> k ∈ d.*1 -> k ∈ (restrict keys d).*1.
Proof.
  intros Hk Hd. assert (exists v, dget d k = Some v) as [v Hv].
  { induction d as [|[k' v] d IH]; [by apply elem_of_nil in Hd|]. cbn. destruct (String.eqb_spec k' k) as [->|]; [by exists v|].
    apply IH. by apply elem_of_cons in Hd as [->|]. }
  apply list_elem_of_fmap. exists (k, v). split; [done|]. apply list_elem_of_omap. exists k. split; [done|]. by rewrite Hv.
Qed.
Lemma restrict_distinct keys d : NoDup keys -> NoDup (restrict keys d).*1.
Proof.
  induction 1 as [|k keys Hk _ IH]; cbn; [constructor|]. destruct (dget d k); [|done]. cbn. constructor; [|done].
  by intros H%restrict_keys.
Qed.
Lemma restrict_cons k keys d :
  restrict (k :: keys) d = match dget d k with Some v => (k, v) :: restrict keys d | None => restrict keys d end.
Proof. unfold restrict. cbn. by destruct (dget d k). Qed.
Lemma dget_restrict keys d k : dget (restrict keys d) k = if str_in k keys then dget d k else None.
Proof.
  induction keys as [|k' keys IH]; [done|]. rewrite restrict_cons.
  change (str_in k (k' :: keys)) with (String.eqb k' k || str_in k keys) || change (str_in k (k' :: keys)) with (String.eqb k k' || str_in k keys).
  rewrite (String.eqb_sym k k'). destruct (dget d k') as [v|] eqn:E; cbn [dget]; (destruct (String.eqb_spec k' k) as [->|]; cbn [orb]; [|done]).
  - done.
  - rewrite IH, E. by destruct (str_in k keys).
Qed.
Lemma signed_distinct : NoDup _SIGNED_FIELDS.
Proof. apply (bool_decide_unpack _). by vm_compute. Qed.
Lemma filtered_again receipt d : _filtered_receipt receipt = Ok d -> _filtered_receipt (VDict d) = Ok (restrict _RECEIPT_FIELDS d).
Proof.
  unfold _filtered_receipt at 1. destruct receipt as [| | | | |r]; try discriminate. cbv zeta.
  destruct (List.find _ _) eqn:Ef; [discriminate|]. intros [= <-]. unfold _filtered_receipt. cbv zeta.
  assert (forall k, str_in k _RECEIPT_FIELDS = true ->
            get (restrict _RECEIPT_FIELDS (restrict _RECEIPT_FIELDS r)) k = get (restrict _RECEIPT_FIELDS r) k) as H
    by (intros k Hk; unfold get; by rewrite (dget_restrict _ _ k), Hk).
  cbn [List.find] in Ef |- *. rewrite !H by reflexivity. by rewrite Ef.
Qed.

Lemma filtered_is r d : _filtered_receipt (VDict r) = Ok d -> d = restrict _RECEIPT_FIELDS r.
Proof. unfold _filtered_receipt. cbv zeta. destruct (List.find _ _); congruence. Qed.

Section issued.
Context {E : Ed25519}.

Lemma attestation_shape self clock x a :
  create self clock x = Ok a ->
  exists receipt, _filtered_receipt (x_receipt x) = Ok receipt
    /\ let u := unsigned self clock x receipt in
       a = u ++ [("signature", VStr (b64encode (sign (signing_key self) (_canonical_bytes u))))].
Proof.
  unfold create, mbind, result_bind, guard_or. destruct (forallb _ _); [|discriminate].
  destruct (is_sha256 _); [|discriminate]. destruct (_filtered_receipt _) as [receipt|] eqn:Er; [|discriminate].
  destruct (py_eqb _ _); [|discriminate]. cbv zeta. intros H. exists receipt. split; [done|]. by injection H.
Qed.
Lemma dget_snoc d k v k' : k <> k' -> dget (d ++ [(k, v)]) k' = dget d k'.
Proof.
  intros H. induction d as [|[k1 v1] d IH]; cbn.
  - by destruct (String.eqb_spec k k').
  - destruct (String.eqb k1 k'); [done|apply IH].
Qed.
Lemma signed_part fields s : _canonical_bytes (fields ++ [("signature", s)]) = _canonical_bytes fields.
Proof.
  unfold _canonical_bytes. do 2 f_equal. assert ("signature" ∉ _SIGNED_FIELDS) as H by (apply str_in_false; reflexivity).
  revert H. induction _SIGNED_FIELDS as [|k keys IH]; [done|]. intros [H1 H2]%not_elem_of_cons. rewrite !restrict_cons, dget_snoc by done.
  by rewrite IH.
Qed.

(** What the broker attests is accepted: a document [create] returns passes
    [verify_execution_attestation] wherever the broker's key is known under the
    broker's name. *)
Theorem issued_attestation_is_accepted (L : Ed25519Laws E) self clock x a keys :
  create self clock x = Ok a -> broker_key keys (VStr (broker_key_id self)) = Ok (VStr (public_key_b64 (signing_key self))) ->
  verify_execution_attestation (VDict a) keys = Ok tt.
Proof.
  intros (receipt & Hr & Ha)%attestation_shape Hk. cbv zeta in Ha.
  assert (_canonical_bytes a = _canonical_bytes (unsigned self clock x receipt)) as Hb by (subst a; apply signed_part).
  assert (get a "signature" = VStr (b64encode (sign (signing_key self) (_canonical_bytes (unsigned self clock x receipt)))))
    as Hs by (by subst a).
  unfold verify_execution_attestation. replace (same_keys a _REQUIRED_FIELDS) with true by (by subst a).
  replace (get a "broker_key_id") with (VStr (broker_key_id self)) by (by subst a).
  replace (get a "provider_receipt") with (VDict receipt) by (by subst a).
  replace (get a "material_hashes") with (VDict (material_hashes (text_of (x_capability x)) (x_payload x))) by (by subst a).
  cbn [negb]. unfold mbind, result_bind. rewrite Hk, (filtered_again _ _ Hr), Hs, Hb.
  unfold public_key_b64. rewrite b64encode_nonempty by (intros H; pose proof (public_length (signing_key self)) as Hl; by rewrite H in Hl).
  cbn [negb]. unfold decode_text, strict_value. rewrite !ascii_b64encode, b64decode_encode, b64decode_strict_encode, public_length, sign_verifies.
  done.
Qed.

(** What is accepted was issued.  If what is signed with the broker's key is
    only what [create] makes, a document that passes under that key agrees, in
    every signed field and up to the order of keys inside them, with one that
    [create] returned. *)
Theorem accepted_attestation_was_issued self keys a :
  (forall pk m sg, verify pk m sg = true -> signs pk m) ->
  (forall m, signs (public (signing_key self)) m -> exists clock x b, create self clock x = Ok b /\ m = _canonical_bytes b) ->
  broker_key keys (get a "broker_key_id") = Ok (VStr (public_key_b64 (signing_key self))) ->
  verify_execution_attestation (VDict a) keys = Ok tt ->
  exists clock x b, create self clock x = Ok b /\ forall f, f ∈ _SIGNED_FIELDS -> norm (get a f) = norm (get b f).
Proof.
  intros Hu Hissued Hk H. unfold verify_execution_attestation in H. destruct (negb (same_keys _ _)); [discriminate|].
  unfold mbind, result_bind in H. rewrite Hk in H. destruct (negb (truthy _)); [discriminate|].
  destruct (_filtered_receipt _); [|discriminate]. destruct (get a "material_hashes"); try discriminate.
  apply guard_or_ok in H. unfold public_key_b64, decode_text in H. rewrite ascii_b64encode, b64decode_encode in H.
  destruct (strict_value _) as [sg|]; [|discriminate]. apply andb_true_iff in H as [_ H]. apply Hu in H.
  destruct (Hissued _ H) as (clock & x & b & Hb & Hm). exists clock, x, b. split; [done|]. intros f Hf.
  pose proof (dumps_dict_field _ _ f (restrict_distinct _ a signed_distinct) (restrict_distinct _ b signed_distinct) Hm) as Hd.
  rewrite !dget_restrict in Hd. replace (str_in f _SIGNED_FIELDS) with true in Hd by (symmetry; by apply str_in_spec).
  unfold get. destruct (dget a f), (dget b f); cbn in Hd |- *; congruence.
Qed.
End issued.

(** *** An execution, and what is made of it *)

Definition toy_execution : execution := {|
  x_task := VStr "step-1"; x_user := VStr "ana"; x_agent := VStr "bot"; x_credential := VStr "cred";
  x_capability := VStr "gmail.send"; x_payload_hash := VStr (sha256 "payload");
  x_receipt := VDict [("provider", VStr "google"); ("capability_id", VStr "gmail.send"); ("provider_id", VStr "m-1");
                      ("token", VStr "secret")];
  x_idempotency_key := VStr "k-1"; x_outcome := VStr "succeeded";
  x_payload := VDict [("raw", VStr "hello"); ("to", VStr "bo")]; x_executed_at := None |}.
Definition toy_attestation {E : Ed25519} (k : key) : dict :=
  match create {| broker_key_id := "broker-1"; signing_key := k |} 100 toy_execution with Ok a => a | Err _ => [] end.
(** A key that signed that one document. *)
Definition toy_bytes : string := _canonical_bytes (toy_attestation (E := SigningProofs.toy) true).
Definition one_document : Ed25519 := {|
  key := unit; public _ := SigningProofs.toy_public true; sign _ m := SigningProofs.toy_sign true m;
  verify pk m sg := String.eqb pk (SigningProofs.toy_public true) && String.eqb m toy_bytes;
  signs pk m := pk = SigningProofs.toy_public true /\ m = toy_bytes |}.

Lemma issued_attestation_is_accepted_witness :
  verify_execution_attestation (E := SigningProofs.toy) (VDict (toy_attestation (E := SigningProofs.toy) true))
    (Keys [("broker-1", VStr (public_key_b64 (E := SigningProofs.toy) true))]) = Ok tt.
Proof.
  apply (issued_attestation_is_accepted (E := SigningProofs.toy) SigningProofs.toy_laws
           {| broker_key_id := "broker-1"; signing_key := true : key (Ed25519 := SigningProofs.toy) |} 100 toy_execution).
  - vm_compute. reflexivity.
  - vm_compute. reflexivity.
Defined.
Lemma accepted_attestation_was_issued_witness :
  exists clock x b, create (E := one_document) {| broker_key_id := "broker-1"; signing_key := tt : key (Ed25519 := one_document) |} clock x = Ok b
    /\ norm (VStr "bot") = norm (get b "agent_principal_id").
Proof.
  pose (a := toy_attestation (E := one_document) tt).
  destruct (accepted_attestation_was_issued (E := one_document)
      {| broker_key_id := "broker-1"; signing_key := tt : key (Ed25519 := one_document) |}
      (Keys [("broker-1", VStr (public_key_b64 (E := one_document) tt))]) a) as (clock & x & b & Hb & Hf).
  - intros pk m sg [H1%String.eqb_eq H2%String.eqb_eq]%andb_true_iff. done.
  - intros m [_ ->]. exists 100%Q, toy_execution, a. split; vm_compute; reflexivity.
  - vm_compute. reflexivity.
  - vm_compute. reflexivity.
  - exists clock, x, b. split; [exact Hb|]. rewrite <- Hf by (apply str_in_spec; reflexivity).
    assert (get a "agent_principal_id" = VStr "bot") as -> by (vm_compute; reflexivity). reflexivity.
Defined.
