(* ===== verification/Sessions.v ===== *)
(** * Browser sessions

    src/services/session/repository.py and src/services/session/app.py: an
    identity proof is exchanged once for an opaque session, which lives while it
    is used and no longer than its absolute term.  The tables hold hashes of the
    tokens.  [Sqlite] is [SessionRepository], every method one locked step;
    [Postgres] is [PostgresSessionRepository], every method one transaction,
    over the columns and checks of migration 0030.  [do_POST], [do_GET] and
    [do_DELETE] are the HTTP handler's. *)

From stdpp Require Import gmap.
From Stdlib Require Import QArith.
From S2P Require Import Prelude PyValue Json Sha256 Signing.
Local Close Scope Q_scope.
Local Open Scope Z_scope.

(** ** The repository *)

Record session_row := {
  principal_id : string;
  csrf_hash : string;
  created_at : Z;
  last_seen_at : Z;
  absolute_expires_at : Z;
  revoked_at : option Z;
  authenticated_at : option Z;
}.
Record store := { web_sessions : gmap string session_row; consumed_identity_proofs : gmap string Z }.
Definition no_sessions : store := {| web_sessions := ∅; consumed_identity_proofs := ∅ |}.
Record terms := { idle_ttl_seconds : Z; absolute_ttl_seconds : Z }.

Inductive session_error : Type :=
| ProofConsumed                       (* ValueError: "identity proof has already been consumed" *)
| ForeignKeyViolation
| CheckViolation
| Handler (e : signing_error).        (* raised while verifying *)
Definition sm (A : Type) : Type := stm store session_error A.

Definition _hash (value : string) : string := sha256 value.
Definition with_sessions (s : store) (m : gmap string session_row) : store :=
  {| web_sessions := m; consumed_identity_proofs := consumed_identity_proofs s |}.
Definition with_proofs (s : store) (m : gmap string Z) : store :=
  {| web_sessions := web_sessions s; consumed_identity_proofs := m |}.
Definition live_row (r : session_row) : bool := bool_decide (revoked_at r = None).
Definition set_revoked (r : session_row) (now : Z) : session_row := {|
  principal_id := principal_id r; csrf_hash := csrf_hash r; created_at := created_at r; last_seen_at := last_seen_at r;
  absolute_expires_at := absolute_expires_at r; revoked_at := Some now; authenticated_at := authenticated_at r |}.
Definition set_seen (r : session_row) (now : Z) : session_row := {|
  principal_id := principal_id r; csrf_hash := csrf_hash r; created_at := created_at r; last_seen_at := now;
  absolute_expires_at := absolute_expires_at r; revoked_at := revoked_at r; authenticated_at := authenticated_at r |}.
Definition set_authenticated (r : session_row) (now : Z) : session_row := {|
  principal_id := principal_id r; csrf_hash := csrf_hash r; created_at := created_at r; last_seen_at := now;
  absolute_expires_at := absolute_expires_at r; revoked_at := revoked_at r; authenticated_at := Some now |}.
Definition new_row (principal csrf : string) (now expires : Z) : session_row := {|
  principal_id := principal; csrf_hash := _hash csrf; created_at := now; last_seen_at := now;
  absolute_expires_at := expires; revoked_at := None; authenticated_at := Some now |}.

Record created := {
  n_session_id : string;
  n_principal : string;
  n_csrf_token : string;
  n_created_at : Z;
  n_expires_at : Z;
  n_idle_ttl : Z;
}.
Record current := { r_principal : string; r_created_at : Z; r_expires_at : Z; r_idle_ttl : Z }.
Record attestation := {
  t_fresh : bool;
  t_reason : string;
  t_authenticated : option (Z * Z);       (* when, and how long ago *)
  t_freshness : Z;
}.
(** What both repositories compute from a row. *)
Definition attested (authenticated now freshness : Z) : attestation :=
  let age := now - authenticated in
  let fresh := (age <=? freshness) && (0 <=? age) in
  {| t_fresh := fresh; t_reason := if fresh then "fresh" else "authentication_stale";
     t_authenticated := Some (authenticated, age); t_freshness := freshness |}.
Definition absent (freshness : Z) : attestation :=
  {| t_fresh := false; t_reason := "session_absent"; t_authenticated := None; t_freshness := freshness |}.
Definition view (ttl : terms) (r : session_row) : current := {|
  r_principal := principal_id r; r_created_at := created_at r; r_expires_at := absolute_expires_at r;
  r_idle_ttl := idle_ttl_seconds ttl |}.
Definition is_expired (ttl : terms) (r : session_row) (now : Z) : bool :=
  (absolute_expires_at r <? now) || (idle_ttl_seconds ttl <? now - last_seen_at r).
Definition given (session_id : option string) : option string :=
  match session_id with Some s => if truthy s then Some s else None | None => None end.

(** The row of a live session. *)
Definition live (s : store) (session_id : string) : option session_row :=
  match web_sessions s !! _hash session_id with
  | Some r => if live_row r then Some r else None
  | None => None
  end.
Definition put (s : store) (session_id : string) (r : session_row) : store :=
  with_sessions s (<[_hash session_id := r]> (web_sessions s)).

(** The interface both implement. *)
Class SessionStore := {
  create : terms -> string -> string -> Z -> option string -> string -> string -> sm created;
  resolve : terms -> option string -> Z -> bool -> sm (option current);
  csrf_matches : option string -> option string -> sm bool;
  revoke : option string -> Z -> sm bool;
  attest_authentication : string -> Z -> sm bool;
  authentication_attestation : string -> Z -> Z -> sm attestation;
  count_active : terms -> Z -> sm Z;
}.

Definition reveal (principal sid csrf : string) (now : Z) (ttl : terms) : created := {|
  n_session_id := sid; n_principal := principal; n_csrf_token := csrf; n_created_at := now;
  n_expires_at := now + absolute_ttl_seconds ttl; n_idle_ttl := idle_ttl_seconds ttl |}.
Definition active (ttl : terms) (now : Z) (r : session_row) : bool :=
  live_row r && (now <=? absolute_expires_at r) && (now - idle_ttl_seconds ttl <=? last_seen_at r).
Definition csrf_of (session_id csrf : option string) (s : store) : bool :=
  match given session_id, given csrf with
  | Some sid, Some token => match live s sid with Some r => String.eqb (csrf_hash r) (_hash token) | None => false end
  | _, _ => false
  end.

Module Sqlite.
Section methods.
Local Open Scope stm_scope.

Definition consume_proof (proof : string) (now : Z) : sm unit := fun s =>
  match consumed_identity_proofs s !! _hash proof with
  | Some _ => (s, Err ProofConsumed)
  | None => (with_proofs s (<[_hash proof := now]> (consumed_identity_proofs s)), Ok tt)
  end.
Definition revoke_live (session_id : string) (now : Z) : sm bool := fun s =>
  match live s session_id with
  | Some r => (put s session_id (set_revoked r now), Ok true)
  | None => (s, Ok false)
  end.
Definition insert_session (session_id : string) (r : session_row) : sm unit := fun s =>
  match web_sessions s !! _hash session_id with
  | Some _ => (s, Err ProofConsumed)
  | None => (put s session_id r, Ok tt)
  end.
(** [session_id] and [csrf_token] are the two [secrets.token_urlsafe(32)]. *)
Definition create (ttl : terms) (principal proof : string) (now : Z) (previous : option string)
    (session_id csrf_token : string) : sm created := transaction (
  consume_proof proof now ;;;
  match given previous with Some p => revoke_live p now ;;; stm_ret tt | None => stm_ret tt end ;;;
  insert_session session_id (new_row principal csrf_token now (now + absolute_ttl_seconds ttl)) ;;;
  stm_ret (reveal principal session_id csrf_token now ttl)).
Definition resolve (ttl : terms) (session_id : option string) (now : Z) (touch : bool) : sm (option current) := fun s =>
  match given session_id with
  | None => (s, Ok None)
  | Some sid =>
      match live s sid with
      | None => (s, Ok None)
      | Some r =>
          if is_expired ttl r now then (put s sid (set_revoked r now), Ok None) else
          (if touch && negb (Z.eqb now (last_seen_at r)) then put s sid (set_seen r now) else s, Ok (Some (view ttl r)))
      end
  end.
Definition csrf_matches (session_id csrf_token : option string) : sm bool := fun s =>
  (s, Ok (csrf_of session_id csrf_token s)).
Definition revoke (session_id : option string) (now : Z) : sm bool :=
  match given session_id with Some sid => revoke_live sid now | None => stm_ret false end.
Definition attest_authentication (session_id : string) (now : Z) : sm bool := fun s =>
  match live s session_id with
  | Some r => (put s session_id (set_authenticated r now), Ok true)
  | None => (s, Ok false)
  end.
(** [int(row["authenticated_at"] or row["created_at"])]. *)
Definition authenticated_or_created (r : session_row) : Z :=
  match authenticated_at r with Some a => if Z.eqb a 0 then created_at r else a | None => created_at r end.
Definition authentication_attestation (session_id : string) (now freshness : Z) : sm attestation := fun s =>
  (s, Ok (match live s session_id with
          | Some r => attested (authenticated_or_created r) now freshness
          | None => absent freshness
          end)).
Definition count_active (ttl : terms) (now : Z) : sm Z := fun s =>
  (s, Ok (Z.of_nat (length (List.filter (fun x => active ttl now x.2) (map_to_list (web_sessions s)))))).
End methods.
Definition repository : SessionStore := {|
  Sessions.create := create; Sessions.resolve := resolve; Sessions.csrf_matches := csrf_matches;
  Sessions.revoke := revoke; Sessions.attest_authentication := attest_authentication;
  Sessions.authentication_attestation := authentication_attestation; Sessions.count_active := count_active |}.
End Sqlite.

Module Postgres.
Section methods.
Local Open Scope stm_scope.
(** The rows of [identity.principals]. *)
Variable known : string -> bool.

(** The checks of the table; [authenticated_at] is not null. *)
Definition row_checks (r : session_row) : bool :=
  (created_at r <=? last_seen_at r)
  && match authenticated_at r with Some a => created_at r <=? a | None => false end
  && (created_at r <? absolute_expires_at r)
  && match revoked_at r with Some t => created_at r <=? t | None => true end.
Definition write (session_id : string) (r : session_row) : sm unit := fun s =>
  if row_checks r then (put s session_id r, Ok tt) else (s, Err CheckViolation).
Definition consume_proof (proof : string) (now : Z) : sm unit := fun s =>
  match consumed_identity_proofs s !! _hash proof with
  | Some _ => (s, Err ProofConsumed)
  | None => (with_proofs s (<[_hash proof := now]> (consumed_identity_proofs s)), Ok tt)
  end.
(** [update ... returning session_hash]. *)
Definition update_live (session_id : string) (f : session_row -> session_row) : sm bool :=
  s <~ stm_get ;;
  match live s session_id with
  | Some r => write session_id (f r) ;;; stm_ret true
  | None => stm_ret false
  end.
(** The checks are tested before the keys are, and the foreign key at the end
    of the statement. *)
Definition insert_session (session_id : string) (r : session_row) : sm unit := fun s =>
  if negb (row_checks r) then (s, Err CheckViolation) else
  match web_sessions s !! _hash session_id with
  | Some _ => (s, Err ProofConsumed)
  | None => if known (principal_id r) then (put s session_id r, Ok tt) else (s, Err ForeignKeyViolation)
  end.
Definition create (ttl : terms) (principal proof : string) (now : Z) (previous : option string)
    (session_id csrf_token : string) : sm created := transaction (
  consume_proof proof now ;;;
  match given previous with
  | Some p => update_live p (fun r => set_revoked r now) ;;; stm_ret tt
  | None => stm_ret tt
  end ;;;
  insert_session session_id (new_row principal csrf_token now (now + absolute_ttl_seconds ttl)) ;;;
  stm_ret (reveal principal session_id csrf_token now ttl)).
Definition resolve (ttl : terms) (session_id : option string) (now : Z) (touch : bool) : sm (option current) := transaction (
  match given session_id with
  | None => stm_ret None
  | Some sid =>
      s <~ stm_get ;;
      match live s sid with
      | None => stm_ret None
      | Some r =>
          if is_expired ttl r now then write sid (set_revoked r now) ;;; stm_ret None else
          (if touch && negb (Z.eqb now (last_seen_at r)) then write sid (set_seen r now) else stm_ret tt) ;;;
          stm_ret (Some (view ttl r))
      end
  end).
Definition csrf_matches (session_id csrf_token : option string) : sm bool := fun s =>
  (s, Ok (csrf_of session_id csrf_token s)).
Definition revoke (session_id : option string) (now : Z) : sm bool :=
  match given session_id with
  | Some sid => transaction (update_live sid (fun r => set_revoked r now))
  | None => stm_ret false
  end.
Definition attest_authentication (session_id : string) (now : Z) : sm bool :=
  transaction (update_live session_id (fun r => set_authenticated r now)).
Definition authentication_attestation (session_id : string) (now freshness : Z) : sm attestation := fun s =>
  (s, Ok (match live s session_id with
          | Some r => attested (default 0 (authenticated_at r)) now freshness
          | None => absent freshness
          end)).
Definition count_active (ttl : terms) (now : Z) : sm Z := fun s =>
  (s, Ok (Z.of_nat (length (List.filter (fun x => active ttl now x.2) (map_to_list (web_sessions s)))))).
End methods.
Definition repository (known : string -> bool) : SessionStore := {|
  Sessions.create := create known; Sessions.resolve := resolve; Sessions.csrf_matches := csrf_matches;
  Sessions.revoke := revoke; Sessions.attest_authentication := attest_authentication;
  Sessions.authentication_attestation := authentication_attestation; Sessions.count_active := count_active |}.
End Postgres.

(** ** The HTTP handler *)

Section handler.
Context {E : Ed25519} {R : SessionStore}.
Local Open Scope stm_scope.

Definition _proof_fingerprint (assertion : list (string * pyval)) : string := sha256 (json_text (VDict assertion)).
(** Status, and what a created or a current session shows. *)
Record http := { h_status : Z; h_created : option created; h_current : option current }.
Definition status_only (n : Z) : http := {| h_status := n; h_created := None; h_current := None |}.

(** [body] is the parsed body and [cookie] the value [SimpleCookie] finds;
    [now1] and [now2] are two readings of the clock. *)
Definition do_POST (ttl : terms) (body : pyval) (cookie : option string) (now1 now2 : Q) (session_id csrf_token : string)
    : sm http := fun s =>
  match PyValue.get (as_mapping body) "assertion" with
  | VDict assertion =>
      let principal := PyValue.get assertion "principal_id" in
      match verify_session_assertion assertion principal now1, principal with
      | Err AttributeError, _ => (s, Err (Handler AttributeError))
      | Err _, _ => (s, Ok (status_only 401))
      | Ok _, VStr p =>
          match create ttl p (_proof_fingerprint assertion) (trunc now2) cookie session_id csrf_token s with
          | (s', Ok c) => (s', Ok {| h_status := 201; h_created := Some c; h_current := None |})
          | (s', Err ProofConsumed) => (s', Ok (status_only 401))
          | (s', Err e) => (s', Err e)
          end
      | Ok _, _ => (s, Err (Handler AttributeError))   (* no key was loaded from it *)
      end
  | _ => (s, Ok (status_only 400))
  end.
Definition do_GET (ttl : terms) (cookie : option string) (now : Q) : sm http :=
  c <~ resolve ttl cookie (trunc now) true ;;
  stm_ret (match c with
           | Some c => {| h_status := 200; h_created := None; h_current := Some c |}
           | None => status_only 401
           end).
Definition do_DELETE (ttl : terms) (cookie csrf : option string) (now1 now2 : Q) : sm http :=
  c <~ resolve ttl cookie (trunc now1) true ;;
  match c with
  | None => stm_ret (status_only 401)
  | Some _ =>
      ok <~ csrf_matches cookie csrf ;;
      if ok : bool then revoke cookie (trunc now2) ;;; stm_ret (status_only 204) else stm_ret (status_only 403)
  end.
End handler.

(** ** Histories *)

(** The handler's requests, and the methods other services call. *)
Inductive call : Type :=
| Post (body : pyval) (cookie : option string) (now1 now2 : Q) (session_id csrf_token : string)
| Get (cookie : option string) (now : Q)
| Delete (cookie csrf : option string) (now1 now2 : Q)
| Resolve (session_id : option string) (now : Q) (touch : bool)
| Csrf (session_id csrf : option string)
| Attest (session_id : string) (now : Q)
| Attestation (session_id : string) (now : Q) (freshness : Z)
| Count (now : Q).
Inductive reply : Type :=
| Http (r : result session_error http)
| Current (r : result session_error (option current))
| Truth (r : result session_error bool)
| Fresh (r : result session_error attestation)
| Number (r : result session_error Z).

Section history.
Context {E : Ed25519} (R : SessionStore) (ttl : terms).

Definition through {A} (m : sm A) (f : result session_error A -> reply) (s : store) : store * reply :=
  let (s', r) := m s in (s', f r).
Definition exec (c : call) : store -> store * reply :=
  match c with
  | Post body cookie now1 now2 sid csrf => through (do_POST ttl body cookie now1 now2 sid csrf) Http
  | Get cookie now => through (do_GET ttl cookie now) Http
  | Delete cookie csrf now1 now2 => through (do_DELETE ttl cookie csrf now1 now2) Http
  | Resolve sid now touch => through (resolve ttl sid (trunc now) touch) Current
  | Csrf sid csrf => through (csrf_matches sid csrf) Truth
  | Attest sid now => through (attest_authentication sid (trunc now)) Truth
  | Attestation sid now freshness => through (authentication_attestation sid (trunc now) freshness) Fresh
  | Count now => through (count_active ttl (trunc now)) Number
  end.
(** The store after the calls, and each with its reply. *)
Fixpoint serve (cs : list call) (s : store) : store * list (call * reply) :=
  match cs with
  | [] => (s, [])
  | c :: cs' => let (s1, r) := exec c s in let (s2, l) := serve cs' s1 in (s2, (c, r) :: l)
  end.
End history.
