(* ===== verification/Vault.v ===== *)
(** * The vault

    src/vault/app.py ([VaultService]), src/vault/repository.py
    ([VaultRepository] over the schema of migration 0003),
    src/vault/managed_oauth_crypto.py ([ManagedOAuthCrypto]) and
    src/services/action_broker/token_rotation.py ([ManagedOAuthRotator]).  Every
    method is a program ([prog]): its transactions on the tables are its steps,
    and the key service, the database clock, fresh identifiers and the audit
    service are what it asks.  NaCl's secret box is the interface [SecretBox]. *)

From stdpp Require Import gmap pretty.
From S2P Require Import Prelude PyValue Json JsonRead Base64 Program.
Local Open Scope Z_scope.

Abbreviation dict := (list (string * pyval)).

(** ** The tables *)

Record keyring := {
  encrypted_dek : string;
  salt : string;
  k_nonce : string;
  kdf : string;
  kdf_params : pyval;
  encrypted_private_key : string;
  k_created_at : Z;
  updated_at : Z;
}.
(** The column [encrypted_data].  [Document d] is the text [json.dumps(d)],
    which [json.loads] reads back as [d]; any other text is [Opaque]. *)
Inductive column := Document (d : dict) | Opaque (text : string).
Record credential := {
  user_principal_id : string;
  name : string;
  credential_type : string;
  encrypted_data : column;
  nonce : string;
  created_at : Z;
}.
Record grant := {
  grant_id : string;
  credential_id : string;
  agent_principal_id : string;
  scope : string;
  granted_by : string;
  granted_at : Z;
  revoked_at : option Z;
}.
(** [principals] are the rows of [identity.principals]. *)
Record vault := {
  principals : gset string;
  keyrings : gmap string keyring;
  credentials : gmap string credential;
  grants : list grant;
}.
Definition empty_vault : vault := {| principals := ∅; keyrings := ∅; credentials := ∅; grants := [] |}.

Inductive vault_error : Type :=
| Python (e : pyexn)
| AttributeError
| PermissionError (why : string)
| ManagedOAuthError
| ManagedOAuthAccessDenied
| ManagedOAuthAuthError
| KMSFailure                          (* a [KMSError] nothing catches *)
| IntegrityError                      (* a key, a foreign key, a value no column takes *)
| ProviderError.
Definition vm (A : Type) : Type := stm vault vault_error A.

Definition with_principals (v : vault) (p : gset string) : vault :=
  {| principals := p; keyrings := keyrings v; credentials := credentials v; grants := grants v |}.
Definition with_keyrings (v : vault) (m : gmap string keyring) : vault :=
  {| principals := principals v; keyrings := m; credentials := credentials v; grants := grants v |}.
Definition with_credentials (v : vault) (m : gmap string credential) : vault :=
  {| principals := principals v; keyrings := keyrings v; credentials := m; grants := grants v |}.
Definition with_grants (v : vault) (l : list grant) : vault :=
  {| principals := principals v; keyrings := keyrings v; credentials := credentials v; grants := l |}.
Definition set_data (c : credential) (d : dict) : credential := {|
  user_principal_id := user_principal_id c; name := name c; credential_type := credential_type c;
  encrypted_data := Document d; nonce := nonce c; created_at := created_at c |}.
Definition set_revoked (g : grant) (now : Z) : grant := {|
  grant_id := grant_id g; credential_id := credential_id g; agent_principal_id := agent_principal_id g;
  scope := scope g; granted_by := granted_by g; granted_at := granted_at g; revoked_at := Some now |}.

(** ** What is asked *)

Inductive kms_error := KMSAccessDenied | KMSError.
Record GeneratedDataKey := { plaintext : string; ciphertext_blob : string; key_id : string; key_version : string }.
(** What a provider answers to a refresh. *)
Record authority := {
  access_token : string;
  refresh_token : option string;
  expires_in : Z;
  token_type : string;
  provider_metadata : dict;
  granted_scopes : list string;
}.
Inductive question : Type -> Type :=
| Now : question Z                                        (* the database's [now()] *)
| Clock : question Z                                      (* [int(clock())] *)
| Fresh : question string                                 (* a uuid4 or a ulid *)
| Nonce : question string
| GenerateDataKey (key_id : string) (context : pyval) (caller : string) : question (result kms_error GeneratedDataKey)
| DecryptDataKey (blob : string) (key_id context : pyval) (caller : string) : question (result kms_error string)
| ReEncrypt (blob : string) (source : pyval) (destination : string) (context : pyval) (caller : string)
    : question (result kms_error GeneratedDataKey)
| Audit (principal activity : string) (resource : option string) (status : string) (details : dict) : question unit
| AuditQuery (principal : string) : question (option pyval)          (* [None]: it raised *)
| Refresh (refresh_token : string) : question (result unit authority).    (* [Err]: a [ProviderError] *)
Definition vprog (A : Type) : Type := prog vault vault_error question A.

Class SecretBox := {
  box_encrypt : string -> string -> string -> string;         (* key, nonce, plaintext *)
  box_decrypt : string -> string -> string -> option string;  (* key, ciphertext, nonce *)
}.
Class SecretBoxLaws (B : SecretBox) := {
  box_round_trip k n m : box_decrypt k (box_encrypt k n m) n = Some m;
  box_nonempty k n m : box_encrypt k n m <> "";               (* the authenticator alone has 16 bytes *)
}.

Section program.
Local Open Scope prog_scope.
Definition ensure (b : bool) (e : vault_error) : vprog unit := if b then give tt else raise e.
Definition python {A} (r : result pyexn A) : vprog A := match r with Ok a => give a | Err e => raise (Python e) end.
Definition item (d : dict) (k : string) : vprog pyval :=
  match dget d k with Some v => give v | None => raise (Python KeyError) end.
End program.

(** ** Sealing *)

Record ManagedOAuthCrypto := {
  crypto_key_id : string;
  ingestion_identities : list string;
  broker_identity : string;
}.
Definition VERSION : Z := 1.

Definition encode_field (s : string) : pyval := VStr (b64encode s).
(** [value.encode("ascii")], then [b64decode(..., validate=True)]. *)
Definition decode_field (v : pyval) : result vault_error string :=
  match v with
  | VStr s => match (if ascii_text s then b64decode_strict s else None) with
              | Some t => Ok t
              | None => Err (Python ValueError)
              end
  | _ => Err AttributeError
  end.
Definition ENVELOPE_FIELDS : list string :=
  ["encryption_context"; "ciphertext"; "nonce"; "wrapped_data_key"; "kms_key_id"; "kms_key_version"].
(** A field that is no text has no [encode], which nothing here catches. *)
Definition check_field (v : pyval) : result vault_error unit :=
  match decode_field v with
  | Ok _ => Ok tt
  | Err AttributeError => Err AttributeError
  | Err _ => Err ManagedOAuthAuthError
  end.
Definition validate_managed_oauth_envelope (v : pyval) : result vault_error unit :=
  match v with
  | VDict e =>
      guard_or ManagedOAuthAuthError (py_eqb (get e "version") (VInt VERSION)) ≫= fun _ =>
      guard_or ManagedOAuthAuthError (forallb (fun f => truthy (get e f)) ENVELOPE_FIELDS) ≫= fun _ =>
      guard_or ManagedOAuthAuthError (match get e "encryption_context" with VDict _ => true | _ => false end) ≫= fun _ =>
      check_field (get e "ciphertext") ≫= fun _ =>
      check_field (get e "nonce") ≫= fun _ =>
      check_field (get e "wrapped_data_key")
  | _ => Err ManagedOAuthAuthError
  end.

Section crypto.
Context {B : SecretBox} (self : ManagedOAuthCrypto).
Local Open Scope prog_scope.

Definition sealed (context : pyval) (ciphertext nonce : string) (k : GeneratedDataKey) : dict := [
  ("version", VInt VERSION); ("algorithm", VStr "XSalsa20-Poly1305"); ("encryption_context", context);
  ("ciphertext", encode_field ciphertext); ("nonce", encode_field nonce);
  ("wrapped_data_key", encode_field (ciphertext_blob k)); ("kms_key_id", VStr (key_id k));
  ("kms_key_version", VStr (key_version k))].
Definition _seal (text : string) (context : pyval) (caller : string) : vprog dict :=
  k <- ask (GenerateDataKey (crypto_key_id self) context caller) ;;
  match k with
  | Err KMSAccessDenied => raise ManagedOAuthAccessDenied
  | Err KMSError => raise ManagedOAuthError
  | Ok k =>
      ensure (truthy (plaintext k)) ManagedOAuthAuthError ;;
      n <- ask Nonce ;;
      give (sealed context (box_encrypt (plaintext k) n text) n k)
  end.
Definition seal (text : string) (context : pyval) (caller : string) : vprog dict :=
  ensure (str_in caller (ingestion_identities self)) ManagedOAuthAccessDenied ;;
  _seal text context caller.
Definition seal_rotation_document (document : dict) (context : pyval) (caller : string) : vprog dict :=
  ensure (String.eqb caller (broker_identity self)) ManagedOAuthAccessDenied ;;
  _seal (json_text (VDict document)) context caller.
Definition open_envelope (envelope : pyval) (context : pyval) (caller : string) : vprog string :=
  ensure (String.eqb caller (broker_identity self)) ManagedOAuthAccessDenied ;;
  of_result (validate_managed_oauth_envelope envelope) ;;
  let e := as_mapping envelope in
  ensure (py_eqb context (get e "encryption_context")) ManagedOAuthAuthError ;;
  wrapped <- of_result (decode_field (get e "wrapped_data_key")) ;;
  k <- ask (DecryptDataKey wrapped (get e "kms_key_id") context caller) ;;
  match k with
  | Err KMSAccessDenied => raise ManagedOAuthAccessDenied
  | Err KMSError => raise KMSFailure
  | Ok k =>
      match decode_field (get e "ciphertext"), decode_field (get e "nonce") with
      | Ok c, Ok n => match box_decrypt k c n with Some t => give t | None => raise ManagedOAuthAuthError end
      | _, _ => raise ManagedOAuthAuthError
      end
  end.
(** [updated = dict(envelope)], then three keys replaced where they are. *)
Definition rewrap_field (k : GeneratedDataKey) (f : string * pyval) : string * pyval :=
  (f.1, if String.eqb f.1 "wrapped_data_key" then encode_field (ciphertext_blob k)
        else if String.eqb f.1 "kms_key_id" then VStr (key_id k)
        else if String.eqb f.1 "kms_key_version" then VStr (key_version k) else f.2).
Definition rewrap (envelope : pyval) (destination : string) (context : pyval) (caller : string) : vprog dict :=
  ensure (String.eqb caller (broker_identity self)) ManagedOAuthAccessDenied ;;
  of_result (validate_managed_oauth_envelope envelope) ;;
  let e := as_mapping envelope in
  ensure (py_eqb context (get e "encryption_context")) ManagedOAuthAuthError ;;
  wrapped <- of_result (decode_field (get e "wrapped_data_key")) ;;
  k <- ask (ReEncrypt wrapped (get e "kms_key_id") destination context caller) ;;
  match k with
  | Err KMSAccessDenied => raise ManagedOAuthAccessDenied
  | Err KMSError => raise KMSFailure
  | Ok k => give (map (rewrap_field k) e)
  end.
End crypto.

(** ** The repository *)

Module Repository.
Section methods.
Local Open Scope prog_scope.

Definition text_column (v : pyval) : vprog string := match v with VStr s => give s | _ => raise IntegrityError end.
(** Another process may register the principal in between. *)
Definition _ensure_principal (p : string) : vprog unit :=
  known <- atom (fun v => (v, Ok (bool_decide (p ∈ principals v)))) ;;
  if known : bool then give tt else atom (fun v => (with_principals v ({[p]} ∪ principals v), Ok tt)).

(** A keyring as a body gives it; [created_at] is kept on an update. *)
Definition new_keyring (dek salt_ nonce_ kdf_ : string) (params : pyval) (private : string) (created now : Z) : keyring := {|
  encrypted_dek := dek; salt := salt_; k_nonce := nonce_; kdf := kdf_; kdf_params := params;
  encrypted_private_key := private; k_created_at := created; updated_at := now |}.
Definition store_keyring (p : string) (body : dict) : vprog keyring :=
  _ensure_principal p ;;
  now <- ask Now ;;
  dek <- text_column (get body "encrypted_dek") ;;
  s <- text_column (get body "salt") ;;
  n <- text_column (get body "nonce") ;;
  f <- text_column (get body "kdf") ;;
  k <- text_column (get body "encrypted_private_key") ;;
  atom (fun v =>
    if bool_decide (p ∈ principals v) then
      let created := match keyrings v !! p with Some r => k_created_at r | None => now end in
      let r := new_keyring dek s n f (get body "kdf_params") k created now in
      (with_keyrings v (<[p := r]> (keyrings v)), Ok r)
    else (v, Err IntegrityError)).
Definition get_keyring (p : string) : vprog (option keyring) := atom (fun v => (v, Ok (keyrings v !! p))).
(** Without [encrypted_private_key] the column keeps what it has. *)
Definition rotate_keyring (p : string) (body : dict) : vprog (option keyring) :=
  now <- ask Now ;;
  dek <- text_column (get body "encrypted_dek") ;;
  s <- text_column (get body "salt") ;;
  n <- text_column (get body "nonce") ;;
  f <- text_column (get body "kdf") ;;
  k <- match dget body "encrypted_private_key" with
       | Some x => t <- text_column x ;; give (Some t)
       | None => give None
       end ;;
  atom (fun v =>
    match keyrings v !! p with
    | None => (v, Ok None)
    | Some r =>
        let r' := new_keyring dek s n f (get body "kdf_params") (default (encrypted_private_key r) k) (k_created_at r) now in
        (with_keyrings v (<[p := r']> (keyrings v)), Ok (Some r'))
    end).

Definition insert_credential (id : string) (c : credential) : vm unit := fun v =>
  match credentials v !! id with
  | Some _ => (v, Err IntegrityError)
  | None => if bool_decide (user_principal_id c ∈ principals v)
            then (with_credentials v (<[id := c]> (credentials v)), Ok tt) else (v, Err IntegrityError)
  end.
Definition store_credential (p name_ type : string) (data : column) (nonce_ : string) : vprog (string * credential) :=
  _ensure_principal p ;;
  id <- ask Fresh ;;
  now <- ask Now ;;
  let c := {| user_principal_id := p; name := name_; credential_type := type; encrypted_data := data;
              nonce := nonce_; created_at := now |} in
  atom (insert_credential id c) ;;
  give (id, c).
Definition get_credential (id : string) : vprog (option credential) := atom (fun v => (v, Ok (credentials v !! id))).

Definition MANAGED := "managed_oauth".
Definition _managed_oauth_payload (provider scopes status envelope version : pyval) : result pyexn dict :=
  scopes ← py_sorted_set scopes;
  version ← py_int version;
  Ok [("custody_mode", VStr MANAGED); ("provider", provider); ("granted_scopes", VList scopes); ("status", status);
      ("credential_version", VInt version); ("envelope", envelope)].
Definition store_managed_oauth_credential (p provider : string) (scopes : pyval) (envelope : dict) : vprog (string * credential) :=
  payload <- python (_managed_oauth_payload (VStr provider) scopes (VStr "active") (VDict envelope) (VInt 1)) ;;
  store_credential p provider MANAGED (Document payload) "managed_oauth:v1".
(** [json.loads] of the column; [VNone] when it raises. *)
Definition read_column (c : column) : pyval :=
  match c with
  | Document d => VDict d
  | Opaque t => match loads t with Ok v => v | Err _ => VNone end
  end.
Definition row_dict (id : string) (c : credential) : dict := [
  ("credential_id", VStr id); ("user_principal_id", VStr (user_principal_id c)); ("name", VStr (name c));
  ("credential_type", VStr (credential_type c)); ("nonce", VStr (nonce c)); ("created_at", VInt (created_at c))].
(** The row with the payload over it: a key of the payload hides the column. *)
Definition managed (id : string) (c : credential) : option dict :=
  if negb (String.eqb (credential_type c) MANAGED) then None else
  match read_column (encrypted_data c) with
  | VDict payload =>
      if val_is (get payload "custody_mode") MANAGED && match get payload "envelope" with VDict _ => true | _ => false end
      then Some (payload ++ row_dict id c) else None
  | _ => None
  end.
Definition managed_in (v : vault) (id : string) : option dict := credentials v !! id ≫= managed id.
Definition get_managed_oauth_credential (id : string) : vprog (option dict) := atom (fun v => (v, Ok (managed_in v id))).
(** [update ... where credential_id = and credential_type = 'managed_oauth'],
    perhaps with the owner. *)
Definition write_payload (id : string) (owner : option string) (payload : dict) : vm bool := fun v =>
  match credentials v !! id with
  | Some c =>
      if String.eqb (credential_type c) MANAGED
         && match owner with Some p => String.eqb (user_principal_id c) p | None => true end
      then (with_credentials v (<[id := set_data c payload]> (credentials v)), Ok true) else (v, Ok false)
  | None => (v, Ok false)
  end.
(** The row is read, and written in another transaction. *)
Definition mark_managed_oauth_pending_revocation (id p : string) : vprog (option dict) :=
  current <- get_managed_oauth_credential id ;;
  match current with
  | None => give None
  | Some r =>
      if negb (val_is (get r "user_principal_id") p) then give None else
      provider <- item r "provider" ;;
      payload <- python (_managed_oauth_payload provider (get_or r "granted_scopes" (VList []))
                           (VStr "pending_revocation") (get r "envelope") (get_or r "credential_version" (VInt 1))) ;;
      done <- atom (write_payload id (Some p) payload) ;;
      give (if done : bool then Some payload else None)
  end.
Definition delete_managed_oauth_credential (id p : string) : vprog bool := atom (fun v =>
  match credentials v !! id with
  | Some c => if String.eqb (user_principal_id c) p && String.eqb (credential_type c) MANAGED
              then (with_grants (with_credentials v (delete id (credentials v)))
                      (List.filter (fun g => negb (String.eqb (credential_id g) id)) (grants v)), Ok true)
              else (v, Ok false)
  | None => (v, Ok false)
  end).
Definition update_managed_oauth_envelope (id : string) (envelope : dict) : vprog (option dict) :=
  current <- get_managed_oauth_credential id ;;
  match current with
  | None => give None
  | Some r =>
      provider <- item r "provider" ;;
      payload <- python (_managed_oauth_payload provider (get_or r "granted_scopes" (VList []))
                           (get_or r "status" (VStr "active")) (VDict envelope) (get_or r "credential_version" (VInt 1))) ;;
      done <- atom (write_payload id None payload) ;;
      give (if done : bool then Some payload else None)
  end.
(** One transaction, the row locked. *)
Definition swap_payload (id : string) (expected : Z) (envelope : dict) (scopes : pyval) : vm (option dict) := fun v =>
  match credentials v !! id with
  | Some c =>
      if negb (String.eqb (credential_type c) MANAGED) then (v, Ok None) else
      match read_column (encrypted_data c) with
      | VNone => match encrypted_data c with Opaque t => match loads t with Ok _ => (v, Err AttributeError) | Err _ => (v, Ok None) end
                 | _ => (v, Err AttributeError) end
      | VDict current =>
          if negb (val_is (get current "status") "active") then (v, Ok None) else
          match py_int (get_or current "credential_version" (VInt 1)) with
          | Err e => (v, Err (Python e))
          | Ok version =>
              if negb (Z.eqb version expected) then (v, Ok None) else
              match dget current "provider" with
              | None => (v, Err (Python KeyError))
              | Some provider =>
                  match _managed_oauth_payload provider scopes (VStr "active") (VDict envelope) (VInt (expected + 1)) with
                  | Err e => (v, Err (Python e))
                  | Ok payload => (with_credentials v (<[id := set_data c payload]> (credentials v)), Ok (Some payload))
                  end
              end
          end
      | _ => (v, Err AttributeError)
      end
  | None => (v, Ok None)
  end.
Definition compare_and_swap_managed_oauth_envelope (id : string) (expected : Z) (envelope : dict) (scopes : pyval)
    : vprog (option dict) := atom (swap_payload id expected envelope scopes).
Definition get_owned_credential (id p : string) : vprog (option credential) := atom (fun v =>
  (v, Ok (match credentials v !! id with
          | Some c => if String.eqb (user_principal_id c) p then Some c else None
          | None => None
          end))).
Definition older (a b : string * credential) : Prop := created_at a.2 <= created_at b.2.
#[local] Instance older_dec : RelDecision older.
Proof. intros a b. unfold older. apply _. Defined.
Definition list_credentials (p : string) : vprog (list (string * credential)) := atom (fun v =>
  (v, Ok (merge_sort older (List.filter (fun x => String.eqb (user_principal_id x.2) p) (map_to_list (credentials v)))))).

Definition is_active (id agent : string) (g : grant) : bool :=
  String.eqb (credential_id g) id && String.eqb (agent_principal_id g) agent && bool_decide (revoked_at g = None).
Definition revoke_active (id agent : string) (now : Z) (l : list grant) : list grant :=
  map (fun g => if is_active id agent g then set_revoked g now else g) l.
(** The grants before are revoked and the new one is inserted, in one
    transaction. *)
Definition replace_grant (g : grant) : vm unit := fun v =>
  if bool_decide (agent_principal_id g ∈ principals v) && bool_decide (granted_by g ∈ principals v)
     && bool_decide (is_Some (credentials v !! credential_id g))
     && negb (existsb (fun x => String.eqb (grant_id x) (grant_id g)) (grants v))
  then (with_grants v (revoke_active (credential_id g) (agent_principal_id g) (granted_at g) (grants v) ++ [g]), Ok tt)
  else (v, Err IntegrityError).
Definition add_grant (id agent scope_ by_ : string) : vprog grant :=
  _ensure_principal agent ;;
  _ensure_principal by_ ;;
  gid <- ask Fresh ;;
  now <- ask Now ;;
  let g := {| grant_id := gid; credential_id := id; agent_principal_id := agent; scope := scope_; granted_by := by_;
              granted_at := now; revoked_at := None |} in
  atom (replace_grant g) ;;
  give g.
Definition get_active_grant (id agent : string) : vprog (option grant) := atom (fun v =>
  (v, Ok (List.find (is_active id agent) (grants v)))).
Definition revoke_grant (id agent : string) : vprog (option grant) :=
  now <- ask Now ;;
  atom (fun v => (with_grants v (revoke_active id agent now (grants v)),
                  Ok (option_map (fun g => set_revoked g now) (List.find (is_active id agent) (grants v))))).
End methods.
End Repository.

(** ** The service *)

Module Service.
Section methods.
Context {B : SecretBox} (crypto : option ManagedOAuthCrypto).
Local Open Scope prog_scope.
Import Repository.

Definition response : Type := Z * dict.
Definition error (status : Z) (why : string) : vprog response := give (status, [("error", VStr why)]).
(** A check that answers when it fails. *)
Definition require {A} (b : bool) (no : vprog A) (yes : vprog A) : vprog A := if b then yes else no.
Definition log (principal activity : string) (resource : option string) (status : string) (details : dict) : vprog unit :=
  ask (Audit principal activity resource status details).
(** The signer may only act as themselves; nobody is checked while signatures
    are not required. *)
Definition signs_as (signer : option string) (p : string) : bool :=
  match signer with Some s => String.eqb s p | None => true end.
Definition given_text (v : pyval) : option string :=
  match v with VStr s => if truthy s then Some s else None | _ => None end.

Definition _KEYRING_FIELDS : list string := ["encrypted_dek"; "salt"; "nonce"; "kdf"; "kdf_params"; "encrypted_private_key"].
Definition _ROTATION_FIELDS : list string := ["encrypted_dek"; "salt"; "nonce"; "kdf"; "kdf_params"].
Definition _CREDENTIAL_FIELDS : list string := ["name"; "credential_type"; "encrypted_data"; "nonce"; "user_principal_id"].
Definition has_all (body : dict) (fields : list string) : bool :=
  forallb (fun f => match dget body f with Some _ => true | None => false end) fields.
Definition SUPPORTED_KDFS : list string := ["pbkdf2-sha256"].
Definition validate_kdf (kdf_ params : pyval) : bool :=
  val_in kdf_ SUPPORTED_KDFS
  && match params with
     | VDict d => match get d "iterations" with
                  | VInt n => 1 <=? n
                  | VBool b => b
                  | _ => false
                  end
     | _ => false
     end.

Definition store_keyring (body : dict) (signer : option string) : vprog response :=
  match given_text (get body "user_principal_id") with
  | None => error 422 "missing or invalid 'user_principal_id'"
  | Some p =>
      require (signs_as signer p) (error 403 "signer does not match keyring owner") (
      require (has_all body _KEYRING_FIELDS) (error 422 "missing field") (
      require (validate_kdf (get body "kdf") (get body "kdf_params")) (error 422 "unsupported kdf") (
      r <- Repository.store_keyring p body ;;
      give (200, [("user_principal_id", VStr p); ("created_at", VInt (k_created_at r))]))))
  end.
Definition keyring_dict (p : string) (r : keyring) : dict := [
  ("user_principal_id", VStr p); ("encrypted_dek", VStr (encrypted_dek r)); ("salt", VStr (salt r));
  ("nonce", VStr (k_nonce r)); ("kdf", VStr (kdf r)); ("kdf_params", kdf_params r);
  ("encrypted_private_key", VStr (encrypted_private_key r)); ("created_at", VInt (k_created_at r));
  ("updated_at", VInt (updated_at r))].
Definition get_keyring (p : string) : vprog response :=
  r <- Repository.get_keyring p ;;
  match r with Some r => give (200, keyring_dict p r) | None => error 404 "keyring not found" end.
Definition rotate_keyring (p : string) (body : dict) (signer : option string) : vprog response :=
  require (signs_as signer p) (error 403 "signer does not match keyring owner") (
  require (has_all body _ROTATION_FIELDS) (error 422 "missing field") (
  match get body "rotation_reason" with
  | VStr why =>
      require (truthy (PyValue.strip why)) (error 422 "missing or invalid 'rotation_reason'") (
      require (validate_kdf (get body "kdf") (get body "kdf_params")) (error 422 "unsupported kdf") (
      r <- Repository.rotate_keyring p body ;;
      match r with
      | None => error 404 "keyring not found"
      | Some r =>
          log p "keyring.rotate" None "ok" [("reason", VStr (PyValue.strip why))] ;;
          give (200, [("user_principal_id", VStr p); ("updated_at", VInt (updated_at r))])
      end))
  | _ => error 422 "missing or invalid 'rotation_reason'"
  end)).

Definition store_credential (body : dict) (signer : option string) : vprog response :=
  match given_text (get body "user_principal_id"), given_text (get body "name"), given_text (get body "credential_type"),
        given_text (get body "encrypted_data"), given_text (get body "nonce") with
  | Some p, Some n, Some t, Some d, Some k =>
      require (signs_as signer p) (error 403 "signer does not match credential owner") (
      r <- Repository.store_credential p n t (Opaque d) k ;;
      give (200, [("credential_id", VStr r.1); ("created_at", VInt (created_at r.2))]))
  | _, _, _, _, _ => error 422 "missing or invalid field"
  end.
Definition texts_list (v : pyval) : bool :=
  match v with VList l => forallb (fun x => match x with VStr _ => true | _ => false end) l | _ => false end.
Definition store_managed_oauth (body : dict) (signer : option string) : vprog response :=
  match given_text (get body "user_principal_id") with
  | None => error 422 "missing or invalid 'user_principal_id'"
  | Some p =>
      match signer with
      | None => error 401 "authenticated OAuth ingestion identity is required"
      | Some s =>
          require (String.eqb s p) (error 403 "signer does not match credential owner") (
          match given_text (get body "provider") with
          | None => error 422 "missing or invalid 'provider'"
          | Some provider =>
              let scopes := get body "granted_scopes" in
              require (texts_list scopes) (error 422 "invalid 'granted_scopes'") (
              match get body "envelope" with
              | VDict envelope =>
                  match validate_managed_oauth_envelope (VDict envelope) with
                  | Err ManagedOAuthAuthError => error 422 "invalid managed OAuth envelope"
                  | Err e => raise e
                  | Ok _ =>
                      r <- store_managed_oauth_credential p provider scopes envelope ;;
                      log p "credential.managed_oauth.store" (Some r.1) "ok" [("provider", VStr provider)] ;;
                      sorted <- python (py_sorted_set scopes) ;;
                      give (200, [("credential_id", VStr r.1); ("custody_mode", VStr MANAGED); ("provider", VStr provider);
                                  ("granted_scopes", VList sorted); ("created_at", VInt (created_at r.2))])
                  end
              | _ => error 422 "missing or invalid 'envelope'"
              end)
          end)
      end
  end.

(** [envelope["encryption_context"]]: the context the envelope itself names. *)
Definition open_record (c : ManagedOAuthCrypto) (r : dict) (service : string) : vprog string :=
  context <- item (as_mapping (get r "envelope")) "encryption_context" ;;
  open_envelope c (get r "envelope") context service.
Definition found (id : string) : vprog dict :=
  r <- get_managed_oauth_credential id ;;
  match r with Some r => give r | None => raise (Python KeyError) end.
Definition configured : vprog ManagedOAuthCrypto :=
  match crypto with Some c => give c | None => raise ManagedOAuthAccessDenied end.
(** [operation] is what the caller does with the token. *)
Definition use_managed_oauth {A} (id service : string) (operation : string -> vprog A) : vprog A :=
  c <- configured ;;
  r <- found id ;;
  ensure (val_is (get_or r "status" (VStr "active")) "active") (PermissionError "managed OAuth credential is blocked") ;;
  token <- open_record c r service ;;
  result <- operation token ;;
  provider <- item r "provider" ;;
  log service "credential.managed_oauth.use" (Some id) "ok" [("provider", provider)] ;;
  give result.
Definition read_rotation_document (id service : string) : vprog (Z * pyval * dict) :=
  c <- configured ;;
  r <- found id ;;
  text <- open_record c r service ;;
  match loads text with
  | Ok (VDict document) =>
      version <- python (py_int (get_or r "credential_version" (VInt 1))) ;;
      give (version, get_or r "status" (VStr "active"), document)
  | _ => raise ManagedOAuthAuthError
  end.
(** [context["credential_version"] = ...] keeps the key where it is. *)
Fixpoint assign (d : dict) (k : string) (v : pyval) : dict :=
  match d with
  | [] => [(k, v)]
  | (k', v') :: d' => if String.eqb k' k then (k', v) :: d' else (k', v') :: assign d' k v
  end.
Definition compare_and_swap_rotation_document (id : string) (expected : Z) (document : dict) (service : string) : vprog bool :=
  c <- configured ;;
  current <- get_managed_oauth_credential id ;;
  match current with
  | None => give false
  | Some r =>
      if negb (val_is (get r "status") "active") then give false else
      context <- item (as_mapping (get r "envelope")) "encryption_context" ;;
      let context := VDict (assign (as_mapping context) "credential_version" (VStr (pretty (expected + 1)))) in
      envelope <- seal_rotation_document c document context service ;;
      updated <- compare_and_swap_managed_oauth_envelope id expected envelope
                   (get_or document "granted_scopes" (get_or r "granted_scopes" (VList []))) ;;
      give (match updated with Some _ => true | None => false end)
  end.
Definition begin_managed_oauth_revocation (id p : string) : vprog response :=
  r <- get_managed_oauth_credential id ;;
  match r with
  | None => error 404 "managed OAuth credential not found"
  | Some r =>
      require (val_is (get r "user_principal_id") p) (error 403 "only the credential owner can disconnect") (
      pending <- mark_managed_oauth_pending_revocation id p ;;
      match pending with
      | None => error 409 "could not block credential"
      | Some payload =>
          log p "credential.managed_oauth.pending_revocation" (Some id) "ok" [("provider", get payload "provider")] ;;
          give (200, [("credential_id", VStr id); ("status", VStr "pending_revocation")])
      end)
  end.
Definition revoke_managed_oauth {A} (id service : string) (operation : string -> vprog A) : vprog A :=
  c <- configured ;;
  r <- found id ;;
  ensure (val_is (get r "status") "pending_revocation") (PermissionError "credential is not pending revocation") ;;
  token <- open_record c r service ;;
  operation token.
Definition delete_managed_oauth_credential (id p : string) : vprog Z :=
  deleted <- Repository.delete_managed_oauth_credential id p ;;
  if negb deleted then give 403 else
  log p "credential.managed_oauth.delete" (Some id) "ok" [] ;;
  give 200.
Definition rewrap_managed_oauth (id destination service : string) : vprog dict :=
  c <- configured ;;
  r <- found id ;;
  context <- item (as_mapping (get r "envelope")) "encryption_context" ;;
  updated <- rewrap c (get r "envelope") destination context service ;;
  update_managed_oauth_envelope id updated ;;
  provider <- item r "provider" ;;
  log service "credential.managed_oauth.rewrap" (Some id) "ok" [("provider", provider); ("kms_key_id", get updated "kms_key_id")] ;;
  give [("credential_id", VStr id); ("kms_key_id", get updated "kms_key_id"); ("kms_key_version", get updated "kms_key_version")].

Definition _credential_metadata (x : string * credential) : vprog pyval :=
  let (id, c) := x in
  let base := [("credential_id", VStr id); ("name", VStr (name c)); ("credential_type", VStr (credential_type c));
               ("user_principal_id", VStr (user_principal_id c)); ("created_at", VInt (created_at c))] in
  if negb (String.eqb (credential_type c) MANAGED) then give (VDict base) else
  let shown payload := give (VDict (base ++ [("custody_mode", VStr MANAGED); ("provider", get payload "provider");
                                            ("granted_scopes", get_or payload "granted_scopes" (VList []))])) in
  match encrypted_data c with
  | Document d => shown d
  | Opaque t => match loads t with
                | Ok (VDict d) => shown d
                | Ok _ => raise AttributeError
                | Err _ => shown []
                end
  end.
Fixpoint each {A C} (f : A -> vprog C) (l : list A) : vprog (list C) :=
  match l with [] => give [] | x :: l' => y <- f x ;; ys <- each f l' ;; give (y :: ys) end.
Definition list_credentials (p : option string) : vprog response :=
  match p with
  | Some p =>
      require (truthy p) (error 422 "missing 'user_principal_id' query param") (
      l <- Repository.list_credentials p ;;
      shown <- each _credential_metadata l ;;
      give (200, [("credentials", VList shown)]))
  | None => error 422 "missing 'user_principal_id' query param"
  end.

Definition grant_access (id : string) (body : dict) (signer : option string) : vprog response :=
  match given_text (get body "agent_principal_id"), given_text (get body "scope"), given_text (get body "granted_by") with
  | Some agent, Some s, Some owner =>
      require (signs_as signer owner) (error 403 "signer does not match 'granted_by'") (
      c <- Repository.get_credential id ;;
      match c with
      | None => error 404 "credential not found"
      | Some _ =>
          owned <- get_owned_credential id owner ;;
          match owned with
          | None => error 403 "only the credential owner can grant access"
          | Some _ =>
              g <- add_grant id agent s owner ;;
              log owner "credential.grant" (Some id) "ok" [("agent_principal_id", VStr agent); ("scope", VStr s)] ;;
              give (200, [("grant_id", VStr (grant_id g))])
          end
      end)
  | _, _, _ => error 422 "missing or invalid field"
  end.
(** The ciphertext and nonce that leave, besides the answer. *)
Definition request_access (id : string) (body : dict) (signer : option string) : vprog response :=
  match given_text (get body "agent_principal_id") with
  | None => error 422 "missing or invalid 'agent_principal_id'"
  | Some agent =>
      require (signs_as signer agent)
        (give (403, [("access_granted", VBool false); ("error", VStr "signer does not match 'agent_principal_id'")])) (
      c <- Repository.get_credential id ;;
      match c with
      | None => error 404 "credential not found"
      | Some c =>
          if String.eqb (credential_type c) MANAGED then
            log agent "credential.access" (Some id) "denied" [("custody_mode", VStr MANAGED)] ;;
            give (403, [("access_granted", VBool false)])
          else
            g <- get_active_grant id agent ;;
            match g with
            | None => log agent "credential.access" (Some id) "denied" [] ;; give (403, [("access_granted", VBool false)])
            | Some g =>
                log agent "credential.access" (Some id) "granted" [("scope", VStr (scope g))] ;;
                give (200, [("access_granted", VBool true);
                            ("encrypted_data", match encrypted_data c with Opaque t => VStr t | Document d => VDict d end);
                            ("nonce", VStr (nonce c)); ("scope", VStr (scope g))])
            end
      end)
  end.
Definition revoke_access (id agent : string) (signer : option string) : vprog response :=
  c <- Repository.get_credential id ;;
  match c with
  | None => error 404 "credential not found"
  | Some c =>
      require (signs_as signer (user_principal_id c)) (error 403 "only the credential owner can revoke access") (
      g <- revoke_grant id agent ;;
      match g with
      | None => error 404 "grant not found"
      | Some g =>
          log agent "credential.revoke" (Some id) "ok" [("granted_by", VStr (granted_by g))] ;;
          give (200, [("revoked", VBool true); ("credential_id", VStr id); ("agent_principal_id", VStr agent)])
      end)
  end.
Definition query_audit (p : option string) : vprog response :=
  match p with
  | Some p =>
      require (truthy p) (error 422 "missing 'principal_id' query param") (
      r <- ask (AuditQuery p) ;;
      match r with Some v => give (200, as_mapping v) | None => error 502 "central audit service unavailable" end)
  | None => error 422 "missing 'principal_id' query param"
  end.

(** *** Rotation *)

(** The lock of a connection orders the threads of one process; brokers are
    several. *)
Definition rotated (version : Z) (limitation : pyval) : dict :=
  [("credential_version", VInt version); ("status", VStr "active"); ("limitation", limitation)].
Definition REFRESH_AUTHORITY_UNSUPPORTED : string := "refresh_authority_unsupported".
Definition rotate (supports_refresh : bool) (skew : Z) (id service : string) : vprog dict :=
  read <- read_rotation_document id service ;;
  let '(version, status, document) := read in
  ensure (val_is status "active") (PermissionError "credential is not active") ;;
  if negb supports_refresh then give (rotated version (VStr REFRESH_AUTHORITY_UNSUPPORTED)) else
  now <- ask Clock ;;
  match as_number (get_or document "expires_at" (VInt 0)) with
  | None => raise (Python TypeError)
  | Some expires =>
      if now + skew <? expires then give (rotated version VNone) else
      match given_text (get document "refresh_token") with
      | None => raise (PermissionError "refresh authority is unavailable")
      | Some token =>
          answer <- ask (Refresh token) ;;
          match answer with
          | Err _ => raise ProviderError
          | Ok a =>
              match refresh_token a with
              | Some fresh =>
                  ensure (truthy fresh) (PermissionError "provider did not rotate refresh authority") ;;
                  now' <- ask Clock ;;
                  let metadata := if truthy (VDict (provider_metadata a)) then VDict (provider_metadata a)
                                  else get_or document "provider_metadata" (VDict []) in
                  ensure (match metadata with VDict _ => true | _ => false end) (Python TypeError) ;;
                  done <- compare_and_swap_rotation_document id version [
                    ("access_token", VStr (access_token a)); ("refresh_token", VStr fresh);
                    ("expires_at", VInt (now' + expires_in a)); ("token_type", VStr (token_type a));
                    ("provider_metadata", metadata); ("granted_scopes", VList (map VStr (str_sort (granted_scopes a))))] service ;;
                  ensure done (PermissionError "credential rotation lost its version fence") ;;
                  give (rotated (version + 1) VNone)
              | None => raise (PermissionError "provider did not rotate refresh authority")
              end
          end
      end
  end.
End methods.
End Service.
