(* ===== verification/VaultProofs.v ===== *)
(** * What leaves the vault

    Theorems about Vault.v: a secret is released only to an agent its owner
    granted it to, however requests interleave; a rotated document is what is
    read back; and a re-wrap that races a revocation undoes it. *)

From stdpp Require Import gmap pretty.
From S2P Require Import Prelude PyValue Json JsonRead Base64 Program Vault.
Import Vault.Repository.
Local Open Scope Z_scope.

(** ** Requests *)

Inductive call : Type :=
| StoreKeyring (body : dict) (signer : option string)
| GetKeyring (p : string)
| RotateKeyring (p : string) (body : dict) (signer : option string)
| StoreCredential (body : dict) (signer : option string)
| StoreManaged (body : dict) (signer : option string)
| ListCredentials (p : option string)
| GrantAccess (id : string) (body : dict) (signer : option string)
| RequestAccess (id : string) (body : dict) (signer : option string)
| RevokeAccess (id agent : string) (signer : option string)
| QueryAudit (p : option string)
| BeginRevocation (id p : string)
| DeleteManaged (id p : string)
| Rewrap (id destination service : string)
| Rotate (supports_refresh : bool) (skew : Z) (id service : string).

Section vault.
Context {B : SecretBox} (crypto : option ManagedOAuthCrypto).
Abbreviation thread := (vprog unit).
Abbreviation events := (list (event (Q := question))).

Definition exec (c : call) : thread :=
  match c with
  | StoreKeyring body signer => forget (Service.store_keyring body signer)
  | GetKeyring p => forget (Service.get_keyring p)
  | RotateKeyring p body signer => forget (Service.rotate_keyring p body signer)
  | StoreCredential body signer => forget (Service.store_credential body signer)
  | StoreManaged body signer => forget (Service.store_managed_oauth body signer)
  | ListCredentials p => forget (Service.list_credentials p)
  | GrantAccess id body signer => forget (Service.grant_access id body signer)
  | RequestAccess id body signer => forget (Service.request_access id body signer)
  | RevokeAccess id agent signer => forget (Service.revoke_access id agent signer)
  | QueryAudit p => forget (Service.query_audit p)
  | BeginRevocation id p => forget (Service.begin_managed_oauth_revocation id p)
  | DeleteManaged id p => forget (Service.delete_managed_oauth_credential id p)
  | Rewrap id destination service => forget (Service.rewrap_managed_oauth crypto id destination service)
  | Rotate supports skew id service => forget (Service.rotate crypto supports skew id service)
  end.

(** What the log tells. *)
Definition fresh_of (e : event (Q := question)) : option string :=
  match e with
  | existT _ (q, x) => match q in question T return T -> option string with Fresh => fun x => Some x | _ => fun _ => None end x
  end.
Definition released_of (e : event (Q := question)) : option (string * string * dict) :=
  match e with
  | existT _ (Audit agent activity (Some id) status details, _) =>
      if String.eqb activity "credential.access" && String.eqb status "granted" then Some (agent, id, details) else None
  | _ => None
  end.
Definition freshes (g : events) : list string := omap fresh_of g.
Definition released (g : events) : list (string * string * dict) := omap released_of g.

Section system.
Context (asked : call -> Prop).
Definition may_start (p : thread) : Prop := exists c, asked c /\ p = exec c.

(** The owner asked for the grant, and the agent for the secret. *)
Definition grant_asked (id owner agent sc : string) : Prop :=
  exists body signer, asked (GrantAccess id body signer) /\ Service.signs_as signer owner = true
    /\ Service.given_text (get body "granted_by") = Some owner
    /\ Service.given_text (get body "agent_principal_id") = Some agent
    /\ Service.given_text (get body "scope") = Some sc.
Definition access_asked (id agent : string) : Prop :=
  exists body signer, asked (RequestAccess id body signer) /\ Service.signs_as signer agent = true
    /\ Service.given_text (get body "agent_principal_id") = Some agent.

(** What a thread knows. *)
Inductive know : Type :=
| Nothing
| Mint (id : string)                    (* it drew this identifier and has not used it *)
| Own (id owner : string)               (* whatever row [id] is, it is [owner]'s *)
| Kept (id owner : string)              (* and a managed one *)
| Plain (id : string) (c : credential)    (* [id] is this row, not managed *)
| Entitled (id owner agent sc : string).  (* and the owner granted it *)
Definition minted (l : know) : option string := match l with Mint id => Some id | _ => None end.
Definition same_row (c c' : credential) : Prop :=
  user_principal_id c' = user_principal_id c /\ credential_type c' = credential_type c.
Definition plain_row (s : vault) (id owner : string) : Prop :=
  exists c, credentials s !! id = Some c /\ user_principal_id c = owner /\ credential_type c <> MANAGED.
Definition owned (s : vault) (g : events) (ls : list know) (id owner : string) : Prop :=
  id ∈ freshes g /\ (id ∉ omap minted ls) /\ forall c, credentials s !! id = Some c -> user_principal_id c = owner.
Definition kept (s : vault) (id owner : string) : Prop :=
  forall c, credentials s !! id = Some c -> user_principal_id c = owner /\ credential_type c = MANAGED.
Definition knows (s : vault) (g : events) (ls : list know) (l : know) : Prop :=
  match l with
  | Nothing => True
  | Mint id => id ∈ freshes g /\ credentials s !! id = None
  | Own id owner => owned s g ls id owner
  | Kept id owner => owned s g ls id owner /\ kept s id owner
  | Plain id c => plain_row s id (user_principal_id c)
  | Entitled id owner agent sc => plain_row s id owner /\ grant_asked id owner agent sc
  end.
Definition good_grant (s : vault) (x : grant) : Prop :=
  (exists c, credentials s !! credential_id x = Some c /\ user_principal_id c = granted_by x)
  /\ grant_asked (credential_id x) (granted_by x) (agent_principal_id x) (scope x).
Definition good_release (s : vault) (x : string * string * dict) : Prop :=
  exists owner sc, x.2 = [("scope", VStr sc)] /\ plain_row s x.1.2 owner
    /\ grant_asked x.1.2 owner x.1.1 sc /\ access_asked x.1.2 x.1.1.
Record sound (s : vault) (ls : list know) (g : events) : Prop := {
  so_rows : forall id c, credentials s !! id = Some c -> id ∈ freshes g /\ id ∉ omap minted ls;
  so_mints : NoDup (omap minted ls);
  so_knows : forall l, l ∈ ls -> knows s g ls l;
  so_grants : forall x, x ∈ grants s -> good_grant s x;
  so_released : forall x, x ∈ released g -> good_release s x;
}.
Definition inv (s : vault) (ls : list know) (g : events) : Prop := NoDup (freshes g) -> sound s ls g.

(** *** Steps *)

(** Rows keep their owner and type; only managed ones go. *)
Definition rows_kept (s s' : vault) : Prop :=
  (forall id c', credentials s' !! id = Some c' -> exists c, credentials s !! id = Some c /\ same_row c c')
  /\ (forall id c, credentials s !! id = Some c -> credential_type c <> MANAGED ->
        exists c', credentials s' !! id = Some c' /\ same_row c c').
Lemma rows_kept_same s s' : credentials s' = credentials s -> rows_kept s s'.
Proof. intros E. split; rewrite E; intros id c Hc; [|intros _]; exists c; done. Qed.
Lemma plain_kept s s' id owner : rows_kept s s' -> plain_row s id owner -> plain_row s' id owner.
Proof.
  intros [_ H] (c & Hc & Ho & Ht). destruct (H id c Hc Ht) as (c' & Hc' & Hu & Hty). exists c'. split; [done|].
  by rewrite Hu, Hty.
Qed.
Lemma owned_kept s s' g g' ls ls' id owner :
  rows_kept s s' -> freshes g ⊆ freshes g' -> (forall i, i ∈ omap minted ls' -> i ∈ omap minted ls) ->
  owned s g ls id owner -> owned s' g' ls' id owner.
Proof.
  intros [H _] Hg Hm (H1 & H2 & H3). split_and!; [by apply Hg|auto|]. intros c' Hc'.
  destruct (H id c' Hc') as (c & Hc & Hu & _). rewrite Hu. by apply H3.
Qed.
Lemma custody_kept s s' id owner : rows_kept s s' -> kept s id owner -> kept s' id owner.
Proof. intros [H _] Hk c' Hc'. destruct (H id c' Hc') as (c & Hc & -> & ->). by apply Hk. Qed.
Lemma release_kept s s' x : rows_kept s s' -> good_release s x -> good_release s' x.
Proof. intros H (owner & sc & H1 & H2 & H3). exists owner, sc. split; [done|]. split; [by apply (plain_kept s)|done]. Qed.
Lemma grant_kept s s' x c' :
  rows_kept s s' -> good_grant s x -> credentials s' !! credential_id x = Some c' -> good_grant s' x.
Proof.
  intros [H _] [(c & Hc & Ho) Hg] Hc'. split; [|done]. exists c'. split; [done|].
  destruct (H _ _ Hc') as (c0 & H0 & Hu & _). rewrite Hu. congruence.
Qed.
(** Any step that draws no identifier and inserts no credential. *)
Lemma sound_step s s' ls ls' g g' :
  omap minted ls' = omap minted ls -> freshes g ⊆ freshes g' -> rows_kept s s' ->
  (forall x, x ∈ grants s' -> (exists x0, x0 ∈ grants s /\ credential_id x0 = credential_id x /\ granted_by x0 = granted_by x
       /\ agent_principal_id x0 = agent_principal_id x /\ scope x0 = scope x
       /\ is_Some (credentials s' !! credential_id x)) \/ good_grant s' x) ->
  (forall x, x ∈ released g' -> x ∈ released g \/ good_release s' x) ->
  (forall l, l ∈ ls' -> l ∈ ls \/ knows s' g' ls' l) ->
  sound s ls g -> sound s' ls' g'.
Proof.
  intros Hm Hg Hrows Hgr Hrel Hls [S1 S2 S3 S4 S5]. constructor.
  - intros id c' Hc'. destruct (proj1 Hrows id c' Hc') as (c & Hc & _). rewrite Hm. destruct (S1 id c Hc). split; [by apply Hg|done].
  - by rewrite Hm.
  - intros x Hx. destruct (Hls x Hx) as [Hold|]; [|done]. specialize (S3 x Hold).
    destruct x as [|id|id o|id o|id c|id o agent sc]; cbn in *; [done| | | |by apply (plain_kept s)|].
    + destruct S3 as [Hf Hn]. split; [by apply Hg|]. destruct (credentials s' !! id) as [c'|] eqn:E; [|done].
      destruct (proj1 Hrows id c' E) as (c & Hc & _). congruence.
    + eapply owned_kept; [done|done| |done]. by rewrite Hm.
    + destruct S3. split; [|by apply (custody_kept s)]. eapply owned_kept; [done|done| |done]. by rewrite Hm.
    + destruct S3. split; [by apply (plain_kept s)|done].
  - intros x Hx. destruct (Hgr x Hx) as [(x0 & H0 & E1 & E2 & E3 & E4 & [c' Hc'])|]; [|done].
    rewrite <- E1 in Hc'. destruct (grant_kept s s' x0 c' Hrows (S4 x0 H0) Hc') as [G1 G2].
    split; [by rewrite <- E1, <- E2|]. by rewrite <- E1, <- E2, <- E3, <- E4.
  - intros x Hx. destruct (Hrel x Hx); [|done]. apply (release_kept s); [done|]. by apply S5.
Qed.

(** *** Statements that keep what every thread knows *)

Definition calm {A} (m : vm A) : Prop := forall s ls g, sound s ls g -> sound (m s).1 ls g.
Lemma calm_rows {A} (m : vm A) :
  (forall s, rows_kept s (m s).1 /\ (forall id, is_Some (credentials s !! id) -> is_Some (credentials (m s).1 !! id))
             /\ forall x, x ∈ grants (m s).1 -> exists x0, x0 ∈ grants s /\ credential_id x0 = credential_id x
                  /\ granted_by x0 = granted_by x /\ agent_principal_id x0 = agent_principal_id x /\ scope x0 = scope x) ->
  calm m.
Proof.
  intros H s ls g Hs. destruct (H s) as (H1 & H2 & H3).
  apply (sound_step s _ ls ls g g); try done; [|by left|by left].
  intros x Hx. left. destruct (H3 x Hx) as (x0 & H0 & E1 & E2 & E3 & E4). exists x0. split_and!; try done.
  rewrite <- E1. apply H2. destruct (so_grants _ _ _ Hs x0 H0) as [(c & -> & _) _]. done.
Qed.
Lemma calm_credentials {A} (m : vm A) :
  (forall s, credentials (m s).1 = credentials s /\ grants (m s).1 = grants s) -> calm m.
Proof.
  intros H. apply calm_rows. intros s. destruct (H s) as [E1 E2]. split; [by apply rows_kept_same|]. rewrite E1, E2.
  split; [done|]. intros x Hx. by exists x.
Qed.
(** An update of a row that keeps its owner and type. *)
Lemma rows_kept_insert s id c c' :
  credentials s !! id = Some c -> same_row c c' ->
  rows_kept s (with_credentials s (<[id := c']> (credentials s)))
  /\ (forall i, is_Some (credentials s !! i) -> is_Some (<[id := c']> (credentials s) !! i)).
Proof.
  intros Hc Hs. split; [split|].
  - intros i x. cbn. rewrite lookup_insert_Some. intros [[<- <-]|[_ Hx]]; [by exists c|by exists x].
  - intros i x Hx _. cbn. destruct (decide (id = i)) as [<-|]; [rewrite lookup_insert_eq|rewrite lookup_insert_ne by done; by exists x].
    exists c'. split; [done|]. by replace x with c by congruence.
  - intros i Hi. rewrite lookup_insert_is_Some'. by right.
Qed.
Lemma same_set_data c d : same_row c (set_data c d).
Proof. done. Qed.
Lemma calm_update {A} (m : vm A) :
  (forall s, (m s).1 = s \/ exists id c d, credentials s !! id = Some c /\ (m s).1 = with_credentials s (<[id := set_data c d]> (credentials s))) ->
  calm m.
Proof.
  intros H. apply calm_rows. intros s. destruct (H s) as [->|(id & c & d & Hc & ->)].
  - split; [by apply rows_kept_same|]. split; [done|]. intros x Hx. by exists x.
  - destruct (rows_kept_insert s id c (set_data c d) Hc (same_set_data _ _)) as [H1 H2].
    split; [done|]. split; [done|]. intros x Hx. by exists x.
Qed.
Lemma calm_write id owner payload : calm (write_payload id owner payload).
Proof.
  apply calm_update. intros s. unfold write_payload. destruct (credentials s !! id) as [c|] eqn:Ec; [|by left].
  destruct (_ && _); [right; by exists id, c, payload|by left].
Qed.
Lemma calm_swap id n e scopes : calm (swap_payload id n e scopes).
Proof.
  apply calm_update. intros s. unfold swap_payload. destruct (credentials s !! id) as [c|] eqn:Ec; [|by left].
  repeat (case_match; try (by left)); right; by eexists id, c, _.
Qed.
Lemma calm_read {A} (f : vault -> A) : calm (fun v => (v, Ok (f v))).
Proof. by intros s ls g H. Qed.
Lemma in_revoke_active id agent now l x : x ∈ revoke_active id agent now l -> exists x0, x0 ∈ l
  /\ credential_id x0 = credential_id x /\ granted_by x0 = granted_by x
  /\ agent_principal_id x0 = agent_principal_id x /\ scope x0 = scope x.
Proof. unfold revoke_active. intros (x0 & -> & H)%list_elem_of_fmap. exists x0. split; [done|]. by destruct (is_active id agent x0). Qed.
Lemma calm_revoke id agent now (f : vault -> option grant) :
  calm (fun v => (with_grants v (revoke_active id agent now (grants v)), Ok (f v))).
Proof.
  apply calm_rows. intros s. cbn. split; [by apply rows_kept_same|]. split; [done|].
  intros x Hx. by apply in_revoke_active in Hx.
Qed.
(** A managed row goes with its grants. *)
Lemma calm_delete id s ls g : sound s ls g ->
  match credentials s !! id with Some c => credential_type c = MANAGED | None => False end ->
  sound (with_grants (with_credentials s (delete id (credentials s)))
           (List.filter (fun x => negb (String.eqb (credential_id x) id)) (grants s))) ls g.
Proof.
  intros Hs Hc. destruct (credentials s !! id) as [c|] eqn:Ec; [|done].
  apply (sound_step s _ ls ls g g); try done; [| |by left|by left].
  - split; cbn.
    + intros i x [_ Hx]%lookup_delete_Some. by exists x.
    + intros i x Hx Ht. exists x. split; [|done]. apply lookup_delete_Some. split; [|done]. intros <-. congruence.
  - intros x Hx. cbn in *. apply list_elem_of_In, filter_In in Hx as [Hx%list_elem_of_In Hn]. left. exists x. split_and!; try done.
    apply negb_true_iff, String.eqb_neq in Hn. rewrite lookup_delete_ne by done.
    destruct (so_grants _ _ _ Hs x Hx) as [(c' & -> & _) _]. done.
Qed.

(** *** Programs made of such statements *)

Fixpoint quiet {A} (p : vprog A) : Prop :=
  match p with
  | Ret _ => True
  | Do m k => calm m /\ forall r, quiet (k r)
  | Ask q k => (forall x, released_of (answered q x) = None) /\ forall x, quiet (k x)
  end.
Lemma quiet_bind {A C} (p : vprog A) (f : A -> vprog C) : quiet p -> (forall a, quiet (f a)) -> quiet (prog_bind p f).
Proof. intros Hp Hf. induction p as [[a|e]|D m k IH|D q k IH]; cbn in *; try done; naive_solver. Qed.
Lemma quiet_forget {A} (p : vprog A) : quiet p -> quiet (forget p).
Proof. intros Hp. induction p as [[a|e]|D m k IH|D q k IH]; cbn in *; try done; naive_solver. Qed.
Lemma quiet_atom {A} (m : vm A) : calm m -> quiet (atom m).
Proof. done. Qed.
Lemma freshes_app g e : freshes (g ++ [e]) = freshes g ++ option_list (fresh_of e).
Proof. unfold freshes. rewrite omap_app. cbn. by destruct (fresh_of e). Qed.
Lemma released_app g e : released (g ++ [e]) = released g ++ option_list (released_of e).
Proof. unfold released. rewrite omap_app. cbn. by destruct (released_of e). Qed.
Lemma inv_prefix g e : NoDup (freshes (g ++ [e])) -> NoDup (freshes g).
Proof. rewrite freshes_app. by intros [H _]%NoDup_app. Qed.
(** An answer that releases nothing. *)
Lemma inv_ask s ls g e : released_of e = None -> inv s ls g -> inv s ls (g ++ [e]).
Proof.
  intros He H Hn. apply (sound_step s s ls ls g _); try done; [|by apply rows_kept_same| | |by left|by apply H, (inv_prefix g e)].
  - rewrite freshes_app. set_solver.
  - intros x Hx. left. destruct (so_grants _ _ _ (H (inv_prefix _ _ Hn)) x Hx) as [(c & Hc & _) _]. exists x. by rewrite Hc.
  - intros x. rewrite released_app, He, app_nil_r. by left.
Qed.
Lemma quiet_wp {A} l (p : vprog A) P : quiet p -> (forall r, P l r) -> wp inv l p P.
Proof.
  intros Hp HP. induction p as [r|D m k IH|D q k IH]; cbn in *.
  - apply HP.
  - exists (fun _ => l). destruct Hp as [Hm Hk]. split; [|intros r; apply IH, Hk].
    intros s a b g H Hn. apply Hm, H, Hn.
  - destruct Hp as [Hq Hk]. intros x. exists l. split; [|apply IH, Hk].
    intros s a b g H. apply inv_ask; [exact (Hq x)|exact H].
Qed.
Lemma quiet_use {A C} l (p : vprog A) (f : A -> vprog C) P :
  quiet p -> (forall e, P l (Err e)) -> (forall a, wp inv l (f a) P) -> wp inv l (prog_bind p f) P.
Proof. intros Hp He Hf. apply wp_bind. apply quiet_wp; [done|]. intros [a|e]; [apply Hf|apply He]. Qed.

(** Everything but an insertion and a grant is made of them. *)
Ltac calm_step :=
  lazymatch goal with
  | |- quiet (prog_bind _ _) => apply quiet_bind
  | |- quiet (forget _) => apply quiet_forget
  | |- quiet (Ret _) => exact I
  | |- quiet (give _) => exact I
  | |- quiet (raise _) => exact I
  | |- quiet (of_result _) => exact I
  | |- quiet (ask _) => split; [intros ?; reflexivity|intros ?; exact I]
  | |- quiet (atom _) => apply quiet_atom
  | |- quiet (ensure _ _) => unfold ensure
  | |- quiet (python _) => unfold python
  | |- quiet (item _ _) => unfold item
  | |- quiet (Service.require _ _ _) => unfold Service.require
  | |- quiet (Service.error _ _) => exact I
  | |- quiet (text_column _) => unfold text_column
  | |- quiet (match ?x with _ => _ end) => destruct x
  | |- quiet (if ?x then _ else _) => destruct x
  | |- quiet (let (_, _) := ?x in _) => destruct x
  | |- forall _, _ => intros ?
  end.
Ltac calming := repeat (calm_step; cbn beta iota zeta); try apply calm_read; try assumption.

Lemma quiet_log p a r st d : released_of (answered (Audit p a r st d) tt) = None -> quiet (Service.log p a r st d).
Proof. intros H. split; [intros []; exact H|intros ?; exact I]. Qed.
Lemma quiet_ensure_principal p : quiet (_ensure_principal p).
Proof. unfold _ensure_principal. calming. by apply calm_credentials. Qed.
Lemma quiet_get_managed id : quiet (get_managed_oauth_credential id).
Proof. unfold get_managed_oauth_credential. calming. Qed.
Lemma quiet_store_keyring body signer : quiet (Service.store_keyring body signer).
Proof.
  unfold Service.store_keyring, Repository.store_keyring. calming; [apply quiet_ensure_principal|].
  apply calm_credentials. intros v. by destruct (bool_decide _).
Qed.
Lemma quiet_rotate_keyring p body signer : quiet (Service.rotate_keyring p body signer).
Proof.
  unfold Service.rotate_keyring, Repository.rotate_keyring. calming; try (apply quiet_log; done);
    apply calm_credentials; intros v; by destruct (keyrings v !! p).
Qed.
Lemma quiet_revoke_access id agent signer : quiet (Service.revoke_access id agent signer).
Proof.
  unfold Service.revoke_access, Repository.get_credential, revoke_grant. calming; try (apply quiet_log; done). apply calm_revoke.
Qed.
Lemma quiet_mark id p : quiet (mark_managed_oauth_pending_revocation id p).
Proof. unfold mark_managed_oauth_pending_revocation. calming; [apply quiet_get_managed|apply calm_write]. Qed.
Lemma quiet_begin id p : quiet (Service.begin_managed_oauth_revocation id p).
Proof.
  unfold Service.begin_managed_oauth_revocation. calming; [apply quiet_get_managed|apply quiet_mark|by apply quiet_log].
Qed.
Lemma quiet_delete id p : quiet (Service.delete_managed_oauth_credential id p).
Proof.
  unfold Service.delete_managed_oauth_credential, Repository.delete_managed_oauth_credential. calming; [|by apply quiet_log].
  intros s ls g Hs. destruct (credentials s !! id) as [c|] eqn:Ec; [|done].
  destruct (_ && _) eqn:Eb; [|done]. apply andb_true_iff in Eb as [_ Eb%String.eqb_eq]. apply calm_delete; [done|]. by rewrite Ec.
Qed.
Lemma quiet_open c envelope context caller : quiet (open_envelope c envelope context caller).
Proof. unfold open_envelope. calming. Qed.
Lemma quiet_rewrap_envelope c e d x w : quiet (rewrap c e d x w).
Proof. unfold rewrap. calming. Qed.
Lemma quiet_rewrap id d w : quiet (Service.rewrap_managed_oauth crypto id d w).
Proof.
  unfold Service.rewrap_managed_oauth, Service.configured, Service.found, update_managed_oauth_envelope.
  calming; try apply quiet_get_managed; try apply quiet_rewrap_envelope; try apply calm_write; by apply quiet_log.
Qed.
Lemma quiet_seal c text x w : quiet (_seal c text x w).
Proof. unfold _seal. calming. Qed.
Lemma quiet_ingestion c text x w : quiet (seal c text x w).
Proof. unfold seal. calming. apply quiet_seal. Qed.
Lemma quiet_revocation id w : quiet (Service.revoke_managed_oauth crypto id w (fun t => give t)).
Proof.
  unfold Service.revoke_managed_oauth, Service.configured, Service.found, Service.open_record.
  calming; try apply quiet_get_managed; apply quiet_open.
Qed.
Lemma quiet_read_document id w : quiet (Service.read_rotation_document crypto id w).
Proof.
  unfold Service.read_rotation_document, Service.configured, Service.found, Service.open_record.
  calming; try apply quiet_get_managed; apply quiet_open.
Qed.
Lemma quiet_swap_document id n d w : quiet (Service.compare_and_swap_rotation_document crypto id n d w).
Proof.
  unfold Service.compare_and_swap_rotation_document, Service.configured, seal_rotation_document, compare_and_swap_managed_oauth_envelope.
  calming; try apply quiet_get_managed; try apply quiet_seal; apply calm_swap.
Qed.
Lemma quiet_rotate r k id w : quiet (Service.rotate crypto r k id w).
Proof. unfold Service.rotate. calming; try apply quiet_read_document; apply quiet_swap_document. Qed.
Lemma quiet_each {A C} (f : A -> vprog C) l : (forall x, quiet (f x)) -> quiet (Service.each f l).
Proof. intros Hf. induction l as [|x l IH]; cbn [Service.each]; calming. apply Hf. Qed.
Lemma quiet_list p : quiet (Service.list_credentials p).
Proof.
  unfold Service.list_credentials, Repository.list_credentials. calming. apply quiet_each. intros x.
  unfold Service._credential_metadata. calming.
Qed.

(** *** Insertions and grants *)

Lemma minted_mid a l b : omap minted (a ++ l :: b) = omap minted a ++ option_list (minted l) ++ omap minted b.
Proof. rewrite omap_app. cbn. by destruct (minted l). Qed.
Lemma inv_mint s a b g l x : minted l = None -> inv s (a ++ l :: b) g -> inv s (a ++ Mint x :: b) (g ++ [answered Fresh x]).
Proof.
  intros Hl H Hn. pose proof (H (inv_prefix _ _ Hn)) as [S1 S2 S3 S4 S5]. rewrite freshes_app in Hn. cbn in Hn.
  apply NoDup_app in Hn as (_ & Hx & _). assert (x ∉ freshes g) as Hxg by (intros Hin; apply (Hx x Hin); left).
  assert (omap minted (a ++ l :: b) = omap minted a ++ omap minted b) as Eold by (rewrite minted_mid, Hl; done).
  assert (omap minted (a ++ Mint x :: b) = omap minted a ++ x :: omap minted b) as Enew by (rewrite minted_mid; done).
  rewrite Eold in S2.
  assert (forall i, i ∈ freshes g -> i ∉ omap minted (a ++ l :: b) -> i ∉ omap minted (a ++ Mint x :: b)) as Hm.
  { intros i Hi Hin Hc. apply Hin. rewrite Eold. rewrite Enew in Hc. set_solver. }
  assert (forall i, i ∈ omap minted a ++ omap minted b -> i ∈ freshes g) as Hmg.
  { rewrite <- Eold. intros i (y & Hy & El)%list_elem_of_omap. destruct y; try done. injection El as ->. by destruct (S3 _ Hy). }
  constructor.
  - intros id c Hc. destruct (S1 id c Hc) as [H1 H2]. rewrite freshes_app. split; [set_solver|by apply Hm].
  - rewrite Enew. apply NoDup_app in S2 as (Sa & Sab & Sb). apply NoDup_app. split; [done|]. split.
    + intros i Hi [->|Hi']%elem_of_cons; [|by apply (Sab i)]. apply Hxg, Hmg, elem_of_app. by left.
    + apply NoDup_cons. split; [|done]. intros Hi. apply Hxg, Hmg, elem_of_app. by right.
  - intros y Hy. assert (y = Mint x \/ y ∈ a ++ l :: b) as [->|Hy'] by set_solver.
    + cbn. rewrite freshes_app. split; [set_solver|]. destruct (credentials s !! x) eqn:E; [|done]. by destruct (S1 _ _ E).
    + specialize (S3 y Hy'). destruct y as [|id|id o|id o|id c|id o ag sc]; cbn in *; try done.
      * rewrite freshes_app. destruct S3. split; [set_solver|done].
      * destruct S3 as (H1 & H2 & H3). split_and!; [rewrite freshes_app; set_solver|by apply Hm|done].
      * destruct S3 as [(H1 & H2 & H3) H4]. split; [|done]. split_and!; [rewrite freshes_app; set_solver|by apply Hm|done].
  - done.
  - intros y. rewrite released_app, app_nil_r. apply S5.
Qed.
Lemma inv_insert s a b g id c : inv s (a ++ Mint id :: b) g -> inv (insert_credential id c s).1 (a ++ Nothing :: b) g.
Proof.
  intros H Hn. destruct (H Hn) as [S1 S2 S3 S4 S5]. rewrite minted_mid in S2. cbn in S2.
  assert (Mint id ∈ a ++ Mint id :: b) as Hin by set_solver. destruct (S3 _ Hin) as [Hf Hnone].
  assert (id ∉ omap minted (a ++ Nothing :: b)) as Hid.
  { rewrite minted_mid. cbn. apply NoDup_app in S2 as (_ & Sab & Sb). apply NoDup_cons in Sb as [Sb _].
    intros [Hi|Hi]%elem_of_app; [apply (Sab id Hi); left|done]. }
  assert (forall i, i ∉ omap minted (a ++ Mint id :: b) -> i ∉ omap minted (a ++ Nothing :: b)) as Hm.
  { intros i Hi Hc. apply Hi. rewrite minted_mid in *. cbn in *. set_solver. }
  assert (sound s (a ++ Nothing :: b) g) as Hs.
  { constructor; try done.
    - intros i x Hx. destruct (S1 i x Hx). split; [done|by apply Hm].
    - rewrite minted_mid. cbn. apply NoDup_app in S2 as (Sa & Sab & Sb). apply NoDup_cons in Sb as [_ Sb].
      apply NoDup_app. split; [done|]. split; [|done]. intros i Hi Hb. apply (Sab i Hi). by right.
    - intros l Hl. assert (l = Nothing \/ l ∈ a ++ Mint id :: b) as [->|Hl'] by set_solver; [done|].
      specialize (S3 l Hl'). destruct l as [|i|i o|i o|i x|i o ag sc]; cbn in *; try done.
      + destruct S3 as (H1 & H2 & H3). split_and!; [done|by apply Hm|done].
      + destruct S3 as [(H1 & H2 & H3) H4]. split; [|done]. split_and!; [done|by apply Hm|done]. }
  unfold insert_credential. rewrite Hnone. destruct (bool_decide _); [|done]. cbn [fst].
  clear S1 S2 S4 S5. destruct Hs as [S1 S2 S3' S4 S5]. constructor; cbn; try done.
  - intros i x. rewrite lookup_insert_Some. intros [[<- <-]|[_ Hx]]; [done|by apply (S1 i x)].
  - intros l Hl. pose proof (S3' l Hl) as Hk.
    assert (forall i o, plain_row s i o -> plain_row (with_credentials s (<[id := c]> (credentials s))) i o) as Hplain.
    { intros i o (x & Hx & E). exists x. split; [|done]. cbn. rewrite lookup_insert_ne; [done|congruence]. }
    destruct l as [|i|i o|i o|i x|i o ag sc]; cbn in *; try done.
    + destruct Hk as [Hk1 Hk2]. split; [done|]. rewrite lookup_insert_ne; [done|]. intros <-. apply Hid.
      apply list_elem_of_omap. by exists (Mint id).
    + destruct Hk as (H1 & H2 & H3). split_and!; [done..|]. cbn. intros x. rewrite lookup_insert_Some. intros [[<- <-]|[_ Hx]]; [|by apply H3].
      assert (Own id o ∈ a ++ Mint id :: b) as Ho by set_solver. destruct (S3 _ Ho) as (_ & Hbad & _).
      destruct Hbad. rewrite minted_mid. set_solver.
    + destruct Hk as [(H1 & H2 & H3) H4]. assert (id <> i) as Hi.
      { intros <-. assert (Kept id o ∈ a ++ Mint id :: b) as Ho by set_solver. destruct (S3 _ Ho) as [(_ & Hbad & _) _].
        destruct Hbad. rewrite minted_mid. set_solver. }
      split; [split_and!; [done..|]|]; unfold kept; cbn; intros x; rewrite lookup_insert_ne by done; [apply H3|apply H4].
    + by apply Hplain.
    + destruct Hk. split; [by apply Hplain|done].
  - intros x Hx. destruct (S4 x Hx) as [(c0 & Hc0 & Ho) Hg]. split; [|done]. exists c0. split; [|done].
    cbn. rewrite lookup_insert_ne; [done|congruence].
  - intros x Hx. destruct (S5 x Hx) as (o & sc & E1 & (y & Hy & E2) & E3). exists o, sc. split; [done|]. split; [|done].
    exists y. split; [|done]. cbn. rewrite lookup_insert_ne; [done|congruence].
Qed.

(** What has been inserted is kept. *)
Lemma inv_insert_kept s a b g id c owner :
  user_principal_id c = owner -> credential_type c = MANAGED -> (insert_credential id c s).2 = Ok tt ->
  inv s (a ++ Mint id :: b) g -> inv (insert_credential id c s).1 (a ++ Kept id owner :: b) g.
Proof.
  intros Ho Ht Hok H Hn. pose proof (inv_insert s a b g id c H Hn) as Hs. specialize (H Hn).
  assert (Mint id ∈ a ++ Mint id :: b) as Hin by set_solver. destruct (so_knows _ _ _ H _ Hin) as [Hf _].
  assert (credentials (insert_credential id c s).1 !! id = Some c) as Hc.
  { unfold insert_credential in *. destruct (credentials s !! id); [done|]. destruct (bool_decide _); [|done]. apply lookup_insert_eq. }
  apply (sound_step (insert_credential id c s).1 _ (a ++ Nothing :: b) _ g g); try done;
    [by rewrite !minted_mid|by apply rows_kept_same| |by left|].
  - intros x Hx. right. by apply (so_grants _ _ _ Hs).
  - intros x Hx. assert (x = Kept id owner \/ x ∈ a ++ Nothing :: b) as [->|] by set_solver; [right|by left].
    assert (kept (insert_credential id c s).1 id owner) as Hk by (intros c' Hc'; naive_solver).
    split; [|done]. split_and!; [done| |intros c' Hc'; by apply Hk].
    destruct (so_rows _ _ _ Hs id c Hc) as [_ Hid]. by rewrite minted_mid in *.
Qed.

(** Learning what a statement or an answer shows. *)
Lemma inv_learn s a b g l l' :
  minted l = None -> minted l' = None -> (forall ls, sound s ls g -> l ∈ ls -> knows s g ls l') ->
  inv s (a ++ l :: b) g -> inv s (a ++ l' :: b) g.
Proof.
  intros Hl Hl' Hk H Hn. specialize (H Hn). assert (omap minted (a ++ l' :: b) = omap minted (a ++ l :: b)) as Hm
    by (rewrite !minted_mid; by rewrite Hl, Hl').
  apply (sound_step s s (a ++ l :: b) _ g g); try done; [by apply rows_kept_same| |by left|].
  - intros x Hx. right. by apply (so_grants _ _ _ H).
  - intros x Hx. assert (x = l' \/ x ∈ a ++ l :: b) as [->|] by set_solver; [right|by left].
    assert (knows s g (a ++ l :: b) l') as Hkn by (apply Hk; [done|set_solver]).
    destruct l' as [|i|i o|i o|i c|i o ag sc]; try done; unfold knows, owned in *; by rewrite Hm.
Qed.
Lemma wp_read {A C} (f : vault -> A) (k : result vault_error A -> vprog C) l P (next : result vault_error A -> know) :
  minted l = None -> (forall r, minted (next r) = None) ->
  (forall s g ls, sound s ls g -> l ∈ ls -> knows s g ls (next (Ok (f s)))) ->
  (forall r, wp inv (next r) (k r) P) -> wp inv l (Do (fun v => (v, Ok (f v))) k) P.
Proof.
  intros Hl Hn Hk Hp. exists next. split; [|done]. intros s a b g H. cbn. apply (inv_learn s a b g l); try done. intros ls. by apply Hk.
Qed.
Lemma inv_grant s a b g x owner :
  granted_by x = owner -> grant_asked (credential_id x) owner (agent_principal_id x) (scope x) ->
  inv s (a ++ Own (credential_id x) owner :: b) g ->
  inv (replace_grant x s).1 (a ++ Own (credential_id x) owner :: b) g.
Proof.
  intros <- Hasked H Hn. specialize (H Hn). unfold replace_grant. destruct (_ && _ && _ && _) eqn:E; [|done]. cbn [fst].
  rewrite !andb_true_iff in E. destruct E as [[[_ _] Hc] _]. apply bool_decide_eq_true in Hc as [c Hc].
  apply (sound_step s _ (a ++ Own (credential_id x) (granted_by x) :: b) _ g g); try done; [by apply rows_kept_same| |by left|by left].
  intros y Hy. cbn in Hy. apply elem_of_app in Hy as [Hy| ->%list_elem_of_singleton].
  - left. apply in_revoke_active in Hy as (y0 & H0 & E1 & E2 & E3 & E4). exists y0. split_and!; try done. rewrite <- E1.
    destruct (so_grants _ _ _ H y0 H0) as [(c' & Hc' & _) _]. cbn. by rewrite Hc'.
  - right. split; [|done]. exists c. split; [done|].
    destruct (so_knows _ _ _ H (Own (credential_id x) (granted_by x))) as (_ & _ & Ho); [set_solver|]. by apply Ho.
Qed.

(** *** The methods that need it *)

Lemma wp_insert p n t d k l :
  minted l = None -> wp inv l (Repository.store_credential p n t d k)
    (fun l' r => minted l' = None /\ match r with Ok x => t = MANAGED -> l' = Kept x.1 p | Err _ => True end).
Proof.
  intros Hl. unfold Repository.store_credential. apply quiet_use; [apply quiet_ensure_principal|done|]. intros _.
  cbn. intros id. exists (Mint id). split; [intros s a b g; by apply inv_mint|]. intros now. exists (Mint id).
  split; [intros s a b g; by apply inv_ask|].
  exists (fun r => match r with Ok _ => if String.eqb t MANAGED then Kept id p else Nothing | Err _ => Nothing end). split.
  - intros s a b g H. destruct (insert_credential _ _ s).2 as [[]|] eqn:E; [|by apply inv_insert].
    destruct (String.eqb_spec t MANAGED) as [->|]; [by apply inv_insert_kept|by apply inv_insert].
  - intros [[]|e]; [|done]. cbn. destruct (String.eqb_spec t MANAGED); done.
Qed.
Lemma wp_store_credential body signer l : minted l = None -> wp inv l (Service.store_credential body signer) (fun l' _ => minted l' = None).
Proof.
  intros Hl. unfold Service.store_credential. repeat case_match; try done. unfold Service.require. destruct (Service.signs_as _ _); [|done].
  apply wp_bind. eapply wp_mono; [by apply wp_insert|]. by intros l' [r|e] [Hm _].
Qed.
(** When it has answered, the credential it names is its signer's. *)
Lemma wp_store_managed body signer l :
  minted l = None -> wp inv l (Service.store_managed_oauth body signer)
    (fun l' r => minted l' = None /\ match r with
       | Ok (status, answer) => status = 200 -> exists id p, get answer "credential_id" = VStr id
           /\ Service.given_text (get body "user_principal_id") = Some p /\ l' = Kept id p
       | Err _ => True
       end).
Proof.
  intros Hl. unfold Service.store_managed_oauth. destruct (Service.given_text _) as [p|]; [|done]. destruct signer as [s|]; [|done].
  unfold Service.require. destruct (String.eqb s p); [|done]. destruct (Service.given_text _) as [provider|]; [|done].
  destruct (Service.texts_list _); [|done]. destruct (get body "envelope") as [| | | | |e]; try done.
  destruct (validate_managed_oauth_envelope _) as [[]|[]]; try done.
  unfold store_managed_oauth_credential. apply wp_bind, quiet_use; [unfold python; by case_match|done|].
  intros payload. eapply wp_mono; [by apply wp_insert|]. intros l' [x|err] [Hm Hk]; [|done]. specialize (Hk eq_refl). subst l'.
  apply quiet_use; [by apply quiet_log|done|]. intros _. destruct (py_sorted_set _) as [sorted|]; cbn; [|done].
  split; [done|]. intros _. by exists x.1, p.
Qed.
Lemma wp_grant_access id body signer :
  asked (GrantAccess id body signer) -> wp inv Nothing (Service.grant_access id body signer) (fun _ _ => True).
Proof.
  intros Hasked. unfold Service.grant_access.
  destruct (Service.given_text (get body "agent_principal_id")) as [agent|] eqn:Ea; [|done].
  destruct (Service.given_text (get body "scope")) as [sc|] eqn:Es; [|done].
  destruct (Service.given_text (get body "granted_by")) as [owner|] eqn:Eo; [|done].
  unfold Service.require. destruct (Service.signs_as signer owner) eqn:Esig; [|done].
  apply quiet_use; [unfold Repository.get_credential; calming|done|]. intros [c0|]; [|done]. unfold get_owned_credential.
  apply (wp_read _ _ _ _ (fun r => match r with Ok (Some c) => Own id owner | _ => Nothing end)); [done|by intros [[]|]| |].
  - intros s g ls H _. destruct (credentials s !! id) as [c|] eqn:Ec; [|done].
    destruct (String.eqb_spec (user_principal_id c) owner) as [Hu|]; [|done]. destruct (so_rows _ _ _ H id c Ec).
    split_and!; [done..|]. intros c' Hc'. congruence.
  - intros [[c|]|e]; try done. cbn beta iota. apply wp_bind. unfold add_grant. apply quiet_use; [apply quiet_ensure_principal|done|]. intros _.
    apply quiet_use; [apply quiet_ensure_principal|done|]. intros _. cbn. intros gid. exists (Own id owner).
    split; [intros s a b g H Hn|]. { apply (sound_step s s (a ++ Own id owner :: b) _ g _); try done; [|by apply rows_kept_same| | |by left|apply H, (inv_prefix _ _ Hn)].
      - rewrite freshes_app. set_solver.
      - intros x Hx. right. apply (so_grants _ _ _ (H (inv_prefix _ _ Hn))), Hx.
      - intros x. rewrite released_app, app_nil_r. by left. }
    intros now. exists (Own id owner). split; [intros s a b g; by apply inv_ask|].
    exists (fun _ => Own id owner). split.
    + intros s a b g. apply (inv_grant s a b g {| grant_id := gid; credential_id := id; agent_principal_id := agent;
        scope := sc; granted_by := owner; granted_at := now; revoked_at := None |} owner); [done|]. by exists body, signer.
    + intros [u|e]; [|done]. intros []. exists (Own id owner). split; [intros s a b g; by apply inv_ask|done].
Qed.
Lemma inv_release s a b g id owner agent sc :
  access_asked id agent -> inv s (a ++ Entitled id owner agent sc :: b) g ->
  inv s (a ++ Entitled id owner agent sc :: b)
    (g ++ [answered (Audit agent "credential.access" (Some id) "granted" [("scope", VStr sc)]) tt]).
Proof.
  intros Ha H Hn. specialize (H (inv_prefix _ _ Hn)).
  apply (sound_step s s (a ++ Entitled id owner agent sc :: b) _ g _); try done; [|by apply rows_kept_same| | |by left].
  - rewrite freshes_app. set_solver.
  - intros x Hx. right. by apply (so_grants _ _ _ H).
  - intros x. rewrite released_app. intros [Hx| ->%list_elem_of_singleton]%elem_of_app; [by left|right].
    destruct (so_knows _ _ _ H (Entitled id owner agent sc)) as [H1 H2]; [set_solver|]. by exists owner, sc.
Qed.
Lemma wp_request_access id body signer :
  asked (RequestAccess id body signer) -> wp inv Nothing (Service.request_access id body signer) (fun _ _ => True).
Proof.
  intros Hasked. unfold Service.request_access.
  destruct (Service.given_text (get body "agent_principal_id")) as [agent|] eqn:Ea; [|done].
  unfold Service.require. destruct (Service.signs_as signer agent) eqn:Esig; [|done].
  assert (access_asked id agent) as Haa by by exists body, signer.
  unfold Repository.get_credential. cbn [prog_bind atom].
  apply (wp_read _ _ _ _ (fun r => match r with
    | Ok (Some c) => if String.eqb (credential_type c) MANAGED then Nothing else Plain id c
    | _ => Nothing end)); [done|intros [[c|]|]; try done; by destruct (String.eqb _ _)| |].
  { intros s g ls H _. destruct (credentials s !! id) as [c|] eqn:Ec; [|done].
    destruct (String.eqb_spec (credential_type c) MANAGED); [done|]. by exists c. }
  intros [[c|]|e]; try done. cbn [prog_bind]. destruct (String.eqb (credential_type c) MANAGED) eqn:Et.
  { apply quiet_wp; [|done]. calming. by apply quiet_log. }
  unfold get_active_grant. cbn [prog_bind atom].
  apply (wp_read _ _ _ _ (fun r => match r with
    | Ok (Some x) => Entitled id (user_principal_id c) agent (scope x) | _ => Plain id c end)); [done|by intros [[]|]| |].
  { intros s g ls H Hin. pose proof (so_knows _ _ _ H _ Hin) as Hp. destruct (List.find _ _) as [x|] eqn:Ef; [|done].
    apply find_some in Ef as [Hx Hact]. apply list_elem_of_In in Hx. unfold is_active in Hact. rewrite !andb_true_iff in Hact.
    destruct Hact as [[E1%String.eqb_eq E2%String.eqb_eq] _]. destruct (so_grants _ _ _ H x Hx) as [(c' & Hc' & Ho) Hg].
    cbn. split; [done|]. destruct Hp as (c2 & Hc2 & Hu & _). rewrite E1, E2 in *.
    replace (user_principal_id c) with (granted_by x) by congruence. done. }
  intros [[x|]|e]; try done.
  - cbn. intros []. exists (Entitled id (user_principal_id c) agent (scope x)). split; [|done].
    intros s a b g. by apply inv_release.
  - apply quiet_wp; [|done]. cbn. split; [by intros []|done].
Qed.
Lemma exec_wp c : asked c -> wp inv Nothing (exec c) anything.
Proof.
  intros Hc. destruct c; cbn [exec]; apply (wp_forget inv Nothing _ (fun _ => True));
    try (by apply wp_grant_access); try (by apply wp_request_access);
    try (eapply wp_mono; [first [by apply wp_store_credential|by apply wp_store_managed]|done]);
    apply quiet_wp; try done.
  - apply quiet_store_keyring.
  - unfold Service.get_keyring, Repository.get_keyring. calming.
  - apply quiet_rotate_keyring.
  - apply quiet_list.
  - apply quiet_revoke_access.
  - unfold Service.query_audit. calming.
  - apply quiet_begin.
  - apply quiet_delete.
  - apply quiet_rewrap.
  - apply quiet_rotate.
Qed.
Definition start : system vault vault_error question := {| store_of := empty_vault; pool := []; log := [] |}.
(** Threads come with nothing, share what they know, and go. *)
Lemma sound_shared s ls ls' g :
  omap minted ls' = omap minted ls -> (forall x, x ∈ ls' -> x ∈ ls \/ x = Nothing) -> sound s ls g -> sound s ls' g.
Proof.
  intros Hm Hl H. apply (sound_step s s ls _ g g); try done; [by apply rows_kept_same| |by left|].
  - intros x Hx. right. by apply (so_grants _ _ _ H).
  - intros x Hx. destruct (Hl x Hx) as [| ->]; [by left|by right].
Qed.
Lemma sound_dead s a l b g : sound s (a ++ l :: b) g -> sound s (a ++ b) g.
Proof.
  intros [S1 S2 S3 S4 S5].
  assert (forall i, i ∉ omap minted (a ++ l :: b) -> i ∉ omap minted (a ++ b)) as Hm.
  { intros i Hin Hc. apply Hin. rewrite minted_mid. rewrite omap_app in Hc. set_solver. }
  constructor; try done.
  - intros id x Hx. destruct (S1 id x Hx). split; [done|by apply Hm].
  - rewrite minted_mid in S2. rewrite omap_app. apply NoDup_app in S2 as (Sa & Sab & Sb). apply NoDup_app in Sb as (_ & _ & Sb).
    apply NoDup_app. split; [done|]. split; [|done]. intros i Hi0 Hc. apply (Sab i Hi0), elem_of_app. by right.
  - intros y Hy. assert (knows s g (a ++ l :: b) y) as Hk by (apply S3; set_solver).
    destruct y as [|i|i o|i o|i x|i o ag sc]; try done.
    + destruct Hk as (H1 & H2 & H3). split_and!; [done|by apply Hm|done].
    + destruct Hk as [(H1 & H2 & H3) H4]. split; [|done]. split_and!; [done|by apply Hm|done].
Qed.
Lemma sound_start : sound empty_vault [] [].
Proof. constructor; cbn; try done; try set_solver. constructor. Qed.
Lemma reachable_inv c : rtc (system_step may_start) start c -> exists ls, inv (store_of c) ls (log c).
Proof.
  intros H. apply (system_sound inv Nothing may_start) with (c := start); [| | |done|].
  - intros p (x & Hx & ->). by apply exec_wp.
  - intros s ls g Hi Hn. apply (sound_shared s ls); [rewrite omap_app; cbn; by rewrite app_nil_r|set_solver|by apply Hi].
  - intros s a l b g Hi Hn. by eapply sound_dead, Hi.
  - exists []. split; [constructor|]. intros _. apply sound_start.
Qed.
End system.


(** ** What is sealed *)

Lemma py_eqb_refl v : distinct_keys v -> py_eqb v v = true.
Proof.
  induction v as [|b|z|s|l IH|d IH] using pyval_ind'; cbn; intros Hd; try done.
  - apply Z.eqb_refl.
  - apply Z.eqb_refl.
  - apply String.eqb_refl.
  - induction IH as [|x l Hx _ IHl]; [done|]. apply Forall_cons in Hd as [H1 H2]. rewrite Hx by done. by apply IHl.
  - destruct Hd as [Hn Hd]. rewrite Nat.eqb_refl. cbn. apply forallb_forall. intros [k v] Hin%list_elem_of_In.
    cbn [fst snd]. rewrite (dget_in_distinct d k v) by done. rewrite Forall_forall in IH. apply (IH (k, v) Hin).
    rewrite Forall_map, Forall_forall in Hd. apply (Hd (k, v) Hin).
Qed.
Lemma dget_assign d k v k' : dget (Service.assign d k v) k' = if String.eqb k k' then Some v else dget d k'.
Proof.
  induction d as [|[x y] d IH]; cbn; [done|]. destruct (String.eqb_spec x k) as [->|Hne]; cbn.
  - by destruct (String.eqb k k').
  - rewrite IH. destruct (String.eqb_spec x k') as [->|]; [|done]. by rewrite (proj2 (String.eqb_neq k k')).
Qed.
Lemma keys_assign d k v : (Service.assign d k v).*1 = if str_in k d.*1 then d.*1 else d.*1 ++ [k].
Proof.
  induction d as [|[x y] d IH]; cbn; [done|]. destruct (String.eqb_spec x k) as [->|Hne].
  - cbn. by rewrite String.eqb_refl.
  - cbn. rewrite IH. rewrite (proj2 (String.eqb_neq k x)) by congruence. cbn. unfold str_in. by destruct (existsb _ d.*1).
Qed.

Lemma distinct_assign d k s : distinct_keys (VDict d) -> distinct_keys (VDict (Service.assign d k (VStr s))).
Proof.
  intros [Hn Hd]. split.
  - rewrite keys_assign. destruct (str_in k d.*1) eqn:E; [done|]. apply str_in_false in E. apply NoDup_app. split; [done|].
    split; [|apply NoDup_singleton]. intros x Hx ->%list_elem_of_singleton. done.
  - clear Hn. induction d as [|[x y] d IH]; cbn in *; [by repeat constructor|]. apply Forall_cons in Hd as [H1 H2].
    destruct (String.eqb x k); cbn; constructor; try done. by apply IH.
Qed.

(** The key service, and the random source: a data key opens what it was made
    for, and nothing comes empty. *)
Definition honest (o o' : oracle (Q := question)) (self : ManagedOAuthCrypto) : Prop :=
  (forall context caller i k, o _ (GenerateDataKey (crypto_key_id self) context caller) i = Ok k ->
     ciphertext_blob k <> "" /\ key_id k <> "" /\ key_version k <> ""
     /\ forall j, o' _ (DecryptDataKey (ciphertext_blob k) (VStr (key_id k)) context caller) j = Ok (plaintext k))
  /\ forall i, o _ Nonce i <> "".
Definition envelope_context (s : vault) (id : string) : pyval :=
  match managed_in s id with Some r => get (as_mapping (get r "envelope")) "encryption_context" | None => VNone end.

Lemma run_bind {A C} (o : oracle (Q := question)) n (p : vprog A) (f : A -> vprog C) s :
  run_from o n (prog_bind p f) s =
  match run_from o n p s with
  | (s', Ok a, n') => run_from o n' (f a) s'
  | (s', Err e, n') => (s', Err e, n')
  end.
Proof.
  revert n s. induction p as [[a|e]|D m k IH|D q k IH]; intros n s; cbn; try done.
  by destruct (m s) as [s' r].
Qed.

(** *** What is sealed opens *)

Context {laws : SecretBoxLaws B}.
Lemma decode_encode s : decode_field (encode_field s) = Ok s.
Proof. unfold decode_field, encode_field. by rewrite ascii_b64encode, b64decode_strict_encode. Qed.
Lemma truthy_encode s : s <> "" -> truthy (encode_field s) = true.
Proof. apply b64encode_nonempty. Qed.
Lemma truthy_VStr s : s <> "" -> truthy (VStr s) = true.
Proof. by destruct s. Qed.
Lemma valid_envelope ctx ct n k :
  truthy (VDict ctx) = true -> ct <> "" -> n <> "" -> ciphertext_blob k <> "" -> key_id k <> "" -> key_version k <> "" ->
  validate_managed_oauth_envelope (VDict (sealed (VDict ctx) ct n k)) = Ok tt.
Proof.
  intros Hctx Hct Hn Hb Hk Hv. unfold validate_managed_oauth_envelope, sealed.
  cbn -[encode_field decode_field check_field truthy].
  rewrite Hctx, !truthy_encode, !truthy_VStr by done. cbn -[encode_field check_field]. unfold check_field.
  by rewrite !decode_encode.
Qed.
Lemma open_sealed (self : ManagedOAuthCrypto) (o : oracle (Q := question)) j ctx n k m s :
  truthy (VDict ctx) = true -> distinct_keys (VDict ctx) -> n <> "" ->
  ciphertext_blob k <> "" -> key_id k <> "" -> key_version k <> "" ->
  (forall i, o _ (DecryptDataKey (ciphertext_blob k) (VStr (key_id k)) (VDict ctx) (broker_identity self)) i = Ok (plaintext k)) ->
  run_from o j (open_envelope self (VDict (sealed (VDict ctx) (box_encrypt (plaintext k) n m) n k)) (VDict ctx) (broker_identity self)) s
  = (s, Ok m, S j).
Proof.
  intros Hctx Hd Hn Hb Hk Hv Ho. unfold open_envelope. rewrite String.eqb_refl.
  rewrite valid_envelope by (try done; apply box_nonempty).
  change (get (as_mapping (VDict (sealed ?c ?e ?x ?k))) "encryption_context") with c.
  rewrite py_eqb_refl by done. cbn [ensure prog_bind of_result give as_mapping].
  change (get (sealed ?c ?e ?x ?k) "wrapped_data_key") with (encode_field (ciphertext_blob k)).
  change (get (sealed ?c ?e ?x ?k) "kms_key_id") with (VStr (key_id k)).
  change (get (sealed ?c ?e ?x ?k) "ciphertext") with (encode_field e).
  change (get (sealed ?c ?e ?x ?k) "nonce") with (encode_field x).
  rewrite !decode_encode. cbn [prog_bind ask run_from]. rewrite Ho, box_round_trip. done.
Qed.
Lemma swap_stores id n e scopes s s1 p :
  swap_payload id n e scopes s = (s1, Ok (Some p)) ->
  exists row provider l, managed_in s1 id = Some ([("custody_mode", VStr MANAGED); ("provider", provider); ("granted_scopes", VList l);
    ("status", VStr "active"); ("credential_version", VInt (n + 1)); ("envelope", VDict e)] ++ row).
Proof.
  unfold swap_payload, _managed_oauth_payload. destruct (credentials s !! id) as [c|] eqn:Ec; [|done].
  destruct (String.eqb (credential_type c) MANAGED) eqn:Et; [|done]. cbn [negb].
  destruct (read_column _) as [| | | | |d]; try (repeat case_match; done).
  destruct (val_is _ _); [|done]. destruct (py_int _) as [v|]; [|done]. destruct (Z.eqb v n); [|done]. cbn [negb].
  destruct (dget d "provider") as [pr|]; [|done]. destruct (py_sorted_set scopes) as [l|]; [|done]. cbn.
  intros [= <- <-]. unfold managed_in. cbn. rewrite lookup_insert_eq. cbn. unfold managed. cbn. rewrite Et. cbn.
  eexists _, pr, l. reflexivity.
Qed.
Lemma run_seal (self : ManagedOAuthCrypto) (o : oracle (Q := question)) d x w s s' e n :
  run_from o 0 (seal_rotation_document self d x w) s = (s', Ok e, n) ->
  w = broker_identity self /\ s' = s /\ exists k, o _ (GenerateDataKey (crypto_key_id self) x w) 0%nat = Ok k
    /\ e = sealed x (box_encrypt (plaintext k) (o _ Nonce 1%nat) (json_text (VDict d))) (o _ Nonce 1%nat) k.
Proof.
  unfold seal_rotation_document, _seal, ensure. destruct (String.eqb_spec w (broker_identity self)); [|done]. cbn.
  destruct (o _ (GenerateDataKey (crypto_key_id self) x w) 0%nat) as [k|[]] eqn:Ek; try done. cbn.
  destruct (truthy (plaintext k)); [|done]. cbn. intros [= <- <- _]. split; [done|]. split; [done|]. by exists k.
Qed.
Lemma swap_document_ok (self : ManagedOAuthCrypto) (o : oracle (Q := question)) id n document service s s1 :
  run o (Service.compare_and_swap_rotation_document (Some self) id n document service) s = (s1, Ok true) ->
  exists r ctx k scopes p, managed_in s id = Some r
    /\ dget (as_mapping (get r "envelope")) "encryption_context" = Some ctx
    /\ service = broker_identity self
    /\ let context := VDict (Service.assign (as_mapping ctx) "credential_version" (VStr (pretty (n + 1)))) in
       o _ (GenerateDataKey (crypto_key_id self) context service) 0%nat = Ok k
       /\ swap_payload id n (sealed context (box_encrypt (plaintext k) (o _ Nonce 1%nat) (json_text (VDict document)))
                            (o _ Nonce 1%nat) k) scopes s = (s1, Ok (Some p)).
Proof.
  unfold run, Service.compare_and_swap_rotation_document, Service.configured. cbn [prog_bind give].
  unfold get_managed_oauth_credential. cbn [prog_bind atom run_from].
  destruct (managed_in s id) as [r|] eqn:Er; [|done]. destruct (val_is (get r "status") "active"); [|done]. cbn [negb].
  unfold item. destruct (dget (as_mapping (get r "envelope")) "encryption_context") as [ctx|] eqn:Ex; [|done]. cbn [prog_bind give].
  set (context := VDict _). rewrite run_bind.
  destruct (run_from o 0 (seal_rotation_document self document context service) s) as [[s0 [e|err]] m] eqn:Eseal; [|done].
  apply run_seal in Eseal as (-> & -> & k & Ek & ->). unfold compare_and_swap_managed_oauth_envelope. cbn [prog_bind atom run_from].
  destruct (swap_payload _ _ _ _ s) as [s2 [[p|]|err]] eqn:Es; try done. intros [= <-].
  by exists r, ctx, k, (get_or document "granted_scopes" (get_or r "granted_scopes" (VList []))), p.
Qed.

(** C17. A rotated document is what is read back.  After the broker has swapped
    in a document at version [n], reading the credential gives version [n + 1],
    active, and that very document (its keys in the order JSON writes them), as
    long as the key service opens what it sealed. *)
Theorem rotation_is_read_back (self : ManagedOAuthCrypto) (o o' : oracle (Q := question)) id n document service s s1 :
  honest o o' self ->
  texts (norm (VDict document)) -> distinct_keys (norm (VDict document)) ->
  distinct_keys (VDict (as_mapping (envelope_context s id))) ->
  run o (Service.compare_and_swap_rotation_document (Some self) id n document service) s = (s1, Ok true) ->
  run o' (Service.read_rotation_document (Some self) id service) s1
  = (s1, Ok (n + 1, VStr "active", as_mapping (norm (VDict document)))).
Proof.
  intros [Hk Hnonce] Ht Hdoc Hctx Hrun.
  apply swap_document_ok in Hrun as (r & ctx & k & scopes & p & Hr & Hx & -> & Hgen & Hswap). cbv zeta in *.
  set (context := Service.assign _ _ _) in *.
  assert (distinct_keys (VDict context)) as Hdc.
  { apply distinct_assign. unfold envelope_context in Hctx. rewrite Hr in Hctx. unfold get at 1 in Hctx. by rewrite Hx in Hctx. }
  assert (truthy (VDict context) = true) as Htc.
  { subst context. destruct (as_mapping ctx) as [|[a b] l]; [done|]. cbn. by destruct (String.eqb _ _). }
  destruct (Hk _ _ _ _ Hgen) as (B1 & B2 & B3 & Hdec).
  destruct (swap_stores _ _ _ _ _ _ _ Hswap) as (row & provider & l & Hm).
  unfold run, Service.read_rotation_document, Service.configured, Service.found. cbn [prog_bind give].
  unfold get_managed_oauth_credential. cbn [prog_bind atom run_from]. rewrite Hm. cbn [prog_bind give].
  rewrite run_bind. unfold Service.open_record.
  match goal with |- context [sealed (VDict context) ?c ?x ?k0] =>
    change (get _ "envelope") with (VDict (sealed (VDict context) c x k0)) end.
  unfold item. cbn [as_mapping].
  change (dget (sealed ?c ?e ?x ?k0) "encryption_context") with (Some c). cbn [prog_bind give].
  rewrite open_sealed by done. rewrite loads_json_text by done. unfold norm at 1. cbn [prog_bind python give run_from fst].
  done.
Qed.
End vault.

(** ** Concrete runs *)

Definition toy_box : SecretBox := {|
  box_encrypt := fun _ _ m => String (chr 120) m;
  box_decrypt := fun _ c _ => match c with String _ m => Some m | "" => None end |}.
Lemma toy_box_laws : SecretBoxLaws toy_box.
Proof. by constructor. Qed.
Definition toy_key : GeneratedDataKey := {| plaintext := "key"; ciphertext_blob := "blob"; key_id := "kid"; key_version := "v1" |}.
Definition toy_oracle : oracle (Q := question) := fun _ q n =>
  match q with
  | Now | Clock => 5
  | Fresh => pretty (N.of_nat n)
  | Nonce => "nonce"
  | GenerateDataKey _ _ _ | ReEncrypt _ _ _ _ _ => Ok toy_key
  | DecryptDataKey _ _ _ _ => Ok "key"
  | Audit _ _ _ _ _ => tt
  | AuditQuery _ => None
  | Refresh t => Ok {| access_token := "a"; refresh_token := Some (t +:+ "+"); expires_in := 60; token_type := "bot";
                       provider_metadata := []; granted_scopes := ["s"] |}
  end.
Definition toy_crypto : ManagedOAuthCrypto :=
  {| crypto_key_id := "k"; ingestion_identities := ["in"]; broker_identity := "broker" |}.

Definition toy_secret : dict := [("user_principal_id", VStr "ana"); ("name", VStr "bank"); ("credential_type", VStr "password");
  ("encrypted_data", VStr "ciphertext"); ("nonce", VStr "n")].
Definition toy_grant : dict := [("agent_principal_id", VStr "bot"); ("scope", VStr "read"); ("granted_by", VStr "ana")].
Definition toy_request : dict := [("agent_principal_id", VStr "bot")].
Definition toy_calls : list call := [
  StoreCredential toy_secret (Some "ana"); GrantAccess "0" toy_grant (Some "ana"); RequestAccess "0" toy_request (Some "bot")].
Definition toy_schedule : list (move vault vault_error question) :=
  [Launch (exec (B := toy_box) (Some toy_crypto) (StoreCredential toy_secret (Some "ana")))] ++ replicate 5 (Turn 0)
  ++ [Launch (exec (B := toy_box) (Some toy_crypto) (GrantAccess "0" toy_grant (Some "ana")))] ++ replicate 9 (Turn 1)
  ++ [Launch (exec (B := toy_box) (Some toy_crypto) (RequestAccess "0" toy_request (Some "bot")))] ++ replicate 3 (Turn 2).
Definition toy_end : system vault vault_error question := fold_left (play toy_oracle) toy_schedule start.

Example toy_released : released (log toy_end) = [("bot", "0", [("scope", VStr "read")])].
Proof. by vm_compute. Qed.

(** A vault with one managed credential of ana's. *)
Definition toy_context : dict := [("provider", VStr "slack"); ("credential_version", VStr "1")].
Definition toy_document : dict := [("access_token", VStr "old"); ("refresh_token", VStr "r0")].
Definition toy_body : dict := [("user_principal_id", VStr "ana"); ("provider", VStr "slack"); ("granted_scopes", VList [VStr "s"]);
  ("envelope", VDict (sealed (VDict toy_context) (String (chr 120) (json_text (VDict toy_document))) "nonce" toy_key))].
Definition toy_vault : vault := (run toy_oracle (Service.store_managed_oauth toy_body (Some "ana")) empty_vault).1.
Definition toy_next : dict := [("access_token", VStr "new"); ("refresh_token", VStr "r1")].

Lemma rotation_is_read_back_witness :
  exists s1, run toy_oracle (Service.compare_and_swap_rotation_document (B := toy_box) (Some toy_crypto) "0" 1 toy_next "broker") toy_vault
             = (s1, Ok true)
  /\ run toy_oracle (Service.read_rotation_document (B := toy_box) (Some toy_crypto) "0" "broker") s1 = (s1, Ok (2, VStr "active", toy_next)).
Proof.
  destruct (run toy_oracle (Service.compare_and_swap_rotation_document (B := toy_box) (Some toy_crypto) "0" 1 toy_next "broker") toy_vault)
    as [s1 r] eqn:E.
  assert (r = Ok true) as -> by (change r with (s1, r).2; rewrite <- E; vm_compute; reflexivity).
  exists s1. split; [reflexivity|].
  apply (rotation_is_read_back (B := toy_box) (laws := toy_box_laws) toy_crypto toy_oracle toy_oracle "0" 1 toy_next "broker" toy_vault s1).
  - split; [|intros i; discriminate]. intros context caller i k [= <-]. repeat split; discriminate.
  - repeat constructor; apply text_ascii; reflexivity.
  - vm_compute. repeat constructor; set_solver.
  - vm_compute. repeat constructor; set_solver.
  - exact E.
Defined.

(** A re-wrap that has read the row before a revocation writes it back after:
    the revocation was answered and logged, and the credential is active. *)
Definition toy_race : system vault vault_error question :=
  fold_left (play toy_oracle)
    ([Launch (exec (B := toy_box) (Some toy_crypto) (Rewrap "0" "k2" "broker"))] ++ replicate 3 (Turn 0)
     ++ [Launch (exec (B := toy_box) (Some toy_crypto) (BeginRevocation "0" "ana"))] ++ replicate 4 (Turn 1) ++ replicate 2 (Turn 0))
    {| store_of := toy_vault; pool := []; log := [] |}.
Definition status_of (s : vault) (id : string) : pyval := match managed_in s id with Some r => get r "status" | None => VNone end.
Definition activities (g : list (event (Q := question))) : list string :=
  omap (fun e => match e with existT _ (Audit _ a _ _ _, _) => Some a | _ => None end) g.
Example rewrap_undoes_revocation :
  activities (log toy_race) = ["credential.managed_oauth.pending_revocation"; "credential.managed_oauth.rewrap"]
  /\ status_of (store_of toy_race) "0" = VStr "active".
Proof. by vm_compute. Qed.
