(* ===== verification/OAuth.v ===== *)
(** * Provider connections

    src/services/oauth/repository.py, [OAuthRepository]: one-use OAuth
    transactions, the connections they lead to, personal authority and its
    delegations, the switches of the control plane, and voice routes.  Every
    method is one locked step over SQLite; the two that read a row back after
    writing it are two. *)

From stdpp Require Import gmap.
From S2P Require Import Prelude PyValue Json Sha256 Uuid.
Local Open Scope Z_scope.

(** ** The tables *)

Record transaction_row := {
  t_id : string;
  t_session : string;              (* a hash *)
  t_principal : string;
  t_provider : string;
  t_scopes : list string;
  t_capabilities : list string;
  t_state : string;                (* a hash *)
  t_verifier : string;
  t_return_to : string;
  t_created_at : Z;
  t_expires_at : Z;
  t_consumed_at : option Z;
  t_tenant : option string;
  t_app : option string;
  t_team : option string;
  t_target : option string;
}.
(** [oauth_connections], by principal and provider. *)
Record connection_row := {
  c_credential : string;
  c_scopes : list string;
  c_capabilities : list string;
  c_status : string;
  c_updated_at : Z;
}.
(** [integration_connections]. *)
Record installation := {
  i_id : string;
  i_tenant : string;
  i_principal : string;
  i_provider : string;
  i_app : string;
  i_team : option string;
  i_team_name : option string;
  i_enterprise : option string;
  i_bot_user : option string;
  i_credential : option string;
  i_version : Z;
  i_scopes : list string;
  i_capabilities : list string;
  i_status : string;
  i_created_at : Z;
  i_updated_at : Z;
  i_disconnected_at : option Z;
}.
Record profile := {
  p_id : string;
  p_tenant : string;
  p_connection : string;
  p_kind : string;
  p_subject : option string;
  p_owner : string;
  p_credential : string;
  p_version : Z;
  p_scopes : list string;
  p_status : string;
  p_enabled : bool;
  p_created_at : Z;
  p_updated_at : Z;
  p_revoked_at : option Z;
}.
Record delegation := {
  d_id : string;
  d_tenant : string;
  d_profile : string;
  d_audience : string;
  d_family : string;
  d_purpose : string;
  d_granted_by : string;
  d_expires_at : Z;
  d_created_at : Z;
  d_revoked_at : option Z;
}.
Record legacy_map := {
  m_connection : option string;
  m_status : string;
  m_checksum : string;
  m_error : option string;
  m_created_at : Z;
  m_updated_at : Z;
}.
Record stop_row := {
  stopped : bool;
  stop_reason : option string;
  stopped_at : option Z;
  stopped_by : option string;
  resumed_at : option Z;
  resumed_by : option string;
  s_updated_at : Z;
}.
(** A family or a sender of the control plane. *)
Record switch_row := { w_family : string; w_enabled : bool; w_updated_at : Z; w_updated_by : option string }.
Record voice_route := {
  v_id : string;
  v_department : string;
  v_language : string;
  v_destination : string;
  v_timezone : string;
  v_start : Z;
  v_end : Z;
  v_ring : Z;
  v_budget : Z;
  v_priority : Z;
}.

Record oauth := {
  transactions : list transaction_row;
  connections : gmap (string * string) connection_row;
  installations : list installation;
  profiles : list profile;
  delegations : list delegation;
  legacy : gmap string legacy_map;
  stops : gmap string stop_row;
  families : gmap (string * string) switch_row;
  senders : gmap (string * string) switch_row;
  routes : gmap string (list voice_route);
}.
Definition no_oauth : oauth := {|
  transactions := []; connections := ∅; installations := []; profiles := []; delegations := []; legacy := ∅;
  stops := ∅; families := ∅; senders := ∅; routes := ∅ |}.

Inductive oauth_error : Type :=
| ConnectionConflict (why : string)
| BadArgument (why : string)        (* ValueError *)
| IntegrityError.
Definition om (A : Type) : Type := stm oauth oauth_error A.

Definition with_transactions (s : oauth) (l : list transaction_row) : oauth := {|
  transactions := l; connections := connections s; installations := installations s; profiles := profiles s;
  delegations := delegations s; legacy := legacy s; stops := stops s; families := families s; senders := senders s;
  routes := routes s |}.
Definition with_connections (s : oauth) (m : gmap (string * string) connection_row) : oauth := {|
  transactions := transactions s; connections := m; installations := installations s; profiles := profiles s;
  delegations := delegations s; legacy := legacy s; stops := stops s; families := families s; senders := senders s;
  routes := routes s |}.
Definition with_installations (s : oauth) (l : list installation) : oauth := {|
  transactions := transactions s; connections := connections s; installations := l; profiles := profiles s;
  delegations := delegations s; legacy := legacy s; stops := stops s; families := families s; senders := senders s;
  routes := routes s |}.
Definition with_profiles (s : oauth) (l : list profile) : oauth := {|
  transactions := transactions s; connections := connections s; installations := installations s; profiles := l;
  delegations := delegations s; legacy := legacy s; stops := stops s; families := families s; senders := senders s;
  routes := routes s |}.
Definition with_delegations (s : oauth) (l : list delegation) : oauth := {|
  transactions := transactions s; connections := connections s; installations := installations s; profiles := profiles s;
  delegations := l; legacy := legacy s; stops := stops s; families := families s; senders := senders s;
  routes := routes s |}.
Definition with_legacy (s : oauth) (m : gmap string legacy_map) : oauth := {|
  transactions := transactions s; connections := connections s; installations := installations s; profiles := profiles s;
  delegations := delegations s; legacy := m; stops := stops s; families := families s; senders := senders s;
  routes := routes s |}.
Definition with_switches (s : oauth) (st : gmap string stop_row) (f sn : gmap (string * string) switch_row) : oauth := {|
  transactions := transactions s; connections := connections s; installations := installations s; profiles := profiles s;
  delegations := delegations s; legacy := legacy s; stops := st; families := f; senders := sn; routes := routes s |}.
Definition with_routes (s : oauth) (m : gmap string (list voice_route)) : oauth := {|
  transactions := transactions s; connections := connections s; installations := installations s; profiles := profiles s;
  delegations := delegations s; legacy := legacy s; stops := stops s; families := families s; senders := senders s;
  routes := m |}.

Definition hash_value (value : string) : string := sha256 value.
(** [_dumps] of a list of texts, read back. *)
Definition _dumps (l : list string) : list string := str_sorted_set l.
Definition present (o : option string) : bool := match o with Some s => truthy s | None => false end.

(** ** OAuth transactions *)

Definition TRANSACTION_TTL_SECONDS : Z := 600.
Definition new_transaction (id session_id principal provider : string) (scopes capabilities : list string)
    (state verifier return_to : string) (now : Z) (tenant app team target : option string) : transaction_row := {|
  t_id := id; t_session := hash_value session_id; t_principal := principal; t_provider := provider;
  t_scopes := _dumps scopes; t_capabilities := _dumps capabilities; t_state := hash_value state;
  t_verifier := verifier; t_return_to := return_to; t_created_at := now; t_expires_at := now + TRANSACTION_TTL_SECONDS;
  t_consumed_at := None; t_tenant := tenant; t_app := app; t_team := team; t_target := target |}.
(** Expired transactions go first. *)
Definition create_transaction (r : transaction_row) : om unit := fun s =>
  let kept := List.filter (fun x => t_created_at r <=? t_expires_at x) (transactions s) in
  if existsb (fun x => String.eqb (t_id x) (t_id r) || String.eqb (t_state x) (t_state r)) kept
  then (with_transactions s kept, Err IntegrityError)
  else (with_transactions s (kept ++ [r]), Ok tt).
Definition find_by_state (state : string) (s : oauth) : option transaction_row :=
  if truthy state then List.find (fun x => String.eqb (t_state x) (hash_value state)) (transactions s) else None.
Definition consumable (state session_id principal : string) (now : Z) (x : transaction_row) : bool :=
  String.eqb (t_state x) (hash_value state) && String.eqb (t_session x) (hash_value session_id)
  && String.eqb (t_principal x) principal && bool_decide (t_consumed_at x = None) && (now <=? t_expires_at x).
Definition set_consumed (x : transaction_row) (now : Z) (verifier : string) : transaction_row := {|
  t_id := t_id x; t_session := t_session x; t_principal := t_principal x; t_provider := t_provider x;
  t_scopes := t_scopes x; t_capabilities := t_capabilities x; t_state := t_state x; t_verifier := verifier;
  t_return_to := t_return_to x; t_created_at := t_created_at x; t_expires_at := t_expires_at x;
  t_consumed_at := Some now; t_tenant := t_tenant x; t_app := t_app x; t_team := t_team x; t_target := t_target x |}.
(** The row as [returning *] has it: the verifier is erased after.  The caller
    receives a row only when every condition of the update held. *)
Definition consume_transaction (state session_id principal : option string) (now : Z) : om (option transaction_row) := fun s =>
  match state, session_id, principal with
  | Some st, Some sid, Some p =>
      if negb (truthy st && truthy sid && truthy p) then (s, Ok None) else
      (with_transactions s (map (fun x => if consumable st sid p now x then set_consumed x now "" else x) (transactions s)),
       Ok (option_map (fun x => set_consumed x now (t_verifier x))
             (List.find (consumable st sid p now) (transactions s))))
  | _, _, _ => (s, Ok None)
  end.
Definition count_transactions (s : oauth) : nat := length (transactions s).

(** ** Google connections *)

Definition get_connection (principal provider : string) (s : oauth) : option connection_row := connections s !! (principal, provider).
Definition upsert_connection (principal provider credential : string) (scopes capabilities : list string) (now : Z) : om unit := fun s =>
  (with_connections s (<[(principal, provider) := {| c_credential := credential; c_scopes := _dumps scopes;
      c_capabilities := _dumps capabilities; c_status := "connected"; c_updated_at := now |}]> (connections s)), Ok tt).
Definition set_status (c : connection_row) (st : string) (now : Z) : connection_row := {|
  c_credential := c_credential c; c_scopes := c_scopes c; c_capabilities := c_capabilities c; c_status := st;
  c_updated_at := now |}.
Definition mark_pending_revocation (principal provider : string) (now : Z) : om bool := fun s =>
  match connections s !! (principal, provider) with
  | Some c => (with_connections s (<[(principal, provider) := set_status c "pending_revocation" now]> (connections s)), Ok true)
  | None => (s, Ok false)
  end.
Definition delete_connection (principal provider credential : string) : om bool := fun s =>
  match connections s !! (principal, provider) with
  | Some c => if String.eqb (c_credential c) credential
              then (with_connections s (delete (principal, provider) (connections s)), Ok true) else (s, Ok false)
  | None => (s, Ok false)
  end.

(** ** Installations *)

Definition _stable_connection_id (provider app : string) (team : option string) (principal : string) : string :=
  let team := default "" team in
  "conn:" +:+ uuid5 ("tessera:" +:+ str_join ":" [provider; app; team; if truthy team then "" else principal]).
Definition same_workspace (app : string) (team : option string) (x : installation) : bool :=
  String.eqb (i_provider x) "slack" && String.eqb (i_app x) app
  && match team, i_team x with Some a, Some b => String.eqb a b | _, _ => false end.
(** The two unique indexes; [id] is the row itself. *)
Definition clashes (id tenant principal provider app : string) (team : option string) (x : installation) : bool :=
  negb (String.eqb (i_id x) id)
  && ((String.eqb provider "slack" && same_workspace app team x)
      || (String.eqb provider "google" && String.eqb (i_provider x) "google" && String.eqb (i_tenant x) tenant
          && String.eqb (i_principal x) principal && String.eqb (i_app x) app)).
Definition refresh (x new : installation) : installation := {|
  i_id := i_id x; i_tenant := i_tenant x; i_principal := i_principal new; i_provider := i_provider x; i_app := i_app x;
  i_team := i_team x; i_team_name := i_team_name new; i_enterprise := i_enterprise new; i_bot_user := i_bot_user new;
  i_credential := i_credential new; i_version := i_version new; i_scopes := i_scopes new;
  i_capabilities := i_capabilities new; i_status := "connected"; i_created_at := i_created_at x;
  i_updated_at := i_updated_at new; i_disconnected_at := None |}.
(** [insert ... on conflict(connection_id) do update]: the row there is looked
    for first, and what the update makes of it is held to the indexes too. *)
Definition insert_installation (new : installation) : om unit := fun s =>
  match List.find (fun x => String.eqb (i_id x) (i_id new)) (installations s) with
  | Some x =>
      if existsb (clashes (i_id x) (i_tenant x) (i_principal new) (i_provider x) (i_app x) (i_team x)) (installations s)
      then (s, Err (ConnectionConflict "provider installation is already connected"))
      else (with_installations s (map (fun y => if String.eqb (i_id y) (i_id x) then refresh y new else y) (installations s)), Ok tt)
  | None =>
      if existsb (clashes (i_id new) (i_tenant new) (i_principal new) (i_provider new) (i_app new) (i_team new)) (installations s)
      then (s, Err (ConnectionConflict "provider installation is already connected"))
      else (with_installations s (installations s ++ [new]), Ok tt)
  end.
Record request := {
  q_tenant : option string;
  q_principal : string;
  q_provider : string;
  q_app : string;
  q_credential : option string;
  q_scopes : list string;
  q_capabilities : list string;
  q_connection : option string;
  q_team : option string;
  q_team_name : option string;
  q_enterprise : option string;
  q_bot_user : option string;
  q_version : Z;
}.
Definition new_installation (q : request) (id tenant : string) (now : Z) : installation := {|
  i_id := id; i_tenant := tenant; i_principal := q_principal q; i_provider := q_provider q; i_app := q_app q;
  i_team := q_team q; i_team_name := q_team_name q; i_enterprise := q_enterprise q; i_bot_user := q_bot_user q;
  i_credential := q_credential q; i_version := q_version q; i_scopes := _dumps (q_scopes q);
  i_capabilities := _dumps (q_capabilities q); i_status := "connected"; i_created_at := now; i_updated_at := now;
  i_disconnected_at := None |}.
Definition resolved_id (q : request) : string :=
  match q_connection q with
  | Some c => if truthy c then c else _stable_connection_id (q_provider q) (q_app q) (q_team q) (q_principal q)
  | None => _stable_connection_id (q_provider q) (q_app q) (q_team q) (q_principal q)
  end.
(** The identifier the row is under, for the read that follows. *)
Definition upsert_installation (q : request) (now : Z) : om string := transaction (fun s =>
  match q_tenant q with
  | None => (s, Err (BadArgument "tenant_id is required"))
  | Some tenant =>
      if negb (truthy tenant) then (s, Err (BadArgument "tenant_id is required")) else
      if negb (truthy (q_principal q) && truthy (q_provider q) && truthy (q_app q))
      then (s, Err (BadArgument "principal_id, provider and app_id are required")) else
      if String.eqb (q_provider q) "slack" && negb (present (q_team q))
      then (s, Err (BadArgument "team_id is required for Slack installations")) else
      let id := resolved_id q in
      match List.find (fun x => String.eqb (i_id x) id
                                || String.eqb (q_provider q) "slack" && same_workspace (q_app q) (q_team q) x) (installations s) with
      | Some x =>
          if negb (String.eqb (i_tenant x) tenant)
          then (s, Err (ConnectionConflict "provider installation belongs to another tenant")) else
          let (s', r) := insert_installation (new_installation q (i_id x) tenant now) s in
          (s', match r with Ok _ => Ok (i_id x) | Err e => Err e end)
      | None =>
          let (s', r) := insert_installation (new_installation q id tenant now) s in
          (s', match r with Ok _ => Ok id | Err e => Err e end)
      end
  end).
Definition get_installation (id : string) (tenant : option string) (s : oauth) : option installation :=
  match tenant with
  | Some t => if truthy t then List.find (fun x => String.eqb (i_id x) id && String.eqb (i_tenant x) t) (installations s) else None
  | None => None
  end.
Definition installation_order (a b : installation) : Prop :=
  (i_provider a <> i_provider b /\ String.le (i_provider a) (i_provider b))
  \/ i_provider a = i_provider b
     /\ ((default "" (i_team a) <> default "" (i_team b) /\ String.le (default "" (i_team a)) (default "" (i_team b)))
         \/ default "" (i_team a) = default "" (i_team b) /\ String.le (i_id a) (i_id b)).
#[export] Instance installation_order_dec : RelDecision installation_order.
Proof. intros a b. unfold installation_order. apply _. Defined.
Definition wanted (provider : option string) (x : installation) : bool :=
  match provider with Some p => if truthy p then String.eqb (i_provider x) p else true | None => true end.
Definition list_installations (tenant principal : string) (provider : option string) (s : oauth) : list installation :=
  if negb (truthy tenant && truthy principal) then [] else
  merge_sort installation_order
    (List.filter (fun x => String.eqb (i_tenant x) tenant && String.eqb (i_principal x) principal && wanted provider x) (installations s)).
Definition list_tenant_installations (tenant : string) (provider : option string) (usable_only : bool) (s : oauth) : list installation :=
  if negb (truthy tenant) then [] else
  merge_sort installation_order
    (List.filter (fun x => String.eqb (i_tenant x) tenant && wanted provider x
                           && (if usable_only then String.eqb (i_status x) "connected" else true)) (installations s)).
Definition is_installation (id tenant : string) (x : installation) : bool := String.eqb (i_id x) id && String.eqb (i_tenant x) tenant.
Definition update_installations (p : installation -> bool) (f : installation -> installation) : om bool := fun s =>
  (with_installations s (map (fun x => if p x then f x else x) (installations s)),
   Ok (Nat.eqb (length (List.filter p (installations s))) 1)).
Definition tombstone (now : Z) (x : installation) : installation := {|
  i_id := i_id x; i_tenant := i_tenant x; i_principal := i_principal x; i_provider := i_provider x; i_app := i_app x;
  i_team := i_team x; i_team_name := i_team_name x; i_enterprise := i_enterprise x; i_bot_user := i_bot_user x;
  i_credential := None; i_version := i_version x; i_scopes := []; i_capabilities := []; i_status := "disconnected";
  i_created_at := i_created_at x; i_updated_at := now; i_disconnected_at := Some now |}.
Definition tombstone_installation (id tenant : string) (now : Z) : om bool :=
  update_installations (is_installation id tenant) (tombstone now).
Definition STATUSES : list string := ["connected"; "degraded"; "refreshing"; "rotation_uncertain"; "disconnect_pending";
  "disconnected"; "migration_blocked"].
Definition set_installation (st : string) (now : Z) (x : installation) : installation := {|
  i_id := i_id x; i_tenant := i_tenant x; i_principal := i_principal x; i_provider := i_provider x; i_app := i_app x;
  i_team := i_team x; i_team_name := i_team_name x; i_enterprise := i_enterprise x; i_bot_user := i_bot_user x;
  i_credential := i_credential x; i_version := i_version x; i_scopes := i_scopes x; i_capabilities := i_capabilities x;
  i_status := st; i_created_at := i_created_at x; i_updated_at := now; i_disconnected_at := i_disconnected_at x |}.
Definition mark_installation_status (id tenant st : string) (now : Z) (expected : option string) : om bool := fun s =>
  if negb (str_in st STATUSES) then (s, Err (BadArgument "unsupported connection status")) else
  update_installations (fun x => is_installation id tenant x
    && match expected with Some e => if truthy e then String.eqb (i_status x) e else true | None => true end)
    (set_installation st now) s.

(** ** Personal authority *)

Definition PROFILE_KINDS : list string := ["bot"; "user"; "enterprise_admin"].
Definition same_profile (tenant connection kind owner : string) (x : profile) : bool :=
  String.eqb (p_tenant x) tenant && String.eqb (p_connection x) connection && String.eqb (p_kind x) kind
  && String.eqb (p_owner x) owner.
(** On a conflict [enabled] keeps what it was. *)
Definition refresh_profile (x new : profile) : profile := {|
  p_id := p_id x; p_tenant := p_tenant x; p_connection := p_connection x; p_kind := p_kind x; p_subject := p_subject new;
  p_owner := p_owner x; p_credential := p_credential new; p_version := p_version new; p_scopes := p_scopes new;
  p_status := "active"; p_enabled := p_enabled x; p_created_at := p_created_at x; p_updated_at := p_updated_at new;
  p_revoked_at := None |}.
Definition get_authority_profile (tenant connection kind owner : string) (s : oauth) : option profile :=
  List.find (same_profile tenant connection kind owner) (profiles s).
(** [uuid_] is [uuid4().hex]. *)
Definition record_authority_profile (uuid_ tenant connection kind owner credential : string) (scopes : list string)
    (now : Z) (subject : option string) (version : Z) (enabled : bool) : om unit := fun s =>
  if negb (str_in kind PROFILE_KINDS) then (s, Err (BadArgument "unsupported authority profile kind")) else
  if negb (String.eqb kind "bot") && negb (present subject)
  then (s, Err (BadArgument "a personal authority profile needs its subject")) else
  if negb (truthy tenant && truthy connection && truthy owner && truthy credential)
  then (s, Err (BadArgument "authority profile binding is required")) else
  let new := {| p_id := "authority:" +:+ uuid_; p_tenant := tenant; p_connection := connection; p_kind := kind;
                p_subject := subject; p_owner := owner; p_credential := credential; p_version := version;
                p_scopes := str_sorted_set scopes; p_status := "active"; p_enabled := enabled; p_created_at := now;
                p_updated_at := now; p_revoked_at := None |} in
  match get_authority_profile tenant connection kind owner s with
  | Some _ => (with_profiles s (map (fun x => if same_profile tenant connection kind owner x then refresh_profile x new else x)
                                  (profiles s)), Ok tt)
  | None =>
      if existsb (fun x => String.eqb (p_id x) (p_id new) && String.eqb (p_tenant x) tenant) (profiles s)
      then (s, Err IntegrityError) else (with_profiles s (profiles s ++ [new]), Ok tt)
  end.
Definition profile_order (a b : profile) : Prop := String.le (p_kind a) (p_kind b).
#[export] Instance profile_order_dec : RelDecision profile_order.
Proof. intros a b. unfold profile_order. apply _. Defined.
Definition list_personal_authority (tenant connection principal : string) (s : oauth) : list profile :=
  merge_sort profile_order
    (List.filter (fun x => String.eqb (p_tenant x) tenant && String.eqb (p_connection x) connection
                           && String.eqb (p_owner x) principal && negb (String.eqb (p_kind x) "bot")
                           && String.eqb (p_status x) "active") (profiles s)).
Definition own_profile (tenant connection kind principal : string) (x : profile) : bool :=
  same_profile tenant connection kind principal x && String.eqb (p_status x) "active".
Definition update_profiles (p : profile -> bool) (f : profile -> profile) : om bool := fun s =>
  (with_profiles s (map (fun x => if p x then f x else x) (profiles s)), Ok (Nat.eqb (length (List.filter p (profiles s))) 1)).
Definition set_profile (x : profile) (st : string) (enabled : bool) (now : Z) (revoked : option Z) : profile := {|
  p_id := p_id x; p_tenant := p_tenant x; p_connection := p_connection x; p_kind := p_kind x; p_subject := p_subject x;
  p_owner := p_owner x; p_credential := p_credential x; p_version := p_version x; p_scopes := p_scopes x; p_status := st;
  p_enabled := enabled; p_created_at := p_created_at x; p_updated_at := now; p_revoked_at := revoked |}.
Definition revoke_authority_profile (tenant connection kind principal : string) (now : Z) : om bool :=
  update_profiles (own_profile tenant connection kind principal) (fun x => set_profile x "revoked" false now (Some now)).
Definition set_authority_profile_enabled (tenant connection kind principal : string) (enabled : bool) (now : Z) : om bool :=
  update_profiles (own_profile tenant connection kind principal)
    (fun x => set_profile x (p_status x) enabled now (p_revoked_at x)).

Definition same_delegation (tenant profile_ audience family : string) (x : delegation) : bool :=
  String.eqb (d_tenant x) tenant && String.eqb (d_profile x) profile_ && String.eqb (d_audience x) audience
  && String.eqb (d_family x) family.
Definition refresh_delegation (x new : delegation) : delegation := {|
  d_id := d_id x; d_tenant := d_tenant x; d_profile := d_profile x; d_audience := d_audience x; d_family := d_family x;
  d_purpose := d_purpose new; d_granted_by := d_granted_by new; d_expires_at := d_expires_at new;
  d_created_at := d_created_at x; d_revoked_at := None |}.
(** Whether the identifier returned is the row's depends on whether there was
    one. *)
Definition grant_authority_delegation (uuid_ tenant profile_ audience family purpose by_ : string) (expires now : Z)
    : om string := fun s =>
  if negb (truthy purpose && truthy family) then (s, Err (BadArgument "a delegation needs a purpose and a family")) else
  if expires <=? now then (s, Err (BadArgument "a delegation must expire in the future")) else
  let new := {| d_id := "delegation:" +:+ uuid_; d_tenant := tenant; d_profile := profile_; d_audience := audience;
                d_family := family; d_purpose := purpose; d_granted_by := by_; d_expires_at := expires;
                d_created_at := now; d_revoked_at := None |} in
  if existsb (same_delegation tenant profile_ audience family) (delegations s)
  then (with_delegations s (map (fun x => if same_delegation tenant profile_ audience family x then refresh_delegation x new else x)
                              (delegations s)), Ok (d_id new))
  else if existsb (fun x => String.eqb (d_id x) (d_id new) && String.eqb (d_tenant x) tenant) (delegations s)
  then (s, Err IntegrityError) else (with_delegations s (delegations s ++ [new]), Ok (d_id new)).
Definition _live_delegation (tenant profile_ audience family : string) (now : Z) (s : oauth) : option delegation :=
  List.find (fun x => same_delegation tenant profile_ audience family x && bool_decide (d_revoked_at x = None)
                      && (now <? d_expires_at x)) (delegations s).

Record verdict := { allowed : bool; v_reason : string; v_profile : option string; v_delegation : option string }.
Definition deny (why : string) : verdict := {| allowed := false; v_reason := why; v_profile := None; v_delegation := None |}.
Definition authorize_personal_authority (tenant connection kind requester family : string) (now : Z) (owner : option string)
    (s : oauth) : verdict :=
  let owner := match owner with Some o => if truthy o then o else requester | None => requester end in
  match get_authority_profile tenant connection kind owner s with
  | None => deny "authority_profile_absent"
  | Some p =>
      if negb (String.eqb (p_status p) "active") then deny ("authority_profile_" +:+ p_status p) else
      if negb (p_enabled p) then deny "authority_profile_disabled" else
      let allow why d := {| allowed := true; v_reason := why; v_profile := Some (p_id p); v_delegation := d |} in
      if String.eqb kind "bot" then allow "tenant_bot_authority" None else
      if String.eqb (p_owner p) requester then allow "requester_is_subject" None else
      match _live_delegation tenant (p_id p) requester family now s with
      | None => deny "delegation_absent"
      | Some d => allow "delegated" (Some (d_id d))
      end
  end.

(** ** The switches of the control plane *)

Definition of_tenant {A} (tenant : string) (m : gmap (string * string) A) : list (string * A) :=
  omap (fun x => if String.eqb x.1.1 tenant then Some (x.1.2, x.2) else None) (map_to_list m).
Definition switch_le (a b : string * switch_row) : Prop := String.le a.1 b.1.
#[export] Instance switch_le_dec : RelDecision switch_le.
Proof. intros a b. unfold switch_le. apply _. Defined.
Definition switches (tenant : string) (m : gmap (string * string) switch_row) : list (string * pyval) :=
  map (fun x => (x.1, VBool (w_enabled x.2))) (merge_sort switch_le (of_tenant tenant m)).
Definition opt_text (o : option string) : pyval := match o with Some s => VStr s | None => VNone end.
Definition opt_num (o : option Z) : pyval := match o with Some z => VInt z | None => VNone end.
Definition control_plane_state (tenant : string) (s : oauth) : result oauth_error (list (string * pyval)) :=
  if negb (truthy tenant) then Err (BadArgument "tenant_id is required") else
  let st := stops s !! tenant in
  Ok [("tenant_id", VStr tenant);
      ("emergency_stop", VBool (match st with Some r => stopped r | None => false end));
      ("stop_reason", opt_text (st ≫= stop_reason)); ("stopped_at", opt_num (st ≫= stopped_at));
      ("stopped_by_principal_id", opt_text (st ≫= stopped_by));
      ("families", VDict (switches tenant (families s))); ("senders", VDict (switches tenant (senders s)))].
(** A resume keeps when and by whom the account was stopped. *)
Definition stop_update (old : option stop_row) (active : bool) (now : Z) (reason who : option string) : stop_row := {|
  stopped := active;
  stop_reason := if active then reason else None;
  stopped_at := if active then Some now else old ≫= stopped_at;
  stopped_by := match old with
                | Some o => if active then who else stopped_by o
                | None => who
                end;
  resumed_at := if active then old ≫= resumed_at else Some now;
  resumed_by := if active then old ≫= resumed_by else who;
  s_updated_at := now |}.
Definition set_emergency_stop (tenant : string) (active : bool) (now : Z) (reason who : option string) : om unit := fun s =>
  if negb (truthy tenant) then (s, Err (BadArgument "tenant_id is required")) else
  (with_switches s (<[tenant := stop_update (stops s !! tenant) active now reason who]> (stops s)) (families s) (senders s), Ok tt).
Definition set_capability_family_enabled (tenant family : string) (enabled : bool) (now : Z) (who : option string) : om unit := fun s =>
  if negb (truthy tenant) then (s, Err (BadArgument "tenant_id is required")) else
  if negb (truthy family) then (s, Err (BadArgument "family is required")) else
  (with_switches s (stops s)
     (<[(tenant, family) := {| w_family := family; w_enabled := enabled; w_updated_at := now; w_updated_by := who |}]> (families s))
     (senders s), Ok tt).
Definition set_control_plane_sender_enabled (tenant sender : string) (enabled : bool) (now : Z) (family : string)
    (who : option string) : om unit := fun s =>
  if negb (truthy tenant) then (s, Err (BadArgument "tenant_id is required")) else
  if negb (truthy sender) then (s, Err (BadArgument "sender_id is required")) else
  (with_switches s (stops s) (families s)
     (<[(tenant, sender) := {| w_family := family; w_enabled := enabled; w_updated_at := now; w_updated_by := who |}]> (senders s)),
   Ok tt).

(** ** Migration and voice *)

Definition legacy_mapping (key : string) (s : oauth) : option legacy_map := legacy s !! key.
Definition record_legacy_mapping (key : string) (connection : option string) (status checksum : string) (now : Z)
    (error : option string) : om unit := fun s =>
  match legacy s !! key with
  | Some m => (with_legacy s (<[key := {| m_connection := m_connection m; m_status := status; m_checksum := checksum;
                                          m_error := error; m_created_at := m_created_at m; m_updated_at := now |}]> (legacy s)), Ok tt)
  | None =>
      if match connection with
         | Some c => existsb (fun x => bool_decide (m_connection x.2 = Some c)) (map_to_list (legacy s))
         | None => false
         end
      then (s, Err IntegrityError)
      else (with_legacy s (<[key := {| m_connection := connection; m_status := status; m_checksum := checksum; m_error := error;
                                       m_created_at := now; m_updated_at := now |}]> (legacy s)), Ok tt)
  end.
(** A repeated identifier violates the key, and nothing is replaced. *)
Definition replace_voice_routes (tenant : string) (l : list voice_route) : om unit := fun s =>
  if bool_decide (NoDup (map v_id l)) then (with_routes s (<[tenant := l]> (routes s)), Ok tt) else (s, Err IntegrityError).
Definition route_order (a b : voice_route) : Prop :=
  v_priority a < v_priority b \/ v_priority a = v_priority b /\ String.le (v_id a) (v_id b).
#[export] Instance route_order_dec : RelDecision route_order.
Proof. intros a b. unfold route_order. apply _. Defined.
Definition voice_routes (tenant : string) (s : oauth) : list voice_route := merge_sort route_order (default [] (routes s !! tenant)).
