(* ===== verification/OAuthService.v ===== *)
(** * Connecting accounts

    src/services/oauth/app.py, [OAuthService]: a person in a session connects
    Google, a Slack workspace or an account with a token, withdraws it again,
    and sets the switches of the control plane.  The service runs over three
    stores at once, the sessions, the vault and the OAuth repository ([world]);
    each of its methods is a program whose steps on them interleave with those
    of other requests.  Providers, the clock, random tokens and the membership
    of a principal are questions; the connectors' catalogues and the Slack
    operation manifest are the fields of [OAuthService]. *)

From stdpp Require Import gmap pretty.
From Stdlib Require Import QArith.
From S2P Require Import Prelude PyValue Json JsonRead Sha256 Base64 Program Signing Sessions Vault OAuth.
Local Close Scope Q_scope.
Local Open Scope Z_scope.

(** ** The stores, and what is asked *)

Record world := { w_sessions : Sessions.store; w_vault : vault; w_oauth : oauth }.
Definition with_sessions (s : Sessions.store) (w : world) : world := {| w_sessions := s; w_vault := w_vault w; w_oauth := w_oauth w |}.
Definition with_vault (v : vault) (w : world) : world := {| w_sessions := w_sessions w; w_vault := v; w_oauth := w_oauth w |}.
Definition with_oauth (o : oauth) (w : world) : world := {| w_sessions := w_sessions w; w_vault := w_vault w; w_oauth := o |}.

Inductive service_error : Type :=
| InSession (e : session_error)
| InVault (e : vault_error)
| InOAuth (e : oauth_error)
| Uncaught (e : pyexn).

Record user_authority := {
  u_subject : string;
  u_access_token : string;
  u_refresh_token : option string;
  u_expires_in : option Z;
  u_scopes : list string;
}.
(** [VerifiedSender] and [VerifiedAccountState] of catalog.py. *)
Record verified_sender := { n_sender : string; n_family : string; n_countries : list string; n_enabled : bool }.
Record account_state := {
  a_provider : string;
  a_account : string;
  a_status : string;
  a_families : list string;
  a_senders : list verified_sender;
  a_templates : list string;
}.
Inductive ask_of : Type -> Type :=
| Time : ask_of Q
| Token : ask_of string                                            (* [secrets.token_urlsafe], [uuid4] *)
| TenantOf (principal : string) : ask_of (option string)
| ExchangeGoogle (code verifier : string) : ask_of (result unit authority)
| ExchangeSlack (code : string) (require_bot : bool) : ask_of (result unit (authority * option user_authority))
| RevokeAtProvider (provider token : string) : ask_of (result unit pyval)
| VerifyAccount (provider account token : string) : ask_of (result unit account_state)
| EffectCounts (tenant : string) : ask_of (option pyval)
| InCustody {A} (q : question A) : ask_of A.
Definition oprog (A : Type) : Type := prog world service_error ask_of A.

Record slack_registry := {
  definitions : list (string * (string * list string));           (* capability, its profile and scopes *)
  bundles : list (string * (list string * list string * list string)); (* family, its capabilities, scopes and operations, by family *)
  family_flags : list string;
}.
Record OAuthService := {
  session_terms : terms;
  crypto : ManagedOAuthCrypto;
  ingestion : string;
  broker : string;
  google_catalog : list (string * string);
  google_url : string -> string -> list string -> string;          (* state, challenge, scopes *)
  slack_configured : bool;
  slack_app_id : option string;
  slack_catalog : list (string * list string);
  slack_gives_user : bool;                                         (* [exchange_code_with_user] *)
  slack_url : string -> list string -> option (list string) -> string;
  registry : option slack_registry;
  accounts : list (string * list (string * list string));
  counts_effects : bool;
  requires_tenant_context : bool;
}.

Section service.
Context {E : Ed25519} {R : SessionStore} {B : SecretBox} (self : OAuthService).
Local Open Scope prog_scope.

Definition in_sessions {A} (m : sm A) : oprog A := atom (stm_within w_sessions with_sessions InSession m).
Definition in_oauth {A} (m : om A) : oprog A := atom (stm_within w_oauth with_oauth InOAuth m).
Definition read_oauth {A} (f : oauth -> A) : oprog A := atom (fun w => (w, Ok (f (w_oauth w)))).
Definition in_vault {A} (p : vprog A) : oprog A := prog_within w_vault with_vault InVault (@InCustody) p.

Definition response : Type := Z * dict.
Definition error (status : Z) (why : string) : oprog response := give (status, [("error", VStr why)]).
Definition require {A} (b : bool) (no yes : oprog A) : oprog A := if b then yes else no.
Definition given_text (v : pyval) : option string := match v with VStr s => if truthy s then Some s else None | _ => None end.
Definition text_list (l : list string) : pyval := VList (map VStr l).

(** The principal of the session. *)
Definition current (session_id : option string) : oprog (option string) :=
  now <- ask Time ;;
  c <- in_sessions (Sessions.resolve (session_terms self) session_id (trunc now) true) ;;
  give (option_map r_principal c).
Definition in_session (session_id : option string) (k : string -> oprog response) : oprog response :=
  c <- current session_id ;;
  match c with Some p => k p | None => error 401 "authentication required" end.
Definition in_own_session (session_id csrf : option string) (k : string -> oprog response) : oprog response :=
  in_session session_id (fun p =>
    ok <- in_sessions (Sessions.csrf_matches session_id csrf) ;;
    require ok (error 403 "invalid CSRF token") (k p)).
(** No session names a tenant, so the resolver is asked; a principal nothing
    maps has none. *)
Definition _tenant_id (p : string) : oprog (option string) :=
  t <- ask (TenantOf p) ;;
  give (match t with Some t => if truthy t then Some t else None | None => None end).
Definition now_int : oprog Z := t <- ask Time ;; give (trunc t).

(** ** Checks of what a request carries *)

Fixpoint drop_whitespace (s : string) : string :=
  match s with
  | "" => ""
  | String c s' => if N.eqb (ord c) 9 || N.eqb (ord c) 10 || N.eqb (ord c) 13 then drop_whitespace s' else String c (drop_whitespace s')
  end.
Fixpoint netloc (s : string) : string :=
  match s with
  | "" => ""
  | String c s' => if N.eqb (ord c) 47 || N.eqb (ord c) 63 || N.eqb (ord c) 35 then "" else String c (netloc s')
  end.
Definition backslash : ascii := chr 92.
(** [urlsplit] drops tabs and line breaks before it looks for a host; a text
    that begins with a slash has no scheme. *)
Definition _safe_return_to (v : pyval) : bool :=
  match v with
  | VStr s =>
      starts_with "/" s && negb (starts_with "//" s)
      && str_forallb (fun c => negb (Ascii.eqb c backslash)) s
      && match drop_whitespace s with
         | String _ (String c rest) => if N.eqb (ord c) 47 then negb (truthy (netloc rest)) else true
         | _ => true
         end
  | _ => false
  end.
Fixpoint texts_of (l : list pyval) : option (list string) :=
  match l with [] => Some [] | VStr s :: l' => cons s <$> texts_of l' | _ => None end.
(** A list of texts, not empty, each a key of the catalogue. *)
Definition known_capabilities {A} (catalog : list (string * A)) (v : pyval) : option (list string) :=
  match v with
  | VList (x :: l) =>
      match texts_of (x :: l) with
      | Some ss => if forallb (fun s => str_in s (map fst catalog)) ss then Some (str_sorted_set ss) else None
      | None => None
      end
  | _ => None
  end.
Definition return_to (body : dict) : pyval := get_or body "return_to" (VStr "/integrations").
(** The body as a mapping, and what a text column takes of a value. *)
Definition optional_text (v : pyval) : oprog (option string) :=
  match v with
  | VNone => give None
  | _ => match bind_text v with Some t => give (Some t) | None => raise (Uncaught InvalidOperation) end
  end.

(** The raw digest, from the words. *)
Definition sha256_digest (s : string) : string :=
  let ws := words_of (pad (bytes_of s)) in
  foldr (fun b acc => String (chr b) acc) "" (flat_map (be_bytes 4) (blocks (length ws) h256 ws)).
Definition _pkce_challenge (verifier : string) : string := rstrip_pad (urlsafe_b64encode (sha256_digest verifier)).

(** ** Custody *)

(** [except ManagedOAuthError], its subclasses included. *)
Definition is_managed_error (e : service_error) : bool :=
  match e with InVault ManagedOAuthError | InVault ManagedOAuthAccessDenied | InVault ManagedOAuthAuthError => true | _ => false end.
(** A secret sealed and stored for [p]; [None]: custody is unavailable. *)
Definition keep (p provider : string) (scopes : list string) (secret : string) (context : dict) : oprog (option string) :=
  r <- attempt (
    envelope <- in_vault (seal (crypto self) secret (VDict context) (ingestion self)) ;;
    in_vault (Service.store_managed_oauth [("user_principal_id", VStr p); ("provider", VStr provider);
      ("granted_scopes", text_list scopes); ("envelope", VDict envelope)] (Some p))) ;;
  match r with
  | Ok (status, answer) =>
      if Z.eqb status 200
      then match get answer "credential_id" with VStr id => give (Some id) | _ => raise (Uncaught KeyError) end
      else give None
  | Err e => if is_managed_error e then give None else raise e
  end.
Definition drop (credential p : string) : oprog Z := in_vault (Service.delete_managed_oauth_credential credential p).

(** ** Google *)

Definition GOOGLE := "google".
Definition google_status (session_id : option string) : oprog response :=
  in_session session_id (fun p =>
    c <- read_oauth (get_connection p GOOGLE) ;;
    match c with
    | None => give (200, [("status", VStr "disconnected"); ("provider", VStr GOOGLE)])
    | Some c => give (200, [("status", VStr (c_status c)); ("provider", VStr GOOGLE);
                            ("enabled_capabilities", text_list (c_capabilities c))])
    end).
Definition scopes_of (catalog : list (string * string)) (capabilities : list string) : list string :=
  str_sorted_set (omap (fun x => if str_in x.1 capabilities then Some x.2 else None) catalog).
Definition initiate_google (session_id csrf : option string) (body : pyval) : oprog response :=
  in_own_session session_id csrf (fun p =>
    match body with
    | VDict b =>
        tenant <- _tenant_id p ;;
        require (present tenant || negb (requires_tenant_context self)) (error 409 "tenant membership is required") (
        require (_safe_return_to (return_to b)) (error 422 "unsafe return target") (
        match known_capabilities (google_catalog self) (get b "capabilities"), return_to b with
        | Some capabilities, VStr target =>
            let scopes := scopes_of (google_catalog self) capabilities in
            state <- ask Token ;;
            verifier <- ask Token ;;
            id <- ask Token ;;
            now <- now_int ;;
            in_oauth (create_transaction (new_transaction id (default "" session_id) p GOOGLE scopes capabilities state
                                            verifier target now tenant (Some GOOGLE) None None)) ;;
            give (200, [("authorization_url", VStr (google_url self state (_pkce_challenge verifier) scopes))])
        | _, _ => error 422 "unsupported or missing capabilities"
        end))
    | _ => error 422 "request body must be an object"
    end).
(** Which credential the connection is to hold: a new one when Google gave a
    refresh token, the one there is when it gave none. *)
Definition google_credential (p : string) (t : transaction_row) (a : authority) (existing : option connection_row)
    : oprog (string * response + response) :=
  let answer n why := give (inr (n, [("error", VStr why)])) in
  match refresh_token a with
  | Some r =>
      if negb (truthy r) then answer 502 "Google token exchange failed" else
      c <- keep p GOOGLE (str_sort (granted_scopes a)) r
             [("oauth_transaction_id", VStr (t_id t)); ("provider", VStr GOOGLE); ("user_principal_id", VStr p)] ;;
      match c with
      | Some c => give (inl (c, (200, [])))
      | None => answer 502 "credential custody unavailable"
      end
  | None =>
      match existing with
      | Some x => give (inl (c_credential x, (200, [])))
      | None => answer 502 "Google did not grant offline access"
      end
  end.
Definition enabled_by (catalog : list (string * string)) (granted : list string) : list string :=
  str_sorted_set (omap (fun x => if str_in x.2 granted then Some x.1 else None) catalog).
Definition complete_google (session_id : option string) (code state : pyval) (provider_error : bool) : oprog response :=
  in_session session_id (fun p =>
    tenant <- _tenant_id p ;;
    require (present tenant || negb (requires_tenant_context self)) (error 409 "tenant membership is required") (
    match given_text state with
    | None => error 400 "invalid or consumed OAuth transaction"
    | Some st =>
        now <- now_int ;;
        t <- in_oauth (consume_transaction (Some st) session_id (Some p) now) ;;
        match t with
        | None => error 400 "invalid or consumed OAuth transaction"
        | Some t =>
            if provider_error
            then give (200, [("result", VStr "denied"); ("provider", VStr GOOGLE); ("return_to", VStr (t_return_to t));
                             ("enabled_capabilities", VList [])]) else
            match given_text code with
            | None => error 400 "authorization code is required"
            | Some code =>
                a <- ask (ExchangeGoogle code (t_verifier t)) ;;
                match a with
                | Err _ => error 502 "Google token exchange failed"
                | Ok a =>
                    let enabled := enabled_by (google_catalog self) (granted_scopes a) in
                    existing <- read_oauth (get_connection p GOOGLE) ;;
                    c <- google_credential p t a existing ;;
                    match c with
                    | inr answer => give answer
                    | inl (credential, _) =>
                        now' <- now_int ;;
                        in_oauth (upsert_connection p GOOGLE credential (granted_scopes a) enabled now') ;;
                        let done := give (200, [("result", VStr "connected"); ("provider", VStr GOOGLE);
                                                ("return_to", VStr (t_return_to t)); ("enabled_capabilities", text_list enabled)]) in
                        match existing with
                        | Some x =>
                            if String.eqb (c_credential x) credential then done else
                            retired <- drop (c_credential x) p ;;
                            require (Z.eqb retired 200) (error 502 "previous credential custody cleanup failed") done
                        | None => done
                        end
                    end
                end
            end
        end
    end)).
Definition pending (word : string) (provider : string) : oprog response :=
  give (202, [("status", VStr word); ("provider", VStr provider)]).
Definition disconnect_google (session_id csrf : option string) : oprog response :=
  in_own_session session_id csrf (fun p =>
    c <- read_oauth (get_connection p GOOGLE) ;;
    match c with
    | None => give (200, [("status", VStr "disconnected"); ("provider", VStr GOOGLE)])
    | Some c =>
        let credential := c_credential c in
        blocked <- in_vault (Service.begin_managed_oauth_revocation credential p) ;;
        require (Z.eqb blocked.1 200) (error blocked.1 "could not block Google credential") (
        now <- now_int ;;
        in_oauth (mark_pending_revocation p GOOGLE now) ;;
        token <- in_vault (Service.revoke_managed_oauth (Some (crypto self)) credential (broker self) (fun t => give t)) ;;
        revoked <- ask (RevokeAtProvider GOOGLE token) ;;
        match revoked with
        | Err _ => pending "pending_revocation" GOOGLE
        | Ok v =>
            require (is_true v || val_is v "invalid_token") (pending "pending_revocation" GOOGLE) (
            gone <- drop credential p ;;
            require (Z.eqb gone 200) (pending "pending_revocation" GOOGLE) (
            in_oauth (delete_connection p GOOGLE credential) ;;
            give (200, [("status", VStr "disconnected"); ("provider", VStr GOOGLE)])))
        end)
    end).

(** ** Slack *)

Definition SLACK := "slack".
(** [any(capability not in catalog for ...)]: a value that cannot be a key
    raises when it is reached. *)
Fixpoint all_in {A} (catalog : list (string * A)) (l : list pyval) : result pyexn bool :=
  match l with
  | [] => Ok true
  | VStr s :: l' => if str_in s (map fst catalog) then all_in catalog l' else Ok false
  | v :: _ => if hashable v then Ok false else Err TypeError
  end.
Definition slack_capabilities (v : pyval) : result pyexn (option (list string)) :=
  match v with
  | VList (x :: l) =>
      known ← all_in (slack_catalog self) (x :: l);
      Ok (if known : bool then str_sorted_set <$> texts_of (x :: l) else None)
  | _ => Ok None
  end.
Definition catalog_scopes (catalog : list (string * list string)) (capabilities : list string) : list string :=
  str_sorted_set (flat_map (fun x => if str_in x.1 capabilities then x.2 else []) catalog).
Definition covered_by (catalog : list (string * list string)) (granted : list string) : list string :=
  str_sorted_set (omap (fun x => if forallb (fun s => str_in s granted) x.2 then Some x.1 else None) catalog).
Definition without (l m : list string) : list string := str_sorted_set (List.filter (fun s => negb (str_in s m)) l).
(** A family that is no text cannot be a key of the bundles. *)
Definition _slack_family_request (families : pyval) (target : option installation) : result pyexn (option (list string * list string)) :=
  match families, registry self with
  | VList (x :: l), Some r =>
      known ← all_in (bundles r) (x :: l);
      match (if known : bool then texts_of (x :: l) else None) with
      | Some fs =>
          let chosen := List.filter (fun b => str_in b.1 fs) (bundles r) in
          Ok (Some (str_sorted_set (flat_map (fun b => b.2.1.1) chosen),
                    without (flat_map (fun b => b.2.1.2) chosen) (match target with Some t => i_scopes t | None => [] end)))
      | None => Ok None
      end
  | _, _ => Ok None
  end.
Definition _slack_user_scopes (capabilities : list string) : list string :=
  match registry self with
  | Some r => str_sorted_set (flat_map (fun d => if str_in d.1 capabilities && String.eqb d.2.1 "user" then d.2.2 else []) (definitions r))
  | None => []
  end.
Definition _slack_personal_only_round (t : transaction_row) : bool :=
  let user := _slack_user_scopes (t_capabilities t) in
  truthy user && negb (truthy (without (t_scopes t) user)).
Definition _slack_missing_families (x : installation) : list pyval :=
  match registry self with
  | Some r => omap (fun b => let absent := without b.2.1.2 (i_scopes x) in
                             if truthy absent then Some (VDict [("family", VStr b.1); ("missing_scopes", text_list absent);
                                                                ("operations", text_list b.2.2)]) else None)
                   (bundles r)
  | None => []
  end.
Definition _slack_personal_authority (tenant p : string) (x : installation) (o : oauth) : pyval :=
  VList (map (fun y => VDict [("profile_kind", VStr (p_kind y)); ("slack_subject_id", opt_text (p_subject y));
                              ("granted_scopes", text_list (p_scopes y)); ("enabled", VBool (p_enabled y))])
           (list_personal_authority tenant (i_id x) p o)).
Definition slack_status (session_id : option string) : oprog response :=
  in_session session_id (fun p =>
    tenant <- _tenant_id p ;;
    match tenant with
    | None => error 409 "tenant membership is required"
    | Some t =>
        l <- read_oauth (list_tenant_installations t (Some SLACK) true) ;;
        shown <- read_oauth (fun o => map (fun x => VDict [
          ("connection_id", VStr (i_id x)); ("team_id", opt_text (i_team x));
          ("team_name", if present (i_team_name x) then opt_text (i_team_name x) else opt_text (i_team x));
          ("enterprise_id", opt_text (i_enterprise x)); ("bot_user_id", opt_text (i_bot_user x));
          ("status", VStr (i_status x)); ("enabled_capabilities", text_list (i_capabilities x));
          ("owner", VBool (String.eqb (i_principal x) p)); ("missing_families", VList (_slack_missing_families x));
          ("personal_authority", _slack_personal_authority t p x o)]) l) ;;
        give (200, [("provider", VStr SLACK); ("connections", VList shown)])
    end).

Definition initiate_slack (session_id csrf : option string) (body : pyval) : oprog response :=
  in_own_session session_id csrf (fun p =>
    require (slack_configured self && present (slack_app_id self)) (error 503 "Slack integration is not configured") (
    match body with
    | VDict b =>
        tenant <- _tenant_id p ;;
        require (present tenant || negb (requires_tenant_context self)) (error 409 "tenant membership is required") (
        target_id <- (if truthy (get b "target_connection_id") then optional_text (get b "target_connection_id") else give None) ;;
        target <- match target_id with
                  | Some id => read_oauth (get_installation id tenant)
                  | None => give None
                  end ;;
        require (match target_id with
                 | Some _ => match target with Some x => String.eqb (i_principal x) p | None => false end
                 | None => true
                 end) (error 404 "Slack connection not found") (
        match return_to b with
        | VStr back =>
            require (_safe_return_to (VStr back)) (error 422 "unsafe return target") (
            wanted <- (match get b "families" with
                       | VNone =>
                           match slack_capabilities (get b "capabilities") with
                           | Err e => raise (Uncaught e)
                           | Ok None => give (inr (422, [("error", VStr "unsupported or missing capabilities")]))
                           | Ok (Some cs) => give (inl (cs, catalog_scopes (slack_catalog self) cs))
                           end
                       | f =>
                           match _slack_family_request f target with
                           | Err e => raise (Uncaught e)
                           | Ok None => give (inr (422, [("error", VStr "unsupported or missing families")]))
                           | Ok (Some (cs, [])) => give (inr (409, [("error", VStr "requested families are already granted")]))
                           | Ok (Some (cs, ss)) => give (inl (cs, ss))
                           end
                       end) ;;
            match wanted with
            | inr answer => give answer
            | inl (capabilities, scopes) =>
                state <- ask Token ;;
                id <- ask Token ;;
                now <- now_int ;;
                team <- optional_text (get b "intended_team_id") ;;
                in_oauth (create_transaction (new_transaction id (default "" session_id) p SLACK scopes capabilities state ""
                                                back now tenant (slack_app_id self) team target_id)) ;;
                let user := _slack_user_scopes capabilities in
                give (200, [("authorization_url", VStr (slack_url self state (without scopes user)
                                                          (if truthy user then Some user else None)))])
            end)
        | _ => error 422 "unsafe return target"
        end))
    | _ => error 422 "request body must be an object"
    end)).

(** A person's own grant: a credential and a profile of its own, not enabled.
    [None]: custody is unavailable, or nothing was granted. *)
Definition _record_slack_user_authority (tenant : string) (connection : installation) (p : string) (u : option user_authority)
    : oprog (option profile) :=
  match u with
  | None => give None
  | Some u =>
      expires <- match u_expires_in u with
                 | Some n => if Z.eqb n 0 then give VNone else now <- now_int ;; give (VInt (now + n))
                 | None => give VNone
                 end ;;
      let document := VDict [("access_token", VStr (u_access_token u)); ("refresh_token", opt_text (u_refresh_token u));
        ("expires_at", expires);
        ("token_type", VStr "user"); ("granted_scopes", text_list (str_sort (u_scopes u)))] in
      let context := [("oauth_transaction_id", VStr ("user:" +:+ i_id connection)); ("provider", VStr SLACK);
        ("tenant_id", VStr tenant); ("user_principal_id", VStr p); ("slack_subject_id", VStr (u_subject u));
        ("credential_version", VStr "1")] in
      c <- keep p "slack-user" (str_sort (u_scopes u)) (json_text document) context ;;
      match c with
      | None => give None
      | Some c =>
          now' <- now_int ;;
          id <- ask Token ;;
          in_oauth (record_authority_profile id tenant (i_id connection) "user" p c (u_scopes u) now' (Some (u_subject u)) 1 false) ;;
          read_oauth (get_authority_profile tenant (i_id connection) "user" p)
      end
  end.
Definition slack_personal_authority_decision (session_id csrf : option string) (connection kind : string) (body : pyval)
    : oprog response :=
  in_own_session session_id csrf (fun p =>
    tenant <- _tenant_id p ;;
    match tenant with
    | None => error 409 "tenant membership is required"
    | Some t =>
        match given_text (get (as_mapping body) "action") with
        | Some action =>
            require (str_in action ["enable"; "disable"; "revoke"]) (error 422 "unsupported authority action") (
            now <- now_int ;;
            changed <- in_oauth (if String.eqb action "revoke" then revoke_authority_profile t connection kind p now
                                 else set_authority_profile_enabled t connection kind p (String.eqb action "enable") now) ;;
            require changed (error 404 "personal authority not found")
              (give (200, [("status", VStr action); ("profile_kind", VStr kind)])))
        | None => error 422 "unsupported authority action"
        end
    end).

Definition connected (t : transaction_row) (connection team : pyval) (capabilities : list string) : response :=
  (200, [("result", VStr "connected"); ("provider", VStr SLACK); ("return_to", VStr (t_return_to t));
         ("connection_id", connection); ("team_id", team); ("enabled_capabilities", text_list capabilities)]).
Definition _complete_slack_personal_consent (p : string) (t : transaction_row) (u : option user_authority) : oprog response :=
  tenant <- _tenant_id p ;;
  match tenant with
  | None => error 409 "tenant binding changed"
  | Some tenant =>
      require (bool_decide (t_tenant t = Some tenant)) (error 409 "tenant binding changed") (
      connection <- match t_target t with
                    | Some id => if truthy id then read_oauth (get_installation id (Some tenant)) else give None
                    | None => give None
                    end ;;
      match connection with
      | None => error 409 "personal consent target changed"
      | Some x =>
          require (String.eqb (i_principal x) p) (error 409 "personal consent target changed") (
          profile <- _record_slack_user_authority tenant x p u ;;
          match profile with
          | None => error 502 "credential custody unavailable"
          | Some _ => give (connected t (VStr (i_id x)) (opt_text (i_team x)) (i_capabilities x))
          end)
      end)
  end.
(** The installation itself: the workspace and the app are the ones asked for,
    by a member of the tenant that asked. *)
Definition install_slack (p : string) (t : transaction_row) (a : authority) (u : option user_authority) : oprog response :=
  let metadata := provider_metadata a in
  match given_text (get metadata "team_id") with
  | None => error 409 "Slack installation identity changed"
  | Some team =>
      require (match t_app t with Some app => val_is (get metadata "app_id") app | None => match get metadata "app_id" with VNone => true | _ => false end end
               && match t_team t with Some x => negb (truthy x) || String.eqb x team | None => true end)
        (error 409 "Slack installation identity changed") (
      tenant <- _tenant_id p ;;
      match tenant with
      | None => error 409 "tenant binding changed"
      | Some tenant =>
          require (bool_decide (t_tenant t = Some tenant)) (error 409 "tenant binding changed") (
          let app := default "" (slack_app_id self) in
          previous <- read_oauth (fun o => List.find (fun x => String.eqb (i_app x) app && bool_decide (i_team x = Some team))
                                             (list_tenant_installations tenant (Some SLACK) false o)) ;;
          existing <- match t_target t with
                      | Some id => if truthy id then x <- read_oauth (get_installation id (Some tenant)) ;; give (Some x) else give None
                      | None => give None
                      end ;;
          require (match existing with
                   | None => true
                   | Some None => false
                   | Some (Some x) => String.eqb (i_principal x) p && String.eqb (i_app x) app && bool_decide (i_team x = Some team)
                   end) (error 409 "scope upgrade target changed") (
          let enabled := covered_by (slack_catalog self) (granted_scopes a) in
          now <- now_int ;;
          let document := VDict [("access_token", VStr (access_token a)); ("refresh_token", opt_text (refresh_token a));
            ("expires_at", VInt (now + expires_in a)); ("token_type", VStr (token_type a));
            ("provider_metadata", VDict metadata); ("granted_scopes", text_list (str_sort (granted_scopes a)))] in
          c <- keep p SLACK (str_sort (granted_scopes a)) (json_text document)
                 [("oauth_transaction_id", VStr (t_id t)); ("provider", VStr SLACK); ("tenant_id", VStr tenant);
                  ("user_principal_id", VStr p); ("team_id", VStr team); ("credential_version", VStr "1")] ;;
          match c with
          | None => error 502 "credential custody unavailable"
          | Some c =>
              now' <- now_int ;;
              name <- optional_text (get metadata "team_name") ;;
              enterprise <- optional_text (get metadata "enterprise_id") ;;
              bot <- optional_text (get metadata "bot_user_id") ;;
              id <- attempt (in_oauth (upsert_installation {|
                q_tenant := Some tenant; q_principal := p; q_provider := SLACK; q_app := app; q_credential := Some c;
                q_scopes := granted_scopes a; q_capabilities := enabled; q_connection := t_target t; q_team := Some team;
                q_team_name := name; q_enterprise := enterprise; q_bot_user := bot; q_version := 1 |} now')) ;;
              match id with
              | Err (InOAuth (ConnectionConflict _)) =>
                  drop c p ;;
                  error 409 "Slack workspace is already connected"
              | Err e => raise e
              | Ok id =>
                  x <- read_oauth (get_installation id (Some tenant)) ;;
                  match previous with
                  | Some y =>
                      match i_credential y with
                      | Some old => if truthy old && negb (String.eqb old c) then drop old (i_principal y) ;; give tt else give tt
                      | None => give tt
                      end
                  | None => give tt
                  end ;;
                  match x with
                  | Some x =>
                      _record_slack_user_authority tenant x p u ;;
                      give (connected t (VStr (i_id x)) (VStr team) enabled)
                  | None => raise (Uncaught TypeError)
                  end
              end
          end))
      end)
  end.
Definition complete_slack (session_id : option string) (code state : option string) (provider_error : bool) : oprog response :=
  in_session session_id (fun p =>
    tenant <- _tenant_id p ;;
    require (present tenant || negb (requires_tenant_context self)) (error 409 "tenant membership is required") (
    now <- now_int ;;
    t <- in_oauth (consume_transaction state session_id (Some p) now) ;;
    match t with
    | None => error 400 "invalid or consumed OAuth transaction"
    | Some t =>
        require (String.eqb (t_provider t) SLACK) (error 400 "invalid or consumed OAuth transaction") (
        if provider_error
        then give (200, [("result", VStr "denied"); ("provider", VStr SLACK); ("return_to", VStr (t_return_to t))]) else
        match code with
        | None => error 400 "authorization code is required"
        | Some code =>
            require (truthy code) (error 400 "authorization code is required") (
            let personal := _slack_personal_only_round t in
            require (slack_gives_user self || negb personal) (error 502 "Slack token exchange failed") (
            a <- ask (ExchangeSlack code (negb personal)) ;;
            match a with
            | Err _ => error 502 "Slack token exchange failed"
            | Ok (a, u) =>
                let u := if slack_gives_user self then u else None in
                if personal then _complete_slack_personal_consent p t u else install_slack p t a u
            end))
        end)
    end)).
(** The token the vault opened, out of its document. *)
Definition slack_token (raw : string) : result pyexn string :=
  match loads raw with
  | Ok (VDict d) => match dget d "access_token" with Some (VStr t) => Ok t | Some _ => Err TypeError | None => Err KeyError end
  | Ok _ => Err TypeError
  | Err _ => Err ValueError
  end.
(** [except (ProviderError, KeyError, ValueError, UnicodeDecodeError)]. *)
Definition is_expected (e : service_error) : bool :=
  match e with
  | InVault (Python KeyError) | InVault (Python ValueError) | Uncaught KeyError | Uncaught ValueError => true
  | _ => false
  end.
Definition disconnect_slack (session_id csrf : option string) (id : string) : oprog response :=
  in_own_session session_id csrf (fun p =>
    tenant <- _tenant_id p ;;
    connection <- read_oauth (get_installation id tenant) ;;
    match connection, tenant with
    | Some x, Some tenant =>
        require (String.eqb (i_principal x) p) (error 404 "Slack connection not found") (
        now <- now_int ;;
        in_oauth (mark_installation_status id tenant "disconnect_pending" now None) ;;
        match i_credential x with
        | None => pending "disconnect_pending" SLACK
        | Some credential =>
            blocked <- in_vault (Service.begin_managed_oauth_revocation credential p) ;;
            require (Z.eqb blocked.1 200) (pending "disconnect_pending" SLACK) (
            revoked <- attempt (
              raw <- in_vault (Service.revoke_managed_oauth (Some (crypto self)) credential (broker self) (fun t => give t)) ;;
              match slack_token raw with
              | Err e => raise (Uncaught e)
              | Ok token => r <- ask (RevokeAtProvider SLACK token) ;; give r
              end) ;;
            match revoked with
            | Err e => if is_expected e then pending "disconnect_pending" SLACK else raise e
            | Ok (Err _) => pending "disconnect_pending" SLACK
            | Ok (Ok v) =>
                require (is_true v) (pending "disconnect_pending" SLACK) (
                gone <- drop credential p ;;
                require (Z.eqb gone 200) (pending "disconnect_pending" SLACK) (
                now' <- now_int ;;
                in_oauth (tombstone_installation id tenant now') ;;
                give (200, [("status", VStr "disconnected"); ("provider", VStr SLACK); ("connection_id", VStr id)])))
            end)
        end)
    | _, _ => error 404 "Slack connection not found"
    end).

(** ** Accounts with a token *)

Definition has_colon (s : string) : bool := negb (str_forallb (fun c => negb (N.eqb (ord c) 58)) s).
Definition synthetic_scope (provider dimension value : string) : result pyexn string :=
  if negb (truthy provider && truthy dimension && truthy value) then Err ValueError else
  if has_colon provider || has_colon dimension then Err ValueError else
  Ok (str_join ":" [provider; dimension; value]).
(** [s.partition(":")], without the separator. *)
Fixpoint partition_colon (s : string) : string * string :=
  match s with
  | "" => ("", "")
  | String c s' => if N.eqb (ord c) 58 then ("", s') else let (a, b) := partition_colon s' in (String c a, b)
  end.
Definition sender_scopes (provider : string) (live : list string) (n : verified_sender) : result pyexn (list string) :=
  if negb (n_enabled n && str_in (n_family n) live) then Ok [] else
  own ← synthetic_scope provider "sender" (n_sender n);
  geo ← mapM_result (synthetic_scope provider "geo") (n_countries n);
  Ok (own :: geo).
Definition derive_synthetic_scopes (a : account_state) : result pyexn (list string) :=
  if negb (String.eqb (a_status a) "verified") then Ok [] else
  families ← mapM_result (fun f => synthetic_scope (a_provider a) (partition_colon f).1 (partition_colon f).2) (a_families a);
  senders ← mapM_result (sender_scopes (a_provider a) (map (fun f => (partition_colon f).1) (a_families a))) (a_senders a);
  templates ← mapM_result (synthetic_scope (a_provider a) "template") (a_templates a);
  Ok (str_sorted_set (families ++ concat senders ++ templates)).
Definition _account_capabilities (catalog : list (string * list string)) (scopes : list string) : list string :=
  str_sorted_set (omap (fun x => if truthy x.2 && forallb (fun s => str_in s scopes) x.2 then Some x.1 else None) catalog).
Definition connector (provider : pyval) : option (string * list (string * list string)) :=
  match provider with VStr s => List.find (fun x => String.eqb x.1 s) (accounts self) | _ => None end.
Definition lift_python {A} (r : result pyexn A) : oprog A := match r with Ok a => give a | Err e => raise (Uncaught e) end.

Definition NO_NUMBERS : string := "Twilio account has no SMS- or Voice-capable incoming phone numbers; add or transfer a number to this account".
Definition connect_provider_account (session_id csrf : option string) (body : pyval) : oprog response :=
  in_own_session session_id csrf (fun p =>
    match body with
    | VDict b =>
        require (hashable (get b "provider")) (raise (Uncaught TypeError)) (
        match connector (get b "provider") with
        | None => error 503 "provider is not configured"
        | Some (provider, catalog) =>
            tenant <- _tenant_id p ;;
            require (present tenant || negb (requires_tenant_context self)) (error 409 "tenant membership is required") (
            match given_text (get b "account_id"), given_text (get b "auth_token") with
            | None, _ => error 422 "an account identifier is required"
            | _, None => error 422 "an account auth token is required"
            | Some account, Some token =>
                v <- ask (VerifyAccount provider account token) ;;
                match v with
                | Err _ => error 502 "provider account could not be verified"
                | Ok a =>
                    require (String.eqb (a_account a) account && String.eqb (a_provider a) provider)
                      (error 409 "provider account identity does not match") (
                    let refuse why more := give (409, ("error", VStr why) :: more ++ [("account_status", VStr (a_status a))]) in
                    require (String.eqb (a_status a) "verified") (refuse "provider account is not verified" []) (
                    scopes <- lift_python (derive_synthetic_scopes a) ;;
                    require (truthy scopes) (
                      if String.eqb provider "twilio" then refuse NO_NUMBERS [("provider", VStr provider)]
                      else error 409 "provider account carries no authority") (
                    let capabilities := _account_capabilities catalog scopes in
                    let document := VDict [("account_id", VStr account); ("auth_token", VStr token);
                      ("granted_scopes", text_list scopes); ("token_type", VStr "account")] in
                    c <- keep p provider scopes (json_text document)
                           [("provider", VStr provider); ("tenant_id", opt_text tenant); ("user_principal_id", VStr p);
                            ("provider_account_id", VStr account); ("credential_version", VStr "1")] ;;
                    match c with
                    | None => error 502 "credential custody unavailable"
                    | Some c =>
                        now <- now_int ;;
                        id <- attempt (in_oauth (upsert_installation {|
                          q_tenant := tenant; q_principal := p; q_provider := provider; q_app := account;
                          q_credential := Some c; q_scopes := scopes; q_capabilities := capabilities; q_connection := None;
                          q_team := None; q_team_name := None; q_enterprise := None; q_bot_user := None; q_version := 1 |} now)) ;;
                        match id with
                        | Err (InOAuth (ConnectionConflict _)) => drop c p ;; error 409 "provider account is already connected"
                        | Err e => raise e
                        | Ok id =>
                            give (200, [("result", VStr "connected"); ("provider", VStr provider); ("connection_id", VStr id);
                                        ("provider_account_id", VStr account); ("effective_scopes", text_list scopes);
                                        ("enabled_capabilities", text_list capabilities)])
                        end
                    end)))
                end
            end)
        end)
    | _ => error 422 "request body must be an object"
    end).
Definition provider_account_status (session_id : option string) (provider : string) : oprog response :=
  in_session session_id (fun p =>
    require (str_in provider (map fst (accounts self))) (error 404 "provider is not configured") (
    tenant <- _tenant_id p ;;
    match tenant with
    | None => error 409 "tenant membership is required"
    | Some t =>
        l <- read_oauth (list_tenant_installations t (Some provider) false) ;;
        give (200, [("provider", VStr provider); ("status", VStr (if truthy l then "connected" else "disconnected"));
          ("connections", VList (map (fun x => VDict [("connection_id", VStr (i_id x)); ("provider_account_id", VStr (i_app x));
             ("status", VStr (i_status x)); ("enabled_capabilities", text_list (i_capabilities x));
             ("owner", VBool (String.eqb (i_principal x) p))]) l))])
    end)).
(** Called with fresh state, by no session; a conflict is not expected. *)
Definition apply_verified_account_state (tenant id : string) (a : account_state) : oprog response :=
  found <- read_oauth (get_installation id (Some tenant)) ;;
  match found with
  | None => error 404 "connection not found"
  | Some x =>
      require (String.eqb (i_provider x) (a_provider a)) (error 409 "provider account identity does not match") (
      match connector (VStr (a_provider a)) with
      | None => error 503 "provider is not configured"
      | Some (provider, catalog) =>
          scopes <- lift_python (derive_synthetic_scopes a) ;;
          let capabilities := _account_capabilities catalog scopes in
          now <- now_int ;;
          id' <- in_oauth (upsert_installation {|
            q_tenant := Some tenant; q_principal := i_principal x; q_provider := provider; q_app := i_app x;
            q_credential := i_credential x; q_scopes := scopes; q_capabilities := capabilities; q_connection := Some id;
            q_team := None; q_team_name := None; q_enterprise := None; q_bot_user := None; q_version := i_version x |} now) ;;
          give (200, [("result", VStr "reverified"); ("provider", VStr provider); ("connection_id", VStr id');
                      ("account_status", VStr (a_status a)); ("effective_scopes", text_list scopes);
                      ("enabled_capabilities", text_list capabilities); ("credential_version", VInt (i_version x))])
      end)
  end.

(** ** The switches *)

Definition shown_families (state : dict) : pyval :=
  let held := as_mapping (get state "families") in
  let known := str_sorted_set (match registry self with Some r => family_flags r | None => [] end ++ map fst held) in
  VList (map (fun f => VDict [("family", VStr f); ("enabled", get_or held f (VBool false))]) known).
Definition control_plane_status (session_id : option string) : oprog response :=
  in_session session_id (fun p =>
    tenant <- _tenant_id p ;;
    match tenant with
    | None => error 409 "tenant membership is required"
    | Some t =>
        state <- in_oauth (fun o => (o, control_plane_state t o)) ;;
        counts <- (if counts_effects self then c <- ask (EffectCounts t) ;; give [("effects", default VNone c)] else give []) ;;
        give (200, [("tenant_id", VStr t); ("emergency_stop", get state "emergency_stop"); ("stop_reason", get state "stop_reason");
          ("stopped_at", get state "stopped_at"); ("stopped_by_principal_id", get state "stopped_by_principal_id");
          ("families", shown_families state);
          ("senders", VList (map (fun x => VDict [("sender_id", VStr x.1); ("enabled", x.2)]) (as_mapping (get state "senders"))))]
          ++ counts)
    end).
Definition with_flag (v : pyval) (k : bool -> oprog response) : oprog response :=
  match v with VBool b => k b | _ => error 422 "enabled must be boolean" end.
Definition decide_control_plane (session_id csrf : option string) (body : pyval) : oprog response :=
  in_own_session session_id csrf (fun p =>
    tenant <- _tenant_id p ;;
    match tenant, body with
    | None, _ => error 409 "tenant membership is required"
    | Some t, VDict b =>
        now <- now_int ;;
        match get b "action" with
        | VStr "emergency_stop" =>
            with_flag (get b "enabled") (fun on =>
              reason <- (if on then optional_text (get b "reason") else give None) ;;
              in_oauth (set_emergency_stop t on now reason (Some p)) ;;
              control_plane_status session_id)
        | VStr "family" =>
            match given_text (get b "family") with
            | None => error 422 "a family is required"
            | Some f =>
                with_flag (get b "enabled") (fun on =>
                  require (match registry self with Some r => str_in f (family_flags r) | None => true end)
                    (error 422 "unknown capability family") (
                  in_oauth (set_capability_family_enabled t f on now (Some p)) ;;
                  control_plane_status session_id))
            end
        | VStr "sender" =>
            match given_text (get b "sender_id") with
            | None => error 422 "a sender is required"
            | Some s =>
                with_flag (get b "enabled") (fun on =>
                  family <- (if truthy (get b "family") then optional_text (get b "family") else give None) ;;
                  in_oauth (set_control_plane_sender_enabled t s on now (default "" family) (Some p)) ;;
                  control_plane_status session_id)
            end
        | _ => error 422 "unsupported control plane action"
        end
    | Some _, _ => error 422 "request body must be an object"
    end).

(** ** Voice routes *)

(** [^\+[1-9][0-9]{7,14}$], which lets a final line break pass. *)
Definition is_e164 (v : pyval) : bool :=
  match v with
  | VStr s =>
      let s := match String.rev s with String c r => if N.eqb (ord c) 10 then String.rev r else s | "" => s end in
      match s with
      | String plus (String d rest) =>
          N.eqb (ord plus) 43 && (49 <=? Z.of_N (ord d)) && (Z.of_N (ord d) <=? 57)
          && str_forallb (fun c => N.leb 48 (ord c) && N.leb (ord c) 57) rest
          && Nat.leb 7 (str_length rest) && Nat.leb (str_length rest) 14
      | _ => false
      end
  | _ => false
  end.
Definition ROUTE_LABELS : list string := ["route_id"; "department"; "language"; "timezone"].
Definition ROUTE_NUMBERS : list string := ["start_hour"; "end_hour"; "ring_seconds"; "total_budget_seconds"; "priority"].
Definition same_keys (d : dict) (keys : list string) : bool :=
  forallb (fun x => str_in x.1 keys) d && forallb (fun k => str_in k (map fst d)) keys.
Definition route_error (v : pyval) : option string :=
  match v with
  | VDict d =>
      if negb (same_keys d ("destination" :: ROUTE_LABELS ++ ROUTE_NUMBERS)) then Some "voice route fields are invalid" else
      if negb (is_e164 (get d "destination")) then Some "voice destination must use E.164" else
      if negb (forallb (fun k => match get d k with VStr s => truthy s | _ => false end) ROUTE_LABELS)
      then Some "voice route labels are invalid" else
      if negb (forallb (fun k => match get d k with VInt _ => true | _ => false end) ROUTE_NUMBERS)
      then Some "voice route timing is invalid" else None
  | _ => Some "voice route fields are invalid"
  end.
Definition text_of (v : pyval) : string := match v with VStr s => s | _ => "" end.
Definition num_of (v : pyval) : Z := match v with VInt n => n | _ => 0 end.
Definition route_of (v : pyval) : voice_route :=
  let d := as_mapping v in {|
  v_id := text_of (get d "route_id"); v_department := text_of (get d "department"); v_language := text_of (get d "language");
  v_destination := text_of (get d "destination"); v_timezone := text_of (get d "timezone"); v_start := num_of (get d "start_hour");
  v_end := num_of (get d "end_hour"); v_ring := num_of (get d "ring_seconds"); v_budget := num_of (get d "total_budget_seconds");
  v_priority := num_of (get d "priority") |}.
Definition shown_route (r : voice_route) : pyval := VDict [
  ("route_id", VStr (v_id r)); ("department", VStr (v_department r)); ("language", VStr (v_language r));
  ("destination", VStr (v_destination r)); ("timezone", VStr (v_timezone r)); ("start_hour", VInt (v_start r));
  ("end_hour", VInt (v_end r)); ("ring_seconds", VInt (v_ring r)); ("total_budget_seconds", VInt (v_budget r));
  ("priority", VInt (v_priority r))].
Definition list_voice_routes (t : string) : oprog response :=
  l <- read_oauth (OAuth.voice_routes t) ;; give (200, [("routes", VList (map shown_route l))]).
Definition get_voice_routes (session_id : option string) : oprog response :=
  in_session session_id (fun p =>
    tenant <- _tenant_id p ;;
    match tenant with Some t => list_voice_routes t | None => error 409 "tenant membership is required" end).
Definition first_error (l : list pyval) : option string := head (omap route_error l).
Definition save_voice_routes (session_id csrf : option string) (body : pyval) : oprog response :=
  in_own_session session_id csrf (fun p =>
    tenant <- _tenant_id p ;;
    match tenant, get (as_mapping body) "routes" with
    | Some t, VList l =>
        require (Nat.leb (length l) 100) (error 422 "voice routes are invalid") (
        match first_error l with
        | Some why => error 422 why
        | None => in_oauth (replace_voice_routes t (map route_of l)) ;; list_voice_routes t
        end)
    | _, _ => error 422 "voice routes are invalid"
    end).
End service.
