(* ===== verification/Catalog.v ===== *)
(** * The trusted capability catalog: descriptors

    [TrustedCapabilityDefinition] and [ConnectionCapabilitySnapshot] of
    src/libs/integrations/catalog.py, and the descriptor projection and hash
    of src/agents/orchestrator/planner.py that a plan step and a dispatch
    binding carry to name the exact descriptor they were made against. *)

From S2P Require Import Prelude PyValue Json Sha256.

Definition AUTHORITY_PROFILES : list string :=
  ["bot"; "user"; "enterprise_admin"; "account"].

(** A frozenset of scopes is kept as a list; only membership is read. *)
Record TrustedCapabilityDefinition := {
  capability_id : string;
  version : string;
  provider : string;
  input_schema : pyval;
  output_schema : pyval;
  required_scopes : list string;
  effect : string;
  risk : string;
  retry_policy : string;
  preview_fields : list string;
  verifier : option string;
  authority_profile : string;
  reinforced : bool;
}.

Fixpoint has_char (c : ascii) (s : string) : bool :=
  match s with
  | "" => false
  | String a s' => Ascii.eqb a c || has_char c s'
  end.

(** [__post_init__]: construction raises on a descriptor that breaks one of
    the catalog's rules. *)
Definition post_init (d : TrustedCapabilityDefinition) : result pyexn unit :=
  if negb (truthy (capability_id d)) || negb (has_char (chr 46) (capability_id d))
  then Err ValueError
  else if negb (str_in (effect d) ["read"; "write"]) then Err ValueError
  else if String.eqb (effect d) "write" && negb (truthy (preview_fields d))
  then Err ValueError
  else if negb (str_in (authority_profile d) AUTHORITY_PROFILES)
  then Err ValueError
  else Ok tt.

Definition well_formed (d : TrustedCapabilityDefinition) : Prop :=
  post_init d = Ok tt.

Record ConnectionCapabilitySnapshot := {
  snap_connection_id : string;
  snap_tenant_id : string;
  snap_capability_id : string;
  snap_capability_version : string;
  snap_credential_version : Z;
  snap_effective_scopes : list string;
  snap_health : string;
  snap_rollout_version : string;
}.

(** [_hash(value)] of planner.py and policy.py. *)
Definition hash_value (v : pyval) : string := sha256 (dumps v).

Definition opt_str (o : option string) : pyval :=
  match o with Some s => VStr s | None => VNone end.

Definition definition_projection (d : TrustedCapabilityDefinition) : pyval :=
  VDict [
    ("capability_id", VStr (capability_id d));
    ("version", VStr (version d));
    ("provider", VStr (provider d));
    ("input_schema", input_schema d);
    ("output_schema", output_schema d);
    ("required_scopes", VList (map VStr (str_sorted_set (required_scopes d))));
    ("effect", VStr (effect d));
    ("risk", VStr (risk d));
    ("retry_policy", VStr (retry_policy d));
    ("preview_fields", VList (map VStr (preview_fields d)));
    ("verifier", opt_str (verifier d))].

Definition descriptor_hash (d : TrustedCapabilityDefinition) : string :=
  hash_value (definition_projection d).

(** The dictionary [{(item.capability_id, item.version): item for item in
    definitions}]: a later descriptor replaces an earlier one with the same
    key. *)
Fixpoint find_definition (ds : list TrustedCapabilityDefinition)
    (cid ver : string) : option TrustedCapabilityDefinition :=
  match ds with
  | [] => None
  | d :: ds' =>
      match find_definition ds' cid ver with
      | Some d' => Some d'
      | None => if String.eqb (capability_id d) cid && String.eqb (version d) ver
                then Some d else None
      end
  end.

Lemma find_definition_key ds cid ver d :
  find_definition ds cid ver = Some d ->
  d ∈ ds /\ capability_id d = cid /\ version d = ver.
Proof.
  induction ds as [|x ds IH]; simpl; [done|]. intros H.
  destruct (find_definition ds cid ver) as [d'|] eqn:E.
  - injection H as ->. destruct (IH eq_refl) as (?&?&?).
    split; [by right|done].
  - guards H. bool_hyps. simplify_eq. split; [left|done].
Qed.

(** ** What the descriptor hash binds *)

Lemma hash_value_binds v w :
  hash_value v = hash_value w -> norm v = norm w \/ collides (dumps v) (dumps w).
Proof.
  intros H. destruct (decide (dumps v = dumps w)) as [E|E].
  - left. by apply dumps_inj.
  - right. by split.
Qed.

Lemma map_VStr_inj l1 l2 :
  map norm (map VStr l1) = map norm (map VStr l2) -> l1 = l2.
Proof.
  revert l2; induction l1 as [|x l1 IH]; intros [|y l2]; simpl; try done.
  intros [= -> H]. f_equal. by apply IH.
Qed.

Lemma opt_str_inj o1 o2 : norm (opt_str o1) = norm (opt_str o2) -> o1 = o2.
Proof. by destruct o1, o2; simpl; intros [=]; subst. Qed.

(** A descriptor hash names the authority and the contract of one
    descriptor: equal hashes mean equal identity, schemas, scopes, effect,
    risk, retry policy, preview fields and verifier, unless the two
    canonical texts are a SHA-256 collision. *)
Definition same_descriptor (d1 d2 : TrustedCapabilityDefinition) : Prop :=
  capability_id d1 = capability_id d2 /\ version d1 = version d2 /\
  provider d1 = provider d2 /\
  norm (input_schema d1) = norm (input_schema d2) /\
  norm (output_schema d1) = norm (output_schema d2) /\
  (forall s, s ∈ required_scopes d1 <-> s ∈ required_scopes d2) /\
  effect d1 = effect d2 /\ risk d1 = risk d2 /\
  retry_policy d1 = retry_policy d2 /\
  preview_fields d1 = preview_fields d2 /\ verifier d1 = verifier d2.

Lemma projection_field d1 d2 k v1 v2 :
  dumps (definition_projection d1) = dumps (definition_projection d2) ->
  dget (as_mapping (definition_projection d1)) k = Some v1 ->
  dget (as_mapping (definition_projection d2)) k = Some v2 ->
  norm v1 = norm v2.
Proof.
  intros H H1 H2.
  assert (Some (norm v1) = Some (norm v2)) as [= ->]; [|done].
  change (Some (norm v1)) with (norm <$> Some v1).
  change (Some (norm v2)) with (norm <$> Some v2).
  rewrite <- H1, <- H2. apply dumps_dict_field; [..|exact H];
    simpl; apply (bool_decide_unpack _); reflexivity.
Qed.

Lemma projection_dumps_inj d1 d2 :
  dumps (definition_projection d1) = dumps (definition_projection d2) ->
  same_descriptor d1 d2.
Proof.
  intros H. pose proof (fun k v1 v2 => projection_field d1 d2 k v1 v2 H) as F.
  unfold same_descriptor. repeat split.
  all: try (by injection (F "capability_id" _ _ eq_refl eq_refl)).
  all: try (by injection (F "version" _ _ eq_refl eq_refl)).
  all: try (by injection (F "provider" _ _ eq_refl eq_refl)).
  all: try (by injection (F "effect" _ _ eq_refl eq_refl)).
  all: try (by injection (F "risk" _ _ eq_refl eq_refl)).
  all: try (by injection (F "retry_policy" _ _ eq_refl eq_refl)).
  - exact (F "input_schema" _ _ eq_refl eq_refl).
  - exact (F "output_schema" _ _ eq_refl eq_refl).
  - injection (F "required_scopes" _ _ eq_refl eq_refl) as E%map_VStr_inj.
    rewrite <- str_sorted_set_elem, E. by rewrite str_sorted_set_elem.
  - injection (F "required_scopes" _ _ eq_refl eq_refl) as E%map_VStr_inj.
    rewrite <- str_sorted_set_elem, <- E. by rewrite str_sorted_set_elem.
  - injection (F "preview_fields" _ _ eq_refl eq_refl) as E%map_VStr_inj. done.
  - exact (opt_str_inj _ _ (F "verifier" _ _ eq_refl eq_refl)).
Qed.

(** The descriptor hash carried by every plan step and dispatch binding
    identifies the descriptor: two descriptors with the same hash have the
    same identity, provider, schemas (up to key order), required scopes,
    effect, risk, retry policy, preview fields and verifier, unless their
    canonical texts are a SHA-256 collision.  The authority profile and the
    [reinforced] flag are not covered by the hash. *)
Theorem descriptor_hash_binds d1 d2 :
  descriptor_hash d1 = descriptor_hash d2 ->
  same_descriptor d1 d2 \/
  collides (dumps (definition_projection d1)) (dumps (definition_projection d2)).
Proof.
  intros H. destruct (decide (dumps (definition_projection d1)
                              = dumps (definition_projection d2))) as [E|E].
  - left. by apply projection_dumps_inj.
  - right. by split.
Qed.

Lemma descriptor_hash_binds_witness :
  let d := {| capability_id := "a.b"; version := "1"; provider := "slack";
    input_schema := VDict []; output_schema := VDict [];
    required_scopes := ["x"; "y"]; effect := "read"; risk := "low";
    retry_policy := "safe"; preview_fields := []; verifier := None;
    authority_profile := "bot"; reinforced := false |} in
  let d' := {| capability_id := "a.b"; version := "1"; provider := "slack";
    input_schema := VDict []; output_schema := VDict [];
    required_scopes := ["y"; "x"; "y"]; effect := "read"; risk := "low";
    retry_policy := "safe"; preview_fields := []; verifier := None;
    authority_profile := "user"; reinforced := false |} in
  same_descriptor d d' \/
  collides (dumps (definition_projection d)) (dumps (definition_projection d')).
Proof. intros d d'. apply descriptor_hash_binds. vm_compute. reflexivity. Defined.
