(* ===== verification/Runtime.v ===== *)
(** * The provider runtimes

    The executable side of src/libs/integrations/catalog.py: connection
    snapshots read from a mapping, the registry that binds a descriptor to a
    provider's runtime, and the credential strategies that turn a sealed
    secret into short-lived authority.  Connectors and executors are provider
    clients: a runtime is known by its provider's name, and what a refresh
    returns is an argument.  A sealed secret is seen through its two readings,
    as text and as a JSON document. *)

From S2P Require Import Prelude PyValue Json Sha256 Catalog.
Local Open Scope Z_scope.

(** ** The exceptions of a provider call *)

(** By the classes the broker tells apart; [Unlisted] is one it does not
    catch. *)
Inductive exn_kind : Type :=
| ManagedOAuthError
| SlackRateLimitError (retry : Z)
| SlackAPIError (code category : string)
| ProviderNetworkError
| OtherProviderError
| PermissionDenied
| KeyMissing
| BadValue
| Unlisted.
Record provider_exn := {
  kind : exn_kind;
  message : string;
  class_name : string;
  retry_after : option Z;
}.
Definition permission_error (msg : string) : provider_exn :=
  {| kind := PermissionDenied; message := msg; class_name := "PermissionError"; retry_after := None |}.
Definition value_error (msg : string) : provider_exn :=
  {| kind := BadValue; message := msg; class_name := "ValueError"; retry_after := None |}.

(** ** Connection snapshots *)

Record snapshot := {
  sn_connection_id : pyval;
  sn_tenant_id : pyval;
  sn_capability_id : pyval;
  sn_capability_version : pyval;
  sn_credential_version : Z;
  sn_effective_scopes : list pyval;
  sn_health : pyval;
  sn_rollout_version : pyval;
}.

(** [frozenset(v)] of a value that is given. *)
Definition py_frozenset (v : pyval) : option (list pyval) :=
  match py_iter v with
  | Ok l => if forallb hashable l then Some (py_dedup l []) else None
  | Err _ => None
  end.

(** [ConnectionCapabilitySnapshot.from_mapping]; [None] is
    [CapabilityUnavailable]. *)
Definition from_mapping (value : pyval) : option snapshot :=
  match value with
  | VDict d =>
      connection_id ← dget d "connection_id";
      tenant_id ← dget d "tenant_id";
      capability_id ← dget d "capability_id";
      capability_version ← dget d "capability_version";
      credential ← dget d "credential_version";
      credential_version ← match py_int credential with Ok z => Some z | Err _ => None end;
      effective_scopes ← py_frozenset (get_or d "effective_scopes" (VList []));
      health ← dget d "health";
      rollout ← dget d "rollout_version";
      Some {| sn_connection_id := connection_id; sn_tenant_id := tenant_id;
              sn_capability_id := capability_id; sn_capability_version := capability_version;
              sn_credential_version := credential_version; sn_effective_scopes := effective_scopes;
              sn_health := health; sn_rollout_version := rollout |}
  | _ => None
  end.

(** ** The registry *)

Inductive CredentialStrategy : Type :=
| RefreshedOAuth | SealedTokenDocument | StaticAccount | FirstPartyStore.

Record ProviderRuntime := {
  rt_provider : string;
  rt_definitions : list TrustedCapabilityDefinition;
  rt_strategy : CredentialStrategy;
}.
Definition runtime_ok (rt : ProviderRuntime) : bool :=
  truthy (rt_provider rt)
  && forallb (fun d => String.eqb (provider d) (rt_provider rt)) (rt_definitions rt).

Definition registry : Type := list (TrustedCapabilityDefinition * ProviderRuntime).
Definition entry_for (r : registry) (cid ver : string) : option (TrustedCapabilityDefinition * ProviderRuntime) :=
  List.find (fun e => String.eqb (capability_id e.1) cid && String.eqb (version e.1) ver) r.
Fixpoint register_all (r : registry) (rt : ProviderRuntime) (ds : list TrustedCapabilityDefinition)
    : result pyexn registry :=
  match ds with
  | [] => Ok r
  | d :: ds' =>
      match entry_for r (capability_id d) (version d) with
      | Some _ => Err ValueError
      | None => register_all (r ++ [(d, rt)]) rt ds'
      end
  end.
Definition register (r : registry) (rt : ProviderRuntime) : result pyexn registry :=
  if runtime_ok rt then register_all r rt (rt_definitions rt) else Err ValueError.
Fixpoint build_registry (r : registry) (rts : list ProviderRuntime) : result pyexn registry :=
  match rts with
  | [] => Ok r
  | rt :: rts' => match register r rt with Ok r' => build_registry r' rts' | Err e => Err e end
  end.

Record CapabilityBinding := {
  cb_definition : TrustedCapabilityDefinition;
  cb_provider : string;
  cb_strategy : CredentialStrategy;
  cb_snapshot : snapshot;
}.

(** [resolve]; [None] is [CapabilityUnavailable] or, for an unhashable key,
    [TypeError]: the broker answers both alike. *)
Definition resolve (r : registry) (s : snapshot) (expected_rollout : string)
    : option CapabilityBinding :=
  match sn_capability_id s, sn_capability_version s with
  | VStr cid, VStr ver =>
      match entry_for r cid ver with
      | Some (d, rt) =>
          if val_is (sn_health s) "healthy" && val_is (sn_rollout_version s) expected_rollout
             && (0 <? sn_credential_version s)
             && subset (map VStr (required_scopes d)) (sn_effective_scopes s)
          then Some {| cb_definition := d; cb_provider := rt_provider rt;
                       cb_strategy := rt_strategy rt; cb_snapshot := s |}
          else None
      | None => None
      end
  | _, _ => None
  end.

(** ** Credential strategies *)

(** What [secret.decode("utf-8")] and [json.loads] of it give. *)
Record sealed := { as_text : option string; as_document : option pyval }.
Record authority := {
  access_token : string;
  granted_scopes : list pyval;
  account_id : option string;
}.

(** [frozenset(v or ())]; what it raises is not caught by the broker. *)
Definition scopes_of (v : pyval) : result provider_exn (list pyval) :=
  match py_set v with
  | Ok l => Ok l
  | Err _ => Err {| kind := Unlisted; message := ""; class_name := "TypeError"; retry_after := None |}
  end.
Definition text_field (d : list (string * pyval)) (field : string) : option string :=
  match get d field with VStr s => if truthy s then Some s else None | _ => None end.

Section strategies.
(** [connector.refresh]: the access token and the scopes it came with. *)
Context (refresh : string -> result provider_exn (string * pyval)).

Definition refreshed (secret : sealed) : result provider_exn authority :=
  match as_text secret with
  | None => Err (value_error "UnicodeDecodeError")
  | Some t =>
      match refresh t with
      | Err e => Err e
      | Ok (token, scopes) =>
          match scopes_of scopes with
          | Ok l => Ok {| access_token := token; granted_scopes := l; account_id := None |}
          | Err e => Err e
          end
      end
  end.
Definition sealed_document (secret : sealed) : result provider_exn (list (string * pyval)) :=
  match as_document secret with
  | Some (VDict d) => Ok d
  | _ => Err (permission_error "sealed credential document is invalid")
  end.
Definition document_authority (d : list (string * pyval)) (token_field : string)
    (account : option string) : result provider_exn authority :=
  match text_field d token_field with
  | None => Err (permission_error "provider access authority is unavailable")
  | Some token =>
      match scopes_of (get d "granted_scopes") with
      | Ok l => Ok {| access_token := token; granted_scopes := l; account_id := account |}
      | Err e => Err e
      end
  end.
Definition static_account (d : list (string * pyval)) : result provider_exn authority :=
  match text_field d "account_id" with
  | None => Err (permission_error "provider account identity is unavailable")
  | Some a => document_authority d "auth_token" (Some a)
  end.

(** [credential_strategy.authority(secret, connector)]. *)
Definition strategy_authority (st : CredentialStrategy) (has_connector : bool) (secret : sealed)
    : result provider_exn authority :=
  match st with
  | RefreshedOAuth =>
      if has_connector then refreshed secret
      else Err (permission_error "credential refresh is not configured")
  | SealedTokenDocument =>
      match sealed_document secret with
      | Ok d => document_authority d "access_token" None
      | Err e => Err e
      end
  | StaticAccount =>
      match sealed_document secret with
      | Ok d => static_account d
      | Err e => Err e
      end
  | FirstPartyStore => Err (permission_error "a first-party store issues no provider authority")
  end.
End strategies.

(** ** Retry classes *)

Definition REINFORCED_CAPABILITIES : list string :=
  ["slack.channel.create"; "slack.channel.rename"; "slack.channel.set_topic";
   "slack.channel.archive"; "slack.channel.invite"].
Definition IDEMPOTENT_WRITES : list string :=
  ["slack.reaction.add"; "slack.reaction.remove"; "slack.message.pin"; "slack.message.unpin"].
Definition capability_reinforced (capability_id : string) : bool :=
  str_in capability_id REINFORCED_CAPABILITIES.
Definition capability_retry_policy (capability_id effect : string) : string :=
  if negb (String.eqb effect "write") then "safe"
  else if str_in capability_id IDEMPOTENT_WRITES then "idempotent" else "reconcile".

(** ** A registry is typed *)

Definition entry_key (e : TrustedCapabilityDefinition * ProviderRuntime) : string * string :=
  (capability_id e.1, version e.1).
(** An entry of the registry of [rts]: a runtime that was registered, and one
    of its own definitions. *)
Definition entry_of (rts : list ProviderRuntime) (e : TrustedCapabilityDefinition * ProviderRuntime) : Prop :=
  e.2 ∈ rts /\ e.1 ∈ rt_definitions e.2 /\ provider e.1 = rt_provider e.2.

Lemma entry_for_key r e cid ver :
  entry_for r cid ver = Some e -> e ∈ r /\ entry_key e = (cid, ver).
Proof.
  unfold entry_for. intros H. apply find_some in H as [Hin H]. rewrite andb_true_iff, !String.eqb_eq in H.
  destruct H as [<- <-]. split; [by apply list_elem_of_In|done].
Qed.
Lemma entry_for_none r cid ver : entry_for r cid ver = None -> (cid, ver) ∉ map entry_key r.
Proof.
  intros H (e & E & Hin)%list_elem_of_fmap. apply list_elem_of_In in Hin.
  pose proof (find_none _ _ H e Hin) as Hn. unfold entry_key in E. injection E as -> ->.
  by rewrite !String.eqb_refl in Hn.
Qed.
Lemma entry_for_unique r e : NoDup (map entry_key r) -> e ∈ r -> entry_for r (capability_id e.1) (version e.1) = Some e.
Proof.
  induction r as [|x r IH]; [by intros _ ?%elem_of_nil|]. cbn [map]. intros [Hx Hn]%NoDup_cons Hin.
  unfold entry_for. cbn [List.find]. destruct (String.eqb _ _ && String.eqb _ _) eqn:E.
  - rewrite andb_true_iff, !String.eqb_eq in E. apply elem_of_cons in Hin as [->|Hin]; [done|].
    destruct Hx. apply list_elem_of_fmap. exists e. split; [|done]. unfold entry_key. by destruct E as [-> ->].
  - apply elem_of_cons in Hin as [->|Hin]; [by rewrite !String.eqb_refl in E|]. by apply IH.
Qed.

Lemma register_all_ok r rt ds r' :
  register_all r rt ds = Ok r' -> NoDup (map entry_key r) ->
  r' = r ++ map (fun d => (d, rt)) ds /\ NoDup (map entry_key r').
Proof.
  revert r. induction ds as [|d ds IH]; intros r; cbn [register_all]; [intros [= <-]; by rewrite app_nil_r|].
  destruct (entry_for r _ _) as [|] eqn:E; [done|]. intros H Hn.
  destruct (IH _ H) as [-> Hn'].
  { rewrite map_app. apply NoDup_app. split; [done|]. split; [|apply NoDup_singleton].
    intros k Hk ->%list_elem_of_singleton. by apply entry_for_none in E. }
  split; [by rewrite <- app_assoc|exact Hn'].
Qed.
Lemma register_ok r rt r' :
  register r rt = Ok r' -> NoDup (map entry_key r) ->
  r' = r ++ map (fun d => (d, rt)) (rt_definitions rt) /\ NoDup (map entry_key r')
  /\ forall d, d ∈ rt_definitions rt -> provider d = rt_provider rt.
Proof.
  unfold register, runtime_ok. destruct (truthy (rt_provider rt) && _) eqn:E; [|done]. intros H Hn.
  destruct (register_all_ok _ _ _ _ H Hn) as [-> Hn']. split; [done|]. split; [done|].
  apply andb_true_iff in E as [_ E]. rewrite forallb_forall in E. intros d Hd%list_elem_of_In.
  by apply String.eqb_eq, E.
Qed.

Lemma build_registry_ok rts r r' :
  build_registry r rts = Ok r' -> NoDup (map entry_key r) ->
  NoDup (map entry_key r') /\ r ⊆ r'
  /\ (forall e, e ∈ r' -> e ∈ r \/ entry_of rts e)
  /\ (forall rt d, rt ∈ rts -> d ∈ rt_definitions rt -> (d, rt) ∈ r').
Proof.
  revert r. induction rts as [|rt rts IH]; intros r; cbn [build_registry].
  { intros [= <-] Hn. split_and!; [done..|by left|by intros ? ? ?%elem_of_nil]. }
  destruct (register r rt) as [r1|e] eqn:E; [|done]. intros H Hn.
  destruct (register_ok _ _ _ E Hn) as (-> & Hn1 & Hp). destruct (IH _ H Hn1) as (Hn' & Hsub & Hin & Hall).
  split; [done|]. split; [set_solver|]. split.
  - intros e He. destruct (Hin e He) as [[H1|H1]%elem_of_app|(H1 & H2 & H3)]; [by left| |].
    + right. apply list_elem_of_fmap in H1 as (d & -> & Hd). split; [by left|]. split; [done|]. by apply Hp.
    + right. split; [by right|done].
  - intros rt' d [->|Hrt]%elem_of_cons Hd; [|by apply Hall]. apply Hsub, elem_of_app. right.
    apply list_elem_of_fmap. by exists d.
Qed.

(** C8. A registry is typed.  When a registry is built from provider runtimes,
    the binding it resolves a snapshot to belongs to exactly one of them: a
    descriptor that runtime declares, for its own provider and with its own
    credential strategy, of the capability and version the snapshot names; the
    connection is healthy, on the expected rollout, with a positive credential
    version and every scope the descriptor requires; and no other runtime
    declares that version. *)
Theorem resolution_is_typed rts r s rollout_expected b :
  build_registry [] rts = Ok r -> resolve r s rollout_expected = Some b ->
  exists rt, rt ∈ rts /\ cb_definition b ∈ rt_definitions rt
    /\ cb_provider b = rt_provider rt /\ provider (cb_definition b) = rt_provider rt
    /\ cb_strategy b = rt_strategy rt /\ cb_snapshot b = s
    /\ sn_capability_id s = VStr (capability_id (cb_definition b))
    /\ sn_capability_version s = VStr (version (cb_definition b))
    /\ sn_health s = VStr "healthy" /\ sn_rollout_version s = VStr rollout_expected
    /\ 0 < sn_credential_version s
    /\ (forall x, x ∈ required_scopes (cb_definition b) -> mem (VStr x) (sn_effective_scopes s) = true)
    /\ (forall rt' d, rt' ∈ rts -> d ∈ rt_definitions rt' ->
          capability_id d = capability_id (cb_definition b) -> version d = version (cb_definition b) ->
          (d, rt') = (cb_definition b, rt)).
Proof.
  intros Hb Hr. destruct (build_registry_ok rts [] r Hb) as (Hn & _ & Hin & Hall); [constructor|].
  unfold resolve in Hr. destruct (sn_capability_id s) as [| | |cid| |] eqn:Ec; try done.
  destruct (sn_capability_version s) as [| | |ver| |] eqn:Ev; try done.
  destruct (entry_for r cid ver) as [[d rt]|] eqn:Ee; [|done].
  destruct (_ && _ && _ && _) eqn:Eg; [|done]. injection Hr as <-. cbn [cb_definition cb_provider cb_strategy cb_snapshot].
  rewrite !andb_true_iff, !val_is_spec, Z.ltb_lt in Eg. destruct Eg as [[[Hh Hro] Hcv] Hsc].
  destruct (entry_for_key _ _ _ _ Ee) as [He Hk]. unfold entry_key in Hk. injection Hk as <- <-.
  destruct (Hin _ He) as [?%elem_of_nil|(H1 & H2 & H3)]; [done|]. cbn [fst snd] in *.
  exists rt. split_and!; try done.
  - intros x Hx. unfold subset in Hsc. rewrite forallb_forall in Hsc. apply (Hsc (VStr x)), in_map, list_elem_of_In, Hx.
  - intros rt' d' Hrt Hd Ei Ew. pose proof (entry_for_unique r (d', rt') Hn (Hall rt' d' Hrt Hd)) as E.
    cbn [fst] in E. rewrite Ei, Ew, Ee in E. by injection E as <- <-.
Qed.

Definition ex_mail : TrustedCapabilityDefinition := {|
  capability_id := "gmail.send"; version := "1"; provider := "google"; input_schema := VDict [];
  output_schema := VDict []; required_scopes := ["mail.send"]; effect := "write"; risk := "high";
  retry_policy := "none"; preview_fields := []; verifier := None; authority_profile := "bot";
  reinforced := false |}.
Definition ex_runtimes : list ProviderRuntime := [
  {| rt_provider := "google"; rt_definitions := [ex_mail]; rt_strategy := RefreshedOAuth |};
  {| rt_provider := "contacts"; rt_definitions := []; rt_strategy := FirstPartyStore |}].
Definition ex_mail_snapshot : snapshot := {|
  sn_connection_id := VStr "c1"; sn_tenant_id := VStr "t1"; sn_capability_id := VStr "gmail.send";
  sn_capability_version := VStr "1"; sn_credential_version := 1; sn_effective_scopes := [VStr "mail.send"];
  sn_health := VStr "healthy"; sn_rollout_version := VStr "r1" |}.
Lemma resolution_is_typed_witness :
  exists r b rt, build_registry [] ex_runtimes = Ok r /\ resolve r ex_mail_snapshot "r1" = Some b
  /\ rt ∈ ex_runtimes /\ cb_provider b = rt_provider rt.
Proof.
  assert (exists r, build_registry [] ex_runtimes = Ok r) as [r Hr] by (eexists; reflexivity).
  assert (exists b, resolve r ex_mail_snapshot "r1" = Some b) as [b Hb]
    by (injection Hr as <-; eexists; reflexivity).
  destruct (resolution_is_typed ex_runtimes r ex_mail_snapshot "r1" b Hr Hb) as (rt & Hrt & _ & Hp & _).
  exists r, b, rt. split; [exact Hr|]. split; [exact Hb|]. split; [exact Hrt|exact Hp].
Defined.
