(* ===== verification/Policy.v ===== *)
(** * The dispatch policy

    [PolicyEvaluator] of src/agents/orchestrator/policy.py: one immutable
    dispatch binding, the connection snapshot it was planned against and the
    live connection are reduced to a decision, with the hash of everything
    that was considered.  The evaluator is given here branch by branch; the
    specification [authorised] lists what an allowed dispatch has
    established, and [evaluate_allowed_iff] says the evaluator allows exactly
    those. *)

From S2P Require Import Prelude PyValue Json Sha256 Catalog.

Record PolicyEvaluator := {
  pe_version : string;
  rollout_version : string;
  pe_definitions : list TrustedCapabilityDefinition;
}.

Record decision := {
  allowed : bool;
  reason : string;
  d_version : string;
  input_hash : string;
  decision_hash : string;
}.

Abbreviation dict := (list (string * pyval)).

(** [self._definitions.get((capability_id, capability_version))]: a tuple
    with an unhashable component raises. *)
Definition lookup_definition (pe : PolicyEvaluator) (cid ver : pyval)
    : result pyexn (option TrustedCapabilityDefinition) :=
  if hashable cid && hashable ver then
    match cid, ver with
    | VStr c, VStr v => Ok (find_definition (pe_definitions pe) c v)
    | _, _ => Ok None
    end
  else Err TypeError.

(** Everything the decision considers, as the mapping that is hashed. *)
Definition normalized (pe : PolicyEvaluator) (binding : dict)
    (effective_scopes bound_scopes : list pyval) : pyval :=
  VDict [
    ("tenant_id", get binding "tenant_id");
    ("principal_id", get binding "user_principal_id");
    ("connection_id", get binding "connection_id");
    ("authority_profile", get_or binding "authority_profile" (VStr "bot"));
    ("authority_profile_id", get binding "authority_profile_id");
    ("slack_subject_id", get binding "slack_subject_id");
    ("provider_account_id", get binding "provider_account_id");
    ("bound_scopes", VList bound_scopes);
    ("capability_id", get binding "capability_id");
    ("capability_version", get binding "capability_version");
    ("descriptor_snapshot_hash", get binding "descriptor_snapshot_hash");
    ("effect", get binding "effect");
    ("credential_id", get binding "credential_id");
    ("credential_version", get binding "credential_version");
    ("effective_scopes", VList effective_scopes);
    ("rollout_version", VStr (rollout_version pe));
    ("plan_graph_hash", get binding "plan_graph_hash");
    ("workflow_revision_id", get binding "workflow_revision_id");
    ("step_id", get binding "step_id");
    ("attempt", get binding "attempt");
    ("approval_payload_hash", get binding "approval_payload_hash");
    ("approval_expires_at", get binding "approval_expires_at");
    ("slack_connect", get_or binding "slack_connect" (VBool false));
    ("data_egress", get_or binding "data_egress" (VBool false))].

(** A user-token dispatch must carry proof of whose token it is. *)
Definition personal_authority_reason (binding : dict) : option string :=
  let profile_id := get binding "authority_profile_id" in
  let subject := get binding "slack_subject_id" in
  let authorization := get binding "authority_authorization" in
  if negb (truthy profile_id) || negb (truthy subject)
  then Some "personal_authority_unbound"
  else match authorization with
  | VDict auth =>
      if py_neqb (get auth "authority_profile_id") profile_id
      then Some "personal_authority_mismatch"
      else if negb (is_true (get auth "allowed"))
      then Some "personal_authority_denied"
      else if negb (val_in (get auth "reason") ["requester_is_subject"; "delegated"])
      then Some "personal_authority_denied"
      else None
  | _ => Some "personal_authority_unproven"
  end.

(** An account-token dispatch must say which account it leaves from. *)
Definition account_authority_reason (binding snapshot live : dict)
    : option string :=
  let account_id := get binding "provider_account_id" in
  if negb (truthy account_id) then Some "account_authority_unbound"
  else if py_neqb account_id (get snapshot "provider_account_id")
  then Some "account_authority_mismatch"
  else if py_neqb account_id (get live "provider_account_id")
  then Some "account_authority_mismatch"
  else if negb (val_is (get live "account_status") "verified")
  then Some "account_authority_unverified"
  else None.

Definition required_fields : list string :=
  ["tenant_id"; "user_principal_id"; "connection_id"; "capability_id";
   "capability_version"; "descriptor_snapshot_hash"; "effect";
   "credential_id"; "credential_version"; "plan_graph_hash";
   "workflow_revision_id"; "step_id"; "attempt"].

(** [value in (None, "")]. *)
Definition blank (v : pyval) : bool :=
  match v with VNone => true | VStr s => String.eqb s "" | _ => false end.

(** The three versions, when [int()] reads all of them. *)
Definition three_ints (a b c : pyval) : option (Z * Z * Z) :=
  match py_int a, py_int b, py_int c with
  | Ok x, Ok y, Ok z => Some (x, y, z)
  | _, _, _ => None
  end.

Definition profile_reason (profile : pyval) (binding snapshot live : dict)
    : option string :=
  match (if val_is profile "user" then personal_authority_reason binding else None) with
  | Some r => Some r
  | None => if val_is profile "account"
            then account_authority_reason binding snapshot live else None
  end.

(** The approval a write must carry. *)
Definition write_reason (binding : dict) (now_ts : Z) : option string :=
  if negb (truthy (get binding "approval_payload_hash"))
  then Some "approval_binding_missing"
  else if py_neqb (get binding "approval_payload_hash") (get binding "payload_hash")
  then Some "approval_binding_mismatch"
  else match py_int (get binding "approval_expires_at") with
       | Ok e => if (e <? now_ts)%Z then Some "approval_expired" else None
       | Err _ => Some "approval_binding_missing"
       end.

Notation "'deny' r 'when' c ;; k" := (if c then Ok (Some r) else k)
  (at level 100, r at level 9, c at level 90, right associativity).

(** [_denial_reason]: the first check that fails, in the order of the code;
    [None] when every check passes. *)
Definition denial_reason (pe : PolicyEvaluator) (binding snapshot live : dict)
    (definition : option TrustedCapabilityDefinition)
    (profile snapshot_profile live_profile : pyval)
    (effective_scopes : list pyval) (now_ts : Z) : result pyexn (option string) :=
  deny "incomplete_dynamic_binding"
    when existsb (fun f => blank (get binding f)) required_fields;;
  deny "connection_snapshot_missing"
    when negb (truthy (VDict snapshot)) || negb (truthy (VDict live));;
  match definition with
  | None => Ok (Some "capability_unavailable")
  | Some def =>
  deny "tenant_mismatch"
    when py_neqb (get binding "tenant_id") (get snapshot "tenant_id");;
  deny "tenant_mismatch"
    when py_neqb (get binding "tenant_id") (get live "tenant_id");;
  deny "connection_mismatch"
    when py_neqb (get binding "connection_id") (get snapshot "connection_id");;
  deny "connection_mismatch"
    when py_neqb (get binding "connection_id") (get live "connection_id");;
  deny "authority_profile_mismatch"
    when py_neqb profile snapshot_profile || py_neqb profile live_profile;;
  deny "enterprise_authority_unavailable"
    when val_is profile "enterprise_admin";;
  deny "unsupported_authority_profile"
    when negb (val_in profile ["bot"; "user"; "account"]);;
  deny "authority_profile_not_permitted"
    when negb (val_is profile (authority_profile def));;
  match profile_reason profile binding snapshot live with
  | Some r => Ok (Some r)
  | None =>
  deny "connection_unhealthy"
    when negb (val_is (get snapshot "health") "healthy")
         || negb (val_is (get live "status") "connected");;
  deny "rollout_drift"
    when negb (val_is (get snapshot "rollout_version") (rollout_version pe));;
  deny "capability_mismatch"
    when py_neqb (get snapshot "capability_id") (get binding "capability_id");;
  deny "capability_mismatch"
    when py_neqb (get snapshot "capability_version") (get binding "capability_version");;
  match py_set (get live "enabled_capabilities") with
  | Err e => Err e
  | Ok enabled =>
  deny "capability_mismatch"
    when negb (mem (get binding "capability_id") enabled);;
  deny "capability_mismatch"
    when negb (val_is (get binding "effect") (effect def));;
  deny "descriptor_mismatch"
    when negb (val_is (get binding "descriptor_snapshot_hash") (descriptor_hash def));;
  match three_ints (get binding "credential_version")
          (get snapshot "credential_version") (get live "credential_version") with
  | None => Ok (Some "credential_mismatch")
  | Some (credential_version, snapshot_version, live_version) =>
  deny "credential_mismatch"
    when (credential_version <=? 0)%Z
         || negb ((credential_version =? snapshot_version)%Z
                  && (snapshot_version =? live_version)%Z);;
  deny "credential_mismatch"
    when py_neqb (get binding "credential_id") (get live "credential_id");;
  match py_set (get snapshot "effective_scopes") with
  | Err e => Err e
  | Ok snapshot_scopes =>
  let required := map VStr (required_scopes def) in
  deny "missing_required_scopes" when negb (subset required snapshot_scopes);;
  deny "missing_required_scopes" when negb (subset required effective_scopes);;
  match py_set (get binding "bound_scopes") with
  | Err e => Err e
  | Ok bound_scopes =>
  deny "bound_authority_missing"
    when val_is profile "account" && String.eqb (effect def) "write"
         && negb (truthy bound_scopes);;
  deny "missing_bound_authority"
    when negb (subset bound_scopes snapshot_scopes)
         || negb (subset bound_scopes effective_scopes);;
  deny "slack_connect_denied" when negb (is_false (get binding "slack_connect"));;
  deny "data_egress_denied" when negb (is_false (get binding "data_egress"));;
  if String.eqb (effect def) "write" then Ok (write_reason binding now_ts)
  else Ok None
  end end end end end end.

(** The mapping [decision] that [decision_hash] is taken over. *)
Definition decision_material (ok : bool) (why ver ihash : string) : pyval :=
  VDict [("allowed", VBool ok); ("reason", VStr why); ("version", VStr ver);
         ("input_hash", VStr ihash)].

(** [evaluate]; anything that is not a mapping counts as an empty one. *)
Definition evaluate (pe : PolicyEvaluator) (binding_v live_v : pyval)
    (now_ts : Z) : result pyexn decision :=
  let binding := as_mapping binding_v in
  let snapshot := as_mapping (get binding "connection_snapshot") in
  let live := as_mapping live_v in
  match lookup_definition pe (get binding "capability_id")
          (get binding "capability_version") with
  | Err e => Err e
  | Ok definition =>
  let profile := get_or binding "authority_profile" (VStr "bot") in
  let snapshot_profile := get_or snapshot "authority_profile" (VStr "bot") in
  let live_profile := get_or live "authority_profile" (VStr "bot") in
  match py_sorted_set (get live "granted_scopes") with
  | Err e => Err e
  | Ok effective_scopes =>
  match py_sorted_set (get binding "bound_scopes") with
  | Err e => Err e
  | Ok bound =>
  let ihash := hash_value (normalized pe binding effective_scopes bound) in
  match denial_reason pe binding snapshot live definition profile
          snapshot_profile live_profile effective_scopes now_ts with
  | Err e => Err e
  | Ok r =>
      let ok := match r with None => true | Some _ => false end in
      let why := default "allowed" r in
      Ok {| allowed := ok; reason := why; d_version := pe_version pe;
            input_hash := ihash;
            decision_hash :=
              hash_value (decision_material ok why (pe_version pe) ihash) |}
  end end end end.

(** ** The specification *)

(** Python equality of two looked-up values. *)
Definition same (a b : pyval) : Prop := py_eqb a b = true.

(** A user token: proof, made for this profile, that the requester may act as
    the named subject. *)
Definition personal_authority (binding : dict) : Prop :=
  truthy (get binding "authority_profile_id") = true /\
  truthy (get binding "slack_subject_id") = true /\
  exists auth,
    get binding "authority_authorization" = VDict auth /\
    same (get auth "authority_profile_id") (get binding "authority_profile_id") /\
    get auth "allowed" = VBool true /\
    (get auth "reason" = VStr "requester_is_subject" \/
     get auth "reason" = VStr "delegated").

(** An account token: the account named by the binding is the one decided
    against, the one that is live, and it is verified. *)
Definition account_authority (binding snapshot live : dict) : Prop :=
  truthy (get binding "provider_account_id") = true /\
  same (get binding "provider_account_id") (get snapshot "provider_account_id") /\
  same (get binding "provider_account_id") (get live "provider_account_id") /\
  get live "account_status" = VStr "verified".

(** A write: an approval of exactly this payload, not yet expired. *)
Definition write_approved (binding : dict) (now_ts : Z) : Prop :=
  truthy (get binding "approval_payload_hash") = true /\
  same (get binding "approval_payload_hash") (get binding "payload_hash") /\
  exists e, py_int (get binding "approval_expires_at") = Ok e /\ (now_ts <= e)%Z.

Record authorised (pe : PolicyEvaluator) (binding snapshot live : dict)
    (profile : pyval) (def : TrustedCapabilityDefinition)
    (enabled snapshot_scopes granted bound : list pyval) (now_ts : Z) : Prop := {
  au_complete : forall f, f ∈ required_fields -> blank (get binding f) = false;
  au_present : snapshot <> [] /\ live <> [];
  au_tenant : same (get binding "tenant_id") (get snapshot "tenant_id") /\
              same (get binding "tenant_id") (get live "tenant_id");
  au_connection : same (get binding "connection_id") (get snapshot "connection_id") /\
                  same (get binding "connection_id") (get live "connection_id");
  au_profile : same profile (get_or snapshot "authority_profile" (VStr "bot")) /\
               same profile (get_or live "authority_profile" (VStr "bot"));
  au_supported : profile = VStr (authority_profile def) /\
                 (profile = VStr "bot" \/ profile = VStr "user" \/
                  profile = VStr "account");
  au_personal : profile = VStr "user" -> personal_authority binding;
  au_account : profile = VStr "account" -> account_authority binding snapshot live;
  au_health : get snapshot "health" = VStr "healthy" /\
              get live "status" = VStr "connected";
  au_rollout : get snapshot "rollout_version" = VStr (rollout_version pe);
  au_capability : same (get snapshot "capability_id") (get binding "capability_id") /\
                  same (get snapshot "capability_version")
                       (get binding "capability_version");
  au_enabled : mem (get binding "capability_id") enabled = true;
  au_effect : get binding "effect" = VStr (effect def);
  au_descriptor : get binding "descriptor_snapshot_hash" = VStr (descriptor_hash def);
  au_credential_version : exists v,
    py_int (get binding "credential_version") = Ok v /\
    py_int (get snapshot "credential_version") = Ok v /\
    py_int (get live "credential_version") = Ok v /\ (0 < v)%Z;
  au_credential : same (get binding "credential_id") (get live "credential_id");
  au_scopes : forall s, s ∈ required_scopes def ->
    mem (VStr s) snapshot_scopes = true /\ mem (VStr s) granted = true;
  au_bound : forall s, s ∈ bound ->
    mem s snapshot_scopes = true /\ mem s granted = true;
  au_sender : profile = VStr "account" -> effect def = "write" -> bound <> [];
  au_containment : get binding "slack_connect" = VBool false /\
                   get binding "data_egress" = VBool false;
  au_write : effect def = "write" -> write_approved binding now_ts;
}.

(** ** The guards, one by one *)

Lemma deny_none (c : bool) (r : string) (k : result pyexn (option string)) :
  (deny r when c;; k) = Ok None <-> c = false /\ k = Ok None.
Proof. destruct c; naive_solver. Qed.

Lemma val_is_true v s : val_is v s = true <-> v = VStr s.
Proof.
  destruct v; simpl; try naive_solver. rewrite String.eqb_eq. naive_solver.
Qed.

Lemma val_is_false v s : val_is v s = false <-> v <> VStr s.
Proof. rewrite <- val_is_true. destruct (val_is v s); naive_solver. Qed.

Lemma neqb_false a b : py_neqb a b = false <-> same a b.
Proof. unfold py_neqb, same. apply negb_false_iff. Qed.

Lemma not_val_is_false v s : negb (val_is v s) = false <-> v = VStr s.
Proof. rewrite negb_false_iff. apply val_is_true. Qed.

Lemma is_true_spec v : is_true v = true <-> v = VBool true.
Proof. destruct v as [|[]| | | |]; naive_solver. Qed.

Lemma not_is_false_spec v : negb (is_false v) = false <-> v = VBool false.
Proof. destruct v as [|[]| | | |]; naive_solver. Qed.

Lemma val_in_true v l : val_in v l = true <-> exists s, v = VStr s /\ s ∈ l.
Proof.
  destruct v; simpl; try naive_solver. rewrite str_in_spec. naive_solver.
Qed.

Lemma subset_spec a b : subset a b = true <-> forall x, x ∈ a -> mem x b = true.
Proof.
  unfold subset. rewrite forallb_forall. setoid_rewrite <- list_elem_of_In. done.
Qed.

Lemma required_subset ss b :
  subset (map VStr ss) b = true <-> forall s, s ∈ ss -> mem (VStr s) b = true.
Proof.
  rewrite subset_spec. split.
  - intros H s Hs. apply H. apply list_elem_of_fmap. eauto.
  - intros H x (s & -> & Hs)%list_elem_of_fmap. auto.
Qed.

Lemma blank_fields b fs :
  existsb (fun f => blank (get b f)) fs = false <->
  forall f, f ∈ fs -> blank (get b f) = false.
Proof.
  rewrite <- not_true_iff_false, existsb_exists. setoid_rewrite <- list_elem_of_In.
  split.
  - intros H f Hf. destruct (blank (get b f)) eqn:E; [exfalso; eauto|done].
  - intros H (f & Hf & E). rewrite H in E; done.
Qed.

Lemma personal_none b :
  personal_authority_reason b = None <-> personal_authority b.
Proof.
  unfold personal_authority_reason, personal_authority. split.
  - intros H. guards H. bool_hyps.
    repeat match goal with E : context [negb _] |- _ => rewrite negb_false_iff in E end.
    match goal with E : py_neqb _ _ = false |- _ => apply neqb_false in E end.
    match goal with E : is_true _ = true |- _ => apply is_true_spec in E end.
    match goal with E : val_in _ _ = true |- _ =>
      apply val_in_true in E as (s & ? & Hs) end.
    set_unfold in Hs. repeat split; [done..|]. eexists; repeat split; try done.
    naive_solver.
  - intros (-> & -> & auth & -> & H1 & -> & H2). simpl.
    apply neqb_false in H1. rewrite H1. simpl. destruct H2 as [-> | ->]; done.
Qed.

Lemma account_none b s l :
  account_authority_reason b s l = None <-> account_authority b s l.
Proof.
  unfold account_authority_reason, account_authority. split.
  - intros H. guards H. bool_hyps.
    repeat match goal with E : py_neqb _ _ = false |- _ => apply neqb_false in E end.
    match goal with E : val_is _ _ = true |- _ => apply val_is_true in E end. done.
  - intros (-> & H1%neqb_false & H2%neqb_false & ->). simpl. by rewrite H1, H2.
Qed.

Lemma write_none b now :
  write_reason b now = None <-> write_approved b now.
Proof.
  unfold write_reason, write_approved. split.
  - intros H. guards H. bool_hyps.
    match goal with E : py_neqb _ _ = false |- _ => apply neqb_false in E end.
    repeat split; try done. eauto with lia.
  - intros (-> & H1%neqb_false & e & -> & He). simpl. rewrite H1.
    apply Z.ltb_ge in He. by rewrite He.
Qed.

Lemma three_ints_some a b c x y z :
  three_ints a b c = Some (x, y, z) <->
  py_int a = Ok x /\ py_int b = Ok y /\ py_int c = Ok z.
Proof.
  unfold three_ints. destruct (py_int a), (py_int b), (py_int c); naive_solver.
Qed.

Lemma profile_reason_none profile b s l :
  profile_reason profile b s l = None <->
  (profile = VStr "user" -> personal_authority b) /\
  (profile = VStr "account" -> account_authority b s l).
Proof.
  unfold profile_reason.
  destruct (val_is profile "user") eqn:Hu, (val_is profile "account") eqn:Ha;
    rewrite ?val_is_true, ?val_is_false in *; subst;
    rewrite <- ?personal_none, <- ?account_none;
    try destruct (personal_authority_reason b); naive_solver.
Qed.

(** Prove that a guard does not fire. *)
Ltac guard_holds :=
  repeat match goal with
  | |- _ || _ = false => apply orb_false_iff; split
  | |- negb (val_is _ _) = false => apply not_val_is_false
  | |- val_is _ _ = false => apply val_is_false; intros ?
  | |- py_neqb _ _ = false => apply neqb_false
  | |- negb (is_false _) = false => apply not_is_false_spec
  | |- negb (val_in _ _) = false => apply negb_false_iff, val_in_true
  | |- negb (subset (map VStr _) _) = false =>
      apply negb_false_iff, required_subset
  | |- negb (subset _ _) = false => apply negb_false_iff, subset_spec
  | |- existsb _ _ = false => apply blank_fields
  | |- negb (_ && _) = false => apply negb_false_iff, andb_true_iff; split
  end.

(** Peel the guards off a hypothesis [denial_reason ... = Ok None]. *)
Ltac peel H :=
  repeat first
  [ let C := fresh "C" in apply deny_none in H as [C H]
  | match type of H with
    | context [match ?m with Err _ => _ | Ok _ => _ end] =>
        let E := fresh "E" in destruct m eqn:E; [|discriminate H]
    | context [match profile_reason ?p ?b ?s ?l with _ => _ end] =>
        let E := fresh "E" in destruct (profile_reason p b s l) eqn:E;
        [discriminate H|]
    | context [match three_ints ?a ?b ?c with _ => _ end] =>
        let E := fresh "E" in destruct (three_ints a b c) as [[[? ?] ?]|] eqn:E;
        [|discriminate H]
    end].

Section decisions.
Variable pe : PolicyEvaluator.
Variables (binding snapshot live : dict).
Variable profile : pyval.
Variables (granted : list pyval) (now_ts : Z).

Let snapshot_profile := get_or snapshot "authority_profile" (VStr "bot").
Let live_profile := get_or live "authority_profile" (VStr "bot").

Abbreviation reason_of def := (denial_reason pe binding snapshot live def
  profile snapshot_profile live_profile granted now_ts).

Lemma denial_none_authorised def :
  reason_of (Some def) = Ok None ->
  exists enabled snapshot_scopes bound,
    py_set (get live "enabled_capabilities") = Ok enabled /\
    py_set (get snapshot "effective_scopes") = Ok snapshot_scopes /\
    py_set (get binding "bound_scopes") = Ok bound /\
    authorised pe binding snapshot live profile def enabled snapshot_scopes
      granted bound now_ts.
Proof.
  unfold denial_reason. intros H. peel H.
  eexists _, _, _. split_and!; [reflexivity..|].
  repeat match goal with
  | C : _ || _ = false |- _ => apply orb_false_iff in C as [? ?]
  | C : negb (val_is _ _) = false |- _ => apply not_val_is_false in C
  | C : py_neqb _ _ = false |- _ => apply neqb_false in C
  | C : negb (is_false _) = false |- _ => apply not_is_false_spec in C
  | C : negb (val_in _ _) = false |- _ =>
      apply negb_false_iff, val_in_true in C as (? & ? & ?)
  | C : negb (subset (map VStr _) _) = false |- _ =>
      apply negb_false_iff in C; rewrite required_subset in C
  | C : negb (subset _ _) = false |- _ =>
      apply negb_false_iff in C; rewrite subset_spec in C
  | C : existsb _ _ = false |- _ => rewrite blank_fields in C
  | C : profile_reason _ _ _ _ = None |- _ =>
      apply profile_reason_none in C as [? ?]
  | C : three_ints _ _ _ = Some _ |- _ => apply three_ints_some in C as (? & ? & ?)
  | C : negb _ = false |- _ => apply negb_false_iff in C
  end. bool_hyps.
  match goal with C : _ ∈ ["bot"; _; _] |- _ => set_unfold in C end.
  subst. constructor; try assumption; try (by split).
  - split; intros ->; discriminate.
  - split; [done|]. match goal with C : _ = "bot" \/ _ |- _ =>
      destruct C as [->|[->|[->|[]]]] end; auto.
  - eexists. split_and!; [done|congruence|congruence|lia].
  - auto.
  - auto.
  - intros [= ->] Hw ->. match goal with
      C : val_is _ "account" && _ && _ = false |- _ => rewrite Hw in C end. done.
  - intros Hw. apply write_none. rewrite Hw in H. by injection H.
Qed.

Lemma authorised_denial_none def enabled snapshot_scopes bound :
  py_set (get live "enabled_capabilities") = Ok enabled ->
  py_set (get snapshot "effective_scopes") = Ok snapshot_scopes ->
  py_set (get binding "bound_scopes") = Ok bound ->
  authorised pe binding snapshot live profile def enabled snapshot_scopes
    granted bound now_ts ->
  reason_of (Some def) = Ok None.
Proof.
  intros He Hs Hb []. unfold denial_reason.
  destruct au_credential_version0 as (v & Hv1 & Hv2 & Hv3 & Hv).
  assert (profile_reason profile binding snapshot live = None) as Hp
    by by apply profile_reason_none.
  assert (three_ints (get binding "credential_version")
    (get snapshot "credential_version") (get live "credential_version")
    = Some (v, v, v)) as H3 by by apply three_ints_some.
  rewrite Hp, He, H3, Hs, Hb. destruct_and!.
  repeat (apply deny_none; split).
  all: guard_holds; try assumption; try (by intros s ?; destruct (au_scopes0 s));
    try (by intros s ?; destruct (au_bound0 s)).
  - by destruct snapshot.
  - by destruct live.
  - match goal with H : profile = VStr "bot" \/ _ |- _ =>
      destruct H as [E|[E|E]]; congruence end.
  - match goal with H : profile = VStr "bot" \/ _ |- _ =>
      destruct H as [E|[E|E]]; rewrite E end;
      eexists; (split; [reflexivity|set_solver]).
  - by rewrite au_enabled0.
  - by apply Z.leb_gt.
  - apply Z.eqb_refl.
  - apply Z.eqb_refl.
  - destruct (val_is profile "account") eqn:Ha; [|done].
    destruct (String.eqb (effect def) "write") eqn:Hw; [|done].
    apply val_is_true in Ha. apply String.eqb_eq in Hw.
    by destruct bound; [destruct (au_sender0 Ha Hw)|].
  - destruct (String.eqb (effect def) "write") eqn:E; [|done].
    f_equal. apply write_none. apply au_write0. by apply String.eqb_eq.
Qed.
End decisions.

(** ** The theorems about [evaluate] *)

Abbreviation snapshot_of b := (as_mapping (get (as_mapping b) "connection_snapshot")).

(** The binding names a catalogued descriptor and everything the
    specification asks of it holds. *)
Definition policy_authorises (pe : PolicyEvaluator) (b l : pyval) (now : Z) : Prop :=
  exists def enabled snapshot_scopes granted bound,
    lookup_definition pe (get (as_mapping b) "capability_id")
      (get (as_mapping b) "capability_version") = Ok (Some def) /\
    py_sorted_set (get (as_mapping l) "granted_scopes") = Ok granted /\
    py_set (get (as_mapping l) "enabled_capabilities") = Ok enabled /\
    py_set (get (snapshot_of b) "effective_scopes") = Ok snapshot_scopes /\
    py_set (get (as_mapping b) "bound_scopes") = Ok bound /\
    authorised pe (as_mapping b) (snapshot_of b) (as_mapping l)
      (get_or (as_mapping b) "authority_profile" (VStr "bot")) def enabled
      snapshot_scopes granted bound now.

Lemma allowed_authorised pe b l now d :
  evaluate pe b l now = Ok d -> allowed d = true -> policy_authorises pe b l now.
Proof.
  unfold evaluate, policy_authorises. intros H. peel H. rename a into odef, a0 into granted.
  injection H as <-. cbn [allowed]. destruct a2; [done|]. intros _. destruct odef as [def|].
  - destruct (denial_none_authorised _ _ _ _ _ _ _ _ E2) as (en & ss & bd & ? & ? & ? & ?).
    exists def, en, ss, granted, bd. done.
  - unfold denial_reason in E2. by guards E2.
Qed.

(** C1. The policy allows exactly the dispatches that are authorised: the
    decision is [allowed] if and only if the binding names a catalogued
    descriptor and every one of the conditions of [authorised] holds (tenant,
    connection, profile, personal or account authority, health, rollout,
    capability, descriptor, credential, scopes, bound scopes, containment
    flags, and for a write a matching unexpired approval).  Nothing outside
    that list is required and nothing in it can be skipped. *)
Theorem evaluate_allowed_iff pe b l now d :
  evaluate pe b l now = Ok d ->
  allowed d = true <-> policy_authorises pe b l now.
Proof.
  intros H. split; [by apply allowed_authorised|].
  unfold evaluate, policy_authorises in *. peel H. rename a into odef, a0 into granted.
  injection H as <-. cbn [allowed].
  intros (def & en & ss & g & bd & Hdef & Hg & ? & ? & ? & Hau).
  simplify_eq. by erewrite authorised_denial_none in E2 by done; simplify_eq.
Qed.

(** The binding fields the decision hash covers. *)
Definition hashed_fields : list string :=
  ["tenant_id"; "connection_id"; "authority_profile_id"; "slack_subject_id";
   "provider_account_id"; "capability_id"; "capability_version";
   "descriptor_snapshot_hash"; "effect"; "credential_id";
   "credential_version"; "plan_graph_hash"; "workflow_revision_id";
   "step_id"; "attempt"; "approval_payload_hash"; "approval_expires_at"].

Lemma normalized_get pe b e s k :
  k ∈ hashed_fields ->
  dget (as_mapping (normalized pe b e s)) k = Some (get b k).
Proof.
  intros Hk. unfold hashed_fields in Hk. set_unfold in Hk.
  repeat destruct Hk as [->|Hk]; done.
Qed.

Lemma normalized_nodup pe b e s :
  NoDup (as_mapping (normalized pe b e s)).*1.
Proof. simpl. apply (bool_decide_unpack _). reflexivity. Qed.

Lemma normalized_field pe1 b1 e1 s1 pe2 b2 e2 s2 k v1 v2 :
  dumps (normalized pe1 b1 e1 s1) = dumps (normalized pe2 b2 e2 s2) ->
  dget (as_mapping (normalized pe1 b1 e1 s1)) k = Some v1 ->
  dget (as_mapping (normalized pe2 b2 e2 s2)) k = Some v2 ->
  norm v1 = norm v2.
Proof.
  intros H H1 H2.
  pose proof (dumps_dict_field _ _ k (normalized_nodup pe1 b1 e1 s1)
    (normalized_nodup pe2 b2 e2 s2) H) as E.
  rewrite H1, H2 in E. by injection E.
Qed.

(** C2. The decision's input hash binds what the dispatch acts as.  If two
    evaluations produce the same input hash then the two bindings agree on
    the tenant, principal, connection, authority profile, Slack subject,
    provider account, capability, descriptor, effect, credential, plan,
    revision, step, attempt and approval, and on the granted and bound
    scopes and the rollout, unless the two canonical texts are a SHA-256
    collision: a dispatch cannot swap whose token it acts as after the
    decision. *)
Theorem input_hash_binds pe1 b1 l1 n1 d1 pe2 b2 l2 n2 d2 :
  evaluate pe1 b1 l1 n1 = Ok d1 ->
  evaluate pe2 b2 l2 n2 = Ok d2 ->
  input_hash d1 = input_hash d2 ->
  exists g1 s1 g2 s2,
    py_sorted_set (get (as_mapping l1) "granted_scopes") = Ok g1 /\
    py_sorted_set (get (as_mapping b1) "bound_scopes") = Ok s1 /\
    py_sorted_set (get (as_mapping l2) "granted_scopes") = Ok g2 /\
    py_sorted_set (get (as_mapping b2) "bound_scopes") = Ok s2 /\
    ((forall k, k ∈ "user_principal_id" :: hashed_fields ->
        norm (get (as_mapping b1) k) = norm (get (as_mapping b2) k)) /\
     map norm g1 = map norm g2 /\ map norm s1 = map norm s2 /\
     rollout_version pe1 = rollout_version pe2 \/
     collides (dumps (normalized pe1 (as_mapping b1) g1 s1))
              (dumps (normalized pe2 (as_mapping b2) g2 s2))).
Proof.
  unfold evaluate. intros H1 H2 Hh. peel H1. peel H2.
  injection H1 as <-. injection H2 as <-. cbn [input_hash] in Hh.
  eexists _, _, _, _. split_and!; [done..|].
  match type of Hh with hash_value ?x = hash_value ?y =>
    destruct (decide (dumps x = dumps y)) as [Heq|Hne] end;
    [left|right; by split].
  pose proof (fun k v1 v2 => normalized_field _ _ _ _ _ _ _ _ k v1 v2 Heq) as F.
  split_and!.
  - intros k [->|Hk]%elem_of_cons.
    + by apply (F "principal_id").
    + apply (F k); by apply normalized_get.
  - by injection (F "effective_scopes" _ _ eq_refl eq_refl).
  - by injection (F "bound_scopes" _ _ eq_refl eq_refl).
  - by injection (F "rollout_version" _ _ eq_refl eq_refl).
Qed.

(** The evaluator decides: on bindings whose identifiers are hashable
    and whose scope fields are absent or lists of texts, [evaluate] returns
    a decision and never raises, whatever else is missing or malformed. *)
Theorem evaluate_total pe b l now :
  hashable (get (as_mapping b) "capability_id") = true ->
  hashable (get (as_mapping b) "capability_version") = true ->
  scope_list (get (as_mapping l) "granted_scopes") ->
  scope_list (get (as_mapping l) "enabled_capabilities") ->
  scope_list (get (as_mapping b) "bound_scopes") ->
  scope_list (get (snapshot_of b) "effective_scopes") ->
  exists d, evaluate pe b l now = Ok d.
Proof.
  intros Hc Hv Hg He Hb Hs. unfold evaluate.
  assert (exists o, lookup_definition pe (get (as_mapping b) "capability_id")
    (get (as_mapping b) "capability_version") = Ok o) as [o ->].
  { unfold lookup_definition. rewrite Hc, Hv. simpl. repeat case_match; eauto. }
  destruct (py_sorted_set_scopes _ Hg) as [g ->].
  destruct (py_sorted_set_scopes _ Hb) as [bd ->].
  match goal with |- context [match ?x with Err _ => _ | Ok _ => _ end] =>
    enough (exists r, x = Ok r) as [r ->] by eauto end.
  unfold denial_reason.
  destruct (py_set_scopes _ He) as [? ->], (py_set_scopes _ Hb) as [? ->],
    (py_set_scopes _ Hs) as [? ->].
  repeat (case_match; eauto).
Qed.

(** ** A concrete dispatch: posting to Slack with a bot token *)

Definition ex_definition : TrustedCapabilityDefinition := {|
  capability_id := "slack.message.send"; version := "1"; provider := "slack";
  input_schema := VDict [("type", VStr "object")];
  output_schema := VDict [];
  required_scopes := ["chat:write"]; effect := "write"; risk := "medium";
  retry_policy := "none"; preview_fields := ["text"];
  verifier := None; authority_profile := "bot"; reinforced := false |}.

Definition ex_evaluator : PolicyEvaluator := {|
  pe_version := "policy-v3"; rollout_version := "r1";
  pe_definitions := [ex_definition] |}.

Definition ex_snapshot : pyval := VDict [
  ("tenant_id", VStr "t1"); ("connection_id", VStr "c1");
  ("health", VStr "healthy"); ("rollout_version", VStr "r1");
  ("capability_id", VStr "slack.message.send");
  ("capability_version", VStr "1"); ("credential_version", VInt 3);
  ("effective_scopes", VList [VStr "chat:write"; VStr "channels:read"])].

Definition ex_binding : pyval := VDict [
  ("tenant_id", VStr "t1"); ("user_principal_id", VStr "p1");
  ("connection_id", VStr "c1"); ("capability_id", VStr "slack.message.send");
  ("capability_version", VStr "1");
  ("descriptor_snapshot_hash", VStr (descriptor_hash ex_definition));
  ("effect", VStr "write"); ("credential_id", VStr "cred1");
  ("credential_version", VStr "3"); ("plan_graph_hash", VStr "g");
  ("workflow_revision_id", VStr "rev1"); ("step_id", VStr "s1");
  ("attempt", VInt 1); ("approval_payload_hash", VStr "h");
  ("payload_hash", VStr "h"); ("approval_expires_at", VInt 2000);
  ("slack_connect", VBool false); ("data_egress", VBool false);
  ("connection_snapshot", ex_snapshot)].

Definition ex_live : pyval := VDict [
  ("tenant_id", VStr "t1"); ("connection_id", VStr "c1");
  ("status", VStr "connected"); ("credential_id", VStr "cred1");
  ("credential_version", VInt 3);
  ("granted_scopes", VList [VStr "chat:write"]);
  ("enabled_capabilities", VList [VStr "slack.message.send"])].

Lemma evaluate_allowed_iff_witness :
  exists d, evaluate ex_evaluator ex_binding ex_live 1500 = Ok d /\
    allowed d = true /\ policy_authorises ex_evaluator ex_binding ex_live 1500.
Proof.
  eexists. split; [vm_compute; reflexivity|]. split; [reflexivity|].
  eapply (evaluate_allowed_iff ex_evaluator ex_binding ex_live 1500);
    [vm_compute; reflexivity|reflexivity].
Defined.

Lemma input_hash_binds_witness :
  exists d, evaluate ex_evaluator ex_binding ex_live 1500 = Ok d /\
  exists g1 s1 g2 s2,
    py_sorted_set (get (as_mapping ex_live) "granted_scopes") = Ok g1 /\
    py_sorted_set (get (as_mapping ex_binding) "bound_scopes") = Ok s1 /\
    py_sorted_set (get (as_mapping ex_live) "granted_scopes") = Ok g2 /\
    py_sorted_set (get (as_mapping ex_binding) "bound_scopes") = Ok s2 /\
    ((forall k, k ∈ "user_principal_id" :: hashed_fields ->
        norm (get (as_mapping ex_binding) k) = norm (get (as_mapping ex_binding) k)) /\
     map norm g1 = map norm g2 /\ map norm s1 = map norm s2 /\
     rollout_version ex_evaluator = rollout_version ex_evaluator \/
     collides (dumps (normalized ex_evaluator (as_mapping ex_binding) g1 s1))
              (dumps (normalized ex_evaluator (as_mapping ex_binding) g2 s2))).
Proof.
  eexists. split; [vm_compute; reflexivity|].
  eapply (input_hash_binds ex_evaluator ex_binding ex_live 1500 _
            ex_evaluator ex_binding ex_live 1600);
    [vm_compute; reflexivity..|reflexivity].
Defined.

Lemma evaluate_total_witness :
  exists d, evaluate ex_evaluator (VDict [("tenant_id", VStr "t1")]) VNone 0 = Ok d.
Proof.
  apply evaluate_total; try reflexivity; left; reflexivity.
Defined.
