(* ===== verification/ControlPlane.v ===== *)
(** * The tenant control plane

    src/libs/integrations/control_plane.py: the gate every dispatch path asks
    whether a tenant may act now, over durable switches read through a short
    cache.  The store, the clock and the resolvers of a capability's families
    and effect are arguments; the store is seen through what a read returns or
    that it raised. *)

From S2P Require Import Prelude PyValue Catalog.
Local Open Scope Z_scope.

(** What a gate may answer: a truth value, a mapping, or an object with a
    truth value and a [reason]. *)
Inductive decision : Type :=
| Bool (b : bool)
| Mapping (d : list (string * pyval))
| Object (truth : bool) (reason : pyval).

Definition DISPATCH : string := "dispatch".
Definition INBOUND : string := "inbound".
Definition RECOVERY : string := "recovery".
Definition REASON_PREFIX : string := "control_plane:".
Definition EMERGENCY_STOP : string := REASON_PREFIX +:+ "emergency_stop".
Definition FAMILY_DISABLED : string := REASON_PREFIX +:+ "family_disabled".
Definition SENDER_DISABLED : string := REASON_PREFIX +:+ "sender_disabled".
Definition UNAVAILABLE : string := REASON_PREFIX +:+ "unavailable".

Definition ALLOWED : decision := Object true VNone.
Definition refused (reason : string) : decision := Object false (VStr reason).
(** ["%s:%s" % (reason, detail)]. *)
Definition _denied (reason detail : string) : decision := refused (reason +:+ ":" +:+ detail).
Definition is_control_plane_reason (reason : pyval) : bool :=
  match reason with VStr r => starts_with REASON_PREFIX r | _ => false end.

(** ** The state of one tenant *)

Record ControlPlaneState := {
  cp_tenant : pyval;
  emergency_stop : bool;
  stop_reason : pyval;
  stopped_at : pyval;
  stopped_by : pyval;
  families : list (string * pyval);
  senders : list (string * pyval);
}.

(** [dict(v or {})].  A list of pairs would be accepted as well; no store
    returns one. *)
Definition dict_or_empty (v : pyval) : result pyexn (list (string * pyval)) :=
  if truthy v then match v with VDict d => Ok d | _ => Err TypeError end else Ok [].

Definition from_mapping (tenant_id value : pyval) : result pyexn ControlPlaneState :=
  let d := as_mapping value in
  match dict_or_empty (get d "families"), dict_or_empty (get d "senders") with
  | Ok f, Ok s =>
      Ok {| cp_tenant := tenant_id;
            emergency_stop := truthy (get_or d "emergency_stop" (VBool false));
            stop_reason := get d "stop_reason"; stopped_at := get d "stopped_at";
            stopped_by := get d "stopped_by_principal_id"; families := f; senders := s |}
  | Err e, _ | _, Err e => Err e
  end.

Definition family_enabled (st : ControlPlaneState) (family : string) : bool :=
  is_true (get (families st) family).
(** [self.senders.get(sender_id) is True]; an unhashable key raises. *)
Definition sender_enabled (st : ControlPlaneState) (sender_id : pyval) : result pyexn bool :=
  match sender_id with
  | VStr s => Ok (is_true (get (senders st) s))
  | v => if hashable v then Ok false else Err TypeError
  end.

(** ** The gate *)

Record TenantControlPlane := {
  store : option (pyval -> option pyval);       (* [control_plane_state]; [None]: it raised *)
  family_resolver : option (pyval -> option (list string));
  effect_resolver : option (pyval -> option string);
  cache_seconds : Z;
}.

(** [self._cache], most recent first. *)
Definition cache : Type := list (pyval * (Z * ControlPlaneState)).
Definition cached (c : cache) (tenant_id : pyval) : option (Z * ControlPlaneState) :=
  snd <$> List.find (fun e => py_eqb e.1 tenant_id) c.
Definition forget (c : cache) (tenant_id : pyval) : cache :=
  List.filter (fun e => negb (py_eqb e.1 tenant_id)) c.
Definition remember (c : cache) (tenant_id : pyval) (now : Z) (st : ControlPlaneState) : cache :=
  (tenant_id, (now, st)) :: forget c tenant_id.
Definition invalidate (tenant_id : option pyval) (c : cache) : cache :=
  match tenant_id with None => [] | Some t => forget c t end.

Definition gate (A : Type) : Type := stm cache pyexn A.

Module Plane.
Section plane.
Context (cp : TenantControlPlane) (now : Z).
Local Open Scope stm_scope.

(** [state]: the durable state, or [None] when it cannot be read. *)
Definition read_through (tenant_id : pyval) : gate (option ControlPlaneState) :=
  match store cp with
  | None => stm_ret None
  | Some read =>
      if negb (truthy tenant_id) then stm_ret None
      else if negb (hashable tenant_id) then stm_raise TypeError
      else
        c <~ stm_get ;;
        let fresh := match cached c tenant_id with
                     | Some (t, st) => if now - t <? cache_seconds cp then Some st else None
                     | None => None
                     end in
        match fresh with
        | Some st => stm_ret (Some st)
        | None =>
            match read tenant_id with
            | None => stm_modify (fun c => forget c tenant_id) ;;; stm_ret None
            | Some raw =>
                match from_mapping tenant_id raw with
                | Err e => stm_raise e
                | Ok st => stm_modify (fun c => remember c tenant_id now st) ;;; stm_ret (Some st)
                end
            end
        end
  end.

(** [emergency_stop] and [family_flags]. *)
Definition tenant_stopped (tenant_id : pyval) : gate bool :=
  st <~ read_through tenant_id ;;
  stm_ret (match st with Some x => emergency_stop x | None => false end).
Definition family_flags (tenant_id : pyval) : gate (list (string * pyval)) :=
  st <~ read_through tenant_id ;;
  stm_ret (match st with
           | None => []
           | Some x => if emergency_stop x then map (fun kv => (kv.1, VBool false)) (families x)
                       else families x
           end).

Definition _families_for (capability_id : pyval) : list string :=
  match family_resolver cp with
  | Some f => if truthy capability_id then default [] (f capability_id) else []
  | None => []
  end.
(** An effect nobody can name is a write. *)
Definition known_effect (e : option string) : string :=
  match e with Some x => if str_in x ["read"; "write"] then x else "write" | None => "write" end.
Definition _effect_for (capability_id fallback : pyval) : string :=
  match fallback, effect_resolver cp with
  | VStr e, f =>
      if str_in e ["read"; "write"] then e
      else known_effect (f ≫= fun g => if truthy capability_id then g capability_id else None)
  | _, f => known_effect (f ≫= fun g => if truthy capability_id then g capability_id else None)
  end.

(** ["%s" % v] of a value that can be a key. *)
Definition key_text (v : pyval) : string :=
  match v with
  | VStr s => s
  | VInt z => pretty.pretty z
  | VBool b => if b then "True" else "False"
  | _ => "None"
  end.

Definition decide (tenant_id capability_id effect purpose : pyval) (family : option string)
    (sender_id : pyval) : gate decision :=
  if val_is purpose RECOVERY then stm_ret ALLOWED else
  let inbound := val_is purpose INBOUND in
  let write := String.eqb (_effect_for capability_id effect) "write" in
  state <~ read_through tenant_id ;;
  match state with
  | None => stm_ret (if write || inbound then refused UNAVAILABLE else ALLOWED)
  | Some st =>
      if emergency_stop st && (inbound || write) then stm_ret (refused EMERGENCY_STOP)
      else if negb write then stm_ret ALLOWED
      else
        let judge_families :=
          let names := if truthy family then option_list family else _families_for capability_id in
          if truthy names && negb (existsb (family_enabled st) names)
          then stm_ret (_denied FAMILY_DISABLED (default "" (head (str_sort names))))
          else stm_ret ALLOWED in
        match sender_id with
        | VNone => judge_families
        | v => match sender_enabled st v with
               | Err e => stm_raise e
               | Ok true => judge_families
               | Ok false => stm_ret (_denied SENDER_DISABLED (key_text v))
               end
        end
  end.

Definition decide_binding (binding_v : pyval) : gate decision :=
  let b := as_mapping binding_v in
  let purpose := get b "control_plane_purpose" in
  decide (get b "tenant_id") (get b "capability_id") (get b "effect")
    (if truthy purpose then purpose else VStr DISPATCH) None (get b "sender_id").
Definition decide_step (step_v : pyval) : gate decision :=
  let b := as_mapping step_v in
  decide (get b "tenant_id") (get b "capability_id") (get b "effect") (VStr DISPATCH) None VNone.
End plane.
End Plane.

(** ** Resolvers *)

(** An operation of the manifest: its family flag and the capabilities of its
    recipe. *)
Record operation := { family_flag : string; recipe : list string }.
Definition capability_family_resolver (operations : list operation) (capability_id : pyval)
    : option (list string) :=
  match capability_id with
  | VStr c => Some (str_sorted_set (family_flag <$> filter (fun o => c ∈ recipe o) operations))
  | v => if hashable v then Some [] else None
  end.
(** A later descriptor of the same capability replaces an earlier one. *)
Definition capability_effect_resolver (definitions : list TrustedCapabilityDefinition)
    (capability_id : pyval) : option string :=
  match capability_id with
  | VStr c => effect <$> last (filter (fun d => Catalog.capability_id d = c) definitions)
  | _ => None
  end.
Definition build_tenant_control_plane (read : pyval -> option pyval)
    (definitions : list TrustedCapabilityDefinition) (operations : option (list operation))
    : TenantControlPlane := {|
  store := Some read;
  family_resolver := capability_family_resolver <$> operations;
  effect_resolver := Some (capability_effect_resolver definitions);
  cache_seconds := 1 |}.

(** ** What a decision means *)

Lemma truthy_nil {A} (l : list A) : truthy l = false <-> l = [].
Proof. by destruct l. Qed.

Lemma any_enabled st names :
  existsb (family_enabled st) names = true <-> exists f, f ∈ names /\ family_enabled st f = true.
Proof.
  rewrite existsb_exists. split; intros (f & Hf & E); exists f; (split; [|done]); by apply list_elem_of_In.
Qed.

Section branches.
Import Plane.
Context (cp : TenantControlPlane) (now : Z) (tenant_id capability_id effect : pyval)
        (family : option string).

Definition names_of : list string :=
  if truthy family then option_list family else _families_for cp capability_id.
Definition writes : bool := String.eqb (_effect_for cp capability_id effect) "write".

(** What the switches of a readable state say of a write. *)
Definition switches_allow (x : ControlPlaneState) (sender_id : pyval) : Prop :=
  (sender_id = VNone \/ sender_enabled x sender_id = Ok true)
  /\ (names_of = [] \/ exists f, f ∈ names_of /\ family_enabled x f = true).

(** The gate, branch by branch.  Recovery is always allowed, whatever the
    switches say.  Otherwise, when the state cannot be read, only a read that
    is not inbound is allowed; during a stop likewise; and with a readable
    state and no stop, a read is allowed, and a write exactly when the sender
    it names, if any, is enabled and, if it belongs to any family, one of its
    families is. *)
Theorem decide_allows_iff purpose sender_id c c' st :
  read_through cp now tenant_id c = (c', Ok st) -> hashable sender_id = true ->
  (decide cp now tenant_id capability_id effect purpose family sender_id c).2 = Ok ALLOWED <->
  purpose = VStr RECOVERY
  \/ match st with
     | None => writes = false /\ purpose <> VStr INBOUND
     | Some x =>
         (emergency_stop x = true -> writes = false /\ purpose <> VStr INBOUND)
         /\ (writes = true -> switches_allow x sender_id)
     end.
Proof.
  intros Hr Hs. unfold decide.
  destruct (val_is purpose RECOVERY) eqn:Erec; [apply val_is_spec in Erec; naive_solver|].
  assert (purpose <> VStr RECOVERY) as Hnr by (rewrite <- val_is_spec; congruence). clear Erec.
  assert (val_is purpose INBOUND = false <-> purpose <> VStr INBOUND) as Hin
    by (rewrite <- val_is_spec; destruct (val_is _ _); naive_solver).
  fold writes. fold names_of. unfold stm_bind. rewrite Hr.
  destruct st as [x|].
  2: { destruct writes, (val_is purpose INBOUND); unfold stm_ret, ALLOWED, refused; simpl; naive_solver. }
  destruct (emergency_stop x && (val_is purpose INBOUND || writes)) eqn:Estop.
  { apply andb_true_iff in Estop as [E1 E2%orb_true_iff]. unfold stm_ret, ALLOWED, refused. simpl.
    split; [done|]. destruct E2 as [E2|E2]; rewrite E2 in *; naive_solver. }
  apply andb_false_iff in Estop. rewrite orb_false_iff in Estop.
  destruct writes eqn:Ew; cbn [negb]; [|unfold stm_ret; naive_solver].
  assert (emergency_stop x = false) as Hstop by naive_solver. clear Estop.
  enough (forall P : Prop, switches_allow x sender_id <-> P ->
    (P <-> purpose = VStr RECOVERY \/ (emergency_stop x = true -> true = false /\ purpose <> VStr INBOUND)
            /\ (true = true -> switches_allow x sender_id))) as Hsw
    by (apply Hsw; unfold switches_allow; rewrite <- any_enabled, <- truthy_nil;
        destruct sender_id as [| | |s| |]; try discriminate Hs; cbn;
        [|..|destruct (is_true (get (senders x) s))]; cbn;
        destruct (truthy names_of), (existsb _ _); unfold stm_ret, ALLOWED, _denied, refused; simpl; naive_solver).
  intros P ->. rewrite Hstop. naive_solver.
Qed.
End branches.

(** ** A stop takes hold *)

Section history.
Import Plane.
Context (cp : TenantControlPlane) (answers : Z -> pyval -> option pyval).

(** The plane over a store that changes: [answers t] is what it says at [t]. *)
Definition plane_at (t : Z) : TenantControlPlane := {|
  store := Some (answers t); family_resolver := family_resolver cp;
  effect_resolver := effect_resolver cp; cache_seconds := cache_seconds cp |}.

Inductive question : Type :=
| Decide (tenant_id capability_id effect purpose : pyval) (family : option string) (sender_id : pyval)
| AskStopped (tenant_id : pyval)
| AskFlags (tenant_id : pyval)
| Invalidate (tenant_id : option pyval).
Definition ask (e : Z * question) (c : cache) : cache :=
  let p := plane_at e.1 in
  match e.2 with
  | Decide t cap eff purpose family sender => (decide p e.1 t cap eff purpose family sender c).1
  | AskStopped t => (tenant_stopped p e.1 t c).1
  | AskFlags t => (family_flags p e.1 t c).1
  | Invalidate t => invalidate t c
  end.
Definition ask_all (es : list (Z * question)) (c : cache) : cache :=
  fold_left (fun c e => ask e c) es c.

(** A cache holds what the store said at the recorded time. *)
Definition recorded (now : Z) (e : pyval * (Z * ControlPlaneState)) : Prop :=
  e.2.1 <= now /\ exists raw, answers e.2.1 e.1 = Some raw /\ from_mapping e.1 raw = Ok e.2.2.
Definition honest (now : Z) (c : cache) : Prop := Forall (recorded now) c.

Lemma forget_honest now c t : honest now c -> honest now (forget c t).
Proof.
  unfold honest. rewrite !Forall_forall. intros H e He. apply H.
  apply list_elem_of_In in He. apply filter_In in He as [He _]. by apply list_elem_of_In.
Qed.

Lemma read_through_honest now t tenant_id c :
  t <= now -> honest now c -> honest now (read_through (plane_at t) t tenant_id c).1.
Proof.
  intros Ht Hc. unfold read_through. cbn [store plane_at].
  destruct (negb (truthy tenant_id)); [done|]. destruct (negb (hashable tenant_id)); [done|].
  unfold stm_bind, stm_get. case_match; [done|]. destruct (answers t tenant_id) as [raw|] eqn:Ea.
  2: { unfold stm_modify, stm_ret. by apply forget_honest. }
  destruct (from_mapping tenant_id raw) as [st|e] eqn:Ef; [|done].
  unfold stm_modify, stm_ret, remember. cbn. constructor; [|by apply forget_honest].
  split; [done|]. by exists raw.
Qed.

Lemma decide_cache p now t cap eff purpose family sender c :
  (decide p now t cap eff purpose family sender c).1 = c
  \/ (decide p now t cap eff purpose family sender c).1 = (read_through p now t c).1.
Proof.
  unfold decide. case_match; [by left|]. right. unfold stm_bind.
  destruct (read_through p now t c) as [c' [st|e]]; [|done].
  repeat case_match; done.
Qed.

Lemma ask_honest now e c : e.1 <= now -> honest now c -> honest now (ask e c).
Proof.
  intros He Hc. unfold ask. destruct e.2 as [t cap eff purpose family sender|t|t|t].
  - destruct (decide_cache (plane_at e.1) e.1 t cap eff purpose family sender c) as [->| ->]; [done|].
    by apply read_through_honest.
  - unfold tenant_stopped, stm_bind. pose proof (read_through_honest now e.1 t c He Hc) as H.
    by destruct (read_through _ _ _ _) as [c' [st|x]].
  - unfold family_flags, stm_bind. pose proof (read_through_honest now e.1 t c He Hc) as H.
    by destruct (read_through _ _ _ _) as [c' [st|x]].
  - destruct t; [by apply forget_honest|constructor].
Qed.

Lemma ask_all_honest now es c :
  Forall (fun e => e.1 <= now) es -> honest now c -> honest now (ask_all es c).
Proof.
  unfold ask_all. revert c. induction es as [|e es IH]; intros c Hes Hc; [done|].
  apply Forall_cons in Hes as [He Hes]. simpl. apply IH; [done|]. by apply ask_honest.
Qed.

(** Reading: the answer comes from the store at a moment the cache allows. *)
Lemma read_through_recent now t c :
  honest now c -> truthy t = true ->
  match (read_through (plane_at now) now (VStr t) c).2 with
  | Ok None => answers now (VStr t) = None
  | Ok (Some st) => exists s raw, s <= now /\ (now - s < cache_seconds cp \/ s = now)
      /\ answers s (VStr t) = Some raw /\ from_mapping (VStr t) raw = Ok st
  | Err e => exists raw, answers now (VStr t) = Some raw /\ from_mapping (VStr t) raw = Err e
  end.
Proof.
  intros Hc Ht. unfold read_through. cbn [store plane_at truthy truthy_pyval hashable].
  unfold truthy, truthy_string in Ht. rewrite Ht. cbn [negb]. unfold stm_bind, stm_get.
  destruct (cached c (VStr t)) as [[s st]|] eqn:Ec.
  2: { destruct (answers now (VStr t)) as [raw|] eqn:Ea; [|done].
       destruct (from_mapping (VStr t) raw) as [st|e] eqn:Ef; [|by exists raw].
       unfold stm_modify, stm_ret. cbn. exists now, raw. split_and!; auto with lia. }
  destruct (now - s <? cache_seconds (plane_at now)) eqn:El.
  - unfold stm_ret. cbn. unfold cached in Ec. apply fmap_Some in Ec as ([k [s' st']] & Hf & E).
    simpl in E. injection E as <- <-. apply find_some in Hf as [Hin Hk]. simpl in Hk.
    assert (k = VStr t) as -> by (destruct k; simpl in Hk; try discriminate Hk;
      try (by destruct b); apply String.eqb_eq in Hk; by subst).
    unfold honest in Hc. rewrite Forall_forall in Hc. apply list_elem_of_In in Hin.
    destruct (Hc _ Hin) as (Hle & raw & Ha & Hm). simpl in *. apply Z.ltb_lt in El.
    exists s, raw. split_and!; try done. by left.
  - destruct (answers now (VStr t)) as [raw|] eqn:Ea; [|done].
    destruct (from_mapping (VStr t) raw) as [st'|e] eqn:Ef; [|by exists raw].
    unfold stm_modify, stm_ret. cbn. exists now, raw. split_and!; auto with lia.
Qed.

(** The store says stopped, or cannot be read. *)
Definition says_stopped (t : string) (now : Z) : Prop :=
  match answers now (VStr t) with
  | Some raw => exists st, from_mapping (VStr t) raw = Ok st /\ emergency_stop st = true
  | None => True
  end.

End history.

(** A caller that names recovery as its purpose is never gated. *)
Lemma recovery_purpose_passes cp now b c :
  get b "control_plane_purpose" = VStr RECOVERY ->
  Plane.decide_binding cp now (VDict b) c = (c, Ok ALLOWED).
Proof. intros H. unfold Plane.decide_binding. cbn [as_mapping]. by rewrite H. Qed.

(** ** Examples *)

Definition demo_plane : TenantControlPlane := {|
  store := None; family_resolver := Some (fun _ => Some ["slack_channels"]);
  effect_resolver := Some (fun _ => Some "write"); cache_seconds := 1 |}.
Definition demo_answers (stop_from : Z) (t : Z) (_ : pyval) : option pyval :=
  Some (VDict [("emergency_stop", VBool (stop_from <=? t));
               ("families", VDict [("slack_channels", VBool true)])]).

Lemma decide_allows_iff_witness :
  let p := plane_at demo_plane (demo_answers 100) 50 in
  (Plane.decide p 50 (VStr "t") (VStr "slack.channel.create") VNone (VStr DISPATCH) None VNone []).2
    = Ok ALLOWED.
Proof.
  intros p. eapply (decide_allows_iff p 50 (VStr "t") (VStr "slack.channel.create") VNone None);
    [vm_compute; reflexivity|reflexivity|].
  right. vm_compute. split; [intros E; discriminate E|]. intros _. split; [by left|]. right.
  exists "slack_channels". split; [left|reflexivity].
Defined.

