(* ===== verification/OAuthProofs.v ===== *)
(** * Consents

    Theorems about OAuth.v: what a history of calls of [OAuthRepository] does
    to the transactions of people who were sent to a provider, and what the
    control plane (ControlPlane.v) reads of the switches. *)

From stdpp Require Import gmap.
From S2P Require Import Prelude Rows PyValue Json Sha256 OAuth.
From S2P Require ControlPlane.
Local Open Scope Z_scope.

(** ** Histories *)

Inductive call : Type :=
| CreateTransaction (id session_id principal provider : string) (scopes capabilities : list string)
    (state verifier return_to : string) (now : Z) (tenant app team target : option string)
| ConsumeTransaction (state session_id principal : option string) (now : Z)
| UpsertConnection (principal provider credential : string) (scopes capabilities : list string) (now : Z)
| MarkPendingRevocation (principal provider : string) (now : Z)
| DeleteConnection (principal provider credential : string)
| UpsertInstallation (q : request) (now : Z)
| TombstoneInstallation (id tenant : string) (now : Z)
| MarkInstallation (id tenant st : string) (now : Z) (expected : option string)
| RecordProfile (id tenant connection kind owner credential : string) (scopes : list string) (now : Z)
    (subject : option string) (version : Z) (enabled : bool)
| RevokeProfile (tenant connection kind principal : string) (now : Z)
| EnableProfile (tenant connection kind principal : string) (enabled : bool) (now : Z)
| GrantDelegation (id tenant profile_ audience family purpose by_ : string) (expires now : Z)
| SetStop (tenant : string) (active : bool) (now : Z) (reason who : option string)
| SetFamily (tenant family : string) (enabled : bool) (now : Z) (who : option string)
| SetSender (tenant sender : string) (enabled : bool) (now : Z) (family : string) (who : option string)
| RecordLegacy (key : string) (connection : option string) (status checksum : string) (now : Z) (error : option string)
| ReplaceRoutes (tenant : string) (l : list voice_route).
(** What the caller of a transaction's method gets. *)
Inductive reply : Type :=
| Created (ok : bool)
| Spent (t : option transaction_row)
| Done.

(** The row a call makes. *)
Definition made_by (c : call) : option transaction_row :=
  match c with
  | CreateTransaction id sid p provider scopes capabilities state verifier back now tenant app team target =>
      Some (new_transaction id sid p provider scopes capabilities state verifier back now tenant app team target)
  | _ => None
  end.
Definition silent {A} (m : om A) (s : oauth) : oauth * reply := ((m s).1, Done).
Definition exec (c : call) (s : oauth) : oauth * reply :=
  match c with
  | CreateTransaction id sid p provider scopes capabilities state verifier back now tenant app team target =>
      let (s', r) := create_transaction
        (new_transaction id sid p provider scopes capabilities state verifier back now tenant app team target) s in
      (s', Created (match r with Ok _ => true | Err _ => false end))
  | ConsumeTransaction state sid p now =>
      let (s', r) := consume_transaction state sid p now s in
      (s', Spent (match r with Ok t => t | Err _ => None end))
  | UpsertConnection p provider credential scopes capabilities now =>
      silent (upsert_connection p provider credential scopes capabilities now) s
  | MarkPendingRevocation p provider now => silent (mark_pending_revocation p provider now) s
  | DeleteConnection p provider credential => silent (delete_connection p provider credential) s
  | UpsertInstallation q now => silent (upsert_installation q now) s
  | TombstoneInstallation id tenant now => silent (tombstone_installation id tenant now) s
  | MarkInstallation id tenant st now expected => silent (mark_installation_status id tenant st now expected) s
  | RecordProfile id tenant connection kind owner credential scopes now subject version enabled =>
      silent (record_authority_profile id tenant connection kind owner credential scopes now subject version enabled) s
  | RevokeProfile tenant connection kind p now => silent (revoke_authority_profile tenant connection kind p now) s
  | EnableProfile tenant connection kind p enabled now =>
      silent (set_authority_profile_enabled tenant connection kind p enabled now) s
  | GrantDelegation id tenant profile_ audience family purpose by_ expires now =>
      silent (grant_authority_delegation id tenant profile_ audience family purpose by_ expires now) s
  | SetStop tenant active now reason who => silent (set_emergency_stop tenant active now reason who) s
  | SetFamily tenant family enabled now who => silent (set_capability_family_enabled tenant family enabled now who) s
  | SetSender tenant sender enabled now family who => silent (set_control_plane_sender_enabled tenant sender enabled now family who) s
  | RecordLegacy key connection status checksum now error => silent (record_legacy_mapping key connection status checksum now error) s
  | ReplaceRoutes tenant l => silent (replace_voice_routes tenant l) s
  end.
Abbreviation entries := (list (call * reply)).
Fixpoint serve (cs : list call) (s : oauth) : oauth * entries :=
  match cs with
  | [] => (s, [])
  | c :: cs' => let (s1, r) := exec c s in let (s2, l) := serve cs' s1 in (s2, (c, r) :: l)
  end.

(** ** What the rows go back to *)

Definition spent_of (e : call * reply) : option string :=
  match e.2 with Spent (Some t) => Some (t_id t) | _ => None end.
Definition unspent (id : string) (l : entries) : Prop := forall e, e ∈ l -> spent_of e <> Some id.
(** The row was made in the log, and not spent since. *)
Definition open_since (log : entries) (x : transaction_row) : Prop :=
  exists c la lb, log = la ++ (c, Created true) :: lb /\ made_by c = Some x /\ unspent (t_id x) lb.
Record traced (log : entries) (s : oauth) : Prop := {
  tr_ids : NoDup (map t_id (transactions s));
  tr_open : forall x, x ∈ transactions s -> t_consumed_at x = None -> open_since log x;
}.

Lemma open_later log e x : open_since log x -> spent_of e <> Some (t_id x) -> open_since (log ++ [e]) x.
Proof.
  intros (c & la & lb & -> & Hm & Hu) He. exists c, la, (lb ++ [e]). rewrite <- app_assoc. split; [done|]. split; [done|].
  intros y [Hy| ->%list_elem_of_singleton]%elem_of_app; [by apply Hu|done].
Qed.
Lemma traced_same log s s' e : transactions s' = transactions s -> spent_of e = None -> traced log s -> traced (log ++ [e]) s'.
Proof.
  intros Ht He [H1 H2]. constructor; rewrite Ht; [done|]. intros x Hx Hn. apply open_later; [by apply H2|]. by rewrite He.
Qed.
Lemma create_traced log s c r : made_by c = Some r -> traced log s ->
  traced (log ++ [(c, Created (match (create_transaction r s).2 with Ok _ => true | Err _ => false end))]) (create_transaction r s).1.
Proof.
  intros Hc [H1 H2]. unfold create_transaction. set (kept := List.filter _ _).
  assert (NoDup (map t_id kept)) as Hk.
    by apply NoDup_map_filter.
  assert (forall x, x ∈ kept -> x ∈ transactions s) as Hin.
  { intros x Hx. apply list_elem_of_In, filter_In in Hx as [Hx _]. by apply list_elem_of_In. }
  destruct (existsb _ kept) eqn:E; cbn; constructor; cbn.
  - done.
  - intros x Hx Hn. apply open_later; [by apply H2; [apply Hin|]|done].
  - rewrite map_app. apply NoDup_app. split; [done|]. split; [|apply NoDup_singleton].
    intros i (x & -> & Hx)%list_elem_of_fmap Hi. apply list_elem_of_singleton in Hi.
    apply not_true_iff_false in E. apply E, existsb_exists. exists x. split; [by apply list_elem_of_In|].
    rewrite Hi. by rewrite String.eqb_refl.
  - intros x [Hx| ->%list_elem_of_singleton]%elem_of_app Hn.
    + apply open_later; [by apply H2; [apply Hin|]|done].
    + exists c, log, []. split; [done|]. split; [done|]. by intros e He%elem_of_nil.
Qed.
Lemma consume_traced log s st sid p now :
  traced log s ->
  traced (log ++ [(ConsumeTransaction st sid p now, Spent (match (consume_transaction st sid p now s).2 with Ok t => t | Err _ => None end))])
    (consume_transaction st sid p now s).1.
Proof.
  intros Ht. unfold consume_transaction. destruct st as [st|], sid as [sid|], p as [p|]; try (by apply (traced_same _ s)).
  destruct (negb _); [by apply (traced_same _ s)|]. destruct Ht as [H1 H2]. cbn.
  set (q := consumable st sid p now). constructor; cbn.
  - replace (map t_id _) with (map t_id (transactions s)); [done|]. rewrite map_map. apply map_ext. intros x. by destruct (q x).
  - intros x (y & -> & Hy)%list_elem_of_fmap. destruct (q y) eqn:Eq; [done|]. intros Hn. apply open_later; [by apply H2|].
    unfold spent_of. cbn. destruct (List.find q (transactions s)) as [z|] eqn:Ef; cbn; [|done].
    apply find_some in Ef as [Hz%list_elem_of_In Ez]. intros [= He].
    assert (z = y) as -> by (by apply (key_unique t_id (transactions s))). congruence.
Qed.

(** ** One consent, one use *)

Lemma repository_traced log s c : traced log s -> traced (log ++ [(c, (exec c s).2)]) (exec c s).1.
Proof.
  intros Ht. destruct c; try (apply (traced_same _ s); [|done|done]; cbn [exec silent fst]).
  - cbn [exec]. rewrite (surjective_pairing (create_transaction _ s)). cbn [fst snd]. by apply create_traced.
  - cbn [exec]. rewrite (surjective_pairing (consume_transaction _ _ _ _ s)). cbn [fst snd]. by apply consume_traced.
  - done.
  - unfold mark_pending_revocation. by case_match.
  - unfold delete_connection. by repeat case_match.
  - unfold upsert_installation. apply (leaves_transaction transactions). intros o.
    assert (forall x, transactions (insert_installation x o).1 = transactions o) as Hi
      by (intros x; unfold insert_installation; by repeat case_match).
    destruct (q_tenant q) as [tenant|]; [|done]. do 2 (destruct (negb _); [done|]). destruct (String.eqb (q_provider q) "slack" && _); [done|].
    destruct (List.find _ _) as [x|]; [destruct (negb _); [done|]|].
    + specialize (Hi (new_installation q (i_id x) tenant now)). by destruct (insert_installation _ o).
    + specialize (Hi (new_installation q (resolved_id q) tenant now)). by destruct (insert_installation _ o).
  - done.
  - unfold mark_installation_status. by case_match.
  - unfold record_authority_profile. by repeat case_match.
  - done.
  - done.
  - unfold grant_authority_delegation. by repeat case_match.
  - unfold set_emergency_stop. by case_match.
  - unfold set_capability_family_enabled. by repeat case_match.
  - unfold set_control_plane_sender_enabled. by repeat case_match.
  - unfold record_legacy_mapping. by repeat case_match.
  - unfold replace_voice_routes. by case_match.
Qed.

(** C19. A consent is spent once, by who asked for it.  In every history of
    calls of the repository, whatever sends people to providers and back, when a
    callback is given a transaction: an earlier call made that very row, for the
    principal, the session and the state that the callback presents; at most 600
    seconds ago; and no callback between the two was given it. *)
Theorem consents_are_spent_once cs la state sid p now t lb :
  (serve cs no_oauth).2 = la ++ (ConsumeTransaction state sid p now, Spent (Some t)) :: lb ->
  exists st k c before after r, state = Some st /\ sid = Some k /\ p = Some (t_principal r)
    /\ la = before ++ (c, Created true) :: after /\ made_by c = Some r /\ unspent (t_id r) after
    /\ t = set_consumed r now (t_verifier r)
    /\ t_state r = hash_value st /\ t_session r = hash_value k /\ now <= t_created_at r + 600.
Proof.
  assert (forall cs log s la, traced log s -> (serve cs s).2 = la ++ (ConsumeTransaction state sid p now, Spent (Some t)) :: lb ->
            exists s', traced (log ++ la) s' /\ (exec (ConsumeTransaction state sid p now) s').2 = Spent (Some t)) as H.
  { clear. induction cs as [|c cs IH]; intros log s la Ht; cbn; [by destruct la|].
    pose proof (repository_traced log s c Ht) as Ht'. destruct (exec c s) as [s1 r] eqn:E. cbn in Ht'.
    destruct (serve cs s1) as [s2 l] eqn:E2. cbn. destruct la as [|e la]; cbn; [intros [= -> ->]|intros [= <- Hl]].
    - exists s. rewrite app_nil_r. split; [done|]. exact (f_equal snd E).
    - destruct (IH (log ++ [(c, r)]) s1 la Ht') as (s' & Hs & Hx); [by rewrite E2|]. exists s'. by rewrite <- app_assoc in Hs. }
  intros Hl. destruct (H cs [] no_oauth la) as (s & [_ Ho] & Hx); [|done|].
  { constructor; [constructor|]. by intros x Hx%elem_of_nil. }
  cbn in Hx, Ho. unfold consume_transaction in Hx. destruct state as [st|], sid as [k|], p as [p|]; try done.
  destruct (negb _); [done|]. cbn in Hx. destruct (List.find _ _) as [r|] eqn:Ef; [|done]. injection Hx as <-.
  apply find_some in Ef as [Hr%list_elem_of_In Hc]. unfold consumable in Hc. rewrite !andb_true_iff in Hc.
  destruct Hc as [[[[E1%String.eqb_eq E2%String.eqb_eq] <-%String.eqb_eq] E4%bool_decide_eq_true] E5%Z.leb_le].
  destruct (Ho r Hr E4) as (c & before & after & -> & Hm & Hu).
  exists st, k, c, before, after, r. split_and!; try done. destruct c; try done. injection Hm as <-. cbn in *.
  unfold TRANSACTION_TTL_SECONDS in E5. lia.
Qed.

(** ** Switches *)

(** A call is refused before it sets anything when it names nothing. *)
Definition stop_step (tenant : string) (b : bool) (c : call) : bool :=
  match c with SetStop t active _ _ _ => if truthy t && String.eqb t tenant then active else b | _ => b end.
Definition family_step (tenant family : string) (b : bool) (c : call) : bool :=
  match c with
  | SetFamily t f enabled _ _ => if truthy t && truthy f && bool_decide ((t, f) = (tenant, family)) then enabled else b
  | _ => b
  end.
Definition sender_step (tenant sender : string) (b : bool) (c : call) : bool :=
  match c with
  | SetSender t x enabled _ _ _ => if truthy t && truthy x && bool_decide ((t, x) = (tenant, sender)) then enabled else b
  | _ => b
  end.
(** What was set last; nothing is on before. *)
Definition last_set (step : bool -> call -> bool) (cs : list call) : bool := fold_left step cs false.
Definition is_on (m : gmap (string * string) switch_row) (k : string * string) : bool :=
  match m !! k with Some r => w_enabled r | None => false end.
Definition is_stopped (tenant : string) (s : oauth) : bool :=
  match stops s !! tenant with Some r => stopped r | None => false end.

(** What a method does to the switches, when it is none of theirs. *)
Definition same_switches (s s' : oauth) : Prop := stops s' = stops s /\ families s' = families s /\ senders s' = senders s.
Lemma exec_switches c s :
  match c with SetStop _ _ _ _ _ | SetFamily _ _ _ _ _ | SetSender _ _ _ _ _ _ => True | _ => same_switches s (exec c s).1 end.
Proof.
  assert (forall x, same_switches s (insert_installation x s).1) as Hi by (intros x; unfold insert_installation; by repeat case_match).
  destruct c; try exact I; cbn [exec]; unfold silent; cbn [fst].
  - unfold create_transaction. by destruct (existsb _ _).
  - unfold consume_transaction. destruct state, session_id, principal; try done. by destruct (negb _).
  - done.
  - unfold mark_pending_revocation. by case_match.
  - unfold delete_connection. by repeat case_match.
  - unfold upsert_installation, transaction. destruct (q_tenant q) as [tenant|]; [|done].
    do 2 (destruct (negb _); [done|]). destruct (String.eqb (q_provider q) "slack" && _); [done|]. cbv zeta.
    destruct (List.find _ _) as [x|]; [destruct (negb _); [done|]|].
    + specialize (Hi (new_installation q (i_id x) tenant now)). by destruct (insert_installation _ s) as [s' [|]].
    + specialize (Hi (new_installation q (resolved_id q) tenant now)). by destruct (insert_installation _ s) as [s' [|]].
  - done.
  - unfold mark_installation_status. by case_match.
  - unfold record_authority_profile. by repeat case_match.
  - done.
  - done.
  - unfold grant_authority_delegation. by repeat case_match.
  - unfold record_legacy_mapping. by repeat case_match.
  - unfold replace_voice_routes. by case_match.
Qed.
Lemma is_on_insert m k r k' : is_on (<[k := r]> m) k' = if decide (k = k') then w_enabled r else is_on m k'.
Proof. unfold is_on. destruct (decide (k = k')) as [->|]; [by rewrite lookup_insert_eq|by rewrite lookup_insert_ne]. Qed.
Lemma exec_stop tenant c s : is_stopped tenant (exec c s).1 = stop_step tenant (is_stopped tenant s) c.
Proof.
  pose proof (exec_switches c s) as H. destruct c;
    try (destruct H as (H & _ & _); unfold is_stopped; by rewrite H); cbn [exec]; unfold silent; cbn [fst stop_step].
  - unfold set_emergency_stop, is_stopped. destruct (truthy tenant0); cbn; [|done]. destruct (String.eqb_spec tenant0 tenant) as [->|].
    + by rewrite lookup_insert_eq.
    + by rewrite lookup_insert_ne.
  - unfold set_capability_family_enabled. by repeat case_match.
  - unfold set_control_plane_sender_enabled. by repeat case_match.
Qed.
Lemma exec_family tenant family c s :
  is_on (families (exec c s).1) (tenant, family) = family_step tenant family (is_on (families s) (tenant, family)) c.
Proof.
  pose proof (exec_switches c s) as H. destruct c;
    try (destruct H as (_ & H & _); by rewrite H); cbn [exec]; unfold silent; cbn [fst family_step].
  - unfold set_emergency_stop. by case_match.
  - unfold set_capability_family_enabled. destruct (truthy tenant0), (truthy _); cbn; try done. rewrite is_on_insert. by repeat case_decide.
  - unfold set_control_plane_sender_enabled. by repeat case_match.
Qed.
Lemma exec_sender tenant sender c s :
  is_on (senders (exec c s).1) (tenant, sender) = sender_step tenant sender (is_on (senders s) (tenant, sender)) c.
Proof.
  pose proof (exec_switches c s) as H. destruct c;
    try (destruct H as (_ & _ & H); by rewrite H); cbn [exec]; unfold silent; cbn [fst sender_step].
  - unfold set_emergency_stop. by case_match.
  - unfold set_capability_family_enabled. by repeat case_match.
  - unfold set_control_plane_sender_enabled. destruct (truthy tenant0), (truthy _); cbn; try done. rewrite is_on_insert. by repeat case_decide.
Qed.
Lemma serve_last (f : oauth -> bool) step cs :
  f no_oauth = false -> (forall c s, f (exec c s).1 = step (f s) c) -> f (serve cs no_oauth).1 = last_set step cs.
Proof.
  intros H0 Hf. unfold last_set. rewrite <- H0. generalize no_oauth as s. induction cs as [|c cs IH]; intros s; cbn; [done|].
  rewrite <- Hf. specialize (IH (exec c s).1). destruct (exec c s) as [s1 r]. cbn in *. by destruct (serve cs s1).
Qed.

(** *** What the gate reads *)

Lemma of_tenant_in {A} (tenant : string) (m : gmap (string * string) A) (k : string) (x : A) : (k, x) ∈ OAuth.of_tenant tenant m <-> m !! (tenant, k) = Some x.
Proof.
  unfold OAuth.of_tenant. rewrite list_elem_of_omap. split.
  - intros ([[t k'] y] & Hin & E). apply elem_of_map_to_list in Hin. cbn in E. destruct (String.eqb_spec t tenant) as [->|]; naive_solver.
  - intros H. exists ((tenant, k), x). split; [by apply elem_of_map_to_list|]. cbn. by rewrite String.eqb_refl.
Qed.
Lemma of_tenant_keys {A} (tenant : string) (m : gmap (string * string) A) : NoDup (OAuth.of_tenant tenant m).*1.
Proof.
  unfold OAuth.of_tenant. pose proof (NoDup_fst_map_to_list m) as H. induction (map_to_list m) as [|[[t k] x] l IH]; cbn; [constructor|].
  cbn in H. apply NoDup_cons in H as [Hn H]. destruct (String.eqb_spec t tenant) as [->|]; [|by apply IH]. cbn. constructor; [|by apply IH].
  intros ([k' y] & E & Hi)%list_elem_of_fmap. cbn in E. subst k'. apply Hn. apply list_elem_of_omap in Hi as ([[t' k'] z] & Hi & E).
  cbn in E. destruct (String.eqb_spec t' tenant) as [->|]; [|done]. injection E as -> ->. apply list_elem_of_fmap. by exists (tenant, k, y).
Qed.
Lemma dget_member (d : list (string * pyval)) k v : dget d k = Some v -> (k, v) ∈ d.
Proof.
  induction d as [|[k' v'] d IH]; cbn; [done|]. destruct (String.eqb_spec k' k) as [->|]; [intros [= ->]; by left|].
  intros H. right. by apply IH.
Qed.
Lemma switches_names tenant m : (switches tenant m).*1 = (merge_sort switch_le (OAuth.of_tenant tenant m)).*1.
Proof. unfold switches. induction (merge_sort switch_le _) as [|[k r] l IH]; cbn; [done|]. by f_equal. Qed.
Lemma switches_keys tenant m : NoDup (switches tenant m).*1.
Proof. rewrite switches_names, (merge_sort_Permutation switch_le). apply of_tenant_keys. Qed.
Lemma switches_get tenant m k : dget (switches tenant m) k = (fun r => VBool (w_enabled r)) <$> m !! (tenant, k).
Proof.
  destruct (m !! (tenant, k)) as [r|] eqn:E; cbn.
  - apply dget_in_distinct; [apply switches_keys|]. unfold switches. apply list_elem_of_fmap. exists (k, r). split; [done|].
    rewrite (merge_sort_Permutation switch_le). by apply of_tenant_in.
  - destruct (dget _ k) as [v|] eqn:Ed; [|done]. apply dget_member in Ed. unfold switches in Ed.
    apply list_elem_of_fmap in Ed as ([k' r] & [= <- _] & Hi). rewrite (merge_sort_Permutation switch_le) in Hi.
    apply of_tenant_in in Hi. cbn in Hi. congruence.
Qed.
(** The repository as the store a plane reads. *)
Definition store_of (s : oauth) (tenant : pyval) : option pyval :=
  match tenant with
  | VStr t => match control_plane_state t s with Ok d => Some (VDict d) | Err _ => None end
  | _ => None
  end.
Lemma dict_or_empty_switches tenant m : ControlPlane.dict_or_empty (VDict (switches tenant m)) = Ok (switches tenant m).
Proof. unfold ControlPlane.dict_or_empty. cbn. by destruct (switches tenant m). Qed.
Lemma switch_is_on tenant m k : is_true (get (switches tenant m) k) = is_on m (tenant, k).
Proof. unfold get, is_on. rewrite switches_get. destruct (m !! (tenant, k)) as [r|]; cbn; [by destruct (w_enabled r)|done]. Qed.
Lemma read_state tenant s defs ops now :
  truthy tenant = true ->
  exists st c, ControlPlane.Plane.read_through (ControlPlane.build_tenant_control_plane (store_of s) defs ops) now (VStr tenant) [] = (c, Ok (Some st))
    /\ ControlPlane.emergency_stop st = is_stopped tenant s
    /\ (forall f, ControlPlane.family_enabled st f = is_on (families s) (tenant, f))
    /\ (forall x, ControlPlane.sender_enabled st (VStr x) = Ok (is_on (senders s) (tenant, x))).
Proof.
  intros Ht. unfold ControlPlane.Plane.read_through, ControlPlane.build_tenant_control_plane. cbn [ControlPlane.store].
  replace (truthy (VStr tenant)) with true by done. cbn [negb hashable]. unfold stm_bind, stm_get. cbn [ControlPlane.cached List.find fmap option_fmap option_map].
  unfold store_of, control_plane_state. rewrite Ht. cbn [negb]. unfold ControlPlane.from_mapping. cbn -[switches].
  rewrite !dict_or_empty_switches. eexists _, _. split; [reflexivity|]. cbn -[switches]. split_and!.
  - unfold is_stopped. by destruct (stops s !! tenant).
  - intros f. apply switch_is_on.
  - intros x. f_equal. apply switch_is_on.
Qed.

(** C20. Whatever the history of the repository, a plane that reads it lets a
    dispatch through exactly when it is a read, or the tenant is named, the last
    word on its emergency stop is not to stop, the sender it names, if any, was
    last switched on, and, if it belongs to families, one of them was.  What was
    never set is off. *)
Theorem writes_follow_the_last_switches cs defs ops now tenant capability effect family sender :
  let plane := ControlPlane.build_tenant_control_plane (store_of (serve cs no_oauth).1) defs ops in
  (ControlPlane.Plane.decide plane now (VStr tenant) capability effect (VStr ControlPlane.DISPATCH) family sender []).2 = Ok ControlPlane.ALLOWED
  <-> ControlPlane.writes plane capability effect = false
      \/ truthy tenant = true /\ last_set (stop_step tenant) cs = false
         /\ (sender = VNone \/ exists x, sender = VStr x /\ last_set (sender_step tenant x) cs = true)
         /\ (ControlPlane.names_of plane capability family = []
             \/ exists f, f ∈ ControlPlane.names_of plane capability family /\ last_set (family_step tenant f) cs = true).
Proof.
  intros plane. rewrite <- (serve_last (is_stopped tenant) (stop_step tenant) cs) by (done || apply exec_stop).
  setoid_rewrite <- (fun x => serve_last (fun s => is_on (senders s) (tenant, x)) (sender_step tenant x) cs eq_refl (exec_sender tenant x)).
  setoid_rewrite <- (fun f => serve_last (fun s => is_on (families s) (tenant, f)) (family_step tenant f) cs eq_refl (exec_family tenant f)).
  subst plane. generalize (serve cs no_oauth).1 as s. intros s.
  set (plane := ControlPlane.build_tenant_control_plane (store_of s) defs ops).
  destruct (truthy tenant) eqn:Ht.
  - destruct (read_state tenant s defs ops now Ht) as (st & c & Hr & E & Ef & Es). fold plane in Hr. rewrite <- E. setoid_rewrite <- Ef.
    destruct (hashable sender) eqn:Hh.
    + etransitivity; [exact (ControlPlane.decide_allows_iff _ _ _ _ _ _ _ _ _ _ _ Hr Hh)|]. unfold ControlPlane.switches_allow.
      assert (ControlPlane.sender_enabled st sender = Ok true <-> exists x, sender = VStr x /\ is_on (senders s) (tenant, x) = true) as ->
        by (destruct sender as [| | |x| |]; [..|rewrite Es; split; [intros [= E']; by exists x|by intros (? & [= <-] & ->)]| |];
            (split; [done|by intros (? & [=] & _)])).
      destruct (ControlPlane.writes _ _ _), (ControlPlane.emergency_stop st); naive_solver.
    + unfold ControlPlane.Plane.decide. change (val_is _ ControlPlane.RECOVERY) with false. unfold stm_bind. cbv beta iota zeta. rewrite Hr.
      fold (ControlPlane.writes plane capability effect). change (val_is _ ControlPlane.INBOUND) with false.
      destruct (ControlPlane.writes _ _ _), (ControlPlane.emergency_stop st), sender; try discriminate Hh; cbn in *; naive_solver.
  - unfold ControlPlane.Plane.decide, stm_bind, ControlPlane.Plane.read_through.
    change (val_is _ ControlPlane.RECOVERY) with false. cbv iota zeta. fold (ControlPlane.writes plane capability effect).
    change (val_is _ ControlPlane.INBOUND) with false. replace (truthy (VStr tenant)) with false by (symmetry; exact Ht). cbn.
    destruct (ControlPlane.writes _ _ _); cbn; naive_solver.
Qed.
(** ** A consent, and a callback that comes again *)

Definition toy_calls : list call := [
  CreateTransaction "t1" "s" "ana" "google" ["mail"] ["mail.read"] "state" "verifier" "/" 100 (Some "acme") (Some "google") None None;
  ConsumeTransaction (Some "state") (Some "other") (Some "eve") 110;
  ConsumeTransaction (Some "state") (Some "s") (Some "ana") 120;
  ConsumeTransaction (Some "state") (Some "s") (Some "ana") 121].
Definition toy_transaction : transaction_row :=
  new_transaction "t1" "s" "ana" "google" ["mail"] ["mail.read"] "state" "verifier" "/" 100 (Some "acme") (Some "google") None None.
Lemma consents_are_spent_once_witness :
  exists c r, made_by c = Some r /\ set_consumed toy_transaction 120 "verifier" = set_consumed r 120 (t_verifier r).
Proof.
  destruct (consents_are_spent_once toy_calls (take 2 (serve toy_calls no_oauth).2) (Some "state") (Some "s") (Some "ana") 120
              (set_consumed toy_transaction 120 "verifier") [(ConsumeTransaction (Some "state") (Some "s") (Some "ana") 121, Spent None)])
    as (st & k & c & before & after & r & _ & _ & _ & _ & Hm & _ & Ht & _).
  - vm_compute. reflexivity.
  - exists c, r. split; [exact Hm|exact Ht].
Defined.
