(* ===== verification/PlanGraph.v ===== *)
(** * The plan dependency graph

    [PlanCompiler._topological_order] and [PlanCompiler._ancestors] of
    src/agents/orchestrator/planner.py: Kahn's algorithm with a sorted ready
    list, over the in-degree and successor dictionaries, and the depth-first
    closure of a step's dependencies.  A node is a step identifier with its
    [depends_on] list (already [sorted(set(...))], so without repetition). *)

From S2P Require Import Prelude.

Record node := { n_id : string; n_deps : list string }.

Definition ids (g : list node) : list string := map n_id g.

Inductive graph_error : Type :=
| UnknownDependency   (* "dependency is unknown or self-referential" *)
| CyclicPlan.         (* "plan dependency graph is cyclic" *)

Global Instance graph_error_eq_dec : EqDecision graph_error.
Proof. solve_decision. Defined.

Abbreviation counts := (gmap string Z).
Abbreviation succs := (gmap string (list string)).

(** [indegree[item]] and [outgoing[item]] (a [defaultdict(list)]). *)
Definition count (m : counts) (x : string) : Z := default 0%Z (m !! x).
Definition out (m : succs) (x : string) : list string := default [] (m !! x).

(** The inner [for dependency in item["depends_on"]] loop. *)
Fixpoint add_edges (all : list string) (me : string) (deps : list string)
    (indeg : counts) (og : succs) : result graph_error (counts * succs) :=
  match deps with
  | [] => Ok (indeg, og)
  | d :: deps' =>
      if negb (str_in d all) || String.eqb d me then Err UnknownDependency
      else add_edges all me deps'
             (<[me := (count indeg me + 1)%Z]> indeg)
             (<[d := out og d ++ [me]]> og)
  end.

Fixpoint build (all : list string) (g : list node) (indeg : counts) (og : succs)
    : result graph_error (counts * succs) :=
  match g with
  | [] => Ok (indeg, og)
  | n :: g' =>
      match add_edges all (n_id n) (n_deps n) indeg og with
      | Err e => Err e
      | Ok (indeg', og') => build all g' indeg' og'
      end
  end.

Definition zero_counts (g : list node) : counts :=
  list_to_map (map (fun n => (n_id n, 0%Z)) g).

(** The [for child in sorted(outgoing[step_id])] loop. *)
Fixpoint release (children : list string) (indeg : counts) (ready : list string)
    : counts * list string :=
  match children with
  | [] => (indeg, ready)
  | c :: children' =>
      let indeg' := <[c := (count indeg c - 1)%Z]> indeg in
      release children' indeg'
        (if Z.eqb (count indeg' c) 0 then str_sort (ready ++ [c]) else ready)
  end.

(** The [while ready] loop.  Every iteration appends one identifier, so as
    many rounds as there are steps always suffice ([kahn_complete]). *)
Fixpoint kahn (fuel : nat) (og : succs) (indeg : counts) (ready order : list string)
    : list string :=
  match fuel, ready with
  | S fuel', s :: ready' =>
      let '(indeg', ready'') := release (str_sort (out og s)) indeg ready' in
      kahn fuel' og indeg' ready'' (order ++ [s])
  | _, _ => order
  end.

Definition initially_ready (g : list node) (indeg : counts) : list string :=
  str_sort (List.filter (fun x => Z.eqb (count indeg x) 0) (ids g)).

Definition topological_order (g : list node) : result graph_error (list string) :=
  match build (ids g) g (zero_counts g) ∅ with
  | Err e => Err e
  | Ok (indeg, og) =>
      let order := kahn (length g) og indeg (initially_ready g indeg) [] in
      if Nat.eqb (length order) (length g) then Ok order else Err CyclicPlan
  end.

(** ** Specification *)

Definition deps_of (g : list node) (x : string) : list string :=
  match List.find (fun n => String.eqb (n_id n) x) g with
  | Some n => n_deps n
  | None => []
  end.

(** Every identifier of [order] comes after all its dependencies. *)
Definition respects (g : list node) (order : list string) : Prop :=
  forall pre x post, order = pre ++ x :: post ->
  forall d, d ∈ deps_of g x -> d ∈ pre.

(** The dependencies can be ranked: there is no cycle. *)
Definition acyclic (g : list node) : Prop :=
  exists rank : string -> nat,
    forall x d, x ∈ ids g -> d ∈ deps_of g x -> rank d < rank x.

Definition known_deps (g : list node) : Prop :=
  forall x d, x ∈ ids g -> d ∈ deps_of g x -> d ∈ ids g /\ d <> x.

(** ** Building the two dictionaries *)

Lemma str_sort_perm l : str_sort l ≡ₚ l.
Proof. apply merge_sort_Permutation. Qed.

Lemma str_sort_elem x l : x ∈ str_sort l <-> x ∈ l.
Proof. by rewrite str_sort_perm. Qed.

Lemma str_sort_NoDup l : NoDup (str_sort l) <-> NoDup l.
Proof. by rewrite str_sort_perm. Qed.

Lemma count_insert m x y v :
  count (<[x := v]> m) y = if decide (x = y) then v else count m y.
Proof. unfold count. rewrite lookup_insert. by case_decide. Qed.

Lemma out_insert m x y v :
  out (<[x := v]> m) y = if decide (x = y) then v else out m y.
Proof. unfold out. rewrite lookup_insert. by case_decide. Qed.

Lemma zero_counts_zero g x : count (zero_counts g) x = 0%Z.
Proof.
  unfold zero_counts. induction g as [|n g IH]; simpl; [done|].
  rewrite count_insert. by case_decide.
Qed.

Definition edge_ok (all : list string) (me d : string) : bool :=
  str_in d all && negb (String.eqb d me).

Lemma add_edges_spec all me deps indeg og :
  NoDup deps ->
  if forallb (edge_ok all me) deps then
    exists indeg' og', add_edges all me deps indeg og = Ok (indeg', og') /\
      (forall x, count indeg' x =
        (count indeg x + if decide (x = me) then Z.of_nat (length deps) else 0)%Z) /\
      (forall d, out og' d = out og d ++ if str_in d deps then [me] else [])
  else add_edges all me deps indeg og = Err UnknownDependency.
Proof.
  revert indeg og; induction deps as [|d deps IH]; intros indeg og Hnd; simpl.
  { eexists _, _. split; [done|]. split; intros; [case_decide; lia|by rewrite app_nil_r]. }
  apply NoDup_cons in Hnd as [Hd Hnd]. unfold edge_ok at 1.
  destruct (str_in d all), (String.eqb d me); simpl; try done.
  specialize (IH (<[me := (count indeg me + 1)%Z]> indeg)
                 (<[d := out og d ++ [me]]> og) Hnd).
  case_match; [|done]. destruct IH as (i & o & H1 & H2 & H3).
  exists i, o. split; [done|]. split.
  - intros x. rewrite H2, count_insert. repeat case_decide; subst; try done; lia.
  - intros x. rewrite H3, out_insert. case_decide; subst.
    + rewrite String.eqb_refl, (proj2 (str_in_false _ _) Hd), app_nil_r. done.
    + by destruct (String.eqb_spec x d).
Qed.

Definition node_ok (all : list string) (n : node) : bool :=
  forallb (edge_ok all (n_id n)) (n_deps n).

Lemma build_spec all g indeg og :
  NoDup (ids g) -> Forall (fun n => NoDup (n_deps n)) g ->
  if forallb (node_ok all) g then
    exists indeg' og', build all g indeg og = Ok (indeg', og') /\
      (forall x, count indeg' x =
         (count indeg x + Z.of_nat (length (deps_of g x)))%Z) /\
      (forall d, out og' d =
         out og d ++ map n_id (List.filter (fun n => str_in d (n_deps n)) g))
  else build all g indeg og = Err UnknownDependency.
Proof.
  revert indeg og; induction g as [|n g IH]; intros indeg og Hids Hnd; simpl.
  { eexists _, _. split; [done|].
    split; intros; unfold deps_of; simpl; [lia|by rewrite app_nil_r]. }
  inversion Hids as [|? ? Hn Hids']; subst. inversion Hnd as [|? ? Hd Hnd']; subst.
  pose proof (add_edges_spec all (n_id n) (n_deps n) indeg og Hd) as Ha.
  unfold node_ok at 1. case_match; simpl; [|by rewrite Ha].
  destruct Ha as (i & o & -> & Hi & Ho). specialize (IH i o Hids' Hnd').
  case_match; [|done]. destruct IH as (i' & o' & H1 & H2 & H3).
  exists i', o'. split; [done|]. split.
  - intros x. rewrite H2, Hi. unfold deps_of; simpl.
    destruct (String.eqb_spec (n_id n) x) as [<-|Hne]; case_decide; subst; try done; [|lia].
    assert (List.find (fun m => String.eqb (n_id m) (n_id n)) g = None) as ->.
    { destruct (List.find _ g) as [m|] eqn:E; [|done].
      apply find_some in E as [Hm%list_elem_of_In E%String.eqb_eq].
      destruct Hn. apply list_elem_of_fmap. by exists m. }
    simpl. lia.
  - intros d. rewrite H3, Ho, <- app_assoc. by case_match.
Qed.

Lemma find_node g x :
  x ∈ ids g -> exists n, n ∈ g /\ n_id n = x /\ deps_of g x = n_deps n.
Proof.
  intros (n & -> & Hn)%list_elem_of_fmap. unfold deps_of.
  destruct (List.find _ g) as [m|] eqn:E.
  - apply find_some in E as [Hm E]. apply list_elem_of_In in Hm. bool_hyps. eauto.
  - apply list_elem_of_In in Hn. eapply find_none in E; [|exact Hn].
    simpl in E. by rewrite String.eqb_refl in E.
Qed.

Lemma deps_of_node g n :
  NoDup (ids g) -> n ∈ g -> deps_of g (n_id n) = n_deps n.
Proof.
  induction g as [|m g IH]; intros Hnd Hn; [set_solver|].
  inversion Hnd as [|? ? Hni Hnd']; subst. unfold deps_of; simpl.
  apply elem_of_cons in Hn as [->|Hn]; [by rewrite String.eqb_refl|].
  destruct (String.eqb_spec (n_id m) (n_id n)) as [E|E]; [|by apply IH].
  destruct Hni. rewrite E. apply list_elem_of_fmap. by exists n.
Qed.

Lemma node_ok_known g :
  NoDup (ids g) -> forallb (node_ok (ids g)) g = true <-> known_deps g.
Proof.
  intros Hnd. unfold known_deps. rewrite forallb_forall.
  assert (forall n d, edge_ok (ids g) (n_id n) d = true <->
    d ∈ ids g /\ d <> n_id n) as Hedge.
  { intros n d. unfold edge_ok.
    by rewrite andb_true_iff, str_in_spec, negb_true_iff, String.eqb_neq. }
  split.
  - intros H x d Hx Hd. destruct (find_node g x Hx) as (n & Hn & <- & E).
    rewrite E in Hd. apply Hedge. specialize (H n (proj1 (list_elem_of_In _ _) Hn)).
    unfold node_ok in H. rewrite forallb_forall in H.
    by apply H, list_elem_of_In.
  - intros H n Hn%list_elem_of_In. unfold node_ok. apply forallb_forall.
    intros d Hd%list_elem_of_In. apply Hedge. apply H.
    + apply list_elem_of_fmap. by exists n.
    + by rewrite deps_of_node.
Qed.

(** The successors of [d] are the steps that depend on it. *)
Lemma out_elem g d x :
  NoDup (ids g) ->
  x ∈ map n_id (List.filter (fun n => str_in d (n_deps n)) g) <->
  x ∈ ids g /\ d ∈ deps_of g x.
Proof.
  intros Hnd. rewrite list_elem_of_fmap. split.
  - intros (n & -> & Hn%list_elem_of_In). apply filter_In in Hn as [Hn Hd].
    apply list_elem_of_In in Hn. rewrite deps_of_node by done.
    apply str_in_spec in Hd. split; [|done]. apply list_elem_of_fmap. by exists n.
  - intros [Hx Hd]. destruct (find_node g x Hx) as (n & Hn & <- & E).
    exists n. split; [done|]. apply list_elem_of_In, filter_In.
    rewrite E in Hd. split; [by apply list_elem_of_In|by apply str_in_spec].
Qed.

(** ** The loop *)

Lemma release_spec children indeg ready :
  NoDup children ->
  let '(indeg', ready') := release children indeg ready in
  (forall x, count indeg' x =
     (count indeg x - if decide (x ∈ children) then 1 else 0)%Z) /\
  (forall x, x ∈ ready' <->
     x ∈ ready \/ (x ∈ children /\ count indeg x = 1%Z)) /\
  (NoDup ready -> (forall x, x ∈ children -> x ∉ ready) -> NoDup ready').
Proof.
  revert indeg ready; induction children as [|c cs IH]; intros indeg ready Hnd; simpl.
  { split_and!; [intros; lia|set_solver|done]. }
  apply NoDup_cons in Hnd as [Hc Hnd].
  set (indeg1 := <[c := (count indeg c - 1)%Z]> indeg).
  set (ready1 := if Z.eqb (count indeg1 c) 0 then str_sort (ready ++ [c]) else ready).
  assert (count indeg1 c = count indeg c - 1)%Z as Hc1
    by (unfold indeg1; rewrite count_insert; by case_decide).
  assert (forall x, x ∈ ready1 <-> x ∈ ready \/ (x = c /\ count indeg c = 1%Z)) as Hr1.
  { intros x. unfold ready1. rewrite Hc1.
    destruct (Z.eqb_spec (count indeg c - 1) 0); rewrite ?str_sort_elem, ?elem_of_app;
      rewrite ?list_elem_of_singleton; split; naive_solver lia. }
  specialize (IH indeg1 ready1 Hnd).
  destruct (release cs indeg1 ready1) as [indeg' ready']. destruct IH as (H1 & H2 & H3).
  assert (forall x, x <> c -> count indeg1 x = count indeg x) as Hne
    by (intros x Hx; unfold indeg1; rewrite count_insert; by case_decide).
  split_and!.
  - intros x. rewrite H1. destruct (decide (x = c)) as [->|Hx].
    + rewrite Hc1. repeat case_decide; set_solver by lia.
    + rewrite (Hne _ Hx). repeat case_decide; set_solver by lia.
  - intros x. rewrite H2, Hr1, elem_of_cons.
    destruct (decide (x = c)) as [->|Hx]; [naive_solver|].
    rewrite (Hne _ Hx). naive_solver.
  - intros Hr Hd. apply H3.
    + unfold ready1. case_match; [|done]. apply str_sort_NoDup, NoDup_app.
      split_and!; [done| |apply NoDup_singleton]. set_solver.
    + intros x Hx Hin. apply Hr1 in Hin as [Hin|[-> _]]; [|done].
      by apply (Hd x); [right|].
Qed.

Definition pending (g : list node) (order : list string) (x : string) : list string :=
  List.filter (fun d => negb (str_in d order)) (deps_of g x).

Record kahn_inv (g : list node) (indeg : counts) (ready order : list string) : Prop := {
  ki_nodup : NoDup (order ++ ready);
  ki_ids : forall x, x ∈ order ++ ready -> x ∈ ids g;
  ki_count : forall x, x ∈ ids g ->
    count indeg x = Z.of_nat (length (pending g order x));
  ki_done : forall x, x ∈ ids g -> x ∈ order ++ ready <-> count indeg x = 0%Z;
  ki_respects : respects g order;
}.

Lemma pending_nil g order x :
  pending g order x = [] <-> forall d, d ∈ deps_of g x -> d ∈ order.
Proof.
  unfold pending. induction (deps_of g x) as [|d ds IH]; simpl; [set_solver|].
  destruct (str_in d order) eqn:E; simpl.
  - rewrite IH. apply str_in_spec in E. set_solver.
  - split; [done|]. intros H. apply str_in_false in E. set_solver.
Qed.

Lemma pending_snoc g order s x :
  NoDup (deps_of g x) -> s ∉ order ->
  Z.of_nat (length (pending g (order ++ [s]) x)) =
  (Z.of_nat (length (pending g order x))
   - if decide (s ∈ deps_of g x) then 1 else 0)%Z.
Proof.
  intros Hnd Hs. unfold pending.
  induction Hnd as [|d ds Hd Hnd IH]; cbn [List.filter length]; [by rewrite decide_False by set_solver|].
  assert (str_in d (order ++ [s]) = str_in d order || String.eqb d s) as ->.
  { unfold str_in. rewrite existsb_app. simpl. by rewrite orb_false_r. }
  destruct (String.eqb_spec d s) as [->|Hne].
  - rewrite (proj2 (str_in_false _ _) Hs). cbn [negb orb length].
    rewrite IH, decide_False, decide_True by set_solver. lia.
  - rewrite orb_false_r.
    assert (s ∈ d :: ds <-> s ∈ ds) as Hiff by set_solver.
    rewrite (decide_ext _ _ _ _ Hiff).
    destruct (str_in d order); cbn [negb length];
      rewrite ?Nat2Z.inj_succ, IH; lia.
Qed.

Lemma respects_snoc g order s :
  respects g order -> (forall d, d ∈ deps_of g s -> d ∈ order) ->
  respects g (order ++ [s]).
Proof.
  intros Hr Hs pre x post E d Hd.
  destruct post as [|y post] using rev_ind.
  - apply app_inj_tail in E as [-> ->]. auto.
  - rewrite app_comm_cons, app_assoc in E. apply app_inj_tail in E as [-> _].
    by eapply Hr.
Qed.

Section kahn_loop.
Variables (g : list node) (og : succs).
Hypothesis ids_nodup : NoDup (ids g).
Hypothesis deps_nodup : Forall (fun n => NoDup (n_deps n)) g.
Hypothesis og_spec : forall d,
  out og d = map n_id (List.filter (fun n => str_in d (n_deps n)) g).

Lemma deps_of_NoDup x : NoDup (deps_of g x).
Proof.
  unfold deps_of. destruct (List.find _ g) as [n|] eqn:E; [|constructor].
  apply find_some in E as [Hn%list_elem_of_In _].
  by eapply Forall_forall in deps_nodup.
Qed.

Lemma out_NoDup d : NoDup (out og d).
Proof. rewrite og_spec. by apply NoDup_map_filter. Qed.

Lemma kahn_step indeg s ready order :
  kahn_inv g indeg (s :: ready) order ->
  let '(indeg', ready') := release (str_sort (out og s)) indeg ready in
  kahn_inv g indeg' ready' (order ++ [s]).
Proof.
  intros [Hnd Hids Hcount Hdone Hresp].
  pose proof (release_spec (str_sort (out og s)) indeg ready
    (proj2 (str_sort_NoDup _) (out_NoDup s))) as Hrel.
  destruct (release _ indeg ready) as [indeg' ready']. destruct Hrel as (H1 & H2 & H3).
  assert (forall x, x ∈ str_sort (out og s) <-> x ∈ ids g /\ s ∈ deps_of g x) as Hch.
  { intros x. rewrite str_sort_elem, og_spec. by apply out_elem. }
  assert (s ∈ ids g) as Hsin by (apply Hids; set_solver).
  apply NoDup_app in Hnd as (Hno & Hdis & Hnr). apply NoDup_cons in Hnr as [Hsr Hnr].
  assert (s ∉ order) as Hso by set_solver.
  assert (forall x, x ∈ ids g -> count indeg' x =
    Z.of_nat (length (pending g (order ++ [s]) x))) as Hcount'.
  { intros x Hx. rewrite H1, pending_snoc, <- Hcount by (done || apply deps_of_NoDup).
    f_equal. repeat case_decide; naive_solver. }
  assert (forall d, d ∈ deps_of g s -> d ∈ order) as Hsdeps.
  { apply pending_nil. apply length_zero_iff_nil, Nat2Z.inj. rewrite <- Hcount by done.
    apply Hdone; set_solver. }
  (* a step already ordered or ready owes nothing to [s] *)
  assert (forall x, x ∈ ids g -> count indeg x = 0%Z -> s ∉ deps_of g x) as Hno0.
  { intros x Hx H0 Hs. rewrite Hcount in H0 by done.
    assert (pending g order x = []) as Hp by (apply length_zero_iff_nil; lia).
    by apply (proj1 (pending_nil _ _ _) Hp) in Hs. }
  split.
  - rewrite <- app_assoc. simpl. apply NoDup_app. split_and!; [done| |].
    + intros x Hx [->|Hr]%elem_of_cons; [done|].
      apply H2 in Hr as [Hr|[Hr H0]]; [set_solver|].
      assert (count indeg x = 0)%Z; [|lia].
      apply Hdone; [apply Hids|]; set_solver.
    + apply NoDup_cons. split.
      * rewrite H2, Hch. intros [?|[[_ ?] H0]]; [done|].
        assert (count indeg s = 0)%Z; [|lia]. apply Hdone; set_solver.
      * apply H3; [done|]. intros x Hx Hr. apply Hch in Hx as [Hx Hs].
        apply (Hno0 x Hx); [|done]. apply Hdone; set_solver.
  - intros x Hx. rewrite <- app_assoc in Hx. simpl in Hx.
    apply elem_of_app in Hx as [Hx|[->|Hx]%elem_of_cons]; [apply Hids; set_solver|done|].
    apply H2 in Hx as [Hx|[Hx _]]; [apply Hids; set_solver|by apply Hch].
  - done.
  - intros x Hx. specialize (Hdone x Hx). specialize (Hno0 x Hx).
    specialize (H1 x). specialize (Hch x). specialize (H2 x).
    rewrite elem_of_app, elem_of_cons in Hdone.
    rewrite <- app_assoc, elem_of_app. simpl. rewrite elem_of_cons.
    pose proof (Hcount x Hx). case_decide as Hsx.
    + assert (count indeg x <> 0%Z) by (intros H0; by apply (Hno0 H0), Hch).
      split; [|intros; right; right; apply H2; right; split; [done|lia]].
      intros [?|[?|[?|[_ ?]]%H2]]; [exfalso; tauto..|lia].
    + rewrite H1, Z.sub_0_r, <- Hdone. tauto.
  - by apply respects_snoc.
Qed.

Lemma kahn_run fuel indeg ready order :
  kahn_inv g indeg ready order -> length g <= fuel + length order ->
  exists indeg', kahn_inv g indeg' [] (kahn fuel og indeg ready order).
Proof.
  revert indeg ready order; induction fuel as [|fuel IH]; intros indeg ready order Hinv Hf.
  - simpl. destruct ready as [|s ready]; [by exists indeg|]. exfalso.
    destruct Hinv as [Hnd Hids _ _ _].
    assert (length (order ++ s :: ready) <= length (ids g)) as Hlen.
    { apply NoDup_incl_length; [by apply NoDup_ListNoDup|].
      intros x Hx%list_elem_of_In. by apply list_elem_of_In, Hids. }
    unfold ids in Hlen. rewrite length_map, length_app in Hlen. simpl in Hlen. lia.
  - destruct ready as [|s ready]; simpl; [by exists indeg|].
    pose proof (kahn_step _ _ _ _ Hinv) as Hstep.
    destruct (release _ _ _) as [indeg' ready']. apply (IH _ _ _ Hstep).
    rewrite length_app. simpl. lia.
Qed.
End kahn_loop.

(** ** The order *)

Lemma filter_none_done l : List.filter (fun d => negb (str_in d [])) l = l.
Proof.
  induction l as [|d l IH]; [done|].
  change (d :: List.filter (fun d => negb (str_in d [])) l = d :: l). by rewrite IH.
Qed.

Section topological.
Variable g : list node.
Hypothesis ids_nodup : NoDup (ids g).
Hypothesis deps_nodup : Forall (fun n => NoDup (n_deps n)) g.

Lemma initial_inv indeg :
  (forall x, count indeg x = Z.of_nat (length (deps_of g x))) ->
  kahn_inv g indeg (initially_ready g indeg) [].
Proof.
  intros Hc. unfold initially_ready. split; cbn [app].
  - apply str_sort_NoDup. rewrite <- (map_id (List.filter _ _)).
    apply NoDup_map_filter. by rewrite map_id.
  - intros x Hx. rewrite str_sort_elem in Hx. apply list_elem_of_In, filter_In in Hx as [Hx _].
    by apply list_elem_of_In.
  - intros x Hx. rewrite Hc. unfold pending.
    by rewrite filter_none_done.
  - intros x Hx. rewrite str_sort_elem, list_elem_of_In, filter_In, Z.eqb_eq.
    rewrite <- list_elem_of_In. naive_solver.
  - intros pre x post E. by destruct pre.
Qed.

(** What the loop leaves when nothing is ready any more. *)
Lemma topological_run :
  (known_deps g /\ exists order,
     NoDup order /\ (forall x, x ∈ order -> x ∈ ids g) /\ respects g order /\
     (forall x, x ∈ ids g -> (forall d, d ∈ deps_of g x -> d ∈ order) -> x ∈ order) /\
     topological_order g =
       if Nat.eqb (length order) (length g) then Ok order else Err CyclicPlan)
  \/ (~ known_deps g /\ topological_order g = Err UnknownDependency).
Proof.
  unfold topological_order.
  pose proof (build_spec (ids g) g (zero_counts g) ∅ ids_nodup deps_nodup) as Hb.
  destruct (forallb _ g) eqn:Hok.
  2: { right. rewrite Hb. split; [|done]. rewrite <- node_ok_known by done.
       by rewrite Hok. }
  apply (node_ok_known g ids_nodup) in Hok. left. split; [done|].
  destruct Hb as (indeg & og & -> & Hc & Ho).
  assert (forall x, count indeg x = Z.of_nat (length (deps_of g x))) as Hc'
    by (intros x; by rewrite Hc, zero_counts_zero).
  destruct (kahn_run g og ids_nodup deps_nodup Ho (length g) indeg _ []
    (initial_inv indeg Hc')) as [indeg' [Hnd Hids Hcnt Hdone Hr]]; [lia|].
  rewrite app_nil_r in *. eexists. split_and!; [done|done|done| |reflexivity].
  intros x Hx Hd. apply Hdone; [done|]. rewrite Hcnt by done.
  by rewrite (proj2 (pending_nil g _ x) Hd).
Qed.

Fixpoint position (x : string) (l : list string) : nat :=
  match l with
  | [] => 0
  | y :: l' => if String.eqb y x then 0 else S (position x l')
  end.

Lemma position_app x pre post :
  x ∉ pre -> position x (pre ++ x :: post) = length pre.
Proof.
  induction pre as [|y pre IH]; intros Hx; simpl; [by rewrite String.eqb_refl|].
  destruct (String.eqb_spec y x) as [->|]; [set_solver|]. rewrite IH; set_solver.
Qed.

Lemma respects_acyclic order :
  order ≡ₚ ids g -> NoDup order -> respects g order -> acyclic g.
Proof.
  intros Hp Hnd Hr. exists (fun x => position x order).
  intros x d Hx Hd. rewrite <- Hp in Hx. apply list_elem_of_split in Hx as (pre & post & ->).
  pose proof (Hr pre x post eq_refl d Hd) as Hdp.
  apply list_elem_of_split in Hdp as (p1 & p2 & ->).
  rewrite position_app by (apply NoDup_app in Hnd as (_ & H & _); set_solver).
  rewrite <- app_assoc in *. simpl in *.
  rewrite position_app by (apply NoDup_app in Hnd as (_ & H & _); set_solver).
  rewrite length_app. simpl. lia.
Qed.

End topological.

Lemma topological_ok g order :
  NoDup (ids g) -> Forall (fun n => NoDup (n_deps n)) g ->
  topological_order g = Ok order ->
  order ≡ₚ ids g /\ respects g order /\ known_deps g.
Proof.
  intros Hi Hd H. destruct (topological_run g Hi Hd)
    as [(Hk & o & Hnd & Hids & Hr & _ & E)|[_ E]]; rewrite E in H; [|done].
  destruct (Nat.eqb_spec (length o) (length g)); simplify_eq. split_and!; [|done..].
  apply submseteq_length_Permutation.
  - by apply NoDup_submseteq.
  - unfold ids. rewrite length_map. lia.
Qed.

(** Scheduling order of a compiled plan: when [topological_order]
    succeeds it returns every step exactly once, each after all the steps it
    depends on. *)
Theorem topological_order_sound g order :
  NoDup (ids g) -> Forall (fun n => NoDup (n_deps n)) g ->
  topological_order g = Ok order ->
  order ≡ₚ ids g /\ respects g order.
Proof. intros Hi Hd H. by destruct (topological_ok g order Hi Hd H) as (? & ? & ?). Qed.

(** The compiler rejects exactly the bad graphs, and for the right
    reason: an unknown or self dependency is reported as such, otherwise a
    plan is accepted if and only if its dependencies are acyclic.  (The fuel
    of the loop, one round per step, never runs out first.) *)
Theorem topological_order_decides g :
  NoDup (ids g) -> Forall (fun n => NoDup (n_deps n)) g ->
  (topological_order g = Err UnknownDependency <-> ~ known_deps g) /\
  (topological_order g = Err CyclicPlan <-> known_deps g /\ ~ acyclic g) /\
  ((exists order, topological_order g = Ok order) <-> known_deps g /\ acyclic g).
Proof.
  intros Hi Hd. destruct (topological_run g Hi Hd)
    as [(Hk & o & Hnd & Hids & Hr & Hcl & E)|[Hk E]]; rewrite E; [|naive_solver].
  assert (length o = length g <-> acyclic g) as Hiff.
  { split.
    - intros Hl. apply (respects_acyclic g Hi Hd o); [|done|done].
      apply submseteq_length_Permutation; [by apply NoDup_submseteq|].
      unfold ids. rewrite length_map. lia.
    - intros [rank Hrank].
      assert (forall n x, rank x < n -> x ∈ ids g -> x ∈ o) as Hall.
      { induction n as [|n IH]; intros x Hx Hin; [lia|]. apply Hcl; [done|].
        intros d Hdd. apply IH; [|by eapply Hk].
        specialize (Hrank x d Hin Hdd). lia. }
      rewrite <- (length_map n_id g). apply Permutation_length, NoDup_Permutation; [done..|].
      intros x. split; [apply Hids|]. intros Hx. by eapply (Hall (S (rank x))); [lia|]. }
  destruct (Nat.eqb_spec (length o) (length g)); naive_solver.
Qed.

(** ** Ancestors *)

(** [pending.pop()] takes the last element and [pending.extend(deps)] adds at
    the end; the stack is kept with its top at the head.  [None] is the
    [KeyError] of an unknown identifier or the exhaustion of the fuel. *)
Fixpoint ancestors_loop (fuel : nat) (g : list node) (result : gset string)
    (stack : list string) : option (gset string) :=
  match fuel with
  | O => None
  | S fuel' =>
      match stack with
      | [] => Some result
      | x :: stack' =>
          if decide (x ∈ result) then ancestors_loop fuel' g result stack'
          else if str_in x (ids g)
          then ancestors_loop fuel' g ({[x]} ∪ result)
                 (rev (deps_of g x) ++ stack')
          else None
      end
  end.

(** Every iteration pops one entry; an entry is pushed at most once per edge
    of the graph, plus the initial ones. *)
Definition edge_count (g : list node) : nat :=
  sum_list_with (fun n => length (n_deps n)) g.
Definition ancestors (g : list node) (deps : list string) : option (gset string) :=
  ancestors_loop (S (length deps + edge_count g)) g ∅ (rev deps).

(** [x] is a direct or transitive dependency. *)
Inductive depends (g : list node) : string -> string -> Prop :=
| depends_here x : depends g x x
| depends_via x d y : d ∈ deps_of g x -> depends g d y -> depends g x y.

Definition edges_left (g : list node) (result : gset string) : nat :=
  sum_list_with (fun n => if decide (n_id n ∈ result) then 0 else length (n_deps n)) g.

Lemma edges_left_add g (result : gset string) x :
  NoDup (ids g) -> x ∈ ids g -> x ∉ result ->
  edges_left g ({[x]} ∪ result) + length (deps_of g x) = edges_left g result.
Proof.
  unfold edges_left. induction g as [|n g IH]; intros Hnd Hx Hr; [set_solver|].
  inversion Hnd as [|? ? Hn Hnd']; subst. unfold deps_of. simpl.
  destruct (String.eqb_spec (n_id n) x) as [<-|Hne].
  - rewrite decide_True, (decide_False (P := n_id n ∈ result)) by set_solver.
    enough (sum_list_with (fun n0 => if decide (n_id n0 ∈ {[n_id n]} ∪ result)
        then 0 else length (n_deps n0)) g
      = sum_list_with (fun n0 => if decide (n_id n0 ∈ result)
        then 0 else length (n_deps n0)) g) by lia.
    clear -Hn. induction g as [|m g IH]; simpl; [done|].
    rewrite IH by set_solver.
    assert (n_id m ∈ ({[n_id n]} ∪ result : gset string) <-> n_id m ∈ result) as Hiff
      by set_solver.
    by rewrite (decide_ext _ _ _ _ Hiff).
  - assert (n_id n ∈ ({[x]} ∪ result : gset string) <-> n_id n ∈ result) as Hiff
      by set_solver.
    rewrite (decide_ext _ _ _ _ Hiff).
    assert (x ∈ ids g) as Hx' by set_solver.
    specialize (IH Hnd' Hx' Hr). unfold deps_of in IH. case_decide; lia.
Qed.

Lemma elem_of_rev (x : string) l : x ∈ rev l <-> x ∈ l.
Proof. by rewrite !list_elem_of_In, <- in_rev. Qed.

Lemma ancestors_loop_spec g fuel (result : gset string) stack :
  NoDup (ids g) -> known_deps g ->
  (forall x, x ∈ stack -> x ∈ ids g) ->
  (forall x y, x ∈ result -> y ∈ deps_of g x -> y ∈ result \/ y ∈ stack) ->
  length stack + edges_left g result < fuel ->
  exists r, ancestors_loop fuel g result stack = Some r /\
    (forall x, x ∈ result \/ x ∈ stack -> x ∈ r) /\
    (forall x y, x ∈ r -> y ∈ deps_of g x -> y ∈ r) /\
    (forall y, y ∈ r -> y ∈ result \/ exists x, x ∈ stack /\ depends g x y).
Proof.
  intros Hnd Hk. revert result stack.
  induction fuel as [|fuel IH]; intros result stack Hst Hcl Hf; [lia|].
  destruct stack as [|x stack]; simpl.
  { exists result. split_and!; set_solver. }
  assert (x ∈ ids g) as Hx by (apply Hst; left).
  rewrite (proj2 (str_in_spec _ _) Hx). simpl in Hf. case_decide as Hin.
  - destruct (IH result stack) as (r & -> & H1 & H2 & H3); [set_solver..|lia|].
    exists r. split_and!; [done|set_solver|done|set_solver].
  - pose proof (edges_left_add g result x Hnd Hx Hin) as He.
    destruct (IH ({[x]} ∪ result) (rev (deps_of g x) ++ stack))
      as (r & -> & H1 & H2 & H3).
    + intros y [Hy|Hy]%elem_of_app; [|set_solver].
      rewrite elem_of_rev in Hy. by eapply Hk.
    + intros y z [->%elem_of_singleton|Hy]%elem_of_union Hz.
      * right. rewrite elem_of_app, elem_of_rev. by left.
      * destruct (Hcl y z Hy Hz); set_solver.
    + rewrite length_app, length_rev. lia.
    + exists r. split_and!; [done|set_solver|done|].
      intros y Hy. destruct (H3 y Hy) as [|(w & [Hw|Hw]%elem_of_app & Hd)].
      * set_unfold. destruct H as [->|]; [|by left].
        right. exists x. split; [by left|constructor].
      * rewrite elem_of_rev in Hw. right. exists x. split; [by left|]. by eapply depends_via.
      * set_solver.
Qed.

Lemma ancestors_closure g deps :
  NoDup (ids g) -> known_deps g -> (forall d, d ∈ deps -> d ∈ ids g) ->
  exists r, ancestors g deps = Some r /\
    forall y, y ∈ r <-> exists d, d ∈ deps /\ depends g d y.
Proof.
  intros Hnd Hk Hd. unfold ancestors.
  assert (edges_left g ∅ = edge_count g) as He.
  { unfold edges_left, edge_count. clear. induction g as [|n g IH]; simpl; [done|].
    by rewrite IH. }
  pose proof (fun y => elem_of_rev y deps) as Hrev.
  destruct (ancestors_loop_spec g (S (length deps + edge_count g)) ∅ (rev deps))
    as (r & -> & H1 & H2 & H3); [done|done|set_solver|set_solver| |].
  { rewrite length_rev, He. lia. }
  exists r. split; [done|]. intros y. split.
  - intros Hy. destruct (H3 y Hy) as [|(x & Hx & Hxy)]; [set_solver|].
    exists x. by rewrite <- Hrev.
  - intros (d & Hdd & Hdy). assert (d ∈ r) as Hr by (apply H1; right; by apply Hrev).
    clear Hdd. induction Hdy; eauto.
Qed.

(** The ancestors of a step: the depth-first closure terminates within
    its bound on every graph the topological sort accepts, and returns
    exactly the steps the dependencies reach. *)
Theorem ancestors_spec g deps :
  NoDup (ids g) -> known_deps g -> (forall d, d ∈ deps -> d ∈ ids g) ->
  exists r, ancestors g deps = Some r /\
    forall y, y ∈ r <-> exists d, d ∈ deps /\ depends g d y.
Proof. apply ancestors_closure. Qed.

Definition ex_graph : list node := [
  {| n_id := "report"; n_deps := ["fetch"; "summarise"] |};
  {| n_id := "summarise"; n_deps := ["fetch"] |};
  {| n_id := "fetch"; n_deps := [] |}].

Lemma ex_graph_ok : NoDup (ids ex_graph) /\ Forall (fun n => NoDup (n_deps n)) ex_graph.
Proof. split; repeat constructor; unfold ids; simpl; set_solver. Qed.

Lemma topological_order_sound_witness :
  topological_order ex_graph = Ok ["fetch"; "summarise"; "report"] /\
  ["fetch"; "summarise"; "report"] ≡ₚ ids ex_graph /\
  respects ex_graph ["fetch"; "summarise"; "report"].
Proof.
  split; [reflexivity|].
  apply topological_order_sound; [apply ex_graph_ok..|reflexivity].
Defined.

Lemma topological_order_decides_witness :
  (exists order, topological_order ex_graph = Ok order) /\ acyclic ex_graph.
Proof.
  split; [by eexists|].
  apply (topological_order_decides ex_graph); [apply ex_graph_ok..|].
  eexists. reflexivity.
Defined.

Lemma ancestors_spec_witness :
  exists r, ancestors ex_graph ["summarise"] = Some r /\
    forall y, y ∈ r <-> exists d, d ∈ ["summarise"] /\ depends ex_graph d y.
Proof.
  apply ancestors_spec; [apply ex_graph_ok| |set_solver].
  apply node_ok_known; [apply ex_graph_ok|reflexivity].
Defined.
