(* ===== verification/PlanSchema.v ===== *)
(** * References and JSON schemas of a plan

    The module-level helpers of src/agents/orchestrator/planner.py:
    [{"$ref": "step.output.path"}] references inside a step's input, the
    sub-schemas a path reaches, the JSON types a schema admits, and the
    compatibility test between the producing and the consuming schema. *)

From S2P Require Import Prelude PyValue.

(** ** References *)

(** [set(value) == {"$ref"} and isinstance(value["$ref"], str)]. *)
Definition is_ref (d : list (string * pyval)) : option string :=
  match d with
  | [(k, VStr r)] => if String.eqb k "$ref" then Some r else None
  | _ => None
  end.

Fixpoint references (v : pyval) : list string :=
  match v with
  | VDict d =>
      match is_ref d with
      | Some r => [r]
      | None => flat_map (fun kv => references kv.2) d
      end
  | VList l => flat_map references l
  | _ => []
  end.

(** [str(index)] of [enumerate]. *)
Definition index_str (n : nat) : string := pretty.pretty n.

Fixpoint references_with_paths (v : pyval) (path : list string)
    : list (list string * string) :=
  match v with
  | VDict d =>
      match is_ref d with
      | Some r => [(path, r)]
      | None =>
          flat_map (fun kv => references_with_paths kv.2 (path ++ [kv.1])) d
      end
  | VList l =>
      (fix go (l : list pyval) (i : nat) : list (list string * string) :=
         match l with
         | [] => []
         | x :: l' => references_with_paths x (path ++ [index_str i]) ++ go l' (S i)
         end) l 0
  | _ => []
  end.

(** [s.split(".")]. *)
Fixpoint split_on (c : ascii) (s : string) (cur : string) : list string :=
  match s with
  | "" => [cur]
  | String a s' => if Ascii.eqb a c then cur :: split_on c s' ""
                   else split_on c s' (cur +:+ String a "")
  end.
Definition split_dot (s : string) : list string := split_on (chr 46) s "".

(** ** Schemas *)

Definition is_dict (v : pyval) : bool := match v with VDict _ => true | _ => false end.
Definition has_key (d : list (string * pyval)) (k : string) : bool :=
  match dget d k with Some _ => true | None => false end.

(** [_schema_alternatives]: the schema and, recursively, the members of its
    [oneOf], [anyOf] and [allOf] lists.  The members are computed field by
    field first, then picked in keyword order. *)
Fixpoint schema_alternatives (v : pyval) : list pyval :=
  match v with
  | VDict d =>
      let sub := map (fun kv => (kv.1,
        match kv.2 with VList l => flat_map schema_alternatives l | _ => [] end)) d in
      let members kw :=
        match List.find (fun kv => String.eqb kv.1 kw) sub with
        | Some kv => kv.2 | None => [] end in
      v :: members "oneOf" ++ members "anyOf" ++ members "allOf"
  | _ => []
  end.

Definition json_type (v : pyval) : string :=
  match v with
  | VNone => "null"
  | VBool _ => "boolean"
  | VInt _ => "integer"
  | VStr _ => "string"
  | VList _ => "array"
  | VDict _ => "object"
  end.

(** Sets of type names are lists read by membership only. *)
Definition inter (a b : list string) : list string :=
  List.filter (fun x => str_in x b) a.
Definition str_subset (a b : list string) : bool := forallb (fun x => str_in x b) a.

(** The types a schema declares by itself, before its combinators. *)
Definition declared_types (d : list (string * pyval)) : list string :=
  match get d "type" with
  | VStr t => [t]
  | VList l => flat_map (fun v => match v with VStr s => [s] | _ => [] end) l
  | _ =>
      if has_key d "properties" then ["object"]
      else if has_key d "items" then ["array"]
      else if has_key d "const" then [json_type (get d "const")]
      else match get d "enum" with
           | VList l => map json_type l
           | _ => []
           end
  end.

(** [set.intersection] of the members of [allOf] that constrain the type. *)
Definition inter_all (l : list (list string)) : list string :=
  match List.filter truthy l with
  | [] => []
  | x :: l' => foldl inter x l'
  end.

Fixpoint schema_types (v : pyval) : list string :=
  match v with
  | VDict d =>
      let sub := map (fun kv => (kv.1,
        match kv.2 with VList l => Some (map schema_types l) | _ => None end)) d in
      let members kw :=
        match List.find (fun kv => String.eqb kv.1 kw) sub with
        | Some kv => kv.2 | None => None end in
      let union kw := match members kw with Some l => concat l | None => [] end in
      let alternatives := union "oneOf" ++ union "anyOf" in
      let declared := declared_types d in
      let types :=
        match alternatives with
        | [] => declared
        | _ => match declared with
               | [] => alternatives
               | _ => inter declared alternatives
               end
        end in
      match members "allOf" with
      | Some (_ :: _ as l) =>
          let constrained := inter_all l in
          match types, constrained with
          | _ :: _, _ :: _ => inter types constrained
          | _, _ :: _ => constrained
          | _, [] => types
          end
      | _ => types
      end
  | _ => []
  end.

Definition schema_allows_type (schema : pyval) (expected : string) : bool :=
  let types := schema_types schema in
  str_in expected types ||
  (String.eqb expected "integer" && str_in "number" types).

Definition schemas_are_compatible (source destination : list pyval) : bool :=
  let source_types := flat_map schema_types source in
  let destination_types := flat_map schema_types destination in
  match source_types, destination_types with
  | [], _ | _, [] => false
  | _, _ =>
      let compatible :=
        if str_in "number" destination_types
        then destination_types ++ ["integer"] else destination_types in
      str_subset source_types compatible
  end.

Definition is_digits (s : string) : bool :=
  truthy s && str_forallb (fun c => match digit_val c with
                                    | Some _ => true | None => false end) s.

(** One step of [_schemas_at_path] from one candidate. *)
Definition schema_step (allow_array_indices : bool) (part : string)
    (candidate : pyval) : list pyval :=
  match candidate with
  | VDict c =>
      match get c "properties" with
      | VDict props =>
          match dget props part with
          | Some s => schema_alternatives s
          | None =>
              if allow_array_indices && schema_allows_type candidate "array"
                 && is_digits part && is_dict (get c "items")
              then schema_alternatives (get c "items") else []
          end
      | _ =>
          if allow_array_indices && schema_allows_type candidate "array"
             && is_digits part && is_dict (get c "items")
          then schema_alternatives (get c "items") else []
      end
  | _ => []
  end.

Fixpoint walk_path (allow_array_indices : bool) (candidates : list pyval)
    (path : list string) : list pyval :=
  match path with
  | [] => candidates
  | part :: path' =>
      match flat_map (schema_step allow_array_indices part) candidates with
      | [] => []
      | next => walk_path allow_array_indices next path'
      end
  end.

Definition schemas_at_path (schema : pyval) (path : list string)
    (allow_array_indices : bool) : list pyval :=
  walk_path allow_array_indices (schema_alternatives schema) path.

(** [_allow_declared_references]: every typed field may also be a reference. *)
Definition reference_schema : pyval :=
  VDict [("type", VStr "object"); ("required", VList [VStr "$ref"]);
         ("properties", VDict [("$ref", VDict [("type", VStr "string")])]);
         ("additionalProperties", VBool false)].

Fixpoint allow_declared_references (allow_self : bool) (schema : pyval) : pyval :=
  match schema with
  | VDict d =>
      let transformed := VDict (map (fun kv => (kv.1,
        match kv.2 with
        | VDict props =>
            if String.eqb kv.1 "properties" then
              VDict (map (fun p => (p.1, allow_declared_references true p.2)) props)
            else if String.eqb kv.1 "items" then allow_declared_references true kv.2
            else kv.2
        | VList l =>
            if String.eqb kv.1 "items" then kv.2
            else if str_in kv.1 ["oneOf"; "anyOf"; "allOf"]
            then VList (map (allow_declared_references allow_self) l)
            else kv.2
        | other => other
        end)) d) in
      if allow_self then VDict [("anyOf", VList [transformed; reference_schema])]
      else transformed
  | other => other
  end.

(** ** Properties of the helpers *)

(** Both collectors see the same references, in the same order. *)
Lemma references_paths v path :
  map snd (references_with_paths v path) = references v.
Proof.
  revert path. induction v as [| | | |l IH|d IH] using pyval_ind'; intros path; simpl; try done.
  - generalize 0. induction IH as [|x l Hx _ IHl]; intros i; simpl; [done|].
    rewrite map_app, Hx. f_equal. apply IHl.
  - destruct (is_ref d); [done|]. clear -IH.
    induction IH as [|[k x] d Hx _ IHd]; simpl; [done|].
    rewrite map_app, Hx. by f_equal.
Qed.

(** A reference's path starts where the search started. *)
Lemma references_prefix v path p r :
  (p, r) ∈ references_with_paths v path -> exists rest, p = path ++ rest.
Proof.
  revert path p. induction v as [| | | |l IH|d IH] using pyval_ind';
    intros path p; simpl; try set_solver.
  - generalize 0. induction IH as [|x l Hx _ IHl]; intros i; simpl; [set_solver|].
    intros [H|H]%elem_of_app; [|by eapply IHl].
    apply Hx in H as [rest ->]. rewrite <- app_assoc. by eexists.
  - destruct (is_ref d) as [r'|] eqn:Er.
    { intros H. apply list_elem_of_singleton in H as [= -> ->].
      exists []. by rewrite app_nil_r. }
    clear Er. induction IH as [|[k x] d Hx _ IHd]; simpl; [set_solver|].
    intros [H|H]%elem_of_app; [|by apply IHd].
    apply Hx in H as [rest ->]. rewrite <- app_assoc. by eexists.
Qed.

Lemma str_subset_spec a b : str_subset a b = true <-> forall x, x ∈ a -> x ∈ b.
Proof.
  unfold str_subset. rewrite forallb_forall. setoid_rewrite str_in_spec.
  by setoid_rewrite list_elem_of_In.
Qed.

(** A reference is accepted only when every JSON type the source may
    produce is one the destination declares, an integer being acceptable
    where a number is declared; and neither side may be untyped. *)
Theorem schemas_are_compatible_spec source destination :
  schemas_are_compatible source destination = true <->
  (exists t, t ∈ flat_map schema_types source) /\
  (exists t, t ∈ flat_map schema_types destination) /\
  forall t, t ∈ flat_map schema_types source ->
    t ∈ flat_map schema_types destination \/
    (t = "integer" /\ "number" ∈ flat_map schema_types destination).
Proof.
  unfold schemas_are_compatible.
  destruct (flat_map schema_types source) as [|s ss].
  { split; [done|]. by intros ([t Ht%elem_of_nil] & _). }
  destruct (flat_map schema_types destination) as [|d ds].
  { split; [done|]. by intros (_ & [t Ht%elem_of_nil] & _). }
  rewrite str_subset_spec.
  assert (exists t, t ∈ s :: ss) as Hs by (exists s; left).
  assert (exists t, t ∈ d :: ds) as Ht by (exists d; left).
  destruct (str_in "number" (d :: ds)) eqn:E.
  - apply str_in_spec in E.
    assert (forall t, t ∈ (d :: ds) ++ ["integer"] <->
      t ∈ d :: ds \/ (t = "integer" /\ "number" ∈ d :: ds)) as Hiff.
    { intros t. rewrite elem_of_app, list_elem_of_singleton. naive_solver. }
    setoid_rewrite Hiff. naive_solver.
  - apply str_in_false in E. naive_solver.
Qed.
