(* ===== verification/Planner.v ===== *)
(** * The plan compiler

    [PlanCompiler] of src/agents/orchestrator/planner.py: a model-proposed
    plan is checked step by step against the catalog, the connection
    snapshots, the data-flow provenance and the input schemas, put in
    dependency order, its references checked, and hashed.  Pydantic's
    validation of the raw plan and jsonschema's validation of a step input
    are arguments ([validate_draft], [schema_valid]): the first reads a raw
    plan as a [WorkflowPlanDraft], the second tells whether an instance
    satisfies a schema. *)

From S2P Require Import Prelude PyValue Json Sha256 Catalog PlanGraph PlanSchema.

Record WorkflowPlanStep := {
  step_id : string;
  st_capability_id : string;
  st_capability_version : string;
  st_connection_id : option string;
  descriptor_snapshot_hash : string;
  st_input : pyval;
  depends_on : list string;
  agent_offer_id : option string;
}.

Record WorkflowPlanDraft := {
  tenant_id : string;
  goal : string;
  steps : list WorkflowPlanStep;
  blockers : list pyval;
}.

Inductive plan_error : Type :=
| PlanRejected (why : string)
| PlanRaised (e : pyexn).

Record PlanCompiler := {
  definitions : list TrustedCapabilityDefinition;
  snapshots : list ConnectionCapabilitySnapshot;
  pc_rollout_version : string;
}.

Definition MAX_STEPS : nat := 10.

(** [self.snapshots.get((capability, version, connection))]: later snapshots
    replace earlier ones with the same key; a step without a connection has
    no key. *)
Fixpoint find_snapshot (ss : list ConnectionCapabilitySnapshot)
    (cid ver : string) (conn : option string) : option ConnectionCapabilitySnapshot :=
  match ss with
  | [] => None
  | s :: ss' =>
      match find_snapshot ss' cid ver conn with
      | Some s' => Some s'
      | None =>
          match conn with
          | Some c =>
              if String.eqb (snap_capability_id s) cid
                 && String.eqb (snap_capability_version s) ver
                 && String.eqb (snap_connection_id s) c
              then Some s else None
          | None => None
          end
      end
  end.

(** A step as the compiled plan carries it. *)
Record validated_step := {
  v_step_id : string;
  v_capability_id : string;
  v_capability_version : string;
  v_connection_id : option string;
  v_descriptor_hash : string;
  v_credential_version : Z;
  v_input : pyval;
  v_depends_on : list string;
  v_effect : string;
  v_risk : string;
  v_retry_policy : string;
  v_provider : string;
  v_agent_offer_id : option string;
}.

Definition step_value (s : validated_step) : pyval :=
  VDict [
    ("step_id", VStr (v_step_id s));
    ("capability_id", VStr (v_capability_id s));
    ("capability_version", VStr (v_capability_version s));
    ("connection_id", opt_str (v_connection_id s));
    ("descriptor_snapshot_hash", VStr (v_descriptor_hash s));
    ("credential_version", VInt (v_credential_version s));
    ("input", v_input s);
    ("depends_on", VList (map VStr (v_depends_on s)));
    ("effect", VStr (v_effect s));
    ("risk", VStr (v_risk s));
    ("retry_policy", VStr (v_retry_policy s));
    ("provider", VStr (v_provider s));
    ("agent_offer_id", opt_str (v_agent_offer_id s))].

Record compiled_plan := {
  c_tenant_id : string;
  c_goal : string;
  c_steps : list validated_step;
  plan_graph_hash : string;
  capability_snapshot_hash : string;
  disclosures : list pyval;
  c_blockers : list pyval;
}.

(** ** Data flow *)

(** [text in container]. *)
Definition contains (text : string) (container : pyval) : result pyexn bool :=
  match container with
  | VList l => Ok (mem (VStr text) l)
  | VStr s => Ok (substring text s)
  | VDict d => Ok (has_key d text)
  | _ => Err TypeError
  end.

(** [set(value) == {"$value", "$provenance"}]. *)
Definition is_envelope (d : list (string * pyval)) : bool :=
  Nat.eqb (length d) 2 && has_key d "$value" && has_key d "$provenance".

Section data_flow.
Variables (destination : string) (me : string).

(** The check on one envelope: the provider that produced the value is the
    one that receives it, or the provenance allows the destination. *)
Definition authorize_envelope (d : list (string * pyval))
    : result plan_error (pyval * list pyval) :=
  match get d "$provenance" with
  | VDict prov =>
      let source := get prov "provider" in
      let allowed := get_or prov "allowed_destinations" (VList []) in
      let disclosure := VDict [
        ("step_id", VStr me); ("source", source);
        ("destination", VStr destination);
        ("classification", get_or prov "classification" (VStr "unknown"))] in
      if py_eqb source (VStr destination) then Ok (get d "$value", [disclosure])
      else match contains destination allowed with
           | Err e => Err (PlanRaised e)
           | Ok false => Err (PlanRejected "data flow is not authorized")
           | Ok true => Ok (get d "$value", [disclosure])
           end
  | _ => Err (PlanRejected "data provenance is malformed")
  end.

Fixpoint authorize_data_flow (v : pyval) : result plan_error (pyval * list pyval) :=
  match v with
  | VDict d =>
      if is_envelope d then authorize_envelope d
      else
        match (fix go (d : list (string * pyval))
                 : result plan_error (list (string * pyval) * list pyval) :=
                 match d with
                 | [] => Ok ([], [])
                 | (k, x) :: d' =>
                     match authorize_data_flow x with
                     | Err e => Err e
                     | Ok (clean, nested) =>
                         match go d' with
                         | Err e => Err e
                         | Ok (rest, more) => Ok ((k, clean) :: rest, nested ++ more)
                         end
                     end
                 end) d
        with Err e => Err e | Ok (r, ds) => Ok (VDict r, ds) end
  | VList l =>
      match (fix go (l : list pyval) : result plan_error (list pyval * list pyval) :=
               match l with
               | [] => Ok ([], [])
               | x :: l' =>
                   match authorize_data_flow x with
                   | Err e => Err e
                   | Ok (clean, nested) =>
                       match go l' with
                       | Err e => Err e
                       | Ok (rest, more) => Ok (clean :: rest, nested ++ more)
                       end
                   end
               end) l
      with Err e => Err e | Ok (r, ds) => Ok (VList r, ds) end
  | _ => Ok (v, [])
  end.
End data_flow.

(** ** One step *)

Definition scopes_subset (required held : list string) : bool :=
  forallb (fun s => str_in s held) required.

Definition recipient_fields : list string :=
  ["to"; "recipient"; "recipients"; "attendee"; "attendees"].

Section compile.
Variable pc : PlanCompiler.
Variable validate_draft : pyval -> option WorkflowPlanDraft.
Variable schema_valid : pyval -> pyval -> bool.

(** The first fields of the paths of the references in an input. *)
Definition referenced_fields (input : pyval) : list string :=
  flat_map (fun pr => match pr.1 with [] => [] | f :: _ => [f] end)
    (references_with_paths input []).

(** The body of the [for step in draft.steps] loop. *)
Definition compile_step (tenant : string) (seen : list string)
    (step : WorkflowPlanStep) : result plan_error (validated_step * list pyval) :=
  if str_in (step_id step) seen
  then Err (PlanRejected "step identifiers must be unique")
  else match find_definition (definitions pc) (st_capability_id step)
               (st_capability_version step) with
  | None => Err (PlanRejected "capability is not catalogued")
  | Some def =>
  if negb (String.eqb (descriptor_snapshot_hash step) (descriptor_hash def))
  then Err (PlanRejected "descriptor snapshot is stale")
  else match find_snapshot (snapshots pc) (st_capability_id step)
               (st_capability_version step) (st_connection_id step) with
  | None => Err (PlanRejected "connection is not authorized for this tenant")
  | Some snap =>
  if negb (String.eqb (snap_tenant_id snap) tenant)
  then Err (PlanRejected "connection is not authorized for this tenant")
  else if negb (String.eqb (snap_health snap) "healthy")
     || negb (String.eqb (snap_rollout_version snap) (pc_rollout_version pc))
     || negb (scopes_subset (required_scopes def) (snap_effective_scopes snap))
  then Err (PlanRejected "connection capability snapshot is stale")
  else match authorize_data_flow (provider def) (step_id step) (st_input step) with
  | Err e => Err e
  | Ok (safe_input, step_disclosures) =>
  if String.eqb (provider def) "twilio" && String.eqb (effect def) "write"
     && existsb (fun f => str_in f (preview_fields def))
          (referenced_fields safe_input)
  then Err (PlanRejected "Twilio write preview fields must be literal")
  else if negb (schema_valid safe_input
                  (allow_declared_references false (input_schema def)))
  then Err (PlanRejected ("input schema rejected step " +:+ step_id step))
  else Ok ({| v_step_id := step_id step;
              v_capability_id := st_capability_id step;
              v_capability_version := st_capability_version step;
              v_connection_id := st_connection_id step;
              v_descriptor_hash := descriptor_snapshot_hash step;
              v_credential_version := snap_credential_version snap;
              v_input := safe_input;
              v_depends_on := str_sorted_set (depends_on step);
              v_effect := effect def; v_risk := risk def;
              v_retry_policy := retry_policy def;
              v_provider := provider def;
              v_agent_offer_id := agent_offer_id step |}, step_disclosures)
  end end end.

Fixpoint compile_steps (tenant : string) (seen : list string)
    (l : list WorkflowPlanStep)
    : result plan_error (list validated_step * list pyval) :=
  match l with
  | [] => Ok ([], [])
  | s :: l' =>
      match compile_step tenant seen s with
      | Err e => Err e
      | Ok (v, ds) =>
          match compile_steps tenant (step_id s :: seen) l' with
          | Err e => Err e
          | Ok (vs, more) => Ok (v :: vs, ds ++ more)
          end
      end
  end.

(** ** The whole plan *)

Definition plan_node (s : validated_step) : node :=
  {| n_id := v_step_id s; n_deps := v_depends_on s |}.

Definition find_step (l : list validated_step) (x : string) : option validated_step :=
  List.find (fun s => String.eqb (v_step_id s) x) l.

(** [[next(item for item in validated if item["step_id"] == id) for id in
    order]]. *)
Definition in_order (l : list validated_step) (order : list string)
    : list validated_step :=
  flat_map (fun x => match find_step l x with Some s => [s] | None => [] end) order.

(** The checks on one reference of one step. *)
Definition check_reference (all : list validated_step) (anc : gset string)
    (step : validated_step) (path : list string) (reference : string)
    : result plan_error unit :=
  let bad := Err (PlanRejected "output reference is invalid") in
  match split_dot reference with
  | src :: part :: ((_ :: _) as rest) =>
      if bool_decide (src ∈ anc) && str_in part ["output"; "receipt"] then
        match find_step all src with
        | None => Err (PlanRaised KeyError)
        | Some source =>
        if String.eqb (v_provider step) "google"
           && existsb (fun p => str_in (lower p) recipient_fields) path
        then Err (PlanRejected
               "dynamic identities require an explicit confirmed recipient")
        else
        match find_definition (definitions pc) (v_capability_id source)
                (v_capability_version source),
              find_definition (definitions pc) (v_capability_id step)
                (v_capability_version step) with
        | Some sd, Some dd =>
            match schemas_at_path (output_schema sd) rest false with
            | [] => Err (PlanRejected "undeclared source output path")
            | source_schemas =>
                match schemas_at_path (input_schema dd) path true with
                | [] => Err (PlanRejected "undeclared destination input path")
                | destination_schemas =>
                    if schemas_are_compatible source_schemas destination_schemas
                    then Ok tt
                    else Err (PlanRejected "incompatible reference type")
                end
            end
        | _, _ => Err (PlanRaised KeyError)
        end
        end
      else bad
  | _ => bad
  end.

Fixpoint each {A} (f : A -> result plan_error unit) (l : list A)
    : result plan_error unit :=
  match l with
  | [] => Ok tt
  | x :: l' => match f x with Err e => Err e | Ok _ => each f l' end
  end.

Definition validate_references (all : list validated_step) : result plan_error unit :=
  each (fun step =>
    match ancestors (map plan_node all) (v_depends_on step) with
    | None => Err (PlanRaised KeyError)
    | Some anc =>
        each (fun pr => check_reference all anc step pr.1 pr.2)
          (references_with_paths (v_input step) [])
    end) all.

(** [reference.split(".", 1)[0]]. *)
Definition head_piece (reference : string) : string :=
  match split_dot reference with x :: _ => x | [] => "" end.

Fixpoint step_reference_disclosures (all : list validated_step)
    (step : validated_step) (refs : list string) : result plan_error (list pyval) :=
  match refs with
  | [] => Ok []
  | r :: refs' =>
      match find_step all (head_piece r) with
      | None => Err (PlanRaised KeyError)
      | Some src =>
          if String.eqb (v_provider src) (v_provider step)
          then step_reference_disclosures all step refs'
          else if truthy (v_agent_offer_id src) || truthy (v_agent_offer_id step)
          then Err (PlanRejected
            "provider-to-agent data flow requires an explicit trusted policy")
          else match step_reference_disclosures all step refs' with
               | Err e => Err e
               | Ok more => Ok (VDict [
                   ("step_id", VStr (v_step_id step));
                   ("source_step_id", VStr (v_step_id src));
                   ("source", VStr (v_provider src));
                   ("destination", VStr (v_provider step));
                   ("classification", VStr "provider_data");
                   ("reference", VStr r)] :: more)
               end
      end
  end.

Fixpoint reference_disclosures (all l : list validated_step)
    : result plan_error (list pyval) :=
  match l with
  | [] => Ok []
  | s :: l' =>
      match step_reference_disclosures all s (references (v_input s)) with
      | Err e => Err e
      | Ok ds => match reference_disclosures all l' with
                 | Err e => Err e
                 | Ok more => Ok (ds ++ more)
                 end
      end
  end.

Definition graph_material (tenant goal : string) (ordered : list validated_step)
    : pyval :=
  VDict [("tenant_id", VStr tenant); ("goal", VStr goal);
         ("steps", VList (map step_value ordered))].

Definition snapshot_material (ordered : list validated_step) : pyval :=
  VList (map (fun s => VDict [
    ("connection_id", opt_str (v_connection_id s));
    ("capability_id", VStr (v_capability_id s));
    ("capability_version", VStr (v_capability_version s));
    ("descriptor_snapshot_hash", VStr (v_descriptor_hash s));
    ("credential_version", VInt (v_credential_version s))]) ordered).

Definition graph_rejection (e : graph_error) : plan_error :=
  match e with
  | UnknownDependency => PlanRejected "dependency is unknown or self-referential"
  | CyclicPlan => PlanRejected "plan dependency graph is cyclic"
  end.

Definition compile_draft (draft : WorkflowPlanDraft) : result plan_error compiled_plan :=
  if negb (truthy (tenant_id draft))
  then Err (PlanRejected "tenant binding is required")
  else if negb (truthy (steps draft)) then Err (PlanRejected "plan has no steps")
  else if Nat.ltb MAX_STEPS (length (steps draft))
  then Err (PlanRejected "plan exceeds the ten steps limit")
  else match compile_steps (tenant_id draft) [] (steps draft) with
  | Err e => Err e
  | Ok (validated, ds) =>
  match topological_order (map plan_node validated) with
  | Err e => Err (graph_rejection e)
  | Ok order =>
  let ordered := in_order validated order in
  match validate_references ordered with
  | Err e => Err e
  | Ok _ =>
  match reference_disclosures ordered ordered with
  | Err e => Err e
  | Ok more =>
      Ok {| c_tenant_id := tenant_id draft; c_goal := goal draft;
            c_steps := ordered;
            plan_graph_hash :=
              hash_value (graph_material (tenant_id draft) (goal draft) ordered);
            capability_snapshot_hash := hash_value (snapshot_material ordered);
            disclosures := ds ++ more;
            c_blockers := blockers draft |}
  end end end end.

Definition compile (raw_plan : pyval) : result plan_error compiled_plan :=
  match validate_draft raw_plan with
  | None => Err (PlanRejected "plan shape is invalid")
  | Some draft => compile_draft draft
  end.
End compile.

(** ** What a compiled step establishes *)

Section theorems.
Variable pc : PlanCompiler.
Variable schema_valid : pyval -> pyval -> bool.

(** A step is grounded: its capability is catalogued, the descriptor is the
    one the plan was made against, and its connection is a healthy snapshot
    of the same tenant at the current rollout that holds every required
    scope; its input satisfies the descriptor's schema. *)
Definition grounded (tenant : string) (s : validated_step) : Prop :=
  exists def snap,
    find_definition (definitions pc) (v_capability_id s) (v_capability_version s)
      = Some def /\
    v_descriptor_hash s = descriptor_hash def /\
    find_snapshot (snapshots pc) (v_capability_id s) (v_capability_version s)
      (v_connection_id s) = Some snap /\
    snap_tenant_id snap = tenant /\
    snap_health snap = "healthy" /\
    snap_rollout_version snap = pc_rollout_version pc /\
    (forall sc, sc ∈ required_scopes def -> sc ∈ snap_effective_scopes snap) /\
    v_credential_version s = snap_credential_version snap /\
    v_effect s = effect def /\ v_provider s = provider def /\
    v_risk s = risk def /\ v_retry_policy s = retry_policy def /\
    schema_valid (v_input s) (allow_declared_references false (input_schema def)) = true /\
    (provider def = "twilio" -> effect def = "write" ->
     forall f, f ∈ preview_fields def -> f ∉ referenced_fields (v_input s)).

Lemma scopes_subset_spec a b :
  scopes_subset a b = true <-> forall x, x ∈ a -> x ∈ b.
Proof. apply str_subset_spec. Qed.

Lemma compile_step_ok tenant seen step v ds :
  compile_step pc schema_valid tenant seen step = Ok (v, ds) ->
  (step_id step ∉ seen) /\ v_step_id v = step_id step /\
  v_depends_on v = str_sorted_set (depends_on step) /\ grounded tenant v /\
  authorize_data_flow (v_provider v) (step_id step) (st_input step) = Ok (v_input v, ds).
Proof.
  unfold compile_step. intros H. guards H. simplify_eq. simpl.
  split; [by apply str_in_false|]. split_and!; [done|done| |done].
  bool_hyps. eexists _, _. cbn. split_and!; try done.
  - by apply scopes_subset_spec.
  - intros Ht Hw f Hf Hr.
    match goal with E : _ && _ && existsb _ _ = false |- _ =>
      rewrite Ht, Hw in E; simpl in E; rewrite <- not_true_iff_false, existsb_exists in E;
      apply E end.
    exists f. split; [by apply list_elem_of_In|by apply str_in_spec].
Qed.

Lemma compile_steps_ok tenant seen l vs ds :
  compile_steps pc schema_valid tenant seen l = Ok (vs, ds) ->
  map v_step_id vs = map step_id l /\
  NoDup (map step_id l) /\ (forall x, x ∈ map step_id l -> x ∉ seen) /\
  Forall (fun v => grounded tenant v /\ NoDup (v_depends_on v)) vs /\
  map v_depends_on vs = map (fun s => str_sorted_set (depends_on s)) l.
Proof.
  revert seen vs ds; induction l as [|s l IH]; intros seen vs ds; simpl.
  { intros [= <- <-]. split_and!; try constructor; set_solver. }
  intros H. guards H. simplify_eq.
  match goal with E : compile_step _ _ _ _ _ = Ok _ |- _ =>
    apply compile_step_ok in E as (Hs & Hid & Hdep & Hg & _) end.
  match goal with E : compile_steps _ _ _ _ _ = Ok _ |- _ =>
    apply IH in E as (H1 & H2 & H3 & H4 & H5) end.
  simpl. rewrite H1, H5, Hid, Hdep. split_and!; try done.
  - constructor; [|done]. intros Hin. apply (H3 _ Hin). left.
  - intros x [->|Hx]%elem_of_cons; [done|]. specialize (H3 x Hx). set_solver.
  - constructor; [|done]. split; [done|]. rewrite Hdep. apply str_sorted_set_NoDup.
Qed.

(** ** The reordering *)

Lemma find_step_some l x s :
  find_step l x = Some s -> s ∈ l /\ v_step_id s = x.
Proof.
  unfold find_step. intros H. apply find_some in H as [Hs Hx].
  apply list_elem_of_In in Hs. by apply String.eqb_eq in Hx.
Qed.

Lemma find_step_is_some l x :
  x ∈ map v_step_id l -> exists s, find_step l x = Some s.
Proof.
  intros (s & -> & Hs)%list_elem_of_fmap. unfold find_step.
  destruct (List.find _ l) as [s'|] eqn:E; [by eexists|].
  apply list_elem_of_In in Hs. eapply find_none in E; [|exact Hs].
  simpl in E. by rewrite String.eqb_refl in E.
Qed.

Lemma in_order_ids l order :
  (forall x, x ∈ order -> x ∈ map v_step_id l) ->
  map v_step_id (in_order l order) = order /\
  forall s, s ∈ in_order l order -> s ∈ l.
Proof.
  induction order as [|x order IH]; intros H; [split; set_solver|]. simpl.
  destruct (find_step_is_some l x) as [s Hs]; [apply H; left|]. rewrite Hs.
  apply find_step_some in Hs as [Hin Hid]. simpl.
  destruct IH as [H1 H2]; [set_solver|]. rewrite H1, Hid. split; [done|set_solver].
Qed.

Lemma ids_plan_nodes l : ids (map plan_node l) = map v_step_id l.
Proof. unfold ids. by rewrite map_map. Qed.

(** Every step of the compiled plan comes after the steps it depends on. *)
Definition scheduled (l : list validated_step) : Prop :=
  forall pre s post, l = pre ++ s :: post ->
  forall d, d ∈ v_depends_on s -> d ∈ map v_step_id pre.

Lemma each_ok {A} (f : A -> result plan_error unit) l :
  each f l = Ok tt <-> forall x, x ∈ l -> f x = Ok tt.
Proof.
  induction l as [|x l IH]; simpl; [set_solver|].
  destruct (f x) as [[]|e] eqn:E; [rewrite IH; set_solver|].
  split; [done|]. intros H. rewrite (H x) in E; [done|left].
Qed.

Lemma check_reference_ok all anc step path r :
  check_reference pc all anc step path r = Ok tt ->
  head_piece r ∈ anc /\ exists source, find_step all (head_piece r) = Some source.
Proof.
  unfold check_reference, head_piece. intros H. guards H; bool_hyps;
    (split; [by eapply bool_decide_eq_true_1|by eexists]).
Qed.

(** The steps named by the references of a step. *)
Definition sources (s : validated_step) : list string :=
  map head_piece (references (v_input s)).

Lemma ordered_facts vs order :
  NoDup (map v_step_id vs) -> Forall (fun v => NoDup (v_depends_on v)) vs ->
  topological_order (map plan_node vs) = Ok order ->
  let o := in_order vs order in
  map v_step_id o ≡ₚ map v_step_id vs /\ NoDup (map v_step_id o) /\
  (forall s, s ∈ o -> s ∈ vs) /\ scheduled o.
Proof.
  intros Hnd Hdeps Htop o.
  assert (NoDup (ids (map plan_node vs))) as Hids by by rewrite ids_plan_nodes.
  apply topological_ok in Htop as (Hp & Hr & _); [|done|].
  2: { apply Forall_map. eapply Forall_impl; [exact Hdeps|done]. }
  rewrite ids_plan_nodes in Hp.
  destruct (in_order_ids vs order) as [Ho Hin].
  { intros x Hx. by rewrite <- Hp. }
  assert (NoDup (map v_step_id o)) as Hndo by (unfold o; by rewrite Ho, Hp).
  split_and!; [unfold o; by rewrite Ho|done|done|].
  intros pre s post E d Hd.
  apply (Hr (map v_step_id pre) (v_step_id s) (map v_step_id post)).
  - rewrite <- Ho. fold o. rewrite E, map_app. done.
  - change (v_step_id s) with (n_id (plan_node s)).
    rewrite deps_of_node; [done|done|].
    apply list_elem_of_fmap. exists s. split; [done|]. apply Hin.
    fold o. rewrite E. set_solver.
Qed.

Lemma scheduled_closed o pre post :
  NoDup (map v_step_id o) -> scheduled o -> o = pre ++ post ->
  forall x y, depends (map plan_node o) x y ->
    x ∈ map v_step_id pre -> y ∈ map v_step_id pre.
Proof.
  intros Hnd Hs Ho x y Hxy. induction Hxy as [|x d y Hd _ IH]; intros Hx; [done|].
  apply IH. apply list_elem_of_fmap in Hx as (s & -> & Hin).
  apply list_elem_of_split in Hin as (p1 & p2 & ->).
  change (v_step_id s) with (n_id (plan_node s)) in Hd.
  rewrite deps_of_node in Hd.
  - rewrite map_app, elem_of_app. left.
    eapply Hs; [|exact Hd]. rewrite Ho, <- app_assoc. done.
  - by rewrite ids_plan_nodes.
  - apply list_elem_of_fmap. exists s. split; [done|]. rewrite Ho. set_solver.
Qed.

Lemma scheduled_known o :
  NoDup (map v_step_id o) -> scheduled o -> known_deps (map plan_node o).
Proof.
  intros Hnd Hs x d Hx Hd.
  assert (NoDup (ids (map plan_node o))) as Hids by by rewrite ids_plan_nodes.
  destruct (find_node _ _ Hx) as (n & Hn & <- & E). rewrite E in Hd.
  apply list_elem_of_fmap in Hn as (s & -> & Hin).
  apply list_elem_of_split in Hin as (p1 & p2 & ->).
  pose proof (Hs p1 s p2 eq_refl d Hd) as Hp. split.
  - rewrite ids_plan_nodes, map_app, elem_of_app. by left.
  - intros ->. rewrite map_app in Hnd. apply NoDup_app in Hnd as (_ & Hdis & _).
    apply (Hdis _ Hp). simpl. left.
Qed.

Lemma references_scheduled o :
  NoDup (map v_step_id o) -> scheduled o -> validate_references pc o = Ok tt ->
  forall pre s post, o = pre ++ s :: post ->
  forall x, x ∈ sources s -> x ∈ map v_step_id pre.
Proof.
  intros Hnd Hs Hv pre s post Ho x Hx. unfold validate_references in Hv.
  rewrite each_ok in Hv. specialize (Hv s ltac:(rewrite Ho; set_solver)). simpl in Hv.
  assert (forall d, d ∈ v_depends_on s -> d ∈ map v_step_id pre) as Hpre
    by (by eapply Hs).
  destruct (ancestors_closure (map plan_node o) (v_depends_on s)) as (anc & Ha & Hanc).
  { by rewrite ids_plan_nodes. }
  { by apply scheduled_known. }
  { intros d Hd%Hpre. rewrite ids_plan_nodes, Ho, map_app, elem_of_app. by left. }
  rewrite Ha, each_ok in Hv. unfold sources in Hx.
  rewrite <- (references_paths _ []), map_map in Hx.
  apply list_elem_of_fmap in Hx as ([path r] & -> & Hin). apply Hv in Hin.
  apply check_reference_ok in Hin as [Hin _]. apply Hanc in Hin as (d & Hd & Hdy).
  eapply (scheduled_closed o pre (s :: post)); eauto.
Qed.

(** C33. A compiled plan is safe to schedule: it has between one and ten
    steps with distinct identifiers, the ones of the draft; every step is
    grounded in the catalog and in a healthy connection snapshot of the
    draft's own tenant; every step comes after all its dependencies; and
    every reference in a step's input points at a step that runs before
    it. *)
Theorem compile_draft_sound draft plan :
  compile_draft pc schema_valid draft = Ok plan ->
  c_tenant_id plan = tenant_id draft /\ tenant_id draft <> "" /\
  1 <= length (c_steps plan) <= MAX_STEPS /\
  NoDup (map v_step_id (c_steps plan)) /\
  map v_step_id (c_steps plan) ≡ₚ map step_id (steps draft) /\
  Forall (grounded (tenant_id draft)) (c_steps plan) /\
  scheduled (c_steps plan) /\
  (forall pre s post, c_steps plan = pre ++ s :: post ->
     forall x, x ∈ sources s -> x ∈ map v_step_id pre).
Proof.
  unfold compile_draft. intros H. guards H. simplify_eq. cbn.
  match goal with E : compile_steps _ _ _ _ _ = Ok (?l, _) |- _ =>
    apply compile_steps_ok in E as (H1 & H2 & _ & H4 & _); rename l into vs end.
  match goal with E : topological_order _ = Ok ?o |- _ => rename o into order end.
  destruct (ordered_facts vs order) as (Hp & Hnd & Hin & Hs); [by rewrite H1| |done|].
  { eapply Forall_impl; [exact H4|]. by intros ? [? ?]. }
  bool_hyps. match goal with E : truthy (tenant_id _) = true |- _ =>
    unfold truthy, truthy_string in E; apply negb_true_iff, String.eqb_neq in E end.
  match goal with E : (MAX_STEPS <? _) = false |- _ => apply Nat.ltb_ge in E; rename E into Hmax end.
  rewrite H1 in Hp.
  assert (length (in_order vs order) = length (steps draft)) as Hlen.
  { apply Permutation_length in Hp. by rewrite !length_map in Hp. }
  split_and!; try done.
  - rewrite Hlen. match goal with E : truthy (steps draft) = true |- _ =>
      destruct (steps draft); [discriminate E|simpl; lia] end.
  - by rewrite Hlen.
  - apply Forall_forall. intros s Hsin. apply Hin in Hsin.
    rewrite Forall_forall in H4. by destruct (H4 s Hsin).
  - apply references_scheduled; [done..|].
    by match goal with E : validate_references _ _ = Ok ?u |- _ => destruct u end.
Qed.

(** ** The plan hash *)

Lemma map_norm_inj {A} (f : A -> pyval) (R : A -> A -> Prop) l1 l2 :
  (forall x y, norm (f x) = norm (f y) -> R x y) ->
  map norm (map f l1) = map norm (map f l2) -> Forall2 R l1 l2.
Proof.
  intros H. revert l2; induction l1 as [|x l1 IH]; intros [|y l2]; simpl; try done.
  intros [= Hx Hl]. constructor; auto.
Qed.

(** Two compiled steps that a worker would execute alike. *)
Definition same_step (a b : validated_step) : Prop :=
  v_step_id a = v_step_id b /\ v_capability_id a = v_capability_id b /\
  v_capability_version a = v_capability_version b /\
  v_connection_id a = v_connection_id b /\
  v_descriptor_hash a = v_descriptor_hash b /\
  v_credential_version a = v_credential_version b /\
  norm (v_input a) = norm (v_input b) /\ v_depends_on a = v_depends_on b /\
  v_effect a = v_effect b /\ v_provider a = v_provider b /\
  v_agent_offer_id a = v_agent_offer_id b.

Lemma step_value_field a b k v w :
  norm (step_value a) = norm (step_value b) ->
  dget (as_mapping (step_value a)) k = Some v ->
  dget (as_mapping (step_value b)) k = Some w -> norm v = norm w.
Proof.
  intros H Hv Hw.
  assert (norm <$> dget (as_mapping (step_value a)) k
          = norm <$> dget (as_mapping (step_value b)) k) as E.
  { apply dumps_dict_field; [..|by rewrite !dumps_norm; f_equal];
      simpl; apply (bool_decide_unpack _); reflexivity. }
  rewrite Hv, Hw in E. by injection E.
Qed.

Lemma step_value_inj a b :
  norm (step_value a) = norm (step_value b) -> same_step a b.
Proof.
  intros H. pose proof (fun k v w => step_value_field a b k v w H) as F.
  unfold same_step. split_and!.
  - by injection (F "step_id" _ _ eq_refl eq_refl).
  - by injection (F "capability_id" _ _ eq_refl eq_refl).
  - by injection (F "capability_version" _ _ eq_refl eq_refl).
  - exact (opt_str_inj _ _ (F "connection_id" _ _ eq_refl eq_refl)).
  - by injection (F "descriptor_snapshot_hash" _ _ eq_refl eq_refl).
  - by injection (F "credential_version" _ _ eq_refl eq_refl).
  - exact (F "input" _ _ eq_refl eq_refl).
  - by injection (F "depends_on" _ _ eq_refl eq_refl) as E%map_VStr_inj.
  - by injection (F "effect" _ _ eq_refl eq_refl).
  - by injection (F "provider" _ _ eq_refl eq_refl).
  - exact (opt_str_inj _ _ (F "agent_offer_id" _ _ eq_refl eq_refl)).
Qed.

Lemma compile_draft_hash d p :
  compile_draft pc schema_valid d = Ok p ->
  plan_graph_hash p = hash_value (graph_material (c_tenant_id p) (c_goal p) (c_steps p)).
Proof.
  unfold compile_draft. intros H. guards H. injection H as <-.
  cbn [plan_graph_hash c_tenant_id c_goal c_steps]. done.
Qed.

Lemma graph_material_inj t1 g1 s1 t2 g2 s2 :
  norm (graph_material t1 g1 s1) = norm (graph_material t2 g2 s2) ->
  t1 = t2 /\ g1 = g2 /\
  map norm (map step_value s1) = map norm (map step_value s2).
Proof. simpl. intros H. by injection H as -> -> ->. Qed.

(** The plan graph hash, which approvals are recorded against, binds the
    whole plan: two compiled plans with the same hash have the same tenant
    and goal and, step by step in the same order, the same capability,
    connection, descriptor, credential version, input, dependencies, effect,
    provider and offer, unless their canonical texts are a SHA-256
    collision. *)
Theorem plan_graph_hash_binds d1 d2 p1 p2 :
  compile_draft pc schema_valid d1 = Ok p1 ->
  compile_draft pc schema_valid d2 = Ok p2 ->
  plan_graph_hash p1 = plan_graph_hash p2 ->
  (c_tenant_id p1 = c_tenant_id p2 /\ c_goal p1 = c_goal p2 /\
   Forall2 same_step (c_steps p1) (c_steps p2)) \/
  collides (dumps (graph_material (c_tenant_id p1) (c_goal p1) (c_steps p1)))
           (dumps (graph_material (c_tenant_id p2) (c_goal p2) (c_steps p2))).
Proof.
  intros H1%compile_draft_hash H2%compile_draft_hash Hh. rewrite H1, H2 in Hh.
  apply hash_value_binds in Hh as [Hh|]; [left|by right].
  apply graph_material_inj in Hh as (Ht & Hg & Hs). split_and!; [done..|].
  eapply map_norm_inj; [apply step_value_inj|done].
Qed.

(** ** Data flow *)

(** The provenance envelopes the traversal meets, outermost first. *)
Fixpoint envelopes (v : pyval) : list (list (string * pyval)) :=
  match v with
  | VDict d => if is_envelope d then [d] else flat_map (fun kv => envelopes kv.2) d
  | VList l => flat_map envelopes l
  | _ => []
  end.

(** The provenance of an envelope lets its value reach a provider. *)
Definition flow_allowed (destination : string) (d : list (string * pyval)) : Prop :=
  exists prov, get d "$provenance" = VDict prov /\
    (py_eqb (get prov "provider") (VStr destination) = true \/
     contains destination (get_or prov "allowed_destinations" (VList [])) = Ok true).

Lemma authorize_envelope_ok dest me d v ds :
  authorize_envelope dest me d = Ok (v, ds) -> flow_allowed dest d.
Proof.
  unfold authorize_envelope, flow_allowed. intros H. guards H; eexists; eauto.
Qed.

(** Data only flows where its provenance allows: if a step's input is
    accepted for a provider, every provenance envelope met in it comes from
    that provider or lists it among its allowed destinations; one that does
    not rejects the plan. *)
Theorem authorize_data_flow_allowed dest me v clean ds :
  authorize_data_flow dest me v = Ok (clean, ds) ->
  Forall (flow_allowed dest) (envelopes v).
Proof.
  revert clean ds. induction v as [| | | |l IH|d IH] using pyval_ind';
    intros clean ds; simpl; try constructor.
  - intros H. step_guard H. clear H. destruct a as [r ds']. revert r ds' E.
    induction IH as [|x l Hx _ IHl]; intros r ds'; simpl; [constructor|].
    intros H. guards H. apply Forall_app. eauto.
  - destruct (is_envelope d) eqn:He.
    { intros H%authorize_envelope_ok. by repeat constructor. }
    intros H. step_guard H. clear H He. destruct a as [r ds']. revert r ds' E.
    induction IH as [|[k x] d Hx _ IHd]; intros r ds'; simpl; [constructor|].
    intros H. guards H. apply Forall_app. simpl in Hx. eauto.
Qed.

(** Input without provenance envelopes reaches the provider unchanged and
    discloses nothing. *)
Lemma authorize_data_flow_plain dest me v :
  envelopes v = [] -> authorize_data_flow dest me v = Ok (v, []).
Proof.
  induction v as [| | | |l IH|d IH] using pyval_ind'; simpl; try done.
  - intros H. induction IH as [|x l Hx _ IHl]; simpl in *; [done|].
    apply app_eq_nil in H as [H1 H2]. rewrite Hx by done.
    specialize (IHl H2). guards IHl. by simplify_eq.
  - destruct (is_envelope d) eqn:He; [done|]. clear He. intros H.
    induction IH as [|[k x] d Hx _ IHd]; simpl in *; [done|].
    apply app_eq_nil in H as [H1 H2]. rewrite Hx by done.
    specialize (IHd H2). guards IHd. by simplify_eq.
Qed.
End theorems.

(** ** A concrete plan: a message whose text is the output of an earlier
    lookup, proposed in the wrong order *)

Definition ex_lookup : TrustedCapabilityDefinition := {|
  capability_id := "crm.lookup"; version := "1"; provider := "crm";
  input_schema := VDict [("type", VStr "object")];
  output_schema := VDict [("properties",
    VDict [("name", VDict [("type", VStr "string")])])];
  required_scopes := ["crm.read"]; effect := "read"; risk := "low";
  retry_policy := "safe"; preview_fields := []; verifier := None;
  authority_profile := "bot"; reinforced := false |}.

Definition ex_send : TrustedCapabilityDefinition := {|
  capability_id := "chat.send"; version := "1"; provider := "slack";
  input_schema := VDict [("properties",
    VDict [("text", VDict [("type", VStr "string")])])];
  output_schema := VDict []; required_scopes := ["chat.write"];
  effect := "write"; risk := "high"; retry_policy := "never";
  preview_fields := ["text"]; verifier := None;
  authority_profile := "bot"; reinforced := false |}.

Definition ex_connection (conn cap scope : string) : ConnectionCapabilitySnapshot := {|
  snap_connection_id := conn; snap_tenant_id := "t1";
  snap_capability_id := cap; snap_capability_version := "1";
  snap_credential_version := 3; snap_effective_scopes := [scope];
  snap_health := "healthy"; snap_rollout_version := "r1" |}.

Definition ex_compiler : PlanCompiler := {|
  definitions := [ex_lookup; ex_send];
  snapshots := [ex_connection "c1" "crm.lookup" "crm.read";
                ex_connection "c2" "chat.send" "chat.write"];
  pc_rollout_version := "r1" |}.

Definition ex_draft : WorkflowPlanDraft := {|
  tenant_id := "t1"; goal := "greet"; blockers := [];
  steps := [
    {| step_id := "send"; st_capability_id := "chat.send";
       st_capability_version := "1"; st_connection_id := Some "c2";
       descriptor_snapshot_hash := descriptor_hash ex_send;
       st_input := VDict [("text", VDict [("$ref", VStr "find.output.name")])];
       depends_on := ["find"]; agent_offer_id := None |};
    {| step_id := "find"; st_capability_id := "crm.lookup";
       st_capability_version := "1"; st_connection_id := Some "c1";
       descriptor_snapshot_hash := descriptor_hash ex_lookup;
       st_input := VDict [("id", VStr "42")];
       depends_on := []; agent_offer_id := None |}] |}.

Definition ex_schema_valid (v schema : pyval) : bool := is_dict v.

Definition ex_plan_steps : list (string * list string) := [("find", []); ("send", ["find"])].

Example ex_draft_ordered :
  match compile_draft ex_compiler ex_schema_valid ex_draft with
  | Ok p => map (fun s => (v_step_id s, v_depends_on s)) (c_steps p) = ex_plan_steps
  | Err _ => False
  end.
Proof. vm_compute. reflexivity. Qed.

Lemma compile_draft_sound_witness :
  exists plan, compile_draft ex_compiler ex_schema_valid ex_draft = Ok plan /\
    c_tenant_id plan = tenant_id ex_draft /\ scheduled (c_steps plan).
Proof.
  eexists. split; [vm_compute; reflexivity|].
  edestruct (compile_draft_sound ex_compiler ex_schema_valid ex_draft)
    as (H1 & _ & _ & _ & _ & _ & H2 & _); [vm_compute; reflexivity|].
  split; [exact H1|exact H2].
Defined.

Lemma plan_graph_hash_binds_witness :
  exists plan, compile_draft ex_compiler ex_schema_valid ex_draft = Ok plan /\
  ((c_tenant_id plan = c_tenant_id plan /\ c_goal plan = c_goal plan /\
    Forall2 same_step (c_steps plan) (c_steps plan)) \/
   collides (dumps (graph_material (c_tenant_id plan) (c_goal plan) (c_steps plan)))
            (dumps (graph_material (c_tenant_id plan) (c_goal plan) (c_steps plan)))).
Proof.
  eexists. split; [vm_compute; reflexivity|].
  eapply (plan_graph_hash_binds ex_compiler ex_schema_valid ex_draft ex_draft);
    [vm_compute; reflexivity..|reflexivity].
Defined.

Lemma authorize_data_flow_allowed_witness :
  Forall (flow_allowed "slack") (envelopes (VDict [("text",
    VDict [("$value", VStr "hello");
           ("$provenance", VDict [("provider", VStr "crm");
              ("allowed_destinations", VList [VStr "slack"])])])])).
Proof.
  eapply (authorize_data_flow_allowed "slack" "send").
  vm_compute. reflexivity.
Defined.
