(* ===== verification/Decimal.v ===== *)
(** * Decimal money

    The part of Python's [decimal.Decimal] the approval gate and the spend
    ledger use: exact values [coef * 10^exp], the infinities and NaN,
    ordering comparisons (which raise [InvalidOperation] on NaN), [str],
    multiplication and [quantize(Decimal("1"))] under the default context (28
    digits, round half even).  The sign of a zero is not represented. *)

From Stdlib Require Import QArith Qpower Lqa.
From stdpp Require Import pretty.
From S2P Require Import Prelude PyValue.
Local Open Scope Z_scope.

Inductive decimal : Type :=
| Fin (coef exp : Z)
| Inf (neg : bool)
| NaN.

Global Instance decimal_eq_dec : EqDecision decimal.
Proof. solve_decision. Defined.

(** The rational value of [coef * 10^exp]. *)
Definition value (c e : Z) : Q := (inject_Z c * Qpower 10 e)%Q.

(** Compare two finite decimals at their common exponent. *)
Definition fin_compare (c1 e1 c2 e2 : Z) : comparison :=
  let m := Z.min e1 e2 in
  Z.compare (c1 * 10 ^ (e1 - m)) (c2 * 10 ^ (e2 - m)).

(** [None] when an operand is NaN. *)
Definition dec_compare (a b : decimal) : option comparison :=
  match a, b with
  | NaN, _ | _, NaN => None
  | Fin c1 e1, Fin c2 e2 => Some (fin_compare c1 e1 c2 e2)
  | Inf n, Inf m => Some (if Bool.eqb n m then Eq else if n then Lt else Gt)
  | Inf n, Fin _ _ => Some (if n then Lt else Gt)
  | Fin _ _, Inf m => Some (if m then Gt else Lt)
  end.

(** [a < b] and [a > b]: a signalling comparison. *)
Definition dec_ltb (a b : decimal) : result pyexn bool :=
  match dec_compare a b with
  | Some Lt => Ok true
  | Some _ => Ok false
  | None => Err InvalidOperation
  end.
Definition dec_gtb (a b : decimal) : result pyexn bool := dec_ltb b a.

(** ** [str] *)

Definition digits (c : Z) : string := pretty (Z.abs c).
Definition zeros (n : Z) : string :=
  Nat.iter (Z.to_nat n) (fun s => String (chr 48) s) "".
Definition ndigits (c : Z) : Z := Z.of_nat (str_length (digits c)).

Fixpoint str_take (n : nat) (s : string) : string :=
  match n, s with S n', String c s' => String c (str_take n' s') | _, _ => "" end.
Fixpoint str_drop (n : nat) (s : string) : string :=
  match n, s with S n', String _ s' => str_drop n' s' | _, _ => s end.

Definition signed (z : Z) : string :=
  if z <? 0 then pretty z else "+" +:+ pretty z.

(** [Decimal.__str__]: plain notation when the exponent is not positive and
    the leading digit is not too small, scientific notation otherwise. *)
Definition dec_str (d : decimal) : string :=
  match d with
  | NaN => "NaN"
  | Inf n => if n then "-Infinity" else "Infinity"
  | Fin c e =>
      let ds := digits c in
      let n := Z.of_nat (str_length ds) in
      let left_digits := e + n in
      let dotplace := if (e <=? 0) && (-6 <? left_digits) then left_digits else 1 in
      let body :=
        if dotplace <=? 0 then "0." +:+ zeros (- dotplace) +:+ ds
        else if n <=? dotplace then ds +:+ zeros (dotplace - n)
        else str_take (Z.to_nat dotplace) ds +:+ "." +:+ str_drop (Z.to_nat dotplace) ds in
      (if c <? 0 then "-" else "") +:+ body
        +:+ (if left_digits =? dotplace then "" else "E" +:+ signed (left_digits - dotplace))
  end.

(** ** Arithmetic under the default context *)

Definition PREC : Z := 28.

(** [n / d], ties to the even quotient ([d] positive). *)
Definition round_half_even (n d : Z) : Z :=
  let q := n / d in
  match Z.compare (2 * (n mod d)) d with
  | Lt => q
  | Gt => q + 1
  | Eq => if Z.even q then q else q + 1
  end.

(** Round a finite result to the precision of the context. *)
Definition fix_prec (c e : Z) : decimal :=
  let n := ndigits c in
  if n <=? PREC then Fin c e
  else
    let drop := n - PREC in
    let c' := round_half_even c (10 ^ drop) in
    if ndigits c' <=? PREC then Fin c' (e + drop)
    else Fin (c' / 10) (e + drop + 1).

Definition dec_mul (a b : decimal) : result pyexn decimal :=
  match a, b with
  | NaN, _ | _, NaN => Ok NaN
  | Fin c1 e1, Fin c2 e2 => Ok (fix_prec (c1 * c2) (e1 + e2))
  | Inf n, Inf m => Ok (Inf (xorb n m))
  | Inf n, Fin c _ | Fin c _, Inf n =>
      if c =? 0 then Err InvalidOperation else Ok (Inf (xorb n (c <? 0)))
  end.

(** [int(d.quantize(Decimal("1")))]: the nearest integer; raises when it has
    more than 28 digits, or on an infinity or NaN. *)
Definition quantize_int (d : decimal) : result pyexn Z :=
  match d with
  | Fin c e =>
      let q := if 0 <=? e then c * 10 ^ e else round_half_even c (10 ^ (- e)) in
      if ndigits q <=? PREC then Ok q else Err InvalidOperation
  | Inf _ => Err InvalidOperation
  | NaN => Err ValueError
  end.

(** ** Lemmas *)

Lemma pow10_pos n : 0 <= n -> 0 < 10 ^ n.
Proof. intros. apply Z.pow_pos_nonneg; lia. Qed.

Lemma Qpower_10_pos e : (0 < Qpower 10 e)%Q.
Proof. apply Qpower_0_lt. lra. Qed.

Lemma inject_pow10 n : 0 <= n -> (inject_Z (10 ^ n) == Qpower 10 n)%Q.
Proof. intros. by apply Zpower_Qpower. Qed.

Lemma value_scale c e m :
  m <= e -> (value c e == inject_Z (c * 10 ^ (e - m)) * Qpower 10 m)%Q.
Proof.
  intros H. unfold value. rewrite inject_Z_mult, inject_pow10 by lia.
  rewrite <- Qmult_assoc, <- Qpower_plus by lra.
  replace (e - m + m) with e by lia. reflexivity.
Qed.

(** The comparison is the one of the rational values. *)
Lemma fin_compare_value c1 e1 c2 e2 :
  fin_compare c1 e1 c2 e2 = (value c1 e1 ?= value c2 e2)%Q.
Proof.
  unfold fin_compare. set (m := Z.min e1 e2).
  rewrite (value_scale c1 e1 m), (value_scale c2 e2 m) by lia.
  rewrite !(Qmult_comm _ (Qpower 10 m)).
  set (a := c1 * _). set (b := c2 * _). pose proof (Qpower_10_pos m) as Hp.
  destruct (Z.compare_spec a b) as [->|H|H]; symmetry.
  - by apply Qeq_alt.
  - apply Qlt_alt, Qmult_lt_l; [done|]. by rewrite <- Zlt_Qlt.
  - apply Qgt_alt, Qmult_lt_l; [done|]. by rewrite <- Zlt_Qlt.
Qed.

Lemma round_half_even_bound n d :
  0 < d -> - d <= 2 * (n - round_half_even n d * d) <= d.
Proof.
  intros H. unfold round_half_even. pose proof (Z.div_mod n d ltac:(lia)) as E.
  pose proof (Z.mod_pos_bound n d H) as B.
  set (q := n / d) in *. set (r := n mod d) in *.
  destruct (Z.compare_spec (2 * r) d); [destruct (Z.even q)|..]; nia.
Qed.

Lemma round_half_even_nonneg n d : 0 < d -> 0 <= n -> 0 <= round_half_even n d.
Proof.
  intros H Hn. pose proof (Z.div_pos n d Hn H). unfold round_half_even.
  destruct (Z.compare _ _); [destruct (Z.even _)|..]; lia.
Qed.

Example dec_str_tests :
  map dec_str [Fin 1050 (-2); Fin (-5) (-3); Fin 12 3; Fin 1 (-9); Fin 0 0]
  = ["10.50"; "-0.005"; "1.2E+4"; "1E-9"; "0"].
Proof. vm_compute. reflexivity. Qed.

Example quantize_tests :
  map quantize_int [Fin 25 (-1); Fin 35 (-1); Fin (-25) (-1); Fin 7 2]
  = [Ok 2; Ok 4; Ok (-2); Ok 700].
Proof. vm_compute. reflexivity. Qed.
