(* ===== verification/Approval.v ===== *)
(** * The approval gate

    [SpendPolicy], [ApprovalGate] and the callbacks of
    src/agents/orchestrator/approval.py.  The gate runs over a trace of its
    observable effects: each consultation of the callback and each attempt
    to write an audit record.  The callback and the audit client are
    arguments; both may raise. *)

From Stdlib Require Import QArith.
From S2P Require Import Prelude PyValue Decimal.
Local Open Scope Z_scope.

(** A monetary argument as the caller passes it. *)
Inductive money : Type :=
| MDec (d : decimal)
| MOther (v : pyval).

Definition _require_decimal (m : money) : result pyexn decimal :=
  match m with MDec d => Ok d | MOther _ => Err TypeError end.

Definition SIDE_EFFECTING_CAPABILITIES : list string :=
  ["calendar.create"; "gmail.send"; "drive.upload"].

Definition requires_action_approval (capability_id : string) : bool :=
  str_in capability_id SIDE_EFFECTING_CAPABILITIES.

Record SpendPolicy := {
  auto_approve_under : decimal;
  hard_ceiling : decimal;
}.

(** [SpendPolicy(auto_approve_under, hard_ceiling)] with [__post_init__]. *)
Definition spend_policy (auto ceiling : money) : result pyexn SpendPolicy :=
  match _require_decimal auto, _require_decimal ceiling with
  | Err e, _ => Err e
  | _, Err e => Err e
  | Ok a, Ok c =>
      match dec_ltb c a with
      | Err e => Err e
      | Ok true => Err ValueError
      | Ok false => Ok {| auto_approve_under := a; hard_ceiling := c |}
      end
  end.

(** The wording of a decision. *)
Definition refused_reason (cost ceiling : decimal) : string :=
  "refused: cost " +:+ dec_str cost +:+ " exceeds the hard ceiling of "
    +:+ dec_str ceiling.
Definition auto_reason (cost threshold : decimal) : string :=
  "auto-approved: cost " +:+ dec_str cost
    +:+ " is below the auto-approve threshold of " +:+ dec_str threshold.
Definition callback_reason (cost : decimal) : string :=
  "approved by approval callback for cost " +:+ dec_str cost.
Definition denied_reason (cost : decimal) : string :=
  "denied by approval callback (user or policy declined) for cost "
    +:+ dec_str cost.

Record Decision := { approved : bool; reason : string }.

Record audit_record := {
  principal : string;
  activity : string;
  resource_id : string;
  status : string;
  details : pyval;
}.

Definition AUDIT_ACTIVITY_TYPE : string := "orchestrator.approval_decision".

Inductive event : Type :=
| Consulted (action : string) (cost : decimal)
| Audited (r : audit_record).

Record ApprovalGate := {
  policy : SpendPolicy;
  approval_callback : string -> decimal -> option pyval -> result pyexn pyval;
  principal_id : string;
  audit_client : audit_record -> result pyexn unit;
}.

Definition gate (A : Type) : Type := stm (list event) pyexn A.
Definition emit (e : event) : gate unit := stm_modify (fun tr => tr ++ [e]).

Section gate.
Variable g : ApprovalGate.

Local Open Scope stm_scope.

Definition lift {A} (r : result pyexn A) : gate A :=
  match r with Ok a => stm_ret a | Err e => stm_raise e end.

(** [bool(self.approval_callback(action, cost, details))]. *)
Definition consult (action : string) (cost : decimal) (d : option pyval) : gate bool :=
  emit (Consulted action cost) ;;;
  v <~ lift (approval_callback g action cost d) ;;
  stm_ret (truthy v).

(** [_record]: the audit client is called once and its exception is
    swallowed. *)
Definition decision_record (action : string) (cost : decimal) (d : option pyval)
    (dec : Decision) : audit_record := {|
  principal := principal_id g;
  activity := AUDIT_ACTIVITY_TYPE;
  resource_id := action;
  status := if approved dec then "approved" else "denied";
  details := VDict (
    [("cost", VStr (dec_str cost)); ("reason", VStr (reason dec))]
    ++ match d with Some v => [("request_details", v)] | None => [] end) |}.

Definition _record (action : string) (cost : decimal) (d : option pyval)
    (dec : Decision) : gate unit :=
  let r := decision_record action cost d dec in
  emit (Audited r) ;;;
  match audit_client g r with Ok _ => stm_ret tt | Err _ => stm_ret tt end.

Definition decide_cost (action : string) (cost : decimal) (d : option pyval)
    : gate Decision :=
  over <~ lift (dec_gtb cost (hard_ceiling (policy g))) ;;
  if over : bool
  then stm_ret {| approved := false;
                  reason := refused_reason cost (hard_ceiling (policy g)) |}
  else
    under <~ lift (dec_ltb cost (auto_approve_under (policy g))) ;;
    if under : bool
    then stm_ret {| approved := true;
                    reason := auto_reason cost (auto_approve_under (policy g)) |}
    else
      ok <~ consult action cost d ;;
      stm_ret (if ok : bool
               then {| approved := true; reason := callback_reason cost |}
               else {| approved := false; reason := denied_reason cost |}).

Definition require (action : string) (m : money) (d : option pyval)
    : gate Decision :=
  cost <~ lift (_require_decimal m) ;;
  dec <~ decide_cost action cost d ;;
  _record action cost d dec ;;;
  stm_ret dec.
End gate.

(** ** Ready-made callbacks *)

Definition _APPROVE_ANSWERS : list string := ["y"; "yes"; "s"; "si"].
Definition _DENY_ANSWERS : list string := ["n"; "no"].

(** What [input_fn] does: return a line, or raise one of the two prompt
    interruptions, or raise something else. *)
Inductive prompt_result : Type :=
| Line (s : string)
| Interrupted
| Broken (e : pyexn).

(** [cli_prompt_callback] after the request was printed. *)
Definition cli_prompt_callback (input : prompt_result) : result pyexn bool :=
  match input with
  | Interrupted => Ok false
  | Broken e => Err e
  | Line s =>
      let answer := lower (strip s) in
      if str_in answer _APPROVE_ANSWERS then Ok true
      else if str_in answer _DENY_ANSWERS then Ok false
      else Ok false
  end.

Definition auto_deny_callback (_ : string) (_ : decimal) (_ : option pyval)
    : result pyexn pyval := Ok (VBool false).
Definition always_approve_callback (_ : string) (_ : decimal) (_ : option pyval)
    : result pyexn pyval := Ok (VBool true).

(** ** What the gate guarantees *)

Definition lt (a b : decimal) : Prop := dec_compare a b = Some Lt.
Definition le (a b : decimal) : Prop := exists c, dec_compare b a = Some c /\ c <> Lt.

(** The policy was constructed. *)
Definition valid_policy (p : SpendPolicy) : Prop :=
  exists a c, spend_policy a c = Ok p.

Lemma dec_ltb_ok a b r :
  dec_ltb a b = Ok r -> if r then lt a b else le b a.
Proof. unfold dec_ltb, lt, le. intros H. guards H; simplify_eq; eauto. Qed.

Lemma dec_ltb_err a b e : dec_ltb a b = Err e -> (a = NaN \/ b = NaN) /\ e = InvalidOperation.
Proof.
  unfold dec_ltb. destruct a, b; simpl; repeat case_match; intros; simplify_eq; eauto.
Qed.

Lemma dec_compare_antisym a b :
  dec_compare b a = CompOpp <$> dec_compare a b.
Proof.
  destruct a as [c1 e1|n|], b as [c2 e2|m|]; simpl; try done.
  - unfold fin_compare. rewrite Z.min_comm. by rewrite Z.compare_antisym.
  - by destruct m.
  - by destruct n.
  - by destruct n, m.
Qed.

Lemma lt_not_le a b : lt a b -> le b a -> False.
Proof. intros H (c & E & Hc). congruence. Qed.

Lemma valid_policy_order p :
  valid_policy p <-> le (auto_approve_under p) (hard_ceiling p).
Proof.
  unfold valid_policy, spend_policy, le. split.
  - intros (a & c & H). guards H; simplify_eq. simpl.
    match goal with E : dec_ltb _ _ = Ok false |- _ => apply dec_ltb_ok in E end. done.
  - intros (c & E & Hc). exists (MDec (auto_approve_under p)), (MDec (hard_ceiling p)).
    simpl. unfold dec_ltb. rewrite E. by destruct p, c.
Qed.

(** The three zones of a cost, with what the callback said in the middle
    one. *)
Inductive zone (g : ApprovalGate) (action : string) (cost : decimal)
    (d : option pyval) : list event -> Decision -> Prop :=
| zone_refused :
    lt (hard_ceiling (policy g)) cost ->
    zone g action cost d []
      {| approved := false; reason := refused_reason cost (hard_ceiling (policy g)) |}
| zone_auto :
    le cost (hard_ceiling (policy g)) ->
    lt cost (auto_approve_under (policy g)) ->
    zone g action cost d []
      {| approved := true; reason := auto_reason cost (auto_approve_under (policy g)) |}
| zone_asked v :
    le cost (hard_ceiling (policy g)) ->
    le (auto_approve_under (policy g)) cost ->
    approval_callback g action cost d = Ok v ->
    zone g action cost d [Consulted action cost]
      (if truthy v then {| approved := true; reason := callback_reason cost |}
       else {| approved := false; reason := denied_reason cost |}).

Lemma decide_cost_ok g action cost d tr tr' dec :
  decide_cost g action cost d tr = (tr', Ok dec) ->
  exists evs, tr' = tr ++ evs /\ zone g action cost d evs dec.
Proof.
  unfold decide_cost, consult, stm_bind, lift, emit, stm_modify, stm_ret, stm_raise.
  destruct (dec_gtb _ _) as [[]|] eqn:E1; [| |done].
  - intros [= <- <-]. exists []. rewrite app_nil_r. split; [done|].
    apply dec_ltb_ok in E1. by constructor.
  - apply dec_ltb_ok in E1. destruct (dec_ltb _ _) as [[]|] eqn:E2; [| |done];
      apply dec_ltb_ok in E2.
    + intros [= <- <-]. exists []. rewrite app_nil_r. split; [done|by constructor].
    + destruct (approval_callback _ _ _ _) as [v|] eqn:E3; [|done].
      intros [= <- <-]. eexists. split; [done|by constructor].
Qed.

Lemma decide_cost_err g action cost d tr tr' e :
  decide_cost g action cost d tr = (tr', Err e) -> le (auto_approve_under (policy g)) (hard_ceiling (policy g)) ->
  (cost = NaN /\ tr' = tr /\ e = InvalidOperation) \/
  (tr' = tr ++ [Consulted action cost] /\ approval_callback g action cost d = Err e /\
   le cost (hard_ceiling (policy g)) /\ le (auto_approve_under (policy g)) cost).
Proof.
  intros H (c & Hc & _). revert H.
  unfold decide_cost, consult, stm_bind, lift, emit, stm_modify, stm_ret, stm_raise.
  destruct (dec_gtb _ _) as [[]|] eqn:E1; [done| |].
  - apply dec_ltb_ok in E1. destruct (dec_ltb _ _) as [[]|] eqn:E2; [done| |].
    + apply dec_ltb_ok in E2.
      destruct (approval_callback _ _ _ _) as [v|] eqn:E3; [done|].
      intros [= <- <-]. by right.
    + intros [= <- <-]. apply dec_ltb_err in E2 as [[->|E] ->]; [by left|].
      rewrite E in Hc. by destruct (hard_ceiling (policy g)).
  - intros [= <- <-]. apply dec_ltb_err in E1 as [[E| ->] ->]; [|by left].
    by rewrite E in Hc.
Qed.

(** A run of the gate is its decision followed by one audit attempt. *)
Lemma require_run g action cost d tr :
  require g action (MDec cost) d tr =
  match decide_cost g action cost d tr with
  | (tr1, Ok dec) => (tr1 ++ [Audited (decision_record g action cost d dec)], Ok dec)
  | (tr1, Err e) => (tr1, Err e)
  end.
Proof.
  unfold require, stm_bind. cbn [lift _require_decimal stm_ret].
  unfold stm_ret. destruct (decide_cost g action cost d tr) as [tr1 [dec|e]]; [|done].
  unfold _record, emit, stm_modify, stm_bind, stm_ret. by destruct (audit_client g _).
Qed.

(** The gate decides by zone: a cost strictly above the hard ceiling is
    refused without asking, whatever the callback would say; a cost strictly
    below the threshold is approved without asking; anything else asks the
    callback exactly once and follows its answer.  Every decision returned
    is followed by exactly one audit attempt that states it, and a failing
    audit client changes nothing.  The only exceptions are a NaN cost, which
    has no effect at all, and an exception of the callback itself. *)
Theorem require_zones g action cost d tr tr' r client :
  valid_policy (policy g) ->
  require g action (MDec cost) d tr = (tr', r) ->
  match r with
  | Ok dec =>
      exists evs rec, tr' = tr ++ evs ++ [Audited rec] /\
        zone g action cost d evs dec /\
        status rec = (if approved dec then "approved" else "denied") /\
        resource_id rec = action
  | Err e =>
      (cost = NaN /\ tr' = tr /\ e = InvalidOperation) \/
      (tr' = tr ++ [Consulted action cost] /\
       approval_callback g action cost d = Err e)
  end /\
  require {| policy := policy g; approval_callback := approval_callback g;
             principal_id := principal_id g; audit_client := client |}
          action (MDec cost) d tr = (tr', r).
Proof.
  intros Hv H. apply valid_policy_order in Hv. split; [|by rewrite <- H, !require_run].
  rewrite require_run in H.
  destruct (decide_cost g action cost d tr) as [tr1 [dec|e]] eqn:E; injection H as <- <-.
  - apply decide_cost_ok in E as (evs & -> & Hz).
    eexists evs, _. split_and!; [by rewrite app_assoc|done|done|done].
  - apply decide_cost_err in E; naive_solver.
Qed.

(** A policy can be built exactly when both limits are decimals, neither
    is NaN, and the ceiling is not below the threshold; then no cost is at
    once above the ceiling and below the threshold. *)
Theorem spend_policy_valid a c :
  (is_ok (spend_policy a c) = true <->
   exists x y, a = MDec x /\ c = MDec y /\ le x y) /\
  (forall p cost, spend_policy a c = Ok p ->
     lt (hard_ceiling p) cost -> lt cost (auto_approve_under p) -> False).
Proof.
  unfold spend_policy. split.
  - destruct a as [x|], c as [y|]; simpl; try naive_solver.
    unfold dec_ltb, le. destruct (dec_compare y x) as [[]|] eqn:E; naive_solver.
  - intros p cost H H1 H2. guards H; simplify_eq. simpl in *.
    match goal with E : dec_ltb ?y ?x = _ |- _ => apply dec_ltb_ok in E as (k & Hk & Hn);
      destruct x as [c1 e1|[]|], y as [c2 e2|[]|], cost as [c3 e3|[]|] end;
      unfold lt in *; simplify_eq/=.
    revert Hn H1 H2. rewrite !fin_compare_value. intros Hn [= H1%Qlt_alt] [= H2%Qlt_alt].
    apply Hn, Qlt_alt. by eapply Qlt_trans.
Qed.

(** The interactive prompt approves only the four affirmative answers,
    up to case and surrounding white space, and never raises on an
    interrupted prompt. *)
Theorem cli_prompt_approves input :
  cli_prompt_callback input = Ok true <->
  exists s, input = Line s /\ lower (strip s) ∈ _APPROVE_ANSWERS.
Proof.
  unfold cli_prompt_callback. destruct input as [s| |e]; [|naive_solver..].
  split.
  - intros H. guards H. exists s. split; [done|]. by apply str_in_spec.
  - intros (s' & [= <-] & Hs%str_in_spec). by rewrite Hs.
Qed.

Definition ex_gate : ApprovalGate := {|
  policy := {| auto_approve_under := Fin 5 0; hard_ceiling := Fin 500 (-1) |};
  approval_callback := always_approve_callback;
  principal_id := "agent:orchestrator";
  audit_client := fun _ => Err ValueError |}.

Lemma require_zones_witness :
  match require ex_gate "pay" (MDec (Fin 5001 (-2))) None [] with
  | (_, Ok dec) => approved dec = false | _ => False end /\
  match require ex_gate "pay" (MDec (Fin 50 0)) None [] with
  | (tr, Ok dec) =>
      approved dec = true /\
      exists evs rec, tr = [] ++ evs ++ [Audited rec] /\
        zone ex_gate "pay" (Fin 50 0) None evs dec /\
        status rec = (if approved dec then "approved" else "denied") /\
        resource_id rec = "pay"
  | _ => False end.
Proof.
  split; [vm_compute; reflexivity|].
  destruct (require ex_gate "pay" (MDec (Fin 50 0)) None []) as [tr r] eqn:E.
  pose proof E as E'. vm_compute in E. injection E as <- <-.
  split; [reflexivity|].
  eapply (require_zones ex_gate "pay" (Fin 50 0) None [] _ (Ok _) (fun _ => Ok tt)).
  - exists (MDec (Fin 5 0)), (MDec (Fin 500 (-1))). reflexivity.
  - exact E'.
Defined.

Lemma spend_policy_valid_witness :
  (exists x y, MDec (Fin 5 0) = MDec x /\ MDec (Fin 500 (-1)) = MDec y /\ le x y) /\
  (lt (Fin 500 (-1)) (Fin 51 0) -> lt (Fin 51 0) (Fin 5 0) -> False).
Proof.
  split.
  - apply (spend_policy_valid (MDec (Fin 5 0)) (MDec (Fin 500 (-1)))). reflexivity.
  - apply (proj2 (spend_policy_valid (MDec (Fin 5 0)) (MDec (Fin 500 (-1))))
             (policy ex_gate) (Fin 51 0)). reflexivity.
Defined.
