(* ===== verification/DispatchLedger.v ===== *)
(** * The write-ahead dispatch ledger

    src/agents/orchestrator/dispatch_ledger.py: the ledger that keeps a
    provider effect without an idempotency key from being sent twice.  A
    dispatch is a claim (one database transaction), the provider call, made
    outside any lock, and the record of its outcome.  Both ledgers are
    modelled, the SQLite one ([Sqlite]) and the PostgreSQL one ([Postgres]),
    over the same table, and so is the concurrent system of many workers
    that interleave these steps and may crash between them. *)

From S2P Require Import Prelude PyValue Json Sha256 Catalog.
Local Open Scope Z_scope.

Inductive dispatch_status : Type :=
| intent_recorded | dispatching | retryable | accepted | ambiguous | rejected.

Global Instance dispatch_status_eq_dec : EqDecision dispatch_status.
Proof. solve_decision. Defined.

(** A row of [provider_dispatch_ledger] / [orchestrator.dispatch_records];
    the primary key (tenant, dispatch key) is the key of the table. *)
Record row := {
  effect_id : string;
  payload_hash : string;
  callback_token : string;
  status : dispatch_status;
  provider_id : pyval;
  provider_status : pyval;
  attempt_count : Z;
  created_at : Z;
  updated_at : Z;
}.

Abbreviation key := (string * string)%type.
Abbreviation table := (gmap (string * string) row).

Inductive dispatch_error : Type :=
| DuplicateDispatch
| AmbiguousDispatch
| IntegrityError
| ProviderRaised
| Raised (e : pyexn).

(** The exceptions of a provider call, by what the ledger looks at. *)
Record provider_exn := {
  is_network : bool;      (* TimeoutError or ProviderNetworkError *)
  category : pyval;       (* getattr(exc, "category", None) *)
}.

Definition call_result : Type := result provider_exn pyval.

Definition set_status (r : row) (s : dispatch_status) (t : Z) : row := {|
  effect_id := effect_id r; payload_hash := payload_hash r;
  callback_token := callback_token r; status := s;
  provider_id := provider_id r; provider_status := provider_status r;
  attempt_count := attempt_count r; created_at := created_at r;
  updated_at := t |}.

Definition set_accepted (r : row) (pid pst : pyval) (t : Z) : row := {|
  effect_id := effect_id r; payload_hash := payload_hash r;
  callback_token := callback_token r; status := accepted;
  provider_id := pid; provider_status := pst;
  attempt_count := attempt_count r; created_at := created_at r;
  updated_at := t |}.

Definition new_row (eff hash token : string) (now : Z) : row := {|
  effect_id := eff; payload_hash := hash; callback_token := token;
  status := intent_recorded; provider_id := VNone; provider_status := VNone;
  attempt_count := 0; created_at := now; updated_at := now |}.

Definition bump (r : row) (now : Z) : row := {|
  effect_id := effect_id r; payload_hash := payload_hash r;
  callback_token := callback_token r; status := status r;
  provider_id := provider_id r; provider_status := provider_status r;
  attempt_count := attempt_count r + 1; created_at := created_at r;
  updated_at := now |}.

(** [unique(tenant_id, effect_id)]: some row of the tenant has the effect. *)
Definition effect_taken (t : table) (tenant eff : string) : bool :=
  existsb (fun kr => String.eqb kr.1.1 tenant && String.eqb (effect_id kr.2) eff)
    (map_to_list t).

(** [insert into ... values (...)]. *)
Definition insert_row (k : key) (r : row) (t : table) : result dispatch_error table :=
  if effect_taken t k.1 (effect_id r) then Err IntegrityError else Ok (<[k := r]> t).

(** The checks on an existing row, in order. *)
Definition check_existing (r : row) (eff hash : string) : result dispatch_error unit :=
  if negb (String.eqb (payload_hash r) hash) || negb (String.eqb (effect_id r) eff)
  then Err DuplicateDispatch
  else match status r with
  | ambiguous => Err AmbiguousDispatch
  | accepted | dispatching | intent_recorded | rejected => Err DuplicateDispatch
  | retryable => Ok tt
  end.

(** [update ... set attempt_count = attempt_count + 1 where key]. *)
Definition update_where (k : key) (f : row -> row) (t : table) : table := alter f k t.

(** The status an exception of the provider call leaves behind. *)
Definition exception_status (e : provider_exn) : dispatch_status :=
  if is_network e then ambiguous
  else if py_eqb (category e) (VStr "rate_limit") then retryable
  else rejected.

(** [isinstance(result, dict) and result.get("provider_id")]. *)
Definition durable_id (v : pyval) : bool :=
  match v with VDict d => truthy (get d "provider_id") | _ => false end.

Definition get_row (k : key) (t : table) : option row := t !! k.

Module Sqlite.

(** The claim transaction of [DispatchLedger.dispatch]. *)
Definition claim (k : key) (eff hash token : string) (now : Z)
    : stm table dispatch_error unit := transaction (fun t =>
  match t !! k with
  | None =>
      match insert_row k (new_row eff hash token now) t with
      | Err e => (t, Err e)
      | Ok t' => (update_where k (fun r => bump r now) t', Ok tt)
      end
  | Some r =>
      match check_existing r eff hash with
      | Err e => (t, Err e)
      | Ok _ => (update_where k (fun r => bump r now) t, Ok tt)
      end
  end).

(** What the ledger does with the outcome of the provider call. *)
Definition finish (k : key) (res : call_result) (now : Z)
    : stm table dispatch_error pyval := fun t =>
  match res with
  | Err e =>
      let s := exception_status e in
      (update_where k (fun r => set_status r s now) t,
       Err (if bool_decide (s = ambiguous) then AmbiguousDispatch else ProviderRaised))
  | Ok v =>
      if negb (durable_id v)
      then (update_where k (fun r => set_status r ambiguous now) t,
            Err AmbiguousDispatch)
      else (update_where k (fun r => set_accepted r (get (as_mapping v) "provider_id")
                                       (get (as_mapping v) "status") now) t,
            Ok v)
  end.

Definition dispatch (k : key) (eff : string) (payload : pyval) (token : string)
    (provider_call : option row -> call_result) (now later : Z)
    : stm table dispatch_error pyval := fun t =>
  match claim k eff (hash_value payload) token now t with
  | (t', Err e) => (t', Err e)
  | (t', Ok _) => finish k (provider_call (get_row k t')) later t'
  end.

Definition reconcile (k : key) (pid pst : pyval) (now : Z) (t : table) : table * bool :=
  match get_row k t with
  | None => (t, false)
  | Some r =>
      if bool_decide (status r <> ambiguous) then (t, false)
      else (update_where k (fun r => set_accepted r pid pst now) t, true)
  end.

End Sqlite.

Module Postgres.

(** The claim transaction of [PostgresDispatchLedger.dispatch]: insert with
    [on conflict (tenant_id, dispatch_key) do nothing], read the row back,
    check it unless it was just inserted, count the attempt. *)
Definition claim (k : key) (eff hash token : string) (now : Z)
    : stm table dispatch_error unit := transaction (fun t =>
  let ins : result dispatch_error (table * bool) :=
    match t !! k with
    | Some _ => Ok (t, false)
    | None =>
        match insert_row k (new_row eff hash token now) t with
        | Err e => Err e
        | Ok t' => Ok (t', true)
        end
    end in
  match ins with
  | Err e => (t, Err e)
  | Ok (t', inserted) =>
      match t' !! k with
      | None =>
          if inserted then (update_where k (fun r => bump r now) t', Ok tt)
          else (t', Err (Raised TypeError))
      | Some record =>
          let checked :=
            if inserted then Ok tt else check_existing record eff hash in
          match checked with
          | Err e => (t', Err e)
          | Ok _ => (update_where k (fun r => bump r now) t', Ok tt)
          end
      end
  end).

Definition _set_status (k : key) (s : dispatch_status) (now : Z) (t : table) : table :=
  update_where k (fun r => set_status r s now) t.

Definition finish (k : key) (res : call_result) (now : Z)
    : stm table dispatch_error pyval := fun t =>
  match res with
  | Err e =>
      let s := exception_status e in
      (_set_status k s now t,
       Err (if bool_decide (s = ambiguous) then AmbiguousDispatch else ProviderRaised))
  | Ok v =>
      if negb (durable_id v)
      then (_set_status k ambiguous now t, Err AmbiguousDispatch)
      else (update_where k (fun r => set_accepted r (get (as_mapping v) "provider_id")
                                       (get (as_mapping v) "status") now) t,
            Ok v)
  end.

Definition dispatch (k : key) (eff : string) (payload : pyval) (token : string)
    (provider_call : option row -> call_result) (now later : Z)
    : stm table dispatch_error pyval := fun t =>
  match claim k eff (hash_value payload) token now t with
  | (t', Err e) => (t', Err e)
  | (t', Ok _) => finish k (provider_call (get_row k t')) later t'
  end.

(** [update ... where key and status = 'ambiguous'], [rowcount == 1]. *)
Definition reconcile (k : key) (pid pst : pyval) (now : Z) (t : table) : table * bool :=
  match t !! k with
  | Some r =>
      if bool_decide (status r = ambiguous)
      then (<[k := set_accepted r pid pst now]> t, true) else (t, false)
  | None => (t, false)
  end.

End Postgres.

(** ** The claim and the two ledgers *)

Lemma effect_taken_spec t tenant eff :
  effect_taken t tenant eff = true <->
  exists k r, t !! k = Some r /\ k.1 = tenant /\ effect_id r = eff.
Proof.
  unfold effect_taken. rewrite existsb_exists. split.
  - intros ([k r] & Hin & Hb). apply andb_true_iff in Hb as [H1 H2].
    apply String.eqb_eq in H1, H2. exists k, r. simpl in *. split_and!; [|done..].
    by apply elem_of_map_to_list, list_elem_of_In.
  - intros (k & r & Hk & <- & <-). exists (k, r). split.
    + by apply list_elem_of_In, elem_of_map_to_list.
    + by rewrite !String.eqb_refl.
Qed.

Lemma update_where_insert k f r t :
  t !! k = Some r -> update_where k f t = <[k := f r]> t.
Proof.
  intros H. apply map_eq. intros j. unfold update_where.
  destruct (decide (j = k)) as [->|].
  - by rewrite lookup_alter_eq, H, lookup_insert_eq.
  - by rewrite lookup_alter_ne, lookup_insert_ne.
Qed.

Lemma update_where_lookup k f t j :
  update_where k f t !! j = if decide (j = k) then f <$> t !! k else t !! j.
Proof.
  unfold update_where. destruct (decide (j = k)) as [->|].
  - by rewrite lookup_alter_eq.
  - by rewrite lookup_alter_ne.
Qed.

Lemma check_existing_ok r eff hash u :
  check_existing r eff hash = Ok u <->
  payload_hash r = hash /\ effect_id r = eff /\ status r = retryable.
Proof.
  unfold check_existing. destruct u.
  destruct (String.eqb_spec (payload_hash r) hash), (String.eqb_spec (effect_id r) eff);
    simpl; try naive_solver. destruct (status r); naive_solver.
Qed.

(** A claim succeeds on a fresh key whose effect is fresh for the tenant, or
    on a rate-limited row of the very same intent; it changes its own row. *)
Definition claimable (t : table) (k : key) (eff hash token : string) (now : Z)
    (r : row) : Prop :=
  (t !! k = None /\ effect_taken t k.1 eff = false /\ r = new_row eff hash token now) \/
  (t !! k = Some r /\ payload_hash r = hash /\ effect_id r = eff /\
   status r = retryable).

Lemma claim_ok k eff hash token now t t' u :
  Sqlite.claim k eff hash token now t = (t', Ok u) <->
  exists r, claimable t k eff hash token now r /\ t' = <[k := bump r now]> t.
Proof.
  unfold Sqlite.claim. rewrite transaction_ok. unfold claimable.
  destruct (t !! k) as [r0|] eqn:E.
  - destruct (check_existing r0 eff hash) as [v|e] eqn:Ec.
    + rewrite (update_where_insert _ _ r0) by done.
      apply check_existing_ok in Ec. destruct u. split.
      * intros [= <-]. exists r0. split; [right; naive_solver|done].
      * intros (r & [(? & _)|([= ->] & _)] & ->); done.
    + split; [done|]. intros (r & [(? & _)|([= ->] & Hc)] & _); [done|].
      apply (check_existing_ok _ _ _ tt) in Hc. congruence.
  - unfold insert_row. cbn [effect_id new_row].
    destruct (effect_taken t k.1 eff) eqn:Et.
    + split; [done|]. intros (r & [(_ & ? & _)|(? & _)] & _); done.
    + rewrite (update_where_insert _ _ (new_row eff hash token now))
        by (by rewrite lookup_insert_eq).
      rewrite insert_insert_eq. destruct u. split.
      * intros [= <-]. eexists. split; [left; done|done].
      * intros (r & [(_ & _ & ->)|(? & _)] & ->); done.
Qed.

Lemma claim_err k eff hash token now t t' e :
  Sqlite.claim k eff hash token now t = (t', Err e) -> t' = t.
Proof. apply transaction_err. Qed.

Lemma claims_agree k eff hash token now t :
  Postgres.claim k eff hash token now t = Sqlite.claim k eff hash token now t.
Proof.
  unfold Postgres.claim, Sqlite.claim, transaction.
  destruct (t !! k) as [r|] eqn:E; [by rewrite E; destruct (check_existing _ _ _)|].
  unfold insert_row. destruct (effect_taken _ _ _); [done|].
  by rewrite lookup_insert_eq.
Qed.

(** The PostgreSQL ledger and the SQLite ledger are the same state
    machine: from every table they give the same outcome and the same table
    for a dispatch, whatever the provider does, and for a reconciliation. *)
Theorem postgres_agrees k eff payload token provider_call now later pid pst t :
  Postgres.dispatch k eff payload token provider_call now later t
    = Sqlite.dispatch k eff payload token provider_call now later t /\
  Postgres.reconcile k pid pst now t = Sqlite.reconcile k pid pst now t.
Proof.
  split.
  - unfold Postgres.dispatch, Sqlite.dispatch. rewrite claims_agree.
    destruct (Sqlite.claim _ _ _ _ _ _) as [t' []]; done.
  - unfold Postgres.reconcile, Sqlite.reconcile, get_row.
    destruct (t !! k) as [r|] eqn:E; [|done].
    do 2 case_bool_decide; try done.
    by rewrite (update_where_insert _ _ r).
Qed.

(** ** Many workers

    [calls] holds the dispatches that have claimed their key and not yet
    recorded an outcome, with whether the provider has been called.  A worker
    may stop at any point ([step_crash]).  The trace lists the provider calls
    and the recorded outcomes. *)

Inductive event : Type :=
| Called (k : key) (eff hash : string)
| Finished (k : key) (s : dispatch_status).

Record flight := {
  f_key : key;
  f_effect : string;
  f_hash : string;
  f_called : bool;
}.

Record system := {
  rows : table;
  flights : list flight;
  trace : list event;
}.

Definition outcome (res : call_result) : dispatch_status :=
  match res with
  | Err e => exception_status e
  | Ok v => if durable_id v then accepted else ambiguous
  end.

Inductive step : system -> system -> Prop :=
| step_claim s t' k eff hash token now :
    Sqlite.claim k eff hash token now (rows s) = (t', Ok tt) ->
    step s {| rows := t';
              flights := {| f_key := k; f_effect := eff; f_hash := hash;
                            f_called := false |} :: flights s;
              trace := trace s |}
| step_refused s t' e k eff hash token now :
    Sqlite.claim k eff hash token now (rows s) = (t', Err e) ->
    step s {| rows := t'; flights := flights s; trace := trace s |}
| step_call s l1 l2 k eff hash :
    flights s = l1 ++ {| f_key := k; f_effect := eff; f_hash := hash;
                         f_called := false |} :: l2 ->
    step s {| rows := rows s;
              flights := l1 ++ {| f_key := k; f_effect := eff; f_hash := hash;
                                  f_called := true |} :: l2;
              trace := trace s ++ [Called k eff hash] |}
| step_finish s l1 l2 k eff hash res now t' r :
    flights s = l1 ++ {| f_key := k; f_effect := eff; f_hash := hash;
                         f_called := true |} :: l2 ->
    Sqlite.finish k res now (rows s) = (t', r) ->
    step s {| rows := t'; flights := l1 ++ l2;
              trace := trace s ++ [Finished k (outcome res)] |}
| step_crash s l1 f l2 :
    flights s = l1 ++ f :: l2 ->
    step s {| rows := rows s; flights := l1 ++ l2; trace := trace s |}
| step_reconcile s k pid pst now :
    step s {| rows := (Sqlite.reconcile k pid pst now (rows s)).1;
              flights := flights s; trace := trace s |}.

Definition steps : system -> system -> Prop := rtc step.
Definition empty_system : system := {| rows := ∅; flights := []; trace := [] |}.

Definition rate_limited (k : key) (tr : list event) : Prop :=
  Finished k retryable ∈ tr.

Definition waiting (k : key) (l : list flight) : nat :=
  length (filter (fun f => f_key f = k /\ f_called f = false) l).
Definition is_call (k : key) (e : event) : Prop :=
  match e with Called k' _ _ => k' = k | Finished _ _ => False end.
Global Instance is_call_dec k e : Decision (is_call k e).
Proof. destruct e; simpl; apply _. Defined.
Definition called (k : key) (tr : list event) : nat := length (filter (is_call k) tr).

(** What a key's row says about a dispatch of it. *)
Definition bound_to (t : table) (k : key) (eff hash : string) : Prop :=
  exists r, t !! k = Some r /\ effect_id r = eff /\ payload_hash r = hash.

Record ledger_inv (s : system) : Prop := {
  inv_effects : forall k1 k2 r1 r2, rows s !! k1 = Some r1 -> rows s !! k2 = Some r2 ->
    k1.1 = k2.1 -> effect_id r1 = effect_id r2 -> k1 = k2;
  inv_flights : forall f, f ∈ flights s ->
    bound_to (rows s) (f_key f) (f_effect f) (f_hash f);
  inv_calls : forall k eff hash, Called k eff hash ∈ trace s ->
    bound_to (rows s) k eff hash;
  inv_retry : forall k r, rows s !! k = Some r -> status r = retryable ->
    rate_limited k (trace s);
  inv_count : forall k, rate_limited k (trace s) \/
    (waiting k (flights s) + called k (trace s) <= 1)%nat;
  inv_order : forall k eff hash pre post, trace s = pre ++ Called k eff hash :: post ->
    (0 < called k pre)%nat -> rate_limited k pre;
}.

(** Updates that keep the identity of every row. *)
Definition same_identity (t t' : table) : Prop :=
  forall k, (fun r => (effect_id r, payload_hash r)) <$> t' !! k
            = (fun r => (effect_id r, payload_hash r)) <$> t !! k.

Lemma same_identity_bound t t' k eff hash :
  same_identity t t' -> bound_to t k eff hash -> bound_to t' k eff hash.
Proof.
  intros H (r & Hr & <- & <-). specialize (H k). rewrite Hr in H. simpl in H.
  destruct (t' !! k) as [r'|] eqn:E; [|done]. exists r'. naive_solver.
Qed.

Lemma same_identity_unique t t' :
  same_identity t t' ->
  (forall k1 k2 r1 r2, t !! k1 = Some r1 -> t !! k2 = Some r2 ->
     k1.1 = k2.1 -> effect_id r1 = effect_id r2 -> k1 = k2) ->
  forall k1 k2 r1 r2, t' !! k1 = Some r1 -> t' !! k2 = Some r2 ->
     k1.1 = k2.1 -> effect_id r1 = effect_id r2 -> k1 = k2.
Proof.
  intros H U k1 k2 r1 r2 H1 H2 Ht He. pose proof (H k1) as E1. pose proof (H k2) as E2.
  rewrite H1 in E1. rewrite H2 in E2. simpl in *.
  destruct (t !! k1) as [a|] eqn:A1, (t !! k2) as [b|] eqn:A2; simplify_eq/=.
  eapply U; [exact A1|exact A2|done|congruence].
Qed.

Lemma update_same_identity k f t :
  (forall r, effect_id (f r) = effect_id r /\ payload_hash (f r) = payload_hash r) ->
  same_identity t (update_where k f t).
Proof.
  intros Hf j. rewrite update_where_lookup. case_decide; [subst|done].
  destruct (t !! k) as [r|]; [|done]. simpl. destruct (Hf r). congruence.
Qed.

(** The outcome of a call is recorded as an update of the claimed row. *)
Definition record_outcome (res : call_result) (now : Z) (r : row) : row :=
  match res with
  | Err e => set_status r (exception_status e) now
  | Ok v => if durable_id v
            then set_accepted r (get (as_mapping v) "provider_id")
                   (get (as_mapping v) "status") now
            else set_status r ambiguous now
  end.

Definition returned (res : call_result) : result dispatch_error pyval :=
  match res with
  | Ok v => if durable_id v then Ok v else Err AmbiguousDispatch
  | Err e => Err (if bool_decide (outcome res = ambiguous)
                  then AmbiguousDispatch else ProviderRaised)
  end.

Lemma finish_eq k res now t :
  Sqlite.finish k res now t = (update_where k (record_outcome res now) t, returned res).
Proof.
  unfold Sqlite.finish, record_outcome, returned. destruct res as [v|e]; [|done].
  by destruct (durable_id v).
Qed.

Lemma record_outcome_facts res now r :
  effect_id (record_outcome res now r) = effect_id r /\
  payload_hash (record_outcome res now r) = payload_hash r /\
  status (record_outcome res now r) = outcome res /\
  attempt_count (record_outcome res now r) = attempt_count r.
Proof. destruct res as [v|e]; simpl; [|done]. by destruct (durable_id v). Qed.

Lemma called_app k t1 t2 : called k (t1 ++ t2) = (called k t1 + called k t2)%nat.
Proof. unfold called. by rewrite filter_app, length_app. Qed.
Lemma called_one k j eff hash :
  called k [Called j eff hash] = if decide (j = k) then 1%nat else 0%nat.
Proof. unfold called. rewrite filter_cons. simpl. by repeat case_decide. Qed.
Lemma waiting_app k l1 l2 : waiting k (l1 ++ l2) = (waiting k l1 + waiting k l2)%nat.
Proof. unfold waiting. by rewrite filter_app, length_app. Qed.
Lemma waiting_cons k f l :
  waiting k (f :: l) =
  ((if decide (f_key f = k /\ f_called f = false) then 1 else 0) + waiting k l)%nat.
Proof. unfold waiting. rewrite filter_cons. by case_decide. Qed.

Lemma waiting_sublist k l l' : l' `sublist_of` l -> (waiting k l' <= waiting k l)%nat.
Proof. induction 1; [done|..]; rewrite !waiting_cons; lia. Qed.

Lemma called_none k tr : (forall eff hash, Called k eff hash ∉ tr) -> called k tr = 0%nat.
Proof.
  intros H. unfold called. induction tr as [|e tr IH]; [done|].
  rewrite filter_cons. case_decide as Hc.
  - destruct e; simpl in Hc; [subst|done]. exfalso. eapply H. left.
  - apply IH. intros eff hash Hin. eapply H. by right.
Qed.
Lemma waiting_none k l : (forall f, f ∈ l -> f_key f <> k) -> waiting k l = 0%nat.
Proof.
  intros H. induction l as [|f l IH]; [done|]. rewrite waiting_cons, IH.
  - case_decide as Hd; [|done]. destruct Hd. exfalso. eapply H; [left|done].
  - intros g Hg. apply H. by right.
Qed.

Lemma trace_snoc_call (tr pre post : list event) e x :
  tr ++ [e] = pre ++ x :: post ->
  (post = [] /\ pre = tr /\ x = e) \/ exists post', post = post' ++ [e] /\ tr = pre ++ x :: post'.
Proof.
  intros H. destruct post as [|y post _] using rev_ind.
  - left. apply app_inj_tail in H. naive_solver.
  - right. exists post. rewrite app_comm_cons, app_assoc in H.
    apply app_inj_tail in H as [-> ->]. done.
Qed.

Definition report (o : option (key * dispatch_status)) : list event :=
  match o with Some (k, s) => [Finished k s] | None => [] end.

Lemma rate_limited_app k t1 t2 : rate_limited k t1 -> rate_limited k (t1 ++ t2).
Proof. unfold rate_limited. rewrite elem_of_app. by left. Qed.

(** Every step except a claim and a call: rows keep their identity, flights
    only disappear, and at most an outcome is reported. *)
Lemma inv_update s t' fl' o :
  ledger_inv s -> same_identity (rows s) t' ->
  fl' `sublist_of` flights s ->
  (forall k r, t' !! k = Some r -> status r = retryable ->
     rate_limited k (trace s ++ report o)) ->
  ledger_inv {| rows := t'; flights := fl'; trace := trace s ++ report o |}.
Proof.
  intros [U F C R N O] Hid Hfl Hr. split; simpl.
  - by eapply same_identity_unique.
  - intros f Hf. eapply same_identity_bound; [done|]. apply F.
    by eapply elem_of_submseteq, sublist_submseteq.
  - intros k eff hash. rewrite elem_of_app. intros [H|H].
    + by eapply same_identity_bound, C.
    + destruct o as [[]|]; simpl in H; [|by apply not_elem_of_nil in H].
      apply list_elem_of_singleton in H. done.
  - done.
  - intros k. destruct (N k) as [H|H]; [left; by apply rate_limited_app|].
    right. rewrite called_app.
    assert (waiting k fl' <= waiting k (flights s))%nat as Hw.
    { by apply waiting_sublist. }
    assert (called k (report o) = 0)%nat as ->; [|lia].
    by destruct o as [[]|].
  - intros k eff hash pre post H Hc. destruct o as [[k0 st]|]; simpl in H.
    + apply trace_snoc_call in H as [(_ & _ & ?)|(p & _ & H)]; [done|eauto].
    + rewrite app_nil_r in H. eauto.
Qed.

Lemma inv_claim s t' k eff hash token now :
  ledger_inv s -> Sqlite.claim k eff hash token now (rows s) = (t', Ok tt) ->
  ledger_inv {| rows := t';
     flights := {| f_key := k; f_effect := eff; f_hash := hash; f_called := false |}
                :: flights s; trace := trace s |}.
Proof.
  intros [U F C R N O] (r & Hc & ->)%claim_ok.
  assert (effect_id r = eff /\ payload_hash r = hash) as [He Hh].
  { destruct Hc as [(_ & _ & ->)|(_ & ? & ? & _)]; done. }
  assert (forall j e h, bound_to (rows s) j e h ->
            bound_to (<[k := bump r now]> (rows s)) j e h) as Hb.
  { intros j e h (x & Hx & ? & ?). unfold bound_to. destruct (decide (j = k)) as [->|].
    - rewrite lookup_insert_eq. destruct Hc as [(? & _)|(Hk & _)]; [congruence|].
      rewrite Hk in Hx. simplify_eq. eexists. by split_and!.
    - rewrite lookup_insert_ne by done. eauto. }
  split; simpl.
  - assert (forall j x, rows s !! j = Some x -> j.1 = k.1 -> effect_id x = eff -> j = k) as Hu.
    { intros j x Hx Ht Hxe. destruct Hc as [(_ & Hf & _)|(Hk & _)].
      - exfalso. apply not_true_iff_false in Hf. apply Hf, effect_taken_spec. eauto.
      - eapply U; [exact Hx|exact Hk|done|congruence]. }
    intros k1 k2 r1 r2 H1 H2 Ht E.
    apply lookup_insert_Some in H1 as [[<- <-]|[? H1]];
      apply lookup_insert_Some in H2 as [[<- <-]|[? H2]]; simpl in *.
    + done.
    + symmetry. eapply Hu; [exact H2|done|congruence].
    + eapply Hu; [exact H1|done|congruence].
    + by eapply U.
  - intros f [->|Hf]%elem_of_cons; [|by apply Hb, F].
    exists (bump r now). simpl. by rewrite lookup_insert_eq.
  - intros. by apply Hb, C.
  - intros j x [[<- <-]|[? Hx]]%lookup_insert_Some Hs; [|by eapply R].
    destruct Hc as [(_ & _ & ->)|(Hk & _ & _ & Hs')]; [done|]. by eapply R.
  - intros j. destruct (decide (j = k)) as [->|Hj].
    + destruct Hc as [(Hn & _)|(Hk & _ & _ & Hs)]; [right|left; by eapply R].
      rewrite waiting_cons, waiting_none, called_none; [case_decide; lia| |].
      * intros e h (x & Hx & _)%C. congruence.
      * intros f (x & Hx & _)%F <-. congruence.
    + destruct (N j) as [|Hn]; [by left|right]. rewrite waiting_cons.
      case_decide as Hd; [|lia]. simpl in Hd. naive_solver.
  - done.
Qed.

Lemma inv_call s l1 l2 k eff hash :
  ledger_inv s ->
  flights s = l1 ++ {| f_key := k; f_effect := eff; f_hash := hash;
                       f_called := false |} :: l2 ->
  ledger_inv {| rows := rows s;
     flights := l1 ++ {| f_key := k; f_effect := eff; f_hash := hash;
                         f_called := true |} :: l2;
     trace := trace s ++ [Called k eff hash] |}.
Proof.
  intros [U F C R N O] Hfl. split; simpl; try done.
  - intros f Hf. assert (exists g, g ∈ flights s /\ f_key g = f_key f /\
        f_effect g = f_effect f /\ f_hash g = f_hash f) as (g & Hg & <- & <- & <-).
    { rewrite Hfl. apply elem_of_app in Hf as [Hf|[->|Hf]%elem_of_cons].
      - exists f. rewrite elem_of_app. by split; [left|].
      - eexists. rewrite elem_of_app, elem_of_cons. by split; [right; left|].
      - exists f. rewrite elem_of_app, elem_of_cons. by split; [right; right|]. }
    by apply F.
  - intros k' e h [H|H%list_elem_of_singleton]%elem_of_app; [eauto|].
    injection H as -> -> ->. apply (F {| f_key := k; f_effect := eff; f_hash := hash;
      f_called := false |}).
    rewrite Hfl, elem_of_app, elem_of_cons. by right; left.
  - intros j x Hx Hs. by apply rate_limited_app, (R j x).
  - intros j. destruct (N j) as [H|H]; [left; by apply rate_limited_app|right].
    revert H. rewrite Hfl, !waiting_app, !waiting_cons, called_app, called_one. simpl.
    repeat case_decide; try lia; intuition congruence.
  - intros k' e h pre post H Hc. apply trace_snoc_call in H as [(_ & -> & H)|(p & _ & H)].
    + injection H as -> -> ->. destruct (N k) as [|H]; [done|]. exfalso.
      rewrite Hfl, waiting_app, waiting_cons in H. case_decide as Hd; [lia|naive_solver].
    + eauto.
Qed.

Lemma inv_step s s' : ledger_inv s -> step s s' -> ledger_inv s'.
Proof.
  intros Hi Hs. destruct Hs as [s t' k eff hash token now Hc|s t' e k eff hash token now Hc
    |s l1 l2 k eff hash Hf|s l1 l2 k eff hash res now t' r Hf Hr|s l1 f l2 Hf|s k pid pst now].
  - by eapply inv_claim.
  - apply claim_err in Hc as ->. by destruct s.
  - by apply inv_call.
  - rewrite finish_eq in Hr. injection Hr as <- <-.
    apply (inv_update s _ _ (Some (k, outcome res))); [done| | |].
    + apply update_same_identity. intros x.
      by destruct (record_outcome_facts res now x) as (? & ? & _).
    + rewrite Hf. by apply sublist_app, sublist_cons.
    + intros j x. rewrite update_where_lookup. case_decide as Hj; [subst|].
      * intros (y & Hy & ->)%fmap_Some. 
        destruct (record_outcome_facts res now y) as (_ & _ & -> & _). intros ->.
        unfold rate_limited. rewrite elem_of_app. right. left.
      * intros Hx Hs. by apply rate_limited_app, (inv_retry s Hi _ x).
  - rewrite <- (app_nil_r (trace s)). apply (inv_update s _ _ None); [done..| |].
    + rewrite Hf. by apply sublist_app, sublist_cons.
    + simpl. rewrite app_nil_r. by apply inv_retry.
  - rewrite <- (app_nil_r (trace s)). unfold Sqlite.reconcile, get_row.
    destruct (rows s !! k) as [r|] eqn:Hk; [case_bool_decide|];
      apply (inv_update s _ _ None); simpl; rewrite ?app_nil_r; try done;
      try by apply inv_retry.
    + by apply update_same_identity.
    + intros j x. rewrite update_where_lookup. case_decide as Hj; [subst|by apply inv_retry].
      rewrite Hk. simpl. by intros [= <-].
Qed.

Lemma inv_reachable s : steps empty_system s -> ledger_inv s.
Proof.
  intros H. assert (ledger_inv empty_system) as H0.
  { split; simpl.
    - done.
    - by intros f Hf%elem_of_nil.
    - by intros k eff hash Hin%elem_of_nil.
    - done.
    - intros k. right. unfold waiting, called. simpl. lia.
    - intros k eff hash pre post Heq. by destruct pre. }
  revert H0. unfold steps in H. induction H; [done|]. intros. by eapply IHrtc, inv_step.
Qed.

(** C34. However many workers interleave, crash and reconcile, within a
    tenant an effect is only ever sent under one dispatch key and one
    payload, and it is sent a second time only if, before that second call,
    the provider had reported a rate limit for it: without one, the effect
    is sent at most once. *)
Theorem dispatch_at_most_once s :
  steps empty_system s ->
  (forall k1 k2 eff h1 h2, Called k1 eff h1 ∈ trace s -> Called k2 eff h2 ∈ trace s ->
     k1.1 = k2.1 -> k1 = k2 /\ h1 = h2) /\
  (forall k eff hash pre post, trace s = pre ++ Called k eff hash :: post ->
     called k pre = 0%nat \/ rate_limited k pre).
Proof.
  intros [U F C R N O]%inv_reachable. split.
  - intros k1 k2 eff h1 h2 (r1 & H1 & E1 & <-)%C (r2 & H2 & E2 & <-)%C Ht.
    assert (k1 = k2) as -> by (eapply U; [exact H1|exact H2|done|congruence]).
    by simplify_eq.
  - intros k eff hash pre post H. destruct (called k pre) eqn:E; [by left|right].
    eapply O; [done|lia].
Qed.

Lemma claim_refused t k eff hash token now r :
  t !! k = Some r -> status r <> retryable ->
  exists e, Sqlite.claim k eff hash token now t = (t, Err e) /\
    (e = DuplicateDispatch \/ e = AmbiguousDispatch).
Proof.
  intros Hk Hs. unfold Sqlite.claim, transaction. rewrite Hk. unfold check_existing.
  destruct (_ || _); [eauto|]. destruct (status r); eauto; done.
Qed.

(** One dispatch, on every branch.  Either the claim is refused and
    nothing changes, or the provider is called once, on the row as committed
    with its attempt counted, and the row ends in the status of the outcome;
    then, unless the outcome was a rate limit, every later dispatch under
    that key is refused as a duplicate or as ambiguous without changing the
    table, whatever its payload and whatever its provider would do. *)
Theorem dispatch_outcome k eff payload token provider_call now later t t' r :
  Sqlite.dispatch k eff payload token provider_call now later t = (t', r) ->
  (exists e, r = Err e /\ t' = t /\
     Sqlite.claim k eff (hash_value payload) token now t = (t, Err e)) \/
  (exists r0 r1,
     claimable t k eff (hash_value payload) token now r0 /\
     let res := provider_call (Some (bump r0 now)) in
     t' = <[k := r1]> t /\ status r1 = outcome res /\
     attempt_count r1 = attempt_count r0 + 1 /\
     r = returned res /\
     (outcome res <> retryable ->
      forall eff2 payload2 token2 call2 now2 later2, exists e,
        Sqlite.dispatch k eff2 payload2 token2 call2 now2 later2 t' = (t', Err e) /\
        (e = DuplicateDispatch \/ e = AmbiguousDispatch))).
Proof.
  unfold Sqlite.dispatch at 1.
  destruct (Sqlite.claim k eff (hash_value payload) token now t) as [t1 [[]|e]] eqn:Ec.
  2: { intros [= <- <-]. left. exists e. pose proof (claim_err _ _ _ _ _ _ _ _ Ec) as ->. done. }
  apply claim_ok in Ec as (r0 & Hc & ->). unfold get_row. rewrite lookup_insert_eq.
  rewrite finish_eq, (update_where_insert _ _ (bump r0 now)), insert_insert_eq
    by (by rewrite lookup_insert_eq).
  set (res := provider_call (Some (bump r0 now))). intros [= <- <-]. right.
  destruct (record_outcome_facts res later (bump r0 now)) as (_ & _ & Hs & Ha).
  exists r0, (record_outcome res later (bump r0 now)). cbn zeta.
  split_and!; try done. intros Hne eff2 payload2 token2 call2 now2 later2.
  destruct (claim_refused (<[k := record_outcome res later (bump r0 now)]> t) k eff2
              (hash_value payload2) token2 now2 (record_outcome res later (bump r0 now)))
    as (e & He & Hd); [by rewrite lookup_insert_eq|by rewrite Hs|].
  exists e. unfold Sqlite.dispatch. by rewrite He.
Qed.

(** The sequential dispatch is a run of the concurrent system. *)
Lemma dispatch_steps k eff payload token provider_call now later t t' r fl tr :
  Sqlite.dispatch k eff payload token provider_call now later t = (t', r) ->
  exists evs, steps {| rows := t; flights := fl; trace := tr |}
                    {| rows := t'; flights := fl; trace := tr ++ evs |}.
Proof.
  unfold Sqlite.dispatch. set (h := hash_value payload).
  destruct (Sqlite.claim k eff h token now t) as [t1 [[]|e]] eqn:Ec; intros H.
  - exists [Called k eff h; Finished k (outcome (provider_call (get_row k t1)))].
    eapply rtc_l; [by eapply (step_claim {| rows := t; flights := fl; trace := tr |})|].
    eapply rtc_l; [by eapply (step_call _ [] fl)|].
    eapply rtc_l; [by eapply (step_finish _ [] fl)|]. simpl.
    rewrite <- app_assoc. apply rtc_refl.
  - injection H as <- <-. exists []. rewrite app_nil_r.
    apply rtc_once. by eapply (step_refused {| rows := t; flights := fl; trace := tr |}).
Qed.

Definition ex_key : key := ("tenant", "key").
Definition rate_limit_exn : provider_exn :=
  {| is_network := false; category := VStr "rate_limit" |}.
Definition ex_receipt (id : string) : pyval := VDict [("provider_id", VStr id)].

(** The claim of a retry is not exclusive: [dispatch] does not take a
    rate-limited row back to [intent_recorded], so after one rate limit two
    workers can both claim it, both call the provider and both be told the
    effect was accepted. *)
Theorem retry_claim_not_exclusive :
  exists s, steps empty_system s /\
    trace s = [Called ex_key "e" "h"; Finished ex_key retryable;
               Called ex_key "e" "h"; Called ex_key "e" "h";
               Finished ex_key accepted; Finished ex_key accepted].
Proof.
  eexists. split.
  - eapply rtc_l; [by eapply (step_claim empty_system _ ex_key "e" "h" "tok" 1)|].
    eapply rtc_l; [by eapply (step_call _ [] [])|].
    eapply rtc_l; [by eapply (step_finish _ [] [] _ _ _ (Err rate_limit_exn) 2)|].
    eapply rtc_l; [by eapply (step_claim _ _ ex_key "e" "h" "tok" 3)|].
    eapply rtc_l; [by eapply (step_claim _ _ ex_key "e" "h" "tok" 4)|].
    eapply rtc_l; [by eapply (step_call _ [] [_])|].
    eapply rtc_l; [by eapply (step_call _ [_] [])|].
    eapply rtc_l; [by eapply (step_finish _ [] [_] _ _ _ (Ok (ex_receipt "a")) 5)|].
    eapply rtc_l; [by eapply (step_finish _ [] [] _ _ _ (Ok (ex_receipt "b")) 6)|].
    apply rtc_refl.
  - reflexivity.
Qed.

Lemma dispatch_at_most_once_witness :
  exists s, steps empty_system s /\ called ex_key (trace s) = 1%nat /\
  forall pre post, trace s = pre ++ Called ex_key "e" "h" :: post ->
    called ex_key pre = 0%nat \/ rate_limited ex_key pre.
Proof.
  eexists. split; [|split].
  - eapply rtc_l; [by eapply (step_claim empty_system _ ex_key "e" "h" "tok" 1)|].
    eapply rtc_l; [by eapply (step_call _ [] [])|]. apply rtc_refl.
  - reflexivity.
  - intros pre post. apply dispatch_at_most_once.
    eapply rtc_l; [by eapply (step_claim empty_system _ ex_key "e" "h" "tok" 1)|].
    eapply rtc_l; [by eapply (step_call _ [] [])|]. apply rtc_refl.
Defined.

Definition ex_call (o : option row) : call_result :=
  match o with Some _ => Ok (ex_receipt "SM1") | None => Err rate_limit_exn end.

Definition ex_dispatch : stm table dispatch_error pyval :=
  Sqlite.dispatch ex_key "e" VNone "tok" ex_call 1 2.

Lemma dispatch_outcome_witness :
  snd (ex_dispatch ∅) = Ok (ex_receipt "SM1") /\
  exists e, Sqlite.dispatch ex_key "e" VNone "tok" ex_call 3 4 (fst (ex_dispatch ∅))
            = (fst (ex_dispatch ∅), Err e) /\
    (e = DuplicateDispatch \/ e = AmbiguousDispatch).
Proof.
  assert (snd (ex_dispatch ∅) = Ok (ex_receipt "SM1")) as E by (vm_compute; reflexivity).
  split; [exact E|].
  destruct (dispatch_outcome ex_key "e" VNone "tok" ex_call 1 2 ∅
              (fst (ex_dispatch ∅)) (snd (ex_dispatch ∅)) (surjective_pairing _)) as
    [(e & He & _)|(r0 & r1 & _ & _ & _ & _ & _ & H)].
  - rewrite E in He. discriminate He.
  - apply H. discriminate.
Defined.
