(* ===== verification/EffectGroup.v ===== *)
(** * Compound requests

    src/agents/orchestrator/compound.py: a compound request is a group of
    effects, each answered, blocked and dispatched on its own; and the
    dispatch loop over such a group,
    [DynamicWorkflowService.dispatch_approved_effects].  Effect identifiers
    come from [uuid.uuid4]: [fresh n] is the identifier of the operation at
    index [n]. *)

From S2P Require Import Prelude PyValue PlanSchema.
Local Open Scope Z_scope.

Definition _READ_SUFFIXES : list string :=
  [".read"; ".list"; ".search"; ".messages"; ".permalink"].

Inductive status : Type :=
| blocked | awaiting_approval | approved | dispatched
| succeeded | failed | rejected | cancelled.

Global Instance status_eq_dec : EqDecision status.
Proof. solve_decision. Defined.

Definition _DECISIONS (d : string) : option status :=
  if String.eqb d "approve" then Some approved
  else if String.eqb d "reject" then Some rejected
  else if String.eqb d "correct" then Some awaiting_approval
  else if String.eqb d "cancel" then Some cancelled
  else if String.eqb d "succeeded" then Some succeeded
  else if String.eqb d "failed" then Some failed
  else if String.eqb d "dispatched" then Some dispatched
  else None.

Definition terminal (s : status) : bool :=
  match s with succeeded | failed | rejected | cancelled => true | _ => false end.
Definition completed (s : status) : bool :=
  match s with succeeded => true | _ => false end.

Inductive kind : Type := Read | Write.
Global Instance kind_eq_dec : EqDecision kind.
Proof. solve_decision. Defined.

Definition effect_kind (capability_id : string) : kind :=
  if existsb (fun p => ends_with p capability_id) _READ_SUFFIXES then Read else Write.

(** What the conversation has resolved, as far as a summary reads it. *)
Record resolved_entities := {
  channel_name : option string;
  channel_id : option string;
  person_display_name : option string;
  person_real_name : option string;
  person_id : option string;
}.

(** [capability_id.rsplit(".", 1)[-1].replace("_", " ")]. *)
Fixpoint underscores_to_spaces (s : string) : string :=
  match s with
  | "" => ""
  | String c s' => String (if Ascii.eqb c (chr 95) then chr 32 else c)
                          (underscores_to_spaces s')
  end.
Definition action_name (capability_id : string) : string :=
  underscores_to_spaces (List.last (split_dot capability_id) "").

Definition summary_of (capability_id : string) (r : resolved_entities) : string :=
  let target :=
    if truthy (channel_name r) then ("#" +:+ default "" (channel_name r))
    else default "" (or_else (person_display_name r)
           (or_else (person_real_name r)
             (or_else (channel_id r) (person_id r)))) in
  if truthy target then action_name capability_id +:+ " " +:+ target
  else action_name capability_id.

Record effect := {
  effect_id : string;
  capability_id : string;
  e_kind : kind;
  summary : string;
  depends_on : list string;
  e_status : status;
}.

Record group := {
  group_id : string;
  conversation_id : string;
  effects : list effect;
}.

Record operation := { operation_id : option string }.
Record edge := { operation_index : option Z; depends_on_index : option Z }.

Inductive group_error : Type := GValueError | GKeyError.

(** ** Building a group *)

Section build.
Variable fresh : nat -> string.
Variable gid : string.
Variable res : resolved_entities.

(** [[item for item in operations if item.get("operation_id")]]. *)
Definition named (ops : list operation) : list string :=
  flat_map (fun o => match operation_id o with
                     | Some c => if truthy c then [c] else []
                     | None => [] end) ops.

(** [declared.get(index, ())]: the sources declared for a target, in the
    order of the edges; an edge with a missing end is skipped. *)
Definition declared (edges : list edge) (index : nat) : list Z :=
  flat_map (fun e =>
    match operation_index e, depends_on_index e with
    | Some t, Some s => if t =? Z.of_nat index then [s] else []
    | _, _ => []
    end) edges.

(** [sorted(range(len(named)), key=...)]: the sort key is the kind, then the
    position, so reads come first and both halves keep their order. *)
Definition order (caps : list string) : list nat :=
  let indices := seq 0 (length caps) in
  let is_read i := bool_decide (effect_kind (nth i caps "") = Read) in
  List.filter is_read indices ++ List.filter (fun i => negb (is_read i)) indices.

(** [effect_ids[source] for source in ... if source in effect_ids]. *)
Definition dependency_ids (n : nat) (sources : list Z) : list string :=
  flat_map (fun s => if (0 <=? s) && (s <? Z.of_nat n) then [fresh (Z.to_nat s)] else [])
    sources.

Definition build_effect (caps : list string) (edges : list edge) (index : nat) : effect :=
  let cap := nth index caps "" in
  let deps := dependency_ids (length caps) (declared edges index) in
  {| effect_id := fresh index; capability_id := cap; e_kind := effect_kind cap;
     summary := summary_of cap res; depends_on := deps;
     e_status := if truthy deps then blocked else awaiting_approval |}.

Definition build_effect_group (conv : string) (ops : list operation)
    (edges : list edge) : result group_error group :=
  if negb (truthy conv) then Err GValueError
  else
    let caps := named ops in
    Ok {| group_id := gid; conversation_id := conv;
          effects := map (build_effect caps edges) (order caps) |}.
End build.

(** ** Deciding *)

Definition set_status (s : status) (e : effect) : effect := {|
  effect_id := effect_id e; capability_id := capability_id e; e_kind := e_kind e;
  summary := summary e; depends_on := depends_on e; e_status := s |}.

(** Change the first effect with the identifier, if there is one. *)
Fixpoint set_first (id : string) (s : status) (l : list effect) : option (list effect) :=
  match l with
  | [] => None
  | e :: l' =>
      if String.eqb (effect_id e) id then Some (set_status s e :: l')
      else match set_first id s l' with
           | Some l'' => Some (e :: l'')
           | None => None
           end
  end.

(** [{item["effect_id"] for item in effects if item["status"] in
    _COMPLETED}]. *)
Definition completed_ids (l : list effect) : list string :=
  map effect_id (List.filter (fun e => completed (e_status e)) l).

Definition unblock (finished : list string) (e : effect) : effect :=
  if bool_decide (e_status e <> blocked) then e
  else if forallb (fun d => str_in d finished) (depends_on e)
  then set_status awaiting_approval e else e.

Definition _unblock_dependents (l : list effect) (finished_id : string) : list effect :=
  let finished := finished_id :: completed_ids l in
  map (unblock finished) l.

Definition apply_effect_decision (g : group) (id decision : string)
    : result group_error group :=
  match _DECISIONS decision with
  | None => Err GValueError
  | Some s =>
      match set_first id s (effects g) with
      | None => Err GKeyError
      | Some l =>
          Ok {| group_id := group_id g; conversation_id := conversation_id g;
                effects := if completed s then _unblock_dependents l id else l |}
      end
  end.

Definition dispatchable (l : list effect) (e : effect) : bool :=
  bool_decide (e_status e = approved)
  && forallb (fun d => str_in d (completed_ids l)) (depends_on e).

Definition dispatchable_effects (g : group) : list effect :=
  List.filter (dispatchable (effects g)) (effects g).

Record outcome := {
  o_completed : nat;
  o_total : nat;
  o_summary : string;
  o_terminal : bool;
}.

Definition group_outcome (g : group) : outcome :=
  let done := length (List.filter (fun e => completed (e_status e)) (effects g)) in
  {| o_completed := done; o_total := length (effects g);
     o_summary := index_str done +:+ " of " +:+ index_str (length (effects g))
                    +:+ " completed";
     o_terminal := forallb (fun e => terminal (e_status e)) (effects g) |}.

(** ** Dispatching

    [dispatch_one e] tells whether [_dispatch_one_effect] returned ([true])
    or raised one of the three caught exceptions ([false]). *)
Section dispatch.
Variable dispatch_one : effect -> bool.

Fixpoint dispatch_each (g : group) (l : list effect)
    : result group_error (group * list string) :=
  match l with
  | [] => Ok (g, [])
  | e :: l' =>
      match apply_effect_decision g (effect_id e)
              (if dispatch_one e then "dispatched" else "failed") with
      | Err x => Err x
      | Ok g' =>
          match dispatch_each g' l' with
          | Err x => Err x
          | Ok (g'', ids) => Ok (g'', effect_id e :: ids)
          end
      end
  end.

Definition dispatch_approved_effects (g : group)
    : result group_error (group * list string) :=
  dispatch_each g (dispatchable_effects g).
End dispatch.

(** ** Lemmas *)

Definition ids (g : group) : list string := map effect_id (effects g).

Lemma set_first_map id s l :
  NoDup (map effect_id l) ->
  set_first id s l =
  if str_in id (map effect_id l)
  then Some (map (fun e => if String.eqb (effect_id e) id then set_status s e else e) l)
  else None.
Proof.
  induction l as [|e l IH]; simpl; [done|]. intros [Hn Hd]%NoDup_cons.
  rewrite (String.eqb_sym id). destruct (String.eqb_spec (effect_id e) id) as [<-|Hne]; simpl.
  - do 2 f_equal. symmetry. rewrite <- (map_id l) at 2. apply map_ext_in.
    intros x Hx%list_elem_of_In. destruct (String.eqb_spec (effect_id x) (effect_id e)); [|done].
    exfalso. apply Hn. apply list_elem_of_fmap. eauto.
  - rewrite IH by done. unfold str_in. by destruct (existsb _ _).
Qed.

Lemma completed_ids_spec d l :
  d ∈ completed_ids l <-> exists e, e ∈ l /\ effect_id e = d /\ e_status e = succeeded.
Proof.
  unfold completed_ids. rewrite list_elem_of_fmap. split.
  - intros (e & -> & He%list_elem_of_In%filter_In). destruct He as [He Hc].
    exists e. apply list_elem_of_In in He. split_and!; [done..|]. by destruct (e_status e).
  - intros (e & He & <- & Hs). exists e. split; [done|].
    apply list_elem_of_In, filter_In. rewrite Hs. split; [by apply list_elem_of_In|done].
Qed.

(** What a decision [s] on [id] makes of one effect, given the identifiers
    known to have succeeded. *)
Definition answer (id : string) (s : status) (finished : list string) (e : effect) : effect :=
  if String.eqb (effect_id e) id then set_status s e
  else if completed s then unblock finished e else e.

Lemma answer_identity id s finished e :
  effect_id (answer id s finished e) = effect_id e /\
  capability_id (answer id s finished e) = capability_id e /\
  e_kind (answer id s finished e) = e_kind e /\
  summary (answer id s finished e) = summary e /\
  depends_on (answer id s finished e) = depends_on e.
Proof.
  unfold answer, unblock. repeat case_match; done.
Qed.

Lemma apply_ids g id s finished :
  map effect_id (map (answer id s finished) (effects g)) = ids g.
Proof.
  unfold ids. rewrite map_map. apply map_ext. intros e. apply answer_identity.
Qed.

Definition decided (g : group) (id : string) (s : status) : list effect :=
  map (fun e => if String.eqb (effect_id e) id then set_status s e else e) (effects g).

Lemma decisions_never_block d s : _DECISIONS d = Some s -> s <> blocked.
Proof. unfold _DECISIONS. repeat case_match; naive_solver. Qed.

Lemma apply_eq g id d :
  NoDup (ids g) ->
  apply_effect_decision g id d =
  match _DECISIONS d with
  | None => Err GValueError
  | Some s =>
      if str_in id (ids g)
      then Ok {| group_id := group_id g; conversation_id := conversation_id g;
                 effects := map (answer id s (id :: completed_ids (decided g id s)))
                              (effects g) |}
      else Err GKeyError
  end.
Proof.
  intros Hn. unfold apply_effect_decision.
  destruct (_DECISIONS d) as [s|] eqn:Hd; [|done]. apply decisions_never_block in Hd.
  rewrite set_first_map by done. unfold ids in *.
  destruct (str_in id _); [|done]. do 2 f_equal. fold (decided g id s).
  unfold answer, _unblock_dependents. destruct (completed s); [|done].
  unfold decided at 2. rewrite map_map. apply map_ext. intros e.
  destruct (String.eqb (effect_id e) id); [|done].
  unfold unblock. simpl. by rewrite bool_decide_true.
Qed.

Fixpoint apply_all (g : group) (ds : list (string * string)) : result group_error group :=
  match ds with
  | [] => Ok g
  | (id, d) :: ds' =>
      match apply_effect_decision g id d with
      | Err e => Err e
      | Ok g' => apply_all g' ds'
      end
  end.

(** The last decision taken on an effect. *)
Fixpoint last_decision (id : string) (ds : list (string * string)) : option status :=
  match ds with
  | [] => None
  | (i, d) :: ds' =>
      match last_decision id ds' with
      | Some s => Some s
      | None => if String.eqb i id then _DECISIONS d else None
      end
  end.

Definition same_effect (e e' : effect) : Prop :=
  effect_id e' = effect_id e /\ capability_id e' = capability_id e /\
  e_kind e' = e_kind e /\ summary e' = summary e /\ depends_on e' = depends_on e.

(** The status an effect may have after some decisions of the group. *)
Definition own_status (ds : list (string * string)) (e e' : effect) : Prop :=
  match last_decision (effect_id e) ds with
  | Some s => e_status e' = s
  | None => e_status e' = e_status e \/
            (e_status e = blocked /\ e_status e' = awaiting_approval)
  end.

(** Unblocking never changes who has succeeded. *)
Lemma succeeded_after id s fin g x :
  (exists f, f ∈ decided g id s /\ effect_id f = x /\ e_status f = succeeded) <->
  (exists f, f ∈ map (answer id s fin) (effects g) /\ effect_id f = x /\ e_status f = succeeded).
Proof.
  assert (forall e, e_status (if String.eqb (effect_id e) id then set_status s e else e) = succeeded <->
            e_status (answer id s fin e) = succeeded) as H.
  { intros e. unfold answer, unblock. destruct (String.eqb _ _); [done|].
    destruct (completed s); [|done]. case_bool_decide as Hb; [done|].
    destruct (forallb _ _); [|done]. simpl. split; [|done]. intros E. congruence. }
  unfold decided. split; intros (f & Hf & Hx & Hs);
    apply list_elem_of_fmap in Hf as (e & -> & He).
  - exists (answer id s fin e). split; [apply list_elem_of_fmap; eauto|]. split; [|by apply H].
    rewrite <- Hx. destruct (answer_identity id s fin e) as [-> _]. by destruct (String.eqb _ _).
  - eexists. split; [apply list_elem_of_fmap; exists e; split; [reflexivity|done]|].
    split; [|by apply H]. rewrite <- Hx. destruct (answer_identity id s fin e) as [-> _].
    by destruct (String.eqb _ _).
Qed.

(** One decision, on every branch: an unknown decision and an unknown
    effect raise; otherwise exactly the named effect takes the decided
    status, and no other effect changes unless the decision is a success,
    which takes a blocked effect to awaiting approval exactly when all its
    dependencies have now succeeded. *)
Theorem apply_effect_decision_spec g id d :
  NoDup (ids g) ->
  match apply_effect_decision g id d with
  | Err GValueError => _DECISIONS d = None
  | Err GKeyError => _DECISIONS d <> None /\ id ∉ ids g
  | Ok g' =>
      exists s, _DECISIONS d = Some s /\
      Forall2 (fun e e' => same_effect e e' /\
        (effect_id e = id -> e_status e' = s) /\
        (effect_id e <> id -> e_status e' <> e_status e ->
           s = succeeded /\ e_status e = blocked /\ e_status e' = awaiting_approval) /\
        (effect_id e <> id -> s = succeeded -> e_status e = blocked ->
           (e_status e' = awaiting_approval <->
            forall x, x ∈ depends_on e -> x = id \/
              exists f, f ∈ effects g' /\ effect_id f = x /\ e_status f = succeeded)))
        (effects g) (effects g')
  end.
Proof.
  intros Hn. rewrite apply_eq by done. destruct (_DECISIONS d) as [s|] eqn:Hd; [|done].
  destruct (str_in id (ids g)) eqn:Hin; [|split; [done|by apply str_in_false]].
  exists s. split; [done|]. cbn [effects].
  set (fin := id :: completed_ids (decided g id s)).
  assert (forall x, x ∈ fin <-> x = id \/ exists f,
            f ∈ map (answer id s fin) (effects g) /\ effect_id f = x /\ e_status f = succeeded) as Hfin.
  { intros x. unfold fin at 1. rewrite elem_of_cons, completed_ids_spec.
    apply or_iff_compat_l, succeeded_after. }
  apply Forall2_fmap_r, Forall_Forall2_diag, Forall_forall. intros e He.
  split; [by apply answer_identity|]. clearbody fin.
  unfold answer. destruct (String.eqb_spec (effect_id e) id) as [Heq|Hne]; [by split_and!|].
  split; [done|]. destruct s; simpl; try by split_and!.
  unfold unblock. case_bool_decide as Hbl; [naive_solver|].
  destruct (forallb _ _) eqn:Hf; simpl; (split; [naive_solver|]); intros _ _ _; rewrite ?Hbl.
  - split; [|done]. intros _ x Hx. apply Hfin.
    rewrite forallb_forall in Hf. apply str_in_spec, Hf. by apply list_elem_of_In.
  - split; [done|]. intros H. exfalso. apply not_true_iff_false in Hf. apply Hf.
    apply forallb_forall. intros x Hx%list_elem_of_In. apply str_in_spec, Hfin, H, Hx.
Qed.

Lemma apply_ok_ids g id d g' :
  NoDup (ids g) -> apply_effect_decision g id d = Ok g' -> ids g' = ids g.
Proof.
  intros Hn. rewrite apply_eq by done. intros H. guards H. injection H as <-.
  apply apply_ids.
Qed.

Lemma same_effect_trans a b c : same_effect a b -> same_effect b c -> same_effect a c.
Proof. unfold same_effect. intros (?&?&?&?&?) (?&?&?&?&?). split_and!; congruence. Qed.

Lemma apply_step g id d g' :
  NoDup (ids g) -> apply_effect_decision g id d = Ok g' ->
  Forall2 (fun e e' => same_effect e e' /\ own_status [(id, d)] e e')
    (effects g) (effects g').
Proof.
  intros Hn. rewrite apply_eq by done. intros H. guards H. injection H as <-.
  match goal with E : _DECISIONS d = Some _ |- _ => rename E into Hd end. cbn [effects].
  apply Forall2_fmap_r, Forall_Forall2_diag, Forall_forall. intros e _.
  split; [by apply answer_identity|]. unfold own_status. simpl.
  rewrite String.eqb_sym, Hd. unfold answer, unblock.
  destruct (String.eqb _ _); [done|]. destruct (completed s); [|by left].
  case_bool_decide; [by left|]. destruct (forallb _ _); [by right|by left].
Qed.

(** In a group every effect answers for itself: after any sequence of
    decisions, each effect is still the effect it was, and its status is the
    one of the last decision taken on it, if there was one, and otherwise the
    one it started with, or awaiting approval if it started blocked.  No
    approval is ever carried from one effect to another. *)
Theorem effects_answer_for_themselves g ds g' :
  NoDup (ids g) -> apply_all g ds = Ok g' ->
  Forall2 (fun e e' => same_effect e e' /\ own_status ds e e') (effects g) (effects g').
Proof.
  revert g. induction ds as [|[id d] ds IH]; intros g Hn; cbn [apply_all].
  { intros [= <-]. apply Forall_Forall2_diag, Forall_forall. intros e _.
    split; [by unfold same_effect|]. by left. }
  destruct (apply_effect_decision g id d) as [g1|] eqn:H1; [intros H|done].
  pose proof (apply_ok_ids _ _ _ _ Hn H1) as Hids. apply apply_step in H1; [|done].
  apply IH in H; [|congruence]. revert H. generalize (effects g').
  induction H1 as [|e e1 l l1 [He Ho] _ IHl]; intros l' H2;
    inversion H2 as [|? e2 ? l2 [He2 Ho2] Hl2]; subst; [constructor|].
  constructor; [|by apply IHl]. split; [by eapply same_effect_trans|].
  destruct He as (Hid & _). revert Ho Ho2. unfold own_status. simpl. rewrite Hid.
  destruct (last_decision (effect_id e) ds); [done|].
  intros Ho Ho2. destruct (if String.eqb id (effect_id e) then _ else _) as [s|] eqn:Hd.
  - assert (s <> blocked).
    { destruct (String.eqb _ _); [by apply decisions_never_block in Hd|done]. }
    destruct Ho2 as [|[? _]]; congruence.
  - destruct Ho as [Ho|[Ho Ho']], Ho2 as [Ho2|[Ho2 Ho2']]; try (left; congruence);
      right; split; congruence.
Qed.

(** ** A built group *)

Lemma order_perm caps : order caps ≡ₚ seq 0 (length caps).
Proof.
  unfold order. generalize (seq 0 (length caps)). intros l.
  induction l as [|i l IH]; simpl; [done|]. case_bool_decide; simpl; [by f_equiv|].
  rewrite <- Permutation_middle. by f_equiv.
Qed.

Lemma map_nth_seq {A} (l : list A) d : map (fun i => nth i l d) (seq 0 (length l)) = l.
Proof.
  apply list_eq_same_length with (n := length l); [done|by rewrite length_map, length_seq|].
  intros i x y Hi Hx Hy. rewrite list_lookup_fmap in Hx.
  rewrite lookup_seq_lt in Hx by done. simpl in Hx. injection Hx as <-.
  by apply nth_lookup_Some with (d := d) in Hy.
Qed.

(** A group is built only for a conversation and then has one effect per
    named operation, with distinct identifiers, the reads before the writes;
    every effect waits for effects of the same group only, and is blocked
    exactly when it waits for something, otherwise it awaits approval. *)
Theorem build_effect_group_spec fresh gid res conv ops edges :
  Inj (=) (=) fresh ->
  match build_effect_group fresh gid res conv ops edges with
  | Err e => conv = "" /\ e = GValueError
  | Ok g =>
      conv <> "" /\ conversation_id g = conv /\
      map capability_id (effects g) ≡ₚ named ops /\ NoDup (ids g) /\
      (exists reads writes, effects g = reads ++ writes /\
         Forall (fun e => e_kind e = Read) reads /\
         Forall (fun e => e_kind e = Write) writes) /\
      Forall (fun e => (forall d, d ∈ depends_on e -> d ∈ ids g) /\
        e_status e = if decide (depends_on e = []) then awaiting_approval else blocked)
        (effects g)
  end.
Proof.
  intros Hinj. unfold build_effect_group.
  destruct (truthy conv) eqn:Hc; unfold truthy, truthy_string in Hc; simpl.
  2: { apply negb_false_iff, String.eqb_eq in Hc. done. }
  apply negb_true_iff, String.eqb_neq in Hc. set (caps := named ops).
  assert (ids {| group_id := gid; conversation_id := conv;
     effects := map (build_effect fresh res caps edges) (order caps) |}
     ≡ₚ map fresh (seq 0 (length caps))) as Hids.
  { unfold ids. simpl. rewrite map_map. simpl. apply fmap_Permutation, order_perm. }
  split_and!; [done|done| | | |].
  - rewrite map_map. simpl. rewrite (fmap_Permutation _ _ _ (order_perm caps)).
    by rewrite map_nth_seq.
  - rewrite Hids. apply NoDup_fmap_2; [done|]. apply NoDup_seq.
  - unfold order. rewrite map_app. eexists _, _. split; [reflexivity|].
    split; apply Forall_fmap, Forall_forall; intros i Hi%list_elem_of_In%filter_In;
      destruct Hi as [_ Hi]; cbn; [by apply bool_decide_eq_true_1 in Hi|].
    apply negb_true_iff, bool_decide_eq_false_1 in Hi. by destruct (effect_kind _).
  - apply Forall_fmap, Forall_forall. intros i _.
    unfold build_effect. cbn zeta. cbn [depends_on e_status].
    set (deps := dependency_ids fresh (length caps) (declared edges i)). split.
    + intros d Hd. rewrite Hids. unfold deps, dependency_ids in Hd.
      apply list_elem_of_In, in_flat_map in Hd as (s & _ & Hd%list_elem_of_In).
      destruct (Z.leb_spec 0 s), (Z.ltb_spec s (Z.of_nat (length caps)));
        simpl in Hd; try by apply elem_of_nil in Hd.
      apply list_elem_of_singleton in Hd as ->. apply list_elem_of_fmap.
      eexists. split; [done|]. apply elem_of_seq. lia.
    + clear deps. simpl. case_decide as Hd; [by rewrite Hd|by destruct (dependency_ids _ _ _)].
Qed.

(** ** Dispatching *)

Lemma dispatchable_spec l e :
  dispatchable l e = true <->
  e_status e = approved /\
  forall d, d ∈ depends_on e -> exists f, f ∈ l /\ effect_id f = d /\ e_status f = succeeded.
Proof.
  unfold dispatchable. rewrite andb_true_iff, bool_decide_eq_true, forallb_forall.
  apply and_iff_compat_l. split; intros H d Hd.
  - apply completed_ids_spec, str_in_spec, H. by apply list_elem_of_In.
  - apply str_in_spec, completed_ids_spec, H. by apply list_elem_of_In.
Qed.

(** The statuses after the loop over [l]: dispatched or failed for the
    effects of [l], unchanged for the others. *)
Definition ran (l : list string) (e e' : effect) : Prop :=
  same_effect e e' /\
  if str_in (effect_id e) l then e_status e' = dispatched \/ e_status e' = failed
  else e_status e' = e_status e.

Lemma dispatch_each_ok one g l :
  NoDup (ids g) -> (forall e, e ∈ l -> effect_id e ∈ ids g) ->
  exists g', dispatch_each one g l = Ok (g', map effect_id l) /\
    Forall2 (ran (map effect_id l)) (effects g) (effects g').
Proof.
  revert g. induction l as [|x l IH]; intros g Hn Hin; cbn [dispatch_each].
  { exists g. split; [done|]. apply Forall_Forall2_diag, Forall_forall. intros e _.
    by split; [unfold same_effect|]. }
  set (d := if one x then "dispatched" else "failed").
  assert (exists s, _DECISIONS d = Some s /\ (s = dispatched \/ s = failed)) as (s & Hd & Hs)
    by (unfold d; destruct (one x); eexists; (split; [reflexivity|]); tauto).
  rewrite apply_eq, Hd by done.
  assert (str_in (effect_id x) (ids g) = true) as -> by (apply str_in_spec, Hin; left).
  assert (completed s = false) as Hcs by (destruct Hs as [-> | ->]; done).
  set (g1 := {| effects := map (answer _ _ _) _ |}).
  assert (ids g1 = ids g) as Hids by apply apply_ids.
  destruct (IH g1) as (g' & -> & H2).
  { congruence. }
  { intros e He. rewrite Hids. apply Hin. by right. }
  exists g'. split; [done|]. cbn [effects g1] in H2.
  apply (Forall2_fmap_l (answer _ _ _)) in H2.
  eapply Forall2_impl; [exact H2|]. clear H2. intros e e' [Hse Hst].
  split; [eapply same_effect_trans; [apply answer_identity|exact Hse]|].
  destruct (answer_identity (effect_id x) s
     (effect_id x :: completed_ids (decided g (effect_id x) s)) e) as [Hid _].
  rewrite Hid in Hst. unfold answer in Hst. rewrite Hcs in Hst. simpl.
  unfold str_in at 1. simpl. fold (str_in (effect_id e) (map effect_id l)).
  rewrite (String.eqb_sym (effect_id e)), (String.eqb_sym (effect_id x)) in *.
  destruct (str_in (effect_id e) (map effect_id l)); [by rewrite orb_true_r|].
  rewrite orb_false_r. rewrite (String.eqb_sym (effect_id e)).
  rewrite (String.eqb_sym (effect_id e)) in Hst.
  destruct (String.eqb _ _); [|done]. simpl in Hst. by rewrite Hst.
Qed.

(** Dispatching a group: the loop never raises, dispatches exactly the
    effects that are approved and whose dependencies have all succeeded,
    each becoming dispatched or failed on its own, and touches no other
    effect; running it again right away dispatches nothing, so an approval
    is spent once. *)
Theorem dispatch_approved_effects_once one g :
  NoDup (ids g) ->
  exists g', dispatch_approved_effects one g = Ok (g', map effect_id (dispatchable_effects g)) /\
    (forall e, e ∈ dispatchable_effects g <->
       e ∈ effects g /\ e_status e = approved /\
       forall d, d ∈ depends_on e ->
         exists f, f ∈ effects g /\ effect_id f = d /\ e_status f = succeeded) /\
    Forall2 (ran (map effect_id (dispatchable_effects g))) (effects g) (effects g') /\
    forall one2, dispatch_approved_effects one2 g' = Ok (g', []).
Proof.
  intros Hn.
  assert (forall e, e ∈ dispatchable_effects g <->
       e ∈ effects g /\ e_status e = approved /\
       forall d, d ∈ depends_on e ->
         exists f, f ∈ effects g /\ effect_id f = d /\ e_status f = succeeded) as Hspec.
  { intros e. unfold dispatchable_effects.
    by rewrite !list_elem_of_In, filter_In, <- list_elem_of_In, dispatchable_spec. }
  destruct (dispatch_each_ok one g (dispatchable_effects g)) as (g' & Hg' & Hran); [done| |].
  { intros e (He & _)%Hspec. apply list_elem_of_fmap. eauto. }
  exists g'. split_and!; [done|done|done|]. intros one2.
  unfold dispatch_approved_effects.
  assert (dispatchable_effects g' = []) as ->; [|done].
  unfold dispatchable_effects. apply elem_of_nil_inv. intros e' He'.
  apply list_elem_of_In, filter_In in He' as [He'%list_elem_of_In [Hs Hdeps]%dispatchable_spec].
  apply list_elem_of_lookup in He' as (i & Hi).
  destruct (Forall2_lookup_r _ _ _ _ _ Hran Hi) as (e & He & [Hse Hst]).
  destruct Hse as (Hid & _ & _ & _ & Hdep).
  destruct (str_in (effect_id e) _) eqn:Hstr; [destruct Hst; congruence|].
  apply str_in_false in Hstr. apply Hstr, list_elem_of_fmap. exists e. split; [done|].
  apply Hspec. split_and!; [by eapply list_elem_of_lookup_2|congruence|].
  intros d Hd. rewrite <- Hdep in Hd. destruct (Hdeps d Hd) as (f' & Hf' & Hfd & Hfs).
  apply list_elem_of_lookup in Hf' as (j & Hj).
  destruct (Forall2_lookup_r _ _ _ _ _ Hran Hj) as (f & Hf & [(Hfid & _) Hfst]).
  exists f. split_and!; [by eapply list_elem_of_lookup_2|congruence|].
  destruct (str_in (effect_id f) _); [destruct Hfst; congruence|congruence].
Qed.

(** ** Concrete groups *)

Definition ex_group : group := {|
  group_id := "g"; conversation_id := "c";
  effects := [
    {| effect_id := "r"; capability_id := "slack.thread.read"; e_kind := Read;
       summary := "read"; depends_on := []; e_status := awaiting_approval |};
    {| effect_id := "w"; capability_id := "slack.message.send"; e_kind := Write;
       summary := "send"; depends_on := ["r"]; e_status := blocked |}] |}.

(** Approving is not tied to what may be approved: a blocked effect
    accepts an approval before the read it derives from has produced its
    content, and needs no new one afterwards; and an effect already
    dispatched can be approved, and dispatched, again. *)
Theorem approval_ignores_the_status :
  (exists g, apply_all ex_group [("w", "approve"); ("r", "approve"); ("r", "succeeded")]
             = Ok g /\ map effect_id (dispatchable_effects g) = ["w"]) /\
  (exists g, apply_all ex_group [("r", "approve"); ("r", "dispatched"); ("r", "approve")]
             = Ok g /\ map effect_id (dispatchable_effects g) = ["r"]).
Proof. split; eexists; split; vm_compute; reflexivity. Qed.

Lemma ex_group_ids : NoDup (ids ex_group).
Proof. apply (bool_decide_unpack _). vm_compute. exact I. Qed.

Lemma apply_effect_decision_spec_witness :
  match apply_effect_decision ex_group "r" "succeeded" with
  | Err _ => False
  | Ok g' => map e_status (effects g') = [succeeded; awaiting_approval] /\
      exists s, _DECISIONS "succeeded" = Some s
  end.
Proof.
  pose proof (apply_effect_decision_spec ex_group "r" "succeeded" ex_group_ids) as H.
  split; [vm_compute; reflexivity|]. destruct H as (s & Hs & _). exists s. exact Hs.
Defined.

Lemma effects_answer_for_themselves_witness :
  exists g', apply_all ex_group [("r", "approve"); ("r", "succeeded")] = Ok g' /\
  Forall2 (fun e e' => same_effect e e' /\
     own_status [("r", "approve"); ("r", "succeeded")] e e') (effects ex_group) (effects g').
Proof.
  eexists. split; [vm_compute; reflexivity|].
  apply effects_answer_for_themselves; [exact ex_group_ids|vm_compute; reflexivity].
Defined.

Lemma dispatch_approved_effects_once_witness :
  exists g', dispatch_approved_effects (fun _ => true) ex_group
    = Ok (g', map effect_id (dispatchable_effects ex_group)).
Proof.
  destruct (dispatch_approved_effects_once (fun _ => true) ex_group ex_group_ids)
    as (g' & H & _).
  exists g'. exact H.
Defined.

Definition ex_fresh (n : nat) : string := index_str n.
Definition no_entities : resolved_entities := {|
  channel_name := Some "general"; channel_id := Some "C1"; person_display_name := None;
  person_real_name := None; person_id := None |}.

Lemma build_effect_group_spec_witness :
  match build_effect_group ex_fresh "g" no_entities "c"
    [{| operation_id := Some "slack.message.send" |}; {| operation_id := None |};
     {| operation_id := Some "slack.thread.read" |}]
    [{| operation_index := Some 0; depends_on_index := Some 1 |}] with
  | Err _ => False
  | Ok g => map summary (effects g) = ["read #general"; "send #general"] /\ NoDup (ids g)
  end.
Proof.
  assert (Inj (=) (=) ex_fresh) as Hinj by (intros x y H; by apply (inj pretty.pretty) in H).
  pose proof (build_effect_group_spec ex_fresh "g" no_entities "c"
    [{| operation_id := Some "slack.message.send" |}; {| operation_id := None |};
     {| operation_id := Some "slack.thread.read" |}]
    [{| operation_index := Some 0; depends_on_index := Some 1 |}] Hinj) as H.
  split; [vm_compute; reflexivity|]. exact (proj1 (proj2 (proj2 (proj2 H)))).
Defined.
