(* ===== verification/SpendLedger.v ===== *)
(** * The spend ledger

    src/libs/spend_ledger.py: worst-case reservation of spend against the
    account's and the campaign's ceilings before an effect, settlement at the
    actual cost after it, release when it did not happen, and the metering of
    a brand's daily message volume.  Money is kept in whole micros.  Both
    ledgers are modelled over the same tables, the SQLite one ([Sqlite]) and
    the PostgreSQL one ([Postgres], with the CHECK constraints of
    src/migrations/0023_spend.sql).  Times are arguments. *)

From S2P Require Import Prelude PyValue Decimal.
Local Open Scope Z_scope.

(** [_micros(amount)]. *)
Definition _micros (amount : decimal) : result pyexn Z :=
  match dec_mul amount (Fin 1000000 0) with
  | Err e => Err e
  | Ok m => quantize_int m
  end.

Record budget_row := {
  ceiling_micros : Z;
  b_reserved : Z;
  b_settled : Z;
}.

Inductive reservation_status : Type := reserved | settled | released.
Global Instance reservation_status_eq_dec : EqDecision reservation_status.
Proof. solve_decision. Defined.

Record reservation := {
  r_campaign : option string;
  r_channel : string;
  reserved_micros : Z;
  settled_micros : option Z;
  r_status : reservation_status;
  r_created : Z;
  r_updated : Z;
}.

(** (tenant, kind, budget id). *)
Abbreviation budget_key := (string * string * string)%type.
(** (tenant, reservation id). *)
Abbreviation res_key := (string * string)%type.

Record store := {
  budgets : gmap (string * string * string) budget_row;
  reservations : gmap (string * string) reservation;
  volumes : gmap (string * string * string) (Z * Z);
}.

Definition empty_store : store :=
  {| budgets := ∅; reservations := ∅; volumes := ∅ |}.

Inductive spend_error : Type :=
| SpendCeilingExceeded (reason : string)
| Raised (e : pyexn)
| CheckViolation.

Definition op (A : Type) : Type := stm store spend_error A.

(** [[("account", tenant_id)]] and, when there is one, the campaign's. *)
Definition charged_budgets (tenant : string) (campaign : option string)
    : list budget_key :=
  (tenant, "account", tenant) ::
  match campaign with
  | Some c => if truthy c then [(tenant, "campaign", c)] else []
  | None => []
  end.

Arguments charged_budgets : simpl never.

Definition kind_of (k : budget_key) : string := k.1.2.

(** [update ... set reserved_micros = reserved_micros + dr, settled_micros =
    settled_micros + ds where key]. *)
Definition charge (dr ds : Z) (b : budget_row) : budget_row :=
  {| ceiling_micros := ceiling_micros b; b_reserved := b_reserved b + dr;
     b_settled := b_settled b + ds |}.
Definition charge_all (dr ds : Z) (ks : list budget_key)
    (bs : gmap (string * string * string) budget_row) :=
  foldl (fun m k => alter (charge dr ds) k m) bs ks.

Arguments charge_all : simpl never.

Definition with_budgets (s : store) bs : store :=
  {| budgets := bs; reservations := reservations s; volumes := volumes s |}.
Definition with_reservations (s : store) rs : store :=
  {| budgets := budgets s; reservations := rs; volumes := volumes s |}.
Definition with_volumes (s : store) vs : store :=
  {| budgets := budgets s; reservations := reservations s; volumes := vs |}.

Definition new_reservation (campaign : option string) (channel : string)
    (amount now : Z) : reservation := {|
  r_campaign := campaign; r_channel := channel; reserved_micros := amount;
  settled_micros := None; r_status := reserved; r_created := now; r_updated := now |}.

Definition set_settled (r : reservation) (actual now : Z) : reservation := {|
  r_campaign := r_campaign r; r_channel := r_channel r;
  reserved_micros := reserved_micros r; settled_micros := Some actual;
  r_status := settled; r_created := r_created r; r_updated := now |}.

Definition set_released (r : reservation) (now : Z) : reservation := {|
  r_campaign := r_campaign r; r_channel := r_channel r;
  reserved_micros := reserved_micros r; settled_micros := settled_micros r;
  r_status := released; r_created := r_created r; r_updated := now |}.

(** [insert ... on conflict do update set ceiling_micros]. *)
Definition upsert_ceiling (k : budget_key) (micros : Z)
    (bs : gmap (string * string * string) budget_row) :=
  <[k := match bs !! k with
         | Some b => {| ceiling_micros := micros; b_reserved := b_reserved b;
                        b_settled := b_settled b |}
         | None => {| ceiling_micros := micros; b_reserved := 0; b_settled := 0 |}
         end]> bs.

Definition get (s : store) (k : res_key) : option reservation := reservations s !! k.
Definition budget (s : store) (k : budget_key) : option budget_row := budgets s !! k.

Definition lift {A} (r : result pyexn A) : op A :=
  match r with Ok a => stm_ret a | Err e => stm_raise (Raised e) end.

Definition available (b : budget_row) : Z :=
  ceiling_micros b - b_reserved b - b_settled b.

Module Sqlite.
Local Open Scope stm_scope.

Definition set_ceiling (k : budget_key) (amount : decimal) : op unit :=
  micros <~ lift (_micros amount) ;;
  stm_modify (fun s => with_budgets s (upsert_ceiling k micros (budgets s))).

(** The check of one budget in the first loop of [reserve]. *)
Definition check_budget (s : store) (amount : Z) (k : budget_key)
    : result spend_error unit :=
  match budgets s !! k with
  | None => Err (SpendCeilingExceeded (kind_of k +:+ "_budget_unavailable"))
  | Some b =>
      if available b <? amount
      then Err (SpendCeilingExceeded (kind_of k +:+ "_ceiling_exhausted"))
      else Ok tt
  end.

Fixpoint check_budgets (s : store) (amount : Z) (ks : list budget_key)
    : result spend_error unit :=
  match ks with
  | [] => Ok tt
  | k :: ks' => match check_budget s amount k with
                | Err e => Err e
                | Ok _ => check_budgets s amount ks'
                end
  end.

Definition reserve (k : res_key) (channel : string) (estimate : decimal)
    (campaign : option string) (now : Z) : op (option reservation) :=
  amount <~ lift (_micros estimate) ;;
  transaction (fun s =>
    match reservations s !! k with
    | Some prior =>
        if negb (reserved_micros prior =? amount) then (s, Err (Raised ValueError))
        else (s, Ok (Some prior))
    | None =>
        let ks := charged_budgets k.1 campaign in
        match check_budgets s amount ks with
        | Err e => (s, Err e)
        | Ok _ =>
            let s1 := with_budgets s (charge_all amount 0 ks (budgets s)) in
            let s2 := with_reservations s1
                        (<[k := new_reservation campaign channel amount now]>
                           (reservations s1)) in
            (s2, Ok (get s2 k))
        end
    end).

Definition settle (k : res_key) (actual : decimal) (now : Z)
    : op (option reservation) :=
  actual_micros <~ lift (_micros actual) ;;
  transaction (fun s =>
    match reservations s !! k with
    | None => (s, Err (Raised LookupError))
    | Some row =>
        match r_status row with
        | settled => (s, Ok (Some row))
        | released => (s, Err (Raised ValueError))
        | reserved =>
            let ks := charged_budgets k.1 (r_campaign row) in
            let s1 := with_budgets s
                        (charge_all (- reserved_micros row) actual_micros ks (budgets s)) in
            let s2 := with_reservations s1
                        (<[k := set_settled row actual_micros now]> (reservations s1)) in
            (s2, Ok (get s2 k))
        end
    end).

Definition release (k : res_key) (now : Z) : op bool := fun s =>
  match reservations s !! k with
  | None => (s, Ok false)
  | Some row =>
      match r_status row with
      | reserved =>
          transaction (fun s =>
            let ks := charged_budgets k.1 (r_campaign row) in
            let s1 := with_budgets s
                        (charge_all (- reserved_micros row) 0 ks (budgets s)) in
            (with_reservations s1 (<[k := set_released row now]> (reservations s1)),
             Ok true)) s
      | _ => (s, Ok false)
      end
  end.

(** [meter_brand_volume(tenant, brand, day, ceiling, units)]. *)
Definition meter_brand_volume (k : budget_key) (ceiling units : Z) : op Z :=
  transaction (fun s =>
    let row := volumes s !! k in
    let current := match row with Some (v, _) => v | None => 0 end in
    let effective := match row with Some (_, c) => Z.min ceiling c | None => ceiling end in
    if effective <? current + units
    then (s, Err (SpendCeilingExceeded "brand_daily_volume_exhausted"))
    else (with_volumes s (<[k := (current + units, effective)]> (volumes s)),
          Ok (current + units))).
End Sqlite.

Module Postgres.
Local Open Scope stm_scope.

(** The CHECK constraints of [billing.spend_budgets]. *)
Definition row_ok (b : budget_row) : bool :=
  (0 <=? ceiling_micros b) && (0 <=? b_reserved b) && (0 <=? b_settled b).
Definition kind_ok (k : budget_key) : bool := str_in (kind_of k) ["account"; "campaign"].

(** One [update] of a budget, with the row checked afterwards. *)
Definition charge_one (dr ds : Z) (k : budget_key)
    (bs : gmap (string * string * string) budget_row) : result spend_error _ :=
  match bs !! k with
  | None => Ok bs
  | Some b => if row_ok (charge dr ds b) then Ok (<[k := charge dr ds b]> bs)
              else Err CheckViolation
  end.

Fixpoint charge_each (dr ds : Z) (ks : list budget_key)
    (bs : gmap (string * string * string) budget_row) : result spend_error _ :=
  match ks with
  | [] => Ok bs
  | k :: ks' => match charge_one dr ds k bs with
                | Err e => Err e
                | Ok bs' => charge_each dr ds ks' bs'
                end
  end.

Definition set_ceiling (k : budget_key) (amount : decimal) : op unit :=
  transaction (
    micros <~ lift (_micros amount) ;;
    (fun s =>
       if kind_ok k && (0 <=? micros)
       then (with_budgets s (upsert_ceiling k micros (budgets s)), Ok tt)
       else (s, Err CheckViolation))).

(** The [select ... for update] loop, over the budgets in sorted order, which
    is the order of [charged_budgets] ("account" < "campaign"). *)
Fixpoint lock_budgets (s : store) (ks : list budget_key)
    : result spend_error (list (budget_key * budget_row)) :=
  match ks with
  | [] => Ok []
  | k :: ks' =>
      match budgets s !! k with
      | None => Err (SpendCeilingExceeded (kind_of k +:+ "_budget_unavailable"))
      | Some b =>
          match lock_budgets s ks' with
          | Err e => Err e
          | Ok l => Ok ((k, b) :: l)
          end
      end
  end.

Fixpoint check_locked (amount : Z) (l : list (budget_key * budget_row))
    : result spend_error unit :=
  match l with
  | [] => Ok tt
  | (k, b) :: l' =>
      if available b <? amount
      then Err (SpendCeilingExceeded (kind_of k +:+ "_ceiling_exhausted"))
      else check_locked amount l'
  end.

Definition reserve (k : res_key) (channel : string) (estimate : decimal)
    (campaign : option string) (now : Z) : op (option reservation) :=
  amount <~ lift (_micros estimate) ;;
  transaction (fun s =>
    match reservations s !! k with
    | Some prior =>
        if negb (reserved_micros prior =? amount) then (s, Err (Raised ValueError))
        else (s, Ok (Some prior))
    | None =>
        let ks := charged_budgets k.1 campaign in
        match lock_budgets s ks with
        | Err e => (s, Err e)
        | Ok locked =>
            match check_locked amount locked with
            | Err e => (s, Err e)
            | Ok _ =>
                match charge_each amount 0 ks (budgets s) with
                | Err e => (s, Err e)
                | Ok bs =>
                    let row := new_reservation campaign channel amount now in
                    if 0 <=? amount
                    then (with_reservations (with_budgets s bs)
                            (<[k := row]> (reservations s)), Ok (Some row))
                    else (s, Err CheckViolation)
                end
            end
        end
    end).

Definition settle (k : res_key) (actual : decimal) (now : Z)
    : op (option reservation) :=
  actual_micros <~ lift (_micros actual) ;;
  transaction (fun s =>
    match reservations s !! k with
    | None => (s, Err (Raised LookupError))
    | Some row =>
        match r_status row with
        | settled => (s, Ok (Some row))
        | released => (s, Err (Raised ValueError))
        | reserved =>
            let ks := charged_budgets k.1 (r_campaign row) in
            match charge_each (- reserved_micros row) actual_micros ks (budgets s) with
            | Err e => (s, Err e)
            | Ok bs =>
                let row' := set_settled row actual_micros now in
                (with_reservations (with_budgets s bs) (<[k := row']> (reservations s)),
                 Ok (Some row'))
            end
        end
    end).

Definition release (k : res_key) (now : Z) : op bool := transaction (fun s =>
  match reservations s !! k with
  | None => (s, Ok false)
  | Some row =>
      match r_status row with
      | reserved =>
          let ks := charged_budgets k.1 (r_campaign row) in
          match charge_each (- reserved_micros row) 0 ks (budgets s) with
          | Err e => (s, Err e)
          | Ok bs =>
              (with_reservations (with_budgets s bs)
                 (<[k := set_released row now]> (reservations s)), Ok true)
          end
      | _ => (s, Ok false)
      end
  end).

Definition meter_brand_volume (k : budget_key) (ceiling units : Z) : op Z :=
  transaction (fun s =>
    let row := volumes s !! k in
    let current := match row with Some (v, _) => v | None => 0 end in
    let effective := match row with Some (_, c) => Z.min ceiling c | None => ceiling end in
    if effective <? current + units
    then (s, Err (SpendCeilingExceeded "brand_daily_volume_exhausted"))
    else if (0 <=? current + units) && (0 <=? effective)
    then (with_volumes s (<[k := (current + units, effective)]> (volumes s)),
          Ok (current + units))
    else (s, Err CheckViolation)).
End Postgres.

(** ** Estimates *)

(** [len(body)]: the code points of UTF-8 text are its bytes that are not
    continuation bytes. *)
Fixpoint code_points (s : string) : Z :=
  match s with
  | "" => 0
  | String c s' =>
      (if N.leb 128 (ord c) && N.ltb (ord c) 192 then 0 else 1) + code_points s'
  end.

Definition is_ascii (s : string) : bool := str_forallb (fun c => N.ltb (ord c) 128) s.

Definition sms_segments (body : string) : Z :=
  let '(single, multipart) := if is_ascii body then (160, 153) else (70, 67) in
  let length := code_points body in
  if length <=? single then 1 else (length + multipart - 1) / multipart.

Definition estimate_sms_cost (body : string) (per_segment : decimal)
    : result pyexn decimal :=
  dec_mul per_segment (Fin (sms_segments body) 0).

(** ** The two ledgers behind one interface *)

Inductive call : Type :=
| SetCeiling (k : budget_key) (amount : decimal)
| Reserve (k : res_key) (channel : string) (estimate : decimal)
    (campaign : option string) (now : Z)
| Settle (k : res_key) (actual : decimal) (now : Z)
| Release (k : res_key) (now : Z)
| Meter (k : budget_key) (ceiling units : Z).

Inductive answer : Type :=
| ANone
| AReservation (r : option reservation)
| ABool (b : bool)
| AInt (n : Z).

Class Ledger := {
  set_ceiling : budget_key -> decimal -> op unit;
  reserve : res_key -> string -> decimal -> option string -> Z -> op (option reservation);
  settle : res_key -> decimal -> Z -> op (option reservation);
  release : res_key -> Z -> op bool;
  meter : budget_key -> Z -> Z -> op Z;
}.

Definition exec (L : Ledger) (c : call) : op answer :=
  match c with
  | SetCeiling k a => stm_bind (set_ceiling k a) (fun _ => stm_ret ANone)
  | Reserve k ch e camp now => stm_bind (reserve k ch e camp now) (fun r => stm_ret (AReservation r))
  | Settle k a now => stm_bind (settle k a now) (fun r => stm_ret (AReservation r))
  | Release k now => stm_bind (release k now) (fun b => stm_ret (ABool b))
  | Meter k c u => stm_bind (meter k c u) (fun n => stm_ret (AInt n))
  end.

Global Instance sqlite : Ledger := {|
  set_ceiling := Sqlite.set_ceiling; reserve := Sqlite.reserve;
  settle := Sqlite.settle; release := Sqlite.release;
  meter := Sqlite.meter_brand_volume |}.
Definition postgres : Ledger := {|
  set_ceiling := Postgres.set_ceiling; reserve := Postgres.reserve;
  settle := Postgres.settle; release := Postgres.release;
  meter := Postgres.meter_brand_volume |}.

Definition run (L : Ledger) (cs : list call) (s : store) : store :=
  foldl (fun s c => (exec L c s).1) s cs.

(** ** Lemmas on charges *)

Lemma charged_nodup tenant campaign : NoDup (charged_budgets tenant campaign).
Proof.
  unfold charged_budgets. destruct campaign as [c|]; [destruct (truthy c)|];
    repeat constructor; set_solver.
Qed.

Lemma charge_all_lookup dr ds ks bs k :
  NoDup ks ->
  charge_all dr ds ks bs !! k =
  if decide (k ∈ ks) then charge dr ds <$> bs !! k else bs !! k.
Proof.
  unfold charge_all. revert bs; induction ks as [|j ks IH]; intros bs; simpl; [done|].
  intros [Hj Hn]%NoDup_cons. rewrite IH by done.
  destruct (decide (j = k)) as [->|Hne].
  - rewrite decide_False, decide_True by set_solver. apply lookup_alter_eq.
  - rewrite lookup_alter_ne by done.
    destruct (decide (k ∈ ks)); [rewrite decide_True by set_solver|
      rewrite decide_False by set_solver]; done.
Qed.

Lemma check_budgets_ok s amount ks u :
  Sqlite.check_budgets s amount ks = Ok u <->
  forall k, k ∈ ks -> exists b, budgets s !! k = Some b /\ amount <= available b.
Proof.
  destruct u. induction ks as [|k ks IH]; simpl; [split; [set_solver|done]|].
  unfold Sqlite.check_budget. destruct (budgets s !! k) as [b|] eqn:E.
  2: { split; [done|]. intros H. destruct (H k) as (? & ? & _); [left|]. congruence. }
  destruct (Z.ltb_spec (available b) amount) as [Hlt|Hle].
  - split; [done|]. intros H. destruct (H k) as (b' & Hb & ?); [left|].
    rewrite E in Hb. injection Hb as <-. lia.
  - rewrite IH. split.
    + intros H j [->|Hj]%elem_of_cons; [by exists b|by apply H].
    + intros H j Hj. apply H. by right.
Qed.

(** The PostgreSQL statements agree with the plain updates unless a CHECK
    constraint fails. *)
Lemma charge_each_ok dr ds ks bs bs' :
  Postgres.charge_each dr ds ks bs = Ok bs' -> bs' = charge_all dr ds ks bs.
Proof.
  revert bs; induction ks as [|k ks IH]; intros bs; simpl; [by intros [= ->]|].
  unfold Postgres.charge_one, charge_all. simpl. destruct (bs !! k) as [b|] eqn:E.
  - destruct (Postgres.row_ok _); [|done]. intros ->%IH. unfold charge_all. f_equal.
    apply map_eq. intros j. destruct (decide (j = k)) as [->|].
    + by rewrite lookup_insert_eq, lookup_alter_eq, E.
    + by rewrite lookup_insert_ne, lookup_alter_ne.
  - intros ->%IH. unfold charge_all. f_equal. apply map_eq. intros j.
    destruct (decide (j = k)) as [->|].
    + by rewrite lookup_alter_eq, E.
    + by rewrite lookup_alter_ne.
Qed.

Lemma charge_each_err dr ds ks bs e :
  Postgres.charge_each dr ds ks bs = Err e -> e = CheckViolation.
Proof.
  revert bs; induction ks as [|k ks IH]; intros bs; simpl; [done|].
  unfold Postgres.charge_one. repeat case_match; naive_solver.
Qed.

Lemma lock_budgets_check s amount ks :
  match Postgres.lock_budgets s ks with
  | Err e => exists e', Sqlite.check_budgets s amount ks = Err e'
  | Ok l =>
      match Postgres.check_locked amount l with
      | Ok _ => Sqlite.check_budgets s amount ks = Ok tt
      | Err e => exists e', Sqlite.check_budgets s amount ks = Err e'
      end
  end.
Proof.
  induction ks as [|k ks IH]; simpl; [done|].
  unfold Sqlite.check_budget. destruct (budgets s !! k) as [b|] eqn:E; [|eauto].
  destruct (Postgres.lock_budgets s ks) as [l|e]; simpl.
  - destruct (available b <? amount); [eauto|]. exact IH.
  - destruct IH as [e' ->]. destruct (available b <? amount); eauto.
Qed.

Lemma pg_call c s :
  match exec postgres c s with
  | (s', Ok a) => exec sqlite c s = (s', Ok a)
  | (s', Err e) =>
      s' = s /\ (e = CheckViolation \/ exists e', exec sqlite c s = (s, Err e'))
  end.
Proof.
  destruct c as [k a|k ch est camp now|k a now|k now|k c u];
    cbn [exec set_ceiling reserve settle release meter postgres sqlite].
  - unfold Postgres.set_ceiling, Sqlite.set_ceiling, transaction, stm_bind, stm_modify.
    destruct (_micros a) as [m|e]; cbn [lift]; unfold stm_ret, stm_raise; [|eauto].
    destruct (Postgres.kind_ok k && _); eauto.
  - unfold Postgres.reserve, Sqlite.reserve, transaction, stm_bind.
    destruct (_micros est) as [m|e]; cbn [lift]; unfold stm_ret, stm_raise; [|eauto].
    destruct (reservations s !! k) as [r|]; [destruct (negb _); eauto|].
    pose proof (lock_budgets_check s m (charged_budgets k.1 camp)) as H.
    destruct (Postgres.lock_budgets _ _) as [l|e].
    + destruct (Postgres.check_locked _ _) as [[]|e].
      * rewrite H. destruct (Postgres.charge_each _ _ _ _) as [bs|e] eqn:Ec.
        -- apply charge_each_ok in Ec as ->. destruct (0 <=? m); [|eauto].
           unfold get. simpl. by rewrite lookup_insert_eq.
        -- apply charge_each_err in Ec. eauto.
      * destruct H as [e' ->]. eauto.
    + destruct H as [e' ->]. eauto.
  - unfold Postgres.settle, Sqlite.settle, transaction, stm_bind.
    destruct (_micros a) as [m|e]; cbn [lift]; unfold stm_ret, stm_raise; [|eauto].
    destruct (reservations s !! k) as [r|]; [|eauto].
    destruct (r_status r); [|eauto..].
    destruct (Postgres.charge_each _ _ _ _) as [bs|e] eqn:Ec.
    + apply charge_each_ok in Ec as ->. unfold get. simpl. by rewrite lookup_insert_eq.
    + apply charge_each_err in Ec. eauto.
  - unfold Postgres.release, Sqlite.release, transaction, stm_bind, stm_ret.
    destruct (reservations s !! k) as [r|]; [|eauto].
    destruct (r_status r); [|eauto..].
    destruct (Postgres.charge_each _ _ _ _) as [bs|e] eqn:Ec.
    + by apply charge_each_ok in Ec as ->.
    + apply charge_each_err in Ec. eauto.
  - unfold Postgres.meter_brand_volume, Sqlite.meter_brand_volume,
      transaction, stm_bind, stm_ret.
    destruct (_ <? _); [eauto|]. destruct (_ && _); eauto.
Qed.

(** ** The accounts balance *)

Definition res_sum (f : res_key -> reservation -> Z)
    (rs : gmap (string * string) reservation) : Z :=
  map_fold (fun k r acc => f k r + acc) 0 rs.

Section sums.
Variable f : res_key -> reservation -> Z.

Lemma res_sum_insert_new k r rs :
  rs !! k = None -> res_sum f (<[k := r]> rs) = f k r + res_sum f rs.
Proof.
  intros H. unfold res_sum. rewrite map_fold_insert_L; [done| |done].
  intros. lia.
Qed.

Lemma res_sum_update k r r' rs :
  rs !! k = Some r -> res_sum f (<[k := r']> rs) = res_sum f rs - f k r + f k r'.
Proof.
  intros H. rewrite <- (insert_delete_id rs k r H) at 2.
  rewrite <- insert_delete_eq.
  rewrite !res_sum_insert_new by apply lookup_delete_eq. lia.
Qed.

Lemma res_sum_zero rs :
  (forall k r, rs !! k = Some r -> f k r = 0) -> res_sum f rs = 0.
Proof.
  induction rs as [|k r rs Hk IH] using map_ind; [done|]. intros H.
  rewrite res_sum_insert_new by done. rewrite IH, (H k r); [done|apply lookup_insert_eq|].
  intros j x Hj. apply H. rewrite lookup_insert_ne; [done|]. intros ->. congruence.
Qed.
End sums.

(** What a reservation still holds of a budget, and what it has cost it. *)
Definition held (key : budget_key) (k : res_key) (r : reservation) : Z :=
  if decide (key ∈ charged_budgets k.1 (r_campaign r)) then
    match r_status r with reserved => reserved_micros r | _ => 0 end
  else 0.
Definition paid (key : budget_key) (k : res_key) (r : reservation) : Z :=
  if decide (key ∈ charged_budgets k.1 (r_campaign r)) then
    match r_status r with settled => default 0 (settled_micros r) | _ => 0 end
  else 0.

Record balanced (s : store) : Prop := {
  bal_budget : forall key b, budgets s !! key = Some b ->
    b_reserved b = res_sum (held key) (reservations s) /\
    b_settled b = res_sum (paid key) (reservations s);
  bal_exists : forall k r key, reservations s !! k = Some r ->
    key ∈ charged_budgets k.1 (r_campaign r) -> is_Some (budgets s !! key);
}.

Lemma balanced_empty : balanced empty_store.
Proof. split; simpl; intros *; rewrite lookup_empty; done. Qed.

(** Charging the budgets of one reservation while its row changes. *)
Lemma balanced_charge s k r r' dr ds :
  balanced s -> reservations s !! k = Some r -> r_campaign r' = r_campaign r ->
  (forall key, key ∈ charged_budgets k.1 (r_campaign r) ->
     held key k r' = held key k r + dr /\ paid key k r' = paid key k r + ds) ->
  balanced (with_reservations
    (with_budgets s (charge_all dr ds (charged_budgets k.1 (r_campaign r)) (budgets s)))
    (<[k := r']> (reservations s))).
Proof.
  intros [Hb He] Hr Hc Hw. split; simpl.
  - intros key b. rewrite charge_all_lookup by apply charged_nodup.
    rewrite !(res_sum_update _ k r) by done. case_decide as Hin.
    + intros (b0 & Hb0 & ->)%fmap_Some. destruct (Hb _ _ Hb0) as [H1 H2].
      destruct (Hw key Hin) as [-> ->]. simpl. lia.
    + intros Hb0. destruct (Hb _ _ Hb0) as [-> ->].
      assert (forall x, r_campaign x = r_campaign r -> held key k x = 0 /\ paid key k x = 0) as Hz.
      { intros x Hx. unfold held, paid. by rewrite Hx, !decide_False. }
      destruct (Hz r eq_refl) as [-> ->], (Hz r' Hc) as [-> ->]. lia.
  - intros j x key Hj Hin. rewrite charge_all_lookup by apply charged_nodup.
    assert (is_Some (budgets s !! key)) as [b Hb'].
    { apply lookup_insert_Some in Hj as [[<- <-]|[_ Hj]]; [|by eapply He].
      rewrite Hc in Hin. by eapply He. }
    rewrite Hb'. case_decide; by eexists.
Qed.

Lemma balanced_reserve s k camp ch amount now :
  balanced s -> reservations s !! k = None ->
  (forall key, key ∈ charged_budgets k.1 camp -> is_Some (budgets s !! key)) ->
  balanced (with_reservations
    (with_budgets s (charge_all amount 0 (charged_budgets k.1 camp) (budgets s)))
    (<[k := new_reservation camp ch amount now]> (reservations s))).
Proof.
  intros [Hb He] Hr Hex. split; simpl.
  - intros key b. rewrite charge_all_lookup by apply charged_nodup.
    rewrite !res_sum_insert_new by done.
    unfold held at 1, paid at 1. cbn [new_reservation r_campaign r_status reserved_micros].
    case_decide.
    + intros (b0 & Hb0 & ->)%fmap_Some. destruct (Hb _ _ Hb0) as [H1 H2]. simpl. lia.
    + intros Hb0. destruct (Hb _ _ Hb0) as [H1 H2]. lia.
  - intros j x key Hj Hin. rewrite charge_all_lookup by apply charged_nodup.
    assert (is_Some (budgets s !! key)) as [b Hb'].
    { apply lookup_insert_Some in Hj as [[<- <-]|[_ Hj]]; [by apply Hex|by eapply He]. }
    rewrite Hb'. case_decide; by eexists.
Qed.

Lemma balanced_ceiling s k m :
  balanced s -> balanced (with_budgets s (upsert_ceiling k m (budgets s))).
Proof.
  intros [Hb He]. unfold upsert_ceiling. split; simpl.
  - intros key b [[<- <-]|[_ Hk]]%lookup_insert_Some; [|by apply Hb].
    destruct (budgets s !! k) as [b0|] eqn:E; simpl; [by apply Hb|].
    rewrite !res_sum_zero; [done| |]; intros j r Hj; unfold held, paid; case_decide; try done;
      destruct (He _ _ _ Hj ltac:(done)); congruence.
  - intros j x key Hj Hin. destruct (decide (k = key)) as [->|].
    + rewrite lookup_insert_eq. by eexists.
    + rewrite lookup_insert_ne by done. by eapply He.
Qed.

Lemma balanced_same s s' :
  budgets s' = budgets s -> reservations s' = reservations s -> balanced s -> balanced s'.
Proof. intros H1 H2 [? ?]. split; rewrite H1, ?H2; done. Qed.

(** ** Effects of one call

    Every successful call of the SQLite ledger is one of these changes. *)
Inductive effect (s : store) : call -> store -> Prop :=
| eff_none c : effect s c s
| eff_ceiling k a m :
    _micros a = Ok m ->
    effect s (SetCeiling k a) (with_budgets s (upsert_ceiling k m (budgets s)))
| eff_reserve k camp ch e amount now :
    _micros e = Ok amount ->
    reservations s !! k = None ->
    (forall key, key ∈ charged_budgets k.1 camp ->
       exists b, budgets s !! key = Some b /\ amount <= available b) ->
    effect s (Reserve k ch e camp now) (with_reservations
      (with_budgets s (charge_all amount 0 (charged_budgets k.1 camp) (budgets s)))
      (<[k := new_reservation camp ch amount now]> (reservations s)))
| eff_settle k r a actual now :
    _micros a = Ok actual ->
    reservations s !! k = Some r -> r_status r = reserved ->
    effect s (Settle k a now) (with_reservations
      (with_budgets s (charge_all (- reserved_micros r) actual
                         (charged_budgets k.1 (r_campaign r)) (budgets s)))
      (<[k := set_settled r actual now]> (reservations s)))
| eff_release k r now :
    reservations s !! k = Some r -> r_status r = reserved ->
    effect s (Release k now) (with_reservations
      (with_budgets s (charge_all (- reserved_micros r) 0
                         (charged_budgets k.1 (r_campaign r)) (budgets s)))
      (<[k := set_released r now]> (reservations s)))
| eff_volume k c u vs : effect s (Meter k c u) (with_volumes s vs).

Lemma effect_balanced s c s' : balanced s -> effect s c s' -> balanced s'.
Proof.
  intros Hs He. destruct He as [c|k a m Ha|k camp ch e am now Ha Hn Hav
    |k r a am now Ha Hr Hst|k r now Hr Hst|k c u vs].
  - done.
  - by apply balanced_ceiling.
  - apply balanced_reserve; [done..|]. intros key (b & Hb & _)%Hav. by eexists.
  - apply balanced_charge; [done..|]. intros key Hin. unfold held, paid. simpl.
    rewrite !decide_True, Hst by done. lia.
  - apply balanced_charge; [done..|]. intros key Hin. unfold held, paid. simpl.
    rewrite !decide_True, Hst by done. lia.
  - by apply (balanced_same s).
Qed.

Lemma exec_effect c s : effect s c (exec sqlite c s).1.
Proof.
  destruct c as [k a|k ch est camp now|k a now|k now|k c u];
    cbn [exec set_ceiling reserve settle release meter sqlite].
  - unfold Sqlite.set_ceiling, stm_bind, stm_modify, stm_ret.
    destruct (_micros a) eqn:Ha; cbn [lift]; [by apply eff_ceiling|apply eff_none].
  - unfold Sqlite.reserve, transaction, stm_bind, stm_ret.
    destruct (_micros est) as [m|e] eqn:Ha; cbn [lift]; [|apply eff_none].
    unfold stm_ret. destruct (reservations s !! k) as [r|] eqn:Hk.
    { destruct (negb _); apply eff_none. }
    destruct (Sqlite.check_budgets _ _ _) as [u|e] eqn:Hc; [|apply eff_none].
    simpl. apply eff_reserve; [done..|]. by eapply check_budgets_ok.
  - unfold Sqlite.settle, transaction, stm_bind, stm_ret.
    destruct (_micros a) as [m|e] eqn:Ha; cbn [lift]; [|apply eff_none].
    unfold stm_ret. destruct (reservations s !! k) as [r|] eqn:Hk; [|apply eff_none].
    destruct (r_status r) eqn:Hs; [|apply eff_none..]. simpl. by apply eff_settle.
  - unfold Sqlite.release, transaction, stm_bind, stm_ret.
    destruct (reservations s !! k) as [r|] eqn:Hk; [|apply eff_none].
    destruct (r_status r) eqn:Hs; [|apply eff_none..]. simpl. by apply eff_release.
  - unfold Sqlite.meter_brand_volume, transaction, stm_bind, stm_ret.
    destruct (_ <? _); [apply eff_none|]. simpl. apply eff_volume.
Qed.

(** A ledger behaves like the SQLite one or changes nothing. *)
Class Refines (L : Ledger) : Prop :=
  refines c s : (exec L c s).1 = s \/ (exec L c s).1 = (exec sqlite c s).1.

Global Instance sqlite_refines : Refines sqlite.
Proof. intros c s. by right. Qed.

(** The PostgreSQL ledger refines the SQLite ledger: every call it
    accepts gives the same answer and the same tables, and every call it
    refuses changes nothing and is refused by the SQLite ledger too (though
    not always with the same reason), unless a CHECK constraint refused
    it. *)
Theorem postgres_refines_sqlite c s :
  match exec postgres c s with
  | (s', Ok a) => exec sqlite c s = (s', Ok a)
  | (s', Err e) =>
      s' = s /\ (e = CheckViolation \/ exists e', exec sqlite c s = (s, Err e'))
  end.
Proof. apply pg_call. Qed.

Global Instance postgres_refines : Refines postgres.
Proof.
  intros c s. pose proof (pg_call c s) as H.
  destruct (exec postgres c s) as [s' [a|e]]; [right|left]; simpl; [by rewrite H|].
  by destruct H.
Qed.

Lemma run_snoc L cs c s : run L (cs ++ [c]) s = (exec L c (run L cs s)).1.
Proof. unfold run. by rewrite foldl_app. Qed.

Lemma run_balanced L `{!Refines L} cs : balanced (run L cs empty_store).
Proof.
  induction cs as [|c cs IH] using rev_ind; [exact balanced_empty|].
  rewrite run_snoc. destruct (refines c (run L cs empty_store)) as [-> | ->]; [done|].
  eapply effect_balanced; [exact IH|apply exec_effect].
Qed.

(** The books always balance, in both ledgers: after any sequence of
    calls, whatever they were and whether they were accepted, what a budget
    has reserved is the sum of the reservations still held against it, what
    it has settled is the sum of the actual costs of the settled ones, and
    every budget a reservation was charged to exists. *)
Theorem books_balance L `{!Refines L} cs s :
  s = run L cs empty_store ->
  (forall key b, budgets s !! key = Some b ->
     b_reserved b = res_sum (held key) (reservations s) /\
     b_settled b = res_sum (paid key) (reservations s)) /\
  (forall k r key, reservations s !! k = Some r ->
     key ∈ charged_budgets k.1 (r_campaign r) -> is_Some (budgets s !! key)).
Proof. intros ->. destruct (run_balanced L cs) as [H1 H2]. by split. Qed.

(** ** No overspend *)

(** A call that plays by the rules: no negative estimate, no settlement above
    its reservation, no ceiling set below what is already committed. *)
Definition fair (s : store) (c : call) : Prop :=
  match c with
  | SetCeiling k a => forall m, _micros a = Ok m ->
      match budgets s !! k with Some b => b_reserved b + b_settled b | None => 0 end <= m
  | Reserve _ _ e _ _ => forall m, _micros e = Ok m -> 0 <= m
  | Settle k a _ => forall m r, _micros a = Ok m -> reservations s !! k = Some r ->
      m <= reserved_micros r
  | Release _ _ | Meter _ _ _ => True
  end.

Fixpoint fair_run (L : Ledger) (s : store) (cs : list call) : Prop :=
  match cs with
  | [] => True
  | c :: cs' => fair s c /\ fair_run L (exec L c s).1 cs'
  end.

Record solvent (s : store) : Prop := {
  sol_budget : forall key b, budgets s !! key = Some b ->
    b_reserved b + b_settled b <= ceiling_micros b;
  sol_amount : forall k r, reservations s !! k = Some r -> 0 <= reserved_micros r;
}.

Lemma effect_solvent s c s' : solvent s -> fair s c -> effect s c s' -> solvent s'.
Proof.
  intros [Hb Hr0] Hf He. destruct He as [c|k a m Ha|k camp ch e am now Ha Hn Hav
    |k r a am now Ha Hr Hst|k r now Hr Hst|k c u vs]; split; simpl in *; try done.
  - intros key b. unfold upsert_ceiling. specialize (Hf m Ha).
    intros [[<- <-]|[_ Hk]]%lookup_insert_Some; [|by apply (Hb key)].
    destruct (budgets s !! k); simpl; lia.
  - intros key b. rewrite charge_all_lookup by apply charged_nodup. case_decide as Hin.
    + destruct (Hav key Hin) as (b0 & -> & Hle). intros [= <-].
      specialize (Hb key). unfold available in Hle. simpl. lia.
    + apply Hb.
  - intros j x [[<- <-]|[_ Hj]]%lookup_insert_Some; [by apply Hf|by eapply Hr0].
  - intros key b. rewrite charge_all_lookup by apply charged_nodup.
    specialize (Hf _ _ Ha Hr). case_decide; [|apply Hb].
    intros (b0 & Hb0 & ->)%fmap_Some. apply Hb in Hb0. simpl. lia.
  - intros j x [[<- <-]|[_ Hj]]%lookup_insert_Some; [by eapply (Hr0 k r)|by eapply Hr0].
  - intros key b. rewrite charge_all_lookup by apply charged_nodup.
    specialize (Hr0 _ _ Hr). case_decide; [|apply Hb].
    intros (b0 & Hb0 & ->)%fmap_Some. apply Hb in Hb0. simpl. lia.
  - intros j x [[<- <-]|[_ Hj]]%lookup_insert_Some; [by eapply (Hr0 k r)|by eapply Hr0].
Qed.

Lemma solvent_empty : solvent empty_store.
Proof. split; simpl; intros *; rewrite lookup_empty; done. Qed.

(** C35. No overspend, in both ledgers: as long as estimates are not
    negative, settlements do not exceed their reservations and no ceiling is
    set below what is already committed, no budget ever has more reserved and
    settled than its ceiling, whatever is reserved concurrently against the
    account and its campaigns. *)
Theorem no_overspend L `{!Refines L} cs key b :
  fair_run L empty_store cs ->
  budgets (run L cs empty_store) !! key = Some b ->
  b_reserved b + b_settled b <= ceiling_micros b.
Proof.
  intros Hf. apply (sol_budget (run L cs empty_store)). revert Hf. unfold run. generalize solvent_empty.
  generalize empty_store. induction cs as [|c cs IH]; simpl; [done|].
  intros s Hs [Hc Hf]. apply IH; [|done].
  destruct (refines c s) as [-> | ->]; [done|].
  eapply effect_solvent; [exact Hs|exact Hc|apply exec_effect].
Qed.

(** Repeating a call is harmless.  After a reservation was made, making
    it again with the same estimate, by either ledger and with whatever
    channel and campaign, returns the same row and changes nothing, and with
    another estimate is refused; a settled reservation keeps its first actual
    cost and cannot be released; a released one can neither be settled nor
    released again. *)
Theorem spend_replay s k row ch e camp now :
  reservations s !! k = Some row ->
  (forall m, _micros e = Ok m ->
     Sqlite.reserve k ch e camp now s =
       (s, if reserved_micros row =? m then Ok (Some row) else Err (Raised ValueError))) /\
  (forall a m, _micros a = Ok m ->
     (r_status row = settled -> Sqlite.settle k a now s = (s, Ok (Some row))) /\
     (r_status row = released -> Sqlite.settle k a now s = (s, Err (Raised ValueError))) /\
     (r_status row = reserved -> exists row',
        (Sqlite.settle k a now s).2 = Ok (Some row') /\
        reservations (Sqlite.settle k a now s).1 !! k = Some row' /\
        r_status row' = settled /\ settled_micros row' = Some m)) /\
  (r_status row <> reserved -> Sqlite.release k now s = (s, Ok false)) /\
  (r_status row = reserved ->
     (Sqlite.release k now s).2 = Ok true /\
     exists row', reservations (Sqlite.release k now s).1 !! k = Some row' /\
       r_status row' = released).
Proof.
  intros Hk. split_and!.
  - intros m Hm. unfold Sqlite.reserve, stm_bind, transaction. rewrite Hm. cbn [lift].
    unfold stm_ret. rewrite Hk. by destruct (_ =? _).
  - intros a m Hm. unfold Sqlite.settle, stm_bind, transaction. rewrite Hm. cbn [lift].
    unfold stm_ret. rewrite Hk. split_and!; intros ->; [done|done|].
    eexists. unfold get. simpl. rewrite lookup_insert_eq. by split_and!.
  - intros Hs. unfold Sqlite.release. rewrite Hk. by destruct (r_status row).
  - intros Hs. unfold Sqlite.release, transaction. rewrite Hk, Hs. simpl.
    split; [done|]. eexists. by rewrite lookup_insert_eq.
Qed.

(** ** Brand volume *)

(** Run metering calls on one key; the accepted ones, in order. *)
Fixpoint meter_all (k : budget_key) (l : list (Z * Z)) (s : store)
    : store * list (Z * Z) :=
  match l with
  | [] => (s, [])
  | (c, u) :: l' =>
      match Sqlite.meter_brand_volume k c u s with
      | (s', Ok _) => let '(s'', acc) := meter_all k l' s' in (s'', (c, u) :: acc)
      | (s', Err _) => meter_all k l' s'
      end
  end.

Definition units_sum (l : list (Z * Z)) : Z := foldr (fun cu z => cu.2 + z) 0 l.

Lemma meter_step k c u s :
  Sqlite.meter_brand_volume k c u s =
  let cur := match volumes s !! k with Some (v, _) => v | None => 0 end in
  let eff := match volumes s !! k with Some (_, c') => Z.min c c' | None => c end in
  if eff <? cur + u then (s, Err (SpendCeilingExceeded "brand_daily_volume_exhausted"))
  else (with_volumes s (<[k := (cur + u, eff)]> (volumes s)), Ok (cur + u)).
Proof.
  unfold Sqlite.meter_brand_volume, transaction. cbn zeta. by destruct (_ <? _).
Qed.

Lemma meter_all_from k l s v0 c0 :
  volumes s !! k = Some (v0, c0) -> v0 <= c0 ->
  exists v c, volumes (meter_all k l s).1 !! k = Some (v, c) /\
    v = v0 + units_sum (meter_all k l s).2 /\ v <= c /\ c <= c0 /\
    Forall (fun cu => c <= cu.1) (meter_all k l s).2 /\
    (c = c0 \/ exists cu, cu ∈ (meter_all k l s).2 /\ cu.1 = c).
Proof.
  revert s v0 c0. induction l as [|[c1 u] l IH]; intros s v0 c0 Hk Hle.
  { exists v0, c0. simpl. split_and!; [done|lia..|constructor|by left]. }
  cbn [meter_all]. rewrite meter_step, Hk. cbn zeta.
  destruct (Z.ltb_spec (Z.min c1 c0) (v0 + u)) as [Hlt|Hge]; [by apply IH|].
  set (s1 := with_volumes _ _).
  destruct (IH s1 (v0 + u) (Z.min c1 c0)) as (v & c & Hv & Hsum & Hvc & Hc & Hall & Hex);
    [by simpl; rewrite lookup_insert_eq|done|].
  destruct (meter_all k l s1) as [s2 acc]. simpl in *. exists v, c.
  split_and!; [done|lia|done|lia|constructor; [simpl; lia|done]|].
  destruct Hex as [-> |(cu & Hin & <-)].
  - destruct (Z.min_spec c1 c0) as [[_ ->]|[_ ->]]; [right|by left].
    exists (c1, u). split; [left|done].
  - right. exists cu. split; [by right|done].
Qed.

(** Daily volume: what is metered is exactly the sum of the accepted
    calls; it never exceeds the lowest ceiling any accepted call carried, so
    a ceiling raised later does not reopen the day; and a refused call
    consumes nothing. *)
Theorem brand_volume_bounded k l s :
  volumes s !! k = None ->
  match volumes (meter_all k l s).1 !! k with
  | None => (meter_all k l s).2 = []
  | Some (v, c) => v = units_sum (meter_all k l s).2 /\ v <= c /\
      Forall (fun cu => c <= cu.1) (meter_all k l s).2 /\
      exists cu, cu ∈ (meter_all k l s).2 /\ cu.1 = c
  end.
Proof.
  revert s. induction l as [|[c1 u] l IH]; intros s Hk; [by simpl; rewrite Hk|].
  cbn [meter_all]. rewrite meter_step, Hk. cbn zeta.
  destruct (Z.ltb_spec c1 (0 + u)) as [Hlt|Hge]; [by apply IH|].
  set (s1 := with_volumes _ _).
  destruct (meter_all_from k l s1 (0 + u) c1) as (v & c & Hv & Hsum & Hvc & Hc & Hall & Hex);
    [by simpl; rewrite lookup_insert_eq|done|].
  destruct (meter_all k l s1) as [s2 acc]. simpl in *. rewrite Hv.
  split_and!; [lia|done|constructor; [done|done]|].
  destruct Hex as [-> |(cu & Hin & <-)].
  - exists (c1, u). split; [left|done].
  - exists cu. split; [by right|done].
Qed.

(** The number of segments an SMS is charged for is the least number
    whose capacity holds the text: one up to the single-segment limit (160
    characters of ASCII, 70 otherwise), and beyond it the multipart capacity
    of 153 or 67 characters each. *)
Theorem sms_segments_least body :
  let '(single, multipart) := if is_ascii body then (160, 153) else (70, 67) in
  1 <= sms_segments body /\
  (code_points body <= single -> sms_segments body = 1) /\
  (single < code_points body ->
   (sms_segments body - 1) * multipart < code_points body
     <= sms_segments body * multipart).
Proof.
  unfold sms_segments. destruct (is_ascii body); simpl;
    destruct (Z.leb_spec (code_points body) (if is_ascii body then 160 else 70));
    repeat case_match; bool_hyps;
    (split_and!; [|intros|intros]); try lia;
    match goal with |- context [?a / ?b] =>
      pose proof (Z.div_mod a b ltac:(lia)); pose proof (Z.mod_pos_bound a b ltac:(lia)) end;
    lia.
Qed.

(** Converting an amount to micros rounds to the nearest micro: the
    result is exact when the amount has no digits below a micro, and
    otherwise within half a micro of it (for amounts whose micros fit the 28
    digits of the decimal context). *)
Theorem micros_nearest c e m :
  _micros (Fin c e) = Ok m -> ndigits (c * 1000000) <= PREC ->
  (0 <= e -> m = c * 1000000 * 10 ^ e) /\
  (e < 0 -> - 10 ^ (- e) <= 2 * (c * 1000000 - m * 10 ^ (- e)) <= 10 ^ (- e)).
Proof.
  unfold _micros, dec_mul, fix_prec. intros H Hp.
  destruct (Z.leb_spec (ndigits (c * 1000000)) PREC); [|lia].
  rewrite Z.add_0_r in H. unfold quantize_int in H.
  destruct (_ <=? PREC); [|done]. injection H as <-.
  destruct (Z.leb_spec 0 e); split; intros; try lia.
  apply round_half_even_bound, pow10_pos. lia.
Qed.

(** ** A concrete ledger: an account of 10.00 and a campaign of 4.00 *)

Definition ex_calls : list call := [
  SetCeiling ("t", "account", "t") (Fin 1000 (-2));
  SetCeiling ("t", "campaign", "c") (Fin 4 0);
  Reserve ("t", "r1") "sms" (Fin 3 0) (Some "c") 1;
  Reserve ("t", "r2") "sms" (Fin 2 0) (Some "c") 2;
  Reserve ("t", "r3") "sms" (Fin 6 0) None 3;
  Settle ("t", "r1") (Fin 25 (-1)) 4;
  Release ("t", "r3") 5 ].

Example ex_refused :
  (exec sqlite (Reserve ("t", "r2") "sms" (Fin 2 0) (Some "c") 2)
     (run sqlite (take 3 ex_calls) empty_store)).2
  = Err (SpendCeilingExceeded "campaign_ceiling_exhausted").
Proof. vm_compute. reflexivity. Qed.

Definition ex_account : budget_row :=
  {| ceiling_micros := 10000000; b_reserved := 0; b_settled := 2500000 |}.

Lemma books_balance_witness :
  budgets (run postgres ex_calls empty_store) !! ("t", "account", "t") = Some ex_account /\
  b_settled ex_account
    = res_sum (paid ("t", "account", "t")) (reservations (run postgres ex_calls empty_store)).
Proof.
  assert (budgets (run postgres ex_calls empty_store) !! ("t", "account", "t")
          = Some ex_account) as E by (vm_compute; reflexivity).
  split; [exact E|].
  exact (proj2 (proj1 (books_balance postgres ex_calls _ eq_refl) _ _ E)).
Defined.

Lemma no_overspend_witness :
  b_reserved ex_account + b_settled ex_account <= ceiling_micros ex_account.
Proof.
  apply (no_overspend postgres ex_calls ("t", "account", "t")).
  - cbn [fair_run ex_calls]. split_and!; cbn [fair]; try exact I;
      intros m; vm_compute; try (intros [= <-]; done);
      intros r [= <-]; intros [= <-]; done.
  - vm_compute. reflexivity.
Defined.

Lemma spend_replay_witness :
  let s := run sqlite ex_calls empty_store in
  match reservations s !! ("t", "r1") with
  | Some row => Sqlite.settle ("t", "r1") (Fin 9 0) 6 s = (s, Ok (Some row)) /\
                Sqlite.release ("t", "r1") 6 s = (s, Ok false)
  | None => False
  end.
Proof.
  cbn zeta. destruct (reservations (run sqlite ex_calls empty_store) !! ("t", "r1"))
    as [row|] eqn:E; [|vm_compute in E; discriminate E].
  destruct (spend_replay (run sqlite ex_calls empty_store) ("t", "r1") row
              "sms" (Fin 3 0) None 6 E) as (_ & H1 & H2 & _).
  assert (r_status row = settled) as Hs.
  { vm_compute in E. injection E as <-. reflexivity. }
  split.
  - apply (H1 (Fin 9 0) 9000000); [vm_compute; reflexivity|exact Hs].
  - apply H2. rewrite Hs. discriminate.
Defined.

Lemma brand_volume_bounded_witness :
  match volumes (meter_all ("t", "b", "d") [(5, 3); (9, 3); (9, 2)] empty_store).1
          !! ("t", "b", "d") with
  | Some (v, c) => v = 5 /\ c = 5 /\ v <= c
  | None => False
  end.
Proof.
  pose proof (brand_volume_bounded ("t", "b", "d") [(5, 3); (9, 3); (9, 2)] empty_store
    eq_refl) as H.
  destruct (volumes _ !! _) as [[v c]|] eqn:E; [|vm_compute in E; discriminate E].
  destruct H as (_ & H & _). vm_compute in E. injection E as <- <-.
  split; [reflexivity|split; [reflexivity|exact H]].
Defined.

Lemma micros_nearest_witness :
  _micros (Fin 10000005 (-7)) = Ok 1000000 /\
  (- 10 ^ 7 <= 2 * (10000005 * 1000000 - 1000000 * 10 ^ 7) <= 10 ^ 7).
Proof.
  split; [vm_compute; reflexivity|].
  apply (micros_nearest 10000005 (-7) 1000000);
    [vm_compute; reflexivity|vm_compute; discriminate|lia].
Defined.
