(* ===== verification/Branches.v ===== *)
(** * The contacts hierarchy

    The branch tree of [ContactsRepository] in
    src/libs/contacts_repository.py: creating and moving branches, ancestry
    by walking parents, subtrees by a prefix scan on the materialised path.
    The table [contacts.branches] is a map from branch identifiers to rows;
    the constraints of src/migrations/0017_contacts.sql and
    0028_personal_contact_directories.sql that a statement can run into
    (primary key, one path per tenant, one personal root per owner) raise
    [UniqueViolation]. *)

From S2P Require Import Prelude.
Local Open Scope Z_scope.

Record branch := {
  b_tenant : string;
  b_parent : option string;
  b_kind : string;
  b_name : string;
  slug : string;
  path : string;
  depth : Z;
  owner : option string;
}.

Abbreviation tree := (gmap string branch).

Inductive branch_error : Type :=
| BranchNotFound
| InvalidBranchPlacement
| CyclicBranchMove
| TenantScopeRequired
| UniqueViolation.

Definition BRANCH_KINDS : list string := ["organization"; "department"; "folder"].
Definition MAX_BRANCH_DEPTH : Z := 128.

(** ** Slugs *)

Definition is_slug_char (c : ascii) : bool :=
  let n := ord c in (N.leb 97 n && N.leb n 122) || (N.leb 48 n && N.leb n 57).
Definition hyphen : ascii := chr 45.
Definition slash : ascii := chr 47.

(** [re.sub(r"[^a-z0-9]+", "-", s)]; [in_run] tells whether the previous
    character was already replaced. *)
Fixpoint hyphenate (s : string) (in_run : bool) : string :=
  match s with
  | "" => ""
  | String c s' =>
      if is_slug_char c then String c (hyphenate s' false)
      else if in_run then hyphenate s' true
      else String hyphen (hyphenate s' true)
  end.

(** [s.strip("-")]. *)
Fixpoint lstrip_hyphen (s : string) : string :=
  match s with
  | String c s' => if Ascii.eqb c hyphen then lstrip_hyphen s' else s
  | "" => ""
  end.
Fixpoint rstrip_hyphen (s : string) : string :=
  match s with
  | "" => ""
  | String c s' =>
      match rstrip_hyphen s' with
      | "" => if Ascii.eqb c hyphen then "" else String c ""
      | t => String c t
      end
  end.

Definition slugify (value : string) : string :=
  or_else (rstrip_hyphen (lstrip_hyphen (hyphenate (lower (strip value)) false)))
    "branch".

(** ** Reading *)

Definition fetch (t : tree) (tenant id : string) : option branch :=
  match t !! id with
  | Some b => if String.eqb (b_tenant b) tenant then Some b else None
  | None => None
  end.

(** [candidate.startswith(ancestor + "/")]. *)
Definition _within (candidate ancestor : string) : bool :=
  starts_with (ancestor +:+ "/") candidate.

(** [select ... where tenant_id = %s and path like path || '/%' order by
    path]: slugs hold no LIKE metacharacter, so the pattern is a prefix. *)
Definition path_le (a b : string * branch) : Prop := String.le (path a.2) (path b.2).
Global Instance path_le_dec a b : Decision (path_le a b).
Proof. unfold path_le. apply _. Defined.
Definition _fetch_descendants (t : tree) (tenant p : string) : list (string * branch) :=
  merge_sort path_le
    (List.filter (fun kb => String.eqb (b_tenant kb.2) tenant && _within (path kb.2) p)
       (map_to_list t)).

Definition subtree (t : tree) (tenant id : string)
    : result branch_error (list (string * branch)) :=
  match fetch t tenant id with
  | None => Err BranchNotFound
  | Some b => Ok ((id, b) :: _fetch_descendants t tenant (path b))
  end.

(** The [while] loop of [ancestors]; the chain is built leaf-first and
    reversed at the end.  [None] is out of fuel. *)
Fixpoint ancestors_loop (fuel : nat) (t : tree) (tenant : string)
    (parent_id : option string) (seen : gset string)
    : option (list (string * branch)) :=
  match parent_id with
  | None => Some []
  | Some p =>
      if decide (p ∈ seen) then Some []
      else match fuel with
      | O => None
      | S fuel' =>
          match fetch t tenant p with
          | None => Some []
          | Some b =>
              match ancestors_loop fuel' t tenant (b_parent b) ({[p]} ∪ seen) with
              | Some chain => Some ((p, b) :: chain)
              | None => None
              end
          end
      end
  end.

Definition ancestors_fuel (t : tree) : nat := S (size t).

Definition ancestors (t : tree) (tenant id : string)
    : result branch_error (list (string * branch)) :=
  match fetch t tenant id with
  | None => Err BranchNotFound
  | Some b =>
      Ok (rev (default [] (ancestors_loop (ancestors_fuel t) t tenant (b_parent b) ∅)))
  end.

(** ** Writing *)

Definition _check_placement (kind : string) (parent : option branch)
    : result branch_error unit :=
  let parent_kind := b_kind <$> parent in
  if String.eqb kind "organization" && bool_decide (parent <> None)
  then Err InvalidBranchPlacement
  else if String.eqb kind "department"
          && negb (bool_decide (parent_kind = Some "organization"))
  then Err InvalidBranchPlacement
  else if String.eqb kind "folder" && bool_decide (parent = None)
  then Err InvalidBranchPlacement
  else Ok tt.

(** Another row of the tenant has the path. *)
Definition path_taken (t : tree) (tenant p : string) (but : string) : bool :=
  existsb (fun kb => String.eqb (b_tenant kb.2) tenant && String.eqb (path kb.2) p
                     && negb (String.eqb kb.1 but)) (map_to_list t).

(** Another root of the tenant has the same personal owner. *)
Definition root_taken (t : tree) (b : branch) (but : string) : bool :=
  match b_parent b, owner b with
  | None, Some o =>
      existsb (fun kb => String.eqb (b_tenant kb.2) (b_tenant b)
        && bool_decide (b_parent kb.2 = None) && bool_decide (owner kb.2 = Some o)
        && negb (String.eqb kb.1 but)) (map_to_list t)
  | _, _ => false
  end.

(** [insert] and [update] of one row under the table's constraints. *)
Definition put_row (t : tree) (id : string) (b : branch) : result branch_error tree :=
  if path_taken t (b_tenant b) (path b) id || root_taken t b id
  then Err UniqueViolation else Ok (<[id := b]> t).
Definition insert_row (t : tree) (id : string) (b : branch) : result branch_error tree :=
  match t !! id with Some _ => Err UniqueViolation | None => put_row t id b end.

(** [id] is the identifier passed in or generated. *)
Definition create_branch (tenant name kind : string) (parent_branch_id : option string)
    (slug_arg : option string) (id : string) (owner_principal_id : option string)
    (t : tree) : result branch_error (tree * branch) :=
  if negb (truthy tenant) then Err TenantScopeRequired
  else if negb (str_in kind BRANCH_KINDS) then Err InvalidBranchPlacement
  else
    let segment := slugify (or_else (default "" slug_arg) name) in
    match (match parent_branch_id with
           | None => Ok None
           | Some p => match fetch t tenant p with
                       | None => Err BranchNotFound
                       | Some b => Ok (Some b)
                       end
           end) with
    | Err e => Err e
    | Ok parent =>
        match _check_placement kind parent with
        | Err e => Err e
        | Ok _ =>
            let p := match parent with
                     | Some b => path b +:+ "/" +:+ segment
                     | None => "/" +:+ segment end in
            let d := match parent with Some b => depth b + 1 | None => 0 end in
            if MAX_BRANCH_DEPTH <=? d then Err InvalidBranchPlacement
            else
              let row := {|
                b_tenant := tenant; b_parent := parent_branch_id; b_kind := kind;
                b_name := name; slug := segment; path := p; depth := d;
                owner := match parent with
                         | None => owner_principal_id | Some b => owner b end |} in
              match insert_row t id row with
              | Err e => Err e
              | Ok t' => Ok (t', row)
              end
        end
    end.

(** [row["path"][len(old_path):]]. *)
Fixpoint drop_prefix (p s : string) : string :=
  match p, s with
  | String _ p', String _ s' => drop_prefix p' s'
  | _, _ => s
  end.

Definition _deepest (rows : list (string * branch)) (base : Z) : Z :=
  match map (fun kb => depth kb.2 - base) rows with
  | [] => 0
  | x :: l => foldl Z.max x l
  end.

Definition set_place (b : branch) (p : string) (d : Z) : branch := {|
  b_tenant := b_tenant b; b_parent := b_parent b; b_kind := b_kind b;
  b_name := b_name b; slug := slug b; path := p; depth := d; owner := owner b |}.
Definition set_parent (b : branch) (parent : option string) (p : string) (d : Z)
    : branch := {|
  b_tenant := b_tenant b; b_parent := parent; b_kind := b_kind b;
  b_name := b_name b; slug := slug b; path := p; depth := d; owner := owner b |}.

(** One [update] per descendant, in order. *)
Fixpoint update_descendants (old_path new_path : string) (shift : Z)
    (rows : list (string * branch)) (t : tree) : result branch_error tree :=
  match rows with
  | [] => Ok t
  | (id, b) :: rows' =>
      match put_row t id (set_place b (new_path +:+ drop_prefix old_path (path b))
                                      (depth b + shift)) with
      | Err e => Err e
      | Ok t' => update_descendants old_path new_path shift rows' t'
      end
  end.

Definition move_branch (tenant id : string) (new_parent_branch_id : option string)
    (t : tree) : result branch_error (tree * branch) :=
  if negb (truthy tenant) then Err TenantScopeRequired
  else match fetch t tenant id with
  | None => Err BranchNotFound
  | Some b =>
      match (match new_parent_branch_id with
             | None => Ok None
             | Some p =>
                 match fetch t tenant p with
                 | None => Err BranchNotFound
                 | Some pb =>
                     if String.eqb p id || _within (path pb) (path b)
                     then Err CyclicBranchMove else Ok (Some pb)
                 end
             end) with
      | Err e => Err e
      | Ok parent =>
          match _check_placement (b_kind b) parent with
          | Err e => Err e
          | Ok _ =>
              let new_path := match parent with
                              | Some pb => path pb +:+ "/" +:+ slug b
                              | None => "/" +:+ slug b end in
              let new_depth := match parent with Some pb => depth pb + 1 | None => 0 end in
              let descendants := _fetch_descendants t tenant (path b) in
              if MAX_BRANCH_DEPTH <=? new_depth + _deepest descendants (depth b)
              then Err InvalidBranchPlacement
              else
                let row := set_parent b new_parent_branch_id new_path new_depth in
                match put_row t id row with
                | Err e => Err e
                | Ok t1 =>
                    match update_descendants (path b) new_path (new_depth - depth b)
                            descendants t1 with
                    | Err e => Err e
                    | Ok t2 => Ok (t2, row)
                    end
                end
          end
      end
  end.

(** ** Strings and paths *)

Lemma starts_with_spec p s : starts_with p s = true <-> exists r, s = p +:+ r.
Proof.
  revert s; induction p as [|a p IH]; intros s; simpl.
  { split; [by exists s|done]. }
  destruct s as [|b s].
  { split; [done|]. intros [r Hr]. by rewrite str_app_cons in Hr. }
  rewrite andb_true_iff, Ascii.eqb_eq, IH. split.
  - intros [-> [r ->]]. by exists r.
  - intros [r Hr]. rewrite str_app_cons in Hr. injection Hr as -> ->. split; [done|by exists r].
Qed.

Lemma within_spec c a : _within c a = true <-> exists r, c = a +:+ "/" +:+ r.
Proof.
  unfold _within. rewrite starts_with_spec.
  split; intros [r ->]; exists r; by rewrite str_app_assoc.
Qed.

Definition no_slash (s : string) : Prop :=
  str_forallb (fun c => negb (Ascii.eqb c slash)) s = true.

Lemma no_slash_app a b : no_slash (a +:+ "/" +:+ b) -> False.
Proof.
  unfold no_slash. induction a as [|c a IH].
  - done.
  - rewrite str_app_cons. cbn [str_forallb]. intros [_ H]%andb_true_iff. by apply IH.
Qed.

(** A path [p/s] is within [q] only at [p] or above. *)
Lemma within_child p s q :
  no_slash s ->
  _within (p +:+ "/" +:+ s) q = true <-> q = p \/ _within p q = true.
Proof.
  intros Hs. rewrite !within_spec. split.
  - revert q. induction p as [|c p IH]; intros q [r Hr].
    + destruct q as [|d q]; [by left|]. exfalso.
      rewrite (str_app_cons d q) in Hr. change ("" +:+ "/" +:+ s) with (String slash s) in Hr.
      injection Hr as _ Hr. rewrite Hr in Hs. by eapply no_slash_app.
    + destruct q as [|d q].
      * rewrite str_app_cons in Hr. change ("" +:+ "/" +:+ r) with (String slash r) in Hr.
        injection Hr as -> _. right. exists p. done.
      * rewrite (str_app_cons c p), (str_app_cons d q) in Hr. injection Hr as -> Hr.
        destruct (IH q) as [->|[r' ->]]; [by exists r|by left|].
        right. exists r'. by rewrite str_app_cons.
  - intros [->|[r ->]]; [by exists s|].
    exists (r +:+ "/" +:+ s). by rewrite !str_app_assoc.
Qed.

Lemma within_root s q : no_slash s -> q <> "" -> _within ("/" +:+ s) q = false.
Proof.
  intros Hs Hq. apply not_true_iff_false. intros H.
  change ("/" +:+ s) with ("" +:+ "/" +:+ s) in H.
  apply within_child in H as [->|[r Hr]%within_spec]; [done| |done].
  destruct q; [done|]. by rewrite str_app_cons in Hr.
Qed.

Lemma drop_prefix_app p r : drop_prefix p (p +:+ r) = r.
Proof. induction p as [|c p IH]; [by destruct r|]. by rewrite str_app_cons. Qed.

Lemma str_app_inv_l (a b c : string) : a +:+ b = a +:+ c -> b = c.
Proof.
  induction a as [|x a IH]; [done|]. rewrite !str_app_cons. intros [= H]. auto.
Qed.

(** What [slugify] yields: never empty, only letters, digits and hyphens. *)
Definition slug_ok (s : string) : Prop :=
  s <> "" /\ str_forallb (fun c => is_slug_char c || Ascii.eqb c hyphen) s = true.

Lemma hyphenate_chars s b :
  str_forallb (fun c => is_slug_char c || Ascii.eqb c hyphen) (hyphenate s b) = true.
Proof.
  revert b; induction s as [|c s IH]; intros b; simpl; [done|].
  destruct (is_slug_char c) eqn:E; [cbn [str_forallb]; by rewrite E, IH|].
  destruct b; [apply IH|]. cbn [str_forallb]. by rewrite IH, orb_true_r.
Qed.

Lemma lstrip_chars P s : str_forallb P s = true -> str_forallb P (lstrip_hyphen s) = true.
Proof.
  induction s as [|c s IH]; [done|]. cbn [lstrip_hyphen]. intros H.
  destruct (Ascii.eqb c hyphen); [|done]. cbn [str_forallb] in H.
  apply IH. by apply andb_true_iff in H as [_ ?].
Qed.

Lemma rstrip_chars P s : str_forallb P s = true -> str_forallb P (rstrip_hyphen s) = true.
Proof.
  induction s as [|c s IH]; [done|]. cbn [rstrip_hyphen str_forallb].
  intros [Hc Hs]%andb_true_iff. specialize (IH Hs).
  destruct (rstrip_hyphen s); [destruct (Ascii.eqb c hyphen)|];
    cbn [str_forallb] in *; by rewrite ?Hc, ?IH.
Qed.

Lemma slugify_ok s : slug_ok (slugify s).
Proof.
  unfold slugify, or_else, truthy, truthy_string.
  set (t := rstrip_hyphen _). destruct (String.eqb_spec t "") as [|Hne]; simpl.
  - by split.
  - split; [done|]. apply rstrip_chars, lstrip_chars, hyphenate_chars.
Qed.

Lemma slug_no_slash s : slug_ok s -> no_slash s.
Proof.
  intros [_ H]. unfold no_slash. revert H.
  induction s as [|c s IH]; [done|]. cbn [str_forallb].
  intros [Hc Hs]%andb_true_iff. rewrite (IH Hs), andb_true_r.
  destruct (Ascii.eqb_spec c slash) as [->|]; [|done]. vm_compute in Hc. done.
Qed.

(** ** The tree invariant *)

Definition placed (t : tree) (b : branch) : Prop :=
  match b_parent b with
  | None => path b = "/" +:+ slug b /\ depth b = 0
  | Some p => exists pb, fetch t (b_tenant b) p = Some pb /\
      path b = path pb +:+ "/" +:+ slug b /\ depth b = depth pb + 1
  end.

Record tree_ok (t : tree) : Prop := {
  ok_slug : forall id b, t !! id = Some b -> slug_ok (slug b);
  ok_place : forall id b, t !! id = Some b -> placed t b;
  ok_unique : forall i j a b, t !! i = Some a -> t !! j = Some b ->
    b_tenant a = b_tenant b -> path a = path b -> i = j;
  ok_depth : forall id b, t !! id = Some b -> 0 <= depth b < MAX_BRANCH_DEPTH;
}.

Lemma fetch_Some t tenant id b :
  fetch t tenant id = Some b <-> t !! id = Some b /\ b_tenant b = tenant.
Proof.
  unfold fetch. destruct (t !! id) as [x|]; [|naive_solver].
  destruct (String.eqb_spec (b_tenant x) tenant); naive_solver.
Qed.

(** [id]'s parent is [p], in the tenant's tree. *)
Definition parent_of (t : tree) (tenant : string) (id p : string) : Prop :=
  exists b, fetch t tenant id = Some b /\ b_parent b = Some p.

(** [id] lies under [a], or is [a]. *)
Definition descends (t : tree) (tenant : string) : string -> string -> Prop :=
  rtc (parent_of t tenant).

Section tree.
Variable t : tree.
Hypothesis Hok : tree_ok t.
Variable tenant : string.

Lemma path_nonempty id b : t !! id = Some b -> path b <> "".
Proof.
  intros H. pose proof (ok_place t Hok _ _ H) as Hp. unfold placed in Hp.
  destruct (b_parent b).
  - destruct Hp as (pb & _ & -> & _). destruct (path pb); done.
  - by destruct Hp as [-> _].
Qed.

Lemma fetch_slug id b : fetch t tenant id = Some b -> no_slash (slug b).
Proof. intros [H _]%fetch_Some. by eapply slug_no_slash, ok_slug. Qed.

(** The parent row of a branch, with what it says about the child. *)
Lemma parent_row id b p :
  fetch t tenant id = Some b -> b_parent b = Some p ->
  exists pb, fetch t tenant p = Some pb /\ path b = path pb +:+ "/" +:+ slug b /\
    depth b = depth pb + 1.
Proof.
  intros [H <-]%fetch_Some Hp. pose proof (ok_place t Hok _ _ H) as Hpl.
  unfold placed in Hpl. by rewrite Hp in Hpl.
Qed.

(** A path prefix of a branch's path names one of its proper ancestors. *)
Lemma within_ancestor x bx q :
  fetch t tenant x = Some bx -> q <> "" -> _within (path bx) q = true ->
  exists a ba, fetch t tenant a = Some ba /\ path ba = q /\ tc (parent_of t tenant) x a.
Proof.
  remember (Z.to_nat (depth bx)) as n eqn:Hn. revert x bx Hn.
  induction n as [n IH] using lt_wf_ind. intros x bx Hn Hx Hq Hw.
  pose proof (fetch_slug _ _ Hx) as Hs.
  destruct (b_parent bx) as [p|] eqn:Hp.
  - destruct (parent_row _ _ _ Hx Hp) as (pb & Hpb & Hpath & Hd).
    assert (parent_of t tenant x p) as Hxp by (exists bx; done).
    rewrite Hpath in Hw. apply within_child in Hw as [->|Hw]; [| |done].
    + exists p, pb. split_and!; [done|done|by apply tc_once].
    + destruct (IH (Z.to_nat (depth pb))) with (x := p) (bx := pb)
        as (a & ba & Ha & Hpa & Htc); try done.
      * apply fetch_Some in Hpb as [Hpb _]. pose proof (ok_depth t Hok _ _ Hpb). lia.
      * exists a, ba. split_and!; [done|done|by eapply tc_l].
  - exfalso. apply fetch_Some in Hx as [Hx _]. pose proof (ok_place t Hok _ _ Hx) as Hpl.
    unfold placed in Hpl. rewrite Hp in Hpl. destruct Hpl as [Hpl _].
    rewrite Hpl, within_root in Hw; done.
Qed.

Lemma ancestor_within x a :
  tc (parent_of t tenant) x a ->
  exists bx ba, fetch t tenant x = Some bx /\ fetch t tenant a = Some ba /\
    _within (path bx) (path ba) = true.
Proof.
  induction 1 as [x a (b & Hb & Hp)|x y a (b & Hb & Hp) _ (by' & ba & Hy & Ha & Hw)].
  - destruct (parent_row _ _ _ Hb Hp) as (pb & Hpb & Hpath & _).
    exists b, pb. split_and!; [done|done|]. rewrite Hpath.
    apply within_child; [by eapply fetch_slug|by left].
  - destruct (parent_row _ _ _ Hb Hp) as (pb & Hpb & Hpath & _). simplify_eq.
    exists b, ba. split_and!; [done|done|]. rewrite Hpath.
    apply within_child; [by eapply fetch_slug|by right].
Qed.

(** The path test is the ancestry relation. *)
Lemma within_tc x a bx ba :
  fetch t tenant x = Some bx -> fetch t tenant a = Some ba ->
  _within (path bx) (path ba) = true <-> tc (parent_of t tenant) x a.
Proof.
  intros Hx Ha. split.
  - intros Hw. destruct (within_ancestor x bx (path ba)) as (a' & ba' & Ha' & Hp & Htc); [done| |done|].
    { apply fetch_Some in Ha as [Ha _]. by eapply path_nonempty. }
    replace a with a'; [done|]. apply fetch_Some in Ha as [Ha Ht], Ha' as [Ha' Ht'].
    eapply (ok_unique t Hok); [exact Ha'|exact Ha|congruence|done].
  - intros Htc. destruct (ancestor_within _ _ Htc) as (bx' & ba' & Hx' & Ha' & Hw).
    by simplify_eq.
Qed.

Lemma descendants_elem id b kb :
  kb ∈ _fetch_descendants t tenant (path b) ->
  fetch t tenant id = Some b ->
  fetch t tenant kb.1 = Some kb.2 /\ tc (parent_of t tenant) kb.1 id.
Proof.
  intros Hk Hid. unfold _fetch_descendants in Hk.
  rewrite merge_sort_Permutation in Hk.
  apply list_elem_of_In, filter_In in Hk as [Hk Hb]. destruct kb as [k x]. simpl in *.
  apply list_elem_of_In, elem_of_map_to_list in Hk.
  apply andb_true_iff in Hb as [Ht%String.eqb_eq Hw].
  assert (fetch t tenant k = Some x) as Hf by (by apply fetch_Some).
  split; [done|]. by apply (within_tc k id x b).
Qed.
End tree.

(** ** Ancestry *)

(** [l] lists the rows met walking up from [pid], nearest first. *)
Inductive chain (t : tree) (tenant : string) : option string -> list (string * branch) -> Prop :=
| chain_root : chain t tenant None []
| chain_up p b l :
    fetch t tenant p = Some b -> chain t tenant (b_parent b) l ->
    chain t tenant (Some p) ((p, b) :: l).

Lemma ancestors_loop_total t tenant fuel pid seen :
  (size (dom t ∖ seen) < fuel)%nat -> is_Some (ancestors_loop fuel t tenant pid seen).
Proof.
  revert pid seen. induction fuel as [|fuel IH]; intros pid seen Hf; [lia|].
  destruct pid as [p|]; simpl; [|by eexists].
  destruct (decide (p ∈ seen)) as [|Hp]; [by eexists|].
  destruct (fetch t tenant p) as [b|] eqn:Hb; [|by eexists].
  apply fetch_Some in Hb as [Hb _].
  destruct (IH (b_parent b) ({[p]} ∪ seen)) as [l ->]; [|by eexists].
  assert (size (dom t ∖ ({[p]} ∪ seen)) < size (dom t ∖ seen))%nat; [|lia].
  apply subset_size. split; [set_solver|]. intros Hsub.
  apply elem_of_dom_2 in Hb. specialize (Hsub p). set_solver.
Qed.

Lemma ancestors_loop_chain t tenant fuel pid seen l :
  tree_ok t ->
  (forall p, pid = Some p -> is_Some (fetch t tenant p)) ->
  (forall q p bp, q ∈ seen -> pid = Some p -> fetch t tenant p = Some bp ->
     exists bq, fetch t tenant q = Some bq /\ depth bp < depth bq) ->
  ancestors_loop fuel t tenant pid seen = Some l -> chain t tenant pid l.
Proof.
  intros Hok. revert pid seen l. induction fuel as [|fuel IH]; intros pid seen l Hex Hseen;
    (destruct pid as [p|]; simpl; [|intros [= <-]; constructor]);
    destruct (Hex p eq_refl) as [b Hb];
    (destruct (decide (p ∈ seen)) as [Hin|];
       [exfalso; destruct (Hseen p p b Hin eq_refl Hb) as (bq & Hq & ?); simplify_eq; lia|]);
    [done|].
  rewrite Hb. destruct (ancestors_loop _ _ _ _ _) as [l'|] eqn:E; [|done].
  intros [= <-]. constructor; [done|]. eapply IH; [| |exact E].
  - intros q Hq. destruct (parent_row t Hok tenant p b q Hb Hq) as (pb & Hpb & _). by eexists.
  - intros q p' bp Hin Hp' Hbp.
    destruct (parent_row t Hok tenant p b p' Hb Hp') as (pb & Hpb & _ & Hd). simplify_eq.
    apply elem_of_union in Hin as [->%elem_of_singleton|Hin].
    + exists b. split; [done|lia].
    + destruct (Hseen q p b Hin eq_refl Hb) as (bq & Hq & ?). exists bq. split; [done|lia].
Qed.

Lemma chain_elem t tenant pid l :
  chain t tenant pid l ->
  forall a ba, (a, ba) ∈ l <->
    fetch t tenant a = Some ba /\
    exists p, pid = Some p /\ (a = p \/ tc (parent_of t tenant) p a).
Proof.
  induction 1 as [|p b l Hp Hc IH]; intros a ba.
  { split; [by intros ?%elem_of_nil|]. by intros (_ & p & ? & _). }
  rewrite elem_of_cons, IH. split.
  - intros [[= -> ->]|(Ha & q & Hq & Hqa)].
    + split; [done|]. eexists. split; [done|by left].
    + split; [done|]. eexists. split; [done|right].
      assert (parent_of t tenant p q) by (by exists b).
      destruct Hqa as [->|]; [by apply tc_once|by eapply tc_l].
  - intros (Ha & q & [= <-] & [->|Htc]).
    + left. simplify_eq. done.
    + right. split; [done|].
      inversion Htc as [? ? (b' & Hb' & Hq)|? y ? (b' & Hb' & Hq) Hy]; simplify_eq.
      * eexists. split; [done|by left].
      * eexists. split; [done|by right].
Qed.

Lemma ancestors_ok t tenant id b :
  tree_ok t -> fetch t tenant id = Some b ->
  exists l, ancestors t tenant id = Ok (rev l) /\ chain t tenant (b_parent b) l.
Proof.
  intros Hok Hb. unfold ancestors. rewrite Hb.
  destruct (ancestors_loop_total t tenant (ancestors_fuel t) (b_parent b) ∅) as [l Hl].
  { unfold ancestors_fuel. rewrite difference_empty_L, size_dom. lia. }
  exists l. rewrite Hl. split; [done|]. eapply ancestors_loop_chain; [done| | |exact Hl].
  - intros p Hp. destruct (parent_row t Hok tenant id b p Hb Hp) as (pb & Hpb & _). by eexists.
  - intros q p bp Hin. by apply elem_of_empty in Hin.
Qed.

(** ** Every write keeps the tree a tree *)

Lemma path_taken_false t tenant p but :
  path_taken t tenant p but = false <->
  forall j b, t !! j = Some b -> b_tenant b = tenant -> path b = p -> j = but.
Proof.
  unfold path_taken. rewrite <- not_true_iff_false, existsb_exists. split.
  - intros H j b Hj <- <-. destruct (decide (j = but)) as [|Hne]; [done|]. exfalso.
    apply H. exists (j, b). split; [by apply list_elem_of_In, elem_of_map_to_list|].
    simpl. rewrite !String.eqb_refl. by apply String.eqb_neq in Hne as ->.
  - intros H ([j b] & Hin & Hb). apply list_elem_of_In, elem_of_map_to_list in Hin.
    simpl in Hb. apply andb_true_iff in Hb as [Hb Hne].
    apply andb_true_iff in Hb as [Ht%String.eqb_eq Hp%String.eqb_eq].
    apply negb_true_iff, String.eqb_neq in Hne. eauto.
Qed.

Lemma put_row_ok t id b t' :
  put_row t id b = Ok t' ->
  t' = <[id := b]> t /\
  (forall j x, t !! j = Some x -> b_tenant x = b_tenant b -> path x = path b -> j = id).
Proof.
  unfold put_row. destruct (path_taken _ _ _ _) eqn:E; simpl; [done|].
  destruct (root_taken _ _ _); [done|]. intros [= <-]. split; [done|].
  by apply path_taken_false.
Qed.

Lemma placed_mono t t' b :
  (forall p pb, fetch t (b_tenant b) p = Some pb -> b_parent b = Some p ->
     fetch t' (b_tenant b) p = Some pb) ->
  placed t b -> placed t' b.
Proof.
  unfold placed. destruct (b_parent b) as [p|]; [|done].
  intros H (pb & Hpb & ?). exists pb. split; [by apply H|done].
Qed.

Lemma create_ok tenant name kind parent slug_arg id own t t' b :
  tree_ok t ->
  create_branch tenant name kind parent slug_arg id own t = Ok (t', b) ->
  tree_ok t' /\ t !! id = None /\ t' = <[id := b]> t /\
  b_tenant b = tenant /\ b_parent b = parent /\ b_kind b = kind.
Proof.
  intros Hok H. unfold create_branch in H.
  destruct (negb (truthy tenant)); [done|]. destruct (negb (str_in kind BRANCH_KINDS)); [done|].
  set (seg := slugify _) in *.
  assert (exists po, (match parent with
      | None => Ok None
      | Some p => match fetch t tenant p with None => Err BranchNotFound | Some b => Ok (Some b) end
      end : result branch_error (option branch)) = Ok po /\
      match parent with None => po = None | Some p => exists pb, po = Some pb /\ fetch t tenant p = Some pb end)
    as (po & Hpo & Hspec).
  { destruct parent as [p|]; [destruct (fetch t tenant p) as [pb|] eqn:E|]; [|done|by eexists].
    eexists. split; [done|]. by eexists. }
  rewrite Hpo in H. destruct (_check_placement kind po); [|done].
  destruct (Z.leb_spec MAX_BRANCH_DEPTH (match po with Some b => depth b + 1 | None => 0 end)) as [|Hd];
    [done|].
  set (row := {| b_tenant := tenant |}) in *.
  unfold insert_row in H. destruct (t !! id) eqn:Hid; [done|].
  destruct (put_row t id row) as [t1|] eqn:Hput; [|done]. injection H as <- <-.
  apply put_row_ok in Hput as [-> Huniq]. split_and!; try done.
  assert (forall x p pb, fetch t x p = Some pb -> fetch (<[id := row]> t) x p = Some pb) as Hmono.
  { intros x p pb [Hp Hx]%fetch_Some. apply fetch_Some. split; [|done].
    rewrite lookup_insert_ne; [done|]. intros ->. congruence. }
  split.
  - intros j x [[<- <-]|[_ Hj]]%lookup_insert_Some; [apply slugify_ok|by eapply ok_slug].
  - intros j x [[<- <-]|[_ Hj]]%lookup_insert_Some.
    + unfold placed. simpl. destruct parent as [p|].
      * destruct Hspec as (pb & -> & Hpb). exists pb. split; [by apply Hmono|done].
      * by rewrite Hspec.
    + eapply placed_mono; [|by eapply ok_place]. intros p pb Hp _. by apply Hmono.
  - intros i j x y [[<- <-]|[Hi Hx]]%lookup_insert_Some [[<- <-]|[Hj Hy]]%lookup_insert_Some Ht Hp.
    + done.
    + exfalso. apply Hj. symmetry. eapply Huniq; [exact Hy|done|done].
    + exfalso. apply Hi. symmetry. eapply Huniq; [exact Hx|done|done].
    + by eapply (ok_unique t).
  - intros j x [[<- <-]|[_ Hj]]%lookup_insert_Some; [|by eapply ok_depth].
    simpl. destruct parent as [p|]; [destruct Hspec as (pb & -> & Hpb)|rewrite Hspec in *; lia].
    apply fetch_Some in Hpb as [Hpb _]. pose proof (ok_depth t Hok _ _ Hpb). lia.
Qed.

(** ** Moving a subtree *)

Lemma update_descendants_ok old new shift rows t t' :
  NoDup rows.*1 ->
  update_descendants old new shift rows t = Ok t' ->
  (forall k b, (k, b) ∈ rows ->
     t' !! k = Some (set_place b (new +:+ drop_prefix old (path b)) (depth b + shift))) /\
  (forall k, k ∉ rows.*1 -> t' !! k = t !! k).
Proof.
  revert t. induction rows as [|[id b] rows IH]; intros t; cbn [update_descendants fmap list_fmap fst].
  { intros _ [= <-]. split; [by intros k b ?%elem_of_nil|done]. }
  intros [Hid Hnd]%NoDup_cons H.
  destruct (put_row t id _) as [t1|] eqn:Hput; [|done].
  apply put_row_ok in Hput as [-> _].
  destruct (IH _ Hnd H) as [H1 H2]. split.
  - intros k x [[= -> ->]|Hk]%elem_of_cons; [|by apply H1].
    rewrite H2 by done. by rewrite lookup_insert_eq.
  - intros k [Hne Hk]%not_elem_of_cons. rewrite H2 by done.
    by rewrite lookup_insert_ne.
Qed.

(** What a move does to one row: the moved branch gets its new parent, the
    rows below it get their path prefix replaced, the others are kept. *)
Definition relocated (tenant id old : string) (parent : option string)
    (new : string) (new_depth shift : Z) (x : string) (b : branch) : branch :=
  if String.eqb x id then set_parent b parent new new_depth
  else if String.eqb (b_tenant b) tenant && _within (path b) old
  then set_place b (new +:+ drop_prefix old (path b)) (depth b + shift)
  else b.

Record move_facts (tenant id : string) (parent : option string) (t t' : tree)
    (b row : branch) : Prop := {
  mv_fetch : fetch t tenant id = Some b;
  mv_parent : match parent with
    | None => path row = "/" +:+ slug b /\ depth row = 0
    | Some p => exists pb, fetch t tenant p = Some pb /\ p <> id /\
        _within (path pb) (path b) = false /\
        path row = path pb +:+ "/" +:+ slug b /\ depth row = depth pb + 1
    end;
  mv_row : row = set_parent b parent (path row) (depth row);
  mv_free : forall j x, t !! j = Some x -> b_tenant x = tenant -> path x = path row -> j = id;
  mv_depth : forall k x, fetch t tenant k = Some x -> k = id \/ _within (path x) (path b) = true ->
    depth x + (depth row - depth b) < MAX_BRANCH_DEPTH;
  mv_rows : forall x, t' !! x =
    relocated tenant id (path b) parent (path row) (depth row) (depth row - depth b) x <$> t !! x;
}.

Lemma foldl_max_ge l (z : Z) : z <= foldl Z.max z l /\ forall x, x ∈ l -> x <= foldl Z.max z l.
Proof.
  revert z. induction l as [|y l IH]; intros z; simpl.
  { split; [lia|by intros x ?%elem_of_nil]. }
  destruct (IH (Z.max z y)) as [H1 H2]. split; [lia|].
  intros x [->|Hx]%elem_of_cons; [lia|by apply H2].
Qed.

Lemma deepest_ge rows base kb :
  kb ∈ rows -> depth kb.2 - base <= _deepest rows base.
Proof.
  intros H. unfold _deepest. destruct rows as [|r rows]; [by apply elem_of_nil in H|].
  simpl. destruct (foldl_max_ge (map (fun kb => depth kb.2 - base) rows) (depth r.2 - base))
    as [H1 H2].
  apply elem_of_cons in H as [->|H]; [done|]. apply H2. apply list_elem_of_fmap. eauto.
Qed.

Lemma fetch_descendants_elem t tenant p k b :
  (k, b) ∈ _fetch_descendants t tenant p <->
  fetch t tenant k = Some b /\ _within (path b) p = true.
Proof.
  unfold _fetch_descendants.
  rewrite (merge_sort_Permutation _ _), list_elem_of_In, filter_In, <- list_elem_of_In.
  rewrite elem_of_map_to_list. simpl. rewrite andb_true_iff, String.eqb_eq, fetch_Some. tauto.
Qed.

Lemma fetch_descendants_nodup t tenant p : NoDup (_fetch_descendants t tenant p).*1.
Proof.
  unfold _fetch_descendants. rewrite (merge_sort_Permutation _ _).
  pose proof (NoDup_fst_map_to_list t) as Hnd. revert Hnd.
  generalize (map_to_list t). intros l.
  induction l as [|kb l IH]; [done|]. cbn [List.filter fmap list_fmap].
  intros [Hk Hnd]%NoDup_cons. specialize (IH Hnd).
  destruct (_ && _); [|done]. apply NoDup_cons. split; [|done].
  intros Hin. apply Hk. apply list_elem_of_fmap in Hin as (x & Hx & Hin).
  apply list_elem_of_fmap. exists x. split; [done|].
  apply list_elem_of_In, filter_In in Hin as [? _]. by apply list_elem_of_In.
Qed.

Lemma tc_depth t tenant x a :
  tree_ok t -> tc (parent_of t tenant) x a ->
  forall bx ba, fetch t tenant x = Some bx -> fetch t tenant a = Some ba -> depth ba < depth bx.
Proof.
  intros Hok. induction 1 as [x a (b & Hb & Hp)|x y a (b & Hb & Hp) _ IH]; intros bx ba Hx Ha;
    destruct (parent_row t Hok _ _ _ _ Hb Hp) as (pb & Hpb & _ & Hd); simplify_eq; [lia|].
  specialize (IH _ _ Hpb Ha). lia.
Qed.

Lemma below_deeper t tenant x a bx ba :
  tree_ok t -> fetch t tenant x = Some bx -> fetch t tenant a = Some ba ->
  _within (path bx) (path ba) = true -> depth ba < depth bx.
Proof.
  intros Hok Hx Ha Hw. apply (within_tc t Hok tenant x a bx ba Hx Ha) in Hw.
  by eapply tc_depth.
Qed.

Lemma deepest_nonneg t tenant id b :
  tree_ok t -> fetch t tenant id = Some b ->
  0 <= _deepest (_fetch_descendants t tenant (path b)) (depth b).
Proof.
  intros Hok Hb. destruct (_fetch_descendants t tenant (path b)) as [|[k y] l] eqn:E; [done|].
  assert ((k, y) ∈ _fetch_descendants t tenant (path b)) as Hk by (rewrite E; left).
  rewrite <- E. pose proof (deepest_ge _ (depth b) _ Hk) as Hge. simpl in Hge.
  apply fetch_descendants_elem in Hk as [Hk Hw].
  pose proof (below_deeper _ _ _ _ _ _ Hok Hk Hb Hw). lia.
Qed.

Lemma move_ok tenant id parent t t' row :
  tree_ok t ->
  move_branch tenant id parent t = Ok (t', row) ->
  exists b, move_facts tenant id parent t t' b row.
Proof.
  intros Hok. unfold move_branch. intros H. destruct (negb (truthy tenant)); [done|].
  destruct (fetch t tenant id) as [b|] eqn:Hb; [|done]. exists b.
  destruct (match parent with None => Ok None | Some p => _ end) as [po|] eqn:Hpo; [|done].
  destruct (_check_placement (b_kind b) po); [|done].
  set (np := match po with Some pb => path pb +:+ "/" +:+ slug b | None => "/" +:+ slug b end) in *.
  set (nd := match po with Some pb => depth pb + 1 | None => 0 end) in *.
  pose proof (deepest_nonneg _ _ _ _ Hok Hb) as Hdn.
  set (ds := _fetch_descendants t tenant (path b)) in *.
  destruct (Z.leb_spec MAX_BRANCH_DEPTH (nd + _deepest ds (depth b))) as [|Hd]; [done|].
  destruct (put_row t id (set_parent b parent np nd)) as [t1|] eqn:Hput; [|done].
  apply put_row_ok in Hput as [-> Hfree].
  destruct (update_descendants _ _ _ _ _) as [t2|] eqn:Hup; [|done].
  injection H as <- <-.
  apply update_descendants_ok in Hup as [Hin Hout]; [|apply fetch_descendants_nodup].
  apply fetch_Some in Hb as Hb'. destruct Hb' as [Hidt Hten].
  assert (id ∉ ds.*1) as Hself.
  { intros Hk. apply list_elem_of_fmap in Hk as ([k y] & -> & Hk).
    apply fetch_descendants_elem in Hk as [Hk Hw].
    pose proof (below_deeper _ _ _ _ _ _ Hok Hk Hb Hw) as Hlt.
    simpl in Hb. assert (y = b) by congruence. subst. lia. }
  split; cbn [path depth set_parent].
  - done.
  - destruct parent as [p|]; [|by injection Hpo as <-].
    destruct (fetch t tenant p) as [pb|]; [|done].
    destruct (String.eqb_spec p id) as [|Hne]; simpl in Hpo; [done|].
    destruct (_within (path pb) (path b)) eqn:Hw; [done|]. injection Hpo as <-.
    exists pb. by split_and!.
  - done.
  - intros j x Hj Hx Hp. eapply Hfree; [exact Hj|by rewrite Hx|done].
  - intros k x Hx [->|Hw].
    + assert (x = b) by congruence. subst. lia.
    + assert ((k, x) ∈ ds) as Hk by (by apply fetch_descendants_elem).
      pose proof (deepest_ge ds (depth b) _ Hk) as Hge. simpl in Hge. lia.
  - intros x. unfold relocated. destruct (String.eqb_spec x id) as [->|Hne].
    { by rewrite Hout, lookup_insert_eq, Hidt. }
    destruct (t !! x) as [y|] eqn:Hx; simpl.
    + destruct (String.eqb (b_tenant y) tenant && _within (path y) (path b)) eqn:Hc.
      * apply andb_true_iff in Hc as [Ht%String.eqb_eq Hw].
        apply Hin, fetch_descendants_elem. split; [by apply fetch_Some|done].
      * rewrite Hout; [rewrite lookup_insert_ne by done|]. { by rewrite Hx. }
        intros Hk. apply list_elem_of_fmap in Hk as ([k z] & -> & Hk).
        apply fetch_descendants_elem in Hk as [[Hk Ht]%fetch_Some Hw]. simpl in *.
        assert (z = y) as -> by congruence. rewrite Hw, andb_true_r in Hc.
        by apply String.eqb_neq in Hc.
    + rewrite Hout; [rewrite lookup_insert_ne by done|]. { by rewrite Hx. }
      intros Hk. apply list_elem_of_fmap in Hk as ([k z] & -> & Hk).
      apply fetch_descendants_elem in Hk as [[Hk Ht]%fetch_Some Hw]. simpl in *. congruence.
Qed.

Section moved.
Variables (tenant id : string) (parent : option string) (t t' : tree) (b row : branch).
Hypothesis Hok : tree_ok t.
Hypothesis Hmv : move_facts tenant id parent t t' b row.

(** A row is below the moved branch. *)
Definition below (x : branch) : bool :=
  String.eqb (b_tenant x) tenant && _within (path x) (path b).

Lemma row_id x : t !! id = Some x -> x = b.
Proof. intros H. pose proof (mv_fetch _ _ _ _ _ _ _ Hmv) as [Hb _]%fetch_Some. congruence. Qed.

Lemma id_not_below : below b = false.
Proof.
  unfold below. pose proof (mv_fetch _ _ _ _ _ _ _ Hmv) as Hb.
  destruct (_within (path b) (path b)) eqn:E; [|by rewrite andb_false_r].
  pose proof (below_deeper _ _ _ _ _ _ Hok Hb Hb E). lia.
Qed.

Lemma new_lookup x y :
  t' !! x = Some y -> exists z, t !! x = Some z /\
    y = relocated tenant id (path b) parent (path row) (depth row) (depth row - depth b) x z.
Proof. rewrite (mv_rows _ _ _ _ _ _ _ Hmv). intros (z & Hz & ->)%fmap_Some. eauto. Qed.

Lemma relocated_same x z :
  let y := relocated tenant id (path b) parent (path row) (depth row) (depth row - depth b) x z in
  b_tenant y = b_tenant z /\ slug y = slug z /\ b_kind y = b_kind z /\
  b_name y = b_name z /\ owner y = owner z.
Proof. unfold relocated. destruct (String.eqb x id); [done|]. by destruct (_ && _). Qed.

(** Rows outside the moved subtree are found unchanged. *)
Lemma fetch_outside tn x z :
  fetch t tn x = Some z -> x <> id -> below z = false -> fetch t' tn x = Some z.
Proof.
  intros [Hx Ht]%fetch_Some Hne Hz. apply fetch_Some. split; [|done].
  rewrite (mv_rows _ _ _ _ _ _ _ Hmv), Hx. simpl. unfold relocated. unfold below in Hz.
  apply String.eqb_neq in Hne as ->. by rewrite Hz.
Qed.

Lemma moved_placed x y : t' !! x = Some y -> placed t' y.
Proof.
  intros (z & Hz & ->)%new_lookup. pose proof (mv_fetch _ _ _ _ _ _ _ Hmv) as Hb.
  apply fetch_Some in Hb as Hb'. destruct Hb' as [Hbt Hten].
  unfold relocated. destruct (String.eqb_spec x id) as [->|Hne].
  { pose proof (mv_parent _ _ _ _ _ _ _ Hmv) as Hp. unfold placed. simpl.
    apply row_id in Hz as ->. remember parent as po eqn:Hpo in Hp |- *.
    destruct po as [p|]; [|done].
    destruct Hp as (pb & Hpb & Hpne & Hw & Hpath & Hd). exists pb. rewrite Hten.
    split; [|done]. apply fetch_outside; [done..|]. unfold below. by rewrite Hw, andb_false_r. }
  pose proof (ok_place t Hok _ _ Hz) as Hpl.
  assert (fetch t (b_tenant z) x = Some z) as Hfz by (by apply fetch_Some).
  assert (no_slash (slug z)) as Hns by (by eapply fetch_slug).
  destruct (String.eqb_spec (b_tenant z) tenant) as [Ht|Ht]; simpl.
  - destruct (_within (path z) (path b)) eqn:Hw.
    + (* below the moved branch *)
      unfold placed in *. simpl. destruct (b_parent z) as [q|].
      2: { destruct Hpl as [Hpl _]. rewrite Hpl, within_root in Hw; [done|done|].
           by eapply path_nonempty. }
      destruct Hpl as (qb & Hq & Hpath & Hd). rewrite Ht in *.
      rewrite Hpath in Hw. apply within_child in Hw as [Heq|Hw]; [| |done].
      * (* the parent is the moved branch itself *)
        assert (q = id) as ->.
        { apply fetch_Some in Hq as [Hq Hqt].
          eapply (ok_unique t Hok); [exact Hq|exact Hbt|congruence|done]. }
        assert (qb = b) as -> by congruence.
        exists row. split; [|split; [by rewrite Hpath, drop_prefix_app|lia]].
        apply fetch_Some. rewrite (mv_rows _ _ _ _ _ _ _ Hmv), Hbt. simpl.
        unfold relocated. rewrite String.eqb_refl.
        rewrite <- (mv_row _ _ _ _ _ _ _ Hmv). split; [done|].
        rewrite (mv_row _ _ _ _ _ _ _ Hmv). done.
      * assert (q <> id) as Hqne.
        { intros ->. assert (qb = b) as -> by congruence.
          pose proof (below_deeper _ _ _ _ _ _ Hok Hb Hb Hw). lia. }
        apply fetch_Some in Hq as Hq'. destruct Hq' as [Hqt Hqten].
        eexists. split; [|split].
        -- apply fetch_Some. rewrite (mv_rows _ _ _ _ _ _ _ Hmv), Hqt. simpl.
           unfold relocated. apply String.eqb_neq in Hqne as ->.
           rewrite Hqten, String.eqb_refl, Hw. simpl. split; [reflexivity|done].
        -- simpl. rewrite Hpath. apply within_spec in Hw as [r ->].
           rewrite (str_app_assoc (path b) ("/" +:+ r)), !drop_prefix_app.
           by rewrite !str_app_assoc.
        -- simpl. lia.
    + eapply placed_mono; [|exact Hpl]. intros q qb Hq Hqp.
      unfold placed in Hpl. rewrite Hqp in Hpl. destruct Hpl as (qb' & Hq' & Hpath & _).
      assert (qb' = qb) as -> by congruence.
      apply not_true_iff_false in Hw. apply fetch_outside; [done| |].
      * intros ->. apply Hw. rewrite Hpath. apply within_child; [done|left].
        apply fetch_Some in Hq as [Hq _]. by rewrite (row_id _ Hq).
      * unfold below. destruct (_within (path qb) (path b)) eqn:E; [|by rewrite andb_false_r].
        exfalso. apply Hw. rewrite Hpath. apply within_child; [done|by right].
  - eapply placed_mono; [|exact Hpl]. intros q qb Hq _. apply fetch_Some in Hq as Hq'.
    destruct Hq' as [Hqt Hqten]. apply fetch_outside; [done| |].
    + intros ->. apply row_id in Hqt as ->. congruence.
    + unfold below. rewrite Hqten. by apply String.eqb_neq in Ht as ->.
Qed.

Lemma row_path_nonempty : path row <> "".
Proof.
  pose proof (mv_parent _ _ _ _ _ _ _ Hmv) as Hp. remember parent as po eqn:Hpo in Hp.
  destruct po as [p|]; [destruct Hp as (pb & _ & _ & _ & -> & _)|destruct Hp as [-> _]; done].
  by destruct (path pb).
Qed.

(** Where a row of the new tree comes from: inside the moved subtree its
    path had the old prefix and has the new one; elsewhere it is as it was. *)
Lemma origin x y :
  t' !! x = Some y -> exists z, t !! x = Some z /\ b_tenant y = b_tenant z /\
    ((b_tenant z = tenant /\ (x = id \/ below z = true) /\
      exists r, path z = path b +:+ r /\ path y = path row +:+ r /\
        (r = "" \/ exists r', r = "/" +:+ r')) \/
     (x <> id /\ below z = false /\ y = z)).
Proof.
  intros (z & Hz & ->)%new_lookup. exists z. split; [done|].
  split; [by apply relocated_same|]. unfold relocated, below.
  destruct (String.eqb_spec x id) as [->|Hne].
  - left. apply row_id in Hz as ->.
    pose proof (mv_fetch _ _ _ _ _ _ _ Hmv) as [_ Hten]%fetch_Some.
    split_and!; [done|by left|]. exists "". rewrite !str_app_nil_r.
    split_and!; [done|done|by left].
  - destruct (String.eqb_spec (b_tenant z) tenant) as [Ht|Ht]; simpl; [|by right].
    destruct (_within (path z) (path b)) eqn:Hw; [left|by right].
    apply within_spec in Hw as [r Hr]. split_and!; [done|by right|].
    exists ("/" +:+ r). simpl. rewrite Hr, drop_prefix_app.
    split_and!; [done|done|right; by eexists].
Qed.

Lemma moved_unique i j x y :
  t' !! i = Some x -> t' !! j = Some y -> b_tenant x = b_tenant y -> path x = path y -> i = j.
Proof.
  assert (forall i j x y, t' !! i = Some x -> t' !! j = Some y ->
    b_tenant x = b_tenant y -> path x = path y ->
    forall zi zj r, t !! i = Some zi -> t !! j = Some zj ->
    b_tenant zi = tenant -> path x = path row +:+ r ->
    (r = "" \/ exists r', r = "/" +:+ r') ->
    j <> id -> below zj = false -> y = zj -> False) as Hmixed.
  { clear i j x y. intros i j x y Hx Hy Ht Hp zi zj r Hzi Hzj Hten Hr Hcase Hj Hbz ->.
    assert (b_tenant zj = tenant) as Hjt.
    { destruct (origin _ _ Hx) as (z & Hz & E & _). congruence. }
    assert (fetch t tenant j = Some zj) as Hfj by (by apply fetch_Some).
    destruct Hcase as [->|[r' ->]].
    - rewrite str_app_nil_r in Hr. apply Hj.
      eapply (mv_free _ _ _ _ _ _ _ Hmv); [exact Hzj|done|congruence].
    - destruct (within_ancestor t Hok tenant j zj (path row)) as (a & ba & Ha & Hpa & Htc);
        [done|apply row_path_nonempty| |].
      { apply within_spec. exists r'. congruence. }
      assert (a = id) as ->.
      { apply fetch_Some in Ha as [Ha Hat]. by eapply (mv_free _ _ _ _ _ _ _ Hmv). }
      pose proof (mv_fetch _ _ _ _ _ _ _ Hmv) as Hb. assert (ba = b) as -> by congruence.
      apply (within_tc t Hok tenant j id zj b Hfj Hb) in Htc.
      unfold below in Hbz. by rewrite Hjt, String.eqb_refl, Htc in Hbz. }
  intros Hx Hy Ht Hp.
  destruct (origin _ _ Hx) as (zi & Hzi & Eti & Hi), (origin _ _ Hy) as (zj & Hzj & Etj & Hj).
  destruct Hi as [(Hti & _ & ri & Hri & Hxi & Hci)|(Hi & Hbi & Hxi)],
    Hj as [(Htj & _ & rj & Hrj & Hyj & Hcj)|(Hj & Hbj & Hyj)].
  - assert (ri = rj) as -> by (apply (str_app_inv_l (path row)); congruence).
    eapply (ok_unique t Hok); [exact Hzi|exact Hzj|congruence|congruence].
  - exfalso. by eapply (Hmixed i j x y Hx Hy Ht Hp zi zj ri).
  - exfalso. by eapply (Hmixed j i y x Hy Hx (eq_sym Ht) (eq_sym Hp) zj zi rj).
  - subst. by eapply (ok_unique t Hok).
Qed.

Lemma moved_depth x y : t' !! x = Some y -> 0 <= depth y < MAX_BRANCH_DEPTH.
Proof.
  intros (z & Hz & ->)%new_lookup. pose proof (ok_depth t Hok _ _ Hz) as Hd.
  pose proof (mv_fetch _ _ _ _ _ _ _ Hmv) as Hb.
  assert (0 <= depth row) as Hrow.
  { pose proof (mv_parent _ _ _ _ _ _ _ Hmv) as Hp. remember parent as po eqn:Hpo in Hp.
    destruct po as [p|]; [|lia]. destruct Hp as (pb & [Hpb _]%fetch_Some & _ & _ & _ & ->).
    pose proof (ok_depth t Hok _ _ Hpb). lia. }
  pose proof (mv_depth _ _ _ _ _ _ _ Hmv) as Hbound.
  unfold relocated. destruct (String.eqb_spec x id) as [->|Hne]; simpl.
  - apply row_id in Hz as ->. specialize (Hbound _ _ Hb (or_introl eq_refl)). lia.
  - destruct (String.eqb_spec (b_tenant z) tenant) as [Ht|Ht]; simpl; [|done].
    destruct (_within (path z) (path b)) eqn:Hw; [|done]. simpl.
    assert (fetch t tenant x = Some z) as Hfz by (by apply fetch_Some).
    pose proof (below_deeper _ _ _ _ _ _ Hok Hfz Hb Hw).
    specialize (Hbound _ _ Hfz (or_intror Hw)). lia.
Qed.

Lemma moved_tree_ok : tree_ok t'.
Proof.
  split.
  - intros x y (z & Hz & ->)%new_lookup.
    destruct (relocated_same x z) as (_ & -> & _). by eapply ok_slug.
  - apply moved_placed.
  - apply moved_unique.
  - apply moved_depth.
Qed.
End moved.

(** ** What the repository guarantees *)

Inductive tree_step (t : tree) : tree -> Prop :=
| step_create tenant name kind parent slug_arg id own t' b :
    create_branch tenant name kind parent slug_arg id own t = Ok (t', b) -> tree_step t t'
| step_move tenant id parent t' b :
    move_branch tenant id parent t = Ok (t', b) -> tree_step t t'.

(** The trees a sequence of successful creations and moves can build. *)
Definition built (t : tree) : Prop := rtc tree_step ∅ t.

Lemma step_tree_ok t t' : tree_ok t -> tree_step t t' -> tree_ok t'.
Proof.
  intros Hok [tenant name kind parent slug_arg id own t1 b H|tenant id parent t1 row H].
  - by eapply create_ok in H as [? _].
  - apply move_ok in H as [b Hmv]; [|done]. by eapply moved_tree_ok.
Qed.

Lemma built_ok t : built t -> tree_ok t.
Proof.
  unfold built. assert (tree_ok ∅) as H0.
  { split; intros *; rewrite ?lookup_empty; done. }
  revert H0. generalize (∅ : tree). intros t0 H0 H. revert H0.
  induction H as [|x y z Hxy _ IH]; [done|]. intros H0. by eapply IH, step_tree_ok.
Qed.

(** Whatever branches are created and moved, the hierarchy stays a
    forest with unambiguous paths: no branch is its own ancestor, no two
    branches of an account share a path, a root's path is its slug and any
    other branch's path is its parent's path and its slug, its parent is a
    branch of the same account one level up, and no branch is deeper than
    the limit. *)
Theorem hierarchy_is_a_forest t :
  built t ->
  (forall tenant x, tc (parent_of t tenant) x x -> False) /\
  (forall i j a b, t !! i = Some a -> t !! j = Some b ->
     b_tenant a = b_tenant b -> path a = path b -> i = j) /\
  (forall id b, t !! id = Some b -> slug_ok (slug b) /\ 0 <= depth b < MAX_BRANCH_DEPTH /\
     match b_parent b with
     | None => path b = "/" +:+ slug b /\ depth b = 0
     | Some p => exists pb, fetch t (b_tenant b) p = Some pb /\
         path b = path pb +:+ "/" +:+ slug b /\ depth b = depth pb + 1
     end).
Proof.
  intros Hok%built_ok. split_and!.
  - intros tenant x H. destruct (ancestor_within t Hok tenant x x H) as (b & b' & Hb & Hb' & Hw).
    assert (b' = b) as -> by congruence.
    pose proof (tc_depth _ _ _ _ Hok H _ _ Hb Hb). lia.
  - by apply ok_unique.
  - intros id b Hb. split; [by eapply ok_slug|]. split; [by eapply ok_depth|].
    by apply (ok_place t Hok id).
Qed.

(** The two ways of reading the tree agree: the prefix scan on paths
    returns exactly the branch and its descendants by parent, each once; the
    walk up the parents always ends, and returns exactly the proper ancestors,
    root first. *)
Theorem subtree_and_ancestors t tenant id b :
  built t -> fetch t tenant id = Some b ->
  (exists l, subtree t tenant id = Ok l /\ NoDup l.*1 /\
     forall a ba, (a, ba) ∈ l <->
       fetch t tenant a = Some ba /\ descends t tenant a id) /\
  (exists l, ancestors t tenant id = Ok l /\ chain t tenant (b_parent b) (rev l) /\
     forall a ba, (a, ba) ∈ l <->
       fetch t tenant a = Some ba /\ tc (parent_of t tenant) id a).
Proof.
  intros Hok%built_ok Hb. split.
  - unfold subtree. rewrite Hb. eexists. split; [done|].
    assert (forall a ba, (a, ba) ∈ (id, b) :: _fetch_descendants t tenant (path b) <->
       fetch t tenant a = Some ba /\ descends t tenant a id) as Hspec.
    { intros a ba. rewrite elem_of_cons, fetch_descendants_elem. unfold descends. split.
      - intros [[= -> ->]|[Ha Hw]]; [by split; [|apply rtc_refl]|].
        split; [done|]. apply tc_rtc. by apply (within_tc t Hok tenant a id ba b).
      - intros [Ha Hd]. apply rtc_tc in Hd as [->|Hd]; [left; congruence|right].
        split; [done|]. by apply (within_tc t Hok tenant a id ba b). }
    split; [|done]. simpl. apply NoDup_cons. split; [|apply fetch_descendants_nodup].
    intros Hin. apply list_elem_of_fmap in Hin as ([k y] & Hk & Hin). simpl in Hk. subst k.
    apply fetch_descendants_elem in Hin as [Hy Hw].
    pose proof (below_deeper _ _ _ _ _ _ Hok Hy Hb Hw).
    assert (y = b) as -> by congruence. lia.
  - destruct (ancestors_ok t tenant id b Hok Hb) as (l & Hl & Hc).
    exists (rev l). rewrite Hl, rev_involutive. split; [done|]. split; [done|].
    intros a ba. rewrite list_elem_of_In, <- in_rev, <- list_elem_of_In.
    rewrite (chain_elem _ _ _ _ Hc). apply and_iff_compat_l. split.
    + intros (p & Hp & [->|Htc]); (assert (parent_of t tenant id p) by (by exists b));
        [by apply tc_once|by eapply tc_l].
    + intros Htc. inversion Htc as [? ? (b' & Hb' & Hq)|? y ? (b' & Hb' & Hq) Hy]; simplify_eq;
        (eexists; split; [done|]); [by left|by right].
Qed.

Lemma move_descends tenant id parent t t' b row x :
  tree_ok t -> move_facts tenant id parent t t' b row ->
  descends t' tenant x id <-> descends t tenant x id.
Proof.
  intros Hok Hmv.
  assert (forall a p, a <> id -> parent_of t' tenant a p <-> parent_of t tenant a p) as Hpar.
  { intros a p Hne. unfold parent_of. apply String.eqb_neq in Hne. split.
    - intros (y & [Hy Ht]%fetch_Some & Hp). rewrite (mv_rows _ _ _ _ _ _ _ Hmv) in Hy.
      apply fmap_Some in Hy as (z & Hz & ->). exists z. rewrite fetch_Some.
      revert Ht Hp. unfold relocated. rewrite Hne. by destruct (_ && _).
    - intros (z & [Hz Ht]%fetch_Some & Hp). eexists. rewrite fetch_Some.
      rewrite (mv_rows _ _ _ _ _ _ _ Hmv), Hz. simpl. split; [split; [done|]|];
      unfold relocated; rewrite Hne; by destruct (_ && _). }
  unfold descends. split; revert x; apply rtc_ind_l; try apply rtc_refl;
    intros x y Hxy _ IH; (destruct (decide (x = id)) as [->|Hne]; [apply rtc_refl|]);
    (eapply rtc_l; [by apply Hpar|done]).
Qed.

(** A move carries its whole subtree and nothing else: it is refused
    under the branch itself or below it, and otherwise the same branches are
    below the moved one before and after, every one of them has exactly the
    old path prefix replaced by the new one and its depth shifted, the moved
    branch hangs under its new parent, and every other row of the table is
    untouched. *)
Theorem move_carries_subtree t tenant id parent :
  built t ->
  (forall p, parent = Some p -> descends t tenant p id -> is_Some (fetch t tenant id) ->
     is_ok (move_branch tenant id parent t) = false) /\
  (forall t' row, move_branch tenant id parent t = Ok (t', row) ->
     exists b, fetch t tenant id = Some b /\ fetch t' tenant id = Some row /\
       b_parent row = parent /\ slug row = slug b /\
       (forall x, descends t' tenant x id <-> descends t tenant x id) /\
       (forall x z, fetch t tenant x = Some z -> descends t tenant x id -> x <> id ->
          exists r, path z = path b +:+ "/" +:+ r /\
            t' !! x = Some (set_place z (path row +:+ "/" +:+ r)
                              (depth z + (depth row - depth b)))) /\
       (forall x, (is_Some (fetch t tenant x) -> descends t tenant x id -> False) ->
          t' !! x = t !! x)).
Proof.
  intros Hok%built_ok. split.
  - intros p -> Hd [b Hb]. unfold move_branch, is_ok. destruct (negb (truthy tenant)); [done|].
    rewrite Hb. destruct (fetch t tenant p) as [pb|] eqn:Hp; [|done].
    destruct (String.eqb_spec p id) as [|Hne]; [done|].
    apply rtc_tc in Hd as [?|Hd]; [done|].
    apply (within_tc t Hok tenant p id pb b Hp Hb) in Hd. by rewrite Hd.
  - intros t' row H. apply move_ok in H as [b Hmv]; [|done]. exists b.
    pose proof (mv_fetch _ _ _ _ _ _ _ Hmv) as Hb. split; [done|].
    apply fetch_Some in Hb as Hb'. destruct Hb' as [Hbt Hten].
    pose proof (mv_row _ _ _ _ _ _ _ Hmv) as Hrow. split_and!.
    + apply fetch_Some. rewrite (mv_rows _ _ _ _ _ _ _ Hmv), Hbt. simpl. unfold relocated.
      rewrite String.eqb_refl, <- Hrow. split; [done|]. by rewrite Hrow.
    + by rewrite Hrow.
    + by rewrite Hrow.
    + intros x. by eapply move_descends.
    + intros x z Hz Hd Hne. apply rtc_tc in Hd as [?|Hd]; [done|].
      apply (within_tc t Hok tenant x id z b Hz Hb) in Hd.
      apply within_spec in Hd as Hr. destruct Hr as [r Hr]. exists r. split; [done|].
      apply fetch_Some in Hz as [Hz Ht]. rewrite (mv_rows _ _ _ _ _ _ _ Hmv), Hz. simpl.
      unfold relocated. apply String.eqb_neq in Hne as ->.
      rewrite Ht, String.eqb_refl, Hd. simpl. by rewrite Hr, drop_prefix_app.
    + intros x Hx. rewrite (mv_rows _ _ _ _ _ _ _ Hmv).
      destruct (t !! x) as [z|] eqn:Hz; [|done]. simpl. f_equal. unfold relocated.
      destruct (String.eqb_spec x id) as [->|Hne].
      { exfalso. apply Hx; [by eexists|apply rtc_refl]. }
      destruct (String.eqb_spec (b_tenant z) tenant) as [Ht|]; [|done].
      destruct (_within (path z) (path b)) eqn:Hw; [|done]. exfalso.
      assert (fetch t tenant x = Some z) as Hf by (by apply fetch_Some).
      apply Hx; [by eexists|]. apply tc_rtc. by apply (within_tc t Hok tenant x id z b).
Qed.

(** ** A concrete tree: /acme/sales/emea *)

Definition ex_create (name kind : string) (parent : option string) (id : string)
    (t : tree) : tree :=
  match create_branch "t" name kind parent None id None t with
  | Ok (t', _) => t' | Err _ => t end.

Definition ex_tree1 : tree := ex_create "Acme" "organization" None "b1" ∅.
Definition ex_tree2 : tree := ex_create " Sales! " "department" (Some "b1") "b2" ex_tree1.
Definition ex_tree : tree := ex_create "EMEA region" "folder" (Some "b2") "b3" ex_tree2.

Definition ex_row (o : option branch) : branch :=
  default {| b_tenant := ""; b_parent := None; b_kind := ""; b_name := ""; slug := "";
             path := ""; depth := 0; owner := None |} o.

Example ex_paths :
  map (fun id => path <$> ex_tree !! id) ["b1"; "b2"; "b3"]
  = [Some "/acme"; Some "/acme/sales"; Some "/acme/sales/emea-region"].
Proof. vm_compute. reflexivity. Qed.

Example ex_moved :
  match move_branch "t" "b3" (Some "b1") ex_tree with
  | Ok (t', _) => path <$> t' !! "b3" = Some "/acme/emea-region"
  | Err _ => False
  end /\ move_branch "t" "b1" (Some "b3") ex_tree = Err CyclicBranchMove.
Proof. vm_compute. split; reflexivity. Qed.

Lemma ex_built : built ex_tree.
Proof.
  unfold built.
  eapply rtc_l; [apply (step_create _ "t" "Acme" "organization" None None "b1" None
    ex_tree1 (ex_row (ex_tree1 !! "b1"))); vm_compute; reflexivity|].
  eapply rtc_l; [apply (step_create _ "t" " Sales! " "department" (Some "b1") None "b2" None
    ex_tree2 (ex_row (ex_tree2 !! "b2"))); vm_compute; reflexivity|].
  eapply rtc_l; [apply (step_create _ "t" "EMEA region" "folder" (Some "b2") None "b3" None
    ex_tree (ex_row (ex_tree !! "b3"))); vm_compute; reflexivity|].
  apply rtc_refl.
Qed.

Lemma hierarchy_is_a_forest_witness :
  ~ tc (parent_of ex_tree "t") "b3" "b3".
Proof. exact (proj1 (hierarchy_is_a_forest ex_tree ex_built) "t" "b3"). Defined.

Lemma subtree_and_ancestors_witness :
  exists l, subtree ex_tree "t" "b1" = Ok l /\ l.*1 = ["b1"; "b2"; "b3"] /\ NoDup l.*1.
Proof.
  destruct (subtree_and_ancestors ex_tree "t" "b1" (ex_row (ex_tree !! "b1")) ex_built)
    as [(l & Hl & Hn & _) _]; [vm_compute; reflexivity|].
  exists l. split; [exact Hl|]. split; [|exact Hn].
  vm_compute in Hl. injection Hl as <-. reflexivity.
Defined.

Lemma move_carries_subtree_witness :
  is_ok (move_branch "t" "b1" (Some "b3") ex_tree) = false.
Proof.
  apply (proj1 (move_carries_subtree ex_tree "t" "b1" (Some "b3") ex_built) "b3").
  - reflexivity.
  - eapply rtc_l; [exists (ex_row (ex_tree !! "b3")); split; vm_compute; reflexivity|].
    eapply rtc_l; [exists (ex_row (ex_tree !! "b2")); split; vm_compute; reflexivity|].
    apply rtc_refl.
  - exists (ex_row (ex_tree !! "b1")). vm_compute. reflexivity.
Defined.
