(* ===== verification/Actor.v ===== *)
(** * Actors and authorities

    [Actor] of src/libs/contacts_consent.py: who asks for a change, and the
    authorities they hold.  The consent ledgers and the branch permissions
    both decide on it. *)

From S2P Require Import Prelude.

Definition ACTOR_KINDS : list string :=
  ["human"; "agent"; "system"; "provider"; "contact"].

Definition AUTHORITY_MANAGE_CONTACTS : string := "manage_contacts".
Definition AUTHORITY_ADMINISTER : string := "administer".
Definition GRANT_AUTHORITIES : list string :=
  [AUTHORITY_MANAGE_CONTACTS; AUTHORITY_ADMINISTER].

(** A frozenset of authorities is kept as a list; only membership is read. *)
Record Actor := {
  kind : string;
  principal_id : option string;
  authorities : list string;
}.

(** [Actor(kind, principal_id, authorities)]: [None] is the [ValueError] on
    an unknown kind. *)
Definition make_actor (k : string) (p : option string) (auths : list string)
    : option Actor :=
  if str_in k ACTOR_KINDS
  then Some {| kind := k; principal_id := p; authorities := auths |} else None.

(** [actor.holds( *names )]. *)
Definition holds (a : Actor) (names : list string) : bool :=
  existsb (fun n => str_in n (authorities a)) names.

Definition contact_actor : Actor :=
  {| kind := "contact"; principal_id := None; authorities := [] |}.
Definition system_actor : Actor :=
  {| kind := "system"; principal_id := None; authorities := [] |}.

Definition is_human (a : Actor) : bool := String.eqb (kind a) "human".

Lemma holds_spec a names :
  holds a names = true <-> exists n, n ∈ names /\ n ∈ authorities a.
Proof.
  unfold holds. rewrite existsb_exists. split.
  - intros (n & Hn & H). exists n. split; [by apply list_elem_of_In|by apply str_in_spec].
  - intros (n & Hn & H). exists n. split; [by apply list_elem_of_In|by apply str_in_spec].
Qed.
