(* ===== verification/Permissions.v ===== *)
(** * Branch permissions

    [BranchPermissionsRepository] of src/libs/contacts_permissions.py: four
    independent dimensions, granted or restricted at a branch by a human
    administrator and inherited by the subtree until a deeper decision.  The
    table [contacts.branch_permissions] has one row per (tenant, branch,
    principal, dimension) by its unique constraint, so it is a map on that
    key. *)

From S2P Require Import Prelude Branches Actor.
Local Open Scope Z_scope.

Definition DIMENSION_VIEW : string := "view".
Definition DIMENSION_EDIT : string := "edit".
Definition DIMENSION_ADMINISTER : string := AUTHORITY_ADMINISTER.
Definition DIMENSION_CAMPAIGN_USE : string := "campaign_use".
Definition DIMENSIONS : list string :=
  [DIMENSION_VIEW; DIMENSION_EDIT; DIMENSION_ADMINISTER; DIMENSION_CAMPAIGN_USE].
Definition EFFECTS : list string := ["grant"; "restrict"].

Record permission := {
  permission_id : string;
  effect : string;
  decided_by_principal_id : option string;
  decided_by_authority : string;
  decided_by_actor_kind : string;
  reason : option string;
}.

(** (tenant, branch, principal, dimension). *)
Abbreviation perm_key := (string * string * string * string)%type.
Abbreviation perms := (gmap (string * string * string * string) permission).

Inductive perm_error : Type :=
| PermTenantScopeRequired
| PermValueError
| HumanDecisionRequired
| AdministratorRequired
| PermBranchNotFound
| PermissionDenied (dimension : string)
| PermConstraint.

Definition _require_administrator (actor : option Actor) : result perm_error Actor :=
  match actor with
  | None => Err HumanDecisionRequired
  | Some a =>
      if negb (String.eqb (kind a) "human") then Err HumanDecisionRequired
      else if negb (holds a [AUTHORITY_ADMINISTER]) then Err AdministratorRequired
      else Ok a
  end.

(** The primary key on [permission_id], and [decided_by_principal_id text not
    null]. *)
Definition id_taken (p : perms) (id : string) : bool :=
  existsb (fun kr => String.eqb (permission_id kr.2) id) (map_to_list p).
Definition insertable (p : perms) (r : permission) : bool :=
  negb (id_taken p (permission_id r)) && bool_decide (decided_by_principal_id r <> None).

Section writes.
Variable t : tree.

(** [_decide]; [new_id] is the identifier passed in or generated, used when
    the row is new. *)
Definition _decide (tenant branch principal dimension eff : string)
    (actor : option Actor) (why : option string) (new_id : string) (p : perms)
    : result perm_error (perms * permission) :=
  if negb (truthy tenant) then Err PermTenantScopeRequired
  else if negb (str_in dimension DIMENSIONS) then Err PermValueError
  else if negb (str_in eff EFFECTS) then Err PermValueError
  else if negb (truthy principal) then Err PermValueError
  else match _require_administrator actor with
  | Err e => Err e
  | Ok a =>
      match fetch t tenant branch with
      | None => Err PermBranchNotFound
      | Some _ =>
          let key := (tenant, branch, principal, dimension) in
          let row id := {|
            permission_id := id; effect := eff;
            decided_by_principal_id := principal_id a;
            decided_by_authority := AUTHORITY_ADMINISTER;
            decided_by_actor_kind := kind a; reason := why |} in
          match p !! key with
          | Some existing =>
              let r := row (permission_id existing) in
              if bool_decide (principal_id a = None) then Err PermConstraint
              else Ok (<[key := r]> p, r)
          | None =>
              let r := row new_id in
              if insertable p r then Ok (<[key := r]> p, r) else Err PermConstraint
          end
      end
  end.

Definition grant tenant branch principal dimension actor why new_id p :=
  _decide tenant branch principal dimension "grant" actor why new_id p.
Definition restrict tenant branch principal dimension actor why new_id p :=
  _decide tenant branch principal dimension "restrict" actor why new_id p.

Definition revoke (tenant branch principal dimension : string)
    (actor : option Actor) (p : perms) : result perm_error (perms * bool) :=
  if negb (truthy tenant) then Err PermTenantScopeRequired
  else if negb (str_in dimension DIMENSIONS) then Err PermValueError
  else match _require_administrator actor with
  | Err e => Err e
  | Ok _ =>
      let key := (tenant, branch, principal, dimension) in
      Ok (delete key p, bool_decide (is_Some (p !! key)))
  end.
End writes.

(** ** Reading *)

Section reads.
Variables (t : tree) (p : perms).

Definition _ancestry (tenant branch_id : string) : list (string * branch) :=
  match fetch t tenant branch_id with
  | None => []
  | Some b => match ancestors t tenant branch_id with
              | Ok l => l ++ [(branch_id, b)]
              | Err _ => []
              end
  end.

(** The first decision met on a list of branches. *)
Fixpoint first_decision (tenant principal dimension : string)
    (l : list (string * branch)) : option string :=
  match l with
  | [] => None
  | (id, _) :: l' =>
      match p !! (tenant, id, principal, dimension) with
      | Some r => Some (effect r)
      | None => first_decision tenant principal dimension l'
      end
  end.

(** [effective]: the answer for each dimension, walking the ancestry deepest
    first. *)
Definition effective (tenant principal branch_id : string)
    : result perm_error (list (string * bool)) :=
  if negb (truthy tenant) then Err PermTenantScopeRequired
  else if negb (truthy principal) then Ok (map (fun d => (d, false)) DIMENSIONS)
  else
    let chain := _ancestry tenant branch_id in
    Ok (map (fun d => (d,
          match first_decision tenant principal d (rev chain) with
          | Some e => String.eqb e "grant"
          | None => false
          end)) DIMENSIONS).

Definition holds_dimension (tenant principal branch_id dimension : string)
    : result perm_error bool :=
  if negb (str_in dimension DIMENSIONS) then Err PermValueError
  else match effective tenant principal branch_id with
  | Err e => Err e
  | Ok l => Ok (match List.find (fun kv => String.eqb kv.1 dimension) l with
                | Some kv => kv.2 | None => false end)
  end.

Definition require (tenant principal branch_id dimension : string)
    : result perm_error unit :=
  match holds_dimension tenant principal branch_id dimension with
  | Err e => Err e
  | Ok true => Ok tt
  | Ok false => Err (PermissionDenied dimension)
  end.

(** [_nearest_decision]: the decision on the longest path that is the branch's
    or above it, restriction winning ties. *)
Definition covers (path decision_path : string) : bool :=
  String.eqb path decision_path || _within path decision_path.

Definition nearest_step (path : string) (best : option string * Z)
    (d : string * string) : option string * Z :=
  if covers path d.1 then
    let length := Z.of_nat (str_length d.1) in
    if (best.2 <? length) || ((length =? best.2) && String.eqb d.2 "restrict")
    then (Some d.2, length) else best
  else best.

Definition _nearest_decision (path : string) (decisions : list (string * string))
    : option string :=
  (foldl (nearest_step path) (None, -1) decisions).1.

(** The rows of the principal for the dimension, with the branch each is at. *)
Definition decided_rows (tenant principal dimension : string)
    : list (string * string) :=
  flat_map (fun kr =>
    match kr with
    | (tn, br, pr, dm, r) =>
        if String.eqb tn tenant && String.eqb pr principal && String.eqb dm dimension
        then [(br, effect r)] else []
    end) (map_to_list p).

(** The subtrees of the decided branches; a branch that is gone is skipped. *)
Definition decided_subtrees (tenant : string) (rows : list (string * string))
    : list (string * list (string * branch)) :=
  flat_map (fun be => match subtree t tenant be.1 with
                      | Ok s => [(be.2, s)]
                      | Err _ => []
                      end) rows.

(** A dictionary filled by assignments, in order. *)
Definition dict_of (l : list (string * string)) : gmap string string :=
  foldl (fun m kv => <[kv.1 := kv.2]> m) ∅ l.

(** [decisions[subtree[0]["path"]] = row["effect"]]. *)
Definition decision_items (subtrees : list (string * list (string * branch)))
    : list (string * string) :=
  flat_map (fun es => match es.2 with (_, b) :: _ => [(path b, es.1)] | [] => [] end)
    subtrees.
(** [candidates[branch["branch_id"]] = branch["path"]]. *)
Definition candidate_items (subtrees : list (string * list (string * branch)))
    : list (string * string) :=
  flat_map (fun es => map (fun kb => (kb.1, path kb.2)) es.2) subtrees.

Definition authorized_branches (tenant principal dimension : string)
    : result perm_error (list string) :=
  if negb (truthy tenant) then Err PermTenantScopeRequired
  else if negb (str_in dimension DIMENSIONS) then Err PermValueError
  else if negb (truthy principal) then Ok []
  else
    let subtrees := decided_subtrees tenant (decided_rows tenant principal dimension) in
    let decisions := map_to_list (dict_of (decision_items subtrees)) in
    let candidates := map_to_list (dict_of (candidate_items subtrees)) in
    Ok (str_sort (flat_map (fun ip =>
          if bool_decide (_nearest_decision ip.2 decisions = Some "grant")
          then [ip.1] else []) candidates)).
End reads.

(** ** Lemmas *)

Lemma dict_of_spec l k v :
  (forall k v w, (k, v) ∈ l -> (k, w) ∈ l -> v = w) ->
  dict_of l !! k = Some v <-> (k, v) ∈ l.
Proof.
  unfold dict_of. induction l as [|[k0 v0] l IH] using rev_ind; intros Hf.
  { simpl. rewrite lookup_empty. split; [done|by intros ?%elem_of_nil]. }
  rewrite foldl_app. cbn [foldl fst snd].
  assert (forall k v w, (k, v) ∈ l -> (k, w) ∈ l -> v = w) as Hf'.
  { intros k1 v1 w1 H1 H2. apply (Hf k1); rewrite elem_of_app; by left. }
  rewrite elem_of_app, list_elem_of_singleton. destruct (decide (k = k0)) as [->|Hne].
  - rewrite lookup_insert_eq. split.
    + intros [= ->]. by right.
    + intros [Hin|[= ->]]; [|done]. f_equal. apply (Hf k0); rewrite elem_of_app;
        [by right; left|by left].
  - rewrite lookup_insert_ne, IH by done. split; [by left|].
    intros [Hin|[= -> ->]]; done.
Qed.

Lemma dict_items l k v :
  (forall k v w, (k, v) ∈ l -> (k, w) ∈ l -> v = w) ->
  (k, v) ∈ map_to_list (dict_of l) <-> (k, v) ∈ l.
Proof. intros Hf. rewrite elem_of_map_to_list. by apply dict_of_spec. Qed.

(** The fold of [_nearest_decision] finds a decision on a longest covering
    path, if any path covers. *)
Lemma nearest_spec pth l :
  match _nearest_decision pth l with
  | None => forall d, d ∈ l -> covers pth d.1 = false
  | Some e => exists d, d ∈ l /\ covers pth d.1 = true /\ d.2 = e /\
      forall d', d' ∈ l -> covers pth d'.1 = true -> (str_length d'.1 <= str_length d.1)%nat
  end.
Proof.
  unfold _nearest_decision.
  enough (let best := foldl (nearest_step pth) (None, -1) l in
    match best.1 with
    | None => best.2 = -1 /\ forall d, d ∈ l -> covers pth d.1 = false
    | Some e => exists d, d ∈ l /\ covers pth d.1 = true /\ d.2 = e /\
        best.2 = Z.of_nat (str_length d.1) /\
        forall d', d' ∈ l -> covers pth d'.1 = true -> Z.of_nat (str_length d'.1) <= best.2
    end) as H.
  { cbn zeta in H. destruct (foldl _ _ l) as [[e|] z]; simpl in *; [|naive_solver].
    destruct H as (d & Hd & Hc & He & Hz & Hmax). exists d. split_and!; [done..|].
    intros d' Hd' Hc'. specialize (Hmax d' Hd' Hc'). lia. }
  cbn zeta. induction l as [|d l IH] using rev_ind.
  { simpl. split; [done|by intros d ?%elem_of_nil]. }
  rewrite foldl_app. cbn [foldl]. destruct (foldl (nearest_step pth) (None, -1) l) as [best z].
  unfold nearest_step. cbn [fst snd] in *. destruct (covers pth d.1) eqn:Hc.
  - destruct ((z <? Z.of_nat (str_length d.1)) ||
        ((Z.of_nat (str_length d.1) =? z) && String.eqb d.2 "restrict")) eqn:Hb; cbn [fst snd].
    + exists d. split; [rewrite elem_of_app, list_elem_of_singleton; by right|].
      split_and!; [done..|]. intros d' [Hd'| ->%list_elem_of_singleton]%elem_of_app Hc'; [|lia].
      assert (z <= Z.of_nat (str_length d.1)) as Hz.
      { apply orb_true_iff in Hb as [Hb%Z.ltb_lt|[Hb%Z.eqb_eq _]%andb_true_iff]; lia. }
      destruct best as [e|].
      * destruct IH as (_ & _ & _ & _ & _ & Hmax). specialize (Hmax d' Hd' Hc'). lia.
      * destruct IH as [_ Hno]. by rewrite (Hno d' Hd') in Hc'.
    + apply orb_false_iff in Hb as [Hb%Z.ltb_ge _].
      destruct best as [e|]; [|destruct IH; lia].
      destruct IH as (d0 & Hd0 & Hc0 & He & Hz & Hmax). exists d0.
      split; [rewrite elem_of_app; by left|]. split_and!; [done..|].
      intros d' [Hd'| ->%list_elem_of_singleton]%elem_of_app Hc'; [by apply Hmax|lia].
  - cbn [fst snd]. destruct best as [e|].
    + destruct IH as (d0 & Hd0 & Hc0 & He & Hz & Hmax). exists d0.
      split; [rewrite elem_of_app; by left|]. split_and!; [done..|].
      intros d' [Hd'| ->%list_elem_of_singleton]%elem_of_app Hc'; [by apply Hmax|congruence].
    + destruct IH as [Hz Hno]. split; [done|].
      intros d' [Hd'| ->%list_elem_of_singleton]%elem_of_app; [by apply Hno|done].
Qed.

Lemma str_length_app a b : str_length (a +:+ b) = (str_length a + str_length b)%nat.
Proof. induction a as [|c a IH]; [done|]. rewrite str_app_cons. simpl. by rewrite IH. Qed.

Lemma within_longer a b : _within a b = true -> (str_length b < str_length a)%nat.
Proof.
  intros [r ->]%within_spec. rewrite !str_length_app. simpl. lia.
Qed.

Section authority.
Variables (t : tree) (p : perms) (tenant principal dimension : string).
Hypothesis Hok : tree_ok t.

Definition decided (a : string) : option permission := p !! (tenant, a, principal, dimension).

Lemma first_decision_spec pid l :
  chain t tenant pid l ->
  match first_decision p tenant principal dimension l with
  | None => forall a ba, (a, ba) ∈ l -> decided a = None
  | Some e => exists a ba r, (a, ba) ∈ l /\ decided a = Some r /\ effect r = e /\
      forall a' ba', (a', ba') ∈ l -> is_Some (decided a') ->
        (str_length (path ba') <= str_length (path ba))%nat
  end.
Proof.
  unfold decided. induction 1 as [|q b l Hq Hc IH]; cbn [first_decision].
  { by intros a ba ?%elem_of_nil. }
  destruct (p !! (tenant, q, principal, dimension)) as [r|] eqn:Hr.
  - exists q, b, r. split; [left|]. split_and!; [done..|].
    intros a' ba' [[= -> ->]|Hin]%elem_of_cons _; [done|].
    apply (chain_elem _ _ _ _ Hc) in Hin as (Ha & x & Hx & Hxa).
    apply Nat.lt_le_incl, within_longer, (within_tc t Hok tenant q a' b ba' Hq Ha).
    assert (parent_of t tenant q x) by (by exists b).
    destruct Hxa as [->|]; [by apply tc_once|by eapply tc_l].
  - destruct (first_decision p tenant principal dimension l) as [e|].
    + destruct IH as (a & ba & r & Hin & Hd & He & Hmax). exists a, ba, r.
      split; [by right|]. split_and!; [done..|].
      intros a' ba' [[= -> ->]|Hin']%elem_of_cons Hs; [destruct Hs; congruence|by eapply Hmax].
    + intros a ba [[= -> ->]|Hin]%elem_of_cons; [done|by eapply IH].
Qed.

Lemma ancestry_chain x b :
  fetch t tenant x = Some b ->
  exists l, rev (_ancestry t tenant x) = (x, b) :: l /\ chain t tenant (Some x) ((x, b) :: l).
Proof.
  intros Hb. destruct (ancestors_ok t tenant x b Hok Hb) as (l & Hl & Hc).
  exists l. unfold _ancestry. rewrite Hb, Hl, rev_app_distr, rev_involutive.
  split; [done|by constructor].
Qed.

Lemma chain_descends x b l a ba :
  chain t tenant (Some x) ((x, b) :: l) ->
  (a, ba) ∈ (x, b) :: l <-> fetch t tenant a = Some ba /\ descends t tenant x a.
Proof.
  intros Hc. rewrite (chain_elem _ _ _ _ Hc). apply and_iff_compat_l. unfold descends. split.
  - intros (q & [= <-] & [->|H]); [apply rtc_refl|by apply tc_rtc].
  - intros H. exists x. split; [done|]. apply rtc_tc in H as [->|]; [by left|by right].
Qed.

Lemma holds_eq x :
  tenant <> "" -> principal <> "" -> dimension ∈ DIMENSIONS ->
  holds_dimension t p tenant principal x dimension =
  Ok (match first_decision p tenant principal dimension (rev (_ancestry t tenant x)) with
      | Some e => String.eqb e "grant" | None => false end).
Proof.
  intros Ht Hp Hd. unfold holds_dimension, effective.
  assert (str_in dimension DIMENSIONS = true) as -> by by apply str_in_spec.
  unfold truthy, truthy_string. apply String.eqb_neq in Ht as ->, Hp as ->. simpl.
  unfold DIMENSIONS in Hd. rewrite !elem_of_cons in Hd.
  destruct Hd as [->|[->|[->|[->|Hd]]]]; [done..|by apply elem_of_nil in Hd].
Qed.

(** The nearest decision at or above a branch grants. *)
Definition nearest_grants (x : string) : Prop :=
  exists a r, descends t tenant x a /\ is_Some (fetch t tenant a) /\
    decided a = Some r /\ effect r = "grant" /\
    forall a' r', descends t tenant x a' -> is_Some (fetch t tenant a') ->
      decided a' = Some r' -> descends t tenant a a'.

Lemma longer_descends x a a' ba ba' :
  descends t tenant x a -> descends t tenant x a' ->
  fetch t tenant a = Some ba -> fetch t tenant a' = Some ba' ->
  (str_length (path ba') <= str_length (path ba))%nat -> descends t tenant a a'.
Proof.
  intros Hxa Hxa' Ha Ha' Hle.
  assert (descends t tenant a a' \/ descends t tenant a' a) as [H|H]; [| done|].
  { revert Hxa'. unfold descends in *. induction Hxa as [x|x y a Hxy Hya IH]; intros Hxa'; [by left|].
    inversion Hxa' as [|? y' ? Hxy' Hy']; subst; [right; by eapply rtc_l|].
    apply IH; [done|]. destruct Hxy as (b1 & Hb1 & Hp1), Hxy' as (b2 & Hb2 & Hp2).
    assert (b2 = b1) as -> by congruence. by assert (y' = y) as -> by congruence. }
  apply rtc_tc in H as [->|H]; [apply rtc_refl|].
  apply (within_tc t Hok tenant a' a ba' ba Ha' Ha), within_longer in H. lia.
Qed.

Lemma walk_nearest x b l :
  chain t tenant (Some x) ((x, b) :: l) ->
  first_decision p tenant principal dimension ((x, b) :: l) = Some "grant" <-> nearest_grants x.
Proof.
  intros Hc. pose proof (first_decision_spec _ _ Hc) as Hspec. unfold nearest_grants.
  destruct (first_decision _ _ _ _ _) as [e|].
  - destruct Hspec as (a & ba & r & Hin & Hd & He & Hmax).
    apply (chain_descends _ _ _ _ _ Hc) in Hin as [Ha Hxa]. split.
    + intros [= ->]. exists a, r. split_and!; [done|by eexists|done|done|].
      intros a' r' Hxa' [ba' Ha'] Hd'. eapply (longer_descends x); [done..|].
      eapply Hmax; [by apply (chain_descends _ _ _ _ _ Hc)|by eexists].
    + intros (a2 & r2 & Hxa2 & [ba2 Ha2] & Hd2 & He2 & Hmax2). f_equal.
      assert (descends t tenant a2 a) as H1 by (eapply Hmax2; [done|by eexists|done]).
      assert (str_length (path ba2) <= str_length (path ba))%nat as Hlen.
      { eapply Hmax; [by apply (chain_descends _ _ _ _ _ Hc)|by eexists]. }
      apply rtc_tc in H1 as [->|H1]; [congruence|].
      apply (within_tc t Hok tenant a2 a ba2 ba Ha2 Ha), within_longer in H1. lia.
  - split; [done|]. intros (a & r & Hxa & [ba Ha] & Hd & _).
    assert (decided a = None); [|congruence].
    eapply Hspec, (chain_descends _ _ _ _ _ Hc). by split.
Qed.

Lemma holds_nearest x :
  tenant <> "" -> principal <> "" -> dimension ∈ DIMENSIONS ->
  holds_dimension t p tenant principal x dimension = Ok true <->
  is_Some (fetch t tenant x) /\ nearest_grants x.
Proof.
  intros Ht Hp Hd. rewrite holds_eq by done.
  destruct (fetch t tenant x) as [b|] eqn:Hb.
  - destruct (ancestry_chain x b Hb) as (l & -> & Hc). rewrite <- (walk_nearest x b l Hc).
    destruct (first_decision _ _ _ _ _) as [e|]; [|naive_solver].
    destruct (String.eqb_spec e "grant") as [->|Hne]; naive_solver.
  - unfold _ancestry. rewrite Hb. simpl. split; [done|]. by intros [[? ?] _].
Qed.

(** The other way of resolving: candidates and the longest path. *)
Lemma decided_rows_elem a e :
  (a, e) ∈ decided_rows p tenant principal dimension <->
  exists r, decided a = Some r /\ effect r = e.
Proof.
  unfold decided_rows, decided. rewrite list_elem_of_In, in_flat_map. split.
  - intros ([[[[tn br] pr] dm] r] & Hin & H). apply list_elem_of_In, elem_of_map_to_list in Hin.
    destruct (String.eqb_spec tn tenant) as [->|]; [|done].
    destruct (String.eqb_spec pr principal) as [->|]; [|done].
    destruct (String.eqb_spec dm dimension) as [->|]; [|done].
    destruct H as [[= -> <-]|[]]. by exists r.
  - intros (r & Hr & <-). exists ((tenant, a, principal, dimension), r).
    split; [by apply list_elem_of_In, elem_of_map_to_list|].
    rewrite !String.eqb_refl. by left.
Qed.

Lemma decided_subtrees_elem e s :
  (e, s) ∈ decided_subtrees t tenant (decided_rows p tenant principal dimension) <->
  exists a ba r, fetch t tenant a = Some ba /\ decided a = Some r /\ effect r = e /\
    s = (a, ba) :: _fetch_descendants t tenant (path ba).
Proof.
  unfold decided_subtrees. rewrite list_elem_of_In, in_flat_map. split.
  - intros ([a e'] & Hin & H). apply list_elem_of_In, decided_rows_elem in Hin as (r & Hr & He).
    unfold subtree in H. simpl in H. destruct (fetch t tenant a) as [ba|] eqn:Ha; [|done].
    destruct H as [[= <- <-]|[]]. exists a, ba, r. by split_and!.
  - intros (a & ba & r & Ha & Hr & <- & ->). exists (a, effect r).
    split; [apply list_elem_of_In, decided_rows_elem; by exists r|].
    unfold subtree. simpl. rewrite Ha. by left.
Qed.

Let subtrees := decided_subtrees t tenant (decided_rows p tenant principal dimension).

Lemma decision_items_elem pth e :
  (pth, e) ∈ decision_items subtrees <->
  exists a ba r, fetch t tenant a = Some ba /\ path ba = pth /\ decided a = Some r /\ effect r = e.
Proof.
  unfold decision_items. rewrite list_elem_of_In, in_flat_map. split.
  - intros ([e' s] & Hin & H).
    apply list_elem_of_In, decided_subtrees_elem in Hin as (a & ba & r & Ha & Hr & He & ->).
    destruct H as [[= <- <-]|[]]. exists a, ba, r. by split_and!.
  - intros (a & ba & r & Ha & <- & Hr & <-). eexists. split.
    + apply list_elem_of_In, decided_subtrees_elem. exists a, ba, r. split_and!; [done..|reflexivity].
    + by left.
Qed.

Lemma candidate_items_elem x px :
  (x, px) ∈ candidate_items subtrees <->
  exists bx a r, fetch t tenant x = Some bx /\ path bx = px /\
    is_Some (fetch t tenant a) /\ decided a = Some r /\ descends t tenant x a.
Proof.
  unfold candidate_items. rewrite list_elem_of_In, in_flat_map. split.
  - intros ([e' s] & Hin & H).
    apply list_elem_of_In, decided_subtrees_elem in Hin as (a & ba & r & Ha & Hr & He & ->).
    apply in_map_iff in H as ([k b] & [= <- <-] & H). simpl in H.
    destruct H as [[= <- <-]|H].
    + exists ba, a, r. split_and!; [done|done|by eexists|done|apply rtc_refl].
    + apply list_elem_of_In, fetch_descendants_elem in H as [Hk Hw].
      exists b, a, r. split_and!; [done|done|by eexists|done|].
      apply tc_rtc. by apply (within_tc t Hok tenant k a b ba).
  - intros (bx & a & r & Hx & <- & [ba Ha] & Hr & Hd). eexists. split.
    + apply list_elem_of_In, decided_subtrees_elem. exists a, ba, r. split_and!; [done..|reflexivity].
    + apply in_map_iff. exists (x, bx). split; [done|]. simpl.
      apply rtc_tc in Hd as [->|Hd]; [left; congruence|right].
      apply list_elem_of_In, fetch_descendants_elem. split; [done|].
      by apply (within_tc t Hok tenant x a bx ba).
Qed.

Lemma decision_items_fun k v w :
  (k, v) ∈ decision_items subtrees -> (k, w) ∈ decision_items subtrees -> v = w.
Proof.
  intros (a & ba & r & Ha & Hp1 & Hr & <-)%decision_items_elem
    (a' & ba' & r' & Ha' & Hp2 & Hr' & <-)%decision_items_elem.
  apply fetch_Some in Ha as [Ha Hat], Ha' as [Ha' Hat'].
  assert (a = a') as -> by (eapply (ok_unique t Hok); [exact Ha|exact Ha'|congruence..]).
  congruence.
Qed.

Lemma candidate_items_fun k v w :
  (k, v) ∈ candidate_items subtrees -> (k, w) ∈ candidate_items subtrees -> v = w.
Proof.
  intros (b & ? & ? & Hb & <- & _)%candidate_items_elem
    (b' & ? & ? & Hb' & <- & _)%candidate_items_elem. congruence.
Qed.

Lemma covers_descends x a bx ba :
  fetch t tenant x = Some bx -> fetch t tenant a = Some ba ->
  covers (path bx) (path ba) = true <-> descends t tenant x a.
Proof.
  intros Hx Ha. unfold covers, descends. rewrite orb_true_iff, String.eqb_eq. split.
  - intros [Heq|Hw].
    + apply fetch_Some in Hx as [Hx Hxt], Ha as [Ha Hat].
      assert (x = a) as -> by (eapply (ok_unique t Hok); [exact Hx|exact Ha|congruence..]).
      apply rtc_refl.
    + apply tc_rtc. by apply (within_tc t Hok tenant x a bx ba).
  - intros H. apply rtc_tc in H as [->|H]; [left; congruence|right].
    by apply (within_tc t Hok tenant x a bx ba).
Qed.

Lemma longest_path_nearest x bx :
  fetch t tenant x = Some bx ->
  _nearest_decision (path bx) (map_to_list (dict_of (decision_items subtrees))) = Some "grant" <->
  nearest_grants x.
Proof.
  intros Hx. pose proof (nearest_spec (path bx) (map_to_list (dict_of (decision_items subtrees)))) as H.
  pose proof (fun k v => dict_items _ k v decision_items_fun) as Hitems. unfold nearest_grants.
  destruct (_nearest_decision _ _) as [e|].
  - destruct H as ([pth e'] & Hin & Hc & He & Hmax). simpl in Hc, He, Hmax. subst e'.
    apply Hitems, decision_items_elem in Hin as (a & ba & r & Ha & <- & Hr & He).
    apply (covers_descends x a bx ba Hx Ha) in Hc.
    assert (forall a' r', descends t tenant x a' -> is_Some (fetch t tenant a') ->
              decided a' = Some r' -> descends t tenant a a') as Hnear.
    { intros a' r' Hxa' [ba' Ha'] Hr'. eapply (longer_descends x); [done..|].
      apply (Hmax (path ba', effect r')); [apply Hitems, decision_items_elem; eauto 8|].
      by apply (covers_descends x a' bx ba' Hx Ha'). }
    split.
    + intros [= ->]. exists a, r. split_and!; [done|by eexists|done..].
    + intros (a2 & r2 & Hxa2 & [ba2 Ha2] & Hr2 & He2 & Hmax2). f_equal.
      assert (descends t tenant a a2) as H1 by (eapply Hnear; [done|by eexists|done]).
      assert (descends t tenant a2 a) as H2 by (eapply Hmax2; [done|by eexists|done]).
      apply rtc_tc in H1 as [->|H1]; [congruence|].
      apply rtc_tc in H2 as [->|H2]; [congruence|].
      apply (within_tc t Hok tenant a a2 ba ba2 Ha Ha2), within_longer in H1.
      apply (within_tc t Hok tenant a2 a ba2 ba Ha2 Ha), within_longer in H2. lia.
  - split; [done|]. intros (a & r & Hxa & [ba Ha] & Hr & _).
    specialize (H (path ba, effect r)). simpl in H.
    rewrite (proj2 (covers_descends x a bx ba Hx Ha) Hxa) in H. discriminate H.
    apply Hitems, decision_items_elem. eauto 8.
Qed.
End authority.

(** ** What the permissions guarantee *)

(** Authority is inherited and the nearest decision wins: a principal
    holds a dimension over a branch exactly when the branch exists and, among
    the decisions for that principal and dimension at the branch or above
    it, the lowest one is a grant.  A restriction therefore beats every grant
    above it, a grant below a restriction reopens its subtree, and with no
    decision the answer is no. *)
Theorem nearest_decision_wins t p tenant principal dimension x :
  built t -> tenant <> "" -> principal <> "" -> dimension ∈ DIMENSIONS ->
  holds_dimension t p tenant principal x dimension = Ok true <->
  is_Some (fetch t tenant x) /\ nearest_grants t p tenant principal dimension x.
Proof. intros Hok%built_ok. by apply holds_nearest. Qed.

(** The two resolutions agree: the list of authorised branches, computed
    from subtrees and path prefixes, contains exactly the branches over which
    walking the ancestry says the principal holds the dimension, each once. *)
Theorem authorized_branches_agree t p tenant principal dimension :
  built t -> tenant <> "" -> principal <> "" -> dimension ∈ DIMENSIONS ->
  exists l, authorized_branches t p tenant principal dimension = Ok l /\ NoDup l /\
    forall x, x ∈ l <-> holds_dimension t p tenant principal x dimension = Ok true.
Proof.
  intros Hok%built_ok Ht Hp Hd. unfold authorized_branches.
  assert (str_in dimension DIMENSIONS = true) as -> by by apply str_in_spec.
  unfold truthy, truthy_string. apply String.eqb_neq in Ht as Ht', Hp as Hp'.
  rewrite Ht', Hp'. simpl. eexists. split; [reflexivity|]. unfold str_sort.
  set (subtrees := decided_subtrees t tenant (decided_rows p tenant principal dimension)).
  set (D := map_to_list (dict_of (decision_items subtrees))). split.
  - rewrite (merge_sort_Permutation _ _).
    pose proof (NoDup_fst_map_to_list (dict_of (candidate_items subtrees))) as Hnd. revert Hnd.
    generalize (map_to_list (dict_of (candidate_items subtrees))). intros l.
    induction l as [|[i pi] l IH]; [by constructor|]. cbn [fmap list_fmap fst flat_map].
    intros [Hi Hnd]%NoDup_cons. specialize (IH Hnd).
    case_bool_decide; [|done]. apply NoDup_cons. split; [|done]. intros Hin. apply Hi.
    apply list_elem_of_In, in_flat_map in Hin as ([j pj] & Hj & Hin). simpl in Hin.
    case_bool_decide; [|done]. destruct Hin as [<-|[]].
    apply list_elem_of_fmap. exists (j, pj). split; [done|by apply list_elem_of_In].
  - intros x. rewrite (merge_sort_Permutation _ _), list_elem_of_In, in_flat_map.
    rewrite (holds_nearest t p tenant principal dimension Hok x Ht Hp Hd). split.
    + intros ([i pi] & Hin & H). simpl in H.
      case_bool_decide as Hn; [|done]. destruct H as [<-|[]].
      apply list_elem_of_In in Hin. rewrite dict_items in Hin
        by (by apply (candidate_items_fun t p tenant principal dimension Hok)).
      apply (candidate_items_elem t p tenant principal dimension Hok) in Hin
        as (bx & a & r & Hx & <- & _).
      split; [by eexists|]. by eapply longest_path_nearest.
    + intros [[bx Hx] Hn]. exists (x, path bx). split.
      * apply list_elem_of_In, dict_items;
          [by apply (candidate_items_fun t p tenant principal dimension Hok)|].
        apply (candidate_items_elem t p tenant principal dimension Hok).
        destruct Hn as (a & r & Hxa & Ha & Hr & _). by exists bx, a, r.
      * simpl. rewrite bool_decide_true; [by left|].
        by eapply (longest_path_nearest t p tenant principal dimension Hok).
Qed.

(** A decision taken by a named human administrator. *)
Definition human_decision (r : permission) : Prop :=
  decided_by_actor_kind r = "human" /\ decided_by_authority r = AUTHORITY_ADMINISTER /\
  is_Some (decided_by_principal_id r) /\ effect r ∈ EFFECTS.

Lemma require_administrator_ok actor a :
  _require_administrator actor = Ok a ->
  actor = Some a /\ kind a = "human" /\ AUTHORITY_ADMINISTER ∈ authorities a.
Proof.
  unfold _require_administrator. intros H. guards H. simplify_eq. bool_hyps.
  split_and!; [done|done|].
  match goal with E : holds _ _ = true |- _ => apply holds_spec in E as (n & Hn & Hin) end.
  by apply list_elem_of_singleton in Hn as ->.
Qed.

(** Writing authority, on every branch: a grant, a restriction or a
    revocation changes the table only when a human administrator asks for
    it, on a known branch of the account; it then sets or removes exactly the
    decision at that branch, principal and dimension and no other, and what
    it leaves is a decision of a named human administrator. *)
Theorem decision_writes t tenant branch_id principal dimension eff actor why new_id p :
  (forall p' r, _decide t tenant branch_id principal dimension eff actor why new_id p = Ok (p', r) ->
     (exists a, actor = Some a /\ kind a = "human" /\ AUTHORITY_ADMINISTER ∈ authorities a /\
        decided_by_principal_id r = principal_id a) /\
     is_Some (fetch t tenant branch_id) /\ dimension ∈ DIMENSIONS /\ principal <> "" /\
     human_decision r /\ effect r = eff /\
     p' !! (tenant, branch_id, principal, dimension) = Some r /\
     forall k, k <> (tenant, branch_id, principal, dimension) -> p' !! k = p !! k) /\
  (forall p' b, revoke tenant branch_id principal dimension actor p = Ok (p', b) ->
     (exists a, actor = Some a /\ kind a = "human" /\ AUTHORITY_ADMINISTER ∈ authorities a) /\
     (b = true <-> is_Some (p !! (tenant, branch_id, principal, dimension))) /\
     p' !! (tenant, branch_id, principal, dimension) = None /\
     forall k, k <> (tenant, branch_id, principal, dimension) -> p' !! k = p !! k).
Proof.
  split.
  - intros p' r H. unfold _decide in H.
    destruct (negb (truthy tenant)); [done|].
    destruct (str_in dimension DIMENSIONS) eqn:Hd; cbn [negb] in H; [|done].
    destruct (str_in eff EFFECTS) eqn:He; cbn [negb] in H; [|done].
    destruct (negb (truthy principal)) eqn:Hp; [done|].
    destruct (_require_administrator actor) as [a|] eqn:Ha; [|done].
    apply require_administrator_ok in Ha as (-> & Hk & Had).
    destruct (fetch t tenant branch_id) as [b|]; [|done].
    apply str_in_spec in Hd, He.
    assert (principal <> "") as Hpne.
    { intros ->. done. }
    assert (exists id, r = {| permission_id := id; effect := eff;
        decided_by_principal_id := principal_id a; decided_by_authority := AUTHORITY_ADMINISTER;
        decided_by_actor_kind := kind a; reason := why |} /\
        p' = <[(tenant, branch_id, principal, dimension) := r]> p /\
        is_Some (principal_id a)) as (id & Hr & -> & Hsome).
    { destruct (p !! _) as [ex|].
      - case_bool_decide as Hn; [done|]. injection H as <- <-. eexists. split_and!; [done..|].
        destruct (principal_id a); [by eexists|done].
      - unfold insertable in H. cbn [decided_by_principal_id] in H.
        destruct (_ && _) eqn:Hi; [|done].
        injection H as <- <-. eexists. split_and!; [done..|].
        apply andb_true_iff in Hi as [_ Hi%bool_decide_eq_true].
        destruct (principal_id a); [by eexists|done]. }
    split; [by exists a; rewrite Hr|]. split; [by eexists|].
    split; [done|]. split; [done|].
    split; [by rewrite Hr; split_and!|]. split; [by rewrite Hr|].
    split; [apply lookup_insert_eq|]. intros k Hk'. by apply lookup_insert_ne.
  - intros p' b H. unfold revoke in H. destruct (negb (truthy tenant)); [done|].
    destruct (negb _); [done|]. destruct (_require_administrator actor) as [a|] eqn:Ha; [|done].
    apply require_administrator_ok in Ha as (-> & Hk & Had). injection H as <- <-.
    split_and!; [by exists a|apply bool_decide_eq_true|apply lookup_delete_eq|].
    intros k Hk'. by apply lookup_delete_ne.
Qed.

(** ** A concrete directory: a grant on /acme, a restriction on /acme/sales *)

Definition ex_admin : Actor :=
  {| kind := "human"; principal_id := Some "ada"; authorities := ["administer"] |}.

Definition ex_decide (eff branch_id : string) (new_id : string) (p : perms) : perms :=
  match _decide ex_tree "t" branch_id "bob" "view" eff (Some ex_admin) None new_id p with
  | Ok (p', _) => p' | Err _ => p end.
Definition ex_perms : perms := ex_decide "restrict" "b2" "p2" (ex_decide "grant" "b1" "p1" ∅).

Lemma authorized_branches_agree_witness :
  authorized_branches ex_tree ex_perms "t" "bob" "view" = Ok ["b1"] /\
  forall l, authorized_branches ex_tree ex_perms "t" "bob" "view" = Ok l ->
    ("b3" ∈ l <-> holds_dimension ex_tree ex_perms "t" "bob" "b3" "view" = Ok true).
Proof.
  split; [vm_compute; reflexivity|]. intros l Hl.
  destruct (authorized_branches_agree ex_tree ex_perms "t" "bob" "view" ex_built)
    as (l' & Hl' & _ & H); [discriminate|discriminate|left|].
  rewrite Hl in Hl'. injection Hl' as ->. apply H.
Defined.

Lemma nearest_decision_wins_witness :
  holds_dimension ex_tree ex_perms "t" "bob" "b1" "view" = Ok true /\
  nearest_grants ex_tree ex_perms "t" "bob" "view" "b1".
Proof.
  assert (holds_dimension ex_tree ex_perms "t" "bob" "b1" "view" = Ok true) as H
    by (vm_compute; reflexivity).
  split; [exact H|].
  destruct (nearest_decision_wins ex_tree ex_perms "t" "bob" "view" "b1" ex_built)
    as [H1 _]; [discriminate|discriminate|left|].
  destruct (H1 H) as [_ H2]. exact H2.
Defined.

Definition ex_regrant : result perm_error (perms * permission) :=
  _decide ex_tree "t" "b2" "bob" "view" "grant" (Some ex_admin) None "p9" ex_perms.

Lemma decision_writes_witness :
  match ex_regrant with Ok (_, r) => human_decision r | Err _ => False end.
Proof.
  assert (is_ok ex_regrant = true) as Hok by (vm_compute; reflexivity).
  pose proof (proj1 (decision_writes ex_tree "t" "b2" "bob" "view" "grant" (Some ex_admin)
                None "p9" ex_perms)) as H.
  fold ex_regrant in H. destruct ex_regrant as [[p' r]|e]; [|discriminate Hok].
  destruct (H p' r eq_refl) as (_ & _ & _ & _ & Hr & _). exact Hr.
Defined.
