(* ===== verification/Calendar.v ===== *)
(** * Civil dates

    [datetime] in UTC, as microseconds since 1970-01-01, with the proleptic
    Gregorian calendar of the standard library ([datetime.replace],
    [datetime.year] and the range 1..9999), and [_plus_years] of
    src/libs/contacts_consent.py, the retention floor of the consent
    ledgers. *)

From S2P Require Import Prelude PyValue.
Local Open Scope Z_scope.

Definition DAY : Z := 86400 * 1000000.

Definition is_leap (y : Z) : bool :=
  (y mod 4 =? 0) && (negb (y mod 100 =? 0) || (y mod 400 =? 0)).

Definition days_in_month (y m : Z) : Z :=
  if m =? 2 then (if is_leap y then 29 else 28)
  else if (m =? 4) || (m =? 6) || (m =? 9) || (m =? 11) then 30 else 31.

Definition valid_md (y m d : Z) : bool :=
  (1 <=? m) && (m <=? 12) && (1 <=? d) && (d <=? days_in_month y m).

(** Days before a date, counted from 1970-01-01; the year starts in March so
    that the leap day is its last. *)
Definition march_year (y m : Z) : Z := if m <=? 2 then y - 1 else y.
Definition year_days (y : Z) : Z := 365 * y + y / 4 - y / 100 + y / 400.
Definition day_of_year (m d : Z) : Z :=
  (153 * (if m <=? 2 then m + 9 else m - 3) + 2) / 5 + d - 1.
Definition days_from_civil (y m d : Z) : Z :=
  year_days (march_year y m) + day_of_year m d - 719468.

(** The inverse, on the day [doe] of a 400-year era: 100-year, 4-year and
    1-year blocks, the last of which may be one day longer. *)
Definition md_of_doy (doy : Z) : Z * Z :=
  let mp := (5 * doy + 2) / 153 in
  (if mp <? 10 then mp + 3 else mp - 9, doy - (153 * mp + 2) / 5 + 1).
Definition civil_of_doe (doe : Z) : Z * Z * Z :=
  let n100 := Z.min 3 (doe / 36524) in
  let r := doe - 36524 * n100 in
  let n4 := r / 1461 in
  let s := r - 1461 * n4 in
  let n1 := Z.min 3 (s / 365) in
  let '(m, d) := md_of_doy (s - 365 * n1) in
  (100 * n100 + 4 * n4 + n1 + (if m <=? 2 then 1 else 0), m, d).
Definition civil_from_days (days : Z) : Z * Z * Z :=
  let z := days + 719468 in
  let '(y, m, d) := civil_of_doe (z mod 146097) in
  (y + 400 * (z / 146097), m, d).

Definition date_of (moment : Z) : Z * Z * Z := civil_from_days (moment / DAY).
Definition year_of (moment : Z) : Z := (date_of moment).1.1.

(** A [datetime] holds years 1 to 9999. *)
Definition in_range (moment : Z) : bool :=
  (days_from_civil 1 1 1 * DAY <=? moment) && (moment <? days_from_civil 10000 1 1 * DAY).

(** [moment.replace(year=y, month=m, day=d)]. *)
Definition replace_date (moment y m d : Z) : result pyexn Z :=
  if (1 <=? y) && (y <=? 9999) && valid_md y m d
  then Ok (days_from_civil y m d * DAY + moment mod DAY)
  else Err ValueError.

Definition _plus_years (moment years : Z) : result pyexn Z :=
  let '(y, m, d) := date_of moment in
  match replace_date moment (y + years) m d with
  | Ok t => Ok t
  | Err _ => replace_date moment (y + years) 3 1
  end.

(** ** The two directions agree *)

Definition doy_ok (doy : Z) : bool :=
  let '(m, d) := md_of_doy doy in
  (1 <=? m) && (m <=? 12) && (1 <=? d) && (day_of_year m d =? doy) &&
  (if doy <? 365 then d <=? days_in_month 1 m else (m =? 2) && (d =? 29)).

(** [p] on [start], [start + 1], ..., [n] of them. *)
Fixpoint all_from (n : nat) (start : Z) (p : Z -> bool) : bool :=
  match n with O => true | S n' => if p start then all_from n' (start + 1) p else false end.

Lemma all_from_spec n start p z :
  all_from n start p = true -> start <= z < start + Z.of_nat n -> p z = true.
Proof.
  revert start. induction n as [|n IH]; intros start; [lia|]. cbn [all_from].
  destruct (p start) eqn:Hp; [|done]. intros H Hz.
  destruct (decide (z = start)) as [->|]; [done|]. apply (IH _ H). lia.
Qed.

Lemma doy_checked doy : 0 <= doy <= 365 -> doy_ok doy = true.
Proof.
  intros H. apply (all_from_spec (Z.to_nat 366) 0); [by vm_compute|lia].
Qed.

Lemma days_in_month_common y m : days_in_month 1 m <= days_in_month y m.
Proof. unfold days_in_month. change (is_leap 1) with false. repeat case_match; lia. Qed.

Lemma civil_of_doe_spec doe y m d :
  0 <= doe < 146097 -> civil_of_doe doe = (y, m, d) ->
  valid_md y m d = true /\ days_from_civil y m d + 719468 = doe.
Proof.
  intros Hb. unfold civil_of_doe.
  set (a := Z.min 3 (doe / 36524)). set (r := doe - 36524 * a).
  set (b := r / 1461). set (s := r - 1461 * b). set (c := Z.min 3 (s / 365)).
  assert (0 <= a <= 3) by (subst a; Z.div_mod_to_equations; lia).
  assert (0 <= r <= 36524 /\ (a < 3 -> r < 36524)) as [? ?]
    by (subst r a; Z.div_mod_to_equations; lia).
  assert (0 <= b <= 24 /\ 0 <= s < 1461 /\ (b = 24 -> a < 3 -> s < 1460)) as (? & ? & ?)
    by (subst s b; Z.div_mod_to_equations; lia).
  assert (0 <= c <= 3 /\ 0 <= s - 365 * c <= 365 /\ (s - 365 * c = 365 -> c = 3 /\ s = 1460))
    as (Hc & Hs0 & Hlast) by (subst c; Z.div_mod_to_equations; lia).
  pose proof (doy_checked (s - 365 * c) ltac:(lia)) as Hok. unfold doy_ok in Hok.
  destruct (md_of_doy (s - 365 * c)) as [m0 d0]. bool_hyps.
  intros [= <- <- <-].
  set (y0 := 100 * a + 4 * b + c) in *.
  assert (year_days y0 = 36524 * a + 1461 * b + 365 * c) as Hyd.
  { unfold year_days.
    assert (y0 / 4 = 25 * a + b) as -> by (subst y0; Z.div_mod_to_equations; lia).
    assert (y0 / 100 = a) as -> by (subst y0; Z.div_mod_to_equations; lia).
    assert (y0 / 400 = 0) as -> by (subst y0; Z.div_mod_to_equations; lia). lia. }
  split.
  - unfold valid_md. rewrite !andb_true_iff, !Z.leb_le. repeat split; [lia..|].
    destruct (s - 365 * c <? 365) eqn:Ed.
    + pose proof (days_in_month_common (y0 + (if m0 <=? 2 then 1 else 0)) m0).
      bool_hyps. lia.
    + bool_hyps. subst m0 d0. change (2 <=? 2) with true. cbn iota.
      destruct (Hlast ltac:(lia)) as [Hc3 Hs].
      assert (is_leap (y0 + 1) = true) as Hl.
      { unfold is_leap. rewrite andb_true_iff, orb_true_iff, negb_true_iff, !Z.eqb_eq, Z.eqb_neq.
        split; [subst y0; Z.div_mod_to_equations; lia|].
        destruct (decide (b = 24)) as [Hb24|].
        - right. subst y0. replace a with 3 by lia. by rewrite Hb24, Hc3.
        - left. subst y0. Z.div_mod_to_equations. lia. }
      unfold days_in_month. rewrite Hl. done.
  - unfold days_from_civil, march_year.
    replace (if m0 <=? 2 then y0 + (if m0 <=? 2 then 1 else 0) - 1
             else y0 + (if m0 <=? 2 then 1 else 0)) with y0
      by (destruct (m0 <=? 2); lia). lia.
Qed.

Lemma is_leap_shift y e : is_leap (y + 400 * e) = is_leap y.
Proof.
  unfold is_leap.
  replace ((y + 400 * e) mod 4) with (y mod 4) by
    (replace (y + 400 * e) with (y + 100 * e * 4) by lia; by rewrite Z_mod_plus_full).
  replace ((y + 400 * e) mod 100) with (y mod 100) by
    (replace (y + 400 * e) with (y + 4 * e * 100) by lia; by rewrite Z_mod_plus_full).
  replace ((y + 400 * e) mod 400) with (y mod 400) by
    (replace (y + 400 * e) with (y + e * 400) by lia; by rewrite Z_mod_plus_full).
  done.
Qed.

Lemma valid_md_shift y m d e : valid_md (y + 400 * e) m d = valid_md y m d.
Proof. unfold valid_md, days_in_month. by rewrite is_leap_shift. Qed.

Lemma days_from_civil_shift y m d e :
  days_from_civil (y + 400 * e) m d = days_from_civil y m d + 146097 * e.
Proof.
  unfold days_from_civil, march_year, year_days.
  set (k := day_of_year m d). clearbody k.
  destruct (m <=? 2); Z.div_mod_to_equations; lia.
Qed.

Lemma civil_from_days_spec days y m d :
  civil_from_days days = (y, m, d) ->
  valid_md y m d = true /\ days_from_civil y m d = days.
Proof.
  unfold civil_from_days. set (z := days + 719468).
  pose proof (Z.mod_pos_bound z 146097 ltac:(lia)) as Hb.
  destruct (civil_of_doe (z mod 146097)) as [[y0 m0] d0] eqn:E.
  apply civil_of_doe_spec in E as [Hv Hd]; [|lia].
  intros [= <- <- <-]. rewrite valid_md_shift, days_from_civil_shift.
  split; [done|]. pose proof (Z.div_mod z 146097 ltac:(lia)). lia.
Qed.

(** ** Adding years *)

Lemma year_days_mono y n : 0 <= n -> year_days y + 365 * n <= year_days (y + n).
Proof.
  intros Hn. unfold year_days.
  assert (forall x, x / 100 = x / 4 / 25) as H100
    by (intros x; rewrite Z.div_div by lia; done).
  rewrite !H100.
  pose proof (Z.div_le_mono y (y + n) 4 ltac:(lia) ltac:(lia)).
  pose proof (Z.div_le_mono y (y + n) 400 ltac:(lia) ltac:(lia)).
  Z.div_mod_to_equations. lia.
Qed.

Lemma days_from_civil_later y m d n :
  0 <= n -> days_from_civil y m d + 365 * n <= days_from_civil (y + n) m d.
Proof.
  intros Hn. unfold days_from_civil, march_year.
  destruct (m <=? 2).
  - pose proof (year_days_mono (y - 1) n Hn) as H.
    replace (y - 1 + n) with (y + n - 1) in H by lia. lia.
  - pose proof (year_days_mono y n Hn). lia.
Qed.

(** The calendar date of [_plus_years]: the same month and day [years]
    later, or 1 March when that day does not exist, at the same time of day. *)
Definition anniversary (y m d years : Z) : Z * Z * Z :=
  if valid_md (y + years) m d then (y + years, m, d) else (y + years, 3, 1).

Lemma plus_years_inv moment years t y m d :
  date_of moment = (y, m, d) -> _plus_years moment years = Ok t ->
  1 <= y + years <= 9999 /\
  exists y' m' d', anniversary y m d years = (y', m', d') /\
    t = days_from_civil y' m' d' * DAY + moment mod DAY.
Proof.
  unfold _plus_years. intros ->. unfold replace_date, anniversary.
  replace (valid_md (y + years) 3 1) with true by reflexivity.
  rewrite !andb_true_r.
  destruct (1 <=? y + years) eqn:E1; [|done].
  destruct (y + years <=? 9999) eqn:E2; [|done].
  bool_hyps. cbn [andb].
  destruct (valid_md (y + years) m d) eqn:Ev.
  - intros [= <-]. split; [lia|]. by repeat eexists.
  - intros [= <-]. split; [lia|]. by repeat eexists.
Qed.

(** A day missing from the target year is 29 February: moving to 1 March
    moves one day forward. *)
Lemma missing_day y m d years :
  valid_md y m d = true -> valid_md (y + years) m d = false ->
  m = 2 /\ d = 29.
Proof.
  unfold valid_md, days_in_month. intros H H'. bool_hyps.
  destruct (m =? 2) eqn:Em.
  - apply Z.eqb_eq in Em as ->.
    repeat (apply andb_false_iff in H' as [H'|H']); try (apply Z.leb_gt in H'; lia).
    destruct (is_leap y), (is_leap (y + years)); apply Z.leb_gt in H'; lia.
  - repeat (apply andb_false_iff in H' as [H'|H']); apply Z.leb_gt in H'; lia.
Qed.

Lemma plus_years_floor moment years t :
  0 <= years -> _plus_years moment years = Ok t ->
  moment + 365 * years * DAY <= t.
Proof.
  intros Hn H. destruct (date_of moment) as [[y m] d] eqn:Ed.
  pose proof (plus_years_inv _ _ _ _ _ _ Ed H) as (_ & y' & m' & d' & Ha & ->).
  unfold date_of in Ed. apply civil_from_days_spec in Ed as [Hv Hd].
  assert (days_from_civil y m d + 365 * years <= days_from_civil y' m' d') as Hle.
  { unfold anniversary in Ha. destruct (valid_md (y + years) m d) eqn:Ev.
    - injection Ha as <- <- <-. by apply days_from_civil_later.
    - destruct (missing_day _ _ _ _ Hv Ev) as [-> ->]. injection Ha as <- <- <-.
      pose proof (days_from_civil_later y 2 29 years Hn) as Hl.
      enough (days_from_civil (y + years) 2 29 <= days_from_civil (y + years) 3 1) by lia.
      unfold days_from_civil, march_year.
      replace (2 <=? 2) with true by done. replace (3 <=? 2) with false by done.
      pose proof (year_days_mono (y + years - 1) 1 ltac:(lia)) as Hy.
      replace (y + years - 1 + 1) with (y + years) in Hy by lia.
      change (day_of_year 2 29) with 365. change (day_of_year 3 1) with 0. lia. }
  pose proof (Z.div_mod moment DAY ltac:(unfold DAY; lia)). unfold DAY in *. nia.
Qed.
