(* ===== verification/Verification.v ===== *)
(** * Verification and reputation

    src/services/verification/app.py ([VerificationService]), its receipt
    verifiers, its store (reputation_store.py over
    src/libs/reputation_repository.py) and the registry's report of a verdict
    ([RegistryService.update_user_reputation]).  Every operation is a program
    ([prog]): the methods of the store and the transactions on the database are
    its steps; clocks, fresh identifiers, the audit service and the provider's
    read gateway are what it asks.

    White space is ASCII's.  What jsonschema and exceptions say in words, and
    how Python prints a list or a mapping, are arguments. *)

From stdpp Require Import gmap pretty.
From S2P Require Import Prelude PyValue Json Base64 Sha256 JsonRead Calendar Signing Attestation Program.
Local Open Scope Z_scope.

(** ** The checks on documents: schemas/*.schema.json *)

Module Schema.
Definition required (d : dict) (keys : list string) : bool := forallb (fun k => str_in k d.*1) keys.
Definition only (d : dict) (keys : list string) : bool := forallb (fun kv => str_in kv.1 keys) d.
Definition prop (d : dict) (key : string) (p : pyval -> bool) : bool := match dget d key with Some v => p v | None => true end.
Definition is_string (v : pyval) : bool := match v with VStr _ => true | _ => false end.
Definition is_object (v : pyval) : bool := match v with VDict _ => true | _ => false end.
Definition is_boolean (v : pyval) : bool := match v with VBool _ => true | _ => false end.
Definition pattern (p : string -> bool) (v : pyval) : bool := match v with VStr s => p s | _ => false end.
(** [$] also matches before a newline at the end. *)
Definition newline : string := String (chr 10) "".
Fixpoint chomp (s : string) : string :=
  match s with
  | "" => ""
  | String c s' => if String.eqb s newline then "" else String c (chomp s')
  end.
Definition anchored (p : string -> bool) (s : string) : bool := p s || (ends_with newline s && p (chomp s)).
Definition hex64 : string -> bool := anchored is_sha256.
Definition is_alphabet (c : ascii) : bool := match b64_val c with Some _ => true | None => false end.
(** [[A-Za-z0-9+/]{n}] and then [tail]. *)
Fixpoint base64_text (n : nat) (tail : string) (s : string) : bool :=
  match n, s with
  | O, _ => String.eqb s tail
  | S n, String c s' => is_alphabet c && base64_text n tail s'
  | _, _ => false
  end.
(** [^.+$] *)
Definition one_line (s : string) : bool :=
  anchored (fun t => truthy t && str_forallb (fun c => negb (N.eqb (ord c) 10)) t) s.

Definition RECEIPT_PROPERTIES : list string :=
  ["provider"; "capability_id"; "provider_id"; "provider_account_hash"; "provider_timestamp"].
Definition receipt (v : pyval) : bool :=
  match v with
  | VDict d =>
      only d RECEIPT_PROPERTIES && required d ["provider"; "capability_id"; "provider_id"]
      && prop d "provider" nonempty_text && prop d "capability_id" nonempty_text && prop d "provider_id" nonempty_text
      && prop d "provider_account_hash" (pattern hex64)
      && prop d "provider_timestamp" (fun v => match v with VInt _ | VStr _ => true | _ => false end)
  | _ => false
  end.
Definition attestation (v : pyval) : bool :=
  match v with
  | VDict d =>
      only d _REQUIRED_FIELDS && required d _REQUIRED_FIELDS
      && prop d "attestation_id"
           (pattern (anchored (fun s => match after_word "attestation-" s with Some t => is_sha256 t | None => false end)))
      && forallb (fun k => prop d k nonempty_text)
           ["task_id"; "user_principal_id"; "agent_principal_id"; "credential_id"; "capability_id"]
      && prop d "approved_payload_hash" (pattern hex64)
      && prop d "provider_receipt" receipt
      && prop d "idempotency_key" nonempty_text
      && prop d "executed_at" (fun v => match v with VInt z => 0 <=? z | _ => false end)
      && prop d "outcome" (fun v => val_in v ["succeeded"; "failed"])
      && prop d "broker_key_id" nonempty_text
      && prop d "material_hashes" (fun v => match v with VDict m => forallb (fun kv => pattern hex64 kv.2) m | _ => false end)
      && prop d "signature" nonempty_text
  | _ => false
  end.
Definition evidence (d : dict) : bool :=
  only d ["evidence_id"; "session_id"; "capability_id"; "schema_valid"; "tests_passed"; "artifact_hashes";
          "execution_attestation"; "created_at"; "extensions"]
  && required d ["evidence_id"; "capability_id"]
  && (required d ["session_id"; "schema_valid"; "tests_passed"; "artifact_hashes"] || required d ["execution_attestation"])
  && prop d "evidence_id" nonempty_text && prop d "session_id" nonempty_text && prop d "capability_id" nonempty_text
  && prop d "schema_valid" is_boolean && prop d "tests_passed" is_boolean
  && prop d "artifact_hashes" (fun v => match v with
                                        | VDict m => forallb (fun kv => one_line kv.1 && pattern hex64 kv.2) m
                                        | _ => false
                                        end)
  && prop d "execution_attestation" attestation
  && prop d "created_at" is_string && prop d "extensions" is_object.
Definition session (d : dict) : bool :=
  only d ["session_id"; "principal_id"; "issued_at"; "expires_at"; "principal_signature"; "extensions"]
  && required d ["session_id"; "principal_id"; "expires_at"; "principal_signature"]
  && prop d "session_id" nonempty_text && prop d "principal_id" nonempty_text
  && prop d "issued_at" is_string && prop d "expires_at" is_string
  && prop d "principal_signature" (pattern (anchored (base64_text 86 "==")))
  && prop d "extensions" is_object.
Definition principal (d : dict) : bool :=
  only d ["principal_id"; "public_key"; "key_algorithm"; "display_name"; "extensions"]
  && required d ["principal_id"; "public_key"]
  && prop d "principal_id" nonempty_text && prop d "public_key" (pattern (anchored (base64_text 43 "=")))
  && prop d "key_algorithm" (fun v => val_is v "ed25519")
  && prop d "display_name" nonempty_text && prop d "extensions" is_object.
End Schema.

(** ** Terraform text *)

Module Terraform.
(** Where the scan is. *)
Record scan := { depth : Z; in_string : bool; escaped : bool; in_comment : bool }.
Definition at_depth (d : Z) : scan := {| depth := d; in_string := false; escaped := false; in_comment := false |}.
Definition quoting (d : Z) (esc : bool) : scan := {| depth := d; in_string := true; escaped := esc; in_comment := false |}.
Definition commenting (d : Z) : scan := {| depth := d; in_string := false; escaped := false; in_comment := true |}.
Definition step (st : scan) (c : ascii) : result string scan :=
  let n := ord c in
  if in_comment st then Ok (if N.eqb n 10 then at_depth (depth st) else st) else
  if in_string st then
    if escaped st then Ok (quoting (depth st) false)
    else if N.eqb n 92 then Ok (quoting (depth st) true)
    else if N.eqb n 34 then Ok (at_depth (depth st))
    else if N.eqb n 10 then Err "unterminated string literal"
    else Ok st
  else if N.eqb n 34 then Ok (quoting (depth st) false)
  else if N.eqb n 35 then Ok (commenting (depth st))
  else if N.eqb n 123 then Ok (at_depth (depth st + 1))
  else if N.eqb n 125 then
    if depth st - 1 <? 0 then Err "unbalanced braces: unexpected '}'" else Ok (at_depth (depth st - 1))
  else Ok st.
Fixpoint scan_text (st : scan) (s : string) : result string scan :=
  match s with
  | "" => Ok st
  | String c s' => match step st c with Ok st' => scan_text st' s' | Err e => Err e end
  end.

(** [_RESOURCE_BLOCK_RE]. *)
Definition skip_spaces : string -> string := Prelude.lstrip.
Definition spaces (s : string) : option string :=
  match s with String c s' => if is_space c then Some (skip_spaces s') else None | "" => None end.
Fixpoint quoted_rest (s : string) (some : bool) : option string :=
  match s with
  | "" => None
  | String c s' => if N.eqb (ord c) 34 then (if some then Some s' else None)
                   else if N.eqb (ord c) 10 then None else quoted_rest s' true
  end.
Definition quoted (s : string) : option string :=
  match s with String c s' => if N.eqb (ord c) 34 then quoted_rest s' false else None | "" => None end.
Definition block_here (s : string) : bool :=
  match (r ← after_word "resource" (skip_spaces s); r ← spaces r; r ← quoted r; r ← spaces r; quoted r) with
  | Some r => match skip_spaces r with String c _ => N.eqb (ord c) 123 | "" => false end
  | None => false
  end.
Fixpoint block_after_newline (s : string) : bool :=
  match s with
  | "" => false
  | String c s' => (N.eqb (ord c) 10 && block_here s') || block_after_newline s'
  end.
Definition has_resource_block (s : string) : bool := block_here s || block_after_newline s.

Definition validate_terraform_syntax (v : pyval) : bool * string :=
  match v with
  | VStr text =>
      if negb (truthy (Prelude.strip text)) then (false, "terraform_hcl is empty") else
      match scan_text (at_depth 0) text with
      | Err e => (false, e)
      | Ok st =>
          if in_string st then (false, "unterminated string literal") else
          if negb (Z.eqb (depth st) 0) then (false, "unbalanced braces: " +:+ pretty (depth st) +:+ " unclosed '{'") else
          if negb (has_resource_block text) then (false, "no resource block found") else
          (true, "ok")
      end
  | _ => (false, "terraform_hcl must be a string")
  end.
End Terraform.

(** ** The store *)

(** [trust.reputation_records] *)
Record reputation_record := { tasks_verified : Z; tasks_rejected : Z; updated_at : Z }.
(** [trust.reputation_portfolio] *)
Record portfolio_entry := {
  seq : Z;
  subject_principal_id : string;
  e_capability_id : string;
  e_evidence_id : string;
  e_verified_at : Z;
}.
(** [identity.principals] *)
Record principal_row := { principal_type : string; created_by : option string; last_active_at : option Z }.
(** The database, and what one process of the verification service keeps in
    memory: its results, its revocation list and its lock. *)
Record trust := {
  principals : gmap string principal_row;
  capabilities : gset string;
  evidence_rows : gset string;
  records : gmap (string * string) reputation_record;
  portfolio : list portfolio_entry;
  next_seq : Z;
  results : gmap string dict;
  revoked : gset string;
  execution_lock : bool;
}.
Definition no_trust : trust := {|
  principals := ∅; capabilities := ∅; evidence_rows := ∅; records := ∅; portfolio := []; next_seq := 1;
  results := ∅; revoked := ∅; execution_lock := false |}.

Inductive trust_error : Type :=
| Python (e : pyexn)
| AttributeError
| IntegrityError                          (* a constraint of the database *)
| OutOfRange                              (* of an [integer] column *)
| Gateway (class_name : string)
| Busy.                                   (* still waiting for the lock *)

Inductive gateway_error : Type :=
| Refused                                 (* [PermissionError] or [ProviderError] *)
| RateLimited                             (* [SlackRateLimitError], a [ProviderError] *)
| Raised (class_name : string).
Inductive question : Type -> Type :=
| UtcNow : question Z                                     (* microseconds *)
| DbNow : question Z
| Fresh : question string                                 (* [uuid4().hex] *)
| ReadReceipt (user credential capability receipt : pyval) : question (result gateway_error pyval)
| Audit (principal activity resource : string) (details : dict) : question unit.
Definition tprog (A : Type) : Type := prog trust trust_error question A.
Definition tm (A : Type) : Type := stm trust trust_error A.

Definition with_rows (s : trust) (ps : gmap string principal_row) (cs : gset string) (es : gset string)
    (rs : gmap (string * string) reputation_record) (pf : list portfolio_entry) (n : Z) : trust := {|
  principals := ps; capabilities := cs; evidence_rows := es; records := rs; portfolio := pf; next_seq := n;
  results := results s; revoked := revoked s; execution_lock := execution_lock s |}.
Definition with_memory (s : trust) (rs : gmap string dict) (rv : gset string) (b : bool) : trust := {|
  principals := principals s; capabilities := capabilities s; evidence_rows := evidence_rows s; records := records s;
  portfolio := portfolio s; next_seq := next_seq s; results := rs; revoked := rv; execution_lock := b |}.
Definition with_principals (s : trust) (ps : gmap string principal_row) : trust :=
  with_rows s ps (capabilities s) (evidence_rows s) (records s) (portfolio s) (next_seq s).

(** *** identity_repository.py *)

Definition register_principal (p principal_type : string) (created_by : option string) : tm unit := fun s =>
  match principals s !! p with
  | Some _ => (s, Err (Python ValueError))
  | None => (with_principals s (<[p := {| principal_type := principal_type; created_by := created_by; last_active_at := None |}]>
                                  (principals s)), Ok tt)
  end.
Definition principal_exists (p : string) : tm bool := fun s => (s, Ok (bool_decide (is_Some (principals s !! p)))).
Definition get_principal (p : string) : tm (option principal_row) := fun s => (s, Ok (principals s !! p)).
Definition touch (now : Z) (r : principal_row) : principal_row :=
  {| principal_type := principal_type r; created_by := created_by r; last_active_at := Some now |}.
Definition update_last_active (p : string) (now : Z) : tm unit := fun s =>
  (with_principals s (alter (touch now) p (principals s)), Ok tt).

(** *** reputation_repository.py *)

Section repository.
Local Open Scope prog_scope.

Definition _ensure_principal (p : string) : tprog unit :=
  if negb (truthy p) then give tt else
  known <- atom (principal_exists p) ;;
  if (known : bool) then give tt else
  r <- attempt (atom (register_principal p "agent" None)) ;;
  match r with Ok _ | Err (Python ValueError) => give tt | Err e => raise e end.

Definition INTEGER_MAX : Z := 2147483647.
(** The row after one more verdict; the generated rate adds the two counts. *)
Definition add_verdict (old : option reputation_record) (good : bool) (now : Z) : option reputation_record :=
  let v := (match old with Some r => tasks_verified r | None => 0 end) + (if good then 1 else 0) in
  let r := (match old with Some r => tasks_rejected r | None => 0 end) + (if good then 0 else 1) in
  if (v <=? INTEGER_MAX) && (r <=? INTEGER_MAX) && (v + r <=? INTEGER_MAX)
  then Some {| tasks_verified := v; tasks_rejected := r; updated_at := now |} else None.
(** One transaction. *)
Definition upsert_verdict (p capability : string) (good : bool) (now : Z) : tm reputation_record := fun s =>
  if negb (bool_decide (is_Some (principals s !! p))) then (s, Err IntegrityError) else
  match add_verdict (records s !! (p, capability)) good now with
  | Some r => (with_rows s (principals s) ({[capability]} ∪ capabilities s) (evidence_rows s)
                 (<[(p, capability) := r]> (records s)) (portfolio s) (next_seq s), Ok r)
  | None => (s, Err OutOfRange)
  end.
Definition record_verdict (p capability verdict : string) : tprog reputation_record :=
  if negb (str_in verdict ["verified"; "rejected"]) then raise (Python ValueError) else
  _ensure_principal p ;;
  now <- ask DbNow ;;
  atom (upsert_verdict p capability (String.eqb verdict "verified") now).

(** The savepoint undoes the insertion of an evidence already there, but not
    the number it drew. *)
Definition insert_entry (p capability evidence : string) (at_ : Z) : tm unit := fun s =>
  let e := {| seq := next_seq s; subject_principal_id := p; e_capability_id := capability; e_evidence_id := evidence; e_verified_at := at_ |} in
  let done entries := with_rows s (principals s) ({[capability]} ∪ capabilities s) ({[evidence]} ∪ evidence_rows s)
                        (records s) entries (next_seq s + 1) in
  if existsb (fun x => String.eqb (e_evidence_id x) evidence) (portfolio s) then (done (portfolio s), Ok tt)
  else if bool_decide (is_Some (principals s !! p)) then (done (portfolio s ++ [e]), Ok tt)
  else (with_rows s (principals s) (capabilities s) (evidence_rows s) (records s) (portfolio s) (next_seq s + 1), Err IntegrityError).
Definition repository_add_portfolio_entry (p capability evidence : string) (verified_at : option Z) : tprog unit :=
  _ensure_principal p ;;
  now <- ask DbNow ;;
  atom (insert_entry p capability evidence (default now verified_at)).
End repository.

(** [verification_rate], in ten-thousandths: [round(v / (v + r), 4)] of
    PostgreSQL's [numeric]; no rate without a verdict. *)
Definition verification_rate (r : reputation_record) : option Z :=
  let n := tasks_verified r + tasks_rejected r in
  if Z.eqb n 0 then None else Some ((2 * tasks_verified r * 10000 + n) / (2 * n)).
Definition capability_le (a b : string * reputation_record) : Prop := String.le a.1 b.1.
#[export] Instance capability_le_dec : RelDecision capability_le.
Proof. intros a b. unfold capability_le. apply _. Defined.
Definition get_reputation (p : string) (capability : option string) (s : trust) : list (string * reputation_record) :=
  let rows := omap (fun x => if String.eqb x.1.1 p then Some (x.1.2, x.2) else None) (map_to_list (records s)) in
  merge_sort capability_le
    (match capability with Some c => List.filter (fun x => String.eqb x.1 c) rows | None => rows end).
(** [order by verified_at desc, seq desc]. *)
Definition newer (a b : portfolio_entry) : Prop :=
  e_verified_at b < e_verified_at a \/ e_verified_at a = e_verified_at b /\ seq b <= seq a.
#[export] Instance newer_dec : RelDecision newer.
Proof. intros a b. unfold newer. apply _. Defined.
Definition get_portfolio (p : string) (capability : option string) (limit : option nat) (s : trust) : list portfolio_entry :=
  let rows := List.filter (fun e => String.eqb (subject_principal_id e) p
                                    && match capability with Some c => String.eqb (e_capability_id e) c | None => true end) (portfolio s) in
  let sorted := merge_sort newer rows in
  match limit with Some n => take n sorted | None => sorted end.

(** *** reputation_store.py *)

Definition put_result (id : string) (result : dict) : tm unit := fun s =>
  (with_memory s (<[id := result]> (results s)) (revoked s) (execution_lock s), Ok tt).
Definition get_result (id : string) : tm (option dict) := fun s => (s, Ok (results s !! id)).
Definition revoke (value : string) : tm unit := fun s =>
  (with_memory s (results s) ({[value]} ∪ revoked s) (execution_lock s), Ok tt).
Fixpoint any_revoked (values : list pyval) (s : trust) : result trust_error bool :=
  match values with
  | [] => Ok false
  | VNone :: l => any_revoked l s
  | VStr v :: l => if bool_decide (v ∈ revoked s) then Ok true else any_revoked l s
  | v :: l => if hashable v then any_revoked l s else Err (Python TypeError)
  end.
Definition is_revoked (values : list pyval) : tm bool := fun s => (s, any_revoked values s).

(** ** Receipt verifiers *)

(** What [composition.build_receipt_verifiers] makes, over one gateway. *)
Inductive receipt_verifier := GoogleReceiptVerifier | SlackReceiptVerifier.
Definition check : Type := string * string.               (* ["verdict"], ["reasoning"] *)
Definition mismatch (exact : dict) (observed : dict) : option string :=
  fst <$> List.find (fun fe => py_neqb (get observed fe.1) fe.2) exact.

Definition google_exact (a receipt : dict) : dict := [
  ("provider", VStr "google"); ("capability_id", get a "capability_id"); ("provider_id", get receipt "provider_id");
  ("user_principal_id", get a "user_principal_id"); ("credential_id", get a "credential_id")].
Definition far_apart (observed_timestamp executed_at : pyval) : bool :=
  match as_number observed_timestamp, as_number executed_at with Some x, Some y => 300 <? Z.abs (x - y) | _, _ => false end.
Definition account_matches (receipt observed : dict) : bool :=
  match get receipt "provider_account_hash" with
  | VNone => true
  | h => match get observed "provider_account_id" with VStr s => val_is h (_hash (VStr s)) | _ => false end
  end.
Definition material_mismatch (hashes material : dict) : option string :=
  fst <$> List.find (fun fh => match dget material fh.1 with Some v => negb (val_is fh.2 (_hash v)) | None => true end) hashes.
Definition google_check (a receipt observed : dict) : check :=
  match mismatch (google_exact a receipt) observed with
  | Some field => ("rejected", "provider receipt " +:+ field +:+ " does not match")
  | None =>
      let stamped := str_in "provider_timestamp" receipt.*1 in
      if stamped && py_neqb (get observed "provider_timestamp") (get receipt "provider_timestamp")
      then ("rejected", "provider receipt timestamp does not match")
      else if negb stamped && far_apart (get observed "provider_timestamp") (get a "executed_at")
      then ("rejected", "provider receipt timestamp is outside execution window")
      else if negb (account_matches receipt observed) then ("rejected", "provider account does not match")
      else match material_mismatch (as_mapping (get a "material_hashes")) (as_mapping (get observed "material")) with
           | Some field => ("rejected", "provider material " +:+ field +:+ " does not match")
           | None => ("verified", "broker signature and Google receipt fields match")
           end
  end.

Definition slack_exact (a receipt : dict) : dict := [
  ("provider", VStr "slack"); ("capability_id", get a "capability_id"); ("provider_id", get receipt "provider_id");
  ("team_id", get receipt "team_id"); ("channel_id", get receipt "channel_id");
  ("approved_payload_hash", get a "approved_payload_hash")]
  ++ match get receipt "message_ts" with VNone => [] | v => [("message_ts", v)] end
  ++ match get receipt "user_id" with VNone => [] | v => [("user_id", v)] end.
Definition slack_check (a receipt observed : dict) : result trust_error check :=
  match mismatch (slack_exact a receipt) observed with
  | Some field => Ok ("rejected", "Slack receipt " +:+ field +:+ " does not match")
  | None =>
      let hashes := as_mapping (get a "material_hashes") in
      let observed_hashes := get_or observed "material_hashes" (VDict []) in
      match hashes, observed_hashes with
      | [], _ => Ok ("verified", "broker signature and Slack receipt fields match")
      | _, VDict m =>
          match mismatch hashes m with
          | Some field => Ok ("rejected", "Slack material " +:+ field +:+ " does not match")
          | None => Ok ("verified", "broker signature and Slack receipt fields match")
          end
      | _, _ => Err AttributeError
      end
  end.

Section verifiers.
Local Open Scope prog_scope.
Definition receipt_of (a : dict) : dict := as_mapping (get a "provider_receipt").
Definition google_verify (a : dict) : tprog check :=
  let receipt := receipt_of a in
  if negb (val_is (get receipt "provider") "google") then give ("rejected", "receipt provider is not Google") else
  observed <- ask (ReadReceipt (get a "user_principal_id") (get a "credential_id") (get a "capability_id") (get receipt "provider_id")) ;;
  match observed with
  | Err (Raised e) => raise (Gateway e)
  | Err _ => give ("unverified", "provider receipt read was not authorized or available")
  | Ok (VDict o) => give (google_check a receipt o)
  | Ok _ => give ("unverified", "provider returned no checkable receipt")
  end.
Definition slack_verify (a : dict) : tprog check :=
  let receipt := receipt_of a in
  if negb (val_is (get receipt "provider") "slack") then give ("rejected", "receipt provider is not Slack") else
  observed <- ask (ReadReceipt (get a "user_principal_id") (get a "credential_id") (get a "capability_id") (VDict receipt)) ;;
  match observed with
  | Err (Raised e) => raise (Gateway e)
  | Err RateLimited => give ("unverified", "Slack readback is rate limited")
  | Err Refused => give ("unverified", "Slack receipt read was not authorized or available")
  | Ok (VDict o) => of_result (slack_check a receipt o)
  | Ok _ => give ("unverified", "Slack returned no checkable receipt")
  end.
Definition verify_receipt (v : receipt_verifier) (a : dict) : tprog check :=
  match v with GoogleReceiptVerifier => google_verify a | SlackReceiptVerifier => slack_verify a end.
End verifiers.

(** ** The service *)

(** [datetime.isoformat()] of a whole second, with [Z] for UTC. *)
Definition digits (n : nat) (z : Z) : string :=
  let s := pretty z in str_join "" (repeat "0" (n - str_length s)) +:+ s.
Definition rfc3339 (now : Z) : string :=
  let '(y, m, d) := date_of now in
  let t := (now mod DAY) / 1000000 in
  digits 4 y +:+ "-" +:+ digits 2 m +:+ "-" +:+ digits 2 d +:+ "T"
  +:+ digits 2 (t / 3600) +:+ ":" +:+ digits 2 (t / 60 mod 60) +:+ ":" +:+ digits 2 (t mod 60) +:+ "Z".
(** [value.replace("Z", "+00:00")]. *)
Fixpoint replace_z (s : string) : string :=
  match s with "" => "" | String c s' => if N.eqb (ord c) 90 then "+00:00" +:+ replace_z s' else String c (replace_z s') end.

(** [canonical_session_claims]: what a session's principal signs. *)
Definition canonical_session_claims (session : dict) : string := json_text (VDict [
  ("session_id", get session "session_id"); ("principal_id", get session "principal_id"); ("expires_at", get session "expires_at")]).

Inductive body :=
| Error (message : string)
| RevokedKey (verification_result : dict)
| Judged (verification_result : dict) (record : reputation_record)
| Rejected (message : string)                               (* evidence_status rejected, error *)
| Unverified (reasoning : string)
| Executed (status : string) (verification_result : dict) (record : option reputation_record)
| Revoked (value : string)
| Reported (task : string) (verified : bool) (capability : string) (record : reputation_record).
Definition answer : Type := Z * body.

Record VerificationService := {
  verifier_principal_id : string;
  known_brokers : dict;
  receipt_verifiers : string -> option receipt_verifier;
}.

Section service.
Context {E : Ed25519}.
(** [datetime.fromisoformat], in microseconds, a moment without a zone being
    UTC's; what jsonschema and exceptions say; [str] of a list or mapping. *)
Context (fromisoformat : string -> option Z) (complaint : string -> pyval -> string) (container_text : pyval -> string).
Context (self : VerificationService).
Local Open Scope prog_scope.

Definition py_str (v : pyval) : string :=
  match v with
  | VNone => "None" | VBool b => if b then "True" else "False" | VInt z => pretty z | VStr s => s | v => container_text v
  end.
Definition _parse_rfc3339 (v : pyval) : option Z := match v with VStr s => fromisoformat (replace_z s) | _ => None end.

Definition verify_session_signature (session principal : dict) : bool * string :=
  match strict_value (get principal "public_key"), strict_value (get session "principal_signature") with
  | Some public_key, Some signature =>
      if negb (Nat.eqb (str_length public_key) 32) then (false, "public key is not 32 bytes") else
      if negb (Nat.eqb (str_length signature) 64) then (false, "signature is not 64 bytes") else
      if verify public_key (canonical_session_claims session) signature then (true, "ok")
      else (false, "principal_signature does not verify against public_key")
  | _, _ => (false, "malformed key or signature encoding: " +:+ complaint "base64" (VDict session))
  end.

Definition TERRAFORM_CAPABILITY_ID : string := "terraform.generate".
Definition _decide_verdict (evidence : dict) : string * string :=
  if negb (truthy (get evidence "schema_valid")) then ("rejected", "evidence reports schema_valid=false") else
  if negb (truthy (get evidence "tests_passed")) then ("rejected", "evidence reports tests_passed=false") else
  if val_is (get evidence "capability_id") TERRAFORM_CAPABILITY_ID then
    match get (as_mapping (get evidence "extensions")) "terraform_hcl" with
    | VNone => ("rejected", "capability " +:+ TERRAFORM_CAPABILITY_ID +:+ " requires extensions.terraform_hcl")
    | hcl => let (ok, reason) := Terraform.validate_terraform_syntax hcl in
             if (ok : bool) then ("verified", "schema_valid and tests_passed asserted; terraform syntax check passed")
             else ("rejected", "terraform syntax check failed: " +:+ reason)
    end
  else ("verified", "schema_valid and tests_passed asserted; no task-specific check registered for capability "
                    +:+ text_of (get evidence "capability_id")).

Definition result_row (result_id evidence_id verdict reasoning : string) (now : Z) : dict := [
  ("result_id", VStr ("vr-" +:+ result_id)); ("evidence_id", VStr evidence_id);
  ("principal_id", VStr (verifier_principal_id self)); ("verdict", VStr verdict); ("reasoning", VStr reasoning);
  ("verified_at", VStr (rfc3339 now))].
Definition _make_result (evidence_id verdict reasoning : string) : tprog dict :=
  id <- ask Fresh ;;
  now <- ask UtcNow ;;
  give (result_row id evidence_id verdict reasoning now).
(** [ReputationStore.add_portfolio_entry]. *)
Definition add_portfolio_entry (p capability : string) (r : dict) : tprog unit :=
  if negb (val_is (get r "verdict") "verified") then give tt else
  repository_add_portfolio_entry p capability (text_of (get r "evidence_id")) (_parse_rfc3339 (get r "verified_at")).

(** *** Evidence that an agent's session submits *)

Definition judge (evidence principal : dict) : tprog answer :=
  let id := text_of (get evidence "evidence_id") in
  let p := text_of (get principal "principal_id") in
  let capability := text_of (get evidence "capability_id") in
  let (verdict, reasoning) := _decide_verdict evidence in
  r <- _make_result id verdict reasoning ;;
  atom (put_result id r) ;;
  record <- record_verdict p capability verdict ;;
  add_portfolio_entry p capability r ;;
  give (200, Judged r record).
Definition invalid (message : string) : tprog answer := give (422, Error message).
Definition process_session_evidence (evidence session principal : dict) : tprog answer :=
  is_off <- atom (is_revoked [get principal "principal_id"; get principal "public_key"; get session "principal_id"]) ;;
  if (is_off : bool) then
    let id := if truthy (get evidence "evidence_id") then py_str (get evidence "evidence_id") else "unknown" in
    r <- _make_result id "rejected" "revoked key: the submitting Principal's key or id is on the revocation list" ;;
    atom (put_result id r) ;;
    give (403, RevokedKey r)
  else if negb (Schema.principal principal) then invalid ("invalid principal: " +:+ complaint "principal" (VDict principal))
  else if negb (Schema.session session) then invalid ("invalid session: " +:+ complaint "session" (VDict session))
  else if py_neqb (get session "principal_id") (get principal "principal_id")
  then invalid "session principal_id does not match principal"
  else match _parse_rfc3339 (get session "expires_at") with
  | None => invalid "invalid session: unparseable expires_at"
  | Some expires_at =>
      now <- ask UtcNow ;;
      if expires_at <=? now then invalid "invalid session: expired" else
      let (ok, reason) := verify_session_signature session principal in
      if negb ok then invalid ("invalid session link: " +:+ reason)
      else if negb (Schema.evidence evidence) then invalid ("invalid evidence: " +:+ complaint "evidence" (VDict evidence))
      else if py_neqb (get evidence "session_id") (get session "session_id")
      then invalid "evidence session_id does not match session"
      else judge evidence principal
  end.

(** *** Evidence that the broker submits *)

Definition rejected (status : Z) (message : string) : tprog answer := give (status, Rejected message).
Definition settle (a : dict) (verdict reasoning : string) : tprog answer :=
  let id := text_of (get a "attestation_id") in
  let p := text_of (get a "agent_principal_id") in
  let capability := text_of (get a "capability_id") in
  r <- _make_result id verdict reasoning ;;
  atom (put_result id r) ;;
  if String.eqb verdict "verified" then
    record <- record_verdict p capability "verified" ;;
    add_portfolio_entry p capability r ;;
    give (200, Executed verdict r (Some record))
  else give (200, Executed verdict r None).
Definition _process_execution_evidence (evidence : dict) : tprog answer :=
  if negb (Schema.evidence evidence) then rejected 422 ("invalid evidence: " +:+ complaint "evidence" (VDict evidence)) else
  let a := as_mapping (get evidence "execution_attestation") in
  match verify_execution_attestation (VDict a) (Keys (known_brokers self)) with
  | Err (AttestationError _) => rejected 422 "invalid broker execution attestation"
  | Err (Attestation.Python e) => raise (Python e)
  | Ok _ =>
      is_off <- atom (is_revoked [get a "agent_principal_id"; get a "user_principal_id"; get a "broker_key_id"]) ;;
      if (is_off : bool) then rejected 403 "revoked execution principal or broker key" else
      if py_neqb (get evidence "evidence_id") (get a "attestation_id") || py_neqb (get evidence "capability_id") (get a "capability_id")
         || negb (val_is (get a "outcome") "succeeded")
      then rejected 422 "evidence does not match execution attestation" else
      known <- atom (get_result (text_of (get evidence "evidence_id"))) ;;
      match known with
      | Some _ => rejected 409 "execution attestation was already submitted"
      | None =>
          let provider := text_of (get (receipt_of a) "provider") in
          match receipt_verifiers self provider with
          | None => give (200, Unverified ("no receipt verifier is configured for " +:+ provider))
          | Some v =>
              c <- verify_receipt v a ;;
              let (verdict, reasoning) := c in
              if String.eqb verdict "unverified" then give (200, Unverified reasoning) else
              if negb (str_in verdict ["verified"; "rejected"])
              then give (200, Unverified "receipt verifier returned no authoritative verdict") else
              settle a verdict reasoning
          end
      end
  end.
(** [with self._execution_lock].  A thread that finds the lock taken waits: it
    makes no step until its turn, and [Busy] is one that never gets it. *)
Definition acquire : tm bool := fun s =>
  (with_memory s (results s) (revoked s) true, Ok (negb (execution_lock s))).
Definition release : tm unit := fun s => (with_memory s (results s) (revoked s) false, Ok tt).
Definition process_execution_evidence (evidence : dict) : tprog answer :=
  mine <- atom acquire ;;
  if negb mine then raise Busy else
  r <- attempt (_process_execution_evidence evidence) ;;
  atom release ;;
  of_result r.

Definition process_evidence (payload : pyval) : tprog answer :=
  match payload with
  | VDict d =>
      match get d "evidence", get d "session", get d "principal" with
      | VDict evidence, session, principal =>
          if str_in "execution_attestation" evidence.*1 then process_execution_evidence evidence else
          match session, principal with
          | VDict s, VDict p => process_session_evidence evidence s p
          | VDict _, _ => invalid "missing or non-object 'principal'"
          | _, _ => invalid "missing or non-object 'session'"
          end
      | _, _, _ => invalid "missing or non-object 'evidence'"
      end
  | _ => invalid "request body must be a JSON object"
  end.

(** *** The other writers *)

(** [POST /revocations]. *)
Definition post_revocation (d : dict) : tprog answer :=
  match (if truthy (get d "principal_id") then get d "principal_id" else get d "public_key") with
  | VStr v => if truthy v then atom (revoke v) ;; give (200, Revoked v)
              else invalid "body must contain 'principal_id' or 'public_key'"
  | _ => invalid "body must contain 'principal_id' or 'public_key'"
  end.
(** [RegistryService.update_user_reputation], over [UserIndex.record_reputation]. *)
Definition user_exists (p : string) : tprog bool :=
  r <- atom (get_principal p) ;;
  give (match r with Some r => String.eqb (principal_type r) "user" | None => false end).
Definition agent_exists (p : string) : tprog bool :=
  r <- atom (get_principal p) ;;
  give (match r with Some r => bool_decide (is_Some (created_by r)) | None => false end).
Definition record_reputation (p capability : string) (verified : bool) : tprog reputation_record :=
  r <- record_verdict p capability (if verified then "verified" else "rejected") ;;
  now <- ask DbNow ;;
  atom (update_last_active p now) ;;
  give r.
Definition apply_report (p : string) (d : dict) : tprog answer :=
  match get d "task_id", get d "verified", get d "capability_id" with
  | VStr task, VBool verified, VStr capability =>
      if negb (truthy task) then invalid "missing or non-string 'task_id'" else
      if negb (truthy capability) then invalid "missing or non-string 'capability_id'" else
      r <- record_reputation p capability verified ;;
      ask (Audit p "reputation.update" task [("verified", VBool verified); ("capability_id", VStr capability)]) ;;
      give (200, Reported task verified capability r)
  | VStr task, VBool _, _ =>
      if negb (truthy task) then invalid "missing or non-string 'task_id'" else invalid "missing or non-string 'capability_id'"
  | VStr task, _, _ =>
      if negb (truthy task) then invalid "missing or non-string 'task_id'" else invalid "'verified' must be a boolean"
  | _, _, _ => invalid "missing or non-string 'task_id'"
  end.
Definition update_user_reputation (p : string) (payload : pyval) : tprog answer :=
  if negb (truthy p) then invalid "missing or non-string 'principal_id'" else
  match payload with
  | VDict d =>
      is_user <- user_exists p ;;
      known <- (if (is_user : bool) then give true else agent_exists p) ;;
      if negb known then give (404, Error "principal not found") else apply_report p d
  | _ => invalid "request body must be a JSON object"
  end.
End service.
