(* ===== verification/VerificationProofs.v ===== *)
(** * Where a reputation comes from

    Theorems about Verification.v.  Any number of requests run on one store,
    statement by statement; whatever they do, the counts and the portfolio are
    those of a list of verdicts each of which can be accounted for. *)

From stdpp Require Import gmap pretty.
From S2P Require Import Prelude PyValue Json JsonRead Base64 Signing Attestation Program Verification.
From S2P Require SigningProofs.
Local Open Scope Z_scope.

Ltac conjuncts := repeat match goal with H : _ && _ = true |- _ => apply andb_true_iff in H as [H ?] end.

(** ** Requests *)

Inductive call : Type :=
| Evidence (payload : pyval)
| Revocation (d : dict)
| Report (p : string) (payload : pyval)
| RegisterPrincipal (p principal_type : string) (created_by : option string).

Abbreviation events := (list (event (Q := question))).

Section trust.
Context {E : Ed25519} (fromisoformat : string -> option Z) (complaint : string -> pyval -> string) (container_text : pyval -> string).
Context (self : VerificationService).
Abbreviation thread := (tprog unit).

Definition exec (c : call) : thread :=
  match c with
  | Evidence payload => forget (process_evidence fromisoformat complaint container_text self payload)
  | Revocation d => forget (post_revocation d)
  | Report p payload => forget (update_user_reputation p payload)
  | RegisterPrincipal p t by_ => atom (register_principal p t by_)
  end.
Section system.
Context (asked : call -> Prop).
Definition may_start (p : thread) : Prop := exists c, asked c /\ p = exec c.

(** ** Verdicts *)

Inductive source : Type :=
| FromExecution (evidence attestation : dict)
| FromSession (evidence session principal : dict)
| FromReport (d : dict).
Record verdict := { v_principal : string; v_capability : string; v_good : bool; v_source : source }.
Definition evidence_of (x : verdict) : option string :=
  match v_source x with
  | FromExecution _ a => Some (text_of (get a "attestation_id"))
  | FromSession e _ _ => Some (text_of (get e "evidence_id"))
  | FromReport _ => None
  end.
Definition execution_of (x : verdict) : option string :=
  match v_source x with FromExecution _ a => Some (text_of (get a "attestation_id")) | _ => None end.
Definition executions (h : list verdict) : list string := omap execution_of h.
Definition about (p c : string) (good : bool) (x : verdict) : bool :=
  String.eqb (v_principal x) p && String.eqb (v_capability x) c && Bool.eqb (v_good x) good.
Definition tally (p c : string) (good : bool) (h : list verdict) : Z := Z.of_nat (length (List.filter (about p c good) h)).

(** The provider's own reading, in the log, agrees with the attestation. *)
Definition grounded (a : dict) (g : events) : Prop :=
  let receipt := receipt_of a in
  let read what o := answered (ReadReceipt (get a "user_principal_id") (get a "credential_id") (get a "capability_id") what) (Ok (VDict o)) ∈ g in
  exists o,
    (get receipt "provider" = VStr "google" /\ read (get receipt "provider_id") o /\ (google_check a receipt o).1 = "verified")
    \/ (get receipt "provider" = VStr "slack" /\ read (VDict receipt) o /\ exists why, slack_check a receipt o = Ok ("verified", why)).
Definition in_payload (evidence session principal payload : pyval) : Prop :=
  exists d, payload = VDict d /\ get d "evidence" = evidence /\ get d "session" = session /\ get d "principal" = principal.
(** A verdict that counts: an execution the broker attested, that succeeded and
    that its provider confirms; or work handed in under a session signed
    with the key it came with and that had not expired; or what the registry was told. *)
Definition accounted (g : events) (x : verdict) : Prop :=
  match v_source x with
  | FromExecution e a =>
      v_good x = true /\ (exists payload s p, asked (Evidence payload) /\ in_payload (VDict e) s p payload)
      /\ get e "execution_attestation" = VDict a
      /\ verify_execution_attestation (VDict a) (Keys (known_brokers self)) = Ok tt
      /\ get a "outcome" = VStr "succeeded" /\ get a "agent_principal_id" = VStr (v_principal x)
      /\ get a "capability_id" = VStr (v_capability x) /\ grounded a g
  | FromSession e s p =>
      (exists payload, asked (Evidence payload) /\ in_payload (VDict e) (VDict s) (VDict p) payload)
      /\ get p "principal_id" = VStr (v_principal x) /\ get s "principal_id" = VStr (v_principal x)
      /\ (verify_session_signature complaint s p).1 = true
      /\ (exists t now, _parse_rfc3339 fromisoformat (get s "expires_at") = Some t /\ answered UtcNow now ∈ g /\ now < t)
      /\ get e "session_id" = get s "session_id" /\ get e "capability_id" = VStr (v_capability x)
      /\ (_decide_verdict e).1 = (if v_good x then "verified" else "rejected")
  | FromReport d =>
      asked (Report (v_principal x) (VDict d)) /\ get d "capability_id" = VStr (v_capability x) /\ get d "verified" = VBool (v_good x)
  end.

(** ** What a thread knows *)

Record world := { w_store : trust; w_log : events; w_verdicts : list verdict }.
Definition later (w w' : world) : Prop :=
  (forall id, is_Some (results (w_store w) !! id) -> is_Some (results (w_store w') !! id))
  /\ w_log w ⊆ w_log w' /\ w_verdicts w ⊆ w_verdicts w'.
Record know := {
  holds : bool;                          (* it has the lock *)
  clear : option string;                 (* and this execution has not counted *)
  fact : world -> Prop;
}.
Definition idle : know := {| holds := false; clear := None; fact _ := True |}.
Definition also (l : know) (P : world -> Prop) : know := {| holds := holds l; clear := clear l; fact w := fact l w /\ P w |}.
Definition knows (w : world) (l : know) : Prop :=
  (forall id, clear l = Some id -> holds l = true /\ id ∉ executions (w_verdicts w))
  /\ (forall w1 w2, later w1 w2 -> fact l w1 -> fact l w2) /\ fact l w.
Definition counts (o : option reputation_record) : Z * Z :=
  match o with Some r => (tasks_verified r, tasks_rejected r) | None => (0, 0) end.
Definition entry_accounted (h : list verdict) (e : portfolio_entry) : Prop :=
  exists x, x ∈ h /\ v_good x = true /\ v_principal x = subject_principal_id e /\ v_capability x = e_capability_id e
    /\ evidence_of x = Some (e_evidence_id e).
Definition holders (ls : list know) : nat := length (List.filter holds ls).
Record sound (ls : list know) (w : world) : Prop := {
  so_counts : forall p c, counts (records (w_store w) !! (p, c)) = (tally p c true (w_verdicts w), tally p c false (w_verdicts w));
  so_accounted : forall x, x ∈ w_verdicts w -> accounted (w_log w) x;
  so_once : NoDup (executions (w_verdicts w));
  so_results : forall id, id ∈ executions (w_verdicts w) -> is_Some (results (w_store w) !! id);
  so_portfolio : forall e, e ∈ portfolio (w_store w) -> entry_accounted (w_verdicts w) e;
  so_unique : NoDup (map e_evidence_id (portfolio (w_store w)));
  so_knows : forall l, l ∈ ls -> knows w l;
  so_holders : (holders ls <= if execution_lock (w_store w) then 1 else 0)%nat;
}.
Definition world_of (s : trust) (g : events) (h : list verdict) : world := {| w_store := s; w_log := g; w_verdicts := h |}.
Definition inv (s : trust) (ls : list know) (g : events) : Prop := exists h, sound ls (world_of s g h).

(** *** Steps *)

Lemma later_refl w : later w w.
Proof. by split_and!. Qed.
Lemma accounted_later g g' x : g ⊆ g' -> accounted g x -> accounted g' x.
Proof.
  intros Hg. unfold accounted, grounded. destruct (v_source x) as [e a|e s p|d]; [|naive_solver|done].
  intros (H1 & H2 & H3 & H4 & H5 & H6 & H7 & o & Ho). split_and!; try done. exists o. naive_solver.
Qed.
Lemma entry_later h h' e : h ⊆ h' -> entry_accounted h e -> entry_accounted h' e.
Proof. intros Hh (x & Hx & H). exists x. split; [by apply Hh|done]. Qed.
Lemma knows_same w w' l : later w w' -> executions (w_verdicts w') = executions (w_verdicts w) -> knows w l -> knows w' l.
Proof. intros Hl He (H1 & H2 & H3). split; [by rewrite He|]. split; [done|]. by eapply H2. Qed.
Lemma also_knows w l P : (forall w1 w2, later w1 w2 -> P w1 -> P w2) -> P w -> knows w l -> knows w (also l P).
Proof. intros HP Hw (H1 & H2 & H3). split; [done|]. split; [|done]. intros w1 w2 Hl [H H']. split; [by eapply H2|by eapply HP]. Qed.
Lemma holders_mid a l b : holders (a ++ l :: b) = (holders a + (if holds l then 1 else 0) + holders b)%nat.
Proof. unfold holders. rewrite List.filter_app, length_app. cbn. destruct (holds l); cbn; lia. Qed.

(** A step that adds no verdict and no entry. *)
Definition quiet (s s' : trust) : Prop :=
  records s' = records s /\ portfolio s' = portfolio s /\ execution_lock s' = execution_lock s
  /\ forall id, is_Some (results s !! id) -> is_Some (results s' !! id).
Lemma quiet_refl s : quiet s s.
Proof. by split_and!. Qed.
Lemma quiet_step s s' a l l' b g g' h :
  quiet s s' -> g ⊆ g' -> holds l' = holds l -> (knows (world_of s' g' h) l -> knows (world_of s' g' h) l') ->
  sound (a ++ l :: b) (world_of s g h) -> sound (a ++ l' :: b) (world_of s' g' h).
Proof.
  intros (Hr & Hp & Hb & Hs) Hg Hh Hl [S1 S2 S3 S4 S5 S6 S7 S8]. cbn in *.
  assert (later (world_of s g h) (world_of s' g' h)) as Hlater by (split_and!; done).
  constructor; cbn; rewrite ?Hr, ?Hp; try done.
  - intros x Hx. eapply accounted_later; [done|by apply S2].
  - intros id Hid. by apply Hs, S4.
  - intros y Hy. assert (y = l' \/ y ∈ a ++ l :: b) as [->|Hy'] by set_solver.
    + apply Hl. eapply knows_same; [done|done|]. apply S7. set_solver.
    + eapply knows_same; [done|done|by apply S7].
  - rewrite holders_mid, Hb in *. by rewrite Hh.
Qed.

Definition kept {A} (l : know) : know -> result trust_error A -> Prop := fun l' _ => l' = l.
Lemma wp_quiet {A} (m : tm A) l (P : know -> result trust_error A -> Prop) :
  (forall s, quiet s (m s).1) -> (forall r, P l r) -> wp inv l (atom m) P.
Proof.
  intros Hm HP. exists (fun _ => l). split; [|done]. intros s a b g [h H]. exists h. by eapply quiet_step.
Qed.
Lemma wp_asking {A} (q : question A) l (P : know -> result trust_error A -> Prop) :
  (forall x, P (also l (fun w => answered q x ∈ w_log w)) (Ok x)) -> wp inv l (ask q) P.
Proof.
  intros HP x. exists (also l (fun w => answered q x ∈ w_log w)). split; [|apply HP]. intros s a b g [h H]. exists h.
  apply (quiet_step s s _ l _ _ g); [apply quiet_refl|set_solver|done| |done]. apply also_knows; cbn; [|set_solver].
  intros w1 w2 (_ & Hg & _). apply Hg.
Qed.
Lemma wp_attempting {A} l (p : tprog A) (P : know -> result trust_error (result trust_error A) -> Prop) :
  wp inv l p (fun l' r => P l' (Ok r)) -> wp inv l (attempt p) P.
Proof.
  revert l. induction p as [r|C m k IH|C q k IH]; intros l H; cbn in *; [done|..].
  - destruct H as (next & Hn & Hk). exists next. split; [done|]. intros r. by apply IH.
  - intros x. destruct (H x) as (l' & Hn & Hk). exists l'. split; [done|]. by apply IH.
Qed.
Lemma quiet_principals s ps : quiet s (with_principals s ps).
Proof. by split_and!. Qed.
Lemma quiet_register p t by_ s : quiet s (register_principal p t by_ s).1.
Proof. unfold register_principal. destruct (principals s !! p); [apply quiet_refl|apply quiet_principals]. Qed.
Lemma quiet_put id r s : quiet s (put_result id r s).1.
Proof.
  split_and!; try done. cbn. intros id' H. destruct (decide (id = id')) as [->|]; [by rewrite lookup_insert_eq|by rewrite lookup_insert_ne].
Qed.

Lemma wp_ensure_principal p l P : (forall r, P l r) -> wp inv l (_ensure_principal p) P.
Proof.
  intros HP. unfold _ensure_principal. destruct (negb _); [apply HP|]. apply wp_bind, wp_quiet; [intros; apply quiet_refl|].
  intros [[]|e]; [apply HP| |apply HP]. apply wp_bind, wp_attempting, wp_quiet; [apply quiet_register|].
  intros [u|[]]; try apply HP. destruct e; apply HP.
Qed.

(** A verdict is recorded. *)
Definition recorded (l : know) (x : verdict) : know :=
  {| holds := holds l; clear := None; fact w := fact l w /\ x ∈ w_verdicts w |}.
Lemma tally_snoc p c good h x : tally p c good (h ++ [x]) = tally p c good h + (if about p c good x then 1 else 0).
Proof. unfold tally. rewrite List.filter_app, length_app. cbn. destruct (about p c good x); cbn; lia. Qed.
Lemma add_verdict_counts old good now r :
  add_verdict old good now = Some r ->
  counts (Some r) = ((counts old).1 + (if good then 1 else 0), (counts old).2 + (if good then 0 else 1)).
Proof. unfold add_verdict. destruct (_ && _); [|done]. intros [= <-]. by destruct old. Qed.
Lemma tally_after p c p' c' good h x old r now :
  v_principal x = p -> v_capability x = c -> v_good x = good -> add_verdict old good now = Some r ->
  counts old = (tally p c true h, tally p c false h) ->
  counts (Some r) = (tally p c true (h ++ [x]), tally p c false (h ++ [x]))
  /\ ((p, c) <> (p', c') -> (tally p' c' true (h ++ [x]), tally p' c' false (h ++ [x])) = (tally p' c' true h, tally p' c' false h)).
Proof.
  intros Hp Hc Hg Ha Ho. rewrite (add_verdict_counts _ _ _ _ Ha), Ho, !tally_snoc. unfold about. rewrite Hp, Hc, Hg, !String.eqb_refl.
  split; [by destruct good|]. intros Hne. replace (String.eqb p p' && String.eqb c c') with false; [by rewrite !Z.add_0_r|].
  symmetry. destruct (String.eqb_spec p p'), (String.eqb_spec c c'); cbn; congruence.
Qed.
Lemma executions_snoc h x : executions (h ++ [x]) = executions h ++ option_list (execution_of x).
Proof. unfold executions. rewrite omap_app. cbn. by destruct (execution_of x). Qed.
Lemma only_holder a l b s g h y id :
  sound (a ++ l :: b) (world_of s g h) -> holds l = true -> y ∈ a ++ b -> clear y = Some id -> False.
Proof.
  intros [_ _ _ _ _ _ S7 S8] Hl Hy Hc. destruct (S7 y) as (H & _); [set_solver|]. apply H in Hc as [Hh _].
  rewrite holders_mid, Hl in S8. assert (1 <= holders a + holders b)%nat as H1.
  { unfold holders in *. rewrite <- length_app, <- List.filter_app. destruct (List.filter holds (a ++ b)) eqn:Ef; [|cbn; lia].
    assert (y ∈ List.filter holds (a ++ b)) as Hf by (apply list_elem_of_In, filter_In; split; [by apply list_elem_of_In|done]).
    rewrite Ef in Hf. by apply elem_of_nil in Hf. }
  destruct (execution_lock _); lia.
Qed.
Definition may_count (l : know) (x : verdict) : Prop :=
  (forall w, fact l w -> accounted (w_log w) x)
  /\ forall id, execution_of x = Some id -> clear l = Some id /\ forall w, fact l w -> is_Some (results (w_store w) !! id).
Lemma upsert_step now s a l b g x :
  may_count l x ->
  let m := upsert_verdict (v_principal x) (v_capability x) (v_good x) now s in
  inv s (a ++ l :: b) g -> inv m.1 (a ++ (match m.2 with Ok _ => recorded l x | Err _ => l end) :: b) g.
Proof.
  intros [Hacc Hex] m. subst m. unfold upsert_verdict. destruct (negb _); [done|].
  destruct (add_verdict _ _ _) as [r|] eqn:Ea; [|done]. cbn [fst snd]. intros [h H]. exists (h ++ [x]).
  pose proof (fun y id => only_holder a l b s g h y id H) as Honly. destruct H as [S1 S2 S3 S4 S5 S6 S7 S8]. cbn in *.
  assert (knows (world_of s g h) l) as (Hc & Hm & Hf) by (apply S7; set_solver).
  assert (h ⊆ h ++ [x]) as Hh by set_solver.
  set (s' := with_rows _ _ _ _ _ _ _). assert (later (world_of s g h) (world_of s' g (h ++ [x]))) as Hl by (split_and!; done).
  constructor; cbn; try done.
  - intros p c. destruct (tally_after _ _ p c _ h x _ r now eq_refl eq_refl eq_refl Ea (S1 _ _)) as [H1 H2].
    destruct (decide ((v_principal x, v_capability x) = (p, c))) as [[= <- <-]|Hne].
    + by rewrite lookup_insert_eq.
    + rewrite lookup_insert_ne by done. rewrite H2 by done. apply S1.
  - intros y [Hy|Hy]%elem_of_app; [by apply S2|]. apply list_elem_of_singleton in Hy as ->. by apply (Hacc (world_of s g h)).
  - rewrite executions_snoc. destruct (execution_of x) as [id|]; cbn; [|by rewrite app_nil_r].
    destruct (Hex id eq_refl) as [Hid _]. apply NoDup_app. split; [done|]. split; [|apply NoDup_singleton].
    intros i Hi [->|[]%elem_of_nil]%elem_of_cons. by destruct (Hc id Hid).
  - intros id Hid. rewrite executions_snoc in Hid. apply elem_of_app in Hid as [Hid|Hid]; [by apply S4|].
    destruct (execution_of x) as [i|]; cbn in Hid; [|by apply elem_of_nil in Hid]. apply list_elem_of_singleton in Hid as ->.
    destruct (Hex i eq_refl) as [_ Hr]. by apply (Hr (world_of s g h)).
  - intros e He. eapply entry_later; [done|by apply S5].
  - intros y Hy. assert (y = recorded l x \/ y ∈ a ++ b) as [->|Hy'] by set_solver.
    + split; [done|]. split; cbn; [|split; [by apply (Hm _ _ Hl)|set_solver]].
      intros w1 w2 Hw [H1 H2]. split; [by eapply Hm|]. by apply Hw.
    + destruct (S7 y) as (H1 & H2 & H3); [set_solver|]. split; [|split; [done|by eapply H2]]. intros id Hid. cbn.
      rewrite executions_snoc. destruct (execution_of x) as [i|] eqn:Ei; cbn; [|by rewrite app_nil_r; apply H1].
      destruct (Hex i eq_refl) as [Hi _]. destruct (Hc i Hi) as [Hhold _]. by destruct (Honly y id).
  - rewrite holders_mid in *. done.
Qed.

(** An entry is added. *)
Lemma portfolio_sound ls s s' g h :
  records s' = records s -> results s' = results s -> execution_lock s' = execution_lock s ->
  (forall e, e ∈ portfolio s' -> entry_accounted h e) -> NoDup (map e_evidence_id (portfolio s')) ->
  sound ls (world_of s g h) -> sound ls (world_of s' g h).
Proof.
  intros Hr Hs Hb Hp Hu [S1 S2 S3 S4 S5 S6 S7 S8]. cbn in *. constructor; cbn; rewrite ?Hr, ?Hs, ?Hb; try done.
  intros l Hl. apply (knows_same (world_of s g h)); [|done|by apply S7]. split_and!; cbn; [by rewrite Hs|done|done].
Qed.
Lemma insert_step p c id at_ s ls g h :
  (exists x, x ∈ h /\ v_good x = true /\ v_principal x = p /\ v_capability x = c /\ evidence_of x = Some id) ->
  sound ls (world_of s g h) -> sound ls (world_of (insert_entry p c id at_ s).1 g h).
Proof.
  intros Hx H. unfold insert_entry. pose proof (so_portfolio _ _ H) as Hp. pose proof (so_unique _ _ H) as Hu. cbn in Hp, Hu.
  destruct (existsb _ _) eqn:Ee; [by apply (portfolio_sound _ s)|].
  destruct (bool_decide _); [|by apply (portfolio_sound _ s)]. apply (portfolio_sound _ s); try done; cbn.
  - intros e [He|He]%elem_of_app; [by apply Hp|]. apply list_elem_of_singleton in He as ->. exact Hx.
  - rewrite map_app. apply NoDup_app. split; [done|]. split; [|apply NoDup_singleton].
    intros i Hi ->%list_elem_of_singleton. apply list_elem_of_fmap in Hi as (e & E1 & He).
    apply not_true_iff_false in Ee. apply Ee, existsb_exists. exists e. split; [by apply list_elem_of_In|].
    cbn in E1. rewrite E1. apply String.eqb_refl.
Qed.

(** *** The lock *)

Definition holding : know := {| holds := true; clear := None; fact _ := True |}.
Definition clearing (l : know) (id : string) : know := {| holds := holds l; clear := Some id; fact := fact l |}.
Definition released (l : know) : know := {| holds := false; clear := None; fact _ := True |}.
(** The thread's own ghost state changes, and perhaps the lock. *)
Lemma ghost_step a l l' b s s' g h :
  records s' = records s -> portfolio s' = portfolio s -> results s' = results s -> knows (world_of s' g h) l' ->
  (holders (a ++ l' :: b) <= if execution_lock s' then 1 else 0)%nat ->
  sound (a ++ l :: b) (world_of s g h) -> sound (a ++ l' :: b) (world_of s' g h).
Proof.
  intros Hr Hp Hs Hl Hh [S1 S2 S3 S4 S5 S6 S7 S8]. cbn in *. constructor; cbn; rewrite ?Hr, ?Hp, ?Hs; try done.
  intros y Hy. assert (y = l' \/ y ∈ a ++ l :: b) as [->|Hy'] by set_solver; [done|].
  apply (knows_same (world_of s g h)); [|done|by apply S7]. split_and!; cbn; [by rewrite Hs|done|done].
Qed.
Lemma acquire_step a b s g :
  inv s (a ++ idle :: b) g -> inv (acquire s).1 (a ++ (match (acquire s).2 with Ok true => holding | _ => idle end) :: b) g.
Proof.
  intros [h H]. exists h. pose proof (so_holders _ _ H) as Hh. rewrite holders_mid in Hh. cbn in Hh |- *.
  destruct (execution_lock s) eqn:Eb; cbn; (apply (ghost_step a idle _ b s _ g h); [done|done|done|by split| |done]); rewrite holders_mid; cbn; lia.
Qed.
Lemma release_step a l b s g : holds l = true -> inv s (a ++ l :: b) g -> inv (release s).1 (a ++ released l :: b) g.
Proof.
  intros Hl [h H]. exists h. pose proof (so_holders _ _ H) as Hh. rewrite holders_mid, Hl in Hh. cbn in Hh.
  apply (ghost_step a l _ b s _ g h); [done|done|done|by split| |done]. rewrite holders_mid. cbn. destruct (execution_lock s); lia.
Qed.
Lemma get_result_step id a l b s g :
  holds l = true -> inv s (a ++ l :: b) g ->
  inv s (a ++ (match results s !! id with None => clearing l id | Some _ => l end) :: b) g.
Proof.
  intros Hl [h H]. exists h. destruct (results s !! id) eqn:Er; [done|]. pose proof (so_holders _ _ H) as Hh.
  assert (knows (world_of s g h) l) as (_ & H2 & H3) by (apply (so_knows _ _ H); set_solver).
  apply (ghost_step a l _ b s _ g h); [done|done|done| | |done]; [|by rewrite holders_mid in *].
  split; [|by split]. intros i [= <-]. split; [done|]. intros Hi%(so_results _ _ H). cbn in Hi. rewrite Er in Hi. by destruct Hi.
Qed.

(** *** Methods *)

Definition grown (l l' : know) : Prop := holds l' = holds l /\ clear l' = clear l /\ forall w, fact l' w -> fact l w.
Lemma grown_trans l1 l2 l3 : grown l1 l2 -> grown l2 l3 -> grown l1 l3.
Proof. intros (H1 & H2 & H3) (H4 & H5 & H6). split_and!; [congruence|congruence|auto]. Qed.
Lemma grown_also l P : grown l (also l P).
Proof. split_and!; [done|done|]. by intros w [H _]. Qed.
Lemma grown_count l l' x : grown l l' -> may_count l x -> may_count l' x.
Proof. intros (_ & H2 & H3) [H4 H5]. split; [auto|]. intros id Hid. rewrite H2. destruct (H5 id Hid). auto. Qed.

Lemma wp_moving {A} (m : tm A) l (next : result trust_error A -> know) (P : know -> result trust_error A -> Prop) :
  (forall s a b g, inv s (a ++ l :: b) g -> inv (m s).1 (a ++ next (m s).2 :: b) g) -> (forall r, P (next r) r) -> wp inv l (atom m) P.
Proof. intros Hm HP. by exists next. Qed.
Lemma wp_upsert x now l (P : know -> result trust_error reputation_record -> Prop) :
  may_count l x -> (forall r, P (recorded l x) (Ok r)) -> (forall e, P l (Err e)) ->
  wp inv l (atom (upsert_verdict (v_principal x) (v_capability x) (v_good x) now)) P.
Proof.
  intros Hx HO HE. apply (wp_moving _ l (fun r => match r with Ok _ => recorded l x | Err _ => l end)).
  - intros s a b g. by apply upsert_step.
  - by intros [r|e].
Qed.
Definition put (l : know) (id : string) : know := also l (fun w => is_Some (results (w_store w) !! id)).
Lemma wp_put id r l (P : know -> result trust_error unit -> Prop) :
  (forall r, P (put l id) r) -> wp inv l (atom (put_result id r)) P.
Proof.
  intros HP. apply (wp_moving _ l (fun _ => put l id)); [|exact HP]. intros s a b g [h H]. exists h.
  apply (quiet_step s _ a l _ b g g h); [apply quiet_put|done|done| |done]. cbn.
  apply also_knows; [|cbn; by rewrite lookup_insert_eq]. intros w1 w2 (Hr & _). apply Hr.
Qed.
Lemma wp_record_verdict x l (P : know -> result trust_error reputation_record -> Prop) :
  may_count l x ->
  (forall l' r, holds l' = holds l -> (forall w, fact l' w -> fact l w /\ x ∈ w_verdicts w) -> P l' (Ok r)) ->
  (forall l' e, holds l' = holds l -> P l' (Err e)) ->
  wp inv l (record_verdict (v_principal x) (v_capability x) (if v_good x then "verified" else "rejected")) P.
Proof.
  intros Hx HO HE. unfold record_verdict. replace (str_in _ _) with true by (by destruct (v_good x)). cbn [negb].
  apply wp_bind, wp_ensure_principal. intros [u|e]; [|by apply HE]. apply wp_bind, wp_asking. intros now.
  replace (String.eqb _ _) with (v_good x) by (by destruct (v_good x)). apply wp_upsert.
  - eapply grown_count; [apply grown_also|done].
  - intros r. apply HO; [done|]. cbn. naive_solver.
  - intros e. by apply HE.
Qed.
Lemma wp_add_entry p c r l (P : know -> result trust_error unit -> Prop) :
  (forall w, fact l w -> val_is (get r "verdict") "verified" = true ->
     exists x, x ∈ w_verdicts w /\ v_good x = true /\ v_principal x = p /\ v_capability x = c
       /\ evidence_of x = Some (text_of (get r "evidence_id"))) ->
  (forall l' r, holds l' = holds l -> P l' r) -> wp inv l (add_portfolio_entry fromisoformat p c r) P.
Proof.
  intros Hx HP. unfold add_portfolio_entry. destruct (val_is _ _) eqn:Ev; cbn [negb]; [|by apply HP].
  unfold repository_add_portfolio_entry. apply wp_bind, wp_ensure_principal. intros [u|e]; [|by apply HP].
  apply wp_bind, wp_asking. intros now. apply (wp_moving _ _ (fun _ => also l (fun w => answered DbNow now ∈ w_log w))).
  - intros s a b g [h H]. exists h. apply insert_step; [|done].
    assert (knows (world_of s g h) (also l (fun w => answered DbNow now ∈ w_log w))) as (_ & _ & [Hf _]) by (apply (so_knows _ _ H); set_solver).
    exact (Hx _ Hf eq_refl).
  - intros r'. by apply HP.
Qed.
Lemma wp_make_result id v why l (P : know -> result trust_error dict -> Prop) :
  (forall l' result_id now, grown l l' -> P l' (Ok (result_row self result_id id v why now))) ->
  wp inv l (_make_result self id v why) P.
Proof.
  intros HP. unfold _make_result. apply wp_bind, wp_asking. intros fresh. apply wp_bind, wp_asking. intros now. apply HP.
  eapply grown_trans; apply grown_also.
Qed.

(** *** What the schemas promise *)

Lemma required_get d keys k p :
  Schema.required d keys = true -> str_in k keys = true -> Schema.prop d k p = true -> p (get d k) = true.
Proof.
  intros Hr Hk Hp. unfold Schema.required in Hr. rewrite forallb_forall in Hr.
  assert (str_in k d.*1 = true) as Hin by (apply Hr, list_elem_of_In; by apply str_in_spec). clear Hr.
  unfold Schema.prop in Hp. unfold get. destruct (dget d k) as [v|] eqn:Ed; [done|]. exfalso. apply str_in_spec in Hin. clear Hp Hk.
  induction d as [|[k' v] d IH]; [by apply elem_of_nil in Hin|]. cbn in Ed. destruct (String.eqb_spec k' k) as [->|Hne]; [done|].
  apply elem_of_cons in Hin as [->|Hin]; [done|]. by apply IH.
Qed.
Lemma nonempty_text_str v : nonempty_text v = true -> v = VStr (text_of v).
Proof. by destruct v. Qed.
Lemma principal_text d : Schema.principal d = true -> get d "principal_id" = VStr (text_of (get d "principal_id")).
Proof. unfold Schema.principal. intros H. conjuncts. apply nonempty_text_str. by eapply required_get. Qed.
Lemma session_text d : Schema.session d = true -> exists s, get d "session_id" = VStr s.
Proof. unfold Schema.session. intros H. conjuncts. eexists. apply nonempty_text_str. by eapply required_get. Qed.
Lemma evidence_text d : Schema.evidence d = true -> get d "capability_id" = VStr (text_of (get d "capability_id")).
Proof. unfold Schema.evidence. intros H. conjuncts. apply nonempty_text_str. by eapply required_get. Qed.
Lemma evidence_attestation d :
  Schema.evidence d = true -> str_in "execution_attestation" d.*1 = true -> Schema.attestation (get d "execution_attestation") = true.
Proof.
  intros H Hin. assert (Schema.required d ["execution_attestation"] = true) as Hr by (unfold Schema.required; cbn [forallb]; by rewrite Hin).
  unfold Schema.evidence in H. conjuncts. by eapply required_get.
Qed.
Lemma attestation_texts d :
  Schema.attestation (VDict d) = true ->
  get d "attestation_id" = VStr (text_of (get d "attestation_id")) /\ get d "agent_principal_id" = VStr (text_of (get d "agent_principal_id"))
  /\ get d "capability_id" = VStr (text_of (get d "capability_id")).
Proof.
  unfold Schema.attestation. intros H. conjuncts.
  match goal with H : forallb _ ["task_id"; _; _; _; _] = true |- _ => rewrite forallb_forall in H; rename H into Ht end.
  assert (Schema.pattern (Schema.anchored (fun s => match after_word "attestation-" s with Some t => is_sha256 t | None => false end))
            (get d "attestation_id") = true) as Hid by (by eapply required_get).
  split_and!; [by destruct (get d "attestation_id")|..]; apply nonempty_text_str;
    (eapply required_get; [eassumption|reflexivity|]; apply Ht, list_elem_of_In; set_solver).
Qed.
Lemma neq_text v s : py_neqb v (VStr s) = false -> v = VStr s.
Proof. unfold py_neqb. rewrite negb_false_iff. destruct v; try done. cbn. by intros ->%String.eqb_eq. Qed.
Lemma neq_text_l v s : py_neqb (VStr s) v = false -> v = VStr s.
Proof. unfold py_neqb. rewrite negb_false_iff. destruct v; try done. cbn. by intros ->%String.eqb_eq. Qed.

(** *** Evidence of a session *)

Lemma wp_give {A} (a : A) l (P : know -> result trust_error A -> Prop) : P l (Ok a) -> wp inv l (give a) P.
Proof. done. Qed.
Definition same_hold {A} (l : know) : know -> result trust_error A -> Prop := fun l' _ => holds l' = holds l.
Definition session_verdict (e s p : dict) : verdict := {|
  v_principal := text_of (get p "principal_id"); v_capability := text_of (get e "capability_id");
  v_good := String.eqb (_decide_verdict e).1 "verified"; v_source := FromSession e s p |}.
Lemma decide_verdict_cases e : (_decide_verdict e).1 = if String.eqb (_decide_verdict e).1 "verified" then "verified" else "rejected".
Proof. unfold _decide_verdict. by repeat case_match. Qed.
(** What a verdict is worth once its result is stored. *)
Lemma wp_conclude (x : verdict) v id why l (k : dict -> reputation_record -> answer) :
  may_count (put l id) x -> v = (if v_good x then "verified" else "rejected") -> evidence_of x = Some id ->
  wp inv l (prog_bind (_make_result self id v why) (fun r => prog_bind (atom (put_result id r)) (fun _ =>
    prog_bind (record_verdict (v_principal x) (v_capability x) v) (fun record =>
    prog_bind (add_portfolio_entry fromisoformat (v_principal x) (v_capability x) r) (fun _ => give (k r record)))))) (same_hold l).
Proof.
  intros Hx -> Hid. apply wp_bind, wp_make_result. intros l1 result_id now H1. apply wp_bind, wp_put.
  assert (grown (put l id) (put l1 id)) as Hg by (destruct H1 as (H2 & H3 & H4); split_and!; [done|done|]; intros w [H5 H6]; split; auto).
  destruct H1 as (H1 & _ & _). intros [u|e]; [|exact H1]. apply wp_bind, wp_record_verdict; [by eapply grown_count|..].
  - intros l2 record H2 Hf. apply wp_bind, wp_add_entry.
    + intros w Hw Hv. exists x. destruct (Hf w Hw) as [_ Hin]. split_and!; try done.
      destruct (v_good x); [done|]. by vm_compute in Hv.
    + intros l3 [u'|e] H3; unfold same_hold; cbn in *; congruence.
  - intros l2 e H2. unfold same_hold. cbn in *. congruence.
Qed.
Lemma wp_judge e s p l :
  may_count (put l (text_of (get e "evidence_id"))) (session_verdict e s p) -> wp inv l (judge fromisoformat self e p) (same_hold l).
Proof.
  intros Hx. unfold judge. pose proof (decide_verdict_cases e) as Hd. destruct (_decide_verdict e) as [v why] eqn:Ed.
  pose proof (wp_conclude (session_verdict e s p) v (text_of (get e "evidence_id")) why l (fun r record => (200, Judged r record)) Hx) as H.
  apply H; [|done]. cbn. rewrite Ed. exact Hd.
Qed.
Lemma wp_session_evidence payload e s p l :
  asked (Evidence payload) -> in_payload (VDict e) (VDict s) (VDict p) payload ->
  wp inv l (process_session_evidence fromisoformat complaint container_text self e s p) (same_hold l).
Proof.
  intros Ha Hp. unfold process_session_evidence. apply wp_bind, wp_quiet; [intros; apply quiet_refl|]. intros [[]|err]; [| |done].
  - apply wp_bind, wp_make_result. intros l1 id now (H1 & _). apply wp_bind, wp_put. by intros [u|err].
  - destruct (Schema.principal p) eqn:Es1; cbn [negb]; [|done]. destruct (Schema.session s) eqn:Es2; cbn [negb]; [|done].
    destruct (py_neqb (get s "principal_id") _) eqn:E1; [done|]. destruct (_parse_rfc3339 _ _) as [t|] eqn:Et; [|done].
    apply wp_bind, wp_asking. intros now. destruct (t <=? now) eqn:En; [done|].
    destruct (verify_session_signature _ s p) as [ok why] eqn:Ev. destruct ok; cbn [negb]; [|done].
    destruct (Schema.evidence e) eqn:Es3; cbn [negb]; [|done]. destruct (py_neqb (get e "session_id") _) eqn:E2; [done|].
    apply (wp_judge e s p (also l (fun w => answered UtcNow now ∈ w_log w))). split; [|by intros id].
    intros w [[_ Hnow] _]. rewrite (principal_text p Es1) in E1. apply neq_text in E1.
    destruct (session_text s Es2) as [k Hk]. rewrite Hk in E2. apply neq_text in E2. cbn. split_and!.
    + by exists payload.
    + by apply principal_text.
    + done.
    + by rewrite Ev.
    + exists t, now. split_and!; [done|done|lia].
    + congruence.
    + by apply evidence_text.
    + apply decide_verdict_cases.
Qed.

(** *** Evidence of the broker *)

Lemma wp_verify_receipt v a l (P : know -> result trust_error check -> Prop) :
  (forall l' c, grown l l' -> (c.1 = "verified" -> forall w, fact l' w -> grounded a (w_log w)) -> P l' (Ok c)) ->
  (forall l' e, holds l' = holds l -> P l' (Err e)) -> wp inv l (verify_receipt v a) P.
Proof.
  intros HO HE. assert (grown l l) as Hl by by split_and!. destruct v; cbn [verify_receipt].
  - unfold google_verify. destruct (val_is _ _) eqn:Ep; cbn [negb]; [|by apply HO]. apply val_is_spec in Ep.
    apply wp_bind, wp_asking. intros [o|[]]; [|apply HO; [apply grown_also|done]..|by apply HE].
    destruct o; try (apply HO; [apply grown_also|done]). apply HO; [apply grown_also|]. intros Hc w [_ Hw]. exists d. left. split_and!; done.
  - unfold slack_verify. destruct (val_is _ _) eqn:Ep; cbn [negb]; [|by apply HO]. apply val_is_spec in Ep.
    apply wp_bind, wp_asking. intros [o|[]]; [|apply HO; [apply grown_also|done]..|by apply HE].
    destruct o; try (apply HO; [apply grown_also|done]). destruct (slack_check _ _ _) as [[v why]|err] eqn:Ec; [|by apply HE].
    apply HO; [apply grown_also|]. cbn. intros -> w [_ Hw]. exists d. right. split_and!; [done|done|]. by exists why.
Qed.
Definition execution_verdict (e a : dict) : verdict := {|
  v_principal := text_of (get a "agent_principal_id"); v_capability := text_of (get a "capability_id");
  v_good := true; v_source := FromExecution e a |}.
Lemma wp_settle_execution e a v why l :
  (v = "verified" -> may_count (put l (text_of (get a "attestation_id"))) (execution_verdict e a)) ->
  wp inv l (settle fromisoformat self a v why) (same_hold l).
Proof.
  intros Hx. unfold settle. destruct (String.eqb_spec v "verified") as [->|].
  - pose proof (wp_conclude (execution_verdict e a) "verified" (text_of (get a "attestation_id")) why l
                  (fun r record => (200, Executed "verified" r (Some record))) (Hx eq_refl) eq_refl eq_refl) as H. exact H.
  - apply wp_bind, wp_make_result. intros l1 id now (H1 & _). apply wp_bind, wp_put. by intros [u|err].
Qed.
Lemma wp_execution_inner payload e s p l :
  asked (Evidence payload) -> in_payload (VDict e) s p payload -> str_in "execution_attestation" e.*1 = true -> holds l = true ->
  wp inv l (_process_execution_evidence fromisoformat complaint self e) (same_hold l).
Proof.
  intros Ha Hp Hin Hl. unfold _process_execution_evidence. destruct (Schema.evidence e) eqn:Es; cbn [negb]; [|done].
  pose proof (evidence_attestation e Es Hin) as Hs. destruct (get e "execution_attestation") as [| | | | |a] eqn:Eat; try done.
  cbn [as_mapping]. destruct (attestation_texts a Hs) as (Hid & Hagent & Hcap).
  destruct (verify_execution_attestation _ _) as [[]|[]] eqn:Ev; [|done..].
  apply wp_bind, wp_quiet; [intros; apply quiet_refl|]. intros [[]|err]; [done| |done].
  destruct (py_neqb (get e "evidence_id") _) eqn:E1; [done|]. destruct (py_neqb (get e "capability_id") _) eqn:E2; [done|].
  destruct (val_is (get a "outcome") _) eqn:E3; cbn [negb orb]; [|done]. apply val_is_spec in E3.
  rewrite Hid in E1. apply neq_text in E1. rewrite E1. cbn [text_of].
  set (id := text_of (get a "attestation_id")) in *.
  apply wp_bind, (wp_moving _ l (fun r => match r with Ok None => clearing l id | _ => l end)).
  { intros st x b g H. pose proof (get_result_step id x l b st g Hl H) as H'. cbn. by destruct (results st !! id). }
  intros [[r|]|err]; [done| |done]. destruct (receipt_verifiers self _) as [v|]; [|done].
  apply wp_bind, wp_verify_receipt; [|done]. intros l' [verdict why] (H1 & H2 & H3) Hg.
  destruct (String.eqb verdict "unverified"); [exact H1|]. destruct (negb _); [exact H1|].
  eapply wp_mono; [apply (wp_settle_execution e)|intros l2 r H; unfold same_hold in *; cbn in *; congruence].
  intros Hv. specialize (Hg Hv). split.
  - intros w [Hw _]. cbn. split_and!; try done; [|by apply Hg]. by exists payload, s, p.
  - intros i [= <-]. split; [exact H2|]. by intros w [_ Hw].
Qed.
Lemma wp_execution payload e s p :
  asked (Evidence payload) -> in_payload (VDict e) s p payload -> str_in "execution_attestation" e.*1 = true ->
  wp inv idle (process_execution_evidence fromisoformat complaint self e) anything.
Proof.
  intros Ha Hp Hin. unfold process_execution_evidence.
  apply wp_bind, (wp_moving _ idle (fun r => match r with Ok true => holding | _ => idle end)); [intros; by apply acquire_step|].
  intros [[]|err]; cbn [negb]; [|done|done]. apply wp_bind, wp_attempting.
  eapply wp_mono; [by apply (wp_execution_inner payload e s p)|]. intros l' r H. cbv beta iota.
  apply wp_bind, (wp_moving _ l' (fun _ => released l')); [intros; by apply release_step|]. intros [u|err]; [|done]. by destruct r.
Qed.
Lemma wp_evidence payload :
  asked (Evidence payload) -> wp inv idle (process_evidence fromisoformat complaint container_text self payload) anything.
Proof.
  intros Ha. unfold process_evidence. destruct payload as [| | | | |d]; try done.
  destruct (get d "evidence") as [| | | | |e] eqn:E1; try done. destruct (str_in _ _) eqn:Ein.
  - apply (wp_execution (VDict d) e (get d "session") (get d "principal")); [done| |done]. by exists d.
  - destruct (get d "session") as [| | | | |s] eqn:E2; try done. destruct (get d "principal") as [| | | | |p] eqn:E3; try done.
    eapply wp_mono; [apply (wp_session_evidence (VDict d)); [done|by exists d]|done].
Qed.

(** *** The registry *)

Lemma wp_apply_report p d : asked (Report p (VDict d)) -> wp inv idle (apply_report p d) anything.
Proof.
  intros Ha. unfold apply_report. destruct (get d "task_id") as [| | |task| |] eqn:E1; try done.
  destruct (get d "verified") as [|verified| | | |] eqn:E2; try (by destruct (negb _)).
  destruct (get d "capability_id") as [| | |capability| |] eqn:E3; try (by destruct (negb _)).
  do 2 (destruct (negb _); [done|]). unfold record_reputation. apply wp_bind, wp_bind.
  apply (wp_record_verdict {| v_principal := p; v_capability := capability; v_good := verified; v_source := FromReport d |}).
  - split; [|done]. by intros w _.
  - intros l' r _ _. apply wp_bind, wp_asking. intros now. apply wp_bind, wp_quiet; [intros; apply quiet_principals|].
    intros [u|err]; [|done]. apply (wp_give r). cbv beta iota. apply wp_bind, wp_asking. by intros [].
  - done.
Qed.
Lemma wp_report p payload : asked (Report p payload) -> wp inv idle (update_user_reputation p payload) anything.
Proof.
  intros Ha. unfold update_user_reputation. destruct (negb _); [done|]. destruct payload as [| | | | |d]; try done.
  assert (forall known : bool, wp inv idle (if negb known then give (404, Error "principal not found") else apply_report p d) anything) as H
    by (intros []; [by apply wp_apply_report|done]).
  unfold user_exists, agent_exists. apply wp_bind, wp_bind, wp_quiet; [intros; apply quiet_refl|]. intros [r|err]; [|done].
  apply wp_give. cbv beta iota. destruct (match r with Some _ => _ | None => _ end); apply wp_bind; [exact (H true)|].
  apply wp_bind, wp_quiet; [intros; apply quiet_refl|]. intros [r'|err]; [|done]. apply wp_give. apply H.
Qed.

(** *** The system *)

Lemma wp_revocation d : wp inv idle (post_revocation d) anything.
Proof.
  unfold post_revocation. destruct (if truthy _ then _ else _) as [| | |v| |]; try done. destruct (truthy v); [|done].
  apply wp_bind, wp_quiet; [|by intros []]. intros s. by split_and!.
Qed.
Lemma wp_thread p : may_start p -> wp inv idle p anything.
Proof.
  intros (c & Hc & ->). destruct c; cbn [exec].
  - apply (wp_forget _ _ _ (fun _ => True)). by apply wp_evidence.
  - apply (wp_forget _ _ _ (fun _ => True)). by apply wp_revocation.
  - apply (wp_forget _ _ _ (fun _ => True)). by apply wp_report.
  - apply wp_quiet; [apply quiet_register|done].
Qed.
Definition start : system trust trust_error question := {| store_of := no_trust; pool := []; log := [] |}.
Lemma trust_start : inv no_trust [] [].
Proof.
  exists []. constructor; cbn; try done; try (by intros ? ?%elem_of_nil); try constructor.
Qed.
Lemma trust_idle s ls g : inv s ls g -> inv s (ls ++ [idle]) g.
Proof.
  intros [h [S1 S2 S3 S4 S5 S6 S7 S8]]. exists h. constructor; try done.
  - intros l [Hl| ->%list_elem_of_singleton]%elem_of_app; [by apply S7|]. by split.
  - replace (holders (ls ++ [idle])) with (holders ls); [done|]. unfold holders. rewrite List.filter_app, length_app. cbn. lia.
Qed.
Lemma trust_dead s a l b g : inv s (a ++ l :: b) g -> inv s (a ++ b) g.
Proof.
  intros [h [S1 S2 S3 S4 S5 S6 S7 S8]]. exists h. constructor; try done.
  - intros y Hy. apply S7. set_solver.
  - rewrite holders_mid in S8. unfold holders in *. rewrite List.filter_app, length_app. destruct (holds l); lia.
Qed.
Lemma reachable_sound c : rtc (system_step may_start) start c -> exists ls, inv (store_of c) ls (log c).
Proof.
  intros Hr. eapply system_sound; [apply wp_thread|apply trust_idle|apply trust_dead|exact Hr|].
  exists []. split; [constructor|apply trust_start].
Qed.

(** C21. Every reputation can be accounted for.  However requests interleave and
    whatever providers answer, there is a list of verdicts such that each
    record counts exactly the list's verdicts for its principal and capability;
    each verdict is an execution that the broker attested, that succeeded and
    that its provider's own reading confirms, or work under a session
    signed with the key that was shown and that had not expired, judged on what
    the evidence says, or a report the registry was sent; no execution counts twice; and the
    portfolio has only good ones, each piece of evidence at most once. *)
Theorem reputation_is_accounted_for c :
  rtc (system_step may_start) start c ->
  exists h : list verdict,
    (forall p capability, counts (records (store_of c) !! (p, capability)) = (tally p capability true h, tally p capability false h))
    /\ (forall x, x ∈ h -> accounted (log c) x)
    /\ NoDup (executions h)
    /\ (forall e, e ∈ portfolio (store_of c) -> entry_accounted h e)
    /\ NoDup (map e_evidence_id (portfolio (store_of c))).
Proof. intros (ls & h & [S1 S2 S3 S4 S5 S6 _ _])%reachable_sound. by exists h. Qed.
End system.
End trust.

(** ** Runs *)

(** The broker's evidence about the execution of Attestation.v, and work handed
    in under a session. *)
Definition toy_service : VerificationService := {|
  verifier_principal_id := "verifier";
  known_brokers := [("broker-1", VStr (public_key_b64 (E := SigningProofs.toy) true))];
  receipt_verifiers p := if String.eqb p "google" then Some GoogleReceiptVerifier else None |}.
Definition toy_a : dict := toy_attestation (E := SigningProofs.toy) true.
Definition toy_evidence : dict :=
  [("evidence_id", get toy_a "attestation_id"); ("capability_id", VStr "gmail.send"); ("execution_attestation", VDict toy_a)].
Definition toy_principal : dict := [("principal_id", VStr "dev"); ("public_key", VStr SigningProofs.toy_principal)].
Definition toy_session : dict :=
  let claims := [("session_id", VStr "s1"); ("principal_id", VStr "dev"); ("expires_at", VStr "2030-01-01T00:00:00Z")] in
  claims ++ [("principal_signature", VStr (b64encode (SigningProofs.toy_sign true (canonical_session_claims claims))))].
Definition toy_work : dict := [
  ("evidence_id", VStr "work-1"); ("session_id", VStr "s1"); ("capability_id", VStr "code.review"); ("schema_valid", VBool true);
  ("tests_passed", VBool true); ("artifact_hashes", VDict [])].
Definition session_payload (evidence : dict) : pyval :=
  VDict [("evidence", VDict evidence); ("session", VDict toy_session); ("principal", VDict toy_principal)].
Definition toy_reading : dict := [
  ("provider", VStr "google"); ("capability_id", VStr "gmail.send"); ("provider_id", VStr "m-1"); ("user_principal_id", VStr "ana");
  ("credential_id", VStr "cred"); ("provider_timestamp", VInt 130); ("material", VDict [("raw", VStr "hello")])].
Definition toy_oracle : oracle (Q := question) := fun B q n =>
  match q in question B return B with
  | UtcNow | DbNow => Z.of_nat n
  | Fresh => pretty n
  | ReadReceipt _ _ _ _ => Ok (VDict toy_reading)
  | Audit _ _ _ _ => tt
  end.
Definition toy_exec (c : call) : tprog unit :=
  exec (E := SigningProofs.toy) (fun _ => Some 1000000) (fun _ _ => "") (fun _ => "") toy_service c.
Definition toy_schedule (cs : list call) : list (move trust trust_error question) :=
  concat (imap (fun i c => Launch (toy_exec c) :: replicate 20 (Turn i)) cs).
Definition toy_run (cs : list call) : system trust trust_error question := fold_left (play toy_oracle) (toy_schedule cs) start.
Definition toy_calls : list call := [Evidence (VDict [("evidence", VDict toy_evidence)]); Evidence (session_payload toy_work)].

Example toy_counts :
  let s := store_of (toy_run toy_calls) in
  counts (records s !! ("bot", "gmail.send")) = (1, 0) /\ counts (records s !! ("dev", "code.review")) = (1, 0)
  /\ map e_evidence_id (portfolio s) = [text_of (get toy_a "attestation_id"); "work-1"].
Proof. vm_compute. split_and!; reflexivity. Qed.
Lemma reputation_is_accounted_for_witness :
  exists h x, tally "bot" "gmail.send" true h = 1 /\ x ∈ h /\ v_principal x = "bot" /\ v_good x = true.
Proof.
  destruct (reputation_is_accounted_for (E := SigningProofs.toy) (fun _ => Some 1000000) (fun _ _ => "") (fun _ => "") toy_service
              (fun c => c ∈ toy_calls) (toy_run toy_calls)) as (h & Hc & _ & _ & Hp & _).
  - apply play_reach. unfold toy_schedule, toy_calls. cbn [imap concat app replicate].
    repeat constructor; (eexists; split; [|reflexivity]); [by left|by right; left].
  - exists h. assert (counts (records (store_of (toy_run toy_calls)) !! ("bot", "gmail.send")) = (1, 0)) as E by (vm_compute; reflexivity).
    rewrite Hc in E. injection E as E _. 
    assert (exists e, e ∈ portfolio (store_of (toy_run toy_calls)) /\ subject_principal_id e = "bot") as (e & He & Hs).
    { eexists. split; [vm_compute; left; reflexivity|reflexivity]. }
    destruct (Hp e He) as (x & Hx & Hg & Hb & _). exists x. split_and!; [exact E|exact Hx|congruence|exact Hg].
Defined.

(** *** What is counted that should not be, and what is not that should *)

(** Work handed in twice counts twice; the portfolio has it once. *)
Example resubmitted_work_counts_again :
  let s := store_of (toy_run [Evidence (session_payload toy_work); Evidence (session_payload toy_work)]) in
  counts (records s !! ("dev", "code.review")) = (2, 0) /\ length (portfolio s) = 1%nat.
Proof. vm_compute. split; reflexivity. Qed.
(** Whoever names a revoked principal, and signs nothing, has a rejection
    stored under any evidence id: before the broker's evidence arrives, which is
    then refused as submitted already, or over the result it was given. *)
Definition unsigned_payload : pyval := VDict [
  ("evidence", VDict [("evidence_id", get toy_a "attestation_id")]); ("session", VDict []); ("principal", VDict [("principal_id", VStr "gone")])].
Definition rejection (s : trust) : option pyval :=
  (fun r => get r "verdict") <$> results s !! text_of (get toy_a "attestation_id").
Example unsigned_rejection_comes_first :
  let s := store_of (toy_run [Revocation [("principal_id", VStr "gone")]; Evidence unsigned_payload; Evidence (VDict [("evidence", VDict toy_evidence)])]) in
  counts (records s !! ("bot", "gmail.send")) = (0, 0) /\ rejection s = Some (VStr "rejected").
Proof. vm_compute. split; reflexivity. Qed.
Example unsigned_rejection_comes_after :
  let s := store_of (toy_run [Revocation [("principal_id", VStr "gone")]; Evidence (VDict [("evidence", VDict toy_evidence)]); Evidence unsigned_payload]) in
  counts (records s !! ("bot", "gmail.send")) = (1, 0) /\ rejection s = Some (VStr "rejected").
Proof. vm_compute. split; reflexivity. Qed.

(** The fields that tell one Slack message from another are kept in what the
    broker signs and asked for by [SlackReceiptVerifier], and no document that
    has them passes the schema: the evidence of such an effect is refused
    before its signature is looked at. *)
Lemma receipt_only d k : Schema.receipt (VDict d) = true -> k ∈ d.*1 -> k ∈ Schema.RECEIPT_PROPERTIES.
Proof.
  unfold Schema.receipt. intros H Hk. conjuncts. unfold Schema.only in H. rewrite forallb_forall in H.
  apply list_elem_of_fmap in Hk as (x & -> & Hx). apply str_in_spec, H. by apply list_elem_of_In.
Qed.
Lemma evidence_receipt e a :
  Schema.evidence e = true -> get e "execution_attestation" = VDict a -> str_in "execution_attestation" e.*1 = true ->
  Schema.receipt (get a "provider_receipt") = true.
Proof.
  intros He Ha Hin. pose proof (evidence_attestation e He Hin) as H. rewrite Ha in H. unfold Schema.attestation in H. conjuncts.
  by eapply required_get.
Qed.
Definition LOCATION : list string := ["team_id"; "channel_id"; "message_ts"; "file_id"; "reaction"].
Lemma location_field k : k ∈ LOCATION -> k ∈ _RECEIPT_FIELDS /\ k ∉ Schema.RECEIPT_PROPERTIES.
Proof.
  intros H. repeat (apply elem_of_cons in H as [->|H]; [split; [apply str_in_spec|apply str_in_false]; reflexivity|]).
  by apply elem_of_nil in H.
Qed.
Lemma located_evidence_is_refused {E : Ed25519} attestor clock x a r k f c self e o s :
  create attestor clock x = Ok a -> x_receipt x = VDict r -> k ∈ r.*1 -> k ∈ LOCATION ->
  get e "execution_attestation" = VDict a -> str_in "execution_attestation" e.*1 = true -> execution_lock s = false ->
  run o (process_execution_evidence f c self e) s = (s, Ok (422, Rejected ("invalid evidence: " +:+ c "evidence" (VDict e)))).
Proof.
  intros (kept & Hr & Ha)%attestation_shape Hx Hk [Hf Hp]%location_field He Hin Hlock. cbv zeta in Ha.
  assert (Schema.evidence e = false) as Hs.
  { destruct (Schema.evidence e) eqn:Es; [|done]. exfalso. pose proof (evidence_receipt e a Es He Hin) as H.
    replace (get a "provider_receipt") with (VDict kept) in H by (by subst a). rewrite Hx in Hr.
    rewrite (filtered_is _ _ Hr) in H. apply Hp. eapply receipt_only; [exact H|]. by apply restrict_has. }
  unfold process_execution_evidence, run, _process_execution_evidence. cbn. rewrite Hlock, Hs. cbn. by destruct s; cbn in *; subst.
Qed.
