(* ===== verification/Consent.v ===== *)
(** * Consent, suppression, address usability and provider reachability

    src/libs/contacts_consent.py over the four ledgers of
    src/migrations/0018_contact_consent.sql: the rows and their check
    constraints, every method of [ContactsConsentRepository], the four
    readings and the eligibility verdict taken from them.  Every write of the
    repository runs in one transaction; ULIDs drawn by [generate_ulid] are
    arguments ([new_id]).  A moment is [now or _utcnow()], in microseconds. *)

From S2P Require Import Prelude PyValue Sha256 Actor Calendar.
Local Open Scope Z_scope.

Definition PURPOSES : list string :=
  ["marketing"; "utility"; "authentication"; "transactional"; "service"].
Definition CHANNELS : list string := ["sms"; "whatsapp"; "voice"; "email"].

(** [PURPOSE_TOPICS.get(purpose)]. *)
Definition PURPOSE_TOPICS (purpose : string) : option string :=
  if String.eqb purpose "marketing" then Some "promotional"
  else if str_in purpose ["utility"; "transactional"; "service"] then Some "operational"
  else if String.eqb purpose "authentication" then Some "security"
  else None.

Definition CONSENT_STATES : list string :=
  ["unknown"; "pending_evidence"; "granted"; "expired"; "withdrawn"].
Definition SUPPRESSION_STATES : list string :=
  ["none"; "suppressed_by_optout"; "suppressed_by_bounce"; "suppressed_by_admin";
   "suppressed_by_provider"].
Definition USABILITY_STATES : list string := ["proposed"; "active"; "retired"].
Definition REACHABILITY_STATES : list string := ["reachable"; "blocked_by_provider"].
Definition REVOCATION_SCOPES : list string := ["program"; "topic"; "cross_topic"].
Definition FORM_CAPTURE_METHODS : list string :=
  ["web_form"; "embedded_form"; "import_form"].
Definition RECORDING_CAPTURE_METHODS : list string :=
  ["voice_recording"; "call_recording"; "verbal_recorded"; "ivr_recording"].
Definition RETENTION_FLOOR_YEARS : Z := 5.
Definition RECORDING_RETENTION_FLOOR_YEARS : Z := 10.
Definition DEFAULT_CONTENT_TTL_SECONDS : Z := 30 * 24 * 60 * 60.
(** [datetime(2027, 1, 31, tzinfo=timezone.utc)]. *)
Definition CROSS_TOPIC_REVOCATION_EFFECTIVE : Z := days_from_civil 2027 1 31 * DAY.

Inductive con_error : Type :=
| TenantScopeRequired
| BadValue (** ValueError *)
| HumanDecisionRequired
| AdministratorRequired
| ConsentEvidenceRequired (missing : list string)
| AddressNotFound
| DateOverflow (** OverflowError *)
| CheckViolation
| UniqueViolation
| AppendOnly.

(** ** Evidence *)

Module Evidence.
Record t := {
  capture_method : option string;
  captured_at : option Z;
  captured_at_local : option string;
  jurisdiction : option string;
  disclosure_text : option string;
  legal_basis : option string;
  source : option string;
  capture_timezone : option string;
  default_unchecked : option bool;
  expires_at : option Z;
}.

Definition disclosure_hash (e : t) : string :=
  sha256 (default "" (disclosure_text e)).

(** A [datetime] is always true; a text is false when absent or empty. *)
Definition present (e : t) : list (string * bool) :=
  [("capture_method", truthy (capture_method e));
   ("captured_at", match captured_at e with Some _ => true | None => false end);
   ("captured_at_local", truthy (captured_at_local e));
   ("jurisdiction", truthy (jurisdiction e));
   ("disclosure_text", truthy (disclosure_text e));
   ("legal_basis", truthy (legal_basis e))].

Definition form_capture (m : option string) : bool :=
  match m with Some m => str_in m FORM_CAPTURE_METHODS | None => false end.

Definition missing_fields (e : t) : list string :=
  map fst (List.filter (fun f => negb (snd f)) (present e)) ++
  if bool_decide (default_unchecked e = Some false) then ["default_unchecked"]
  else if form_capture (capture_method e)
          && negb (bool_decide (default_unchecked e = Some true))
       then ["default_unchecked"] else [].

Definition recording_capture (m : option string) : bool :=
  match m with Some m => str_in m RECORDING_CAPTURE_METHODS | None => false end.

Definition retention_floor (e : t) (moment : Z) : result pyexn Z :=
  _plus_years moment
    (if recording_capture (capture_method e)
     then RECORDING_RETENTION_FLOOR_YEARS else RETENTION_FLOOR_YEARS).
End Evidence.

(** ** Revocation scope *)

Definition resolve_revocation_scope (moment : Z) (configured : option string)
    : result con_error string :=
  match configured with
  | Some c => if str_in c REVOCATION_SCOPES then Ok tt else Err BadValue
  | None => Ok tt
  end ≫= fun _ =>
  if CROSS_TOPIC_REVOCATION_EFFECTIVE <=? moment then Ok "cross_topic"
  else Ok (default "program" (if truthy configured then configured else None)).

Definition purposes_reached_by (purpose scope : string) : list string :=
  if String.eqb scope "cross_topic" then PURPOSES
  else if String.eqb scope "topic" then
    List.filter (fun name => bool_decide (PURPOSE_TOPICS name = PURPOSE_TOPICS purpose))
      PURPOSES
  else [purpose].

Definition _require_purpose (purpose : string) : result con_error unit :=
  guard_or BadValue (str_in purpose PURPOSES).

Definition _require_tenant (tenant_id : string) : result con_error unit :=
  guard_or TenantScopeRequired (truthy tenant_id).

Definition _granting_authority (actor : Actor) : string :=
  if holds actor [AUTHORITY_ADMINISTER] then AUTHORITY_ADMINISTER
  else AUTHORITY_MANAGE_CONTACTS.

(** ** Rows *)

Module ConsentRecord.
Record t := {
  consent_record_id : string;
  tenant_id : string;
  contact_id : string;
  address_id : string;
  channel : string;
  purpose : string;
  state : string;
  transition_kind : string;
  capture_method : option string;
  captured_at : option Z;
  captured_at_local : option string;
  capture_timezone : option string;
  jurisdiction : option string;
  disclosure_text : option string;
  disclosure_hash : option string;
  default_unchecked : option bool;
  legal_basis : option string;
  source : option string;
  actor_kind : string;
  actor_principal_id : option string;
  decided_by_principal_id : option string;
  decided_by_authority : option string;
  expires_at : option Z;
  revocation_scope : string;
  inbound_message_body : option string;
  content_expires_at : option Z;
  content_purged_at : option Z;
  retained_until : Z;
  recorded_at : Z;
}.
Global Instance t_eq_dec : EqDecision t.
Proof. solve_decision. Defined.

Definition is_Some_b {A} (o : option A) : bool :=
  match o with Some _ => true | None => false end.

(** The table's check constraints, in their order. *)
Definition checks (r : t) : bool :=
  str_in (channel r) CHANNELS && str_in (purpose r) PURPOSES
  && str_in (state r) CONSENT_STATES
  && str_in (transition_kind r) ["permissive"; "restrictive"; "proposed"]
  && str_in (actor_kind r) ACTOR_KINDS
  && str_in (revocation_scope r) REVOCATION_SCOPES
  && (String.eqb (state r) "granted" && String.eqb (transition_kind r) "permissive"
      || str_in (state r) ["withdrawn"; "expired"]
         && String.eqb (transition_kind r) "restrictive"
      || str_in (state r) ["unknown"; "pending_evidence"]
         && String.eqb (transition_kind r) "proposed")
  && (negb (String.eqb (transition_kind r) "permissive")
      || is_Some_b (decided_by_principal_id r) && is_Some_b (decided_by_authority r)
         && String.eqb (actor_kind r) "human")
  && (negb (String.eqb (state r) "granted")
      || is_Some_b (capture_method r) && is_Some_b (captured_at r)
         && is_Some_b (captured_at_local r) && is_Some_b (jurisdiction r)
         && is_Some_b (disclosure_text r) && is_Some_b (legal_basis r))
  && (negb (String.eqb (state r) "granted")
      || negb (bool_decide (default_unchecked r = Some false)))
  && (negb (String.eqb (state r) "granted")
      || negb (Evidence.form_capture (capture_method r))
      || bool_decide (default_unchecked r = Some true))
  && match content_expires_at r with
     | None => true | Some c => c <? retained_until r end
  && (negb (is_Some_b (content_purged_at r)) || negb (is_Some_b (inbound_message_body r))).

(** The two columns the purge may change. *)
Definition with_content (r : t) (body : option string) (purged : option Z) : t :=
  {| consent_record_id := consent_record_id r; tenant_id := tenant_id r;
     contact_id := contact_id r; address_id := address_id r; channel := channel r;
     purpose := purpose r; state := state r; transition_kind := transition_kind r;
     capture_method := capture_method r; captured_at := captured_at r;
     captured_at_local := captured_at_local r; capture_timezone := capture_timezone r;
     jurisdiction := jurisdiction r; disclosure_text := disclosure_text r;
     disclosure_hash := disclosure_hash r; default_unchecked := default_unchecked r;
     legal_basis := legal_basis r; source := source r; actor_kind := actor_kind r;
     actor_principal_id := actor_principal_id r;
     decided_by_principal_id := decided_by_principal_id r;
     decided_by_authority := decided_by_authority r; expires_at := expires_at r;
     revocation_scope := revocation_scope r; inbound_message_body := body;
     content_expires_at := content_expires_at r; content_purged_at := purged;
     retained_until := retained_until r; recorded_at := recorded_at r |}.

(** [contacts.reject_consent_record_mutation]: the update trigger lets
    through a change of those two columns that redacts the body and stamps
    the purge.  [content_expires_at] is not among the columns it compares. *)
Definition with_expiry (r : t) (e : option Z) : t :=
  {| consent_record_id := consent_record_id r; tenant_id := tenant_id r;
     contact_id := contact_id r; address_id := address_id r; channel := channel r;
     purpose := purpose r; state := state r; transition_kind := transition_kind r;
     capture_method := capture_method r; captured_at := captured_at r;
     captured_at_local := captured_at_local r; capture_timezone := capture_timezone r;
     jurisdiction := jurisdiction r; disclosure_text := disclosure_text r;
     disclosure_hash := disclosure_hash r; default_unchecked := default_unchecked r;
     legal_basis := legal_basis r; source := source r; actor_kind := actor_kind r;
     actor_principal_id := actor_principal_id r;
     decided_by_principal_id := decided_by_principal_id r;
     decided_by_authority := decided_by_authority r; expires_at := expires_at r;
     revocation_scope := revocation_scope r;
     inbound_message_body := inbound_message_body r;
     content_expires_at := e; content_purged_at := content_purged_at r;
     retained_until := retained_until r; recorded_at := recorded_at r |}.
Definition mutation_allowed (old new : t) : bool :=
  bool_decide (with_expiry (with_content new (inbound_message_body old) (content_purged_at old))
                 (content_expires_at old) = old)
  && negb (is_Some_b (inbound_message_body new)) && is_Some_b (content_purged_at new).
End ConsentRecord.

Module Suppression.
Record t := {
  suppression_id : string;
  tenant_id : string;
  address_id : string;
  channel : string;
  sender_id : option string;
  state : string;
  transition_kind : string;
  reason_code : option string;
  source : string;
  actor_kind : string;
  actor_principal_id : option string;
  decided_by_principal_id : option string;
  decided_by_authority : option string;
  retained_until : Z;
  recorded_at : Z;
}.

Definition checks (r : t) : bool :=
  str_in (channel r) CHANNELS && str_in (state r) SUPPRESSION_STATES
  && str_in (transition_kind r) ["permissive"; "restrictive"]
  && str_in (actor_kind r) ACTOR_KINDS
  && Bool.eqb (String.eqb (state r) "none") (String.eqb (transition_kind r) "permissive")
  && (negb (String.eqb (transition_kind r) "permissive")
      || ConsentRecord.is_Some_b (decided_by_principal_id r)
         && bool_decide (decided_by_authority r = Some AUTHORITY_ADMINISTER)
         && String.eqb (actor_kind r) "human").
End Suppression.

Module Usability.
Record t := {
  usability_decision_id : string;
  tenant_id : string;
  address_id : string;
  state : string;
  transition_kind : string;
  proposed_by_actor_kind : option string;
  proposed_by_principal_id : option string;
  decided_by_principal_id : option string;
  decided_by_authority : option string;
  reason : option string;
  retained_until : Z;
  recorded_at : Z;
}.

Definition checks (r : t) : bool :=
  str_in (state r) USABILITY_STATES
  && str_in (transition_kind r) ["permissive"; "restrictive"; "proposed"]
  && match proposed_by_actor_kind r with None => true | Some k => str_in k ACTOR_KINDS end
  && (String.eqb (state r) "active" && String.eqb (transition_kind r) "permissive"
      || String.eqb (state r) "retired" && String.eqb (transition_kind r) "restrictive"
      || String.eqb (state r) "proposed" && String.eqb (transition_kind r) "proposed")
  && (negb (String.eqb (transition_kind r) "permissive")
      || ConsentRecord.is_Some_b (decided_by_principal_id r)
         && match decided_by_authority r with
            | Some a => str_in a GRANT_AUTHORITIES | None => false end).
End Usability.

Module Reachability.
Record t := {
  reachability_event_id : string;
  tenant_id : string;
  address_id : string;
  channel : string;
  sender_id : option string;
  state : string;
  provider_keyword : option string;
  source : string;
  retained_until : Z;
  recorded_at : Z;
}.

Definition checks (r : t) : bool :=
  str_in (channel r) CHANNELS && str_in (state r) REACHABILITY_STATES
  && str_in (source r) ["provider_webhook"; "provider_api"; "operator"].
End Reachability.

(** ** The store

    A ledger is the list of its rows in insertion order, each with the
    [ledger_sequence] the identity column gave it. *)

Record ledger (R : Type) := { rows : list (Z * R); next_sequence : Z }.
Arguments rows {R} _.
Arguments next_sequence {R} _.
Arguments Build_ledger {R} _ _.

Record address := { contact_id : string; address_tenant : string; address_channel : string }.

Record db := {
  addresses : gmap string address;
  consent_records : ledger ConsentRecord.t;
  address_suppressions : ledger Suppression.t;
  address_usability_decisions : ledger Usability.t;
  provider_reachability_events : ledger Reachability.t;
}.

(** What the repository needs of a ledger table: its key, its time column,
    its constraints and where it lives.  [decision] is the part of a row that
    no permitted update changes. *)
Class LedgerRow (R : Type) := {
  row_id : R -> string;
  recorded_at : R -> Z;
  row_checks : R -> bool;
  decision : R -> R;
  table : db -> ledger R;
  set_table : ledger R -> db -> db;
}.

Global Instance consent_ledger : LedgerRow ConsentRecord.t := {|
  row_id := ConsentRecord.consent_record_id;
  recorded_at := ConsentRecord.recorded_at;
  row_checks := ConsentRecord.checks;
  decision r := ConsentRecord.with_content r None None;
  table := consent_records;
  set_table l s := {| addresses := addresses s; consent_records := l;
    address_suppressions := address_suppressions s;
    address_usability_decisions := address_usability_decisions s;
    provider_reachability_events := provider_reachability_events s |} |}.
Global Instance suppression_ledger : LedgerRow Suppression.t := {|
  row_id := Suppression.suppression_id;
  recorded_at := Suppression.recorded_at;
  row_checks := Suppression.checks;
  decision r := r;
  table := address_suppressions;
  set_table l s := {| addresses := addresses s; consent_records := consent_records s;
    address_suppressions := l;
    address_usability_decisions := address_usability_decisions s;
    provider_reachability_events := provider_reachability_events s |} |}.
Global Instance usability_ledger : LedgerRow Usability.t := {|
  row_id := Usability.usability_decision_id;
  recorded_at := Usability.recorded_at;
  row_checks := Usability.checks;
  decision r := r;
  table := address_usability_decisions;
  set_table l s := {| addresses := addresses s; consent_records := consent_records s;
    address_suppressions := address_suppressions s;
    address_usability_decisions := l;
    provider_reachability_events := provider_reachability_events s |} |}.
Global Instance reachability_ledger : LedgerRow Reachability.t := {|
  row_id := Reachability.reachability_event_id;
  recorded_at := Reachability.recorded_at;
  row_checks := Reachability.checks;
  decision r := r;
  table := provider_reachability_events;
  set_table l s := {| addresses := addresses s; consent_records := consent_records s;
    address_suppressions := address_suppressions s;
    address_usability_decisions := address_usability_decisions s;
    provider_reachability_events := l |} |}.

Definition append {R} (l : ledger R) (r : R) : ledger R :=
  {| rows := rows l ++ [(next_sequence l, r)]; next_sequence := next_sequence l + 1 |}.

Section statements.
Context {R : Type} `{LedgerRow R}.

(** [insert ... returning]: the constraints, then the primary key. *)
Definition insert_row (r : R) : stm db con_error R := fun s =>
  if negb (row_checks r) then (s, Err CheckViolation)
  else if existsb (fun x => String.eqb (row_id (snd x)) (row_id r)) (rows (table s))
  then (s, Err UniqueViolation)
  else (set_table (append (table s) r) s, Ok r).

(** [sorted(rows, key=(time_column, sequence_column))[-1]]. *)
Definition key_le (a b : Z * R) : Prop :=
  recorded_at (snd a) < recorded_at (snd b)
  \/ recorded_at (snd a) = recorded_at (snd b) /\ fst a <= fst b.
Global Instance key_le_dec a b : Decision (key_le a b).
Proof. unfold key_le. apply _. Defined.
Definition _latest (l : list (Z * R)) : option R :=
  option_map snd (last (merge_sort key_le l)).
End statements.

Definition lift {S E A} (r : result E A) : stm S E A := fun s => (s, r).
(** A [ValueError] of the calendar is a [ValueError] here. *)
Definition calendar {S} (r : result pyexn Z) : stm S con_error Z :=
  lift (match r with Ok t => Ok t | Err _ => Err BadValue end).

(** [moment + timedelta(seconds=n)]. *)
Definition plus_seconds (moment n : Z) : result con_error Z :=
  let t := moment + n * 1000000 in
  if in_range t then Ok t else Err DateOverflow.

Definition _address (tenant_id address_id : string) : stm db con_error address := fun s =>
  match addresses s !! address_id with
  | Some a => if String.eqb (address_tenant a) tenant_id then (s, Ok a)
              else (s, Err AddressNotFound)
  | None => (s, Err AddressNotFound)
  end.

(** The arguments of [_insert_consent] that are not on every call. *)
Definition _insert_consent (new_id tenant_id address_id : string) (address : address)
    (purpose state transition_kind : string) (actor : Actor)
    (decided_by_principal_id decided_by_authority : option string)
    (evidence : option Evidence.t) (expires_at : option Z)
    (revocation_scope : string) (retained_until recorded_at : Z)
    (source reason inbound_message_body : option string) (content_expires_at : option Z)
    : stm db con_error ConsentRecord.t :=
  insert_row {|
    ConsentRecord.consent_record_id := "consent:" +:+ new_id;
    ConsentRecord.tenant_id := tenant_id;
    ConsentRecord.contact_id := contact_id address;
    ConsentRecord.address_id := address_id;
    ConsentRecord.channel := address_channel address;
    ConsentRecord.purpose := purpose;
    ConsentRecord.state := state;
    ConsentRecord.transition_kind := transition_kind;
    ConsentRecord.capture_method := evidence ≫= Evidence.capture_method;
    ConsentRecord.captured_at := evidence ≫= Evidence.captured_at;
    ConsentRecord.captured_at_local := evidence ≫= Evidence.captured_at_local;
    ConsentRecord.capture_timezone := evidence ≫= Evidence.capture_timezone;
    ConsentRecord.jurisdiction := evidence ≫= Evidence.jurisdiction;
    ConsentRecord.disclosure_text := evidence ≫= Evidence.disclosure_text;
    ConsentRecord.disclosure_hash := Evidence.disclosure_hash <$> evidence;
    ConsentRecord.default_unchecked := evidence ≫= Evidence.default_unchecked;
    ConsentRecord.legal_basis := evidence ≫= Evidence.legal_basis;
    ConsentRecord.source :=
      or_else (or_else (evidence ≫= Evidence.source) source) reason;
    ConsentRecord.actor_kind := kind actor;
    ConsentRecord.actor_principal_id := principal_id actor;
    ConsentRecord.decided_by_principal_id := decided_by_principal_id;
    ConsentRecord.decided_by_authority := decided_by_authority;
    ConsentRecord.expires_at := expires_at;
    ConsentRecord.revocation_scope := revocation_scope;
    ConsentRecord.inbound_message_body := inbound_message_body;
    ConsentRecord.content_expires_at := content_expires_at;
    ConsentRecord.content_purged_at := None;
    ConsentRecord.retained_until := retained_until;
    ConsentRecord.recorded_at := recorded_at |}.

Definition _insert_suppression (new_id tenant_id address_id : string) (address : address)
    (state transition_kind : string) (reason_code : option string) (source : string)
    (actor : Actor) (sender_id : option string) (retained_until recorded_at : Z)
    (decided_by_principal_id decided_by_authority : option string)
    : stm db con_error Suppression.t :=
  insert_row {|
    Suppression.suppression_id := "suppression:" +:+ new_id;
    Suppression.tenant_id := tenant_id;
    Suppression.address_id := address_id;
    Suppression.channel := address_channel address;
    Suppression.sender_id := sender_id;
    Suppression.state := state;
    Suppression.transition_kind := transition_kind;
    Suppression.reason_code := reason_code;
    Suppression.source := source;
    Suppression.actor_kind := kind actor;
    Suppression.actor_principal_id := principal_id actor;
    Suppression.decided_by_principal_id := decided_by_principal_id;
    Suppression.decided_by_authority := decided_by_authority;
    Suppression.retained_until := retained_until;
    Suppression.recorded_at := recorded_at |}.

Definition _insert_usability (new_id tenant_id address_id state transition_kind : string)
    (proposed_by_actor_kind proposed_by_principal_id
     decided_by_principal_id decided_by_authority reason : option string)
    (retained_until recorded_at : Z) : stm db con_error Usability.t :=
  insert_row {|
    Usability.usability_decision_id := "usability:" +:+ new_id;
    Usability.tenant_id := tenant_id;
    Usability.address_id := address_id;
    Usability.state := state;
    Usability.transition_kind := transition_kind;
    Usability.proposed_by_actor_kind := proposed_by_actor_kind;
    Usability.proposed_by_principal_id := proposed_by_principal_id;
    Usability.decided_by_principal_id := decided_by_principal_id;
    Usability.decided_by_authority := decided_by_authority;
    Usability.reason := reason;
    Usability.retained_until := retained_until;
    Usability.recorded_at := recorded_at |}.

Definition _insert_reachability (new_id tenant_id address_id : string) (address : address)
    (state : string) (keyword sender_id : option string) (source : string)
    (retained_until recorded_at : Z) : stm db con_error Reachability.t :=
  insert_row {|
    Reachability.reachability_event_id := "reachability:" +:+ new_id;
    Reachability.tenant_id := tenant_id;
    Reachability.address_id := address_id;
    Reachability.channel := address_channel address;
    Reachability.sender_id := sender_id;
    Reachability.state := state;
    Reachability.provider_keyword := keyword;
    Reachability.source := source;
    Reachability.retained_until := retained_until;
    Reachability.recorded_at := recorded_at |}.

(** ** The repository's methods

    [configured] is the repository's [self.revocation_scope]. *)

Section repository.
Context (configured : option string).
Local Open Scope stm_scope.

Definition grant_consent (tenant_id address_id purpose : string) (evidence : Evidence.t)
    (actor : Actor) (revocation_scope : option string) (moment : Z) (new_id : string)
    : stm db con_error ConsentRecord.t :=
  lift (_require_tenant tenant_id) ;;;
  lift (_require_purpose purpose) ;;;
  lift (guard_or HumanDecisionRequired (is_human actor && holds actor GRANT_AUTHORITIES)) ;;;
  lift (guard_or (ConsentEvidenceRequired (Evidence.missing_fields evidence))
          (negb (truthy (Evidence.missing_fields evidence)))) ;;;
  transaction (
    address <~ _address tenant_id address_id ;;
    scope <~ lift (resolve_revocation_scope moment (or_else revocation_scope configured)) ;;
    retained_until <~ calendar (Evidence.retention_floor evidence moment) ;;
    _insert_consent new_id tenant_id address_id address purpose "granted" "permissive" actor
      (principal_id actor) (Some (_granting_authority actor)) (Some evidence)
      (Evidence.expires_at evidence) scope retained_until moment None None None None).

Definition propose_consent (tenant_id address_id purpose : string) (actor : Actor)
    (source : option string) (moment : Z) (new_id : string)
    : stm db con_error ConsentRecord.t :=
  lift (_require_tenant tenant_id) ;;;
  lift (_require_purpose purpose) ;;;
  transaction (
    address <~ _address tenant_id address_id ;;
    scope <~ lift (resolve_revocation_scope moment configured) ;;
    retained_until <~ calendar (_plus_years moment RETENTION_FLOOR_YEARS) ;;
    _insert_consent new_id tenant_id address_id address purpose "pending_evidence" "proposed"
      actor None None None None scope retained_until moment
      (or_else source (Some "agent_proposal")) None None None).

(** One withdrawal per purpose, in order. *)
Fixpoint insert_withdrawals (withdraw : string -> stm db con_error ConsentRecord.t)
    (purposes : list string) : stm db con_error (list ConsentRecord.t) :=
  match purposes with
  | [] => stm_ret []
  | reached :: rest =>
      row <~ withdraw reached ;;
      written <~ insert_withdrawals withdraw rest ;;
      stm_ret (row :: written)
  end.

(** [new_id reached] is the ULID drawn for that purpose's row. *)
Definition record_opt_out (tenant_id address_id purpose : string) (actor : option Actor)
    (source reason revocation_scope : option string) (moment : Z)
    (new_id : string -> string) : stm db con_error (list ConsentRecord.t) :=
  lift (_require_tenant tenant_id) ;;;
  lift (_require_purpose purpose) ;;;
  scope <~ lift (resolve_revocation_scope moment (or_else revocation_scope configured)) ;;
  transaction (
    address <~ _address tenant_id address_id ;;
    insert_withdrawals (fun reached =>
      retained_until <~ calendar (_plus_years moment RETENTION_FLOOR_YEARS) ;;
      _insert_consent (new_id reached) tenant_id address_id address reached
        "withdrawn" "restrictive" (default contact_actor actor) None None None None
        scope retained_until moment (or_else source (Some "preference_centre")) reason
        None None) (purposes_reached_by purpose scope)).

Definition record_inbound_opt_out (tenant_id address_id keyword : string)
    (sender_id message_body : option string) (source : string) (actor : option Actor)
    (content_ttl_seconds moment : Z) (new_id : string -> string)
    (suppression_new_id reachability_new_id : string)
    : stm db con_error (list ConsentRecord.t * Suppression.t) :=
  lift (_require_tenant tenant_id) ;;;
  retained_until <~ calendar (_plus_years moment RETENTION_FLOOR_YEARS) ;;
  content_expires_at <~ lift (plus_seconds moment content_ttl_seconds) ;;
  transaction (
    address <~ _address tenant_id address_id ;;
    withdrawals <~ insert_withdrawals (fun purpose =>
      _insert_consent (new_id purpose) tenant_id address_id address purpose
        "withdrawn" "restrictive" (default contact_actor actor) None None None None
        "cross_topic" retained_until moment (Some source) (Some keyword) message_body
        (if truthy message_body then Some content_expires_at else None)) PURPOSES ;;
    suppression <~ _insert_suppression suppression_new_id tenant_id address_id address
      "suppressed_by_optout" "restrictive" (Some keyword) source
      (default contact_actor actor) sender_id retained_until moment None None ;;
    _insert_reachability reachability_new_id tenant_id address_id address
      "blocked_by_provider" (Some keyword) sender_id source retained_until moment ;;;
    stm_ret (withdrawals, suppression)).

Definition suppress (tenant_id address_id state : string) (reason_code : option string)
    (source : string) (actor : option Actor) (sender_id : option string) (moment : Z)
    (new_id : string) : stm db con_error Suppression.t :=
  lift (_require_tenant tenant_id) ;;;
  lift (guard_or BadValue (str_in state SUPPRESSION_STATES && negb (String.eqb state "none"))) ;;;
  transaction (
    address <~ _address tenant_id address_id ;;
    retained_until <~ calendar (_plus_years moment RETENTION_FLOOR_YEARS) ;;
    _insert_suppression new_id tenant_id address_id address state "restrictive" reason_code
      source (default system_actor actor) sender_id retained_until moment None None).

Definition lift_suppression (tenant_id address_id : string) (actor : Actor)
    (reason_code sender_id : option string) (source : string) (moment : Z) (new_id : string)
    : stm db con_error Suppression.t :=
  lift (_require_tenant tenant_id) ;;;
  lift (guard_or AdministratorRequired (is_human actor && holds actor [AUTHORITY_ADMINISTER])) ;;;
  transaction (
    address <~ _address tenant_id address_id ;;
    retained_until <~ calendar (_plus_years moment RETENTION_FLOOR_YEARS) ;;
    _insert_suppression new_id tenant_id address_id address "none" "permissive" reason_code
      source actor sender_id retained_until moment (principal_id actor)
      (Some AUTHORITY_ADMINISTER)).

Definition propose_address (tenant_id address_id : string) (actor : Actor)
    (reason : option string) (moment : Z) (new_id : string) : stm db con_error Usability.t :=
  lift (_require_tenant tenant_id) ;;;
  transaction (
    _address tenant_id address_id ;;;
    retained_until <~ calendar (_plus_years moment RETENTION_FLOOR_YEARS) ;;
    _insert_usability new_id tenant_id address_id "proposed" "proposed" (Some (kind actor))
      (principal_id actor) None None reason retained_until moment).

Definition activate_address (tenant_id address_id : string) (actor : Actor)
    (reason : option string) (moment : Z) (new_id : string) : stm db con_error Usability.t :=
  lift (_require_tenant tenant_id) ;;;
  lift (guard_or HumanDecisionRequired (is_human actor && holds actor GRANT_AUTHORITIES)) ;;;
  transaction (
    _address tenant_id address_id ;;;
    retained_until <~ calendar (_plus_years moment RETENTION_FLOOR_YEARS) ;;
    _insert_usability new_id tenant_id address_id "active" "permissive" None None
      (principal_id actor) (Some (_granting_authority actor)) reason retained_until moment).

Definition retire_address (tenant_id address_id : string) (actor : option Actor)
    (reason : option string) (moment : Z) (new_id : string) : stm db con_error Usability.t :=
  lift (_require_tenant tenant_id) ;;;
  transaction (
    _address tenant_id address_id ;;;
    retained_until <~ calendar (_plus_years moment RETENTION_FLOOR_YEARS) ;;
    _insert_usability new_id tenant_id address_id "retired" "restrictive" None None
      (actor ≫= principal_id) None reason retained_until moment).

Definition record_provider_restart (tenant_id address_id keyword : string)
    (sender_id : option string) (source : string) (moment : Z) (new_id : string)
    : stm db con_error Reachability.t :=
  lift (_require_tenant tenant_id) ;;;
  transaction (
    address <~ _address tenant_id address_id ;;
    retained_until <~ calendar (_plus_years moment RETENTION_FLOOR_YEARS) ;;
    _insert_reachability new_id tenant_id address_id address "reachable" (Some keyword)
      sender_id source retained_until moment).

(** The purge: [update ... where tenant_id and consent_record_id], through
    the trigger and the constraints. *)
Definition redact (moment : Z) (r : ConsentRecord.t) : ConsentRecord.t :=
  ConsentRecord.with_content r None (Some moment).
Definition matches_id (tenant_id id : string) (r : ConsentRecord.t) : bool :=
  String.eqb (ConsentRecord.tenant_id r) tenant_id
  && String.eqb (ConsentRecord.consent_record_id r) id.
Definition update_content (tenant_id id : string) (moment : Z) : stm db con_error unit :=
  fun s =>
    let old := rows (consent_records s) in
    if forallb (fun x => negb (matches_id tenant_id id (snd x))
                         || ConsentRecord.mutation_allowed (snd x) (redact moment (snd x))
                            && ConsentRecord.checks (redact moment (snd x))) old
    then (set_table {|
            rows := map (fun x => if matches_id tenant_id id (snd x)
                                  then (fst x, redact moment (snd x)) else x) old;
            next_sequence := next_sequence (consent_records s) |} s, Ok tt)
    else (s, Err AppendOnly).

Definition content_due (tenant_id : string) (moment : Z) (r : ConsentRecord.t) : bool :=
  String.eqb (ConsentRecord.tenant_id r) tenant_id
  && negb (ConsentRecord.is_Some_b (ConsentRecord.content_purged_at r))
  && ConsentRecord.is_Some_b (ConsentRecord.inbound_message_body r)
  && match ConsentRecord.content_expires_at r with
     | Some e => e <=? moment | None => false end.

Definition purge_expired_content (tenant_id : string) (moment : Z)
    : stm db con_error (list string) :=
  lift (_require_tenant tenant_id) ;;;
  transaction (
    s <~ stm_get ;;
    let due := map ConsentRecord.consent_record_id
                 (List.filter (content_due tenant_id moment)
                    (map snd (rows (consent_records s)))) in
    stm_iter (fun id => update_content tenant_id id moment) due ;;;
    stm_ret due).
End repository.

(** ** The readings *)

Record reading (R : Type) := { state : string; row : option R }.
Arguments state {R} _.
Arguments row {R} _.

(** [recorded_state] is the row's own state; [state] applies the expiry. *)
Definition consent_rows (s : db) (tenant_id address_id channel purpose : string) :=
  List.filter (fun x => String.eqb (ConsentRecord.tenant_id (snd x)) tenant_id
                        && String.eqb (ConsentRecord.address_id (snd x)) address_id
                        && String.eqb (ConsentRecord.channel (snd x)) channel
                        && String.eqb (ConsentRecord.purpose (snd x)) purpose)
    (rows (consent_records s)).
Definition consent_state (s : db) (tenant_id address_id channel purpose : string) (moment : Z)
    : result con_error (reading ConsentRecord.t) :=
  _require_tenant tenant_id ;; _require_purpose purpose ;;
  match _latest (consent_rows s tenant_id address_id channel purpose) with
  | None => Ok {| state := "unknown"; row := None |}
  | Some r =>
      let expired := String.eqb (ConsentRecord.state r) "granted"
                     && match ConsentRecord.expires_at r with
                        | Some e => e <=? moment | None => false end in
      Ok {| state := if expired then "expired" else ConsentRecord.state r; row := Some r |}
  end.

Definition consent_by_purpose (s : db) (tenant_id address_id channel : string) (moment : Z)
    : result con_error (list (string * reading ConsentRecord.t)) :=
  mapM_result (fun purpose =>
    r ← consent_state s tenant_id address_id channel purpose moment;
    Ok (purpose, r)) PURPOSES.

(** Rows without a sender are account-wide; the others count for their own
    sender only. *)
Definition sender_in_scope (row_sender sender_id : option string) : bool :=
  match row_sender with None => true | Some _ => bool_decide (row_sender = sender_id) end.

Definition suppression_rows (s : db) (tenant_id address_id channel : string)
    (sender_id : option string) :=
  List.filter (fun x => String.eqb (Suppression.tenant_id (snd x)) tenant_id
                        && String.eqb (Suppression.address_id (snd x)) address_id
                        && String.eqb (Suppression.channel (snd x)) channel
                        && sender_in_scope (Suppression.sender_id (snd x)) sender_id)
    (rows (address_suppressions s)).
Definition suppression_state (s : db) (tenant_id address_id channel : string)
    (sender_id : option string) : result con_error (reading Suppression.t) :=
  _require_tenant tenant_id ;;
  match _latest (suppression_rows s tenant_id address_id channel sender_id) with
  | None => Ok {| state := "none"; row := None |}
  | Some r => Ok {| state := Suppression.state r; row := Some r |}
  end.

Definition usability_rows (s : db) (tenant_id address_id : string) :=
  List.filter (fun x => String.eqb (Usability.tenant_id (snd x)) tenant_id
                        && String.eqb (Usability.address_id (snd x)) address_id)
    (rows (address_usability_decisions s)).
Definition usability_state (s : db) (tenant_id address_id : string)
    : result con_error (reading Usability.t) :=
  _require_tenant tenant_id ;;
  match _latest (usability_rows s tenant_id address_id) with
  | None => Ok {| state := "proposed"; row := None |}
  | Some r => Ok {| state := Usability.state r; row := Some r |}
  end.

Definition reachability_rows (s : db) (tenant_id address_id channel : string)
    (sender_id : option string) :=
  List.filter (fun x => String.eqb (Reachability.tenant_id (snd x)) tenant_id
                        && String.eqb (Reachability.address_id (snd x)) address_id
                        && String.eqb (Reachability.channel (snd x)) channel
                        && sender_in_scope (Reachability.sender_id (snd x)) sender_id)
    (rows (provider_reachability_events s)).
Definition provider_reachability (s : db) (tenant_id address_id channel : string)
    (sender_id : option string) : result con_error (reading Reachability.t) :=
  _require_tenant tenant_id ;;
  match _latest (reachability_rows s tenant_id address_id channel sender_id) with
  | None => Ok {| state := "reachable"; row := None |}
  | Some r => Ok {| state := Reachability.state r; row := Some r |}
  end.

Record axes_readings := {
  consent : reading ConsentRecord.t;
  suppression : reading Suppression.t;
  usability : reading Usability.t;
  reachability : reading Reachability.t;
}.

(** Each reading opens a connection of its own, in this order, so other
    callers may commit between two of them: a reading has the state it found. *)
Record views := {
  at_consent : db;
  at_suppression : db;
  at_usability : db;
  at_reachability : db;
}.
(** No commit in between. *)
Definition view_of (s : db) : views :=
  {| at_consent := s; at_suppression := s; at_usability := s; at_reachability := s |}.

Definition axes (v : views) (tenant_id address_id channel purpose : string)
    (sender_id : option string) (moment : Z) : result con_error axes_readings :=
  c ← consent_state (at_consent v) tenant_id address_id channel purpose moment;
  u ← suppression_state (at_suppression v) tenant_id address_id channel sender_id;
  a ← usability_state (at_usability v) tenant_id address_id;
  p ← provider_reachability (at_reachability v) tenant_id address_id channel sender_id;
  Ok {| consent := c; suppression := u; usability := a; reachability := p |}.

Record EligibilityDecision := { eligible : bool; reason : string; readings : axes_readings }.

Definition verdict (a : axes_readings) : bool * string :=
  if negb (String.eqb (state (usability a)) "active") then
    (false, if String.eqb (state (usability a)) "retired" then "address_retired"
            else "address_not_usable")
  else if negb (String.eqb (state (suppression a)) "none") then
    (false, state (suppression a))
  else if negb (String.eqb (state (reachability a)) "reachable") then
    (false, "provider_unreachable")
  else if negb (String.eqb (state (consent a)) "granted") then
    (false, if String.eqb (state (consent a)) "expired" then "consent_expired"
            else if String.eqb (state (consent a)) "withdrawn" then "consent_withdrawn"
            else "consent_missing")
  else (true, "eligible").

Definition evaluate_eligibility (v : views) (tenant_id address_id channel purpose : string)
    (sender_id : option string) (moment : Z) : result con_error EligibilityDecision :=
  a ← axes v tenant_id address_id channel purpose sender_id moment;
  Ok {| eligible := (verdict a).1; reason := (verdict a).2; readings := a |}.

(** ** Histories

    A call of one of the methods, with its arguments; [run] is its effect on
    the store, whatever its outcome. *)

Inductive call : Type :=
| Grant (tenant_id address_id purpose : string) (evidence : Evidence.t) (actor : Actor)
    (scope : option string) (moment : Z) (new_id : string)
| Propose (tenant_id address_id purpose : string) (actor : Actor) (source : option string)
    (moment : Z) (new_id : string)
| OptOut (tenant_id address_id purpose : string) (actor : option Actor)
    (source why scope : option string) (moment : Z) (new_id : string -> string)
| Stop (tenant_id address_id keyword : string) (sender_id body : option string)
    (source : string) (actor : option Actor) (ttl moment : Z) (new_id : string -> string)
    (suppression_new_id reachability_new_id : string)
| Suppress (tenant_id address_id to : string) (why : option string) (source : string)
    (actor : option Actor) (sender_id : option string) (moment : Z) (new_id : string)
| Lift (tenant_id address_id : string) (actor : Actor) (why sender_id : option string)
    (source : string) (moment : Z) (new_id : string)
| ProposeAddress (tenant_id address_id : string) (actor : Actor) (why : option string)
    (moment : Z) (new_id : string)
| Activate (tenant_id address_id : string) (actor : Actor) (why : option string)
    (moment : Z) (new_id : string)
| Retire (tenant_id address_id : string) (actor : option Actor) (why : option string)
    (moment : Z) (new_id : string)
| RestartKeyword (tenant_id address_id keyword : string) (sender_id : option string)
    (source : string) (moment : Z) (new_id : string)
| Purge (tenant_id : string) (moment : Z).

Definition run (configured : option string) (c : call) (s : db) : db :=
  match c with
  | Grant t a p e ac sc m i => (grant_consent configured t a p e ac sc m i s).1
  | Propose t a p ac so m i => (propose_consent configured t a p ac so m i s).1
  | OptOut t a p ac so w sc m i => (record_opt_out configured t a p ac so w sc m i s).1
  | Stop t a k se b so ac ttl m i si ri =>
      (record_inbound_opt_out t a k se b so ac ttl m i si ri s).1
  | Suppress t a st w so ac se m i => (suppress t a st w so ac se m i s).1
  | Lift t a ac w se so m i => (lift_suppression t a ac w se so m i s).1
  | ProposeAddress t a ac w m i => (propose_address t a ac w m i s).1
  | Activate t a ac w m i => (activate_address t a ac w m i s).1
  | Retire t a ac w m i => (retire_address t a ac w m i s).1
  | RestartKeyword t a k se so m i => (record_provider_restart t a k se so m i s).1
  | Purge t m => (purge_expired_content t m s).1
  end.

Definition run_all (configured : option string) (cs : list call) (s : db) : db :=
  fold_left (fun s c => run configured c s) cs s.

Definition empty_ledger {R} : ledger R := {| rows := []; next_sequence := 1 |}.
(** The directory as the import left it, before any decision. *)
Definition undecided (addresses : gmap string address) : db :=
  {| addresses := addresses; consent_records := empty_ledger;
     address_suppressions := empty_ledger; address_usability_decisions := empty_ledger;
     provider_reachability_events := empty_ledger |}.
