(* ===== verification/ConsentProofs.v ===== *)
(** * What the consent ledgers guarantee

    Theorems about Consent.v: what a newest row is, how every method grows
    the ledgers, who must have acted before an address is eligible, what an
    inbound STOP, a provider restart, a scoped opt-out and the content purge
    change. *)

From S2P Require Import Prelude PyValue Sha256 Actor Calendar Consent.
Local Open Scope Z_scope.

(** ** The newest row *)

(** A permitted update keeps a row's key, so it keeps its place in time. *)
Class LedgerLaws (R : Type) `{LedgerRow R} := {
  decision_id : forall r, row_id (decision r) = row_id r;
  decision_time : forall r, recorded_at (decision r) = recorded_at r;
  table_set : forall l s, table (set_table l s) = l;
  decision_idem : forall r, decision (decision r) = decision r;
}.
Global Instance consent_laws : LedgerLaws ConsentRecord.t.
Proof. by split. Qed.
Global Instance suppression_laws : LedgerLaws Suppression.t.
Proof. by split. Qed.
Global Instance usability_laws : LedgerLaws Usability.t.
Proof. by split. Qed.
Global Instance reachability_laws : LedgerLaws Reachability.t.
Proof. by split. Qed.

Lemma last_sorted {A} (R : A -> A -> Prop) l x :
  StronglySorted R l -> last l = Some x ->
  x ∈ l /\ forall y, y ∈ l -> R y x \/ y = x.
Proof.
  intros Hs. revert x. induction Hs as [|a l Hs IH Ha]; [done|].
  intros x. destruct l as [|b l].
  - intros [= <-]. split; [by left|]. intros y ->%list_elem_of_singleton. by right.
  - change (last (a :: b :: l)) with (last (b :: l)). intros Hx.
    destruct (IH _ Hx) as [Hin Hmax]. split; [by right|].
    intros y [->|Hy]%elem_of_cons; [|by apply Hmax].
    left. by apply (proj1 (Forall_forall _ _) Ha).
Qed.

Lemma NoDup_fst_inj {A B} (l : list (A * B)) i (x y : B) :
  NoDup l.*1 -> (i, x) ∈ l -> (i, y) ∈ l -> x = y.
Proof.
  intros Hnd Hx Hy. apply list_elem_of_lookup_1 in Hx as [n Hn], Hy as [k Hk].
  assert (n = k) as ->; [|naive_solver].
  eapply (NoDup_lookup l.*1); [done|..]; rewrite list_lookup_fmap.
  - by rewrite Hn.
  - by rewrite Hk.
Qed.

Section ledgers.
Context {R : Type} `{LedgerLaws R}.

Global Instance key_le_trans : Transitive (key_le (R := R)).
Proof. intros a b c. unfold key_le. lia. Qed.
Global Instance key_le_total : Total (key_le (R := R)).
Proof. intros a b. unfold key_le. lia. Qed.

Lemma key_le_refl (a : Z * R) : key_le a a.
Proof. unfold key_le. lia. Qed.

Definition newest (l : list (Z * R)) (x : Z * R) : Prop :=
  x ∈ l /\ forall y, y ∈ l -> key_le y x.

Lemma latest_newest l r :
  _latest l = Some r -> exists x, newest l x /\ snd x = r.
Proof.
  unfold _latest. destruct (last (merge_sort key_le l)) as [x|] eqn:E; [|done].
  intros [= <-]. exists x. split; [|done].
  destruct (last_sorted _ _ _ (StronglySorted_merge_sort key_le l) E) as [Hin Hmax].
  split.
  - by rewrite (merge_sort_Permutation key_le l) in Hin.
  - intros y Hy. destruct (Hmax y) as [| ->]; [|done|apply key_le_refl].
    by rewrite (merge_sort_Permutation key_le l).
Qed.

Lemma latest_none l : _latest (R := R) l = None <-> l = [].
Proof.
  unfold _latest. split; [|by intros ->].
  destruct (last (merge_sort key_le l)) eqn:E; [done|]. intros _.
  apply last_None in E. pose proof (merge_sort_Permutation key_le l) as Hp.
  rewrite E in Hp. by apply Permutation_nil_l in Hp.
Qed.

Lemma newest_unique l x y :
  NoDup l.*1 -> newest l x -> newest l y -> x = y.
Proof.
  intros Hnd [Hx Hx'] [Hy Hy'].
  assert (fst x = fst y) as E.
  { specialize (Hx' y Hy). specialize (Hy' x Hx). unfold key_le in *. lia. }
  destruct x as [i r], y as [j r']. simpl in E. subst j. f_equal.
  by apply (NoDup_fst_inj _ _ _ _ Hnd Hx Hy).
Qed.

(** ** How a ledger grows *)

Record wf_ledger (l : ledger R) : Prop := {
  wf_sequence : NoDup (rows l).*1;
  wf_bound : forall x, x ∈ rows l -> fst x < next_sequence l;
  wf_id : NoDup (row_id ∘ snd <$> rows l);
}.

Definition same (x y : Z * R) : Prop :=
  fst x = fst y /\ decision (snd x) = decision (snd y).

(** Every old row is still there, up to what a permitted update changes, and
    every other row comes after them and satisfies [P]. *)
Record grow (P : R -> Prop) (l l' : ledger R) : Prop := {
  grow_rows : forall x, x ∈ rows l' ->
    (exists y, y ∈ rows l /\ same x y) \/ (next_sequence l <= fst x /\ P (snd x));
  grow_keeps : forall y, y ∈ rows l -> exists x, x ∈ rows l' /\ same x y;
  grow_next : next_sequence l <= next_sequence l';
}.

Definition stable (P : R -> Prop) : Prop :=
  forall r r', decision r = decision r' -> P r -> P r'.

Lemma grow_refl P l : grow P l l.
Proof.
  split; [|intros y Hy; by exists y|lia]. intros x Hx. left. by exists x.
Qed.

Lemma grow_trans P l1 l2 l3 :
  stable P -> grow P l1 l2 -> grow P l2 l3 -> grow P l1 l3.
Proof.
  intros HP [R1 K1 N1] [R2 K2 N2]. split; [| |lia].
  - intros x [(y & Hy & Ei & Ed)|[Hn HPx]]%R2; [|right; split; [lia|done]].
    destruct (R1 y Hy) as [(z & Hz & Ei' & Ed')|[Hn HPy]].
    + left. exists z. split; [done|]. split; congruence.
    + right. split; [lia|]. by apply (HP _ _ (eq_sym Ed)).
  - intros y (x & Hx & Ei & Ed)%K1. destruct (K2 x Hx) as (z & Hz & Ei' & Ed').
    exists z. split; [done|]. split; congruence.
Qed.

Lemma grow_weaken (P Q : R -> Prop) l l' :
  (forall r, P r -> Q r) -> grow P l l' -> grow Q l l'.
Proof.
  intros HPQ [R1 K1 N1]. split; [|done..].
  intros x [?|[? ?]]%R1; [by left|right; auto].
Qed.

Lemma append_grow P l r : (P r : Prop) -> grow P l (append l r).
Proof.
  intros HP. split; simpl; [| |lia].
  - intros x [Hx| ->%list_elem_of_singleton]%elem_of_app; [left; by exists x|].
    right. split; [simpl; lia|done].
  - intros y Hy. exists y. split; [apply elem_of_app; by left|done].
Qed.

Lemma append_wf l r :
  wf_ledger l -> existsb (fun x => String.eqb (row_id (snd x)) (row_id r)) (rows l) = false ->
  wf_ledger (append l r).
Proof.
  intros [Hs Hb Hi] Hnew. split; simpl.
  - rewrite fmap_app. apply NoDup_app. split; [done|]. split; [|apply NoDup_singleton].
    intros i (x & -> & Hx)%list_elem_of_fmap Hi'%list_elem_of_singleton.
    specialize (Hb x Hx). simpl in Hi'. lia.
  - intros x [Hx| ->%list_elem_of_singleton]%elem_of_app; [|simpl; lia].
    specialize (Hb x Hx). lia.
  - rewrite fmap_app. apply NoDup_app. split; [done|]. split; [|apply NoDup_singleton].
    intros i (x & -> & Hx)%list_elem_of_fmap Hi'%list_elem_of_singleton.
    apply not_true_iff_false in Hnew. apply Hnew, existsb_exists. exists x.
    split; [by apply list_elem_of_In|]. by apply String.eqb_eq.
Qed.

(** A row that was the newest of its kind when the history began is either
    still the newest or has been superseded by a row written since. *)
Lemma newest_since P (f : R -> bool) l l' x r :
  wf_ledger l -> grow P l l' ->
  (forall r r', decision r = decision r' -> f r = f r') ->
  newest (List.filter (fun y => f (snd y)) (rows l)) x ->
  _latest (List.filter (fun y => f (snd y)) (rows l')) = Some r ->
  decision r = decision (snd x) \/ P r.
Proof.
  intros Hwf [R1 K1 N1] Hf [Hx Hmax] Hr.
  assert (forall l (y : Z * R), y ∈ List.filter (fun y => f (snd y)) l <-> y ∈ l /\ f (snd y) = true)
    as Hfilter by (intros; rewrite !list_elem_of_In; apply filter_In).
  apply latest_newest in Hr as (z & [Hz Hzmax] & <-).
  apply Hfilter in Hz as [Hz Hfz], Hx as [Hx Hfx].
  destruct (R1 z Hz) as [(y & Hy & Ei & Ed)|[_ HP]]; [left|by right].
  destruct (K1 x Hx) as (x' & Hx' & Ei' & Ed').
  assert (key_le y x) as Hyx.
  { apply Hmax, Hfilter. by rewrite <- (Hf _ _ Ed). }
  assert (key_le x' z) as Hxz.
  { apply Hzmax, Hfilter. by rewrite (Hf _ _ Ed'). }
  assert (fst x = fst y) as E.
  { unfold key_le in *.
    rewrite <- (decision_time (snd x')), <- (decision_time (snd z)), Ed, Ed' in Hxz.
    rewrite !decision_time in Hxz. lia. }
  rewrite Ed. destruct x as [i a], y as [j b]. simpl in E. subst j.
  f_equal. by apply (NoDup_fst_inj _ _ _ _ (wf_sequence _ Hwf) Hy Hx).
Qed.
End ledgers.

(** ** What a method may write *)

Record effects := {
  on_consent : ConsentRecord.t -> Prop;
  on_suppression : Suppression.t -> Prop;
  on_usability : Usability.t -> Prop;
  on_reachability : Reachability.t -> Prop;
}.

Record wf_db (s : db) : Prop := {
  wf_consent : wf_ledger (consent_records s);
  wf_suppression : wf_ledger (address_suppressions s);
  wf_usability : wf_ledger (address_usability_decisions s);
  wf_reachability : wf_ledger (provider_reachability_events s);
  wf_checks : forall x, x ∈ rows (consent_records s) -> row_checks (snd x) = true;
}.

Record grows (W : effects) (s s' : db) : Prop := {
  grows_consent : grow (on_consent W) (consent_records s) (consent_records s');
  grows_suppression : grow (on_suppression W) (address_suppressions s) (address_suppressions s');
  grows_usability :
    grow (on_usability W) (address_usability_decisions s) (address_usability_decisions s');
  grows_reachability :
    grow (on_reachability W) (provider_reachability_events s) (provider_reachability_events s');
}.

Lemma grows_refl W s : grows W s s.
Proof. split; apply grow_refl. Qed.

Lemma grows_trans W s1 s2 s3 :
  stable (on_consent W) -> grows W s1 s2 -> grows W s2 s3 -> grows W s1 s3.
Proof.
  intros HW [] []. split; eapply grow_trans; try done; by intros ?? [=->].
Qed.

Section method.
Context (W : effects) (HW : stable (on_consent W)).

Definition appends {A} (m : stm db con_error A) : Prop :=
  forall s, wf_db s -> wf_db (m s).1 /\ grows W s (m s).1.

Lemma appends_ret {A} (a : A) : appends (stm_ret a).
Proof. intros s Hs. split; [done|apply grows_refl]. Qed.

Lemma appends_lift {A} (r : result con_error A) : appends (lift r).
Proof. intros s Hs. split; [done|apply grows_refl]. Qed.

Lemma appends_bind {A B} (m : stm db con_error A) (k : A -> stm db con_error B) :
  appends m -> (forall s s' a, m s = (s', Ok a) -> appends (k a)) -> appends (stm_bind m k).
Proof.
  intros Hm Hk s Hs. unfold stm_bind. destruct (Hm s Hs) as [Hs' Hg].
  destruct (m s) as [s' [a|e]] eqn:E; simpl in *; [|done].
  destruct (Hk _ _ _ E s' Hs') as [Hs'' Hg']. split; [done|].
  by apply (grows_trans _ _ s').
Qed.

Lemma appends_transaction {A} (m : stm db con_error A) : appends m -> appends (transaction m).
Proof.
  intros Hm s Hs. destruct (Hm s Hs) as [Hs' Hg]. unfold transaction.
  destruct (m s) as [s' [a|e]]; simpl in *; [done|]. split; [done|apply grows_refl].
Qed.

Lemma appends_address tenant_id address_id : appends (_address tenant_id address_id).
Proof.
  intros s Hs. unfold _address. repeat case_match; (split; [done|apply grows_refl]).
Qed.

Lemma appends_withdrawals withdraw purposes :
  (forall p, p ∈ purposes -> appends (withdraw p)) -> appends (insert_withdrawals withdraw purposes).
Proof.
  induction purposes as [|p ps IH]; intros Hw; [apply appends_ret|].
  apply appends_bind; [apply Hw; by left|]. intros _ _ r _.
  apply appends_bind; [apply IH; intros q Hq; apply Hw; by right|].
  intros. apply appends_ret.
Qed.

(** One insert: the other ledgers are untouched. *)
Ltac solve_insert HP :=
  intros s [H1 H2 H3 H4 H5]; unfold insert_row;
  match goal with |- context [negb (row_checks ?r)] =>
    destruct (row_checks r) eqn:E1; [|split; [done|apply grows_refl]] end;
  cbn [negb];
  match goal with |- context [if existsb ?f ?l then _ else _] =>
    destruct (existsb f l) eqn:E2; [split; [done|apply grows_refl]|] end;
  split; split; simpl; try done; try apply grow_refl;
  first [ by apply append_wf | by apply append_grow, HP
        | by intros x [Hx| ->%list_elem_of_singleton]%elem_of_app; [apply H5|] ].

Lemma appends_consent (r : ConsentRecord.t) :
  (row_checks r = true -> on_consent W r) -> appends (insert_row r).
Proof. intros HP. solve_insert HP. Qed.
Lemma appends_suppression (r : Suppression.t) :
  (row_checks r = true -> on_suppression W r) -> appends (insert_row r).
Proof. intros HP. solve_insert HP. Qed.
Lemma appends_usability (r : Usability.t) :
  (row_checks r = true -> on_usability W r) -> appends (insert_row r).
Proof. intros HP. solve_insert HP. Qed.
Lemma appends_reachability (r : Reachability.t) :
  (row_checks r = true -> on_reachability W r) -> appends (insert_row r).
Proof. intros HP. solve_insert HP. Qed.

(** A permitted update keeps every decision, and so every reading's order. *)
Lemma redact_decision moment r : decision (redact moment r) = decision r.
Proof. by destruct r. Qed.

Lemma appends_update tenant_id id moment : appends (update_content tenant_id id moment).
Proof.
  intros s [H1 H2 H3 H4 H5]. unfold update_content.
  destruct (forallb _ _) eqn:Eall; [|split; [done|apply grows_refl]].
  set (f := fun x : Z * ConsentRecord.t => if matches_id tenant_id id x.2
                                           then (x.1, redact moment x.2) else x).
  assert (forall x, same (f x) x) as Hsame.
  { intros x. unfold f, same. case_match; [|done]. split; [done|apply redact_decision]. }
  split; split; simpl; try done; try apply grow_refl.
  - destruct H1 as [Hs Hb Hi]. split; simpl.
    + rewrite <- list_fmap_compose. erewrite list_fmap_ext; [exact Hs|].
      intros ? x _. apply Hsame.
    + intros x (y & -> & Hy)%list_elem_of_fmap. rewrite (proj1 (Hsame y)). by apply Hb.
    + rewrite <- list_fmap_compose. erewrite list_fmap_ext; [exact Hi|].
      intros ? x _. unfold f, compose. simpl. by case_match.
  - intros x (y & -> & Hy)%list_elem_of_fmap. unfold f. case_match eqn:Em; [|by apply H5].
    rewrite forallb_forall in Eall. apply list_elem_of_In, Eall in Hy.
    rewrite Em in Hy. simpl in Hy. by apply andb_true_iff in Hy as [_ Hy].
  - split; simpl; [| |lia].
    + intros x (y & -> & Hy)%list_elem_of_fmap. left. by exists y.
    + intros y Hy. exists (f y). split; [by apply list_elem_of_fmap_2|done].
Qed.

Lemma appends_iter {A} (f : A -> stm db con_error unit) l :
  (forall x, appends (f x)) -> appends (stm_iter f l).
Proof.
  intros Hf. induction l as [|x l IH]; [apply appends_ret|].
  apply appends_bind; [apply Hf|]. intros. apply IH.
Qed.
End method.

(** ** Who grants, lifts, activates and restarts *)

Definition complete (e : Evidence.t) : Prop :=
  (forall n b, (n, b) ∈ Evidence.present e -> b = true)
  /\ Evidence.default_unchecked e <> Some false
  /\ (Evidence.form_capture (Evidence.capture_method e) = true ->
      Evidence.default_unchecked e = Some true).

Lemma missing_fields_complete e : Evidence.missing_fields e = [] <-> complete e.
Proof.
  unfold Evidence.missing_fields, complete. split.
  - intros [Hp Hd]%app_eq_nil. repeat split.
    + intros n b Hin. destruct b; [done|]. exfalso.
      apply map_eq_nil in Hp. eapply (in_nil (a := (n, false))). rewrite <- Hp.
      apply filter_In. split; [by apply list_elem_of_In|done].
    + case_bool_decide; done.
    + intros Hf. rewrite Hf in Hd. repeat case_bool_decide; done.
  - intros (Hp & Hd & Hf). rewrite bool_decide_false by done.
    assert (List.filter (fun f => negb f.2) (Evidence.present e) = []) as ->.
    { destruct (List.filter _ _) as [|[n b] l] eqn:E; [done|]. exfalso.
      assert (In (n, b) ((n, b) :: l)) as Hin by (by left). rewrite <- E in Hin.
      apply filter_In in Hin as [Hin Hb]. rewrite (Hp n b) in Hb; [done|].
      by apply list_elem_of_In. }
    destruct (Evidence.form_capture _) eqn:E; [|done].
    rewrite bool_decide_true by auto. done.
Qed.

(** [grants c r]: [c] is the call of an authorised human, with complete
    evidence, that wrote the grant [r]. *)
Definition grants (c : call) (r : ConsentRecord.t) : Prop :=
  match c with
  | Grant t a p e actor _ moment _ =>
      is_human actor = true /\ holds actor GRANT_AUTHORITIES = true
      /\ complete e
      /\ ConsentRecord.tenant_id r = t /\ ConsentRecord.address_id r = a
      /\ ConsentRecord.purpose r = p
      /\ ConsentRecord.decided_by_principal_id r = principal_id actor
      /\ is_Some (principal_id actor)
      /\ ConsentRecord.disclosure_text r = Evidence.disclosure_text e
      /\ ConsentRecord.disclosure_hash r = Some (Evidence.disclosure_hash e)
      /\ ConsentRecord.expires_at r = Evidence.expires_at e
      /\ ConsentRecord.recorded_at r = moment
      /\ moment + 365 * RETENTION_FLOOR_YEARS * DAY <= ConsentRecord.retained_until r
  | _ => False
  end.

(** [lifts c r]: [c] is the call of a human administrator that lifted the
    suppression by writing [r]. *)
Definition lifts (c : call) (r : Suppression.t) : Prop :=
  match c with
  | Lift t a actor _ sender _ _ _ =>
      is_human actor = true /\ holds actor [AUTHORITY_ADMINISTER] = true
      /\ Suppression.tenant_id r = t /\ Suppression.address_id r = a
      /\ Suppression.sender_id r = sender
      /\ Suppression.decided_by_principal_id r = principal_id actor
      /\ is_Some (principal_id actor)
  | _ => False
  end.

(** [activates c r]: [c] is the call of an authorised human that made the
    address usable by writing [r]. *)
Definition activates (c : call) (r : Usability.t) : Prop :=
  match c with
  | Activate t a actor _ _ _ =>
      is_human actor = true /\ holds actor GRANT_AUTHORITIES = true
      /\ Usability.tenant_id r = t /\ Usability.address_id r = a
      /\ Usability.decided_by_principal_id r = principal_id actor
      /\ is_Some (principal_id actor)
  | _ => False
  end.

Definition restarts (c : call) (r : Reachability.t) : Prop :=
  match c with
  | RestartKeyword t a _ sender _ _ _ =>
      Reachability.tenant_id r = t /\ Reachability.address_id r = a
      /\ Reachability.sender_id r = sender
  | _ => False
  end.

(** A row in a permissive state was written by such a call. *)
Definition permitted (cs : list call) : effects := {|
  on_consent r := ConsentRecord.state r = "granted" -> exists c, c ∈ cs /\ grants c r;
  on_suppression r := Suppression.state r = "none" -> exists c, c ∈ cs /\ lifts c r;
  on_usability r := Usability.state r = "active" -> exists c, c ∈ cs /\ activates c r;
  on_reachability r := Reachability.state r = "reachable" -> exists c, c ∈ cs /\ restarts c r
|}.

Lemma permitted_stable cs : stable (on_consent (permitted cs)).
Proof.
  intros [] [] E HP. simpl in *. injection E as <- <- <- <- <- <- <- <- <- <- <- <- <- <- <- <- <- <- <- <- <- <- <- <- <- <- <-.
  intros Hg. destruct (HP Hg) as (c & Hc & Hgr). exists c. split; [done|]. by destruct c.
Qed.

Lemma lift_ok {S E A} (r : result E A) (s s' : S) a : lift r s = (s', Ok a) -> r = Ok a.
Proof. by intros [= _ ->]. Qed.

Lemma lift_guard {S} (e : con_error) b (s s' : S) u :
  lift (guard_or e b) s = (s', Ok u) -> b = true.
Proof. intros H%lift_ok. by apply guard_or_ok in H. Qed.

Lemma calendar_ok {S} r (s s' : S) t : calendar r s = (s', Ok t) -> r = Ok t.
Proof. unfold calendar. intros H%lift_ok. by destruct r; simplify_eq. Qed.

(** Walk through a method: what its guards leave is in the context when the
    insert is reached. *)
Ltac walk :=
  repeat first
    [ apply appends_transaction
    | apply appends_withdrawals; [apply permitted_stable|intros]
    | apply appends_ret | apply appends_lift | apply appends_address
    | apply appends_bind; [apply permitted_stable| |intros] ].
Ltac facts :=
  repeat match goal with
  | E : lift (guard_or _ _) _ = (_, Ok _) |- _ => apply lift_guard in E
  | E : calendar _ _ = (_, Ok _) |- _ => apply calendar_ok in E
  end; bool_hyps.

Section calls.
Context (configured : option string) (cs : list call).

Lemma grant_appends t a p e ac sc m i :
  Grant t a p e ac sc m i ∈ cs ->
  appends (permitted cs) (grant_consent configured t a p e ac sc m i).
Proof.
  intros Hin. unfold grant_consent. walk. apply appends_consent. intros Hck _.
  facts. exists (Grant t a p e ac sc m i). split; [done|]. simpl.
  assert (complete e) as Hc.
  { apply missing_fields_complete. by destruct (Evidence.missing_fields e). }
  repeat match goal with |- _ /\ _ => split; [done|] end.
  split; [|repeat (split; [done|])].
  - unfold row_checks, consent_ledger, ConsentRecord.checks in Hck. cbn in Hck.
    destruct (principal_id ac); [by eexists|]. exfalso. clear -Hck. bool_hyps.
    cbn in *. discriminate.
  - simpl. unfold Evidence.retention_floor in *.
    match goal with H : _plus_years _ _ = Ok _ |- _ => apply plus_years_floor in H; [|by case_match] end.
    unfold RETENTION_FLOOR_YEARS, RECORDING_RETENTION_FLOOR_YEARS, DAY in *. case_match; lia.
Qed.

(** Every other consent row is in a state no reading grants on. *)
Lemma propose_appends t a p ac so m i :
  appends (permitted cs) (propose_consent configured t a p ac so m i).
Proof. unfold propose_consent. walk. by apply appends_consent. Qed.

Lemma opt_out_appends t a p ac so w sc m i :
  appends (permitted cs) (record_opt_out configured t a p ac so w sc m i).
Proof.
  unfold record_opt_out. walk. by apply appends_consent.
Qed.

Lemma stop_appends t a k se b so ac ttl m i si ri :
  appends (permitted cs) (record_inbound_opt_out t a k se b so ac ttl m i si ri).
Proof.
  unfold record_inbound_opt_out. walk.
  - by apply appends_consent.
  - by apply appends_suppression.
  - by apply appends_reachability.
Qed.

Lemma suppress_appends t a st w so ac se m i :
  appends (permitted cs) (suppress t a st w so ac se m i).
Proof.
  unfold suppress. walk. apply appends_suppression. intros _ Hst. simpl in Hst. subst st.
  by facts.
Qed.

Lemma lift_appends t a ac w se so m i :
  Lift t a ac w se so m i ∈ cs ->
  appends (permitted cs) (lift_suppression t a ac w se so m i).
Proof.
  intros Hin. unfold lift_suppression. walk. apply appends_suppression. intros Hck _.
  facts. exists (Lift t a ac w se so m i). split; [done|]. simpl.
  repeat (split; [done|]). unfold row_checks, suppression_ledger, Suppression.checks in Hck.
  cbn in Hck. destruct (principal_id ac); [by eexists|]. exfalso. clear -Hck. bool_hyps.
  cbn in *. discriminate.
Qed.

Lemma propose_address_appends t a ac w m i :
  appends (permitted cs) (propose_address t a ac w m i).
Proof. unfold propose_address. walk. by apply appends_usability. Qed.

Lemma activate_appends t a ac w m i :
  Activate t a ac w m i ∈ cs ->
  appends (permitted cs) (activate_address t a ac w m i).
Proof.
  intros Hin. unfold activate_address. walk. apply appends_usability. intros Hck _.
  facts. exists (Activate t a ac w m i). split; [done|]. simpl.
  repeat (split; [done|]). unfold row_checks, usability_ledger, Usability.checks in Hck.
  cbn in Hck. destruct (principal_id ac); [by eexists|]. exfalso. clear -Hck. bool_hyps.
  cbn in *. discriminate.
Qed.

Lemma retire_appends t a ac w m i :
  appends (permitted cs) (retire_address t a ac w m i).
Proof. unfold retire_address. walk. by apply appends_usability. Qed.

Lemma restart_appends t a k se so m i :
  RestartKeyword t a k se so m i ∈ cs ->
  appends (permitted cs) (record_provider_restart t a k se so m i).
Proof.
  intros Hin. unfold record_provider_restart. walk. apply appends_reachability. intros _ _.
  by exists (RestartKeyword t a k se so m i).
Qed.

Lemma purge_appends t m : appends (permitted cs) (purge_expired_content t m).
Proof.
  unfold purge_expired_content. walk; [by intros s'' Hs''; split; [|apply grows_refl]|].
  apply appends_iter; [apply permitted_stable|]. intros. apply appends_update.
Qed.

Lemma run_appends c s :
  c ∈ cs -> wf_db s -> wf_db (run configured c s) /\ grows (permitted cs) s (run configured c s).
Proof.
  intros Hc Hs. destruct c; cbn [run];
    [ by eapply grant_appends | by eapply propose_appends | by eapply opt_out_appends
    | by eapply stop_appends | by eapply suppress_appends | by eapply lift_appends
    | by eapply propose_address_appends | by eapply activate_appends
    | by eapply retire_appends | by eapply restart_appends | by eapply purge_appends ].
Qed.

Lemma run_list_appends l s :
  l ⊆ cs -> wf_db s ->
  wf_db (run_all configured l s) /\ grows (permitted cs) s (run_all configured l s).
Proof.
  revert s. induction l as [|c l IH]; intros s Hl Hs; [by split; [|apply grows_refl]|].
  unfold run_all. cbn [fold_left].
  destruct (run_appends c s) as [Hs' Hg]; [apply Hl; by left|done|].
  destruct (IH (run configured c s)) as [Hs'' Hg']; [intros x ?; apply Hl; by right|done|].
  split; [done|]. eapply grows_trans; [apply permitted_stable|done|done].
Qed.
End calls.

Lemma run_all_grows configured cs s :
  wf_db s -> wf_db (run_all configured cs s) /\ grows (permitted cs) s (run_all configured cs s).
Proof. by apply run_list_appends. Qed.

Lemma empty_wf {R} `{LedgerRow R} : wf_ledger (empty_ledger (R := R)).
Proof. split; simpl; [constructor| |constructor]. by intros x ?%elem_of_nil. Qed.

Lemma undecided_wf addresses : wf_db (undecided addresses).
Proof. split; [apply empty_wf..|]. by intros x ?%elem_of_nil. Qed.

(** ** Reading a verdict *)

Lemma consent_state_ok s t a ch p now rd :
  consent_state s t a ch p now = Ok rd ->
  str_in p PURPOSES = true /\
  row rd = _latest (consent_rows s t a ch p) /\
  (state rd = "granted" -> exists r, row rd = Some r /\ ConsentRecord.state r = "granted"
     /\ forall e, ConsentRecord.expires_at r = Some e -> now < e).
Proof.
  unfold consent_state. intros [_u [_ H]]%result_bind_ok.
  apply result_bind_ok in H as [_u' [Hp H]]. apply guard_or_ok in Hp. split; [done|].
  destruct (_latest _) as [r|]; [|by injection H as <-].
  injection H as <-. simpl. split; [done|].
  destruct (String.eqb (ConsentRecord.state r) "granted") eqn:Eg; simpl;
    [|by apply String.eqb_neq in Eg].
  apply String.eqb_eq in Eg.
  destruct (ConsentRecord.expires_at r) as [e|] eqn:Ee; simpl.
  - destruct (Z.leb_spec e now); [done|]. intros _. exists r. split; [done|]. split; [done|].
    intros e' He'. rewrite Ee in He'. by injection He' as <-.
  - intros _. exists r. split; [done|]. split; [done|]. intros e' He'. by rewrite Ee in He'.
Qed.

(** The other three readings have one shape. *)
Ltac read_axis H :=
  apply result_bind_ok in H as [? [_ H]];
  match type of H with context [_latest ?l] => destruct (_latest l) end;
  injection H as <-; done.

Lemma suppression_state_ok s t a ch sender rd :
  suppression_state s t a ch sender = Ok rd ->
  row rd = _latest (suppression_rows s t a ch sender)
  /\ state rd = match row rd with Some r => Suppression.state r | None => "none" end.
Proof. unfold suppression_state. intros H. read_axis H. Qed.

Lemma usability_state_ok s t a rd :
  usability_state s t a = Ok rd ->
  row rd = _latest (usability_rows s t a)
  /\ state rd = match row rd with Some r => Usability.state r | None => "proposed" end.
Proof. unfold usability_state. intros H. read_axis H. Qed.

Lemma provider_reachability_ok s t a ch sender rd :
  provider_reachability s t a ch sender = Ok rd ->
  row rd = _latest (reachability_rows s t a ch sender)
  /\ state rd = match row rd with Some r => Reachability.state r | None => "reachable" end.
Proof. unfold provider_reachability. intros H. read_axis H. Qed.

Lemma evaluate_ok v t a ch p sender now d :
  evaluate_eligibility v t a ch p sender now = Ok d ->
  (eligible d, reason d) = verdict (readings d)
  /\ consent_state (at_consent v) t a ch p now = Ok (consent (readings d))
  /\ suppression_state (at_suppression v) t a ch sender = Ok (suppression (readings d))
  /\ usability_state (at_usability v) t a = Ok (usability (readings d))
  /\ provider_reachability (at_reachability v) t a ch sender = Ok (reachability (readings d)).
Proof.
  unfold evaluate_eligibility, axes. intros [ax [H [= <-]]]%result_bind_ok. simpl.
  apply result_bind_ok in H as [c [Hc H]]. apply result_bind_ok in H as [u [Hu H]].
  apply result_bind_ok in H as [y [Hy H]]. apply result_bind_ok in H as [r [Hr H]].
  injection H as <-. simpl. by destruct (verdict _).
Qed.

Lemma verdict_eligible ax :
  (verdict ax).1 = true <->
  state (usability ax) = "active" /\ state (suppression ax) = "none"
  /\ state (reachability ax) = "reachable" /\ state (consent ax) = "granted".
Proof.
  unfold verdict. rewrite <- !String.eqb_eq.
  repeat match goal with |- context [String.eqb (state ?x) ?y] =>
    lazymatch y with
    | "active" => destruct (String.eqb (state x) y)
    | "none" => destruct (String.eqb (state x) y)
    | "reachable" => destruct (String.eqb (state x) y)
    | "granted" => destruct (String.eqb (state x) y)
    end end; simpl; intuition congruence.
Qed.

(** An eligible address has a live grant and an activation, and no block in
    force. *)
Lemma eligible_rows v t a ch p sender now d :
  evaluate_eligibility v t a ch p sender now = Ok d -> eligible d = true ->
  (exists r, _latest (consent_rows (at_consent v) t a ch p) = Some r
     /\ ConsentRecord.state r = "granted"
     /\ forall e, ConsentRecord.expires_at r = Some e -> now < e)
  /\ (forall r, _latest (suppression_rows (at_suppression v) t a ch sender) = Some r ->
        Suppression.state r = "none")
  /\ (exists r, _latest (usability_rows (at_usability v) t a) = Some r
        /\ Usability.state r = "active")
  /\ (forall r, _latest (reachability_rows (at_reachability v) t a ch sender) = Some r ->
        Reachability.state r = "reachable").
Proof.
  intros H He. apply evaluate_ok in H as (Hv & Hc & Hs & Hu & Hr).
  assert ((verdict (readings d)).1 = true) as Hel by (rewrite <- Hv; done).
  apply verdict_eligible in Hel as (Eu & Es & Er & Ec).
  apply consent_state_ok in Hc as (_ & Hrow & Hg).
  apply suppression_state_ok in Hs as [Hs Hs'].
  apply usability_state_ok in Hu as [Hu Hu'].
  apply provider_reachability_ok in Hr as [Hr Hr'].
  split; [|split; [|split]].
  - destruct (Hg Ec) as (r & Hr0 & ?). exists r. split; [|done]. by rewrite <- Hrow.
  - intros r E. rewrite <- Hs in E. rewrite E in Hs'. congruence.
  - rewrite <- Hu. destruct (row (usability _)) as [r|]; [|congruence].
    exists r. split; [done|congruence].
  - intros r E. rewrite <- Hr in E. rewrite E in Hr'. congruence.
Qed.

(** The rows of a query are rows of the ledger that match it. *)
Lemma elem_of_std_filter {A} (f : A -> bool) l x : x ∈ List.filter f l <-> x ∈ l /\ f x = true.
Proof. rewrite !list_elem_of_In. apply filter_In. Qed.

Lemma latest_elem {R} `{LedgerLaws R} f (l : list (Z * R)) r :
  _latest (List.filter f l) = Some r -> exists i, (i, r) ∈ l /\ f (i, r) = true.
Proof.
  intros ([i y] & [Hin _] & <-)%latest_newest.
  apply elem_of_std_filter in Hin. by exists i.
Qed.

(** In a store grown from an undecided one, only permitted rows exist. *)
Lemma all_permitted {R} `{LedgerLaws R} P (l : ledger R) x :
  grow P empty_ledger l -> x ∈ rows l -> P (snd x).
Proof. intros [G _ _] [(y & Hy%elem_of_nil & _)|[_ HP]]%G; done. Qed.

(** C36. Nobody but a person authorises a send.  Whatever calls produced the
    four ledgers, and wherever other callers committed between the four
    readings, an address is eligible only if an authorised human granted
    that purpose on that channel with complete evidence (the grant is the
    newest consent row, has not expired, carries the hash of the disclosure
    shown and is kept at least five years), an authorised human activated the
    address, and any suppression in scope was last lifted by a human
    administrator. *)
Theorem eligible_is_authorised configured addresses csc css csu csr v t a ch p sender now d :
  at_consent v = run_all configured csc (undecided addresses) ->
  at_suppression v = run_all configured css (undecided addresses) ->
  at_usability v = run_all configured csu (undecided addresses) ->
  at_reachability v = run_all configured csr (undecided addresses) ->
  evaluate_eligibility v t a ch p sender now = Ok d -> eligible d = true ->
  (exists c r, c ∈ csc /\ grants c r
     /\ _latest (consent_rows (at_consent v) t a ch p) = Some r
     /\ ConsentRecord.tenant_id r = t /\ ConsentRecord.address_id r = a
     /\ ConsentRecord.channel r = ch /\ ConsentRecord.purpose r = p
     /\ forall e, ConsentRecord.expires_at r = Some e -> now < e)
  /\ (exists c r, c ∈ csu /\ activates c r
        /\ _latest (usability_rows (at_usability v) t a) = Some r
        /\ Usability.tenant_id r = t /\ Usability.address_id r = a)
  /\ (forall r, _latest (suppression_rows (at_suppression v) t a ch sender) = Some r ->
        exists c, c ∈ css /\ lifts c r)
  /\ (forall r, _latest (reachability_rows (at_reachability v) t a ch sender) = Some r ->
        exists c, c ∈ csr /\ restarts c r).
Proof.
  intros Ec Es Eu Er H He.
  destruct (eligible_rows _ _ _ _ _ _ _ _ H He)
    as ((r & Hr & Hst & Hexp) & Hs & (u & Hu & Hact) & Hre).
  pose proof (fun cs => run_all_grows configured cs _ (undecided_wf addresses)) as Hg.
  split; [|split; [|split]].
  - destruct (latest_elem _ _ _ Hr) as (i & Hin & Hf). rewrite Ec in Hin. simpl in Hf. bool_hyps.
    destruct (all_permitted _ _ _ (grows_consent _ _ _ (proj2 (Hg csc))) Hin Hst)
      as (c & Hc & Hgr).
    exists c, r. by repeat (split; [done|]).
  - destruct (latest_elem _ _ _ Hu) as (i & Hin & Hf). rewrite Eu in Hin. simpl in Hf. bool_hyps.
    destruct (all_permitted _ _ _ (grows_usability _ _ _ (proj2 (Hg csu))) Hin Hact)
      as (c & Hc & Hgr).
    exists c, u. by repeat (split; [done|]).
  - intros q Hq. destruct (latest_elem _ _ _ Hq) as (i & Hin & _). rewrite Es in Hin.
    exact (all_permitted _ _ _ (grows_suppression _ _ _ (proj2 (Hg css))) Hin (Hs _ Hq)).
  - intros q Hq. destruct (latest_elem _ _ _ Hq) as (i & Hin & _). rewrite Er in Hin.
    exact (all_permitted _ _ _ (grows_reachability _ _ _ (proj2 (Hg csr))) Hin (Hre _ Hq)).
Qed.

(** ** What one insert, and one batch of withdrawals, leave *)

Definition append_all {R} (l : ledger R) (rs : list R) : ledger R := fold_left append rs l.

Section inserted.
Context {R : Type} `{LedgerLaws R}.

Lemma insert_row_ok (r r' : R) s s' :
  insert_row r s = (s', Ok r') -> s' = set_table (append (table s) r) s /\ r' = r.
Proof. unfold insert_row. repeat case_match; naive_solver. Qed.

Lemma append_all_next l (rs : list R) :
  next_sequence l <= next_sequence (append_all l rs).
Proof.
  revert l. induction rs as [|r rs IH]; intros l; simpl; [lia|].
  specialize (IH (append l r)). simpl in IH. unfold append_all in *. lia.
Qed.

Lemma append_all_rows l (rs : list R) x :
  x ∈ rows (append_all l rs) -> x ∈ rows l \/ (next_sequence l <= fst x /\ snd x ∈ rs).
Proof.
  revert l. induction rs as [|r rs IH]; intros l; simpl; [by left|].
  intros [[Hx| ->%list_elem_of_singleton]%elem_of_app|[Hn Hr]]%IH.
  - by left.
  - right. simpl. split; [lia|by left].
  - right. simpl in Hn. split; [lia|by right].
Qed.

Lemma append_all_keeps l (rs : list R) x : x ∈ rows l -> x ∈ rows (append_all l rs).
Proof.
  revert l. induction rs as [|r rs IH]; intros l Hx; [done|]. apply IH. simpl.
  apply elem_of_app. by left.
Qed.

Lemma append_all_new l (rs : list R) r :
  r ∈ rs -> exists i, next_sequence l <= i /\ (i, r) ∈ rows (append_all l rs).
Proof.
  revert l. induction rs as [|r' rs IH]; intros l; [by intros ?%elem_of_nil|].
  intros [->|Hr]%elem_of_cons.
  - exists (next_sequence l). split; [lia|]. apply (append_all_keeps (append l r') rs). simpl.
    apply elem_of_app. right. by apply list_elem_of_singleton.
  - destruct (IH (append l r') Hr) as (i & Hi & Hin). exists i. simpl in Hi. split; [lia|done].
Qed.

(** The only appended row a query matches becomes its newest row when the
    clock has not run backwards. *)
Lemma appended_newest (f : R -> bool) l rs r m :
  wf_ledger l ->
  (forall y, y ∈ rows l -> f (snd y) = true -> recorded_at (snd y) <= m) ->
  r ∈ rs -> f r = true -> recorded_at r = m -> (forall r', r' ∈ rs -> f r' = true -> r' = r) ->
  exists i, newest (List.filter (fun x => f (snd x)) (rows (append_all l rs))) (i, r).
Proof.
  intros Hwf Hold Hr Hf Hm Hone.
  destruct (_latest (List.filter (fun x => f x.2) (rows (append_all l rs)))) as [z|] eqn:Ez.
  - apply latest_newest in Ez as ([i z'] & Hz & Ez). simpl in Ez. subst z'.
    exists i. enough (z = r) by (by subst).
    destruct Hz as [[Hz Hfz]%elem_of_std_filter Hmax].
    destruct (append_all_rows _ _ _ Hz) as [Hz'|[_ Hz']]; [|by apply Hone].
    exfalso. destruct (append_all_new l rs r Hr) as (j & Hj & Hin).
    assert (key_le (j, r) (i, z)) as Hle by (apply Hmax, elem_of_std_filter; done).
    specialize (Hold _ Hz' Hfz). pose proof (wf_bound _ Hwf _ Hz') as Hb.
    unfold key_le in Hle. simpl in *. lia.
  - exfalso. apply latest_none in Ez. destruct (append_all_new l rs r Hr) as (j & _ & Hin).
    assert ((j, r) ∈ List.filter (fun x => f x.2) (rows (append_all l rs))) as Hx
      by (apply elem_of_std_filter; done).
    rewrite Ez in Hx. by apply elem_of_nil in Hx.
Qed.

Lemma newest_latest l (x : Z * R) :
  NoDup l.*1 -> newest l x -> _latest l = Some (snd x).
Proof.
  intros Hnd Hx. destruct (_latest l) as [r|] eqn:E.
  - apply latest_newest in E as (y & Hy & <-). by rewrite (newest_unique l x y).
  - apply latest_none in E. subst l. by destruct Hx as [?%elem_of_nil _].
Qed.

Lemma append_all_filter (f : R -> bool) l rs :
  (forall r, r ∈ rs -> f r = false) ->
  List.filter (fun x => f (snd x)) (rows (append_all l rs)) = List.filter (fun x => f (snd x)) (rows l).
Proof.
  revert l. induction rs as [|r rs IH]; intros l Hf; [done|].
  change (append_all l (r :: rs)) with (append_all (append l r) rs).
  rewrite IH by (intros r' Hr'; apply Hf; by right). simpl. rewrite List.filter_app. simpl.
  rewrite Hf by left. by rewrite app_nil_r.
Qed.

Lemma filter_sequence (f : Z * R -> bool) l : NoDup l.*1 -> NoDup (List.filter f l).*1.
Proof.
  induction l as [|x l IH]; [done|]. rewrite fmap_cons. intros [Hn Hl]%NoDup_cons. simpl.
  destruct (f x); [|by apply IH]. rewrite fmap_cons. apply NoDup_cons. split; [|by apply IH].
  intros (y & Hy & [Hy' _]%elem_of_std_filter)%list_elem_of_fmap. apply Hn.
  rewrite Hy. by apply list_elem_of_fmap_2.
Qed.
End inserted.

Lemma insert_withdrawals_ok (f : string -> ConsentRecord.t) ps s s' rs :
  insert_withdrawals (fun p => insert_row (f p)) ps s = (s', Ok rs) ->
  rs = map f ps
  /\ s' = set_table (append_all (consent_records s) (map f ps)) s.
Proof.
  revert s s' rs. induction ps as [|p ps IH]; intros s s' rs; simpl.
  { intros [= <- <-]. by destruct s. }
  unfold stm_bind, stm_ret. destruct (insert_row (f p) s) as [s1 [r|e]] eqn:E1; [|done].
  apply insert_row_ok in E1 as [-> ->].
  destruct (insert_withdrawals _ ps _) as [s2 [w|e]] eqn:E2; [|done].
  apply IH in E2 as [-> ->]. intros [= <- <-]. done.
Qed.

(** A withdrawal of [p] for the address, written at [m]. *)
Record withdrawal (t a ch : string) (m : Z) (p : string) (r : ConsentRecord.t) : Prop := {
  withdrawal_tenant : ConsentRecord.tenant_id r = t;
  withdrawal_address : ConsentRecord.address_id r = a;
  withdrawal_channel : ConsentRecord.channel r = ch;
  withdrawal_purpose : ConsentRecord.purpose r = p;
  withdrawal_state : ConsentRecord.state r = "withdrawn";
  withdrawal_time : ConsentRecord.recorded_at r = m;
}.

Ltac step_ok H :=
  match type of H with
  | stm_bind ?m _ ?s = _ =>
      unfold stm_bind in H at 1;
      let E := fresh "E" in destruct (m s) as [? [?|?]] eqn:E; [|discriminate H]
  end.

Lemma transaction_inv {S E A} (m : stm S E A) s s' a :
  transaction m s = (s', Ok a) -> m s = (s', Ok a).
Proof. by rewrite transaction_ok. Qed.

Lemma lift_inv {S E A} (r : result E A) (s s' : S) a :
  lift r s = (s', Ok a) -> s' = s /\ r = Ok a.
Proof. by intros [= -> ->]. Qed.

Lemma calendar_inv {S} r (s s' : S) t : calendar r s = (s', Ok t) -> s' = s /\ r = Ok t.
Proof. unfold calendar. intros [-> H]%lift_inv. by destruct r; simplify_eq. Qed.

Lemma address_inv t a s s' addr :
  _address t a s = (s', Ok addr) ->
  s' = s /\ addresses s !! a = Some addr /\ address_tenant addr = t.
Proof.
  unfold _address. repeat case_match; intros [= <- <-]; bool_hyps; naive_solver.
Qed.

(** What an inbound STOP leaves in the store. *)
Lemma stop_writes t a k se b so ac ttl m i si ri s s1 x :
  record_inbound_opt_out t a k se b so ac ttl m i si ri s = (s1, Ok x) ->
  exists addr f srow rrow,
    addresses s !! a = Some addr /\ address_tenant addr = t
    /\ consent_records s1 = append_all (consent_records s) (map f PURPOSES)
    /\ address_suppressions s1 = append (address_suppressions s) srow
    /\ address_usability_decisions s1 = address_usability_decisions s
    /\ provider_reachability_events s1 = append (provider_reachability_events s) rrow
    /\ (forall p, withdrawal t a (address_channel addr) m p (f p))
    /\ (Suppression.tenant_id srow = t /\ Suppression.address_id srow = a
        /\ Suppression.channel srow = address_channel addr /\ Suppression.sender_id srow = se
        /\ Suppression.state srow = "suppressed_by_optout" /\ Suppression.recorded_at srow = m)
    /\ (Reachability.tenant_id rrow = t /\ Reachability.address_id rrow = a
        /\ Reachability.channel rrow = address_channel addr /\ Reachability.sender_id rrow = se
        /\ Reachability.state rrow = "blocked_by_provider" /\ Reachability.recorded_at rrow = m).
Proof.
  unfold record_inbound_opt_out. generalize PURPOSES as ps. intros ps H.
  step_ok H. apply lift_inv in E as [-> _].
  step_ok H. apply calendar_inv in E as [-> _].
  step_ok H. apply lift_inv in E as [-> _].
  apply transaction_inv in H.
  step_ok H. apply address_inv in E as (-> & Haddr & Ht).
  step_ok H. unfold _insert_consent in E. apply insert_withdrawals_ok in E as [-> ->].
  step_ok H. apply insert_row_ok in E as [-> ->].
  step_ok H. apply insert_row_ok in E as [-> ->].
  injection H as <- <-.
  eexists _, _, _, _. split; [done|]. split; [done|].
  repeat (split; [reflexivity|]). split; [by split|]. split; by repeat split.
Qed.

Lemma insert_withdrawals_ext f g ps s :
  (forall p s, f p s = g p s) -> insert_withdrawals f ps s = insert_withdrawals g ps s.
Proof.
  intros Hfg. revert s. induction ps as [|p ps IH]; intros s; [done|]. simpl.
  unfold stm_bind. rewrite Hfg. destruct (g p s) as [s' [r|e]]; [|done]. by rewrite IH.
Qed.

(** The same when the retention date is computed before each insert. *)
Lemma insert_withdrawals_calendar r (f : Z -> string -> ConsentRecord.t) ps s s' rs :
  insert_withdrawals (fun p => stm_bind (calendar r) (fun ret => insert_row (f ret p))) ps s
    = (s', Ok rs) ->
  exists ret, rs = map (f ret) ps
    /\ s' = set_table (append_all (consent_records s) (map (f ret) ps)) s.
Proof.
  destruct r as [ret|e].
  - intros H. exists ret. apply insert_withdrawals_ok. rewrite <- H.
    by apply insert_withdrawals_ext.
  - destruct ps as [|p ps]; [|done]. intros [= <- <-]. exists 0. by destruct s.
Qed.

Lemma opt_out_writes configured t a p ac so w sc m i s s1 x :
  record_opt_out configured t a p ac so w sc m i s = (s1, Ok x) ->
  exists addr f scope,
    addresses s !! a = Some addr /\ address_tenant addr = t
    /\ str_in p PURPOSES = true
    /\ resolve_revocation_scope m (or_else sc configured) = Ok scope
    /\ s1 = set_table (append_all (consent_records s) (map f (purposes_reached_by p scope))) s
    /\ (forall q, withdrawal t a (address_channel addr) m q (f q)).
Proof.
  unfold record_opt_out. intros H.
  step_ok H. apply lift_inv in E as [-> _].
  step_ok H. apply lift_inv in E as [-> Hp]. apply guard_or_ok in Hp.
  step_ok H. apply lift_inv in E as [-> Hsc].
  apply transaction_inv in H.
  step_ok H. apply address_inv in E as (-> & Haddr & Ht).
  unfold _insert_consent in H. apply insert_withdrawals_calendar in H as (ret & -> & ->).
  eexists _, _, _. repeat (split; [done|]). by split.
Qed.

(** ** The theorems about each method *)

(** No row of the address was recorded after [m]: the clock did not run
    backwards. *)
Definition quiet_since (s : db) (t a : string) (m : Z) : Prop :=
  (forall x, x ∈ rows (consent_records s) -> ConsentRecord.tenant_id x.2 = t ->
     ConsentRecord.address_id x.2 = a -> ConsentRecord.recorded_at x.2 <= m)
  /\ (forall x, x ∈ rows (address_suppressions s) -> Suppression.tenant_id x.2 = t ->
     Suppression.address_id x.2 = a -> Suppression.recorded_at x.2 <= m)
  /\ (forall x, x ∈ rows (provider_reachability_events s) -> Reachability.tenant_id x.2 = t ->
     Reachability.address_id x.2 = a -> Reachability.recorded_at x.2 <= m).

Lemma append_as_all {R} (l : ledger R) r : append l r = append_all l [r].
Proof. done. Qed.

(** The query a reading of one ledger runs, as a predicate on rows. *)
Definition consent_query (t a ch p : string) (r : ConsentRecord.t) : bool :=
  String.eqb (ConsentRecord.tenant_id r) t && String.eqb (ConsentRecord.address_id r) a
  && String.eqb (ConsentRecord.channel r) ch && String.eqb (ConsentRecord.purpose r) p.
Definition suppression_query (t a ch : string) (sender : option string) (r : Suppression.t) : bool :=
  String.eqb (Suppression.tenant_id r) t && String.eqb (Suppression.address_id r) a
  && String.eqb (Suppression.channel r) ch && sender_in_scope (Suppression.sender_id r) sender.
Definition reachability_query (t a ch : string) (sender : option string) (r : Reachability.t) : bool :=
  String.eqb (Reachability.tenant_id r) t && String.eqb (Reachability.address_id r) a
  && String.eqb (Reachability.channel r) ch && sender_in_scope (Reachability.sender_id r) sender.

Lemma consent_query_spec t a ch p r :
  consent_query t a ch p r = true <->
  ConsentRecord.tenant_id r = t /\ ConsentRecord.address_id r = a
  /\ ConsentRecord.channel r = ch /\ ConsentRecord.purpose r = p.
Proof. unfold consent_query. rewrite !andb_true_iff, !String.eqb_eq. tauto. Qed.

Lemma consent_query_decision t a ch p r r' :
  decision r = decision r' -> consent_query t a ch p r = consent_query t a ch p r'.
Proof.
  intros E.
  assert (consent_query t a ch p (decision r) = consent_query t a ch p (decision r')) as H
    by (by rewrite E).
  exact H.
Qed.

Lemma withdrawn_newest s t a ch m f ps p :
  wf_ledger (consent_records s) -> quiet_since s t a m ->
  (forall q, withdrawal t a ch m q (f q)) -> p ∈ ps ->
  exists i, newest (List.filter (fun x => consent_query t a ch p x.2)
                      (rows (append_all (consent_records s) (map f ps)))) (i, f p).
Proof.
  intros Hwf (Hq & _ & _) Hf Hp. apply (appended_newest _ _ _ _ m); [done|..].
  - intros y Hy (Ht & Ha & _)%consent_query_spec. by apply Hq.
  - by apply list_elem_of_fmap_2.
  - apply consent_query_spec. by destruct (Hf p).
  - exact (withdrawal_time _ _ _ _ _ _ (Hf p)).
  - intros r' (q & -> & Hq')%list_elem_of_fmap (_ & _ & _ & E)%consent_query_spec.
    rewrite (withdrawal_purpose _ _ _ _ _ _ (Hf q)) in E. by subst.
Qed.

Lemma suppression_query_spec t a ch sender r :
  suppression_query t a ch sender r = true <->
  Suppression.tenant_id r = t /\ Suppression.address_id r = a
  /\ Suppression.channel r = ch /\ sender_in_scope (Suppression.sender_id r) sender = true.
Proof. unfold suppression_query. rewrite !andb_true_iff, !String.eqb_eq. tauto. Qed.

Lemma reachability_query_spec t a ch sender r :
  reachability_query t a ch sender r = true <->
  Reachability.tenant_id r = t /\ Reachability.address_id r = a
  /\ Reachability.channel r = ch /\ sender_in_scope (Reachability.sender_id r) sender = true.
Proof. unfold reachability_query. rewrite !andb_true_iff, !String.eqb_eq. tauto. Qed.

(** After any further calls, the reading is the row that was newest, or one
    written since; a row written since in a permissive state has its call. *)
Section superseded.
Context (configured : option string) (cs : list call) (s : db) (Hwf : wf_db s).
Let s' := run_all configured cs s.

Lemma superseded {R} `{LedgerLaws R} (f : R -> bool) (P : R -> Prop) (l l' : ledger R) x :
  wf_ledger l -> grow P l l' ->
  (forall r r', decision r = decision r' -> f r = f r') ->
  newest (List.filter (fun y => f (snd y)) (rows l)) x ->
  exists q, _latest (List.filter (fun y => f (snd y)) (rows l')) = Some q
    /\ (decision q = decision (snd x) \/ P q).
Proof.
  intros Hl Hg Hf Hx.
  destruct (_latest (List.filter (fun y => f y.2) (rows l'))) as [q|] eqn:E.
  - exists q. split; [done|]. by eapply (newest_since P f l l').
  - exfalso. apply latest_none in E. destruct Hx as [[Hx Hfx]%elem_of_std_filter _].
    destruct (grow_keeps _ _ _ Hg x Hx) as (y & Hy & _ & Ed).
    assert (y ∈ List.filter (fun y => f y.2) (rows l')) as Hin
      by (apply elem_of_std_filter; by rewrite (Hf _ _ Ed)).
    rewrite E in Hin. by apply elem_of_nil in Hin.
Qed.

Lemma consent_superseded t a ch p x :
  newest (List.filter (fun y => consent_query t a ch p y.2) (rows (consent_records s))) x ->
  exists q, _latest (consent_rows s' t a ch p) = Some q
    /\ (ConsentRecord.state q = ConsentRecord.state x.2 \/ on_consent (permitted cs) q).
Proof.
  intros Hx. destruct (run_all_grows configured cs s Hwf) as [_ Hg].
  destruct (superseded _ _ _ _ x (wf_consent _ Hwf) (grows_consent _ _ _ Hg)
    (consent_query_decision t a ch p) Hx) as (q & Hq & [E|HP]).
  - exists q. split; [exact Hq|]. left.
    by apply (f_equal ConsentRecord.state) in E.
  - exists q. split; [exact Hq|]. by right.
Qed.

Lemma suppression_superseded t a ch sender x :
  newest (List.filter (fun y => suppression_query t a ch sender y.2)
            (rows (address_suppressions s))) x ->
  exists q, _latest (suppression_rows s' t a ch sender) = Some q
    /\ (Suppression.state q = Suppression.state x.2 \/ on_suppression (permitted cs) q).
Proof.
  intros Hx. destruct (run_all_grows configured cs s Hwf) as [_ Hg].
  destruct (superseded (suppression_query t a ch sender) _ _ _ x (wf_suppression _ Hwf)
    (grows_suppression _ _ _ Hg)) as (q & Hq & [E|HP]); [by intros ? ? [=->]|done|..].
  - exists q. split; [exact Hq|]. left. by apply (f_equal Suppression.state) in E.
  - exists q. split; [exact Hq|]. by right.
Qed.

Lemma reachability_superseded t a ch sender x :
  newest (List.filter (fun y => reachability_query t a ch sender y.2)
            (rows (provider_reachability_events s))) x ->
  exists q, _latest (reachability_rows s' t a ch sender) = Some q
    /\ (Reachability.state q = Reachability.state x.2 \/ on_reachability (permitted cs) q).
Proof.
  intros Hx. destruct (run_all_grows configured cs s Hwf) as [_ Hg].
  destruct (superseded (reachability_query t a ch sender) _ _ _ x (wf_reachability _ Hwf)
    (grows_reachability _ _ _ Hg)) as (q & Hq & [E|HP]); [by intros ? ? [=->]|done|..].
  - exists q. split; [exact Hq|]. left. by apply (f_equal Reachability.state) in E.
  - exists q. split; [exact Hq|]. by right.
Qed.
End superseded.


Lemma restart_writes t a k se so m i s s1 x :
  record_provider_restart t a k se so m i s = (s1, Ok x) ->
  Reachability.state x = "reachable"
  /\ s1 = set_table (append (provider_reachability_events s) x) s.
Proof.
  unfold record_provider_restart. intros H.
  step_ok H. apply lift_inv in E as [-> _].
  apply transaction_inv in H.
  step_ok H. apply address_inv in E as (-> & _ & _).
  step_ok H. apply calendar_inv in E as [-> _].
  apply insert_row_ok in H as [-> ->]. by split.
Qed.

(** Appending one row changes a query's newest row to nothing but that row. *)
Lemma append_latest {R} `{LedgerLaws R} (f : R -> bool) l r :
  NoDup (rows l).*1 ->
  let q := fun x : Z * R => f (snd x) in
  _latest (List.filter q (rows (append l r))) = _latest (List.filter q (rows l))
  \/ _latest (List.filter q (rows (append l r))) = Some r.
Proof.
  intros Hnd q. simpl. rewrite List.filter_app.
  destruct (_latest (List.filter q (rows l) ++ _)) as [z|] eqn:E.
  - apply latest_newest in E as ([i z'] & [[Hin|Hin]%elem_of_app Hmax] & Ez); simpl in Ez; subst z'.
    + left. symmetry.
      apply (newest_latest _ (i, z)); [by apply filter_sequence|].
      split; [done|]. intros y Hy. apply Hmax, elem_of_app. by left.
    + right. apply elem_of_std_filter in Hin as [Hin _].
      apply list_elem_of_singleton in Hin. by injection Hin as _ ->.
  - left. apply latest_none, app_eq_nil in E as [-> _]. symmetry. by apply latest_none.
Qed.

(** A provider restart is not consent.  [record_provider_restart] leaves
    the consent, suppression and usability readings of every address exactly
    as they were; a verdict it did not find blocked by the carrier keeps its
    outcome and its reason, and one it makes eligible was held back by the
    carrier alone. *)
Theorem restart_is_not_consent configured addresses cs s s1 t a k se so m i x :
  s = run_all configured cs (undecided addresses) ->
  record_provider_restart t a k se so m i s = (s1, Ok x) ->
  (forall t' a' ch p now, consent_state s1 t' a' ch p now = consent_state s t' a' ch p now)
  /\ (forall t' a' ch sender, suppression_state s1 t' a' ch sender = suppression_state s t' a' ch sender)
  /\ (forall t' a', usability_state s1 t' a' = usability_state s t' a')
  /\ (forall t' a' ch p sender now d d',
        evaluate_eligibility (view_of s) t' a' ch p sender now = Ok d ->
        evaluate_eligibility (view_of s1) t' a' ch p sender now = Ok d' ->
        (eligible d', reason d') = (eligible d, reason d)
        \/ reason d = "provider_unreachable").
Proof.
  intros Hs H. apply restart_writes in H as [Hx ->].
  assert (wf_db s) as Hwf by (subst s; apply run_all_grows, undecided_wf).
  split; [done|]. split; [done|]. split; [done|].
  intros t' a' ch p sender now d d' Hd Hd'.
  apply evaluate_ok in Hd as (Hv & Hc & Hsu & Hu & Hr).
  apply evaluate_ok in Hd' as (Hv' & Hc' & Hsu' & Hu' & Hr').
  change (consent_state s t' a' ch p now = Ok (consent (readings d'))) in Hc'.
  change (suppression_state s t' a' ch sender = Ok (suppression (readings d'))) in Hsu'.
  change (usability_state s t' a' = Ok (usability (readings d'))) in Hu'.
  simpl in Hc, Hsu, Hu. rewrite Hc in Hc'. rewrite Hsu in Hsu'. rewrite Hu in Hu'.
  injection Hc' as Ec. injection Hsu' as Es. injection Hu' as Eu.
  apply provider_reachability_ok in Hr as [Hrow Hst], Hr' as [Hrow' Hst'].
  assert (state (reachability (readings d')) = state (reachability (readings d))
          \/ state (reachability (readings d')) = "reachable") as Hreach.
  { destruct (append_latest (reachability_query t' a' ch sender) (provider_reachability_events s) x
      (wf_sequence _ (wf_reachability _ Hwf))) as [E|E].
    - left. rewrite Hst, Hst', Hrow, Hrow'. simpl. unfold reachability_rows. simpl.
      simpl in E. unfold reachability_query in E. by rewrite E.
    - right. rewrite Hst', Hrow'. simpl. unfold reachability_rows. simpl.
      simpl in E. unfold reachability_query in E. by rewrite E. }
  rewrite Hv', Hv. assert (reason d = (verdict (readings d)).2) as -> by (by rewrite <- Hv).
  unfold verdict. rewrite <- Ec, <- Es, <- Eu.
  destruct Hreach as [-> | ->]; [by left|].
  change (String.eqb "reachable" "reachable") with true. cbn [negb].
  destruct (negb (String.eqb (state (usability (readings d))) "active")); [by left|].
  destruct (negb (String.eqb (state (suppression (readings d))) "none")); [by left|].
  destruct (negb (String.eqb (state (reachability (readings d))) "reachable")); [by right|by left].
Qed.

Lemma resolve_scope_spec m c scope :
  resolve_revocation_scope m c = Ok scope ->
  scope = if CROSS_TOPIC_REVOCATION_EFFECTIVE <=? m then "cross_topic" else default "program" c.
Proof.
  unfold resolve_revocation_scope. intros [u [Hc H]]%result_bind_ok.
  case_match; [by injection H as <-|]. destruct c as [c|]; [|by injection H as <-].
  destruct (truthy (Some c)) eqn:E; [by injection H as <-|]. exfalso.
  unfold truthy, truthy_option, truthy, truthy_string in E. bool_hyps. subst c. discriminate Hc.
Qed.

(** An opt-out withdraws exactly the purposes its scope reaches.  After
    [record_opt_out] succeeds, every reached purpose reads "withdrawn" on the
    address's channel, at any later time; the reading of every other purpose,
    and everything about suppression, usability and reachability, is
    untouched.  Until 31 January 2027 the configured scope decides (a
    program by default); from then on the scope is every purpose. *)
Theorem opt_out_reaches_scope configured addresses cs s s1 x t a p actor source why sc m i addr :
  s = run_all configured cs (undecided addresses) -> quiet_since s t a m ->
  Consent.addresses s !! a = Some addr ->
  record_opt_out configured t a p actor source why sc m i s = (s1, Ok x) ->
  let scope := if CROSS_TOPIC_REVOCATION_EFFECTIVE <=? m then "cross_topic"
               else default "program" (or_else sc configured) in
  (forall q, q ∈ purposes_reached_by p scope -> forall now,
     exists r, consent_state s1 t a (address_channel addr) q now
                 = Ok {| state := "withdrawn"; row := Some r |}
       /\ ConsentRecord.recorded_at r = m)
  /\ (forall t' a' ch q now, q ∉ purposes_reached_by p scope \/ t' <> t \/ a' <> a
        \/ ch <> address_channel addr ->
        consent_state s1 t' a' ch q now = consent_state s t' a' ch q now)
  /\ (CROSS_TOPIC_REVOCATION_EFFECTIVE <= m -> forall q, q ∈ PURPOSES ->
        q ∈ purposes_reached_by p scope)
  /\ address_suppressions s1 = address_suppressions s
  /\ address_usability_decisions s1 = address_usability_decisions s
  /\ provider_reachability_events s1 = provider_reachability_events s.
Proof.
  intros Hs Hq Haddr H scope.
  assert (wf_db s) as Hwf by (subst s; apply run_all_grows, undecided_wf).
  pose proof (opt_out_appends configured [] t a p actor source why sc m i s Hwf) as [Hwf1 _].
  rewrite H in Hwf1. simpl in Hwf1.
  assert (truthy t = true) as Ht0.
  { unfold record_opt_out in H. step_ok H. apply lift_inv in E as [_ E]. by apply guard_or_ok in E. }
  apply opt_out_writes in H as (addr' & f & scope' & Ea & _ & Hp & Hsc & -> & Hf).
  rewrite Haddr in Ea. injection Ea as <-.
  apply resolve_scope_spec in Hsc. fold scope in Hsc. subst scope'.
  assert (forall q, q ∈ purposes_reached_by p scope -> q ∈ PURPOSES) as Hsub.
  { intros q. generalize scope as sc0. intros sc0. unfold purposes_reached_by.
    destruct (String.eqb sc0 "cross_topic"); [done|]. destruct (String.eqb sc0 "topic").
    - by intros [? _]%elem_of_std_filter.
    - intros ->%list_elem_of_singleton. by apply str_in_spec. }
  split; [|split; [|split; [|done]]].
  - intros q Hin now.
    destruct (withdrawn_newest s t a (address_channel addr) m f _ q (wf_consent _ Hwf) Hq Hf Hin)
      as [j Hj].
    exists (f q). split; [|apply (withdrawal_time _ _ _ _ _ _ (Hf q))].
    unfold consent_state, _require_tenant, _require_purpose. rewrite Ht0.
    replace (str_in q PURPOSES) with true by (symmetry; apply str_in_spec; auto).
    assert (_latest (consent_rows (set_table (append_all (consent_records s)
      (map f (purposes_reached_by p scope))) s) t a (address_channel addr) q) = Some (f q)) as E.
    { apply (newest_latest _ (j, f q)); [|exact Hj].
      apply filter_sequence. apply (wf_sequence _ (wf_consent _ Hwf1)). }
    unfold guard_or. cbn [mbind result_bind]. rewrite E.
    by rewrite (withdrawal_state _ _ _ _ _ _ (Hf q)).
  - intros t' a' ch q now Hne. unfold consent_state.
    replace (consent_rows (set_table (append_all (consent_records s)
      (map f (purposes_reached_by p scope))) s) t' a' ch q) with (consent_rows s t' a' ch q); [done|].
    symmetry. unfold consent_rows. simpl.
    apply (append_all_filter (consent_query t' a' ch q)).
    intros r (q' & -> & Hq')%list_elem_of_fmap.
    apply not_true_iff_false. intros (E1 & E2 & E3 & E4)%consent_query_spec.
    destruct (Hf q') as [W1 W2 W3 W4 _ _].
    rewrite W1 in E1. rewrite W2 in E2. rewrite W3 in E3. rewrite W4 in E4. subst.
    by destruct Hne as [?|[?|[?|?]]].
  - intros Hm q Hin. unfold purposes_reached_by, scope.
    replace (CROSS_TOPIC_REVOCATION_EFFECTIVE <=? m) with true by (symmetry; by apply Z.leb_le).
    done.
Qed.

(** ** The content purge *)

Lemma redact_checks m r : ConsentRecord.checks r = true -> ConsentRecord.checks (redact m r) = true.
Proof.
  unfold ConsentRecord.checks. rewrite (andb_true_iff _ (negb _ || _)). intros [H _].
  apply andb_true_iff. split; [exact H|done].
Qed.

Lemma redact_allowed m r : ConsentRecord.mutation_allowed r (redact m r) = true.
Proof.
  unfold ConsentRecord.mutation_allowed. simpl. rewrite !andb_true_r.
  apply bool_decide_true. by destruct r.
Qed.

(** One update redacts the matching rows and touches nothing else. *)
Definition redact_if (sel : ConsentRecord.t -> bool) (m : Z) (x : Z * ConsentRecord.t) :=
  if sel (snd x) then (fst x, redact m (snd x)) else x.

Lemma update_content_ok t id m s :
  (forall x, x ∈ rows (consent_records s) -> row_checks (snd x) = true) ->
  update_content t id m s =
    (set_table {| rows := map (redact_if (matches_id t id) m) (rows (consent_records s));
                  next_sequence := next_sequence (consent_records s) |} s, Ok tt).
Proof.
  intros Hck. unfold update_content. rewrite (proj2 (forallb_forall _ _)); [done|].
  intros x Hx. apply list_elem_of_In in Hx. rewrite redact_allowed.
  rewrite redact_checks by (by apply Hck). apply orb_true_r.
Qed.

Definition matches_ids (t : string) (ids : list string) (r : ConsentRecord.t) : bool :=
  existsb (fun id => matches_id t id r) ids.

Lemma redact_if_nil m (l : list (Z * ConsentRecord.t)) t : map (redact_if (matches_ids t []) m) l = l.
Proof. induction l as [|x l IH]; [done|]. simpl. by rewrite IH. Qed.

Lemma update_all_ok t ids m s :
  (forall x, x ∈ rows (consent_records s) -> row_checks (snd x) = true) ->
  stm_iter (fun id => update_content t id m) ids s =
    (set_table {| rows := map (redact_if (matches_ids t ids) m) (rows (consent_records s));
                  next_sequence := next_sequence (consent_records s) |} s, Ok tt).
Proof.
  revert s. induction ids as [|id ids IH]; intros s Hck; simpl.
  { unfold stm_ret. rewrite redact_if_nil. by destruct s as [? [] ? ? ?]. }
  unfold stm_bind. rewrite update_content_ok by done. rewrite IH.
  - simpl. rewrite map_map. do 3 f_equal. apply map_ext. intros x.
    unfold redact_if, matches_ids. simpl.
    destruct (matches_id t id x.2) eqn:E; simpl; [|done]. by case_match.
  - intros x (y & -> & Hy)%list_elem_of_fmap. unfold redact_if.
    case_match; [apply redact_checks|]; by apply Hck.
Qed.

Lemma map_redact_due t m l :
  NoDup (row_id ∘ snd <$> l) ->
  map (redact_if (matches_ids t (map ConsentRecord.consent_record_id
         (List.filter (content_due t m) (map snd l)))) m) l
  = map (redact_if (content_due t m) m) l.
Proof.
  intros Hnd. apply map_ext_in. intros x Hx%list_elem_of_In. unfold redact_if.
  replace (matches_ids _ _ x.2) with (content_due t m x.2); [done|].
  apply eq_true_iff_eq. unfold matches_ids. rewrite existsb_exists. split.
  - intros Hd. exists (ConsentRecord.consent_record_id x.2). split.
    + apply in_map, filter_In. split; [|done]. apply in_map. by apply list_elem_of_In.
    + unfold content_due in Hd. bool_hyps. unfold matches_id.
      by apply andb_true_iff; split; apply String.eqb_eq.
  - intros (id & Hid & Hm). apply in_map_iff in Hid as (r & <- & Hr).
    apply filter_In in Hr as [Hr Hd]. apply in_map_iff in Hr as (y & <- & Hy).
    apply list_elem_of_In in Hy. unfold matches_id in Hm. bool_hyps.
    enough (x = y) by (by subst).
    apply list_elem_of_lookup_1 in Hx as [i Hi], Hy as [j Hj].
    assert (i = j) as ->; [|naive_solver].
    eapply (NoDup_lookup (row_id ∘ snd <$> l)); [done|..]; rewrite list_lookup_fmap.
    + by rewrite Hi.
    + rewrite Hj. simpl. by f_equal.
Qed.

(** Keys are preserved, so the newest row stays the newest. *)
Lemma latest_map {R} `{LedgerLaws R} (g : Z * R -> Z * R) (f : R -> bool) l :
  NoDup l.*1 -> (forall x, same (g x) x) ->
  (forall r r', decision r = decision r' -> f r = f r') ->
  _latest (List.filter (fun x => f (snd x)) (map g l)) = None
    /\ _latest (List.filter (fun x => f (snd x)) l) = None
  \/ exists x, _latest (List.filter (fun x => f (snd x)) l) = Some (snd x)
       /\ _latest (List.filter (fun x => f (snd x)) (map g l)) = Some (snd (g x)).
Proof.
  intros Hnd Hg Hf.
  assert (List.filter (fun x => f x.2) (map g l) = map g (List.filter (fun x => f x.2) l)) as ->.
  { induction l as [|x l IH]; [done|]. simpl. rewrite (Hf _ _ (proj2 (Hg x))).
    apply NoDup_cons in Hnd as [_ Hnd]. specialize (IH Hnd). destruct (f x.2); simpl; by rewrite IH. }
  assert (NoDup (List.filter (fun x => f x.2) l).*1) as Hnd' by (by apply filter_sequence).
  revert Hnd'. generalize (List.filter (fun x => f x.2) l) as l0. intros l0 Hnd'.
  destruct (_latest l0) as [z|] eqn:E.
  - right. apply latest_newest in E as (x & [Hin Hmax] & <-). exists x. split; [done|].
    apply (newest_latest _ (g x)).
    + change (map g l0) with (g <$> l0). rewrite <- list_fmap_compose.
      erewrite list_fmap_ext; [exact Hnd'|]. intros ? y _. apply Hg.
    + split; [by apply list_elem_of_fmap_2|].
      intros y (y' & -> & Hy')%list_elem_of_fmap. specialize (Hmax y' Hy').
      destruct (Hg y') as [E1 E2], (Hg x) as [E3 E4]. unfold key_le in *.
      rewrite <- (decision_time (g y').2), <- (decision_time (g x).2), E1, E2, E3, E4, !decision_time.
      done.
  - left. apply latest_none in E. subst l0. done.
Qed.

(** The verdict reads a consent row's decision, not its content. *)
Lemma consent_state_redacted s s' f t a ch p now rd :
  wf_db s ->
  rows (consent_records s') = map f (rows (consent_records s)) -> (forall x, same (f x) x) ->
  consent_state s t a ch p now = Ok rd ->
  exists rd', consent_state s' t a ch p now = Ok rd' /\ state rd' = state rd.
Proof.
  intros Hwf Hrows Hf H. unfold consent_state in *.
  apply result_bind_ok in H as [[] [-> H]]. apply result_bind_ok in H as [[] [-> H]].
  cbn [mbind result_bind].
  assert (consent_rows s' t a ch p
          = List.filter (fun x => consent_query t a ch p x.2) (map f (rows (consent_records s)))) as ->
    by (by rewrite <- Hrows).
  destruct (latest_map f (consent_query t a ch p) _ (wf_sequence _ (wf_consent _ Hwf)) Hf
    (consent_query_decision t a ch p)) as [[E1 E2]|(x & E1 & E2)].
  - rewrite E1. replace (_latest (consent_rows s t a ch p)) with (@None ConsentRecord.t) in H by done.
    eexists. split; [done|]. by injection H as <-.
  - rewrite E2. replace (_latest (consent_rows s t a ch p)) with (Some x.2) in H by done.
    eexists. split; [done|]. injection H as <-. simpl.
    pose proof (proj2 (Hf x)) as E.
    pose proof (f_equal ConsentRecord.state E) as Es.
    pose proof (f_equal ConsentRecord.expires_at E) as Ee. simpl in Es, Ee. by rewrite Es, Ee.
Qed.

(** The purge removes message bodies and nothing else.
    [purge_expired_content] always succeeds for a bound tenant; it returns
    the identifiers of exactly the rows that were due, redacts their body and
    stamps the purge, leaves every other column of every row, every other
    ledger and the order of the rows alone, leaves nothing due, and changes
    no eligibility verdict. *)
Theorem purge_redacts_only_due_content configured addresses cs s t m :
  s = run_all configured cs (undecided addresses) -> truthy t = true ->
  exists s' ids, purge_expired_content t m s = (s', Ok ids)
    /\ (forall id, id ∈ ids <-> exists x, x ∈ rows (consent_records s)
          /\ content_due t m x.2 = true /\ ConsentRecord.consent_record_id x.2 = id)
    /\ rows (consent_records s')
         = map (fun x => if content_due t m x.2 then (x.1, redact m x.2) else x)
             (rows (consent_records s))
    /\ address_suppressions s' = address_suppressions s
    /\ address_usability_decisions s' = address_usability_decisions s
    /\ provider_reachability_events s' = provider_reachability_events s
    /\ (forall x, x ∈ rows (consent_records s') -> content_due t m x.2 = false)
    /\ (forall t' a ch p sender now d,
          evaluate_eligibility (view_of s) t' a ch p sender now = Ok d ->
          exists d', evaluate_eligibility (view_of s') t' a ch p sender now = Ok d'
            /\ eligible d' = eligible d /\ reason d' = reason d).
Proof.
  intros Hs Ht. assert (wf_db s) as Hwf by (subst s; apply run_all_grows, undecided_wf).
  unfold purge_expired_content, stm_bind at 1, lift, _require_tenant. rewrite Ht.
  cbn [guard_or]. unfold transaction, stm_bind, stm_get, stm_ret.
  rewrite update_all_ok by apply Hwf.
  rewrite map_redact_due by apply (wf_id _ (wf_consent _ Hwf)).
  eexists _, _. split; [reflexivity|]. simpl.
  split; [|split; [reflexivity|]].
  { intros id. rewrite list_elem_of_In, in_map_iff. split.
    - intros (r & <- & Hr). apply filter_In in Hr as [Hr Hd].
      apply in_map_iff in Hr as (y & <- & Hy). exists y. by rewrite list_elem_of_In.
    - intros (y & Hy & Hd & <-). exists y.2. split; [done|]. apply filter_In. split; [|done].
      apply in_map. by apply list_elem_of_In. }
  repeat (split; [done|]). split.
  - intros x (y & -> & Hy)%list_elem_of_fmap. unfold redact_if.
    destruct (content_due t m y.2) eqn:E; [|done]. unfold content_due. simpl.
    by rewrite andb_false_r.
  - intros t' a ch p sender now d Hd. apply evaluate_ok in Hd as (Hv & Hc & Hsu & Hu & Hr).
    match goal with |- context [view_of ?z] => set (s2 := z) end.
    destruct (consent_state_redacted s s2 (redact_if (content_due t m) m) t' a ch p now
      (consent (readings d)) Hwf eq_refl) as (rd & Hc' & Est); [|done|].
    { intros x. unfold redact_if, same. case_match; [|done]. split; [done|].
      apply redact_decision. }
    unfold evaluate_eligibility, axes. simpl. rewrite Hc'. cbn [mbind result_bind].
    change (suppression_state s2 t' a ch sender) with (suppression_state s t' a ch sender).
    change (usability_state s2 t' a) with (usability_state s t' a).
    change (provider_reachability s2 t' a ch sender) with (provider_reachability s t' a ch sender).
    simpl in Hsu, Hu, Hr. rewrite Hsu, Hu, Hr. eexists. split; [reflexivity|]. simpl.
    enough (verdict {| consent := rd; suppression := suppression (readings d);
      usability := usability (readings d); reachability := reachability (readings d) |}
      = verdict (readings d)) as -> by (by rewrite <- Hv).
    unfold verdict. simpl. by rewrite Est.
Qed.

(** ** Row order *)

Lemma latest_same_rows {R} `{LedgerLaws R} (f : Z * R -> bool) l l' :
  NoDup l.*1 -> l ≡ₚ l' -> _latest (List.filter f l) = _latest (List.filter f l').
Proof.
  intros Hnd Hp.
  destruct (_latest (List.filter f l)) as [z|] eqn:E.
  - symmetry. apply latest_newest in E as (x & [[Hin Hfx]%elem_of_std_filter Hmax] & <-).
    apply newest_latest; [by apply filter_sequence; rewrite <- Hp|]. split.
    + apply elem_of_std_filter. by rewrite <- Hp.
    + intros y [Hy Hfy]%elem_of_std_filter. apply Hmax, elem_of_std_filter. by rewrite Hp.
  - symmetry. apply latest_none. apply latest_none in E.
    destruct (List.filter f l') as [|x r] eqn:E'; [done|]. exfalso.
    assert (x ∈ List.filter f l') as Hx by (rewrite E'; by left).
    apply elem_of_std_filter in Hx as [Hx Hfx].
    assert (x ∈ List.filter f l) as Hx' by (apply elem_of_std_filter; by rewrite Hp).
    rewrite E in Hx'. by apply elem_of_nil in Hx'.
Qed.

(** The same rows, returned by the store in another order. *)
Record reordered (s s' : db) : Prop := {
  reordered_consent : rows (consent_records s) ≡ₚ rows (consent_records s');
  reordered_suppression : rows (address_suppressions s) ≡ₚ rows (address_suppressions s');
  reordered_usability :
    rows (address_usability_decisions s) ≡ₚ rows (address_usability_decisions s');
  reordered_reachability :
    rows (provider_reachability_events s) ≡ₚ rows (provider_reachability_events s');
}.

(** The queries have no [order by], and the verdict does not need one:
    whatever order the store returns the rows in, ties on [recorded_at]
    included, every reading and the whole eligibility decision are the
    same. *)
Theorem eligibility_ignores_row_order configured addresses cs s s' t a ch p sender now :
  s = run_all configured cs (undecided addresses) -> reordered s s' ->
  evaluate_eligibility (view_of s') t a ch p sender now
    = evaluate_eligibility (view_of s) t a ch p sender now.
Proof.
  intros Hs [Hc Hsu Hu Hr].
  assert (wf_db s) as [W1 W2 W3 W4 _] by (subst s; apply run_all_grows, undecided_wf).
  unfold evaluate_eligibility, axes, consent_state, suppression_state, usability_state,
    provider_reachability, consent_rows, suppression_rows, usability_rows, reachability_rows, view_of.
  cbn [at_consent at_suppression at_usability at_reachability].
  rewrite (latest_same_rows _ _ _ (wf_sequence _ W1) Hc).
  rewrite (latest_same_rows _ _ _ (wf_sequence _ W2) Hsu).
  rewrite (latest_same_rows _ _ _ (wf_sequence _ W3) Hu).
  by rewrite (latest_same_rows _ _ _ (wf_sequence _ W4) Hr).
Qed.

(** The update trigger does not compare [content_expires_at]: an update that
    redacts the body may also move that date. *)
Lemma trigger_lets_expiry_move r m e :
  ConsentRecord.mutation_allowed r (ConsentRecord.with_expiry (redact m r) e) = true.
Proof.
  unfold ConsentRecord.mutation_allowed. simpl. rewrite !andb_true_r.
  apply bool_decide_true. by destruct r.
Qed.

(** ** A worked history *)

Definition ex_addresses : gmap string address :=
  {["a1" := {| contact_id := "c1"; address_tenant := "t1"; address_channel := "sms" |}]}.
Definition ex_manager : Actor :=
  {| kind := "human"; principal_id := Some "p1"; authorities := ["manage_contacts"; "administer"] |}.
Definition ex_evidence : Evidence.t := {|
  Evidence.capture_method := Some "web_form"; Evidence.captured_at := Some 0;
  Evidence.captured_at_local := Some "09:00"; Evidence.jurisdiction := Some "DO";
  Evidence.disclosure_text := Some "You agree to offers."; Evidence.legal_basis := Some "consent";
  Evidence.source := None; Evidence.capture_timezone := None;
  Evidence.default_unchecked := Some true; Evidence.expires_at := None |}.
(** 1 March 2026. *)
Definition ex_now : Z := days_from_civil 2026 3 1 * DAY.
Definition ex_approved : list call :=
  [ProposeAddress "t1" "a1" contact_actor None ex_now "u1";
   Activate "t1" "a1" ex_manager None ex_now "u2";
   Grant "t1" "a1" "marketing" ex_evidence ex_manager None ex_now "g1"].
Definition ex_db : db := run_all None ex_approved (undecided ex_addresses).
Definition ex_verdict (s : db) (sender : option string) : result con_error EligibilityDecision :=
  evaluate_eligibility (view_of s) "t1" "a1" "sms" "marketing" sender ex_now.

Definition ex_stop : db * result con_error (list ConsentRecord.t * Suppression.t) :=
  record_inbound_opt_out "t1" "a1" "STOP" (Some "+1") (Some "stop pls") "provider_webhook" None
    DEFAULT_CONTENT_TTL_SECONDS ex_now (fun p => p) "s1" "r1" ex_db.
Definition ex_back : list call :=
  [Lift "t1" "a1" ex_manager None (Some "+1") "operator" ex_now "s2";
   RestartKeyword "t1" "a1" "START" (Some "+1") "provider_webhook" ex_now "r2";
   Grant "t1" "a1" "marketing" ex_evidence ex_manager None ex_now "g2"].
Definition ex_restart : db * result con_error Reachability.t :=
  record_provider_restart "t1" "a1" "START" (Some "+1") "provider_webhook" ex_now "r2" ex_stop.1.
Definition ex_opt_out : db * result con_error (list ConsentRecord.t) :=
  record_opt_out None "t1" "a1" "utility" None None None (Some "topic") ex_now (fun p => p) ex_db.

Example ex_verdicts :
  (d ← ex_verdict ex_db (Some "+1"); Ok (eligible d, reason d)) = Ok (true, "eligible")
  /\ (d ← ex_verdict ex_stop.1 (Some "+1"); Ok (eligible d, reason d))
     = Ok (false, "suppressed_by_optout")
  /\ (d ← ex_verdict ex_stop.1 (Some "+2"); Ok (eligible d, reason d))
     = Ok (false, "consent_withdrawn")
  /\ (d ← ex_verdict ex_restart.1 (Some "+1"); Ok (eligible d, reason d))
     = Ok (false, "suppressed_by_optout")
  /\ (d ← ex_verdict (run_all None ex_back ex_stop.1) (Some "+1"); Ok (eligible d, reason d))
     = Ok (true, "eligible")
  /\ (d ← ex_verdict ex_opt_out.1 (Some "+1"); Ok (eligible d, reason d)) = Ok (true, "eligible")
  /\ _plus_years (days_from_civil 2024 2 29 * DAY) 5 = Ok (days_from_civil 2029 3 1 * DAY).
Proof. vm_compute. repeat split. Qed.

Definition says_yes (r : result con_error EligibilityDecision) : bool :=
  match r with Ok d => eligible d | Err _ => false end.
Lemma says_yes_inv r : says_yes r = true -> exists d, r = Ok d /\ eligible d = true.
Proof. destruct r as [d|]; [by exists d|done]. Qed.

Lemma ex_db_yes : says_yes (ex_verdict ex_db (Some "+1")) = true.
Proof. by vm_compute. Qed.
Lemma ex_back_yes : says_yes (ex_verdict (run_all None ex_back ex_stop.1) (Some "+1")) = true.
Proof. by vm_compute. Qed.

Lemma ex_quiet_db : quiet_since ex_db "t1" "a1" ex_now.
Proof.
  split; [|split]; intros x Hx; vm_compute in Hx; intros _ _;
    repeat (apply elem_of_cons in Hx as [->|Hx]; [by vm_compute|]); by apply elem_of_nil in Hx.
Qed.

Lemma eligible_is_authorised_witness :
  exists c r, c ∈ ex_approved /\ grants c r /\ ConsentRecord.purpose r = "marketing".
Proof.
  destruct (says_yes_inv _ ex_db_yes) as (d & Hd & He).
  destruct (eligible_is_authorised None ex_addresses ex_approved ex_approved ex_approved ex_approved
    (view_of ex_db) "t1" "a1" "sms" "marketing" (Some "+1") ex_now d
    eq_refl eq_refl eq_refl eq_refl Hd He) as ((c & r & Hc & Hg & _ & _ & _ & _ & Hp & _) & _).
  exists c, r. split; [exact Hc|]. split; [exact Hg|exact Hp].
Defined.

Lemma ex_stop_ok : is_ok ex_stop.2 = true.
Proof. by vm_compute. Qed.


Lemma ex_restart_ok : is_ok ex_restart.2 = true.
Proof. by vm_compute. Qed.

Lemma restart_is_not_consent_witness :
  consent_state ex_restart.1 "t1" "a1" "sms" "marketing" ex_now
    = consent_state ex_stop.1 "t1" "a1" "sms" "marketing" ex_now.
Proof.
  pose proof ex_restart_ok as Hok. destruct ex_restart as [s1 [x|e]] eqn:E; [|discriminate Hok].
  apply (restart_is_not_consent None ex_addresses
    (ex_approved ++ [Stop "t1" "a1" "STOP" (Some "+1") (Some "stop pls") "provider_webhook" None
      DEFAULT_CONTENT_TTL_SECONDS ex_now (fun p => p) "s1" "r1"]) ex_stop.1 s1 "t1" "a1" "START"
    (Some "+1") "provider_webhook" ex_now "r2" x eq_refl E).
Defined.

Lemma ex_opt_out_ok : is_ok ex_opt_out.2 = true.
Proof. by vm_compute. Qed.

Lemma opt_out_reaches_scope_witness :
  (exists r, consent_state ex_opt_out.1 "t1" "a1" "sms" "service" ex_now
     = Ok {| state := "withdrawn"; row := Some r |} /\ ConsentRecord.recorded_at r = ex_now)
  /\ consent_state ex_opt_out.1 "t1" "a1" "sms" "marketing" ex_now
     = consent_state ex_db "t1" "a1" "sms" "marketing" ex_now.
Proof.
  pose proof ex_opt_out_ok as Hok. destruct ex_opt_out as [s1 [x|e]] eqn:E; [|discriminate Hok].
  destruct (opt_out_reaches_scope None ex_addresses ex_approved ex_db s1 x "t1" "a1" "utility" None
    None None (Some "topic") ex_now (fun p => p)
    {| contact_id := "c1"; address_tenant := "t1"; address_channel := "sms" |}
    eq_refl ex_quiet_db eq_refl E) as (Hin & Hout & _).
  split.
  - apply Hin. apply str_in_spec. reflexivity.
  - apply Hout. left. apply str_in_false. reflexivity.
Defined.

(** The row of the marketing withdrawal, the second of [ex_stop]'s ledger. *)
Definition ex_body_due : bool :=
  existsb (fun x => content_due "t1" (ex_now + 40 * DAY) x.2
                    && String.eqb (ConsentRecord.consent_record_id x.2) "consent:marketing")
    (rows (consent_records ex_stop.1)).
Lemma ex_body_due_ok : ex_body_due = true.
Proof. by vm_compute. Qed.

Lemma purge_redacts_only_due_content_witness :
  exists s' ids, purge_expired_content "t1" (ex_now + 40 * DAY) ex_stop.1 = (s', Ok ids)
    /\ "consent:marketing" ∈ ids.
Proof.
  destruct (purge_redacts_only_due_content None ex_addresses
    (ex_approved ++ [Stop "t1" "a1" "STOP" (Some "+1") (Some "stop pls") "provider_webhook" None
      DEFAULT_CONTENT_TTL_SECONDS ex_now (fun p => p) "s1" "r1"]) ex_stop.1 "t1"
    (ex_now + 40 * DAY) eq_refl eq_refl) as (s' & ids & H & Hids & _).
  exists s', ids. split; [exact H|]. apply Hids. clear.
  destruct (proj1 (existsb_exists _ _) ex_body_due_ok) as (x & Hx & Hd).
  apply andb_true_iff in Hd as [Hd Hi]. exists x.
  split; [apply list_elem_of_In; exact Hx|]. split; [exact Hd|by apply String.eqb_eq].
Defined.

Definition reverse_rows (s : db) : db := {|
  addresses := addresses s;
  consent_records := {| rows := reverse (rows (consent_records s));
                        next_sequence := next_sequence (consent_records s) |};
  address_suppressions := address_suppressions s;
  address_usability_decisions := address_usability_decisions s;
  provider_reachability_events := provider_reachability_events s |}.

Lemma reverse_rows_reordered s : reordered s (reverse_rows s).
Proof. split; [symmetry; apply reverse_Permutation|reflexivity..]. Qed.

Definition ex_both : db := run_all None (ex_approved ++ ex_back) (undecided ex_addresses).

Lemma eligibility_ignores_row_order_witness :
  ex_verdict (reverse_rows ex_both) None = ex_verdict ex_both None.
Proof.
  exact (eligibility_ignores_row_order None ex_addresses (ex_approved ++ ex_back) ex_both
    (reverse_rows ex_both) "t1" "a1" "sms" "marketing" None ex_now eq_refl
    (reverse_rows_reordered ex_both)).
Defined.
