(* ===== verification/Workflow.v ===== *)
(** * The workflow repository

    [WorkflowRepository] of src/agents/orchestrator/workflow_repository.py
    over SQLite: runs, numbered plan revisions, their steps, the approvals that
    authorise a revision, the one-use leases of the step scheduler, receipts
    and attestations, and every method that reads or changes them.  A method
    holds the connection's lock, so it is atomic; the ones that open
    [BEGIN IMMEDIATE] are transactions.

    Stored content (a step's input and output, a receipt) is the value its
    JSON text reads back as, [Json.norm]: keys sorted.  Identifiers
    ([uuid4], [token_urlsafe]) are arguments.  Content encryption and the
    creation of the schema are not modelled. *)

From S2P Require Import Prelude PyValue Json Sha256.
From stdpp Require Import pretty.
Local Open Scope Z_scope.

Definition DEFAULT_CONTENT_TTL_SECONDS : Z := 30 * 24 * 60 * 60.

Inductive wf_error : Type :=
| ValueError (why : string)
| IntegrityError
| BindingError.

(** ** Rows *)

(** Every value the methods write in [execution_status]. *)
Inductive execution_status : Type :=
| queued | running | completed | execution_unknown | paused_by_policy | cancelled | failed.
Global Instance execution_status_eq_dec : EqDecision execution_status.
Proof. solve_decision. Defined.

(** A row of [workflow_steps]. *)
Record step := {
  revision_of : string;
  step_id : string;
  run_of : string;
  tenant_of : string;
  capability_id : string;
  capability_version : string;
  connection_id : option string;
  descriptor_snapshot_hash : string;
  credential_version : Z;
  input_hash : string;
  input : pyval;
  output : option pyval;
  content_expires_at : option Z;
  depends_on : list string;
  effect : string;
  status : execution_status;
  verification_status : string;
  attempt : Z;
  uncounted_attempts : Z;
  claimed_by : option string;
  claimed_at : option Z;
  retry_at : option Z;
  reconcile_after : option Z;
  reconcile_attempts : Z;
  terminal_reason : option string;
}.

(** What an update may assign; the other columns are written once, when the
    revision is created. *)
Record progress := {
  p_status : execution_status;
  p_verification : string;
  p_attempt : Z;
  p_uncounted : Z;
  p_claimed_by : option string;
  p_claimed_at : option Z;
  p_retry_at : option Z;
  p_reconcile_after : option Z;
  p_reconcile_attempts : Z;
  p_reason : option string;
}.
Definition progress_of (r : step) : progress := {|
  p_status := status r; p_verification := verification_status r; p_attempt := attempt r;
  p_uncounted := uncounted_attempts r; p_claimed_by := claimed_by r;
  p_claimed_at := claimed_at r; p_retry_at := retry_at r;
  p_reconcile_after := reconcile_after r; p_reconcile_attempts := reconcile_attempts r;
  p_reason := terminal_reason r |}.
Definition set_row (r : step) (i : pyval) (o : option pyval) (p : progress) : step := {|
  revision_of := revision_of r; step_id := step_id r; run_of := run_of r;
  tenant_of := tenant_of r; capability_id := capability_id r;
  capability_version := capability_version r; connection_id := connection_id r;
  descriptor_snapshot_hash := descriptor_snapshot_hash r;
  credential_version := credential_version r; input_hash := input_hash r;
  input := i; output := o; content_expires_at := content_expires_at r;
  depends_on := depends_on r; effect := effect r; status := p_status p;
  verification_status := p_verification p; attempt := p_attempt p;
  uncounted_attempts := p_uncounted p; claimed_by := p_claimed_by p;
  claimed_at := p_claimed_at p; retry_at := p_retry_at p;
  reconcile_after := p_reconcile_after p; reconcile_attempts := p_reconcile_attempts p;
  terminal_reason := p_reason p |}.
Definition set_progress (r : step) (p : progress) : step := set_row r (input r) (output r) p.

Record revision := {
  r_run : string;
  r_tenant : string;
  revision_number : Z;
  plan_graph_hash : string;
  r_status : string;
  r_created_at : Z;
}.
Definition set_r_status (r : revision) (s : string) : revision := {|
  r_run := r_run r; r_tenant := r_tenant r; revision_number := revision_number r;
  plan_graph_hash := plan_graph_hash r; r_status := s; r_created_at := r_created_at r |}.

Record run := {
  w_tenant : string;
  user_principal_id : string;
  goal_hash : string;
  w_status : string;
  current_revision_id : option string;
  w_created_at : Z;
  w_updated_at : Z;
}.
Definition set_run (w : run) (s : string) (current : option string) (updated : Z) : run := {|
  w_tenant := w_tenant w; user_principal_id := user_principal_id w; goal_hash := goal_hash w;
  w_status := s; current_revision_id := current; w_created_at := w_created_at w;
  w_updated_at := updated |}.

Record approval := {
  a_run : string;
  a_tenant : string;
  a_graph_hash : string;
  approved_by : string;
  approved_at : Z;
  a_expires_at : option Z;
  authorization_mode : string;
}.

Record campaign_binding := {
  b_run : string; b_tenant : string; campaign_id : string; envelope_hash : string }.

Record lease := {
  l_revision : string;
  l_step : string;
  l_attempt : Z;
  l_tenant : string;
  worker_id : string;
  l_expires_at : Z;
  consumed_at : option Z;
  revoked_at : option Z;
}.

Record receipt_row := {
  x_revision : string;
  x_step : string;
  x_attempt : Z;
  x_tenant : string;
  receipt : pyval;
  receipt_hash : string;
  x_created_at : Z;
}.

Record attestation_row := {
  t_receipt_id : string;
  t_revision : string;
  t_step : string;
  t_tenant : string;
  attestation : pyval;
  attestation_hash : string;
  t_created_at : Z;
}.

(** The tables.  [steps] is in rowid order; the others are keyed by their
    primary key. *)
Record store := {
  runs : gmap string run;
  revisions : gmap string revision;
  steps : list step;
  approvals : gmap string approval;
  bindings : gmap string campaign_binding;
  leases : gmap string lease;
  receipts : gmap string receipt_row;
  attestations : gmap string attestation_row;
}.
Definition empty_store : store := {|
  runs := ∅; revisions := ∅; steps := []; approvals := ∅; bindings := ∅; leases := ∅;
  receipts := ∅; attestations := ∅ |}.

Definition with_runs (s : store) (x : gmap string run) : store := {|
  runs := x; revisions := revisions s; steps := steps s; approvals := approvals s;
  bindings := bindings s; leases := leases s; receipts := receipts s;
  attestations := attestations s |}.
Definition with_revisions (s : store) (x : gmap string revision) : store := {|
  runs := runs s; revisions := x; steps := steps s; approvals := approvals s;
  bindings := bindings s; leases := leases s; receipts := receipts s;
  attestations := attestations s |}.
Definition with_steps (s : store) (x : list step) : store := {|
  runs := runs s; revisions := revisions s; steps := x; approvals := approvals s;
  bindings := bindings s; leases := leases s; receipts := receipts s;
  attestations := attestations s |}.
Definition with_approvals (s : store) (x : gmap string approval) : store := {|
  runs := runs s; revisions := revisions s; steps := steps s; approvals := x;
  bindings := bindings s; leases := leases s; receipts := receipts s;
  attestations := attestations s |}.
Definition with_bindings (s : store) (x : gmap string campaign_binding) : store := {|
  runs := runs s; revisions := revisions s; steps := steps s; approvals := approvals s;
  bindings := x; leases := leases s; receipts := receipts s;
  attestations := attestations s |}.
Definition with_leases (s : store) (x : gmap string lease) : store := {|
  runs := runs s; revisions := revisions s; steps := steps s; approvals := approvals s;
  bindings := bindings s; leases := x; receipts := receipts s;
  attestations := attestations s |}.
Definition with_receipts (s : store) (x : gmap string receipt_row) : store := {|
  runs := runs s; revisions := revisions s; steps := steps s; approvals := approvals s;
  bindings := bindings s; leases := leases s; receipts := x;
  attestations := attestations s |}.
Definition with_attestations (s : store) (x : gmap string attestation_row) : store := {|
  runs := runs s; revisions := revisions s; steps := steps s; approvals := approvals s;
  bindings := bindings s; leases := leases s; receipts := receipts s;
  attestations := x |}.

Definition opstm (A : Type) : Type := stm store wf_error A.

(** [UPDATE workflow_steps SET ... WHERE ...]: the rows changed and
    [cursor.rowcount]. *)
Definition update_rows (p : step -> bool) (f : step -> step) (l : list step) : list step :=
  map (fun r => if p r then f r else r) l.
Definition row_count (p : step -> bool) (l : list step) : nat := length (List.filter p l).
Definition update_steps {E} (p : step -> bool) (f : step -> step) : stm store E nat := fun s =>
  (with_steps s (update_rows p f (steps s)), Ok (row_count p (steps s))).

Definition is_step (revision_id sid tenant_id : string) (r : step) : bool :=
  String.eqb (revision_of r) revision_id && String.eqb (step_id r) sid
  && String.eqb (tenant_of r) tenant_id.
Definition has_status (st : execution_status) (r : step) : bool := bool_decide (status r = st).
Definition in_revision (run_id revision_id tenant_id : string) (r : step) : bool :=
  String.eqb (run_of r) run_id && String.eqb (revision_of r) revision_id
  && String.eqb (tenant_of r) tenant_id.
(** [column IS NULL OR column <= now]. *)
Definition due (o : option Z) (now_ts : Z) : bool :=
  match o with None => true | Some t => t <=? now_ts end.

(** ** Runs and revisions *)

Section methods.
Local Open Scope stm_scope.

Definition create_run (tenant_id principal goal : string) (now_ts : Z) (new_id : string)
    : opstm string :=
  (if truthy tenant_id then stm_ret tt else stm_raise (ValueError "tenant_id is required")) ;;;
  fun s =>
    let run_id := "workflow:" +:+ new_id in
    match runs s !! run_id with
    | Some _ => (s, Err IntegrityError)
    | None => (with_runs s (<[run_id := {|
        w_tenant := tenant_id; user_principal_id := principal; goal_hash := goal;
        w_status := "draft"; current_revision_id := None; w_created_at := now_ts;
        w_updated_at := now_ts |}]> (runs s)), Ok run_id)
    end.

Definition get_run (s : store) (run_id tenant_id : string) : option run :=
  w ← runs s !! run_id; if String.eqb (w_tenant w) tenant_id then Some w else None.
Definition get_run_for_principal (s : store) (run_id principal : string) : option run :=
  w ← runs s !! run_id; if String.eqb (user_principal_id w) principal then Some w else None.

Definition fetch_revision (s : store) (run_id revision_id tenant_id : string) : option revision :=
  r ← revisions s !! revision_id;
  if String.eqb (r_run r) run_id && String.eqb (r_tenant r) tenant_id then Some r else None.
Definition steps_of (s : store) (revision_id : string) : list step :=
  List.filter (fun r => String.eqb (revision_of r) revision_id) (steps s).
Definition get_revision (s : store) (run_id revision_id tenant_id : string)
    : option (revision * list step) :=
  r ← fetch_revision s run_id revision_id tenant_id; Some (r, steps_of s revision_id).
Definition get_revision_by_id (s : store) (revision_id tenant_id : string)
    : option (revision * list step) :=
  r ← revisions s !! revision_id;
  if String.eqb (r_tenant r) tenant_id
  then get_revision s (r_run r) revision_id tenant_id else None.

(** A step of the plan handed to [create_revision]. *)
Record step_spec := {
  n_step_id : string;
  n_capability_id : string;
  n_capability_version : string;
  n_connection_id : option string;
  n_descriptor_snapshot_hash : string;
  n_input_hash : string;
  n_credential_version : option Z;
  n_input : pyval;
  n_depends_on : list string;
  n_effect : string;
}.

Definition new_step (run_id revision_id tenant_id : string) (expires : Z) (n : step_spec) : step := {|
  revision_of := revision_id; step_id := n_step_id n; run_of := run_id;
  tenant_of := tenant_id; capability_id := n_capability_id n;
  capability_version := n_capability_version n; connection_id := n_connection_id n;
  descriptor_snapshot_hash := n_descriptor_snapshot_hash n;
  credential_version := default 0 (n_credential_version n); input_hash := n_input_hash n;
  input := norm (n_input n); output := None; content_expires_at := Some expires;
  depends_on := n_depends_on n; effect := n_effect n; status := queued;
  verification_status := if String.eqb (n_effect n) "write" then "pending" else "not_required";
  attempt := 0; uncounted_attempts := 0; claimed_by := None; claimed_at := None;
  retry_at := None; reconcile_after := None; reconcile_attempts := 0;
  terminal_reason := None |}.

Definition insert_step (r : step) : opstm unit := fun s =>
  if existsb (fun x => String.eqb (revision_of x) (revision_of r)
                       && String.eqb (step_id x) (step_id r)) (steps s)
  then (s, Err IntegrityError)
  else (with_steps s (steps s ++ [r]), Ok tt).

(** The statuses a new revision supersedes. *)
Definition open_revision (st : string) : bool :=
  str_in st ["draft"; "awaiting_approval"; "approved"; "authorized"].

Definition next_number (s : store) (run_id : string) : Z :=
  map_fold (fun _ r n => if String.eqb (r_run r) run_id then Z.max n (revision_number r) else n)
    0 (revisions s) + 1.

Definition supersede_row (r : step) : step := set_progress r {|
  p_status := cancelled; p_verification := verification_status r; p_attempt := attempt r;
  p_uncounted := uncounted_attempts r; p_claimed_by := claimed_by r;
  p_claimed_at := claimed_at r; p_retry_at := retry_at r;
  p_reconcile_after := reconcile_after r; p_reconcile_attempts := reconcile_attempts r;
  p_reason := Some "superseded by a new revision" |}.
Definition supersede (run_id : string) : opstm unit :=
  stm_modify (fun s => with_revisions s
    ((fun r => if String.eqb (r_run r) run_id && open_revision (r_status r)
               then set_r_status r "superseded" else r) <$> revisions s)) ;;;
  update_steps (fun r => String.eqb (run_of r) run_id
                         && (has_status queued r || has_status paused_by_policy r))
    supersede_row ;;;
  stm_ret tt.

Definition create_revision (run_id tenant_id graph_hash : string) (plan : list step_spec)
    (now_ts content_ttl_seconds : Z) (new_id : string) : opstm string :=
  let revision_id := "revision:" +:+ new_id in
  transaction (
    s <~ stm_get ;;
    match get_run s run_id tenant_id with
    | None => stm_raise (ValueError "workflow run not found")
    | Some w =>
      supersede run_id ;;;
      match revisions s !! revision_id with
      | Some _ => stm_raise IntegrityError
      | None =>
        stm_modify (fun s' => with_revisions s' (<[revision_id := {|
          r_run := run_id; r_tenant := tenant_id; revision_number := next_number s run_id;
          plan_graph_hash := graph_hash; r_status := "draft"; r_created_at := now_ts |}]>
          (revisions s'))) ;;;
        stm_iter (fun n => insert_step
          (new_step run_id revision_id tenant_id (now_ts + content_ttl_seconds) n)) plan ;;;
        stm_modify (fun s' => with_runs s'
          (<[run_id := set_run w (w_status w) (Some revision_id) now_ts]> (runs s'))) ;;;
        stm_ret revision_id
      end
    end).

(** ** Authorisation *)

(** [INSERT INTO workflow_approvals SELECT ... FROM workflow_revisions WHERE
    ... AND plan_graph_hash = ? AND status = 'draft'], refused when no
    revision matches. *)
Definition insert_approval (why run_id revision_id tenant_id graph_hash by_ mode : string)
    (now_ts expires : Z) : opstm unit := fun s =>
  match fetch_revision s run_id revision_id tenant_id with
  | Some r =>
      if String.eqb (plan_graph_hash r) graph_hash && String.eqb (r_status r) "draft" then
        match approvals s !! revision_id with
        | Some _ => (s, Err IntegrityError)
        | None => (with_approvals s (<[revision_id := {|
            a_run := run_id; a_tenant := tenant_id; a_graph_hash := plan_graph_hash r;
            approved_by := by_; approved_at := now_ts; a_expires_at := Some expires;
            authorization_mode := mode |}]> (approvals s)), Ok tt)
        end
      else (s, Err (ValueError why))
  | None => (s, Err (ValueError why))
  end.

Definition set_revision_status (revision_id st : string) : opstm unit :=
  stm_modify (fun s => with_revisions s
    (alter (fun r => set_r_status r st) revision_id (revisions s))).

Definition authorize_requested_read (run_id revision_id tenant_id graph_hash requested_by : string)
    (now_ts ttl_seconds : Z) : opstm bool :=
  transaction (
    s <~ stm_get ;;
    let mine := List.filter (in_revision run_id revision_id tenant_id) (steps s) in
    (if negb (truthy mine) || existsb (fun r => negb (String.eqb (effect r) "read")) mine
     then stm_raise (ValueError "requested_read authorization requires a read-only revision")
     else stm_ret tt) ;;;
    insert_approval "revision authorization binding changed" run_id revision_id tenant_id
      graph_hash requested_by "requested_read" now_ts (now_ts + ttl_seconds) ;;;
    set_revision_status revision_id "authorized" ;;;
    stm_ret true).

Definition record_approval (run_id revision_id tenant_id graph_hash approver : string)
    (now_ts ttl_seconds : Z) : opstm unit :=
  transaction (
    insert_approval "revision approval binding changed" run_id revision_id tenant_id
      graph_hash approver "explicit_write" now_ts (now_ts + ttl_seconds) ;;;
    set_revision_status revision_id "approved").

Definition insert_binding (run_id revision_id tenant_id campaign envelope : string)
    : opstm unit := fun s =>
  match bindings s !! revision_id with
  | Some _ => (s, Err IntegrityError)
  | None => (with_bindings s (<[revision_id := {|
      b_run := run_id; b_tenant := tenant_id; campaign_id := campaign;
      envelope_hash := envelope |}]> (bindings s)), Ok tt)
  end.

Definition record_campaign_authorization (run_id revision_id tenant_id graph_hash campaign
    envelope authorized_by : string) (now_ts envelope_expires_at : Z) : opstm bool :=
  (if envelope_expires_at <=? now_ts
   then stm_raise (ValueError "campaign envelope is expired") else stm_ret tt) ;;;
  transaction (
    insert_approval "campaign revision authorization binding changed" run_id revision_id
      tenant_id graph_hash authorized_by "campaign_envelope" now_ts envelope_expires_at ;;;
    insert_binding run_id revision_id tenant_id campaign envelope ;;;
    set_revision_status revision_id "authorized" ;;;
    stm_ret true).

Definition find_approval (s : store) (run_id revision_id tenant_id graph_hash : string)
    : option approval :=
  a ← approvals s !! revision_id;
  if String.eqb (a_run a) run_id && String.eqb (a_tenant a) tenant_id
     && String.eqb (a_graph_hash a) graph_hash then Some a else None.
(** Not expired; without a moment the expiry is not looked at. *)
Definition unexpired (a : approval) (now_ts : option Z) : bool :=
  match now_ts, a_expires_at a with Some now, Some e => now <=? e | _, _ => true end.

Definition is_revision_approved (s : store) (run_id revision_id tenant_id graph_hash : string)
    (now_ts : option Z) : bool :=
  match find_approval s run_id revision_id tenant_id graph_hash with
  | Some a => String.eqb (authorization_mode a) "explicit_write" && unexpired a now_ts
  | None => false
  end.

Definition revision_authorization_mode (s : store)
    (run_id revision_id tenant_id graph_hash : string) (now_ts : option Z) : option string :=
  match find_approval s run_id revision_id tenant_id graph_hash with
  | Some a => if unexpired a now_ts then Some (authorization_mode a) else None
  | None => None
  end.

Definition mode_permits (mode eff : string) : bool :=
  String.eqb mode "explicit_write"
  || String.eqb mode "requested_read" && String.eqb eff "read"
  || String.eqb mode "campaign_envelope" && String.eqb eff "write".

Definition is_step_authorized (s : store) (run_id revision_id tenant_id graph_hash eff : string)
    (now_ts : option Z) : bool :=
  match find_approval s run_id revision_id tenant_id graph_hash,
        fetch_revision s run_id revision_id tenant_id, get_run s run_id tenant_id with
  | Some a, Some r, Some w =>
      bool_decide (current_revision_id w = Some revision_id)
      && str_in (r_status r) ["approved"; "authorized"; "executing"; "in_progress"; "completed"]
      && unexpired a now_ts && mode_permits (authorization_mode a) eff
  | _, _, _ => false
  end.

Definition has_queued_step (s : store) (revision_id : string) : bool :=
  existsb (has_status queued) (steps_of s revision_id).
Definition revision_order (a b : string * revision) : Prop :=
  r_created_at a.2 < r_created_at b.2
  \/ r_created_at a.2 = r_created_at b.2 /\ String.le a.1 b.1.
Global Instance revision_order_dec a b : Decision (revision_order a b).
Proof. unfold revision_order. apply _. Defined.
Definition ordered_revisions (s : store) : list (string * revision) :=
  merge_sort revision_order (map_to_list (revisions s)).

Definition list_approved_revisions (s : store) (limit : nat) : list (string * string * string) :=
  take limit (omap (fun x => if String.eqb (r_status x.2) "approved" && has_queued_step s x.1
                             then Some (r_run x.2, x.1, r_tenant x.2) else None)
                (ordered_revisions s)).

Definition list_runnable_revisions (s : store) (limit : nat)
    : list (string * string * string * string) :=
  take limit (omap (fun x =>
    a ← approvals s !! x.1;
    if String.eqb (a_run a) (r_run x.2) && String.eqb (a_tenant a) (r_tenant x.2)
       && str_in (r_status x.2) ["approved"; "authorized"] && has_queued_step s x.1
    then Some (r_run x.2, x.1, r_tenant x.2, authorization_mode a) else None)
    (ordered_revisions s)).

(** ** Claims and leases *)

Record claim := {
  c_lease : string;
  c_step : string;
  c_attempt : Z;
  c_revision : string;
}.

(** [claim] may be [None] or an empty lease. *)
Definition finish_claim_lease (c : option claim) (tenant_id : string) (now_ts : Z)
    (consumed : bool) : opstm bool := fun s =>
  match c with
  | Some c =>
      if negb (truthy (c_lease c)) then (s, Ok false) else
      let key := sha256 (c_lease c) in
      match leases s !! key with
      | Some l =>
          if String.eqb (l_revision l) (c_revision c) && String.eqb (l_step l) (c_step c)
             && Z.eqb (l_attempt l) (c_attempt c) && String.eqb (l_tenant l) tenant_id
             && bool_decide (consumed_at l = None) && bool_decide (revoked_at l = None)
          then (with_leases s (<[key := {|
                  l_revision := l_revision l; l_step := l_step l; l_attempt := l_attempt l;
                  l_tenant := l_tenant l; worker_id := worker_id l;
                  l_expires_at := l_expires_at l;
                  consumed_at := if consumed then Some now_ts else consumed_at l;
                  revoked_at := if consumed then revoked_at l else Some now_ts |}]> (leases s)),
                Ok true)
          else (s, Ok false)
      | None => (s, Ok false)
      end
  | None => (s, Ok false)
  end.

Definition _dependencies_completed (s : store) (revision_id : string) (dependencies : list string)
    : bool :=
  match dependencies with
  | [] => true
  | _ =>
      let found := List.filter (fun r => str_in (step_id r) dependencies) (steps_of s revision_id) in
      Nat.eqb (length found) (length dependencies) && forallb (has_status completed) found
  end.

Definition claimable (s : store) (run_id revision_id tenant_id : string) (now_ts : Z) (r : step)
    : bool :=
  in_revision run_id revision_id tenant_id r && has_status queued r && due (retry_at r) now_ts.
Definition ready (s : store) (run_id revision_id tenant_id : string) (now_ts : Z) (r : step)
    : bool :=
  claimable s run_id revision_id tenant_id now_ts r
  && _dependencies_completed s revision_id (depends_on r).

Definition exhausted (max_attempts : Z) (r : step) : bool :=
  max_attempts <=? attempt r - uncounted_attempts r.
Definition exhaust (r : step) : step := set_progress r {|
  p_status := failed; p_verification := verification_status r; p_attempt := attempt r;
  p_uncounted := uncounted_attempts r; p_claimed_by := claimed_by r;
  p_claimed_at := claimed_at r; p_retry_at := retry_at r;
  p_reconcile_after := reconcile_after r; p_reconcile_attempts := reconcile_attempts r;
  p_reason := Some "maximum attempts exceeded" |}.

Definition start (worker : string) (now_ts : Z) (r : step) : step := set_progress r {|
  p_status := running; p_verification := verification_status r; p_attempt := attempt r + 1;
  p_uncounted := uncounted_attempts r; p_claimed_by := Some worker;
  p_claimed_at := Some now_ts; p_retry_at := None;
  p_reconcile_after := reconcile_after r; p_reconcile_attempts := reconcile_attempts r;
  p_reason := terminal_reason r |}.

Definition lease_taken (s : store) (revision_id sid : string) (n : Z) : bool :=
  bool_decide (map_Exists (fun _ l => l_revision l = revision_id /\ l_step l = sid
                                      /\ l_attempt l = n) (leases s)).
Definition insert_lease (token : string) (l : lease) : opstm unit := fun s =>
  if lease_taken s (l_revision l) (l_step l) (l_attempt l) then (s, Err IntegrityError)
  else match leases s !! sha256 token with
       | Some _ => (s, Err IntegrityError)
       | None => (with_leases s (<[sha256 token := l]> (leases s)), Ok tt)
       end.

Definition rowcount_is_1 (n : nat) : bool := Nat.eqb n 1.

(** [token] is [secrets.token_urlsafe(32)]. *)
Definition claim_ready_step (run_id revision_id tenant_id worker : string)
    (now_ts lease_ttl_seconds max_attempts : Z) (token : string) : opstm (option claim) :=
  transaction (
    s0 <~ stm_get ;;
    update_steps (fun r => in_revision run_id revision_id tenant_id r && has_status queued r
                           && exhausted max_attempts r) exhaust ;;;
    s <~ stm_get ;;
    match List.find (ready s run_id revision_id tenant_id now_ts) (steps s) with
    | None => stm_ret None
    | Some selected =>
        k <~ update_steps (fun r => String.eqb (revision_of r) revision_id
                               && String.eqb (step_id r) (step_id selected)
                               && has_status queued r) (start worker now_ts) ;;
        if negb (rowcount_is_1 k) then (fun _ => (s0, Ok None)) (* ROLLBACK *) else
        insert_lease token {|
          l_revision := revision_id; l_step := step_id selected;
          l_attempt := attempt selected + 1; l_tenant := tenant_id; worker_id := worker;
          l_expires_at := now_ts + lease_ttl_seconds; consumed_at := None;
          revoked_at := None |} ;;;
        stm_ret (Some {| c_lease := token; c_step := step_id selected;
                         c_attempt := attempt selected + 1; c_revision := revision_id |})
    end).

(** ** Outcomes *)

(** [_step_update]: no condition on the status or the attempt. *)
Definition set_status (st : execution_status) (why : option string) (r : step) : step :=
  set_progress r {|
    p_status := st; p_verification := verification_status r; p_attempt := attempt r;
    p_uncounted := uncounted_attempts r; p_claimed_by := None; p_claimed_at := None;
    p_retry_at := None; p_reconcile_after := reconcile_after r;
    p_reconcile_attempts := reconcile_attempts r; p_reason := why |}.
Definition _step_update (revision_id sid tenant_id : string) (st : execution_status)
    (why : option string) : opstm bool :=
  n <~ update_steps (is_step revision_id sid tenant_id) (set_status st why) ;;
  stm_ret (rowcount_is_1 n).
Definition mark_execution_unknown (revision_id sid tenant_id why : string) : opstm bool :=
  _step_update revision_id sid tenant_id execution_unknown (Some why).
Definition pause_by_policy (revision_id sid tenant_id why : string) : opstm bool :=
  _step_update revision_id sid tenant_id paused_by_policy (Some why).

Definition requeue (why : string) (retry : Z) (uncounted : Z) (r : step) : step := set_progress r {|
  p_status := queued; p_verification := verification_status r; p_attempt := attempt r;
  p_uncounted := uncounted_attempts r + uncounted; p_claimed_by := None;
  p_claimed_at := None; p_retry_at := Some retry; p_reconcile_after := reconcile_after r;
  p_reconcile_attempts := reconcile_attempts r; p_reason := Some why |}.
Definition release_for_retry (revision_id sid tenant_id why : string) (retry : Z) : opstm bool :=
  n <~ update_steps (is_step revision_id sid tenant_id) (requeue why retry 0) ;;
  stm_ret (rowcount_is_1 n).
Definition release_without_consuming_attempt (revision_id sid tenant_id why : string)
    (retry n : Z) : opstm bool :=
  k <~ update_steps (fun r => is_step revision_id sid tenant_id r && Z.eqb (attempt r) n
                              && has_status running r) (requeue why retry 1) ;;
  stm_ret (rowcount_is_1 k).

Definition nul : string := String (chr 0) "".
Definition receipt_id_of (revision_id sid : string) (n : Z) (receipt_json : string) : string :=
  "receipt:" +:+ sha256 (revision_id +:+ nul +:+ sid +:+ nul +:+ pretty n +:+ nul +:+ receipt_json).

Definition insert_receipt (id : string) (x : receipt_row) : opstm unit := fun s =>
  if bool_decide (map_Exists (fun _ y => x_revision y = x_revision x /\ x_step y = x_step x
                                         /\ x_attempt y = x_attempt x) (receipts s))
  then (s, Err IntegrityError)
  else match receipts s !! id with
       | Some _ => (s, Err IntegrityError)
       | None => (with_receipts s (<[id := x]> (receipts s)), Ok tt)
       end.
Definition insert_attestation (id : string) (x : attestation_row) : opstm unit := fun s =>
  if bool_decide (map_Exists (fun _ y => t_receipt_id y = t_receipt_id x) (attestations s))
  then (s, Err IntegrityError)
  else match attestations s !! id with
       | Some _ => (s, Err IntegrityError)
       | None => (with_attestations s (<[id := x]> (attestations s)), Ok tt)
       end.

(** [ORDER BY attempt DESC]. *)
Definition attempt_desc (a b : receipt_row) : Prop := x_attempt b <= x_attempt a.
Global Instance attempt_desc_dec a b : Decision (attempt_desc a b).
Proof. unfold attempt_desc. apply _. Defined.
Definition get_step_receipt (s : store) (revision_id sid tenant_id : string) : option pyval :=
  let mine := List.filter (fun x => String.eqb (x_revision x) revision_id
                                    && String.eqb (x_step x) sid && String.eqb (x_tenant x) tenant_id)
                (map snd (map_to_list (receipts s))) in
  receipt <$> head (merge_sort attempt_desc mine).

(** The run and the revision close when no step is left. *)
Definition close_revision (revision_id tenant_id : string) (now_ts : Z) : opstm unit := fun s =>
  if existsb (fun r => negb (has_status completed r)) (steps_of s revision_id) then (s, Ok tt)
  else
    let s1 := with_revisions s (alter (fun r => if String.eqb (r_tenant r) tenant_id
                                                then set_r_status r "completed" else r)
                                  revision_id (revisions s)) in
    (with_runs s1 ((fun w => if bool_decide (current_revision_id w = Some revision_id)
                                && String.eqb (w_tenant w) tenant_id
                             then set_run w "completed" (current_revision_id w) now_ts else w)
                     <$> runs s1), Ok tt).

Record completion := {
  k_receipt_id : string;
  k_attestation_id : pyval;
  k_verification_status : string;
}.

Definition complete_row (verification : string) (out : pyval) (r : step) : step :=
  set_row r (input r) (Some (norm out)) {|
    p_status := completed; p_verification := verification; p_attempt := attempt r;
    p_uncounted := uncounted_attempts r; p_claimed_by := claimed_by r;
    p_claimed_at := claimed_at r; p_retry_at := retry_at r;
    p_reconcile_after := reconcile_after r; p_reconcile_attempts := reconcile_attempts r;
    p_reason := None |}.
Definition completable (revision_id sid tenant_id : string) (n : Z) (r : step) : bool :=
  is_step revision_id sid tenant_id r && Z.eqb (attempt r) n
  && (has_status running r || has_status execution_unknown r).

Definition persist_completion (revision_id sid tenant_id : string) (n : Z) (rcpt : pyval)
    (att : option (list (string * pyval))) (now_ts : Z) (out : pyval) : opstm completion :=
  let receipt_json := json_text rcpt in
  let att' := default [] att in
  let attestation_id := get att' "attestation_id" in
  let receipt_id := receipt_id_of revision_id sid n receipt_json in
  transaction (
    s <~ stm_get ;;
    match List.find (is_step revision_id sid tenant_id) (steps s) with
    | None => stm_raise (ValueError "workflow step not found")
    | Some current =>
      (if String.eqb (effect current) "write" && negb (truthy attestation_id)
       then stm_raise (ValueError "attestation_id is required for writes") else stm_ret tt) ;;;
      let verification := if String.eqb (effect current) "write" then "pending"
                          else "not_required" in
      k <~ update_steps (completable revision_id sid tenant_id n)
             (complete_row verification (if truthy out then out else VDict [])) ;;
      (if negb (rowcount_is_1 k)
       then stm_raise (ValueError "workflow step completion binding changed") else stm_ret tt) ;;;
      insert_receipt receipt_id {|
        x_revision := revision_id; x_step := sid; x_attempt := n; x_tenant := tenant_id;
        receipt := norm rcpt; receipt_hash := sha256 receipt_json; x_created_at := now_ts |} ;;;
      (if truthy attestation_id
       then match bind_text attestation_id with
            | Some id => insert_attestation id {|
                t_receipt_id := receipt_id; t_revision := revision_id; t_step := sid;
                t_tenant := tenant_id; attestation := norm (VDict att');
                attestation_hash := sha256 (json_text (VDict att')); t_created_at := now_ts |}
            | None => stm_raise BindingError
            end
       else stm_ret tt) ;;;
      close_revision revision_id tenant_id now_ts ;;;
      stm_ret {| k_receipt_id := receipt_id; k_attestation_id := attestation_id;
                 k_verification_status := verification |}
    end).

(** ** Unknown outcomes *)

Definition unresolved (now_ts : Z) (r : step) : bool :=
  has_status execution_unknown r && String.eqb (effect r) "write" && due (reconcile_after r) now_ts.

(** Rows ordered by [claimed_at] (NULL first), then rowid. *)
Definition claimed_le (a b : nat * step) : Prop :=
  match claimed_at a.2, claimed_at b.2 with
  | None, None => (a.1 <= b.1)%nat
  | None, Some _ => True
  | Some _, None => False
  | Some x, Some y => x < y \/ x = y /\ (a.1 <= b.1)%nat
  end.
Global Instance claimed_le_dec a b : Decision (claimed_le a b).
Proof. unfold claimed_le. repeat case_match; apply _. Defined.
(** The step with the plan hash of its revision. *)
Definition list_unresolved_write_steps (s : store) (now_ts : Z) (limit : nat)
    : list (step * string) :=
  take limit (omap (fun x =>
    r ← revisions s !! revision_of x.2;
    if String.eqb (r_tenant r) (tenant_of x.2) && unresolved now_ts x.2
    then Some (x.2, plan_graph_hash r) else None)
    (merge_sort claimed_le (imap pair (steps s)))).

Definition is_unknown_attempt (revision_id sid tenant_id : string) (n : Z) (r : step) : bool :=
  is_step revision_id sid tenant_id r && Z.eqb (attempt r) n && has_status execution_unknown r.

Definition take_unknown (worker : string) (until : Z) (r : step) : step :=
  set_progress r {| p_status := status r; p_verification := verification_status r; p_attempt
    := attempt r; p_uncounted := uncounted_attempts r; p_claimed_by := Some worker;
    p_claimed_at := claimed_at r; p_retry_at := retry_at r; p_reconcile_after := Some until;
    p_reconcile_attempts := reconcile_attempts r + 1; p_reason :=
    terminal_reason r |}.
Definition claim_unresolved_write_step (revision_id sid tenant_id : string) (n : Z)
    (worker : string) (now_ts visibility_seconds : Z) : opstm bool :=
  k <~ update_steps (fun r => is_unknown_attempt revision_id sid tenant_id n r
                              && due (reconcile_after r) now_ts)
    (take_unknown worker (now_ts + visibility_seconds)) ;;
  stm_ret (rowcount_is_1 k).

Definition defer_row (why : string) (retry : Z) (r : step) : step :=
  set_progress r {| p_status := status r; p_verification := verification_status r; p_attempt
    := attempt r; p_uncounted := uncounted_attempts r; p_claimed_by := None; p_claimed_at :=
    claimed_at r; p_retry_at := retry_at r; p_reconcile_after := Some retry;
    p_reconcile_attempts := reconcile_attempts r; p_reason := Some why |}.
Definition defer_reconciliation (revision_id sid tenant_id : string) (n : Z) (why : string)
    (retry : Z) : opstm bool :=
  k <~ update_steps (is_unknown_attempt revision_id sid tenant_id n)
    (defer_row why retry) ;;
  stm_ret (rowcount_is_1 k).

Definition reconcile_row (st : execution_status) (verification : string) (r : step) : step :=
  set_progress r {| p_status := st; p_verification := verification;
    p_attempt := attempt r; p_uncounted := uncounted_attempts r; p_claimed_by := None;
    p_claimed_at := None; p_retry_at := retry_at r; p_reconcile_after := reconcile_after r;
    p_reconcile_attempts := reconcile_attempts r; p_reason := terminal_reason r |}.
(** What a reconciler reports. *)
Record observation := {
  o_status : string;
  o_receipt : option pyval;
  o_attestation : option pyval;
  o_output : option pyval;
  o_verification : option string;
  o_reconciled_at : option Z;
}.

Definition apply_reconciliation (revision_id sid tenant_id : string) (n : Z) (o : observation)
    : opstm bool :=
  match (if String.eqb (o_status o) "completed" then Some completed
         else if String.eqb (o_status o) "queued" then Some queued
         else if String.eqb (o_status o) "execution_unknown" then Some execution_unknown
         else None) with
  | None => stm_raise (ValueError "invalid reconciliation transition")
  | Some completed =>
      match o_receipt o, o_attestation o with
      | Some (VDict rc), Some (VDict at_) =>
          persist_completion revision_id sid tenant_id n (VDict rc) (Some at_)
            (default 0 (o_reconciled_at o)) (default (VDict rc) (o_output o)) ;;;
          stm_ret true
      | _, _ => stm_raise (ValueError
          "reconciled completion requires a receipt and signed attestation")
      end
  | Some st =>
      k <~ update_steps (is_unknown_attempt revision_id sid tenant_id n)
        (reconcile_row st (default "pending" (o_verification o))) ;;
      stm_ret (rowcount_is_1 k)
  end.

(** ** Maintenance *)

Definition lease_abandoned (now_ts : Z) (l : lease) : bool :=
  (l_expires_at l <? now_ts) && bool_decide (consumed_at l = None)
  && bool_decide (revoked_at l = None).

Definition recover (r : step) : step := set_progress r {|
  p_status := if String.eqb (effect r) "write" then execution_unknown else queued;
  p_verification := verification_status r; p_attempt := attempt r;
  p_uncounted := uncounted_attempts r; p_claimed_by := None; p_claimed_at := None;
  p_retry_at := retry_at r; p_reconcile_after := reconcile_after r;
  p_reconcile_attempts := reconcile_attempts r; p_reason := Some "worker lease expired" |}.

(** The join finds the abandoned leases of running steps before any update. *)
Definition abandoned_rows (s : store) (now_ts : Z) : list (string * lease) :=
  List.filter (fun x =>
    lease_abandoned now_ts x.2
    && existsb (fun r => String.eqb (revision_of r) (l_revision x.2)
                         && String.eqb (step_id r) (l_step x.2) && has_status running r) (steps s))
    (map_to_list (leases s)).
Definition recover_one (now_ts : Z) (x : string * lease) : opstm unit :=
  update_steps (fun r => is_step (l_revision x.2) (l_step x.2) (l_tenant x.2) r
                         && has_status running r) recover ;;;
  stm_modify (fun s => with_leases s (alter (fun l => {|
    l_revision := l_revision l; l_step := l_step l; l_attempt := l_attempt l;
    l_tenant := l_tenant l; worker_id := worker_id l; l_expires_at := l_expires_at l;
    consumed_at := consumed_at l; revoked_at := Some now_ts |}) x.1 (leases s))).
Definition recover_expired_claims (now_ts : Z) : opstm nat :=
  transaction (
    s <~ stm_get ;;
    stm_iter (recover_one now_ts) (abandoned_rows s now_ts) ;;;
    stm_ret (length (abandoned_rows s now_ts))).

Definition purge_row (r : step) : step := set_row r (VDict []) None (progress_of r).
Definition purge_expired_content (now_ts : Z) : opstm nat :=
  update_steps (fun r => match content_expires_at r with Some e => e <? now_ts | None => false end
                         && (has_status completed r || has_status cancelled r || has_status failed r))
    purge_row.

(** SQLite's [x LIKE pattern] for a pattern that ends in [%]: ASCII letters
    match in either case and [_] matches any one character. *)
Fixpoint drop_continuation (s : string) : string :=
  match s with
  | String c s' => if N.leb 128 (ord c) && N.ltb (ord c) 192 then drop_continuation s' else s
  | "" => ""
  end.
Fixpoint like_prefix (p s : string) : bool :=
  match p, s with
  | "", _ => true
  | String a p', String b s' =>
      if Ascii.eqb a (chr 95) then like_prefix p' (drop_continuation s')
      else Ascii.eqb (lower_char a) (lower_char b) && like_prefix p' s'
  | _, "" => false
  end.
Definition reason_like (p : string) (r : step) : bool :=
  match terminal_reason r with Some why => like_prefix p why | None => false end.

Definition requeue_now (r : step) : step := set_progress r {|
  p_status := queued; p_verification := verification_status r; p_attempt := attempt r;
  p_uncounted := uncounted_attempts r; p_claimed_by := claimed_by r;
  p_claimed_at := claimed_at r; p_retry_at := retry_at r;
  p_reconcile_after := reconcile_after r; p_reconcile_attempts := reconcile_attempts r;
  p_reason := None |}.

Definition resumable (r : step) : bool :=
  has_status paused_by_policy r
  && (match terminal_reason r with
      | Some why => str_in why ["dispatch policy disabled"; "capability rollout is disabled"]
      | None => false end
      || reason_like "control_plane:" r).
Definition resume_policy_paused : opstm nat := update_steps resumable requeue_now.

Record dispositions := {
  dispatched : nat; prevented : nat; in_progress : nat; uncertain : nat; failures : nat }.
Definition prevented_reason (r : step) : bool :=
  let why := default "" (terminal_reason r) in
  starts_with "control_plane:" why
  || str_in why ["dispatch policy disabled"; "capability rollout is disabled"].
Definition effect_disposition_counts (s : store) (tenant_id : string) : dispositions :=
  let mine := List.filter (fun r => String.eqb (tenant_of r) tenant_id) (steps s) in
  let count p := length (List.filter p mine) in
  {| dispatched := count (has_status completed);
     prevented := count (fun r => has_status paused_by_policy r && prevented_reason r);
     in_progress := count (fun r => has_status queued r || has_status running r);
     uncertain := count (has_status execution_unknown);
     failures := count (fun r => has_status paused_by_policy r && negb (prevented_reason r)
                                 || has_status failed r) |}.

Definition cancel_row (r : step) : step := set_progress r {|
  p_status := cancelled; p_verification := verification_status r; p_attempt := attempt r;
  p_uncounted := uncounted_attempts r; p_claimed_by := claimed_by r;
  p_claimed_at := claimed_at r; p_retry_at := retry_at r;
  p_reconcile_after := reconcile_after r; p_reconcile_attempts := reconcile_attempts r;
  p_reason := terminal_reason r |}.
Definition mark_cancelled (run_id revision_id tenant_id : string) : opstm bool := fun s =>
  match fetch_revision s run_id revision_id tenant_id with
  | Some r =>
      if String.eqb (r_status r) "superseded" then (s, Ok false) else
      let s1 := with_revisions s (<[revision_id := set_r_status r "cancelled"]> (revisions s)) in
      (match get_run s1 run_id tenant_id with
       | Some w => if bool_decide (current_revision_id w = Some revision_id)
                   then with_runs s1 (<[run_id := set_run w "cancelled" (current_revision_id w)
                                                    (w_updated_at w)]> (runs s1))
                   else s1
       | None => s1
       end, Ok true)
  | None => (s, Ok false)
  end.
Definition cancel_revision (run_id revision_id tenant_id : string) : opstm bool :=
  update_steps (fun r => in_revision run_id revision_id tenant_id r
                         && (has_status queued r || has_status paused_by_policy r)) cancel_row ;;;
  mark_cancelled run_id revision_id tenant_id.

Definition clear_retry (r : step) : step :=
  set_progress r {| p_status := status r; p_verification := verification_status r; p_attempt
    := attempt r; p_uncounted := uncounted_attempts r; p_claimed_by := claimed_by r;
    p_claimed_at := claimed_at r; p_retry_at := None; p_reconcile_after := reconcile_after r;
    p_reconcile_attempts := reconcile_attempts r; p_reason := None |}.
Definition retry_safe_read (run_id revision_id sid tenant_id : string) : opstm bool :=
  k <~ update_steps (fun r => in_revision run_id revision_id tenant_id r
                              && String.eqb (step_id r) sid && String.eqb (effect r) "read"
                              && has_status queued r && negb (bool_decide (retry_at r = None)))
    clear_retry ;;
  stm_ret (rowcount_is_1 k).

Definition retry_safe_write (s : store) (revision_id sid tenant_id : string) (n : Z) : bool :=
  match List.find (fun r => is_step revision_id sid tenant_id r && Z.eqb (attempt r) n
                            && String.eqb (effect r) "write") (steps s) with
  | Some r => has_status queued r
  | None => false
  end.

Definition unclaim_requeue (r : step) : step := set_progress r {|
  p_status := queued; p_verification := verification_status r; p_attempt := attempt r;
  p_uncounted := uncounted_attempts r; p_claimed_by := None; p_claimed_at := None;
  p_retry_at := retry_at r; p_reconcile_after := reconcile_after r;
  p_reconcile_attempts := reconcile_attempts r; p_reason := None |}.
Definition retry_corrected_write (revision_id sid tenant_id : string) : opstm bool :=
  k <~ update_steps (fun r => is_step revision_id sid tenant_id r && String.eqb (effect r) "write"
                              && has_status paused_by_policy r && reason_like "missing_scope:" r)
    unclaim_requeue ;;
  stm_ret (rowcount_is_1 k).

Record recovery := {
  cancelAllowed : bool;
  retryableStepIds : list string;
  unknownStepIds : list string;
  scopeUpgradeStepIds : list string;
}.
Definition recovery_options (rows : list step) : recovery := {|
  cancelAllowed := existsb (fun r => has_status queued r || has_status paused_by_policy r) rows;
  retryableStepIds := map step_id (List.filter (fun r => String.eqb (effect r) "read"
    && has_status queued r && negb (bool_decide (retry_at r = None))) rows);
  unknownStepIds := map step_id (List.filter (has_status execution_unknown) rows);
  scopeUpgradeStepIds := map step_id (List.filter (fun r => String.eqb (effect r) "write"
    && has_status paused_by_policy r
    && starts_with "missing_scope:" (default "" (terminal_reason r))) rows) |}.

Definition verify_row (new_status : string) (r : step) : step :=
  set_progress r {| p_status := status r; p_verification := new_status; p_attempt := attempt
    r; p_uncounted := uncounted_attempts r; p_claimed_by := claimed_by r; p_claimed_at :=
    claimed_at r; p_retry_at := retry_at r; p_reconcile_after := reconcile_after r;
    p_reconcile_attempts := reconcile_attempts r; p_reason := terminal_reason r |}.
Definition set_verification_status (revision_id sid tenant_id new_status : string)
    : opstm bool :=
  (if str_in new_status ["pending"; "verified"; "inconclusive"; "failed"] then stm_ret tt
   else stm_raise (ValueError "invalid verification status")) ;;;
  k <~ update_steps (fun r => is_step revision_id sid tenant_id r && has_status completed r)
    (verify_row new_status) ;;
  stm_ret (rowcount_is_1 k).
End methods.
