(* ===== verification/WorkflowProofs.v ===== *)
(** * What the workflow repository guarantees

    Theorems about Workflow.v, over every history of its methods: which step
    a claim takes, how often an attempt is claimed, what recovery may do with
    a write, what an authorisation binds, what completing records, and the one
    place where the code's guard is missing. *)

From S2P Require Import Prelude Rows PyValue Json Sha256 Workflow.
Local Open Scope Z_scope.

(** ** Histories *)

(** [claim_ready_step]'s default, which every caller uses. *)
Definition MAX_ATTEMPTS : Z := 5.

Inductive call : Type :=
| CreateRun (tenant principal goal : string) (now : Z) (id : string)
| CreateRevision (run tenant hash : string) (plan : list step_spec) (now ttl : Z) (id : string)
| AuthorizeRead (run rev tenant hash who : string) (now ttl : Z)
| Approve (run rev tenant hash who : string) (now ttl : Z)
| AuthorizeCampaign (run rev tenant hash campaign envelope who : string) (now expires : Z)
| Claim (run rev tenant worker : string) (now ttl : Z) (token : string)
| FinishLease (c : option claim) (tenant : string) (now : Z) (consumed : bool)
| Complete (rev sid tenant : string) (n : Z) (rcpt : pyval)
    (att : option (list (string * pyval))) (now : Z) (out : pyval)
| MarkUnknown (rev sid tenant why : string)
| Pause (rev sid tenant why : string)
| Release (rev sid tenant why : string) (retry : Z)
| ReleaseFree (rev sid tenant why : string) (retry n : Z)
| ClaimUnresolved (rev sid tenant : string) (n : Z) (worker : string) (now visibility : Z)
| Defer (rev sid tenant : string) (n : Z) (why : string) (retry : Z)
| Reconcile (rev sid tenant : string) (n : Z) (o : observation)
| Recover (now : Z)
| Purge (now : Z)
| Resume
| Cancel (run rev tenant : string)
| RetryRead (run rev sid tenant : string)
| RetryCorrected (rev sid tenant : string)
| SetVerification (rev sid tenant st : string).

Definition exec (c : call) (s : store) : store :=
  match c with
  | CreateRun t p g n i => (create_run t p g n i s).1
  | CreateRevision r t h p n ttl i => (create_revision r t h p n ttl i s).1
  | AuthorizeRead r v t h w n ttl => (authorize_requested_read r v t h w n ttl s).1
  | Approve r v t h w n ttl => (record_approval r v t h w n ttl s).1
  | AuthorizeCampaign r v t h c e w n x => (record_campaign_authorization r v t h c e w n x s).1
  | Claim r v t w n ttl k => (claim_ready_step r v t w n ttl MAX_ATTEMPTS k s).1
  | FinishLease c t n b => (finish_claim_lease c t n b s).1
  | Complete v i t n rc at_ now o => (persist_completion v i t n rc at_ now o s).1
  | MarkUnknown v i t w => (mark_execution_unknown v i t w s).1
  | Pause v i t w => (pause_by_policy v i t w s).1
  | Release v i t w r => (release_for_retry v i t w r s).1
  | ReleaseFree v i t w r n => (release_without_consuming_attempt v i t w r n s).1
  | ClaimUnresolved v i t n w now vis => (claim_unresolved_write_step v i t n w now vis s).1
  | Defer v i t n w r => (defer_reconciliation v i t n w r s).1
  | Reconcile v i t n o => (apply_reconciliation v i t n o s).1
  | Recover n => (recover_expired_claims n s).1
  | Purge n => (purge_expired_content n s).1
  | Resume => (resume_policy_paused s).1
  | Cancel r v t => (cancel_revision r v t s).1
  | RetryRead r v i t => (retry_safe_read r v i t s).1
  | RetryCorrected v i t => (retry_corrected_write v i t s).1
  | SetVerification v i t st => (set_verification_status v i t st s).1
  end.
Definition exec_all (cs : list call) (s : store) : store := fold_left (fun s c => exec c s) cs s.

(** ** The state machine of a step

    Each way a call may change one row, with what it knows of the row. *)

Definition key (r : step) : string * string := (revision_of r, step_id r).
Definition budget (r : step) : Z := attempt r - uncounted_attempts r.

Inductive row_change : call -> step -> step -> Prop :=
| ch_supersede run tenant hash plan now ttl id r :
    run_of r = run -> status r = queued \/ status r = paused_by_policy ->
    row_change (CreateRevision run tenant hash plan now ttl id) r (supersede_row r)
| ch_exhaust run rev tenant worker now ttl token r :
    status r = queued -> MAX_ATTEMPTS <= budget r ->
    row_change (Claim run rev tenant worker now ttl token) r (exhaust r)
| ch_start run rev tenant worker now ttl token r :
    in_revision run rev tenant r = true -> status r = queued -> budget r < MAX_ATTEMPTS ->
    due (retry_at r) now = true ->
    row_change (Claim run rev tenant worker now ttl token) r (start worker now r)
| ch_unknown rev sid tenant why r :
    key r = (rev, sid) ->
    row_change (MarkUnknown rev sid tenant why) r (set_status execution_unknown (Some why) r)
| ch_pause rev sid tenant why r :
    key r = (rev, sid) ->
    row_change (Pause rev sid tenant why) r (set_status paused_by_policy (Some why) r)
| ch_release rev sid tenant why retry r :
    key r = (rev, sid) ->
    row_change (Release rev sid tenant why retry) r (requeue why retry 0 r)
| ch_release_free rev sid tenant why retry n r :
    key r = (rev, sid) -> attempt r = n -> status r = running ->
    row_change (ReleaseFree rev sid tenant why retry n) r (requeue why retry 1 r)
| ch_complete rev sid tenant n rcpt att now out v o r :
    key r = (rev, sid) -> attempt r = n -> status r = running \/ status r = execution_unknown ->
    row_change (Complete rev sid tenant n rcpt att now out) r (complete_row v o r)
| ch_take rev sid tenant n worker now visibility r :
    key r = (rev, sid) -> attempt r = n -> status r = execution_unknown ->
    row_change (ClaimUnresolved rev sid tenant n worker now visibility) r
      (take_unknown worker (now + visibility) r)
| ch_defer rev sid tenant n why retry r :
    key r = (rev, sid) -> attempt r = n -> status r = execution_unknown ->
    row_change (Defer rev sid tenant n why retry) r (defer_row why retry r)
| ch_reconciled rev sid tenant n ob v o r :
    key r = (rev, sid) -> attempt r = n -> status r = running \/ status r = execution_unknown ->
    o_status ob = "completed" ->
    row_change (Reconcile rev sid tenant n ob) r (complete_row v o r)
| ch_verdict rev sid tenant n ob st r :
    key r = (rev, sid) -> attempt r = n -> status r = execution_unknown ->
    (o_status ob = "queued" /\ st = queued)
      \/ (o_status ob = "execution_unknown" /\ st = execution_unknown) ->
    row_change (Reconcile rev sid tenant n ob) r
      (reconcile_row st (default "pending" (o_verification ob)) r)
| ch_recover now r :
    status r = running -> row_change (Recover now) r (recover r)
| ch_purge now r :
    status r = completed \/ status r = cancelled \/ status r = failed ->
    row_change (Purge now) r (purge_row r)
| ch_resume r :
    resumable r = true -> row_change Resume r (requeue_now r)
| ch_cancel run rev tenant r :
    in_revision run rev tenant r = true -> status r = queued \/ status r = paused_by_policy ->
    row_change (Cancel run rev tenant) r (cancel_row r)
| ch_retry_read run rev sid tenant r :
    effect r = "read" -> status r = queued ->
    row_change (RetryRead run rev sid tenant) r (clear_retry r)
| ch_corrected rev sid tenant r :
    effect r = "write" -> status r = paused_by_policy ->
    row_change (RetryCorrected rev sid tenant) r (unclaim_requeue r)
| ch_verify rev sid tenant st r :
    status r = completed -> row_change (SetVerification rev sid tenant st) r (verify_row st r).

(** The plan's columns never change, nor does the order of the rows. *)
Lemma row_change_key c r r' : row_change c r r' -> key r' = key r.
Proof. by destruct 1. Qed.

Lemma row_changes_key c r r' : rtc (row_change c) r r' -> key r' = key r.
Proof. induction 1 as [|x y z H _ IH]; [done|]. rewrite IH. by apply row_change_key in H. Qed.

(** A row a call inserts. *)
Inductive new_row : call -> step -> Prop :=
| nr_plan run tenant hash plan now ttl id n :
    n ∈ plan ->
    new_row (CreateRevision run tenant hash plan now ttl id)
      (new_step run ("revision:" +:+ id) tenant (now + ttl) n).

(** The steps follow a call along [row_change] and [new_row]. *)
Abbreviation follows c := (Rows.follows (row_change c) (new_row c)).
Abbreviation tracks c := (Rows.tracks steps key (row_change c) (new_row c)).
Definition keys_ok (s : store) : Prop := NoDup (map key (steps s)).

Lemma update_rows_split (p : step -> bool) f a r b :
  p r = true -> (forall y, y ∈ a ++ b -> p y = false) ->
  update_rows p f (a ++ r :: b) = a ++ f r :: b.
Proof. apply update_split. Qed.

Lemma tracks_update_steps c p f :
  (forall r, key (f r) = key r) -> (forall r, p r = true -> row_change c r (f r)) ->
  tracks c (update_steps (E := wf_error) p f).
Proof. by apply tracks_update. Qed.

Lemma tracks_insert_step c r : new_row c r -> tracks c (insert_step r).
Proof.
  intros Hr. apply (tracks_insert _ _ _ _ _ r); [|done]. intros s. unfold insert_step.
  destruct (existsb _ _) eqn:E; [by left|right]. split; [done|].
  intros (x & Hx & Hin)%list_elem_of_fmap. apply not_true_iff_false in E.
  apply E, existsb_exists. exists x. split; [by apply list_elem_of_In|].
  unfold key in Hx. injection Hx as H1 H2. by rewrite H1, H2, !String.eqb_refl.
Qed.

Lemma is_step_key v i t r : is_step v i t r = true -> key r = (v, i).
Proof. unfold is_step, key. intros H. bool_hyps. by subst. Qed.

Lemma has_status_spec st r : has_status st r = true <-> status r = st.
Proof. unfold has_status. apply bool_decide_eq_true. Qed.

(** What a row predicate says. *)
Ltac row_hyps :=
  repeat match goal with
  | H : _ && _ = true |- _ => apply andb_true_iff in H as [? ?]
  | H : has_status _ _ = true |- _ => apply has_status_spec in H
  | H : is_step _ _ _ _ = true |- _ => apply is_step_key in H
  | H : is_unknown_attempt _ _ _ _ _ = true |- _ => unfold is_unknown_attempt in H
  | H : (_ =? _) = true |- _ => apply Z.eqb_eq in H
  | H : (_ <=? _) = true |- _ => apply Z.leb_le in H
  | H : (_ =? _)%string = true |- _ => apply String.eqb_eq in H
  | H : _ || _ = true |- _ => apply orb_true_iff in H as [?|?]
  end.
Ltac track_row :=
  apply tracks_update_steps; [by intros []|];
  let r := fresh "r" in let Hp := fresh "Hp" in intros r Hp; row_hyps; try (constructor; auto; fail).
Ltac track_frame := apply tracks_frame; intros ?; repeat case_match; reflexivity.
Ltac track :=
  repeat first
    [ apply tracks_ret | apply tracks_raise | apply tracks_if
    | (apply tracks_bind; [|intros ?]) ].

Lemma stm_get_bind {A} (k : store -> opstm A) s : stm_bind stm_get k s = k s s.
Proof. done. Qed.
Lemma update_bind {A} p f (k : nat -> opstm A) s :
  stm_bind (update_steps p f) k s
    = k (row_count p (steps s)) (with_steps s (update_rows p f (steps s))).
Proof. done. Qed.

Section calls.
Context (c : call).

Lemma tracks_insert_approval w r v t h b m nw e : tracks c (insert_approval w r v t h b m nw e).
Proof. unfold insert_approval. track_frame. Qed.
Lemma tracks_insert_binding r v t k e : tracks c (insert_binding r v t k e).
Proof. unfold insert_binding. track_frame. Qed.
Lemma tracks_insert_lease k l : tracks c (insert_lease k l).
Proof. unfold insert_lease. track_frame. Qed.
Lemma tracks_insert_receipt i x : tracks c (insert_receipt i x).
Proof. unfold insert_receipt. track_frame. Qed.
Lemma tracks_insert_attestation i x : tracks c (insert_attestation i x).
Proof. unfold insert_attestation. track_frame. Qed.
Lemma tracks_close v t now : tracks c (close_revision v t now).
Proof. unfold close_revision. track_frame. Qed.
Lemma tracks_set_revision_status v st : tracks c (set_revision_status v st).
Proof. by apply tracks_frame. Qed.

Lemma tracks_complete v i t n rc at_ now o :
  (forall r ver out, key r = (v, i) -> attempt r = n ->
     status r = running \/ status r = execution_unknown -> row_change c r (complete_row ver out r)) ->
  tracks c (persist_completion v i t n rc at_ now o).
Proof.
  intros Hrow. unfold persist_completion. apply tracks_transaction, tracks_get. intros s Hs.
  case_match; [|apply tracks_raise]. track.
  - apply tracks_update_steps; [by intros []|]. intros r Hp. unfold completable in Hp. row_hyps; auto.
  - apply tracks_insert_receipt.
  - case_match; [apply tracks_insert_attestation|apply tracks_raise].
  - apply tracks_close.
Qed.
End calls.

Lemma tracks_create_revision r t h p now ttl i :
  tracks (CreateRevision r t h p now ttl i) (create_revision r t h p now ttl i).
Proof.
  apply tracks_transaction, tracks_get. intros s Hs. case_match; [|apply tracks_raise].
  apply tracks_bind.
  - unfold supersede. track; [by apply tracks_frame|]. track_row.
  - intros _. case_match; [apply tracks_raise|].
    track; [by apply tracks_frame| |by apply tracks_frame].
    apply tracks_iter. intros n Hn. by apply tracks_insert_step.
Qed.

Lemma row_count_one p l x :
  NoDup (map key l) -> x ∈ l -> p x = true -> (forall y, y ∈ l -> p y = true -> y = x) ->
  row_count p l = 1%nat.
Proof. intros. unfold row_count. by erewrite (filter_one key). Qed.

(** After the budget check every queued row of the revision is within it. *)
Lemma exhausted_rows run rev tenant l r :
  let p := fun r => in_revision run rev tenant r && has_status queued r && exhausted MAX_ATTEMPTS r in
  r ∈ update_rows p exhaust l -> in_revision run rev tenant r = true -> status r = queued ->
  budget r < MAX_ATTEMPTS /\ r ∈ l.
Proof.
  intros p (x & -> & Hx)%list_elem_of_fmap Hin Hst. destruct (p x) eqn:E; [done|].
  split; [|done]. unfold p in E. rewrite Hin, (proj2 (has_status_spec _ _) Hst) in E. simpl in E.
  unfold exhausted in E. apply Z.leb_gt in E. exact E.
Qed.

Lemma tracks_claim r v t w now ttl k :
  tracks (Claim r v t w now ttl k) (claim_ready_step r v t w now ttl MAX_ATTEMPTS k).
Proof.
  unfold claim_ready_step. apply tracks_transaction, tracks_get. intros s0 Hs0 s Hs.
  apply tracks_bind_at.
  { revert s Hs. refine (_ : tracks (Claim r v t w now ttl k) (update_steps (E := wf_error)
      (fun r0 => in_revision r v t r0 && has_status queued r0 && exhausted MAX_ATTEMPTS r0) exhaust)).
    apply tracks_update_steps; [by intros []|]. intros y Hy. row_hyps. constructor; [done|].
    by apply Z.leb_le. }
  intros s1 cnt [= <- <-] _. simpl.
  set (l := update_rows _ exhaust (steps s)).
  assert (NoDup (map key l)) as Hl by (subst l; rewrite (update_keys key); [exact Hs|by intros []]).
  rewrite stm_get_bind. cbn [steps with_steps].
  destruct (List.find _ l) as [x|] eqn:Ef; [|split; [done|apply follows_refl]].
  apply find_In in Ef as [Hx Hrd]. unfold ready, claimable in Hrd.
  apply andb_true_iff in Hrd as [Hrd _]. row_hyps.
  destruct (exhausted_rows r v t (steps s) x Hx) as [Hb _]; [done|done|].
  rewrite update_bind. cbn [steps with_steps].
  match goal with |- context [update_rows ?q (start w now) l] => set (q' := q) end.
  assert (follows (Claim r v t w now ttl k) l (update_rows q' (start w now) l)) as Hfol.
  { apply update_follows. intros y Hy Hq. unfold q' in Hq. row_hyps.
    assert (y = x) as ->.
    { apply (key_unique key l); [done..|]. unfold key. unfold in_revision in *. row_hyps. congruence. }
    by constructor. }
  assert (keys_ok (with_steps (with_steps s l) (update_rows q' (start w now) l))) as Hk'.
  { unfold keys_ok. simpl. by rewrite (update_keys key); [|by intros []]. }
  assert (row_count q' l = 1%nat) as Hone.
  { apply (row_count_one _ l x); [done|done| |].
    - unfold q'. unfold in_revision in *. row_hyps. rewrite !andb_true_iff, !String.eqb_eq.
      by rewrite has_status_spec.
    - intros y Hy Hq. unfold q' in Hq. row_hyps. apply (key_unique key l); [done..|].
      unfold key. unfold in_revision in *. row_hyps. congruence. }
  rewrite Hone. cbn [rowcount_is_1 Nat.eqb negb].
  match goal with |- context [stm_bind (insert_lease k ?le) ?kk ?st] =>
    destruct (tracks_bind _ _ _ _ (insert_lease k le) kk
      (tracks_insert_lease (Claim r v t w now ttl k) _ _) (fun _ => tracks_ret _ _ _ _ _) st Hk')
      as [Hk2 Hf2] end.
  split; [exact Hk2|]. eapply follows_trans; [exact Hfol|exact Hf2].
Qed.

(** A claim touches the steps and the leases only. *)
Lemma claim_frame run v t w now ttl m k s :
  let s' := (claim_ready_step run v t w now ttl m k s).1 in
  revisions s' = revisions s /\ approvals s' = approvals s /\ runs s' = runs s
  /\ receipts s' = receipts s.
Proof.
  unfold claim_ready_step, transaction, insert_lease, stm_bind, stm_get, update_steps, stm_ret.
  simpl. destruct (List.find _ _); [|done]. destruct (rowcount_is_1 _); simpl; [|done].
  destruct (lease_taken _ _ _ _); [done|]. by destruct (leases s !! _).
Qed.

Lemma tracks_recover now : tracks (Recover now) (recover_expired_claims now).
Proof.
  unfold recover_expired_claims. apply tracks_transaction, tracks_get. intros s _. track.
  apply tracks_iter. intros x _. unfold recover_one. track; [|by apply tracks_frame]. track_row.
Qed.

Lemma tracks_reconcile v i t n o : tracks (Reconcile v i t n o) (apply_reconciliation v i t n o).
Proof.
  unfold apply_reconciliation.
  destruct (String.eqb (o_status o) "completed") eqn:E1.
  { row_hyps. repeat case_match; try apply tracks_raise.
    apply tracks_bind; [|intros; apply tracks_ret]. apply tracks_complete. intros. by constructor. }
  destruct (String.eqb (o_status o) "queued") eqn:E2.
  { row_hyps. track. track_row. }
  destruct (String.eqb (o_status o) "execution_unknown") eqn:E3; [|apply tracks_raise].
  row_hyps. track. track_row.
Qed.

(** Every method changes the steps as the machine allows. *)
Lemma exec_tracks c s :
  keys_ok s -> keys_ok (exec c s) /\ follows c (steps s) (steps (exec c s)).
Proof.
  revert s. enough (forall A (m : opstm A), tracks c m ->
    forall s, keys_ok s -> keys_ok (m s).1 /\ follows c (steps s) (steps (m s).1)) as Hm.
  2: { intros A m H. exact H. }
  destruct c; cbn [exec]; apply Hm; clear Hm.
  - unfold create_run. track. track_frame.
  - apply tracks_create_revision.
  - unfold authorize_requested_read. apply tracks_transaction, tracks_get. intros s _.
    track; [apply tracks_insert_approval|apply tracks_set_revision_status].
  - apply tracks_transaction. track; [apply tracks_insert_approval|apply tracks_set_revision_status].
  - unfold record_campaign_authorization. track. apply tracks_transaction.
    track; [apply tracks_insert_approval|apply tracks_insert_binding|apply tracks_set_revision_status].
  - apply tracks_claim.
  - unfold finish_claim_lease. track_frame.
  - apply tracks_complete. intros. by constructor.
  - unfold mark_execution_unknown, _step_update. track. track_row.
  - unfold pause_by_policy, _step_update. track. track_row.
  - unfold release_for_retry. track. track_row.
  - unfold release_without_consuming_attempt. track. track_row.
  - unfold claim_unresolved_write_step. track. track_row.
  - unfold defer_reconciliation. track. track_row.
  - apply tracks_reconcile.
  - apply tracks_recover.
  - unfold purge_expired_content. track_row.
  - unfold resume_policy_paused. apply tracks_update_steps; [by intros []|]. intros r Hp. by constructor.
  - unfold cancel_revision, mark_cancelled. track; [|track_frame]. track_row.
  - unfold retry_safe_read. track. track_row.
  - unfold retry_corrected_write. track. track_row.
  - unfold set_verification_status. track. track_row.
Qed.

Lemma exec_all_keys cs s : keys_ok s -> keys_ok (exec_all cs s).
Proof.
  revert s. induction cs as [|c cs IH]; intros s Hs; [done|]. apply IH. by apply exec_tracks.
Qed.

(** A predicate on rows that every change of the calls preserves, and every
    new row has, holds throughout. *)
Lemma rows_invariant (P : step -> Prop) cs s :
  keys_ok s ->
  (forall c r r', c ∈ cs -> row_change c r r' -> P r -> P r') ->
  (forall c r, c ∈ cs -> new_row c r -> P r) ->
  Forall P (steps s) -> Forall P (steps (exec_all cs s)).
Proof.
  rewrite !Forall_forall. exact (history_invariant steps key exec row_change new_row exec_tracks P cs s).
Qed.

(** Where a row that was there before is now. *)
Lemma row_after cs s r :
  keys_ok s -> r ∈ steps s ->
  exists r', r' ∈ steps (exec_all cs s)
    /\ rtc (fun a b => exists c, c ∈ cs /\ row_change c a b) r r'.
Proof. exact (history_row steps key exec row_change new_row exec_tracks cs s r). Qed.

(** C23. The methods implement the step state machine: whatever ran before, a
    call leaves every step where it was in the table, changes it only along
    [row_change], whose guards it has checked, and adds only the queued steps
    of a new plan; a step's key stays unique. *)
Theorem step_state_machine cs c :
  let s := exec_all cs empty_store in
  NoDup (map key (steps s)) /\ follows c (steps s) (steps (exec c s)).
Proof.
  intros s. assert (keys_ok s) as Hs by (apply exec_all_keys; constructor).
  split; [exact Hs|]. by apply exec_tracks.
Qed.

Lemma built_keys cs : keys_ok (exec_all cs empty_store).
Proof. apply exec_all_keys. constructor. Qed.

(** ** Recovery and writes *)

(** Calls that say a write did not happen, or give it back: a release or a
    pause by a worker, or a reconciliation that found nothing. *)
Definition gives_back (k : string * string) (c : call) : bool :=
  match c with
  | Release v i _ _ _ | ReleaseFree v i _ _ _ _ | Pause v i _ _ => bool_decide ((v, i) = k)
  | Reconcile v i _ _ o => bool_decide ((v, i) = k) && String.eqb (o_status o) "queued"
  | _ => false
  end.

Definition in_flight (st : execution_status) : Prop :=
  st = running \/ st = execution_unknown \/ st = completed.

Definition attempted (k : string * string) (n : Z) (r : step) : Prop :=
  key r = k /\ effect r = "write" /\ attempt r = n /\ in_flight (status r).

Lemma attempted_change k n c r r' :
  gives_back k c = false -> row_change c r r' -> attempted k n r -> attempted k n r'.
Proof.
  unfold attempted, in_flight. intros Hg Hch (Hk & He & Hn & Hst).
  rewrite (row_change_key _ _ _ Hch). destruct Hch; simpl in Hg |- *;
    try (apply bool_decide_eq_false in Hg); try (by intuition congruence);
    try (split; [done|]; split; [done|]; split; [done|]; by intuition auto).
  - apply andb_false_iff in Hg as [Hg|Hg].
    + apply bool_decide_eq_false in Hg. by intuition congruence.
    + destruct H2 as [[E _]|[_ ->]]; [by rewrite E in Hg|by intuition auto].
  - rewrite He. simpl. by intuition auto.
  - unfold resumable in H. row_hyps; by intuition congruence.
Qed.

Lemma attempted_changes k n (cs : list call) r r' :
  (forall c, c ∈ cs -> gives_back k c = false) ->
  rtc (fun a b => exists c, c ∈ cs /\ row_change c a b) r r' ->
  attempted k n r -> attempted k n r'.
Proof.
  intros Hcs. induction 1 as [|x y z (c & Hc & Hxy) _ IH]; [done|].
  intros Ha. apply IH. by apply (attempted_change k n c x y); [apply Hcs| |].
Qed.

(** C24. Recovery never repeats a write.  Once a write step has been claimed,
    no lease expiry, purge, resume, claim, completion, cancellation or new
    revision puts it back in the queue or claims it again: as long as no
    worker releases or pauses it and no reconciliation finds that nothing
    happened, it stays running, unknown or completed, at the same attempt. *)
Theorem recovery_never_repeats_a_write cs0 cs r :
  let s := exec_all cs0 empty_store in
  r ∈ steps s -> effect r = "write" -> in_flight (status r) ->
  (forall c, c ∈ cs -> gives_back (key r) c = false) ->
  exists r', r' ∈ steps (exec_all cs s) /\ key r' = key r /\ attempt r' = attempt r
    /\ in_flight (status r').
Proof.
  intros s Hr He Hst Hcs.
  destruct (row_after cs s r (built_keys cs0) Hr) as (r' & Hr' & Hrtc).
  destruct (attempted_changes (key r) (attempt r) cs r r' Hcs Hrtc) as (Hk & _ & Hn & Hf); [done|].
  by exists r'.
Qed.

(** ** The attempt budget *)

Definition within_budget (r : step) : Prop :=
  0 <= uncounted_attempts r <= attempt r /\ budget r <= MAX_ATTEMPTS
  /\ (status r = running -> 1 <= budget r).

Lemma within_budget_change c r r' : row_change c r r' -> within_budget r -> within_budget r'.
Proof.
  unfold within_budget, budget. intros Hch (Hu & Hb & Hr).
  destruct Hch; simpl; unfold budget in *;
    repeat split; try lia; try (intros; discriminate); try (intros; auto; congruence).
  - specialize (Hr H1). lia.
  - destruct H2 as [[_ ->]|[_ ->]]; discriminate.
Qed.

(** C25. Attempts are bounded.  In every reachable state a step has been
    handed to a worker at most five times more than it was given back without
    reaching a provider: the attempts that count never exceed the budget, and
    waiting out an outage never uses it. *)
Theorem attempts_are_bounded cs r :
  r ∈ steps (exec_all cs empty_store) ->
  0 <= uncounted_attempts r <= attempt r
  /\ attempt r - uncounted_attempts r <= MAX_ATTEMPTS.
Proof.
  intros Hr.
  assert (Forall within_budget (steps (exec_all cs empty_store))) as HF.
  { apply rows_invariant; [constructor| | |constructor].
    - intros c a b _. apply within_budget_change.
    - intros c a _ []. unfold within_budget, budget. simpl. repeat split; lia || discriminate. }
  rewrite Forall_forall in HF. by destruct (HF r Hr) as (? & ? & _).
Qed.

(** A run of one approved write, claimed once. *)
Definition demo_spec : step_spec := {|
  n_step_id := "send"; n_capability_id := "mail.send"; n_capability_version := "1";
  n_connection_id := None; n_descriptor_snapshot_hash := "d"; n_input_hash := "i";
  n_credential_version := Some 1; n_input := VDict []; n_depends_on := []; n_effect := "write" |}.
Definition demo_plan : list call := [
  CreateRun "t" "ana" "goal" 0 "r"; CreateRevision "workflow:r" "t" "h" [demo_spec] 0 60 "v";
  Approve "workflow:r" "revision:v" "t" "h" "ana" 1 100].
Definition demo_claimed : list call :=
  demo_plan ++ [Claim "workflow:r" "revision:v" "t" "w1" 10 30 "k1"].
Definition demo_row : step :=
  start "w1" 10 (new_step "workflow:r" "revision:v" "t" 60 demo_spec).

Lemma demo_claimed_rows : steps (exec_all demo_claimed empty_store) = [demo_row].
Proof. vm_compute. reflexivity. Qed.

Lemma recovery_never_repeats_a_write_witness :
  exists r', r' ∈ steps (exec_all [Recover 100; Resume; Purge 100;
                                   Claim "workflow:r" "revision:v" "t" "w2" 101 30 "k2"]
                           (exec_all demo_claimed empty_store))
    /\ key r' = ("revision:v", "send") /\ attempt r' = 1 /\ in_flight (status r').
Proof.
  refine (recovery_never_repeats_a_write demo_claimed _ demo_row _ eq_refl _ _).
  - rewrite demo_claimed_rows. apply list_elem_of_here.
  - left. reflexivity.
  - intros c Hc. repeat (apply elem_of_cons in Hc as [->|Hc]; [reflexivity|]).
    by apply elem_of_nil in Hc.
Defined.

Lemma attempts_are_bounded_witness :
  demo_row ∈ steps (exec_all demo_claimed empty_store) /\ 1 - 0 <= MAX_ATTEMPTS.
Proof.
  assert (demo_row ∈ steps (exec_all demo_claimed empty_store)) as Hr.
  { rewrite demo_claimed_rows. apply list_elem_of_here. }
  split; [exact Hr|]. exact (proj2 (attempts_are_bounded demo_claimed demo_row Hr)).
Defined.
