(* ===== verification/WorkflowAuthority.v ===== *)
(** * What an authorisation binds

    Over every history of the methods of Workflow.v: which calls create a
    revision, an approval and the current revision of a run, and so what it
    means that [is_step_authorized] answers yes. *)

From S2P Require Import Prelude Rows PyValue Json Sha256 Workflow WorkflowProofs.
Local Open Scope Z_scope.

(** What a revision says of itself; only its status ever changes. *)
Definition same_revision (x y : revision) : Prop :=
  r_run x = r_run y /\ r_tenant x = r_tenant y /\ revision_number x = revision_number y
  /\ plan_graph_hash x = plan_graph_hash y /\ r_created_at x = r_created_at y.

(** The approvals a call asks for. *)
Inductive asks : call -> string -> approval -> Prop :=
| asks_read run rev tenant hash who now ttl :
    asks (AuthorizeRead run rev tenant hash who now ttl) rev {|
      a_run := run; a_tenant := tenant; a_graph_hash := hash; approved_by := who;
      approved_at := now; a_expires_at := Some (now + ttl);
      authorization_mode := "requested_read" |}
| asks_write run rev tenant hash who now ttl :
    asks (Approve run rev tenant hash who now ttl) rev {|
      a_run := run; a_tenant := tenant; a_graph_hash := hash; approved_by := who;
      approved_at := now; a_expires_at := Some (now + ttl);
      authorization_mode := "explicit_write" |}
| asks_campaign run rev tenant hash campaign envelope who now expires :
    now < expires ->
    asks (AuthorizeCampaign run rev tenant hash campaign envelope who now expires) rev {|
      a_run := run; a_tenant := tenant; a_graph_hash := hash; approved_by := who;
      approved_at := now; a_expires_at := Some expires;
      authorization_mode := "campaign_envelope" |}.

(** The plan a [CreateRevision] call proposes as revision [rev]. *)
Inductive proposes : call -> string -> revision -> list step_spec -> Z -> Prop :=
| proposes_plan run tenant hash plan now ttl id x :
    r_run x = run -> r_tenant x = tenant -> plan_graph_hash x = hash -> r_created_at x = now ->
    proposes (CreateRevision run tenant hash plan now ttl id) ("revision:" +:+ id) x plan (now + ttl).

(** The tables an authorisation reads change only like this in calls other
    than [create_revision]. *)
Record keeps_plans (c : call) (s s' : store) : Prop := {
  kp_revisions : forall v x', revisions s' !! v = Some x' ->
    exists x, revisions s !! v = Some x /\ same_revision x x';
  kp_forward : forall v x, revisions s !! v = Some x ->
    exists x', revisions s' !! v = Some x' /\ same_revision x x';
  kp_approvals : forall v a, approvals s' !! v = Some a ->
    approvals s !! v = Some a
    \/ asks c v a /\ exists x, revisions s' !! v = Some x /\ r_run x = a_run a
         /\ r_tenant x = a_tenant a /\ plan_graph_hash x = a_graph_hash a;
  kp_current : forall w r v, runs s' !! w = Some r -> current_revision_id r = Some v ->
    exists r0, runs s !! w = Some r0 /\ current_revision_id r0 = Some v;
}.

Lemma same_revision_refl x : same_revision x x.
Proof. by repeat split. Qed.
Lemma same_revision_trans x y z : same_revision x y -> same_revision y z -> same_revision x z.
Proof. unfold same_revision. naive_solver congruence. Qed.
Lemma same_revision_status x st : same_revision x (set_r_status x st).
Proof. by repeat split. Qed.
#[export] Hint Resolve same_revision_refl same_revision_status : tessera.

Section keeps.
Context (c : call).

Lemma keeps_refl s : keeps_plans c s s.
Proof. constructor; eauto with tessera. Qed.

Lemma keeps_trans s1 s2 s3 : keeps_plans c s1 s2 -> keeps_plans c s2 s3 -> keeps_plans c s1 s3.
Proof.
  intros [R1 F1 A1 C1] [R2 F2 A2 C2]. constructor.
  - intros v x3 (x2 & H2 & E2)%R2. apply R1 in H2 as (x1 & H1 & E1).
    eauto using same_revision_trans.
  - intros v x1 (x2 & H2 & E2)%F1. apply F2 in H2 as (x3 & H3 & E3).
    eauto using same_revision_trans.
  - intros v a [H|H]%A2; [|by right]. apply A1 in H as [H|(Ha & x & Hx & Hr & Ht & Hh)]; [by left|].
    right. split; [done|]. apply F2 in Hx as (x' & Hx' & (E1 & E2 & _ & E4 & _)).
    exists x'. split_and!; congruence.
  - intros w r v Hr Hv. destruct (C2 w r v Hr Hv) as (r' & Hr' & Hv'). eauto.
Qed.

(** Statements, and how they compose. *)
Definition keeping {A} (m : opstm A) : Prop := forall s, keeps_plans c s (m s).1.

Lemma keeping_ret {A} (a : A) : keeping (stm_ret a).
Proof. intros s. apply keeps_refl. Qed.
Lemma keeping_raise {A} e : keeping (stm_raise (A := A) e).
Proof. intros s. apply keeps_refl. Qed.
Lemma keeping_bind {A B} (m : opstm A) (k : A -> opstm B) :
  keeping m -> (forall a, keeping (k a)) -> keeping (stm_bind m k).
Proof.
  intros Hm Hk s. unfold stm_bind. specialize (Hm s). destruct (m s) as [s' [a|e]]; [|done].
  eapply keeps_trans; [exact Hm|apply Hk].
Qed.
Lemma keeping_get {A} (k : store -> opstm A) :
  (forall s, keeping (k s)) -> keeping (stm_bind stm_get k).
Proof. intros Hk s. apply Hk. Qed.
Lemma keeping_transaction {A} (m : opstm A) : keeping m -> keeping (transaction m).
Proof.
  intros Hm s. specialize (Hm s). unfold transaction. destruct (m s) as [s' [a|e]]; [done|].
  apply keeps_refl.
Qed.
Lemma keeping_iter {A} (f : A -> opstm unit) l : (forall x, keeping (f x)) -> keeping (stm_iter f l).
Proof.
  intros Hf. induction l as [|x l IH]; [apply keeping_ret|]. by apply keeping_bind.
Qed.
Lemma keeping_if {A} (b : bool) (m1 m2 : opstm A) :
  keeping m1 -> keeping m2 -> keeping (if b then m1 else m2).
Proof. by destruct b. Qed.

(** A statement on the other tables. *)
Lemma keeping_frame {A} (m : opstm A) :
  (forall s, revisions (m s).1 = revisions s /\ approvals (m s).1 = approvals s
             /\ runs (m s).1 = runs s) -> keeping m.
Proof.
  intros Hm s. destruct (Hm s) as (E1 & E2 & E3).
  constructor; rewrite ?E1, ?E2, ?E3; eauto with tessera.
Qed.
Lemma keeping_update p f : keeping (update_steps p f).
Proof. by apply keeping_frame. Qed.

Lemma keeping_revisions (s : store) (f : string -> revision -> string) (l : gmap string revision) :
  (forall v, l !! v = (fun x => set_r_status x (f v x)) <$> revisions s !! v) ->
  keeps_plans c s (with_revisions s l).
Proof.
  intros Hl. constructor; simpl; eauto.
  - intros v x' Hx. rewrite Hl in Hx. apply fmap_Some in Hx as (x & Hx & ->).
    eauto with tessera.
  - intros v x Hx. rewrite Hl, Hx. simpl. eauto with tessera.
Qed.

Lemma keeping_set_status v st : keeping (set_revision_status v st).
Proof.
  intros s. apply (keeping_revisions s (fun k x => if decide (k = v) then st else r_status x)).
  intros k. destruct (decide (v = k)) as [->|Hn].
  - rewrite lookup_alter_eq. destruct (revisions s !! k); simpl; [by rewrite decide_True|done].
  - rewrite lookup_alter_ne by done. destruct (revisions s !! k) as [[]|]; simpl; [|done].
    by rewrite decide_False by done.
Qed.

Lemma keeping_runs (s : store) (l : gmap string run) :
  (forall w r v, l !! w = Some r -> current_revision_id r = Some v ->
     exists r0, runs s !! w = Some r0 /\ current_revision_id r0 = Some v) ->
  keeps_plans c s (with_runs s l).
Proof. intros Hl. constructor; simpl; eauto with tessera. Qed.

Lemma keeping_close v t now : keeping (close_revision v t now).
Proof.
  intros s. unfold close_revision. case_match; [apply keeps_refl|]. cbv zeta.
  match goal with |- keeps_plans _ _ (with_runs ?s1 _, _).1 => apply (keeps_trans s s1) end.
  - apply (keeping_revisions s (fun k x => if decide (k = v /\ r_tenant x = t)
                                           then "completed" else r_status x)).
    intros k. destruct (decide (v = k)) as [->|Hn].
    + rewrite lookup_alter_eq. destruct (revisions s !! k) as [[? t' ? ? ? ?]|]; [|done]. simpl.
      destruct (String.eqb_spec t' t); case_decide; naive_solver.
    + rewrite lookup_alter_ne by done. destruct (revisions s !! k) as [[]|]; [|done]. simpl.
      by rewrite decide_False by naive_solver.
  - apply keeping_runs. intros w r k Hr Hk. rewrite lookup_fmap in Hr.
    apply fmap_Some in Hr as (r0 & Hr & ->). exists r0. split; [done|]. revert Hk. by case_match.
Qed.

Lemma keeping_approval why run v t h by_ mode now expires :
  (forall a, a = {| a_run := run; a_tenant := t; a_graph_hash := h; approved_by := by_;
                    approved_at := now; a_expires_at := Some expires;
                    authorization_mode := mode |} -> asks c v a) ->
  keeping (insert_approval why run v t h by_ mode now expires).
Proof.
  intros Ha s. unfold insert_approval, fetch_revision.
  destruct (revisions s !! v) as [x|] eqn:Ex; simpl; [|apply keeps_refl].
  destruct (String.eqb_spec (r_run x) run), (String.eqb_spec (r_tenant x) t); simpl;
    try apply keeps_refl.
  destruct (String.eqb_spec (plan_graph_hash x) h); simpl; [|apply keeps_refl].
  case_match; [|apply keeps_refl]. case_match; [apply keeps_refl|].
  constructor; simpl; eauto with tessera.
  intros k a. rewrite lookup_insert. case_decide; [|auto]. intros [= <-]. subst. right.
  split; [by apply Ha|]. eauto.
Qed.
End keeps.

Ltac keep :=
  repeat match goal with
  | |- keeping _ (transaction _) => apply keeping_transaction
  | |- keeping _ (stm_bind stm_get _) => apply keeping_get; intros ?
  | |- keeping _ (stm_bind _ _) => apply keeping_bind; [|intros ?]
  | |- keeping _ (if _ then _ else _) => apply keeping_if
  | |- keeping _ (stm_ret _) => apply keeping_ret
  | |- keeping _ (stm_raise _) => apply keeping_raise
  | |- keeping _ (update_steps _ _) => apply keeping_update
  | |- keeping _ (close_revision _ _ _) => apply keeping_close
  | |- keeping _ (set_revision_status _ _) => apply keeping_set_status
  end.
Ltac keep_frame := apply keeping_frame; intros ?; repeat case_match; done.

Lemma keeping_complete c v i t n rc at_ now o :
  keeping c (persist_completion v i t n rc at_ now o).
Proof.
  unfold persist_completion. cbv zeta. keep. case_match; [|keep]. keep.
  - unfold insert_receipt. keep_frame.
  - case_match; [|keep]. unfold insert_attestation. keep_frame.
Qed.

(** [create_revision] fails without effect or adds one revision. *)
Lemma insert_steps_ok f (plan : list step_spec) s s' :
  stm_iter (fun n => insert_step (f n)) plan s = (s', Ok tt) ->
  s' = with_steps s (steps s ++ map f plan).
Proof.
  revert s. induction plan as [|n plan IH]; intros s; simpl.
  { intros [= <-]. rewrite app_nil_r. by destruct s. }
  unfold stm_bind, insert_step. destruct (existsb _ _); [done|]. intros H'%IH. rewrite H'. simpl.
  by rewrite <- app_assoc.
Qed.

Definition superseded (run_id : string) (r : revision) : revision :=
  if String.eqb (r_run r) run_id && open_revision (r_status r) then set_r_status r "superseded" else r.
Definition open_step (run_id : string) (r : step) : bool :=
  String.eqb (run_of r) run_id && (has_status queued r || has_status paused_by_policy r).

Lemma create_revision_cases run t h plan now ttl id s :
  let v := "revision:" +:+ id in
  (exists e, create_revision run t h plan now ttl id s = (s, Err e))
  \/ (exists w x, get_run s run t = Some w /\ revisions s !! v = None
      /\ r_run x = run /\ r_tenant x = t /\ plan_graph_hash x = h /\ r_created_at x = now
      /\ create_revision run t h plan now ttl id s =
         ({| runs := <[run := set_run w (w_status w) (Some v) now]> (runs s);
             revisions := <[v := x]> (superseded run <$> revisions s);
             steps := update_rows (open_step run) supersede_row (steps s)
                      ++ map (new_step run v t (now + ttl)) plan;
             approvals := approvals s; bindings := bindings s; leases := leases s;
             receipts := receipts s; attestations := attestations s |}, Ok v)).
Proof.
  intros v. unfold create_revision, transaction. rewrite stm_get_bind.
  destruct (get_run s run t) as [w|] eqn:Ew; [|by left; eexists].
  fold v. unfold supersede, stm_bind, stm_modify, stm_raise, stm_ret, update_steps. simpl.
  destruct (revisions s !! v) as [x|] eqn:Ev; [by left; eexists|].
  match goal with |- context [{| r_run := run; r_tenant := t; revision_number := ?k;
    plan_graph_hash := h; r_status := "draft"; r_created_at := now |}] =>
    set (x := {| r_run := run; r_tenant := t; revision_number := k;
      plan_graph_hash := h; r_status := "draft"; r_created_at := now |}) end.
  match goal with |- context [stm_iter ?f plan ?s0] =>
    destruct (stm_iter f plan s0) as [s1 [[]|e]] eqn:Ei end; [|by left; eexists].
  apply insert_steps_ok in Ei. right. exists w, x. split_and!; try done.
  subst s1. reflexivity.
Qed.

Definition creates_revision (c : call) : bool :=
  match c with CreateRevision _ _ _ _ _ _ _ => true | _ => false end.

Lemma keeping_cancelled c run v t : keeping c (mark_cancelled run v t).
Proof.
  intros s. unfold mark_cancelled, fetch_revision.
  destruct (revisions s !! v) as [x|] eqn:Ex; simpl; [|apply keeps_refl].
  destruct (String.eqb (r_run x) run && String.eqb (r_tenant x) t); [|apply keeps_refl].
  destruct (String.eqb (r_status x) "superseded"); [apply keeps_refl|]. simpl.
  match goal with |- context [with_revisions s ?l] => assert (keeps_plans c s (with_revisions s l)) as Hk end.
  { apply (keeping_revisions c s (fun k x => if decide (k = v) then "cancelled" else r_status x)).
    intros k. rewrite lookup_insert. destruct (decide (v = k)) as [->|Hn].
    - rewrite Ex. simpl. by rewrite decide_True.
    - destruct (revisions s !! k) as [[]|]; simpl; [|done]. by rewrite decide_False. }
  unfold get_run. simpl. destruct (runs s !! run) as [w|] eqn:Ew; simpl; [|exact Hk].
  destruct (String.eqb (w_tenant w) t); [|exact Hk].
  destruct (bool_decide _); [|exact Hk]. eapply keeps_trans; [exact Hk|].
  apply keeping_runs. simpl. intros k r v'. rewrite lookup_insert. case_decide; [|eauto].
  intros [= <-] Hv. simpl in Hv. subst. eauto.
Qed.

Lemma exec_keeps c s : creates_revision c = false -> keeps_plans c s (exec c s).
Proof.
  intros Hc. enough (exists A (m : opstm A), keeping c m /\ (m s).1 = exec c s)
    as (A & m & Hm & <-) by apply Hm.
  destruct c; try discriminate Hc; cbn [exec]; eexists _, _; (split; [|reflexivity]); clear Hc.
  - unfold create_run. keep. intros s'. case_match; [apply keeps_refl|].
    apply keeping_runs. intros w r v. rewrite lookup_insert. case_decide; [|eauto].
    intros [= <-]. done.
  - unfold authorize_requested_read. keep. apply keeping_approval. intros ? ->. constructor.
  - unfold record_approval. keep. apply keeping_approval. intros ? ->. constructor.
  - unfold record_campaign_authorization. destruct (expires <=? now) eqn:E.
    { intros s'. apply keeps_refl. }
    keep.
    + apply keeping_approval. intros ? ->. constructor. by apply Z.leb_gt.
    + unfold insert_binding. keep_frame.
  - apply keeping_frame. intros s'. by destruct (claim_frame run rev tenant worker now ttl MAX_ATTEMPTS token s') as (? & ? & ? & _).
  - unfold finish_claim_lease. keep_frame.
  - apply keeping_complete.
  - unfold mark_execution_unknown, _step_update. keep.
  - unfold pause_by_policy, _step_update. keep.
  - unfold release_for_retry. keep.
  - unfold release_without_consuming_attempt. keep.
  - unfold claim_unresolved_write_step. keep.
  - unfold defer_reconciliation. keep.
  - unfold apply_reconciliation. repeat case_match; keep; apply keeping_complete.
  - unfold recover_expired_claims. keep. apply keeping_iter. intros x. unfold recover_one. keep.
    keep_frame.
  - unfold purge_expired_content. keep.
  - unfold resume_policy_paused. keep.
  - unfold cancel_revision. keep. apply keeping_cancelled.
  - unfold retry_safe_read. keep.
  - unfold retry_corrected_write. keep.
  - unfold set_verification_status. keep.
Qed.

(** ** What a history has asked for *)

(** The row carries the plan's columns; its content may have been purged. *)
Definition planned (x r : step) : Prop :=
  key r = key x /\ run_of r = run_of x /\ tenant_of r = tenant_of x
  /\ capability_id r = capability_id x /\ capability_version r = capability_version x
  /\ connection_id r = connection_id x
  /\ descriptor_snapshot_hash r = descriptor_snapshot_hash x
  /\ credential_version r = credential_version x /\ input_hash r = input_hash x
  /\ (input r = input x \/ input r = VDict []) /\ depends_on r = depends_on x
  /\ effect r = effect x.

Lemma planned_refl r : planned r r.
Proof. unfold planned. naive_solver. Qed.
Lemma planned_change c x r r' : row_change c r r' -> planned x r -> planned x r'.
Proof.
  intros Hch Hp. pose proof (row_change_key _ _ _ Hch) as Hk.
  unfold planned in *. rewrite Hk. clear Hk. destruct Hch; simpl in *; intuition auto.
Qed.
Lemma planned_changes c x r r' : rtc (row_change c) r r' -> planned x r -> planned x r'.
Proof. induction 1; eauto using planned_change. Qed.

Definition asked_approval (cs : list call) (s : store) (v : string) (a : approval) : Prop :=
  exists c x, c ∈ cs /\ asks c v a /\ revisions s !! v = Some x
    /\ r_run x = a_run a /\ r_tenant x = a_tenant a /\ plan_graph_hash x = a_graph_hash a.
Definition proposed_revision (cs : list call) (s : store) (v : string) (x : revision) : Prop :=
  exists c plan e, c ∈ cs /\ proposes c v x plan e
    /\ forall r, r ∈ steps s -> revision_of r = v ->
         exists n, n ∈ plan /\ planned (new_step (r_run x) v (r_tenant x) e n) r.

Record grounded (cs : list call) (s : store) : Prop := {
  g_steps : forall r, r ∈ steps s -> is_Some (revisions s !! revision_of r);
  g_plans : forall v x, revisions s !! v = Some x -> proposed_revision cs s v x;
  g_approvals : forall v a, approvals s !! v = Some a -> asked_approval cs s v a;
}.

Lemma proposes_same c v x y plan e : same_revision x y -> proposes c v x plan e -> proposes c v y plan e.
Proof.
  intros E Hp. destruct Hp. destruct E as (E1 & E2 & _ & E4 & E5). constructor; congruence.
Qed.

(** Old rows of a call come from old rows. *)
Lemma follows_old c l l' r :
  creates_revision c = false -> follows c l l' -> r ∈ l' ->
  exists r0, r0 ∈ l /\ rtc (row_change c) r0 r.
Proof.
  intros Hc Hf Hr. destruct (follows_inv _ _ _ _ r Hf Hr) as [H|(r0 & Hnew & _)]; [done|].
  by destruct Hnew.
Qed.

Lemma rtc_key c r r' : rtc (row_change c) r r' -> revision_of r' = revision_of r.
Proof. intros H%row_changes_key. unfold key in H. congruence. Qed.

Lemma grounded_keeps cs c s s' :
  creates_revision c = false -> keeps_plans c s s' -> follows c (steps s) (steps s') ->
  grounded cs s -> grounded (cs ++ [c]) s'.
Proof.
  intros Hc [R F A _] Hf [Gs Gp Ga]. constructor.
  - intros r Hr. destruct (follows_old c _ _ r Hc Hf Hr) as (r0 & H0 & Hr0).
    rewrite (rtc_key _ _ _ Hr0). destruct (Gs r0 H0) as [x Hx].
    apply F in Hx as (x' & Hx' & _). by eexists.
  - intros v x' (x & Hx & E)%R. destruct (Gp v x Hx) as (c0 & plan & e & Hc0 & Hp & Hpl).
    exists c0, plan, e. split; [set_solver|]. split; [by eapply proposes_same|].
    intros r Hr Hv. destruct (follows_old c _ _ r Hc Hf Hr) as (r0 & H0 & Hr0).
    destruct (Hpl r0 H0) as (n & Hn & Hp0). { by rewrite <- (rtc_key _ _ _ Hr0). }
    exists n. split; [done|]. destruct E as (<- & <- & _). by eapply planned_changes.
  - intros v a [H|(Ha & x & Hx & Hrest)]%A.
    + destruct (Ga v a H) as (c0 & x & Hc0 & Hask & Hx & E1 & E2 & E3).
      apply F in Hx as (x' & Hx' & (F1 & F2 & _ & F4 & _)).
      exists c0, x'. split_and!; try done; try congruence. set_solver.
    + exists c, x. split_and!; try done; try apply Hrest. set_solver.
Qed.

Lemma same_superseded run x : same_revision x (superseded run x).
Proof. unfold superseded. case_match; auto with tessera. Qed.

Lemma grounded_create cs run t h plan now ttl id s :
  grounded cs s ->
  grounded (cs ++ [CreateRevision run t h plan now ttl id])
    (create_revision run t h plan now ttl id s).1.
Proof.
  intros [Gs Gp Ga].
  destruct (create_revision_cases run t h plan now ttl id s)
    as [(e & ->)|(w & x & _ & Hnew & E1 & E2 & E3 & E4 & ->)]; simpl.
  { constructor; simpl; [done| |].
    - intros v x (c & p & e' & Hc & H)%Gp. exists c, p, e'. split; [set_solver|done].
    - intros v a (c & x & Hc & H)%Ga. exists c, x. split; [set_solver|done]. }
  set (v := "revision:" +:+ id) in *.
  assert (forall r, r ∈ update_rows (open_step run) supersede_row (steps s) ->
    exists r0, r0 ∈ steps s /\ revision_of r = revision_of r0
      /\ forall y, planned y r0 -> planned y r) as Hold.
  { intros r (r0 & -> & H0)%list_elem_of_fmap. exists r0. split; [done|].
    case_match; [|done]. split; [done|]. intros y. by unfold planned. }
  constructor; simpl.
  - intros r [Hr|Hr]%elem_of_app.
    + destruct (Hold r Hr) as (r0 & H0 & -> & _). rewrite lookup_insert. case_decide; [by eexists|].
      rewrite lookup_fmap. destruct (Gs r0 H0) as [y ->]. by eexists.
    + apply list_elem_of_fmap in Hr as (n & -> & _). simpl. rewrite lookup_insert_eq. by eexists.
  - intros k y. rewrite lookup_insert. case_decide as Hk.
    + intros [= <-]. subst k. exists (CreateRevision run t h plan now ttl id), plan, (now + ttl).
      split; [set_solver|]. split; [by constructor|]. simpl. intros r [Hr|Hr]%elem_of_app Hv.
      * destruct (Hold r Hr) as (r0 & H0 & E & _). destruct (Gs r0 H0) as [z Hz]. congruence.
      * apply list_elem_of_fmap in Hr as (n & -> & Hn). exists n. split; [done|].
        rewrite E1, E2. apply planned_refl.
    + rewrite lookup_fmap. intros (y0 & Hy & ->)%fmap_Some.
      destruct (Gp k y0 Hy) as (c & p & e & Hc & Hp & Hpl). exists c, p, e.
      pose proof (same_superseded run y0) as Hss.
      split; [set_solver|]. split; [by eapply proposes_same|]. simpl. intros r [Hr|Hr]%elem_of_app Hv.
      * destruct (Hold r Hr) as (r0 & H0 & E & Hpr). destruct (Hpl r0 H0) as (n & Hn & H1); [congruence|].
        exists n. split; [done|]. destruct Hss as (<- & <- & _). by apply Hpr.
      * apply list_elem_of_fmap in Hr as (n & -> & _). by destruct Hk.
  - intros k a Hka. destruct (Ga k a Hka) as (c & y & Hc & Ha & Hy & F1 & F2 & F3).
    destruct (same_superseded run y) as (G1 & G2 & _ & G4 & _).
    exists c, (superseded run y). split; [set_solver|]. split; [done|].
    simpl. rewrite lookup_insert_ne by congruence. rewrite lookup_fmap, Hy.
    split_and!; try done; congruence.
Qed.

Lemma grounded_exec cs c s : keys_ok s -> grounded cs s -> grounded (cs ++ [c]) (exec c s).
Proof.
  intros Hs Hg. destruct (creates_revision c) eqn:E.
  - destruct c; try discriminate E. by apply grounded_create.
  - apply (grounded_keeps cs c s); [done|by apply exec_keeps|by apply exec_tracks|done].
Qed.

Lemma grounded_history cs : grounded cs (exec_all cs empty_store).
Proof.
  induction cs as [|c cs IH] using rev_ind; [constructor; simpl; set_solver|].
  unfold exec_all in *. rewrite fold_left_app. simpl. apply grounded_exec; [|done].
  apply built_keys.
Qed.

(** ** The theorems *)

(** Some call of the history authorises effect [eff] of the revision, and its
    authorisation has not expired at [now]. *)
Definition authorises (cs : list call) (run v tenant hash eff : string) (now : Z) : Prop :=
  (exists who t ttl, Approve run v tenant hash who t ttl ∈ cs /\ now <= t + ttl)
  \/ (exists who t ttl, AuthorizeRead run v tenant hash who t ttl ∈ cs /\ eff = "read"
      /\ now <= t + ttl)
  \/ (exists campaign envelope who t expires,
        AuthorizeCampaign run v tenant hash campaign envelope who t expires ∈ cs
        /\ eff = "write" /\ t < expires /\ now <= expires).

Lemma is_step_authorized_inv s run v tenant hash eff now :
  is_step_authorized s run v tenant hash eff now = true ->
  exists a x w, approvals s !! v = Some a /\ revisions s !! v = Some x /\ runs s !! run = Some w
    /\ a_run a = run /\ a_tenant a = tenant /\ a_graph_hash a = hash
    /\ current_revision_id w = Some v /\ unexpired a now = true
    /\ mode_permits (authorization_mode a) eff = true.
Proof.
  unfold is_step_authorized, find_approval, fetch_revision, get_run.
  destruct (approvals s !! v) as [a|]; simpl; [|done].
  destruct (String.eqb (a_run a) run && String.eqb (a_tenant a) tenant
            && String.eqb (a_graph_hash a) hash) eqn:Ea; [|done].
  destruct (revisions s !! v) as [x|]; simpl; [|done]. destruct (String.eqb (r_run x) run && String.eqb (r_tenant x) tenant); [|done].
  destruct (runs s !! run) as [w|]; simpl; [|done].
  destruct (String.eqb (w_tenant w) tenant); simpl; [|done].
  rewrite !andb_true_iff, bool_decide_eq_true. intros (((Hcur & _) & Hexp) & Hmode).
  bool_hyps. exists a, x, w. by split_and!.
Qed.

Lemma asks_authorises cs c v a eff now :
  c ∈ cs -> asks c v a -> unexpired a (Some now) = true ->
  mode_permits (authorization_mode a) eff = true ->
  authorises cs (a_run a) v (a_tenant a) (a_graph_hash a) eff now.
Proof.
  intros Hc Ha Hx Hm. unfold authorises. destruct Ha; simpl in *; apply Z.leb_le in Hx.
  - right. left. unfold mode_permits in Hm. simpl in Hm. rewrite orb_false_r in Hm.
    apply String.eqb_eq in Hm. subst. eauto 8.
  - left. eauto 8.
  - right. right. unfold mode_permits in Hm. simpl in Hm. apply String.eqb_eq in Hm. subst. eauto 12.
Qed.

(** Revision [v] carries the plan of one [CreateRevision] call with this hash. *)
Definition carries_plan (cs : list call) (s : store) (run v tenant hash : string) : Prop :=
  exists plan t ttl id,
    CreateRevision run tenant hash plan t ttl id ∈ cs /\ v = "revision:" +:+ id
    /\ forall r, r ∈ steps s -> revision_of r = v ->
         exists n, n ∈ plan /\ planned (new_step run v tenant (t + ttl) n) r.

Lemma authorised_grounds cs run v tenant hash eff now :
  let s := exec_all cs empty_store in
  is_step_authorized s run v tenant hash eff (Some now) = true ->
  authorises cs run v tenant hash eff now /\ carries_plan cs s run v tenant hash.
Proof.
  intros s (a & x & w & Ha & Hx & _ & <- & <- & <- & _ & Hexp & Hmode)%is_step_authorized_inv.
  destruct (grounded_history cs) as [_ Gp Ga].
  destruct (Ga v a Ha) as (c & x' & Hc & Hask & Hx' & E1 & E2 & E3).
  assert (x' = x) as -> by (unfold s in Hx; congruence).
  split; [by eapply asks_authorises|].
  destruct (Gp v x Hx) as (c' & plan & e & Hc' & Hp & Hrows).
  rewrite E1, E2 in Hrows. destruct Hp; subst.
  exists plan, (r_created_at x), ttl, id. rewrite <- E1, <- E2, <- E3. split; [done|]. split; [done|].
  intros r Hr Hv. rewrite E1, E2. by apply Hrows.
Qed.

(** C26. What is authorised to run is what was asked for.  Whenever
    [is_step_authorized] admits an effect of a revision, each of its steps
    carries the capability, connection, credential version, input hash,
    dependencies and effect of one plan, created with exactly the graph hash
    that is asked about, and a human approval, a request for a read (reads
    only) or a campaign envelope (writes only) for that run, revision, tenant
    and hash was recorded and has not expired. *)
Theorem authorised_means_asked cs run v tenant hash eff now :
  let s := exec_all cs empty_store in
  is_step_authorized s run v tenant hash eff (Some now) = true ->
  authorises cs run v tenant hash eff now /\ carries_plan cs s run v tenant hash.
Proof. apply authorised_grounds. Qed.

Lemma authorised_means_asked_witness :
  authorises demo_claimed "workflow:r" "revision:v" "t" "h" "write" 50
  /\ exists plan t ttl id,
       CreateRevision "workflow:r" "t" "h" plan t ttl id ∈ demo_claimed /\ "revision:v" = "revision:" +:+ id
       /\ exists n, n ∈ plan /\ planned (new_step "workflow:r" "revision:v" "t" (t + ttl) n) demo_row.
Proof.
  destruct (authorised_means_asked demo_claimed "workflow:r" "revision:v" "t" "h" "write" 50)
    as (Ha & plan & t & ttl & id & Hc & Hv & Hr).
  { vm_compute. reflexivity. }
  split; [exact Ha|]. exists plan, t, ttl, id. split; [exact Hc|]. split; [exact Hv|].
  apply Hr; [|reflexivity]. rewrite demo_claimed_rows. apply list_elem_of_here.
Defined.

(** The revision exists and is not the run's current one. *)
Definition retired (run v : string) (s : store) : Prop :=
  is_Some (revisions s !! v)
  /\ forall w, runs s !! run = Some w -> current_revision_id w <> Some v.

Lemma retired_exec run v c s : retired run v s -> retired run v (exec c s).
Proof.
  intros [[x Hx] Hc]. destruct (creates_revision c) eqn:E.
  - destruct c; try discriminate E. simpl.
    destruct (create_revision_cases run0 tenant hash plan now ttl id s)
      as [(e & ->)|(w & y & Hw & Hnew & _ & _ & _ & _ & ->)]; simpl; [by split; [eexists|]|].
    split; simpl.
    + rewrite lookup_insert. case_decide; [by eexists|]. rewrite lookup_fmap, Hx. by eexists.
    + intros w'. rewrite lookup_insert. case_decide; [|by apply Hc]. intros [= <-]. simpl.
      intros [= <-]. congruence.
  - destruct (exec_keeps c s E) as [_ F _ C]. split.
    + destruct (F v x Hx) as (x' & Hx' & _). by eexists.
    + intros w Hw Hv. destruct (C run w v Hw Hv) as (w0 & Hw0 & Hv0). by apply (Hc w0).
Qed.

Lemma retired_history run v cs s : retired run v s -> retired run v (exec_all cs s).
Proof.
  revert s. induction cs as [|c cs IH]; intros s Hs; [done|]. apply IH. by apply retired_exec.
Qed.


