(* ===== verification/WorkflowClaims.v ===== *)
(** * Claiming and completing a step

    What [claim_ready_step] and [persist_completion] of Workflow.v do on every
    branch, and what a completion leaves behind. *)

From S2P Require Import Prelude Rows PyValue Json Sha256 Workflow WorkflowProofs.
Local Open Scope Z_scope.

(** ** The dependencies of a step *)

Definition completed_in (l : list step) (v d : string) : Prop :=
  exists x, x ∈ l /\ key x = (v, d) /\ status x = completed.
(** A step that may start: queued, due, and after all its dependencies. *)
Definition may_start (l : list step) (run v t : string) (now : Z) (r : step) : Prop :=
  in_revision run v t r = true /\ status r = queued /\ due (retry_at r) now = true
  /\ NoDup (depends_on r) /\ forall d, d ∈ depends_on r -> completed_in l v d.

Lemma ids_NoDup l v p :
  NoDup (map key l) ->
  NoDup (map step_id (List.filter p (List.filter (fun r => String.eqb (revision_of r) v) l))).
Proof.
  induction l as [|r l IH]; simpl; intros Hnd; [constructor|].
  apply NoDup_cons in Hnd as [Hn Hnd]. destruct (String.eqb_spec (revision_of r) v) as [Hv|]; [|by apply IH].
  simpl. destruct (p r); [|by apply IH]. simpl. constructor; [|by apply IH].
  intros (x & Hx & Hin)%list_elem_of_fmap. apply in_filter in Hin as [Hin _].
  apply in_filter in Hin as [Hin Hvx%String.eqb_eq]. apply Hn, list_elem_of_fmap.
  exists x. split; [|done]. unfold key. congruence.
Qed.

Lemma dependencies_completed_spec s v deps :
  keys_ok s ->
  _dependencies_completed s v deps = true
  <-> NoDup deps /\ forall d, d ∈ deps -> completed_in (steps s) v d.
Proof.
  intros Hk. unfold _dependencies_completed, steps_of.
  destruct deps as [|d0 deps0] eqn:Ed.
  { split; [|done]. intros _. split; [constructor|]. by intros d Hd%elem_of_nil. }
  rewrite <- Ed. clear Ed d0 deps0.
  set (found := List.filter _ _). assert (NoDup (map step_id found)) as Hnd by by apply ids_NoDup.
  assert (forall x, x ∈ found <-> x ∈ steps s /\ revision_of x = v /\ step_id x ∈ deps) as Hin.
  { intros x. unfold found. rewrite !in_filter, String.eqb_eq, str_in_spec. tauto. }
  rewrite andb_true_iff, Nat.eqb_eq, forallb_forall. split.
  - intros [Hlen Hall].
    assert (map step_id found ≡ₚ deps) as HP.
    { apply submseteq_length_Permutation; [|rewrite length_map; lia].
      apply NoDup_submseteq; [done|]. intros d (x & -> & Hx)%list_elem_of_fmap. apply Hin in Hx. tauto. }
    split; [by rewrite <- HP|]. intros d Hd. rewrite <- HP in Hd.
    apply list_elem_of_fmap in Hd as (x & -> & Hx). exists x. pose proof (proj1 (Hin x) Hx) as (? & ? & _).
    split; [done|]. split; [unfold key; congruence|]. apply has_status_spec, Hall. by apply list_elem_of_In.
  - intros [Hdeps Hall].
    assert (map step_id found ≡ₚ deps) as HP.
    { apply NoDup_Permutation; [done..|]. intros d. split.
      - intros (x & -> & Hx)%list_elem_of_fmap. apply Hin in Hx. tauto.
      - intros Hd. destruct (Hall d Hd) as (x & Hx & Hkx & _). injection Hkx as Hv <-.
        apply list_elem_of_fmap. exists x. split; [done|]. by apply Hin. }
    split; [by rewrite <- HP, length_map|]. intros x Hx%list_elem_of_In%Hin.
    destruct Hx as (Hx & Hv & Hd). destruct (Hall _ Hd) as (y & Hy & Hky & Hst).
    apply has_status_spec. rewrite (key_unique key (steps s) x y); try done. unfold key in *. congruence.
Qed.

Lemma ready_spec s run v t now r :
  keys_ok s -> ready s run v t now r = true <-> may_start (steps s) run v t now r.
Proof.
  intros Hk. unfold ready, claimable, may_start.
  rewrite !andb_true_iff, has_status_spec, dependencies_completed_spec by done. tauto.
Qed.

(** ** Claiming *)

(** A queued step of the revision whose attempts are spent. *)
Definition spent (run v t : string) (r : step) : bool :=
  in_revision run v t r && has_status queued r && exhausted MAX_ATTEMPTS r.

(** A claim hands out the first step that may start, and only that.  It
    fails the queued steps of the revision that have spent their attempts;
    then, among the others, the first one in the table that is queued, due and
    has every dependency completed becomes running at the next attempt, with a
    lease under the hash of a fresh token; when there is none nothing else
    changes, and a lease that exists already leaves everything as it was. *)
Theorem claim_takes_first_ready run v t worker now ttl token s :
  keys_ok s ->
  let l := update_rows (spent run v t) exhaust (steps s) in
  match claim_ready_step run v t worker now ttl MAX_ATTEMPTS token s with
  | (s', Ok None) => s' = with_steps s l /\ forall r, r ∈ l -> ~ may_start l run v t now r
  | (s', Ok (Some c)) =>
      exists a r b, l = a ++ r :: b /\ may_start l run v t now r
      /\ (forall x, x ∈ a -> ~ may_start l run v t now x)
      /\ lease_taken s v (step_id r) (attempt r + 1) = false
      /\ leases s !! sha256 token = None
      /\ c = {| c_lease := token; c_step := step_id r; c_attempt := attempt r + 1;
                c_revision := v |}
      /\ s' = with_leases (with_steps s (a ++ start worker now r :: b))
           (<[sha256 token := {| l_revision := v; l_step := step_id r; l_attempt := attempt r + 1;
                l_tenant := t; worker_id := worker; l_expires_at := now + ttl;
                consumed_at := None; revoked_at := None |}]> (leases s))
  | (s', Err e) => s' = s /\ e = IntegrityError
      /\ exists r, r ∈ l /\ may_start l run v t now r
           /\ (lease_taken s v (step_id r) (attempt r + 1) = true \/ is_Some (leases s !! sha256 token))
  end.
Proof.
  intros Hk l. unfold claim_ready_step, transaction. rewrite stm_get_bind, update_bind.
  change (update_rows _ exhaust (steps s)) with l. rewrite stm_get_bind. cbn [steps with_steps].
  assert (NoDup (map key l)) as Hl by (subst l; rewrite (update_keys key); [exact Hk|by intros []]).
  assert (forall r, ready (with_steps s l) run v t now r = true <-> may_start l run v t now r) as Hrd.
  { intros r. by apply ready_spec. }
  destruct (List.find _ l) as [r|] eqn:Ef.
  2: { split; [done|]. intros r Hr Hst%Hrd. apply list_elem_of_In in Hr.
       pose proof (find_none _ _ Ef r Hr). congruence. }
  apply find_split in Ef as (a & b & El & Hr%Hrd & Ha).
  rewrite update_bind. cbn [steps with_steps].
  match goal with |- context [update_rows ?q (start worker now) l] => set (p := q) end.
  assert (p r = true) as Hpr.
  { destruct Hr as (Hin & Hst & _). unfold p, in_revision in *. row_hyps.
    by rewrite !andb_true_iff, !String.eqb_eq, has_status_spec. }
  assert (forall y, y ∈ l -> p y = true -> y = r) as Hone.
  { intros y Hy Hpy. unfold p in Hpy. row_hyps. destruct Hr as (Hin & _).
    unfold in_revision in Hin. row_hyps. apply (key_unique key l); [done|done| |unfold key; congruence].
    rewrite El. set_solver. }
  rewrite (row_count_one p l r Hl); [|rewrite El; set_solver|done|done].
  cbn [rowcount_is_1 Nat.eqb negb].
  assert (update_rows p (start worker now) l = a ++ start worker now r :: b) as ->.
  { rewrite El. apply update_rows_split; [done|]. intros y Hy. apply not_true_iff_false. intros Hpy.
    assert (y = r) as -> by (apply Hone; [rewrite El; set_solver|done]).
    rewrite El in Hl. by apply (NoDup_split_key key a r b r). }
  unfold insert_lease, stm_bind. cbn [l_revision l_step l_attempt].
  change (lease_taken (with_steps (with_steps s l) _) v (step_id r) (attempt r + 1))
    with (lease_taken s v (step_id r) (attempt r + 1)).
  assert (r ∈ l) as Hrl by (rewrite El; set_solver).
  destruct (lease_taken s v (step_id r) (attempt r + 1)) eqn:Etk.
  { split_and!; [done..|]. exists r. split_and!; [done..|by left]. }
  cbn [leases with_steps]. destruct (leases s !! sha256 token) eqn:Els.
  { split_and!; [done..|]. exists r. split_and!; [done..|by right]. }
  exists a, r, b. split_and!; try done. intros x Hx Hst%Hrd. rewrite Ha in Hst; [done|]. exact Hx.
Qed.

Lemma claim_takes_first_ready_witness :
  keys_ok (exec_all demo_plan empty_store)
  /\ exists r, may_start [new_step "workflow:r" "revision:v" "t" 60 demo_spec]
                 "workflow:r" "revision:v" "t" 10 r.
Proof.
  set (s := exec_all demo_plan empty_store).
  assert (steps s = [new_step "workflow:r" "revision:v" "t" 60 demo_spec]) as Es
    by (vm_compute; reflexivity).
  assert ((claim_ready_step "workflow:r" "revision:v" "t" "w1" 10 30 MAX_ATTEMPTS "k1" s).2
          = Ok (Some {| c_lease := "k1"; c_step := "send"; c_attempt := 1;
                        c_revision := "revision:v" |})) as Ec by (vm_compute; reflexivity).
  pose proof (built_keys demo_plan) as Hk. split; [exact Hk|].
  pose proof (claim_takes_first_ready "workflow:r" "revision:v" "t" "w1" 10 30 "k1" s Hk) as H.
  destruct (claim_ready_step _ _ _ _ _ _ _ _ s) as [s' [[c|]|e]]; try discriminate Ec.
  destruct H as (_ & r & _ & _ & Hr & _). exists r. rewrite Es in Hr. exact Hr.
Defined.

(** ** Completing *)

Section completion.
Context (v i t : string) (n : Z) (rcpt : pyval) (att : option (list (string * pyval))).

Definition the_receipt_id : string := receipt_id_of v i n (json_text rcpt).
Definition the_attestation_id : pyval := get (default [] att) "attestation_id".

(** Row [r] of [s] may be completed with this receipt and attestation. *)
Record completes (s : store) (r : step) : Prop := {
  cm_row : r ∈ steps s /\ is_step v i t r = true;
  cm_attempt : attempt r = n;
  cm_open : status r = running \/ status r = execution_unknown;
  cm_attested : effect r = "write" -> truthy the_attestation_id = true;
  cm_receipt : receipts s !! the_receipt_id = None
    /\ forall k y, receipts s !! k = Some y -> (x_revision y, x_step y, x_attempt y) <> (v, i, n);
  cm_attestation : truthy the_attestation_id = true ->
    exists a, bind_text the_attestation_id = Some a /\ attestations s !! a = None
    /\ forall k y, attestations s !! k = Some y -> t_receipt_id y <> the_receipt_id;
}.

Definition the_verification (r : step) : string :=
  if String.eqb (effect r) "write" then "pending" else "not_required".
Definition the_receipt (now : Z) : receipt_row := {|
  x_revision := v; x_step := i; x_attempt := n; x_tenant := t; receipt := norm rcpt;
  receipt_hash := sha256 (json_text rcpt); x_created_at := now |}.
Definition the_attestation (now : Z) : attestation_row := {|
  t_receipt_id := the_receipt_id; t_revision := v; t_step := i; t_tenant := t;
  attestation := norm (VDict (default [] att));
  attestation_hash := sha256 (json_text (VDict (default [] att))); t_created_at := now |}.
Definition attested (now : Z) (l : gmap string attestation_row) : gmap string attestation_row :=
  if truthy the_attestation_id
  then match bind_text the_attestation_id with
       | Some a => <[a := the_attestation now]> l
       | None => l
       end
  else l.

(** The store after completing row [r] between the rows [a] and [b]. *)
Definition completed_store (s : store) (now : Z) (out : pyval) (a : list step) (r : step)
    (b : list step) : store := {|
  runs := runs s; revisions := revisions s;
  steps := a ++ complete_row (the_verification r) (if truthy out then out else VDict []) r :: b;
  approvals := approvals s; bindings := bindings s; leases := leases s;
  receipts := <[the_receipt_id := the_receipt now]> (receipts s);
  attestations := attested now (attestations s) |}.

Lemma insert_receipt_cases x id s :
  (insert_receipt id x s = (with_receipts s (<[id := x]> (receipts s)), Ok tt)
   /\ receipts s !! id = None
   /\ forall k y, receipts s !! k = Some y ->
        (x_revision y, x_step y, x_attempt y) <> (x_revision x, x_step x, x_attempt x))
  \/ exists e, insert_receipt id x s = (s, Err e)
     /\ ~ (receipts s !! id = None
          /\ forall k y, receipts s !! k = Some y ->
               (x_revision y, x_step y, x_attempt y) <> (x_revision x, x_step x, x_attempt x)).
Proof.
  unfold insert_receipt. case_bool_decide as H.
  - right. exists IntegrityError. split; [done|]. intros [_ Hn].
    destruct H as (k & y & Hk & E1 & E2 & E3). apply (Hn k y Hk). congruence.
  - destruct (receipts s !! id) eqn:E; [right; exists IntegrityError; naive_solver|].
    left. split_and!; [done..|]. intros k y Hk Ey. apply H. exists k, y. by simplify_eq.
Qed.

Lemma insert_attestation_cases x id s :
  (insert_attestation id x s = (with_attestations s (<[id := x]> (attestations s)), Ok tt)
   /\ attestations s !! id = None
   /\ forall k y, attestations s !! k = Some y -> t_receipt_id y <> t_receipt_id x)
  \/ exists e, insert_attestation id x s = (s, Err e)
     /\ ~ (attestations s !! id = None
          /\ forall k y, attestations s !! k = Some y -> t_receipt_id y <> t_receipt_id x).
Proof.
  unfold insert_attestation. case_bool_decide as H.
  - right. exists IntegrityError. split; [done|]. intros [_ Hn].
    destruct H as (k & y & Hk & E1). by apply (Hn k y Hk).
  - destruct (attestations s !! id) eqn:E; [right; exists IntegrityError; naive_solver|].
    left. split_and!; [done..|]. intros k y Hk Ey. apply H. by exists k, y.
Qed.

Lemma is_step_unique s r r' :
  keys_ok s -> r ∈ steps s -> r' ∈ steps s -> is_step v i t r = true -> is_step v i t r' = true ->
  r' = r.
Proof.
  intros Hk Hr Hr' H1%is_step_key H2%is_step_key. apply (key_unique key (steps s)); [done..|congruence].
Qed.

Lemma close_revision_ok s now : (close_revision v t now s).2 = Ok tt.
Proof. unfold close_revision. by case_match. Qed.

Lemma finish_close s0 s now (k : completion) :
  (let '(s', r) := stm_bind (close_revision v t now) (fun _ => stm_ret k) s in
   match r with Ok a => (s', Ok a) | Err e => (s0, Err (A := completion) e) end)
  = ((close_revision v t now s).1, Ok k).
Proof.
  unfold stm_bind, stm_ret. pose proof (close_revision_ok s now) as H.
  destruct (close_revision v t now s) as [s' [[]|e]]; [done|discriminate H].
Qed.

Lemma completable_row r :
  completable v i t n r = true ->
  attempt r = n /\ (status r = running \/ status r = execution_unknown).
Proof. unfold completable. intros H. row_hyps; auto. Qed.

(** Either nothing can be completed and nothing changes, or one row is
    completed and its revision is closed when it was the last. *)
Definition completion_post (s : store) (now : Z) (out : pyval)
    (res : store * result wf_error completion) : Prop :=
  (exists e, res = (s, Err e) /\ forall r, ~ completes s r)
  \/ (exists a r b, steps s = a ++ r :: b /\ completes s r
      /\ res = ((close_revision v t now (completed_store s now out a r b)).1,
               Ok {| k_receipt_id := the_receipt_id; k_attestation_id := the_attestation_id;
                     k_verification_status := the_verification r |})).

Lemma completion_cases s now out :
  keys_ok s -> completion_post s now out (persist_completion v i t n rcpt att now out s).
Proof.
  intros Hk. unfold persist_completion. cbv zeta. unfold transaction. rewrite stm_get_bind.
  destruct (List.find _ (steps s)) as [r|] eqn:Ef.
  2: { left. eexists. split; [done|]. intros r [[Hr Hs] _ _ _ _ _].
       apply list_elem_of_In in Hr. pose proof (find_none _ _ Ef r Hr). congruence. }
  apply find_split in Ef as (a & b & El & Hr & Ha). fold the_attestation_id.
  assert (r ∈ steps s) as Hin by (rewrite El; set_solver).
  assert (forall r', completes s r' -> r' = r) as Huniq.
  { intros r' [[Hr' Hs'] _ _ _ _ _]. by apply (is_step_unique s). }
  fold (the_verification r).
  destruct (String.eqb (effect r) "write" && negb (truthy the_attestation_id)) eqn:Eg.
  { left. eexists. split; [done|]. intros r' Hr'. rewrite (Huniq r' Hr') in Hr'. bool_hyps.
    destruct Hr' as [_ _ _ Hn _ _]. rewrite Hn in *; done. }
  unfold stm_bind at 1. cbn [stm_ret]. rewrite update_bind. cbn [steps with_steps].
  destruct (completable v i t n r) eqn:Ec.
  2: { left. eexists. split.
       { replace (row_count (completable v i t n) (steps s)) with 0%nat; [done|].
         symmetry. unfold row_count. destruct (List.filter _ _) as [|y l] eqn:El'; [done|].
         assert (y ∈ List.filter (completable v i t n) (steps s)) as Hy by (rewrite El'; set_solver).
         apply in_filter in Hy as [Hy Hcy]. assert (y = r) as ->; [|congruence].
         unfold completable in Hcy. bool_hyps. by apply (is_step_unique s). }
       intros r' Hr'. rewrite (Huniq r' Hr') in Hr'. destruct Hr' as [[_ H1] H2 H3 _ _ _].
       unfold completable in Ec. rewrite H1, H2, Z.eqb_refl in Ec. simpl in Ec.
       apply orb_false_iff in Ec as [Ec1 Ec2]. apply not_true_iff_false in Ec1, Ec2.
       rewrite has_status_spec in Ec1, Ec2. tauto. }
  assert (forall y, y ∈ steps s -> completable v i t n y = true -> y = r) as Hone.
  { intros y Hy Hcy. unfold completable in Hcy. bool_hyps. by apply (is_step_unique s). }
  rewrite (row_count_one _ (steps s) r); [|exact Hk|done..]. cbn [rowcount_is_1 Nat.eqb negb].
  rewrite El, update_rows_split; [|done|].
  2: { intros y Hy. apply not_true_iff_false. intros Hcy.
       assert (y = r) as -> by (apply Hone; [rewrite El; set_solver|done]).
       unfold keys_ok in Hk. rewrite El in Hk. by apply (NoDup_split_key key a r b r). }
  fold the_receipt_id. fold (the_receipt now). fold (the_attestation now).
  match goal with |- context [with_steps s ?l] => set (s1 := with_steps s l) end.
  unfold stm_bind at 1. cbn [stm_ret].
  destruct (insert_receipt_cases (the_receipt now) the_receipt_id s1)
    as [(Ei & Hr1 & Hr2)|(e & Ei & Hn)]; unfold stm_bind at 1; rewrite Ei.
  2: { left. exists e. split; [done|]. intros r' [_ _ _ _ Hrc _]. by apply Hn. }
  assert ((truthy the_attestation_id = true ->
    exists a, bind_text the_attestation_id = Some a /\ attestations s !! a = None
    /\ forall k y, attestations s !! k = Some y -> t_receipt_id y <> the_receipt_id) ->
    completes s r) as Hcm.
  { intros Hatt. apply completable_row in Ec as (Hn & Hst). constructor; auto.
    intros Hw. rewrite Hw in Eg. simpl in Eg. by apply negb_false_iff in Eg. }
  destruct (truthy the_attestation_id) eqn:Eatt.
  2: { right. exists a, r, b. split; [done|]. split; [by apply Hcm|].
       unfold stm_bind at 1. cbn [stm_ret]. rewrite finish_close. unfold completed_store, attested.
       by rewrite Eatt. }
  destruct (bind_text the_attestation_id) as [id|] eqn:Eb.
  2: { left. eexists. split; [reflexivity|]. intros r' [_ _ _ _ _ Hatt].
       destruct (Hatt Eatt) as (x & Hx & _). congruence. }
  match goal with |- context [stm_bind _ _ ?s0] => set (s2 := s0) end.
  destruct (insert_attestation_cases (the_attestation now) id s2)
    as [(Ea & Ha1 & Ha2)|(e & Ea & Hn)]; unfold stm_bind at 1; rewrite Ea.
  - right. exists a, r, b. split; [done|]. split; [apply Hcm; eauto|].
    rewrite finish_close. unfold completed_store, attested. by rewrite Eatt, Eb.
  - left. exists e. split; [done|]. intros r' [_ _ _ _ _ Hatt]. apply Hn.
    destruct (Hatt Eatt) as (x & Hx & H1 & H2). assert (x = id) as -> by congruence. by split.
Qed.
End completion.

Lemma completed_store_keys v i t n rcpt att s now out a r b :
  keys_ok s -> steps s = a ++ r :: b ->
  keys_ok (close_revision v t now (completed_store v i t n rcpt att s now out a r b)).1.
Proof.
  intros Hk El. unfold keys_ok, close_revision.
  assert (NoDup (map key (steps (completed_store v i t n rcpt att s now out a r b)))) as H.
  { simpl. unfold keys_ok in Hk. rewrite El, map_app in *. exact Hk. }
  by case_match.
Qed.

Lemma close_revision_tables v t now s :
  let s' := (close_revision v t now s).1 in
  steps s' = steps s /\ receipts s' = receipts s /\ attestations s' = attestations s
  /\ approvals s' = approvals s /\ bindings s' = bindings s /\ leases s' = leases s.
Proof. unfold close_revision. by case_match. Qed.

Lemma close_revision_spec v t now s :
  let s' := (close_revision v t now s).1 in
  ((exists x, x ∈ steps s /\ revision_of x = v /\ status x <> completed) ->
   revisions s' = revisions s /\ runs s' = runs s)
  /\ ((forall x, x ∈ steps s -> revision_of x = v -> status x = completed) ->
      (forall x, revisions s !! v = Some x -> r_tenant x = t ->
         revisions s' !! v = Some (set_r_status x "completed"))
      /\ (forall k w, runs s !! k = Some w -> current_revision_id w = Some v -> w_tenant w = t ->
         runs s' !! k = Some (set_run w "completed" (Some v) now))).
Proof.
  intros s'. unfold s', close_revision, steps_of.
  destruct (existsb _ _) eqn:E; (split; [intros (x & Hx & Hv & Hst)|intros Hall]); simpl.
  - done.
  - apply existsb_exists in E as (x & Hx & Hst). apply list_elem_of_In, in_filter in Hx as [Hx Hv].
    apply String.eqb_eq in Hv. apply negb_true_iff, not_true_iff_false in Hst.
    destruct Hst. apply has_status_spec. auto.
  - apply not_true_iff_false in E. destruct E. apply existsb_exists. exists x. split.
    + apply list_elem_of_In, in_filter. split; [done|]. by apply String.eqb_eq.
    + apply negb_true_iff, not_true_iff_false. by rewrite has_status_spec.
  - split.
    + intros x Hx Ht. rewrite lookup_alter_eq, Hx. simpl. by rewrite Ht, String.eqb_refl.
    + intros k w Hw Hc Ht. rewrite lookup_fmap, Hw. simpl.
      by rewrite Hc, Ht, bool_decide_true, String.eqb_refl.
Qed.

(** A completion is recorded once and entirely.  [persist_completion]
    succeeds exactly when the step is running or unknown at this attempt, a
    write comes with an attestation id, and neither the receipt nor the
    attestation exists.  Then it completes that row alone with the output,
    stores the receipt and the attestation, closes the revision and its run
    when it was the last step, and the same attempt can never be completed
    again; otherwise nothing changes. *)
Theorem completion_is_recorded_once v i t n rcpt att now out s :
  keys_ok s ->
  match persist_completion v i t n rcpt att now out s with
  | (s', Err _) => s' = s /\ forall r, ~ completes v i t n rcpt att s r
  | (s', Ok k) =>
      exists a r b, steps s = a ++ r :: b /\ completes v i t n rcpt att s r
      /\ steps s' = a ++ complete_row (the_verification r)
                           (if truthy out then out else VDict []) r :: b
      /\ receipts s' = <[the_receipt_id v i n rcpt := the_receipt v i t n rcpt now]> (receipts s)
      /\ attestations s' = attested v i t n rcpt att now (attestations s)
      /\ (approvals s', bindings s', leases s') = (approvals s, bindings s, leases s)
      /\ k_receipt_id k = the_receipt_id v i n rcpt
      /\ ((exists x, x ∈ steps s' /\ revision_of x = v /\ status x <> completed) ->
          revisions s' = revisions s /\ runs s' = runs s)
      /\ ((forall x, x ∈ steps s' -> revision_of x = v -> status x = completed) ->
          forall x, revisions s !! v = Some x -> r_tenant x = t ->
            revisions s' !! v = Some (set_r_status x "completed"))
      /\ forall rcpt2 att2 now2 out2, exists e,
           persist_completion v i t n rcpt2 att2 now2 out2 s' = (s', Err e)
  end.
Proof.
  intros Hk. destruct (completion_cases v i t n rcpt att s now out Hk)
    as [(e & -> & Hn)|(a & r & b & El & Hc & ->)]; [done|].
  exists a, r, b.
  destruct (close_revision_tables v t now (completed_store v i t n rcpt att s now out a r b))
    as (E1 & E2 & E3 & E4 & E5 & E6).
  destruct (close_revision_spec v t now (completed_store v i t n rcpt att s now out a r b)) as [Hopen Hdone].
  pose proof (completed_store_keys v i t n rcpt att s now out a r b Hk El) as Hk'.
  rewrite E4, E5, E6. split_and!; try done.
  - rewrite E1. exact Hopen.
  - rewrite E1. intros Hall x Hx. by apply Hdone.
  - intros rcpt2 att2 now2 out2.
    destruct (completion_cases v i t n rcpt2 att2 _ now2 out2 Hk')
      as [(e & -> & _)|(_ & r' & _ & _ & [_ _ _ _ [_ Hrc] _] & _)]; [by exists e|].
    destruct (Hrc (the_receipt_id v i n rcpt) (the_receipt v i t n rcpt now)); [|done].
    rewrite E2. apply lookup_insert_eq.
Qed.

Definition demo_attestation : list (string * pyval) := [("attestation_id", VStr "att-1")].
Lemma completion_is_recorded_once_witness :
  keys_ok (exec_all demo_claimed empty_store)
  /\ exists a b, [demo_row] = a ++ demo_row :: b
  /\ completes "revision:v" "send" "t" 1 (VDict [("id", VInt 7)]) (Some demo_attestation)
       (exec_all demo_claimed empty_store) demo_row.
Proof.
  set (s := exec_all demo_claimed empty_store). pose proof (built_keys demo_claimed) as Hk.
  assert (is_ok (persist_completion "revision:v" "send" "t" 1 (VDict [("id", VInt 7)])
    (Some demo_attestation) 20 (VDict []) s).2 = true) as Eo by (vm_compute; reflexivity).
  split; [exact Hk|].
  pose proof (completion_is_recorded_once "revision:v" "send" "t" 1 (VDict [("id", VInt 7)])
    (Some demo_attestation) 20 (VDict []) s Hk) as H.
  destruct (persist_completion _ _ _ _ _ _ _ _ s) as [s' [k|e]]; [|discriminate Eo].
  clear Eo. destruct H as (a & r & b & El & Hc & _). unfold s in El. rewrite demo_claimed_rows in El.
  destruct a as [|x [|y a]]; [|discriminate El..]. injection El as <- <-.
  exists [], []. split; [reflexivity|exact Hc].
Defined.

(** ** Receipts *)

(** Calls that may store a receipt for the step [k]. *)
Definition completes_step (k : string * string) (c : call) : bool :=
  match c with
  | Complete v i _ _ _ _ _ _ | Reconcile v i _ _ _ => bool_decide ((v, i) = k)
  | _ => false
  end.

(** Receipts are kept, and a new one is for the attempt of the step that the
    call completes. *)
Definition receipts_grow (c : call) (s s' : store) : Prop :=
  forall id, match receipts s !! id with
             | Some x => receipts s' !! id = Some x
             | None => forall x, receipts s' !! id = Some x ->
                 completes_step (x_revision x, x_step x) c = true
                 /\ exists r, r ∈ steps s /\ key r = (x_revision x, x_step x)
                      /\ attempt r = x_attempt x
             end.

Lemma receipts_same c s s' : receipts s' = receipts s -> receipts_grow c s s'.
Proof. intros E id. rewrite E. destruct (receipts s !! id) eqn:H; naive_solver. Qed.

Lemma completion_receipts c v i t n rcpt att now out s :
  completes_step (v, i) c = true -> keys_ok s ->
  receipts_grow c s (persist_completion v i t n rcpt att now out s).1.
Proof.
  intros Hc Hk. pose proof (completion_cases v i t n rcpt att s now out Hk) as H.
  destruct H as [(e & -> & _)|(a & r & b & _ & [[Hr Hkr] Hn _ _ [Hnone _] _] & ->)];
    [by apply receipts_same|]. cbn [fst].
  destruct (close_revision_tables v t now (completed_store v i t n rcpt att s now out a r b))
    as (_ & E & _). intros id. rewrite E. cbn [receipts completed_store].
  destruct (decide (the_receipt_id v i n rcpt = id)) as [<-|Hid].
  - rewrite Hnone. intros x. rewrite lookup_insert_eq. intros [= <-]. split; [done|].
    exists r. split; [done|]. split; [by apply (is_step_key v i t)|done].
  - rewrite lookup_insert_ne by done. destruct (receipts s !! id) eqn:H; congruence.
Qed.

Lemma bind_const {S E A B} (m : stm S E A) (b : B) s : (stm_bind m (fun _ => stm_ret b) s).1 = (m s).1.
Proof. unfold stm_bind. by destruct (m s) as [s' [a|e]]. Qed.

Ltac no_receipt := apply receipts_same; match goal with |- receipts (?m ?s).1 = _ =>
  refine ((_ : leaves receipts m) s) end.

Lemma insert_approval_receipts w r v t h b m n e : leaves receipts (insert_approval w r v t h b m n e).
Proof. intros s. unfold insert_approval. by repeat case_match. Qed.

Lemma exec_receipts c s : keys_ok s -> receipts_grow c s (exec c s).
Proof.
  intros Hk. destruct c; cbn [exec];
    try (apply completion_receipts; [simpl; by rewrite bool_decide_true|done]).
  all: try (no_receipt;
    unfold create_run, create_revision, supersede, insert_step, authorize_requested_read,
      record_approval, record_campaign_authorization, insert_binding, set_revision_status,
      claim_ready_step, insert_lease, finish_claim_lease, mark_execution_unknown,
      pause_by_policy, _step_update, release_for_retry, release_without_consuming_attempt,
      claim_unresolved_write_step, defer_reconciliation, recover_expired_claims, recover_one,
      purge_expired_content, resume_policy_paused, cancel_revision, mark_cancelled,
      retry_safe_read, retry_corrected_write, set_verification_status; leaving;
    try apply insert_approval_receipts; intros ?; simpl; repeat case_match; reflexivity).
  - apply receipts_same. apply claim_frame.
  - unfold apply_reconciliation.
    destruct (String.eqb _ "completed").
    { destruct (o_receipt o) as [[]|]; try by apply receipts_same.
      destruct (o_attestation o) as [[]|]; try by apply receipts_same.
      rewrite bind_const. apply completion_receipts; [simpl; by rewrite bool_decide_true|done]. }
    no_receipt. destruct (String.eqb _ "queued"); [leaving; by intros ?|].
    destruct (String.eqb _ "execution_unknown"); leaving; by intros ?.
Qed.

Global Instance attempt_desc_trans : Transitive attempt_desc.
Proof. intros x y z. unfold attempt_desc. lia. Qed.
Global Instance attempt_desc_total : Total attempt_desc.
Proof. intros x y. unfold attempt_desc. lia. Qed.

(** The receipt read back is the one of the highest attempt. *)
Lemma latest_receipt s v i t id x :
  receipts s !! id = Some x -> x_revision x = v -> x_step x = i -> x_tenant x = t ->
  (forall k y, receipts s !! k = Some y -> k <> id -> x_revision y = v -> x_step y = i ->
     x_attempt y < x_attempt x) ->
  get_step_receipt s v i t = Some (receipt x).
Proof.
  intros Hx Hv Hi Ht Hmax. unfold get_step_receipt.
  set (mine := List.filter _ _).
  assert (x ∈ mine) as Hin.
  { apply in_filter. split.
    - apply list_elem_of_fmap. exists (id, x). split; [done|]. by apply elem_of_map_to_list.
    - by rewrite Hv, Hi, Ht, !String.eqb_refl. }
  assert (forall y, y ∈ mine -> y = x \/ x_attempt y < x_attempt x) as Hall.
  { intros y Hy. apply in_filter in Hy as [Hy Hp]. bool_hyps.
    apply list_elem_of_fmap in Hy as ([k y'] & -> & Hk). apply elem_of_map_to_list in Hk. simpl in *.
    destruct (decide (k = id)) as [->|Hne]; [left; congruence|right; by apply (Hmax k)]. }
  assert (StronglySorted attempt_desc (merge_sort attempt_desc mine)) as Hs
    by apply (StronglySorted_merge_sort _).
  rewrite <- (merge_sort_Permutation attempt_desc mine) in Hin.
  assert (forall y, y ∈ merge_sort attempt_desc mine -> y = x \/ x_attempt y < x_attempt x) as Hall'.
  { intros y. rewrite (merge_sort_Permutation attempt_desc mine). apply Hall. }
  destruct (merge_sort attempt_desc mine) as [|h l]; [by apply elem_of_nil in Hin|].
  simpl. destruct (Hall' h ltac:(left)) as [->|Hlt]; [done|].
  apply elem_of_cons in Hin as [->|Hin]; [done|].
  apply StronglySorted_inv in Hs as [_ Hf]. rewrite Forall_forall in Hf.
  specialize (Hf x Hin). unfold attempt_desc in Hf. lia.
Qed.

Lemma row_change_attempt c r r' : row_change c r r' -> attempt r <= attempt r'.
Proof. destruct 1; simpl; lia. Qed.
Lemma row_changes_attempt c r r' : rtc (row_change c) r r' -> attempt r <= attempt r'.
Proof. induction 1 as [|x y z H _ IH]; [lia|]. apply row_change_attempt in H. lia. Qed.

(** No receipt is for an attempt its step has not reached. *)
Definition receipts_below (s : store) : Prop :=
  forall id x, receipts s !! id = Some x ->
    exists r, r ∈ steps s /\ key r = (x_revision x, x_step x) /\ x_attempt x <= attempt r.

Lemma receipts_below_exec c s : keys_ok s -> receipts_below s -> receipts_below (exec c s).
Proof.
  intros Hk Hb id x Hx. specialize (exec_receipts c s Hk id) as Hg.
  assert (exists r, r ∈ steps s /\ key r = (x_revision x, x_step x) /\ x_attempt x <= attempt r)
    as (r & Hr & Hkr & Hn).
  { destruct (receipts s !! id) eqn:E.
    - rewrite Hg in Hx. simplify_eq. by apply (Hb id).
    - destruct (Hg x Hx) as (_ & r & Hr & Hkr & Hn). exists r. split; [done|]. split; [done|lia]. }
  destruct (exec_tracks c s Hk) as [_ (old & new & E & Ho & _)].
  apply list_elem_of_lookup_1 in Hr as [j Hj].
  destruct (Forall2_lookup_l _ _ _ _ _ Ho Hj) as (r' & Hj' & Hch).
  exists r'. split; [rewrite E; apply elem_of_app; left; by eapply list_elem_of_lookup_2|].
  split; [by rewrite (row_changes_key _ _ _ Hch)|]. apply row_changes_attempt in Hch. lia.
Qed.

Lemma built_receipts cs : receipts_below (exec_all cs empty_store).
Proof.
  induction cs as [|c cs IH] using rev_ind; [by intros id x|].
  unfold exec_all in *. rewrite fold_left_app. simpl. apply receipts_below_exec; [apply built_keys|done].
Qed.

Lemma receipts_step_history k cs s id x :
  keys_ok s -> (forall c, c ∈ cs -> completes_step k c = false) ->
  receipts (exec_all cs s) !! id = Some x -> (x_revision x, x_step x) = k -> receipts s !! id = Some x.
Proof.
  revert s. induction cs as [|c cs IH]; intros s Hs Hcs; [done|]. simpl. intros Hx Hk.
  apply IH in Hx; [|by apply exec_tracks|intros c' Hc'; apply Hcs; by right|done].
  specialize (exec_receipts c s Hs id) as Hg. destruct (receipts s !! id); [congruence|].
  destruct (Hg x Hx) as [Hc _]. rewrite Hk, (Hcs c) in Hc; [done|by left].
Qed.

Lemma receipts_kept_history cs s id x :
  keys_ok s -> receipts s !! id = Some x -> receipts (exec_all cs s) !! id = Some x.
Proof.
  revert s. induction cs as [|c cs IH]; intros s Hs Hx; [done|]. simpl.
  apply IH; [by apply exec_tracks|]. specialize (exec_receipts c s Hs id) as Hg. by rewrite Hx in Hg.
Qed.

(** C28. What a worker reports is what is read back.  After a step is completed
    with a receipt, [get_step_receipt] returns that receipt (as its JSON text
    reads), and keeps returning it after any other calls until the same step
    is completed again; no other step's receipt, tenant's or older attempt's
    is returned instead. *)
Theorem receipt_roundtrip cs cs' v i t n rcpt att now out s' k :
  persist_completion v i t n rcpt att now out (exec_all cs empty_store) = (s', Ok k) ->
  (forall c, c ∈ cs' -> completes_step (v, i) c = false) ->
  get_step_receipt (exec_all cs' s') v i t = Some (norm rcpt).
Proof.
  intros Hc Hcs. set (s := exec_all cs empty_store) in *. pose proof (built_keys cs) as Hk.
  pose proof (built_receipts cs) as Hb. fold s in Hk, Hb.
  destruct (completion_cases v i t n rcpt att s now out Hk)
    as [(e & E & _)|(a & r & b & El & [[Hr Hkr] Hn _ _ [Hnone Hno] _] & E)]; rewrite E in Hc; [done|].
  injection Hc as <- _. apply is_step_key in Hkr.
  pose proof (completed_store_keys v i t n rcpt att s now out a r b Hk El) as Hk'.
  destruct (close_revision_tables v t now (completed_store v i t n rcpt att s now out a r b))
    as (_ & E2 & _). set (s1 := (close_revision _ _ _ _).1) in *.
  apply (latest_receipt _ v i t (the_receipt_id v i n rcpt) (the_receipt v i t n rcpt now)); try done.
  { apply receipts_kept_history; [done|]. rewrite E2. apply lookup_insert_eq. }
  intros id y Hy Hid Hv Hi. apply (receipts_step_history (v, i)) in Hy; [|done..|congruence].
  rewrite E2 in Hy. cbn [receipts completed_store] in Hy. rewrite lookup_insert_ne in Hy by done.
  destruct (Hb id y Hy) as (r' & Hr' & Hkr' & Hle). specialize (Hno id y Hy).
  assert (r' = r) as -> by (apply (key_unique key (steps s)); try done; congruence).
  simpl. assert (x_attempt y <> n) by congruence. lia.
Qed.

Lemma receipt_roundtrip_witness :
  get_step_receipt (exec_all [Recover 500; Purge 500]
    (persist_completion "revision:v" "send" "t" 1 (VDict [("id", VInt 7); ("at", VStr "x")])
       (Some demo_attestation) 20 (VDict []) (exec_all demo_claimed empty_store)).1)
    "revision:v" "send" "t"
  = Some (VDict [("at", VStr "x"); ("id", VInt 7)]).
Proof.
  assert (is_ok (persist_completion "revision:v" "send" "t" 1 (VDict [("id", VInt 7); ("at", VStr "x")])
    (Some demo_attestation) 20 (VDict []) (exec_all demo_claimed empty_store)).2 = true) as Eo
    by (vm_compute; reflexivity).
  destruct (persist_completion _ _ _ _ _ _ _ _ _) as [s' [k|e]] eqn:E; [|discriminate Eo].
  apply (receipt_roundtrip demo_claimed [Recover 500; Purge 500] _ _ _ _ _ _ _ _ _ _ E).
  intros c Hc. repeat (apply elem_of_cons in Hc as [->|Hc]; [reflexivity|]).
  by apply elem_of_nil in Hc.
Defined.

(** ** The missing guard *)

Definition demo_observation : observation := {|
  o_status := "completed"; o_receipt := Some (VDict [("id", VInt 7)]);
  o_attestation := Some (VDict demo_attestation); o_output := None; o_verification := None;
  o_reconciled_at := Some 120 |}.

(** A late worker undoes a completed write.  [release_for_retry] looks at
    neither the status nor the attempt: after a worker's lease expired and
    reconciliation completed its write with a receipt, that worker's late
    report of a retryable error puts the write back in the queue, and the next
    claim hands it out to be sent a second time. *)
Theorem late_release_repeats_a_write :
  let s := exec_all (demo_claimed ++ [Recover 100; Reconcile "revision:v" "send" "t" 1 demo_observation])
             empty_store in
  let s' := exec_all [Release "revision:v" "send" "t" "timeout" 130;
                      Claim "workflow:r" "revision:v" "t" "w2" 131 30 "k2"] s in
  (exists r, steps s = [r] /\ effect r = "write" /\ status r = completed /\ attempt r = 1)
  /\ get_step_receipt s "revision:v" "send" "t" = Some (VDict [("id", VInt 7)])
  /\ (exists r, steps s' = [r] /\ key r = ("revision:v", "send") /\ status r = running
       /\ attempt r = 2).
Proof.
  intros s s'. split; [|split].
  - eexists. vm_compute. repeat split.
  - vm_compute. reflexivity.
  - eexists. vm_compute. repeat split.
Qed.
