(* ===== verification/Executor.v ===== *)
(** * The workflow executor

    [WorkflowExecutor] of src/agents/orchestrator/workflow_executor.py: one
    pass authorises, claims, resolves the input of, checks and dispatches one
    step, then records what the dispatcher reported; a pass is repeated until
    nothing more can run.

    The dispatcher, the policy and the clock are arguments.  A pass is not
    atomic: between two repository calls any calls of other workers may run
    ([others]).  A dispatcher is seen through what it returns or raises. *)

From S2P Require Import Prelude ControlPlane PyValue Json Sha256 PlanSchema Workflow WorkflowProofs.
Local Open Scope Z_scope.

Definition DEFAULT_POLICY_REASON : string := "dispatch policy disabled".

(** A step policy answers like a gate ([ControlPlane.decision]). *)
Definition _policy_allows (d : decision) : bool :=
  match d with
  | Bool b => b
  | Mapping m => truthy (get_or m "allowed" (VBool true))
  | Object b _ => b
  end.
Definition _policy_reason (d : decision) : pyval :=
  let reason := match d with
                | Bool _ => VNone
                | Mapping m => get m "reason"
                | Object _ r => r
                end in
  if truthy reason then reason else VStr DEFAULT_POLICY_REASON.

(** What the dispatcher returns or raises. *)
Inductive outcome : Type :=
| Returned (result : pyval)
| AmbiguousStepError (msg : string)
| PausedStepError (msg : string) (retry_after : option Z)
| RetryableStepError (msg : string) (retry_after : option Z)
| PermissionError (msg : string)
| CorrectableStepError (msg : string)
| OtherException (msg : string)
| Killed.                       (* not an [Exception]: nothing more is recorded *)

Inductive run_error : Type :=
| RevisionNotFound
| Repository (e : wf_error)
| Uncaught (why : string).

(** ** Resolving the references of an input *)

Inductive resolve_error : Type :=
| KeyError (key : string)
| StopIteration
| TypeError (subscripted : pyval)
| IndexError
| AttributeError.

(** The except clause of [run_next] names every error but the last. *)
Definition caught (e : resolve_error) : bool :=
  match e with AttributeError => false | _ => true end.

(** [material[part]] for a string [part]. *)
Definition subscript (material : pyval) (part : string) : result resolve_error pyval :=
  match material with
  | VDict d => match dget d part with Some x => Ok x | None => Err (KeyError part) end
  | _ => Err (TypeError material)
  end.
Fixpoint walk (material : pyval) (parts : list string) : result resolve_error pyval :=
  match parts with
  | [] => Ok material
  | part :: parts' =>
      match subscript material part with
      | Ok m => walk m parts'
      | Err e => Err e
      end
  end.

Section resolve.
Context (s : store) (rows : list step) (revision_id tenant_id : string).

Definition resolve_ref (reference : pyval) : result resolve_error pyval :=
  match reference with
  | VStr text =>
      let parts := split_dot text in
      let name := default "" (head parts) in
      match List.find (fun r => String.eqb (step_id r) name) rows with
      | None => Err StopIteration
      | Some source =>
          match tail parts with
          | [] => Err IndexError
          | kind :: rest =>
              walk (if String.eqb kind "output" then default (VDict []) (output source)
                    else default VNone (get_step_receipt s revision_id name tenant_id)) rest
          end
      end
  | _ => Err AttributeError
  end.

Fixpoint _resolve_input (value : pyval) : result resolve_error pyval :=
  match value with
  | VDict d =>
      match d with
      | [(k, x)] =>
          if String.eqb k "$ref" then resolve_ref x
          else match _resolve_input x with Ok y => Ok (VDict [(k, y)]) | Err e => Err e end
      | _ =>
          match mapM_result (fun kv => match _resolve_input kv.2 with
                                       | Ok y => Ok (kv.1, y) | Err e => Err e end) d with
          | Ok d' => Ok (VDict d')
          | Err e => Err e
          end
      end
  | VList l =>
      match mapM_result _resolve_input l with Ok l' => Ok (VList l') | Err e => Err e end
  | _ => Ok value
  end.
End resolve.

(** ** One pass *)

(** What surrounds a pass. *)
Record environment := {
  dispatcher : step -> pyval -> claim -> outcome;   (* the step, its resolved input, the lease *)
  policy : step -> pyval -> decision;
  auth_now : string -> Z;                           (* the clock when an effect is checked *)
  claim_now : Z;
  settle_now : Z;
  lease_now : Z;
  lease_ttl : Z;
  paused_retry_seconds : Z;
  token : string;
  exn_text : resolve_error -> string;               (* [str(exc)] *)
  others : nat -> list call;                        (* other workers, between two calls *)
}.

(** A call of the dispatcher. *)
Record dispatch := { d_step : step; d_input : pyval; d_claim : claim }.

(** The mapping [run_next] returns. *)
Record report := { p_answer : string; p_step_id : option string; p_reason_given : pyval }.
Definition status_only (st : string) : report :=
  {| p_answer := st; p_step_id := None; p_reason_given := VNone |}.
Definition status_of_step (st sid : string) : report :=
  {| p_answer := st; p_step_id := Some sid; p_reason_given := VNone |}.

Record ran := {
  after : store;
  sent : option dispatch;
  answer : result run_error report;
}.

Section pass.
Context (env : environment) (run_id revision_id tenant_id worker : string).

Definition interleave (i : nat) (s : store) : store := exec_all (others env i) s.

(** A repository call, then the end of the lease. *)
Definition settle (c : claim) (m : call) (consumed : bool) (s : store) : store :=
  exec (FinishLease (Some c) tenant_id (lease_now env) consumed) (interleave 5 (exec m s)).

Definition pause (sid why : string) : call := Pause revision_id sid tenant_id why.

(** [exc.retry_after or default]. *)
Definition retry_or (o : option Z) (dflt : Z) : Z :=
  match o with Some z => if Z.eqb z 0 then dflt else z | None => dflt end.

(** [(attestation or {})] must have a [get]. *)
Definition as_attestation (v : pyval) : option (option (list (string * pyval))) :=
  if truthy v then match v with VDict d => Some (Some d) | _ => None end else Some None.

Definition record_outcome (d : dispatch) (o : outcome) (s : store) : ran :=
  let c := d_claim d in
  let sid := step_id (d_step d) in
  let done s' rep := {| after := s'; sent := Some d; answer := Ok rep |} in
  let fail s' e := {| after := s'; sent := Some d; answer := Err e |} in
  match o with
  | AmbiguousStepError msg =>
      done (settle c (MarkUnknown revision_id sid tenant_id msg) true s)
        (status_of_step "execution_unknown" sid)
  | PausedStepError msg retry =>
      let delay := Z.max 1 (retry_or retry (paused_retry_seconds env)) in
      done (settle c (ReleaseFree revision_id sid tenant_id msg (settle_now env + delay)
                        (c_attempt c)) false s)
        (status_of_step "retry_wait" sid)
  | RetryableStepError msg retry =>
      let delay := retry_or retry (Z.min 300 (2 ^ c_attempt c)) in
      done (settle c (Release revision_id sid tenant_id msg (settle_now env + Z.max 1 delay))
              false s)
        (status_of_step "retry_wait" sid)
  | PermissionError msg =>
      done (settle c (pause sid msg) false s) (status_of_step "blocked_connection" sid)
  | CorrectableStepError msg =>
      done (settle c (pause sid msg) false s)
        {| p_answer := "retryable_failure"; p_step_id := Some sid; p_reason_given := VStr msg |}
  | OtherException msg =>
      done (settle c (MarkUnknown revision_id sid tenant_id
                        ("unexpected dispatch outcome: " +:+ msg)) true s)
        (status_of_step "execution_unknown" sid)
  | Killed => fail s (Uncaught "killed")
  | Returned (VDict result) =>
      match as_attestation (get result "attestation") with
      | None => fail s (Uncaught "AttributeError")
      | Some att =>
          let m := persist_completion revision_id sid tenant_id (c_attempt c)
                     (get_or result "receipt" (VDict [])) att (settle_now env)
                     (get_or result "output" (VDict [])) in
          match m s with
          | (s', Err e) => fail s' (Repository e)
          | (s', Ok _) =>
              done (exec (FinishLease (Some c) tenant_id (lease_now env) true) (interleave 5 s'))
                (status_of_step "step_completed" sid)
          end
      end
  | Returned _ => fail s (Uncaught "AttributeError")
  end.

(** From the claim on: resolve the input, ask the policy, dispatch. *)
Definition run_claimed (c : claim) (s : store) : ran :=
  let stop s' a := {| after := s'; sent := None; answer := a |} in
  match get_revision s run_id revision_id tenant_id with
  | None => stop s (Err (Uncaught "TypeError"))
  | Some (_, rows) =>
    match List.find (fun r => String.eqb (step_id r) (c_step c)) rows with
    | None => stop s (Err (Uncaught "StopIteration"))
    | Some r =>
      match _resolve_input s rows revision_id tenant_id (input r) with
      | Err e =>
          if caught e then
            stop (settle c (pause (step_id r) ("workflow input reference is unavailable: "
                                               +:+ exn_text env e)) false s)
              (Ok (status_of_step "needs_replan" (step_id r)))
          else stop s (Err (Uncaught "AttributeError"))
      | Ok resolved =>
          let verdict := policy env r resolved in
          if negb (_policy_allows verdict) then
            match bind_text (_policy_reason verdict) with
            | Some why =>
                stop (settle c (pause (step_id r) why) false s)
                  (Ok {| p_answer := "paused_by_policy"; p_step_id := Some (step_id r);
                         p_reason_given := _policy_reason verdict |})
            | None => stop s (Err (Repository BindingError))
            end
          else
            record_outcome {| d_step := r; d_input := resolved; d_claim := c |}
              (dispatcher env r resolved c) (interleave 4 s)
      end
    end
  end.

Definition authorized_now (s : store) (rev : revision) (rows : list step) : bool :=
  forallb (fun r => is_step_authorized s run_id revision_id tenant_id (plan_graph_hash rev)
                      (effect r) (Some (auth_now env (effect r)))) rows.

Definition run_next (s0 : store) : ran :=
  let stop s' a := {| after := s'; sent := None; answer := a |} in
  match get_revision s0 run_id revision_id tenant_id with
  | None => stop s0 (Err RevisionNotFound)
  | Some (rev, rows) =>
    let s1 := interleave 1 s0 in
    if negb (authorized_now s1 rev rows) then stop s1 (Ok (status_only "needs_approval")) else
    match claim_ready_step run_id revision_id tenant_id worker (claim_now env) (lease_ttl env)
            MAX_ATTEMPTS (token env) (interleave 2 s1) with
    | (s2, Err e) => stop s2 (Err (Repository e))
    | (s2, Ok None) =>
        let s3 := interleave 3 s2 in
        match get_revision s3 run_id revision_id tenant_id with
        | None => stop s3 (Err (Uncaught "TypeError"))
        | Some (_, now_rows) =>
            stop s3 (Ok (status_only
              (if truthy now_rows && forallb (has_status completed) now_rows
               then "complete" else "blocked")))
        end
    | (s2, Ok (Some c)) => run_claimed c (interleave 3 s2)
    end
  end.
End pass.

(** [run_until_blocked]: pass after pass, the [i]-th in [envs i], as long as
    steps complete.  [None] when the fuel runs out. *)
Fixpoint run_until_blocked (fuel : nat) (envs : nat -> environment) (i : nat)
    (run_id revision_id tenant_id worker : string) (s : store) : option (store * result run_error report) :=
  match fuel with
  | O => None
  | S fuel' =>
      let r := run_next (envs i) run_id revision_id tenant_id worker s in
      match answer r with
      | Ok rep =>
          if String.eqb (p_answer rep) "step_completed"
          then run_until_blocked fuel' envs (S i) run_id revision_id tenant_id worker (after r)
          else Some (after r, Ok rep)
      | Err e => Some (after r, Err e)
      end
  end.
