(* ===== verification/ExecutorProofs.v ===== *)
(** * What the executor guarantees

    Theorems about Executor.v: a pass is a sequence of repository calls, it
    dispatches only what is authorised and allowed, no attempt is dispatched
    twice however many workers run, and running until blocked ends. *)

From S2P Require Import Prelude ControlPlane Rows PyValue Json Sha256 PlanSchema Workflow WorkflowProofs WorkflowAuthority WorkflowClaims Executor.
Local Open Scope Z_scope.

(** ** Leases are never forgotten *)

Definition lease_of (l : lease) : string * string * Z := (l_revision l, l_step l, l_attempt l).
Definition claim_of (c : claim) : string * string * Z := (c_revision c, c_step c, c_attempt c).

Definition leased (s : store) (x : string * string * Z) : Prop :=
  exists k l, leases s !! k = Some l /\ lease_of l = x.
Definition leases_kept (s s' : store) : Prop := forall x, leased s x -> leased s' x.

Lemma lease_taken_leased s v i n : lease_taken s v i n = true <-> leased s (v, i, n).
Proof.
  unfold lease_taken, leased. rewrite bool_decide_eq_true. split.
  - intros (k & l & Hk & H1 & H2 & H3). exists k, l. split; [done|]. unfold lease_of. congruence.
  - intros (k & l & Hk & E). unfold lease_of in E. exists k, l. split; [done|]. by simplify_eq.
Qed.

Lemma leases_kept_same s s' : leases s' = leases s -> leases_kept s s'.
Proof. intros E x (k & l & Hk & Hx). exists k, l. by rewrite E. Qed.
Lemma leases_kept_trans s1 s2 s3 : leases_kept s1 s2 -> leases_kept s2 s3 -> leases_kept s1 s3.
Proof. unfold leases_kept. auto. Qed.

(** A claim leaves the leases alone or adds the one it hands out. *)
Lemma claim_leases run v t w now ttl m k s :
  match claim_ready_step run v t w now ttl m k s with
  | (s', Ok (Some c)) => ~ leased s (claim_of c) /\ leased s' (claim_of c) /\ leases_kept s s'
      /\ c_revision c = v
  | (s', _) => leases s' = leases s
  end.
Proof.
  unfold claim_ready_step, transaction, insert_lease, stm_bind, stm_get, update_steps, stm_ret.
  simpl. destruct (List.find _ _) as [r|]; [|done]. destruct (rowcount_is_1 _); simpl; [|done].
  match goal with |- context [lease_taken ?s0 ?v0 ?i0 ?n0] => destruct (lease_taken s0 v0 i0 n0) eqn:E end;
    [done|].
  destruct (leases s !! sha256 k) eqn:Ek; [done|].
  apply not_true_iff_false in E. rewrite lease_taken_leased in E. unfold claim_of, leased. simpl.
  split; [exact E|]. split; [|split; [|done]].
  - eexists _, _. split; [apply lookup_insert_eq|done].
  - intros x (k' & l & Hk & Hx). exists k', l. split; [|done].
    simpl. rewrite lookup_insert_ne; [done|congruence].
Qed.

Lemma persist_leases v i t n rc at_ now out : leaves leases (persist_completion v i t n rc at_ now out).
Proof.
  unfold persist_completion, insert_receipt, insert_attestation, close_revision. cbv zeta.
  leaving; intros ?; simpl; repeat case_match; reflexivity.
Qed.

Lemma recover_leases now l s : leases_kept s (stm_iter (recover_one now) l s).1.
Proof.
  revert s. induction l as [|[k l0] l IH]; intros s; [by apply leases_kept_same|].
  eapply leases_kept_trans; [|apply IH]. intros x (k' & l' & Hk & Hx). unfold leased.
  cbn -[alter]. destruct (decide (k = k')) as [->|Hne].
  - eexists k', _. rewrite lookup_alter_eq, Hk. by split.
  - exists k', l'. by rewrite lookup_alter_ne.
Qed.

(** Calls that write no lease. *)
Lemma exec_leases c s : leases_kept s (exec c s).
Proof.
  destruct c; cbn [exec];
    try (apply leases_kept_same; match goal with |- leases (?m ?s0).1 = _ =>
           refine ((_ : leaves leases m) s0) end;
      unfold create_run, create_revision, supersede, insert_step, authorize_requested_read,
        record_approval, record_campaign_authorization, insert_binding, set_revision_status,
        insert_approval, mark_execution_unknown,
        pause_by_policy, _step_update, release_for_retry, release_without_consuming_attempt,
        claim_unresolved_write_step, defer_reconciliation,
        purge_expired_content, resume_policy_paused, cancel_revision, mark_cancelled,
        retry_safe_read, retry_corrected_write, set_verification_status; leaving;
      intros ?; simpl; repeat case_match; reflexivity).
  - pose proof (claim_leases run rev tenant worker now ttl MAX_ATTEMPTS token s) as H.
    destruct (claim_ready_step _ _ _ _ _ _ _ _ s) as [s' [[c|]|e]];
      [apply H|by apply leases_kept_same..].
  - unfold finish_claim_lease. destruct c as [c|]; [|by apply leases_kept_same].
    case_match; [by apply leases_kept_same|].
    destruct (leases s !! sha256 (c_lease c)) as [l|] eqn:El; [|by apply leases_kept_same].
    case_match; [|by apply leases_kept_same]. intros x (k & l' & Hk & Hx).
    destruct (decide (sha256 (c_lease c) = k)) as [<-|Hne].
    + eexists _, _. split; [apply lookup_insert_eq|]. rewrite <- Hx. by simplify_eq.
    + exists k, l'. split; [|done]. cbn [leases with_leases fst]. by rewrite lookup_insert_ne.
  - apply leases_kept_same, persist_leases.
  - unfold apply_reconciliation. apply leases_kept_same.
    match goal with |- leases (?m ?s0).1 = _ => refine ((_ : leaves leases m) s0) end.
    leaving; try apply persist_leases; by intros ?.
  - unfold recover_expired_claims, transaction. rewrite stm_get_bind. unfold stm_bind.
    pose proof (recover_leases now (abandoned_rows s now) s) as H.
    destruct (stm_iter _ _ s) as [s' [[]|e]]; [exact H|by apply leases_kept_same].
Qed.

(** The claims handed out in a history. *)
Definition granted (c : call) (s : store) : list claim :=
  match c with
  | Claim r v t w now ttl k =>
      match (claim_ready_step r v t w now ttl MAX_ATTEMPTS k s).2 with
      | Ok (Some x) => [x]
      | _ => []
      end
  | _ => []
  end.
Fixpoint claims_granted (cs : list call) (s : store) : list claim :=
  match cs with
  | [] => []
  | c :: cs' => granted c s ++ claims_granted cs' (exec c s)
  end.

Lemma claims_granted_app cs cs' s :
  claims_granted (cs ++ cs') s = claims_granted cs s ++ claims_granted cs' (exec_all cs s).
Proof.
  revert s. induction cs as [|c cs IH]; intros s; [done|]. simpl. by rewrite IH, app_assoc.
Qed.

Lemma granted_fresh c s x : x ∈ granted c s -> granted c s = [x]
  /\ ~ leased s (claim_of x) /\ leased (exec c s) (claim_of x).
Proof.
  destruct c; simpl; try by intros ?%elem_of_nil.
  pose proof (claim_leases run rev tenant worker now ttl MAX_ATTEMPTS token s) as H.
  destruct (claim_ready_step _ _ _ _ _ _ _ _ s) as [s' [[c|]|e]]; simpl; try by intros ?%elem_of_nil.
  intros ->%list_elem_of_singleton. by destruct H as (? & ? & _).
Qed.

(** No attempt of a step is handed out twice, nor one that had a lease. *)
Lemma claims_granted_distinct cs s :
  NoDup (map claim_of (claims_granted cs s))
  /\ forall x, x ∈ claims_granted cs s -> ~ leased s (claim_of x).
Proof.
  revert s. induction cs as [|c cs IH]; intros s; simpl; [split; [constructor|by intros x ?%elem_of_nil]|].
  destruct (IH (exec c s)) as [Hnd Hfresh].
  assert (forall x, x ∈ claims_granted cs (exec c s) -> ~ leased s (claim_of x)) as Hold.
  { intros x Hx Hl. by apply (Hfresh x Hx), exec_leases. }
  destruct (granted c s) as [|y l] eqn:Eg; [by split|].
  destruct (granted_fresh c s y) as (Eg' & Hy & Hy'); [rewrite Eg; by left|].
  rewrite Eg' in Eg. injection Eg as <-. simpl. split.
  - constructor; [|done]. intros (x & Ex & Hx)%list_elem_of_fmap. apply (Hfresh x Hx). by rewrite <- Ex.
  - intros x [->|Hx]%elem_of_cons; [done|]. by apply Hold.
Qed.

(** ** A pass is a sequence of repository calls *)

Section pass_calls.
Context (env : environment) (run v t worker : string).

Lemma exec_all_app cs cs' s : exec_all (cs ++ cs') s = exec_all cs' (exec_all cs s).
Proof. apply fold_left_app. Qed.

Lemma settle_calls c m b s :
  settle env t c m b s
  = exec_all ([m] ++ others env 5 ++ [FinishLease (Some c) t (lease_now env) b]) s.
Proof. unfold settle, interleave. by rewrite !exec_all_app. Qed.

(** What recording an outcome does, as calls. *)
Lemma record_outcome_calls d o s :
  sent (record_outcome env v t d o s) = Some d
  /\ exists cs, after (record_outcome env v t d o s) = exec_all cs s.
Proof.
  unfold record_outcome. destruct o; simpl; try (split; [done|]; eexists; apply settle_calls).
  2: { split; [done|]. by exists []. }
  destruct result; try (split; [done|]; by exists []).
  destruct (as_attestation _) as [att|]; [|split; [done|]; by exists []].
  match goal with |- context [persist_completion v ?i t ?n ?rc att ?now ?out] =>
    set (m := Complete v i t n rc att now out);
    destruct (persist_completion v i t n rc att now out s) as [s' [k|e]] eqn:E end;
    assert (s' = exec m s) as -> by (unfold m; simpl; by rewrite E); (split; [done|]).
  - exists ([m] ++ others env 5 ++ [FinishLease (Some (d_claim d)) t (lease_now env) true]).
    by rewrite !exec_all_app.
  - by exists [m].
Qed.

Lemma run_claimed_calls c s :
  let r := run_claimed env run v t c s in
  (exists cs, after r = exec_all cs s)
  /\ forall d, sent r = Some d ->
       d_claim d = c
       /\ exists x rows, get_revision s run v t = Some (x, rows) /\ d_step d ∈ rows
          /\ step_id (d_step d) = c_step c
          /\ _resolve_input s rows v t (input (d_step d)) = Ok (d_input d)
          /\ _policy_allows (policy env (d_step d) (d_input d)) = true.
Proof.
  unfold run_claimed. destruct (get_revision s run v t) as [[x rows]|] eqn:Eg;
    [|split; [by exists []|done]].
  destruct (List.find _ rows) as [r|] eqn:Ef; [|split; [by exists []|done]].
  apply find_some in Ef as [Hr Hid%String.eqb_eq]. apply list_elem_of_In in Hr.
  destruct (_resolve_input s rows v t (input r)) as [inp|e] eqn:Ei.
  2: { destruct (caught e); (split; [|done]); [eexists; apply settle_calls|by exists []]. }
  destruct (_policy_allows (policy env r inp)) eqn:Ep; simpl.
  - match goal with |- context [record_outcome env v t ?d ?o ?s0] =>
      destruct (record_outcome_calls d o s0) as [Hs (cs & Hcs)] end.
    split; [exists (others env 4 ++ cs); by rewrite exec_all_app|].
    intros d. rewrite Hs. intros [= <-]. simpl. split; [done|]. exists x, rows. by split_and!.
  - destruct (bind_text _); (split; [|done]); [eexists; apply settle_calls|by exists []].
Qed.

(** One pass: calls of others, the claim, and what follows. *)
Definition the_claim : call := Claim run v t worker (claim_now env) (lease_ttl env) (token env).
Definition before_claim : list call := others env 1 ++ others env 2.
(** The state in which the claimed step is read. *)
Definition claimed_store (s : store) : store :=
  exec_all (others env 3) (exec the_claim (exec_all before_claim s)).

Record dispatched (s : store) (d : dispatch) : Prop := {
  dp_claimed : granted the_claim (exec_all before_claim s) = [d_claim d];
  dp_authorized : exists x rows, get_revision s run v t = Some (x, rows)
    /\ authorized_now env run v t (exec_all (others env 1) s) x rows = true;
  dp_input : exists x rows, get_revision (claimed_store s) run v t = Some (x, rows)
    /\ d_step d ∈ rows /\ step_id (d_step d) = c_step (d_claim d)
    /\ _resolve_input (claimed_store s) rows v t (input (d_step d)) = Ok (d_input d);
  dp_policy : _policy_allows (policy env (d_step d) (d_input d)) = true;
}.

Lemma run_next_calls s :
  let r := run_next env run v t worker s in
  exists cs cs', after r = exec_all cs s
  /\ forall d, sent r = Some d -> cs = before_claim ++ the_claim :: cs' /\ dispatched s d.
Proof.
  unfold run_next. destruct (get_revision s run v t) as [[x rows]|] eqn:Eg; simpl;
    [|exists [], []; by split].
  destruct (authorized_now _ _ _ _ _ x rows) eqn:Ea; simpl;
    [|exists (others env 1), []; by split].
  destruct (claim_ready_step _ _ _ _ _ _ _ _ _) as [s2 res] eqn:Ec.
  assert (s2 = exec the_claim (exec_all before_claim s)) as Es2.
  { unfold before_claim. rewrite exec_all_app. simpl. unfold interleave in Ec. by rewrite Ec. }
  assert (forall cs, exec_all cs s2 = exec_all (before_claim ++ the_claim :: cs) s) as Hcat.
  { intros cs. rewrite exec_all_app, Es2. reflexivity. }
  destruct res as [[c|]|e]; simpl.
  3: { exists (before_claim ++ [the_claim]), []. split; [apply (Hcat [])|done]. }
  2: { exists (before_claim ++ the_claim :: others env 3), []. rewrite <- Hcat.
       destruct (get_revision (interleave env 3 s2) run v t) as [[]|]; by split. }
  destruct (run_claimed_calls c (interleave env 3 s2)) as [(cs & Hcs) Hd].
  exists (before_claim ++ the_claim :: others env 3 ++ cs), (others env 3 ++ cs).
  split; [by rewrite <- Hcat, exec_all_app|]. intros d Hs. split; [done|].
  destruct (Hd d Hs) as (<- & x' & rows' & Hrows & Hstep & Hid & Hin & Hpol).
  constructor; [|by exists x, rows| |done].
  - simpl. unfold before_claim. rewrite exec_all_app. unfold interleave in Ec. by rewrite Ec.
  - exists x', rows'. unfold claimed_store. rewrite <- Es2. by split_and!.
Qed.
End pass_calls.

(** ** What is dispatched *)

(** A row of a revision that existed before was there before. *)
Lemma exec_old_row c s r :
  keys_ok s -> r ∈ steps (exec c s) -> is_Some (revisions s !! revision_of r) ->
  exists r0, r0 ∈ steps s /\ planned r0 r.
Proof.
  intros Hk Hr [x Hx]. destruct (creates_revision c) eqn:E.
  - destruct c; try discriminate E. simpl in Hr.
    destruct (create_revision_cases run tenant hash plan now ttl id s)
      as [(e & E')|(w & y & _ & Hnew & _ & _ & _ & _ & E')]; rewrite E' in Hr; simpl in Hr.
    { exists r. split; [done|apply planned_refl]. }
    apply elem_of_app in Hr as [(r0 & -> & H0)%list_elem_of_fmap|(n & -> & _)%list_elem_of_fmap].
    + exists r0. split; [done|]. pose proof (planned_refl r0). case_match; by unfold planned in *.
    + simpl in Hx. congruence.
  - destruct (exec_tracks c s Hk) as [_ Hf].
    destruct (follows_old c _ _ r E Hf Hr) as (r0 & H0 & Hch). exists r0. split; [done|].
    eapply planned_changes; [done|apply planned_refl].
Qed.

Lemma planned_trans x y z : planned x y -> planned y z -> planned x z.
Proof. unfold planned. intuition congruence. Qed.

Lemma exec_revision_kept c s v : is_Some (revisions s !! v) -> is_Some (revisions (exec c s) !! v).
Proof.
  intros [x Hx]. destruct (creates_revision c) eqn:E.
  - destruct c; try discriminate E. simpl.
    destruct (create_revision_cases run tenant hash plan now ttl id s)
      as [(e & ->)|(w & y & _ & _ & _ & _ & _ & _ & ->)]; simpl; [by eexists|].
    rewrite lookup_insert. case_decide; [by eexists|]. rewrite lookup_fmap, Hx. by eexists.
  - destruct (exec_keeps c s E) as [_ F _ _]. destruct (F v x Hx) as (x' & Hx' & _). by eexists.
Qed.

Lemma history_revision_kept cs s v :
  is_Some (revisions s !! v) -> is_Some (revisions (exec_all cs s) !! v).
Proof.
  revert s. induction cs as [|c cs IH]; intros s Hx; [done|]. by apply IH, exec_revision_kept.
Qed.

Lemma history_old_row cs s r :
  keys_ok s -> r ∈ steps (exec_all cs s) -> is_Some (revisions s !! revision_of r) ->
  exists r0, r0 ∈ steps s /\ planned r0 r.
Proof.
  revert s. induction cs as [|c cs IH]; intros s Hk Hr Hx.
  { exists r. split; [done|apply planned_refl]. }
  destruct (IH (exec c s)) as (r1 & H1 & Hp); [by apply exec_tracks|done|by apply exec_revision_kept|].
  destruct (exec_old_row c s r1 Hk H1) as (r0 & H0 & Hp0).
  { destruct Hp as (Hkey & _). unfold key in Hkey. injection Hkey as <- _. done. }
  exists r0. split; [done|]. by eapply planned_trans.
Qed.

Lemma get_revision_inv s run v t x rows :
  get_revision s run v t = Some (x, rows) ->
  revisions s !! v = Some x /\ forall r, r ∈ rows <-> r ∈ steps s /\ revision_of r = v.
Proof.
  unfold get_revision, fetch_revision. destruct (revisions s !! v) as [y|]; simpl; [|done].
  destruct (String.eqb (r_run y) run && String.eqb (r_tenant y) t); [|done].
  intros [= <- <-]. split; [done|]. intros r. unfold steps_of.
  rewrite list_elem_of_In, filter_In, <- list_elem_of_In, String.eqb_eq. done.
Qed.


(** ** Many passes *)

(** A system of workers: passes one after the other, each with the calls of
    the others between its own. *)
Record job := { j_env : environment; j_run : string; j_revision : string; j_tenant : string;
                j_worker : string }.
Definition run_job (j : job) (s : store) : ran :=
  run_next (j_env j) (j_run j) (j_revision j) (j_tenant j) (j_worker j) s.
Fixpoint run_system (js : list job) (s : store) : store * list dispatch :=
  match js with
  | [] => (s, [])
  | j :: js' =>
      let r := run_job j s in
      let rest := run_system js' (after r) in
      (rest.1, match sent r with Some d => [d] | None => [] end ++ rest.2)
  end.

Lemma pass_claims j s :
  exists cs, after (run_job j s) = exec_all cs s
  /\ sublist (map d_claim (match sent (run_job j s) with Some d => [d] | None => [] end))
       (claims_granted cs s).
Proof.
  destruct (run_next_calls (j_env j) (j_run j) (j_revision j) (j_tenant j) (j_worker j) s)
    as (cs & cs' & Ha & Hd).
  exists cs. split; [exact Ha|]. destruct (sent (run_job j s)) as [d|] eqn:E; [|apply sublist_nil_l].
  destruct (Hd d E) as (-> & [Hg _ _ _]). rewrite claims_granted_app. cbn [claims_granted].
  rewrite Hg. apply sublist_inserts_l. simpl. apply sublist_skip, sublist_nil_l.
Qed.

(** An attempt is dispatched once.  However many passes run, with any
    calls of other workers in between, each dispatch has a claim of its own
    among all the claims ever handed out, and no two of those are for the same
    attempt of the same step; in particular no attempt is dispatched twice. *)
Theorem attempts_dispatched_once js s :
  let (s', ds) := run_system js s in
  NoDup (map (fun d => claim_of (d_claim d)) ds)
  /\ exists cs, s' = exec_all cs s /\ sublist (map d_claim ds) (claims_granted cs s)
      /\ NoDup (map claim_of (claims_granted cs s)).
Proof.
  destruct (run_system js s) as [s' ds] eqn:E.
  assert (exists cs, s' = exec_all cs s /\ sublist (map d_claim ds) (claims_granted cs s)) as (cs & Hs & Hsub).
  { revert s s' ds E. induction js as [|j js IH]; intros s s' ds; simpl.
    { intros [= <- <-]. exists []. split; [done|apply sublist_nil_l]. }
    intros [= <- <-]. destruct (pass_claims j s) as (cs & Ha & Hsub).
    destruct (run_system js (after (run_job j s))) as [s1 ds1] eqn:E1.
    destruct (IH _ _ _ E1) as (cs1 & Ha1 & Hsub1). exists (cs ++ cs1). simpl.
    rewrite Ha in Ha1, Hsub1. split; [by rewrite exec_all_app|].
    rewrite claims_granted_app, map_app. by apply sublist_app. }
  destruct (claims_granted_distinct cs s) as [Hnd _].
  split; [|by exists cs].
  rewrite <- (map_map d_claim claim_of). eapply sublist_NoDup; [exact Hnd|].
  by apply (fmap_sublist claim_of).
Qed.

(** A worker that runs the demonstration plan. *)
Definition demo_env : environment := {|
  dispatcher _ _ _ := Returned (VDict [("receipt", VDict [("id", VInt 7)]);
                                       ("attestation", VDict [("attestation_id", VStr "att-1")])]);
  policy _ _ := Bool true; auth_now _ := 10; claim_now := 10; settle_now := 11; lease_now := 12;
  lease_ttl := 60; paused_retry_seconds := 60; token := "k1"; exn_text _ := "";
  others _ := [] |}.
Definition demo_pass : ran :=
  run_next demo_env "workflow:r" "revision:v" "t" "w1" (exec_all demo_plan empty_store).


(** ** Running until blocked ends *)

(** The steps of a revision that are not completed. *)
Definition unfinished (v : string) (l : list step) : nat :=
  length (List.filter (fun r => String.eqb (revision_of r) v && negb (has_status completed r)) l).

Lemma unfinished_app v a b : unfinished v (a ++ b) = (unfinished v a + unfinished v b)%nat.
Proof. unfold unfinished. by rewrite List.filter_app, length_app. Qed.

Lemma unfinished_same v l l' :
  Forall2 (fun r r' => key r' = key r /\ (status r' = completed <-> status r = completed)) l l' ->
  unfinished v l' = unfinished v l.
Proof.
  unfold unfinished. induction 1 as [|r r' l l' [Hk Hst] _ IH]; [done|]. simpl.
  unfold key in Hk. injection Hk as -> _.
  assert (has_status completed r' = has_status completed r) as ->.
  { apply eq_true_iff_eq. by rewrite !has_status_spec. }
  destruct (_ && _); simpl; lia.
Qed.

(** A claim completes nothing and reopens nothing. *)
Lemma claim_change_completed run v t w now ttl k r r' :
  row_change (Claim run v t w now ttl k) r r' -> status r' = completed <-> status r = completed.
Proof. inversion 1; subst; simpl; split; congruence. Qed.

Lemma claim_unfinished run v t w now ttl k s :
  keys_ok s -> unfinished v (steps (exec (Claim run v t w now ttl k) s)) = unfinished v (steps s).
Proof.
  intros Hk. destruct (exec_tracks (Claim run v t w now ttl k) s Hk) as [_ (old & new & -> & Ho & Hn)].
  assert (new = []) as ->.
  { destruct new as [|x new]; [done|]. apply Forall_cons in Hn as [(r0 & Hnew & _) _]. inversion Hnew. }
  rewrite app_nil_r. apply unfinished_same. eapply Forall2_impl; [exact Ho|].
  intros r r' H. induction H as [|x y z Hxy _ [IH1 IH2]]; [done|].
  apply claim_change_completed in Hxy as Hst. apply row_change_key in Hxy as Hkey.
  split; [congruence|tauto].
Qed.

(** Completing one step leaves one fewer. *)
Lemma completion_unfinished v i t n rcpt att now out s s' k :
  keys_ok s -> persist_completion v i t n rcpt att now out s = (s', Ok k) ->
  (unfinished v (steps s') < unfinished v (steps s))%nat.
Proof.
  intros Hk E. destruct (completion_cases v i t n rcpt att s now out Hk)
    as [(e & E' & _)|(a & r & b & El & [[_ Hkr] _ Hst _ _ _] & E')]; rewrite E' in E; [done|].
  injection E as <- _.
  destruct (close_revision_tables v t now (completed_store v i t n rcpt att s now out a r b)) as (-> & _).
  rewrite El. cbn [steps completed_store]. change (r :: b) with ([r] ++ b).
  match goal with |- context [a ++ ?r' :: b] => change (r' :: b) with ([r'] ++ b) end.
  rewrite !unfinished_app. apply is_step_key in Hkr. unfold key in Hkr. injection Hkr as Hv _.
  unfold unfinished at 2 5. simpl. rewrite Hv, String.eqb_refl. simpl.
  assert (has_status completed r = false) as ->; [|simpl; lia].
  apply not_true_iff_false. rewrite has_status_spec. intros Hc. destruct Hst; congruence.
Qed.

(** Only a recorded completion answers [step_completed]. *)
Lemma step_completed_decreases env run v t w s rep :
  keys_ok s -> (forall i, others env i = []) ->
  answer (run_next env run v t w s) = Ok rep -> p_answer rep = "step_completed" ->
  (unfinished v (steps (after (run_next env run v t w s))) < unfinished v (steps s))%nat.
Proof.
  intros Hk Ho. unfold run_next.
  assert (forall i s0, interleave env i s0 = s0) as Hi by (intros; unfold interleave; by rewrite Ho).
  destruct (get_revision s run v t) as [[x rows]|]; [|done]. rewrite !Hi.
  destruct (authorized_now _ _ _ _ _ _ _); simpl; [|by intros [= <-]].
  pose proof (claim_unfinished run v t w (claim_now env) (lease_ttl env) (token env) s Hk) as Hcl.
  destruct (exec_tracks (Claim run v t w (claim_now env) (lease_ttl env) (token env)) s Hk) as [Hk' _].
  simpl in Hcl, Hk'. destruct (claim_ready_step _ _ _ _ _ _ _ _ s) as [s2 [[c|]|e]]; [|..|done].
  2: { simpl. rewrite Hi. destruct (get_revision s2 run v t) as [[y l]|]; [|done]. simpl.
       by case_match; intros [= <-]. }
  simpl in Hcl, Hk' |- *. rewrite Hi, <- Hcl. unfold run_claimed.
  destruct (get_revision s2 run v t) as [[y l]|]; [|done]. destruct (List.find _ l) as [r|]; [|done].
  destruct (_resolve_input _ _ _ _ _) as [inp|e]; [|destruct (caught e); [by intros [= <-]|done]].
  destruct (_policy_allows _); simpl; [|destruct (bind_text _); [by intros [= <-]|done]].
  rewrite Hi. unfold record_outcome. destruct (dispatcher _ _ _ _); simpl; try (by intros [= <-]); try done.
  destruct result; try done. destruct (as_attestation _); [|done].
  destruct (persist_completion _ _ _ _ _ _ _ _ s2) as [s3 [k|e]] eqn:Ep; simpl; [|done].
  intros _ _. rewrite Hi. apply (completion_unfinished _ _ _ _ _ _ _ _ _ _ _ Hk') in Ep.
  assert (steps (exec (FinishLease (Some c) t (lease_now env) true) s3) = steps s3) as E.
  { simpl. unfold finish_claim_lease. by repeat case_match. }
  simpl in E. by rewrite E.
Qed.

Lemma more_fuel m m' envs i run v t w s x :
  run_until_blocked m envs i run v t w s = Some x -> (m <= m')%nat ->
  run_until_blocked m' envs i run v t w s = Some x.
Proof.
  revert m' i s. induction m as [|m IH]; intros m' i s; [done|].
  destruct m' as [|m']; [lia|]. simpl. destruct (answer _) as [rep|e]; [|done].
  case_match; [|done]. intros Hr Hle. apply IH; [done|lia].
Qed.

(** C30. Running until blocked ends.  A worker alone on a revision stops after
    at most one pass more than the revision has unfinished steps, whatever the
    dispatcher reports, the policy answers and the clock reads: every pass that
    completes a step leaves one step fewer. *)
Theorem run_until_blocked_ends envs run v t w s :
  keys_ok s -> (forall i k, others (envs i) k = []) ->
  exists s' ans,
    run_until_blocked (S (unfinished v (steps s))) envs 0 run v t w s = Some (s', ans)
    /\ forall rep, ans = Ok rep -> p_answer rep <> "step_completed".
Proof.
  intros Hk Ho. generalize 0%nat as i.
  remember (unfinished v (steps s)) as m eqn:Em. revert s Hk Em.
  induction (lt_wf m) as [m _ IH]. intros s Hk -> i.
  cbn [run_until_blocked].
  destruct (answer (run_next (envs i) run v t w s)) as [rep|e] eqn:Ea.
  2: { eexists _, _. split; [reflexivity|done]. }
  destruct (String.eqb_spec (p_answer rep) "step_completed") as [Ec|Ec].
  2: { eexists _, _. split; [reflexivity|]. by intros rep' [= <-]. }
  pose proof (step_completed_decreases (envs i) run v t w s rep Hk (Ho i) Ea Ec) as Hlt.
  assert (keys_ok (after (run_next (envs i) run v t w s))) as Hk'.
  { destruct (run_next_calls (envs i) run v t w s) as (cs & _ & -> & _). by apply exec_all_keys. }
  destruct (IH _ Hlt _ Hk' eq_refl (S i)) as (s' & ans & Hrun & Hans).
  exists s', ans. split; [|exact Hans]. by apply (more_fuel (S (unfinished v (steps (after (run_next (envs i) run v t w s)))))).
Qed.

Lemma run_until_blocked_ends_witness :
  keys_ok (exec_all demo_plan empty_store)
  /\ exists s' ans,
       run_until_blocked 2 (fun _ => demo_env) 0 "workflow:r" "revision:v" "t" "w1"
         (exec_all demo_plan empty_store) = Some (s', ans)
       /\ ~ (exists rep, ans = Ok rep /\ p_answer rep = "step_completed").
Proof.
  pose proof (built_keys demo_plan) as Hk. split; [exact Hk|].
  assert (unfinished "revision:v" (steps (exec_all demo_plan empty_store)) = 1%nat) as E
    by (vm_compute; reflexivity).
  destruct (run_until_blocked_ends (fun _ => demo_env) "workflow:r" "revision:v" "t" "w1"
              (exec_all demo_plan empty_store) Hk (fun _ _ => eq_refl)) as (s' & ans & Hr & Hans).
  rewrite E in Hr. exists s', ans. split; [exact Hr|]. intros (rep & Hrep & Hst).
  exact (Hans rep Hrep Hst).
Defined.

(** ** What a failed dispatch leaves behind *)

Definition raised (o : outcome) : bool :=
  match o with Returned _ | Killed => false | _ => true end.
Definition settled_status (o : outcome) : execution_status :=
  match o with
  | AmbiguousStepError _ | OtherException _ => execution_unknown
  | PausedStepError _ _ | RetryableStepError _ _ => queued
  | _ => paused_by_policy
  end.
(** The exceptions after which the provider may have acted. *)
Definition may_have_acted (o : outcome) : bool :=
  match o with AmbiguousStepError _ | OtherException _ => true | _ => false end.
Definition free (o : outcome) : Z := match o with PausedStepError _ _ => 1 | _ => 0 end.

(** The lease [c] names, still open. *)
Record open_lease (s : store) (t : string) (c : claim) (l : lease) : Prop := {
  ol_name : c_lease c <> "";
  ol_found : leases s !! sha256 (c_lease c) = Some l;
  ol_binding : lease_of l = claim_of c;
  ol_tenant : l_tenant l = t;
  ol_open : consumed_at l = None /\ revoked_at l = None;
}.
Definition closed (l : lease) (consumed : bool) (now : Z) : lease := {|
  l_revision := l_revision l; l_step := l_step l; l_attempt := l_attempt l;
  l_tenant := l_tenant l; worker_id := worker_id l; l_expires_at := l_expires_at l;
  consumed_at := if consumed then Some now else None;
  revoked_at := if consumed then None else Some now |}.

Lemma finish_open_lease s t c l now b :
  open_lease s t c l ->
  (finish_claim_lease (Some c) t now b s).1
  = with_leases s (<[sha256 (c_lease c) := closed l b now]> (leases s)).
Proof.
  intros [Hn Hl Hb Ht [Hc Hr]]. unfold finish_claim_lease.
  assert (truthy (c_lease c) = true) as ->.
  { unfold truthy, truthy_string. by destruct (String.eqb_spec (c_lease c) ""). }
  simpl. rewrite Hl. unfold lease_of, claim_of in Hb. injection Hb as H1 H2 H3.
  rewrite H1, H2, H3, Ht, !String.eqb_refl, Z.eqb_refl, Hc, Hr, !bool_decide_true by done. simpl.
  unfold closed. by rewrite H1, H2, H3, Ht.
Qed.

Section settling.
Context (env : environment) (v t : string) (s : store) (a b : list step) (r : step)
  (c : claim) (l : lease).
Hypothesis Hquiet : others env 5 = [].
Hypothesis Hkeys : keys_ok s.
Hypothesis Hrows : steps s = a ++ r :: b.
Hypothesis Hlease : open_lease s t c l.

(** A call that updates exactly the row [r], then the end of the lease. *)
Lemma settle_row m p f consumed :
  exec m s = with_steps s (update_rows p f (steps s)) ->
  (forall y, p y = true -> is_step v (step_id r) t y = true) -> is_step v (step_id r) t r = true ->
  p r = true ->
  settle env t c m consumed s
  = with_leases (with_steps s (a ++ f r :: b))
      (<[sha256 (c_lease c) := closed l consumed (lease_now env)]> (leases s)).
Proof.
  intros Hm Hp Hr Hpr. unfold settle, interleave. rewrite Hquiet, Hm. unfold exec_all.
  cbn [fold_left exec].
  rewrite (finish_open_lease _ t c l); [|by destruct Hlease].
  rewrite Hrows, update_rows_split; [done|done|].
  intros y Hy. apply not_true_iff_false. intros Hpy.
  unfold keys_ok in Hkeys. rewrite Hrows in Hkeys. apply (NoDup_split_key key a r b y Hkeys Hy).
  apply Hp in Hpy. apply is_step_key in Hpy, Hr. congruence.
Qed.
End settling.

(** What is recorded of an exception: one guarded update of the claimed row,
    then the end of its lease. *)
Lemma raised_settles env v t d o s r :
  is_step v (step_id (d_step d)) t r = true -> status r = running ->
  attempt r = c_attempt (d_claim d) -> raised o = true ->
  is_step v (step_id r) t r = true
  /\ exists f p m, after (record_outcome env v t d o s) = settle env t (d_claim d) m (may_have_acted o) s
    /\ exec m s = with_steps s (update_rows p f (steps s))
    /\ (forall y, p y = true -> is_step v (step_id r) t y = true) /\ p r = true
    /\ planned r (f r) /\ status (f r) = settled_status o
    /\ attempt (f r) = attempt r /\ budget (f r) = budget r - free o
    /\ (forall z, retry_at (f r) = Some z -> status (f r) = queued /\ settle_now env + 1 <= z)
    /\ (status (f r) = queued -> exists z, retry_at (f r) = Some z).
Proof.
  intros Hr Hst Hn Hraised.
  assert (step_id r = step_id (d_step d)) as Ei by (apply is_step_key in Hr; unfold key in Hr; congruence).
  rewrite <- Ei in Hr. split; [done|].
  unfold record_outcome. rewrite <- Ei. destruct o; try discriminate Hraised;
    (eexists _, _, _; split; [reflexivity|]; split; [reflexivity|]).
  all: split; [intros y Hy; simpl in Hy; bool_hyps; assumption|].
  all: split; [simpl; rewrite ?Hr, ?Hn, ?Z.eqb_refl, ?(proj2 (has_status_spec _ _) Hst); reflexivity|].
  all: split; [by unfold planned; simpl; naive_solver|].
  all: split; [reflexivity|]; split; [reflexivity|].
  all: unfold budget; simpl; split; [lia|].
  all: split; [intros z Hz; simplify_eq/=; (split; [reflexivity|lia]) | intros Hq; try discriminate Hq; by eexists].
Qed.

(** C31. A failed dispatch leaves exactly the trace that fits it.  Whatever the
    dispatcher raises, only the claimed row changes: it becomes unknown when
    the provider may have acted, waits in the queue for a retryable error or
    an unavailable precondition, and is paused when a person must act; its
    attempt number stays, only an unavailable precondition gives the attempt
    back, a wait lasts at least a second, and the lease is consumed if and
    only if the provider may have acted, revoked otherwise. *)
Theorem failed_dispatch_is_settled env v t d o s a b r l :
  others env 5 = [] -> keys_ok s -> steps s = a ++ r :: b ->
  is_step v (step_id (d_step d)) t r = true -> status r = running ->
  attempt r = c_attempt (d_claim d) -> open_lease s t (d_claim d) l -> raised o = true ->
  let s' := after (record_outcome env v t d o s) in
  exists r', steps s' = a ++ r' :: b /\ planned r r' /\ status r' = settled_status o
    /\ attempt r' = attempt r /\ budget r' = budget r - free o
    /\ (forall z, retry_at r' = Some z -> status r' = queued /\ settle_now env + 1 <= z)
    /\ (status r' = queued -> exists z, retry_at r' = Some z)
    /\ leases s' = <[sha256 (c_lease (d_claim d)) := closed l (may_have_acted o) (lease_now env)]>
                     (leases s).
Proof.
  intros Ho Hk El Hr Hst Hn Hl Hraised s'.
  destruct (raised_settles env v t d o s r Hr Hst Hn Hraised)
    as (Hr' & f & p & m & Es & Hm & Hp & Hpr & Hpl & H1 & H2 & H3 & H4 & H5).
  exists (f r). unfold s'. rewrite Es, (settle_row env v t s a b r (d_claim d) l Ho Hk El Hl m p f); try done.
Qed.

(** The demonstration claim, running under an open lease. *)
Definition demo_claim : claim := {|
  c_lease := "k1"; c_step := "send"; c_attempt := 1; c_revision := "revision:v" |}.
Definition demo_lease : lease := {|
  l_revision := "revision:v"; l_step := "send"; l_attempt := 1; l_tenant := "t";
  worker_id := "w1"; l_expires_at := 40; consumed_at := None; revoked_at := None |}.
Lemma failed_dispatch_is_settled_witness :
  let s := exec_all demo_claimed empty_store in
  let d := {| d_step := demo_row; d_input := VDict []; d_claim := demo_claim |} in
  open_lease s "t" demo_claim demo_lease
  /\ exists r', steps (after (record_outcome demo_env "revision:v" "t" d
                                (RetryableStepError "busy" None) s)) = [r']
      /\ status r' = queued /\ attempt r' = 1.
Proof.
  intros s d. pose proof (built_keys demo_claimed) as Hk.
  assert (open_lease s "t" demo_claim demo_lease) as Hl.
  { constructor; [discriminate|vm_compute; reflexivity|reflexivity|reflexivity|split; reflexivity]. }
  split; [exact Hl|].
  destruct (failed_dispatch_is_settled demo_env "revision:v" "t" d (RetryableStepError "busy" None)
              s [] [] demo_row demo_lease eq_refl Hk demo_claimed_rows eq_refl eq_refl eq_refl Hl eq_refl)
    as (r' & Hr & _ & Hst & Hn & _).
  exists r'. split; [exact Hr|]. split; [exact Hst|exact Hn].
Defined.
