(* ===== verification/ExecutorLiveness.v ===== *)
(** * A plan that can complete does

    Liveness of Executor.v: an approved plan whose steps depend on each other
    without a cycle, run by one worker with a dispatcher that answers, is
    completed by [run_until_blocked], step after step.  The proof keeps an
    invariant between passes ([underway]) and counts the steps left. *)

From S2P Require Import Prelude Rows ControlPlane PyValue Json Sha256 PlanSchema Workflow WorkflowProofs WorkflowClaims Executor ExecutorProofs.
Local Open Scope Z_scope.

Section plan.
Context (run v t w : string) (rev : revision) (rows : list step).
Context (envs : nat -> environment) (reply : string -> list (string * pyval)).
Context (att : string -> option (list (string * pyval))).

(** ** What a provider answers, and what is recorded of it *)

Definition reply_receipt (sid : string) : pyval := get_or (reply sid) "receipt" (VDict []).
Definition reply_output (sid : string) : pyval :=
  let out := get_or (reply sid) "output" (VDict []) in norm (if truthy out then out else VDict []).
(** Every step is tried once. *)
Definition receipt_of (sid : string) : string := receipt_id_of v sid 1 (json_text (reply_receipt sid)).
Definition attestation_of (sid : string) : pyval := get (default [] (att sid)) "attestation_id".

(** ** The plan and its surroundings *)

(** In this store the answers a step needs are there. *)
Definition inputs_available (s : store) (r : step) : Prop :=
  NoDup (map step_id (steps_of s v))
  /\ forall d, d ∈ depends_on r -> exists x, x ∈ steps_of s v /\ step_id x = d /\ output x = Some (reply_output d).

(** A revision as it is created and approved: no step was tried, the
    dependencies have no cycle, each input can be resolved from the outputs of
    the steps it depends on, and nothing is recorded about it. *)
Record runnable (rank : string -> nat) (s : store) : Prop := {
  ru_found : get_revision s run v t = Some (rev, rows);
  ru_some : rows <> [];
  ru_fresh : forall r, r ∈ rows -> in_revision run v t r = true /\ status r = queued /\ attempt r = 0
    /\ uncounted_attempts r = 0 /\ retry_at r = None;
  ru_depends : forall r, r ∈ rows -> NoDup (depends_on r)
    /\ forall d, d ∈ depends_on r -> (rank d < rank (step_id r))%nat /\ d ∈ map step_id rows;
  ru_input : forall r s', r ∈ rows -> inputs_available s' r ->
    exists x, _resolve_input s' (steps_of s' v) v t (input r) = Ok x;
  ru_leases : forall k l, leases s !! k = Some l -> l_revision l <> v;
  ru_receipts : forall k x, receipts s !! k = Some x -> x_revision x <> v;
  ru_receipt_ids : forall r, r ∈ rows -> receipts s !! receipt_of (step_id r) = None
    /\ forall k y, attestations s !! k = Some y -> t_receipt_id y <> receipt_of (step_id r);
  ru_authorized : forall i, (i <= length rows)%nat -> authorized_now (envs i) run v t s rev rows = true;
}.

(** The answers a step may be completed with. *)
Record answerable (s : store) : Prop := {
  an_reply : forall r, r ∈ rows -> as_attestation (get (reply (step_id r)) "attestation") = Some (att (step_id r));
  an_write : forall r, r ∈ rows -> effect r = "write" -> truthy (attestation_of (step_id r)) = true;
  an_text : forall r, r ∈ rows -> truthy (attestation_of (step_id r)) = true ->
    exists a, bind_text (attestation_of (step_id r)) = Some a /\ attestations s !! a = None;
  an_receipts : NoDup (map (fun r => receipt_of (step_id r)) rows);
  an_attestations : NoDup (omap (fun r => if truthy (attestation_of (step_id r))
                                          then bind_text (attestation_of (step_id r)) else None) rows);
}.

(** A worker alone, whose policy allows and whose dispatcher answers. *)
Record cooperative (s : store) : Prop := {
  co_alone : forall i k, others (envs i) k = [];
  co_policy : forall i r x, _policy_allows (policy (envs i) r x) = true;
  co_answers : forall i r x c, dispatcher (envs i) r x c = Returned (VDict (reply (step_id r)));
  co_tokens : NoDup (map (fun i => sha256 (token (envs i))) (seq 0 (length rows)));
  co_fresh : forall i, (i < length rows)%nat -> leases s !! sha256 (token (envs i)) = None;
}.

(** ** Between two passes *)

(** A step whose answer is recorded. *)
Definition done_row (r : step) : Prop :=
  status r = completed /\ output r = Some (reply_output (step_id r))
  /\ exists r0, r0 ∈ rows /\ key r = key r0 /\ effect r = effect r0.
Definition open_id (s : store) (sid : string) : Prop :=
  exists r, r ∈ rows /\ r ∈ steps s /\ step_id r = sid.

Record underway (s0 : store) (i : nat) (s : store) : Prop := {
  uw_keys : keys_ok s;
  uw_rows : forall r, r ∈ steps s -> revision_of r = v -> r ∈ rows \/ done_row r;
  uw_all : forall r, r ∈ rows -> exists x, x ∈ steps s /\ key x = key r;
  uw_auth : forall eff now, is_step_authorized s0 run v t (plan_graph_hash rev) eff now = true ->
    is_step_authorized s run v t (plan_graph_hash rev) eff now = true;
  uw_rev : exists x, fetch_revision s run v t = Some x /\ plan_graph_hash x = plan_graph_hash rev;
  uw_leases : forall k l, leases s !! k = Some l -> l_revision l = v -> ~ open_id s (l_step l);
  uw_tokens : forall j, (i <= j < length rows)%nat -> leases s !! sha256 (token (envs j)) = None;
  uw_receipts : forall k x, receipts s !! k = Some x -> x_revision x = v -> ~ open_id s (x_step x);
  uw_receipt_ids : forall sid, open_id s sid -> receipts s !! receipt_of sid = None
    /\ forall k y, attestations s !! k = Some y -> t_receipt_id y <> receipt_of sid;
  uw_attestations : forall sid a, open_id s sid -> truthy (attestation_of sid) = true ->
    bind_text (attestation_of sid) = Some a -> attestations s !! a = None;
  uw_count : (unfinished v (steps s) + i <= length rows)%nat;
  uw_closed : unfinished v (steps s) = 0%nat -> exists x, revisions s !! v = Some x /\ r_status x = "completed";
}.

Lemma unfinished_zero l : unfinished v l = 0%nat -> forall r, r ∈ l -> revision_of r = v -> status r = completed.
Proof.
  unfold unfinished. intros H%nil_length_inv r Hr Hv. apply has_status_spec, not_false_iff_true. intros E.
  assert (r ∈ List.filter (fun r => String.eqb (revision_of r) v && negb (has_status completed r)) l) as Hin.
  { apply in_filter. by rewrite Hv, String.eqb_refl, E. }
  rewrite H in Hin. by apply elem_of_nil in Hin.
Qed.
Lemma unfinished_pos l : unfinished v l <> 0%nat -> exists r, r ∈ l /\ revision_of r = v /\ status r <> completed.
Proof.
  unfold unfinished. destruct (List.filter _ l) as [|r l'] eqn:E; [done|]. intros _. exists r.
  assert (r ∈ r :: l') as Hin by left. rewrite <- E in Hin. apply in_filter in Hin as [Hin Hr].
  apply andb_true_iff in Hr as [Hv%String.eqb_eq Hr%negb_true_iff]. split_and!; [done..|].
  intros Hs%has_status_spec. congruence.
Qed.

(** ** The start *)

Context (rank : string -> nat) (s0 : store).
Context (Hplan : runnable rank s0) (Hans : answerable s0) (Hco : cooperative s0) (Hkeys : keys_ok s0).

Lemma rows_of_start r : r ∈ rows <-> r ∈ steps s0 /\ revision_of r = v.
Proof. by apply (proj2 (get_revision_inv _ _ _ _ _ _ (ru_found _ _ Hplan))). Qed.
Lemma fresh_row r : r ∈ rows -> run_of r = run /\ revision_of r = v /\ tenant_of r = t /\ status r = queued
  /\ attempt r = 0 /\ uncounted_attempts r = 0 /\ retry_at r = None.
Proof.
  intros Hr. destruct (ru_fresh _ _ Hplan r Hr) as (Hin & ? & ? & ? & ?). unfold in_revision in Hin.
  rewrite !andb_true_iff, !String.eqb_eq in Hin. tauto.
Qed.
Lemma rows_length : unfinished v (steps s0) = length rows.
Proof.
  pose proof (ru_found _ _ Hplan) as H. unfold get_revision in H.
  destruct (fetch_revision s0 run v t) as [x|]; [|done]. cbn in H. injection H as _ <-.
  unfold unfinished, steps_of. f_equal. apply filter_ext_in. intros r Hr%list_elem_of_In.
  destruct (String.eqb (revision_of r) v) eqn:E; [|done]. apply String.eqb_eq in E.
  assert (r ∈ rows) as Hrow by by apply rows_of_start.
  destruct (fresh_row r Hrow) as (_ & _ & _ & Hq & _). unfold has_status. rewrite Hq. done.
Qed.

Lemma underway_start : underway s0 0 s0.
Proof.
  constructor.
  - exact Hkeys.
  - intros r Hr Hv. left. by apply rows_of_start.
  - intros r Hr. exists r. split; [|done]. by apply rows_of_start.
  - done.
  - pose proof (ru_found _ _ Hplan) as H. unfold get_revision in H.
    destruct (fetch_revision s0 run v t) as [x|]; [|done]. injection H as -> _. by exists rev.
  - intros k l Hl Hv _. by apply (ru_leases _ _ Hplan k l).
  - intros j Hj. apply (co_fresh _ Hco). lia.
  - intros k x Hx Hv _. by apply (ru_receipts _ _ Hplan k x).
  - intros sid (r & Hr & _ & <-). by apply (ru_receipt_ids _ _ Hplan).
  - intros sid a (r & Hr & _ & <-) Ht Ha. destruct (an_text _ Hans r Hr Ht) as (a' & Ha' & Hn). congruence.
  - rewrite rows_length. lia.
  - rewrite rows_length. intros H%nil_length_inv. by destruct (ru_some _ _ Hplan).
Qed.

(** ** One pass *)

(** The row of an unfinished step of least rank may start. *)
Lemma open_row s i r : underway s0 i s -> r ∈ steps s -> revision_of r = v -> status r <> completed -> r ∈ rows.
Proof. intros H Hr Hv Hst. destruct (uw_rows _ _ _ H r Hr Hv) as [|[]]; [done|congruence]. Qed.

Lemma startable s i now :
  underway s0 i s -> unfinished v (steps s) <> 0%nat -> exists r, r ∈ steps s /\ may_start (steps s) run v t now r.
Proof.
  intros H Hn. apply unfinished_pos in Hn as (r & Hr & Hv & Hst). revert r Hr Hv Hst.
  enough (forall m r, rank (step_id r) = m -> r ∈ steps s -> revision_of r = v -> status r <> completed ->
    exists r, r ∈ steps s /\ may_start (steps s) run v t now r) as G by (intros r; by apply (G (rank (step_id r)))).
  intros m. induction (lt_wf m) as [m _ IH]. intros r Em Hr Hv Hst.
  pose proof (open_row s i r H Hr Hv Hst) as Hrow.
  destruct (ru_depends _ _ Hplan r Hrow) as [Hnd Hdeps].
  destruct (decide (Forall (fun d => Exists (fun x => key x = (v, d) /\ status x = completed) (steps s)) (depends_on r)))
    as [Hall|Hsome].
  - exists r. split; [done|]. destruct (fresh_row r Hrow) as (E1 & E2 & E3 & E4 & _ & _ & E5).
    unfold may_start. split_and!; [|done| |done|].
    + by apply (ru_fresh _ _ Hplan).
    + by rewrite E5.
    + intros d Hd. rewrite Forall_forall in Hall. specialize (Hall d Hd). apply Exists_exists in Hall.
      destruct Hall as (x & Hx & Hk & Hs). by exists x.
  - apply not_Forall_Exists in Hsome; [|apply _]. apply Exists_exists in Hsome as (d & Hd & Hnot).
    destruct (Hdeps d Hd) as [Hrank (r0 & -> & Hr0)%list_elem_of_fmap].
    destruct (uw_all _ _ _ H r0 Hr0) as (x & Hx & Hkx).
    destruct (fresh_row r0 Hr0) as (_ & Ev & _). unfold key in Hkx. rewrite Ev in Hkx. injection Hkx as Hxv Hxi.
    apply (IH (rank (step_id x))) with (r := x); [by rewrite Hxi; lia|done|done|done|].
    intros Hs. apply Hnot, Exists_exists. exists x. split; [done|]. split; [|done]. unfold key. congruence.
Qed.

Lemma not_spent s i : underway s0 i s -> update_rows (spent run v t) exhaust (steps s) = steps s.
Proof.
  intros H. unfold update_rows. rewrite <- (map_id (steps s)) at 2. apply map_ext_in.
  intros r Hr%list_elem_of_In. destruct (spent run v t r) eqn:E; [|done].
  unfold spent, in_revision in E. row_hyps.
  assert (r ∈ rows) as Hrow by (apply (open_row s i); [done..|congruence]).
  destruct (fresh_row r Hrow) as (_ & _ & _ & _ & Ea & Eu & _). unfold exhausted in *. rewrite Ea, Eu in *. done.
Qed.

Definition the_step_claim (i : nat) (r : step) : claim :=
  {| c_lease := token (envs i); c_step := step_id r; c_attempt := 1; c_revision := v |}.
Definition step_lease (i : nat) (r : step) : lease := {|
  l_revision := v; l_step := step_id r; l_attempt := 1; l_tenant := t; worker_id := w;
  l_expires_at := claim_now (envs i) + lease_ttl (envs i); consumed_at := None; revoked_at := None |}.
Definition started (i : nat) (s : store) (a : list step) (r : step) (b : list step) : store :=
  with_leases (with_steps s (a ++ start w (claim_now (envs i)) r :: b))
    (<[sha256 (token (envs i)) := step_lease i r]> (leases s)).

Lemma claim_starts s i :
  underway s0 i s -> unfinished v (steps s) <> 0%nat ->
  exists a r b, steps s = a ++ r :: b /\ r ∈ rows /\ may_start (steps s) run v t (claim_now (envs i)) r
    /\ claim_ready_step run v t w (claim_now (envs i)) (lease_ttl (envs i)) MAX_ATTEMPTS (token (envs i)) s
       = (started i s a r b, Ok (Some (the_step_claim i r))).
Proof.
  intros H Hn. destruct (startable s i (claim_now (envs i)) H Hn) as (q & Hq & Hst).
  pose proof (claim_takes_first_ready run v t w (claim_now (envs i)) (lease_ttl (envs i)) (token (envs i)) s (uw_keys _ _ _ H)) as Hc.
  cbv zeta in Hc. rewrite (not_spent s i H) in Hc.
  assert (forall r, r ∈ steps s -> may_start (steps s) run v t (claim_now (envs i)) r -> r ∈ rows) as Hopen.
  { intros r Hr (Hin & Hqu & _). unfold in_revision in Hin. row_hyps. apply (open_row s i); [done..|congruence]. }
  destruct (claim_ready_step _ _ _ _ _ _ _ _ s) as [s' [[c|]|e]].
  - destruct Hc as (a & r & b & El & Hr & _ & _ & _ & -> & ->). exists a, r, b.
    assert (r ∈ rows) as Hrow by (apply Hopen; [rewrite El; set_solver|done]).
    destruct (fresh_row r Hrow) as (_ & _ & _ & _ & Ea & _). split_and!; [done..|].
    unfold started, step_lease, the_step_claim. by rewrite Ea.
  - destruct Hc as [_ Hnone]. by destruct (Hnone q Hq).
  - destruct Hc as (_ & _ & r & Hr & Hmay & Hbad). pose proof (Hopen r Hr Hmay) as Hrow. exfalso.
    destruct Hbad as [Htaken|Hsome].
    + unfold lease_taken in Htaken. apply bool_decide_eq_true in Htaken as (k & l & Hl & Ev & Es & _).
      apply (uw_leases _ _ _ H k l Hl Ev). rewrite Es. by exists r.
    + pose proof (uw_count _ _ _ H). rewrite (uw_tokens _ _ _ H i) in Hsome by lia. by destruct Hsome.
Qed.

(** ** Its completion *)

(** Row [r] of [s] is row [r'] of [s'], and the others are the same. *)
Record moved (s s' : store) (r r' : step) : Prop := {
  mv_key : key r' = key r;
  mv_in : r' ∈ steps s';
  mv_old : forall y, y ∈ steps s' -> y = r' \/ y ∈ steps s /\ key y <> key r;
  mv_kept : forall y, y ∈ steps s -> key y <> key r -> y ∈ steps s';
}.
Lemma moved_split s s' a r b r' :
  keys_ok s -> steps s = a ++ r :: b -> steps s' = a ++ r' :: b -> key r' = key r -> moved s s' r r'.
Proof.
  intros Hk E E' Hkey. constructor; [done|rewrite E'; set_solver|..].
  - intros y Hy. rewrite E' in Hy.
    assert (y = r' \/ y ∈ a ++ b) as [|Hab] by set_solver; [by left|right]. split; [rewrite E; set_solver|].
    intros Hky. unfold keys_ok in Hk. rewrite E in Hk. by apply (NoDup_split_key key a r b y).
  - intros y Hy Hky. rewrite E in Hy. rewrite E'. assert (y = r \/ y ∈ a ++ b) as [->|] by set_solver; [done|set_solver].
Qed.
Lemma moved_trans s1 s2 s3 r1 r2 r3 : moved s1 s2 r1 r2 -> moved s2 s3 r2 r3 -> moved s1 s3 r1 r3.
Proof.
  intros [K1 I1 O1 P1] [K2 I2 O2 P2]. constructor; [congruence|done|..].
  - intros y Hy. destruct (O2 y Hy) as [->|[Hy2 Hk2]]; [by left|].
    destruct (O1 y Hy2) as [->|[Hy1 Hk1]]; [done|by right].
  - intros y Hy Hk. apply P2; [by apply P1|congruence].
Qed.

Lemma open_moved s s' r r' sid :
  r ∈ rows -> moved s s' r r' -> status r' <> queued -> open_id s' sid -> open_id s sid /\ sid <> step_id r.
Proof.
  intros Hr Hm Hst (y & Hrow & Hy & <-). destruct (mv_old _ _ _ _ Hm y Hy) as [->|[Hys Hk]].
  { destruct (fresh_row r' Hrow) as (_ & _ & _ & Hq & _). congruence. }
  split; [by exists y|]. intros E. apply Hk. unfold key.
  destruct (fresh_row y Hrow) as (_ & -> & _), (fresh_row r Hr) as (_ & -> & _). congruence.
Qed.

Lemma ids_unique s : keys_ok s -> NoDup (map step_id (steps_of s v)).
Proof.
  intros Hk. pose proof (ids_NoDup (steps s) v (fun _ => true) Hk) as H. unfold steps_of.
  replace (List.filter (fun _ => true) (List.filter (fun r => String.eqb (revision_of r) v) (steps s)))
    with (List.filter (fun r => String.eqb (revision_of r) v) (steps s)) in H; [done|].
  generalize (List.filter (fun r => String.eqb (revision_of r) v) (steps s)) as l. clear.
  induction l as [|x l IH]; [done|]. cbn. by rewrite <- IH.
Qed.
Lemma in_steps_of s r : r ∈ steps_of s v <-> r ∈ steps s /\ revision_of r = v.
Proof. unfold steps_of. by rewrite in_filter, String.eqb_eq. Qed.
Lemma find_step s r :
  keys_ok s -> r ∈ steps s -> revision_of r = v ->
  List.find (fun x => String.eqb (step_id x) (step_id r)) (steps_of s v) = Some r.
Proof.
  intros Hk Hr Hv. destruct (List.find _ _) as [x|] eqn:E.
  - apply find_In in E as [Hx Hid%String.eqb_eq]. apply in_steps_of in Hx as [Hx Hxv]. f_equal.
    apply (key_unique key (steps s)); [done..|]. unfold key. congruence.
  - assert (r ∈ steps_of s v) as Hin by by apply in_steps_of. apply list_elem_of_In in Hin.
    pose proof (find_none _ _ E r Hin) as Hf. cbn in Hf. by rewrite String.eqb_refl in Hf.
Qed.
Lemma input_resolves s i a r b :
  underway s0 i s -> steps s = a ++ r :: b -> r ∈ rows -> may_start (steps s) run v t (claim_now (envs i)) r ->
  exists x, _resolve_input (started i s a r b) (steps_of (started i s a r b) v) v t (input r) = Ok x.
Proof.
  intros H El Hr Hmay. apply (ru_input _ _ Hplan r); [done|].
  assert (moved s (started i s a r b) r (start w (claim_now (envs i)) r)) as Hm
    by (by apply (moved_split s _ a r b); [apply (uw_keys _ _ _ H)|..]).
  assert (keys_ok (started i s a r b)) as Hk.
  { pose proof (uw_keys _ _ _ H) as Hk. unfold keys_ok in *. cbn. rewrite El, map_app in Hk. by rewrite map_app. }
  split; [by apply ids_unique|]. intros d Hd.
  destruct Hmay as (_ & Hq & _ & _ & Hdone). destruct (Hdone d Hd) as (x & Hx & Hkx & Hst).
  assert (revision_of x = v /\ step_id x = d) as [Hv <-] by (unfold key in Hkx; by injection Hkx).
  destruct (uw_rows _ _ _ H x Hx Hv) as [Hrow|(_ & Ho & _)].
  { destruct (fresh_row x Hrow) as (_ & _ & _ & E & _). congruence. }
  exists x. split; [|done]. apply in_steps_of. split; [|done]. apply (mv_kept _ _ _ _ Hm x Hx). intros Hkr.
  assert (x = r) as ->; [|congruence]. apply (key_unique key (steps s)); [apply (uw_keys _ _ _ H)|done| |done].
  rewrite El. set_solver.
Qed.

Definition step_output (sid : string) : pyval := get_or (reply sid) "output" (VDict []).
Definition completed_after (i : nat) (s1 : store) (a : list step) (r : step) (b : list step) : store :=
  (close_revision v t (settle_now (envs i))
     (completed_store v (step_id r) t 1 (reply_receipt (step_id r)) (att (step_id r)) s1 (settle_now (envs i))
        (step_output (step_id r)) a r b)).1.

Lemma may_complete s i a r b :
  underway s0 i s -> steps s = a ++ r :: b -> r ∈ rows ->
  completes v (step_id r) t 1 (reply_receipt (step_id r)) (att (step_id r)) (started i s a r b)
    (start w (claim_now (envs i)) r).
Proof.
  intros H El Hr. destruct (fresh_row r Hr) as (_ & Ev & Et & _ & Ea & _).
  assert (open_id s (step_id r)) as Hopen by (exists r; rewrite El; split_and!; [done|set_solver|done]).
  destruct (uw_receipt_ids _ _ _ H _ Hopen) as [Hrid Hatt]. constructor.
  - split; [cbn; set_solver|]. unfold is_step. cbn. by rewrite Ev, Et, !String.eqb_refl.
  - cbn. by rewrite Ea.
  - by left.
  - exact (an_write _ Hans r Hr).
  - split; [exact Hrid|]. intros k y Hy [= E1 E2 _]. apply (uw_receipts _ _ _ H k y Hy E1). by rewrite E2.
  - intros Htr. destruct (an_text _ Hans r Hr Htr) as (x & Hx & _). exists x. split; [exact Hx|].
    split; [|exact Hatt]. by apply (uw_attestations _ _ _ H (step_id r)).
Qed.

Lemma completion_runs s i a r b :
  underway s0 i s -> steps s = a ++ r :: b -> r ∈ rows ->
  let s1 := started i s a r b in let r1 := start w (claim_now (envs i)) r in
  exists a' b' k, steps s1 = a' ++ r1 :: b'
  /\ persist_completion v (step_id r) t 1 (reply_receipt (step_id r)) (att (step_id r)) (settle_now (envs i))
       (step_output (step_id r)) s1 = (completed_after i s1 a' r1 b', Ok k).
Proof.
  intros H El Hr s1 r1. pose proof (may_complete s i a r b H El Hr) as Hc.
  assert (keys_ok s1) as Hk.
  { pose proof (uw_keys _ _ _ H) as Hk. unfold keys_ok in *. cbn. rewrite El, map_app in Hk. by rewrite map_app. }
  destruct (completion_cases v (step_id r) t 1 (reply_receipt (step_id r)) (att (step_id r)) s1
              (settle_now (envs i)) (step_output (step_id r)) Hk) as [(e & _ & Hno)|(a' & r' & b' & E & Hc' & Eq)].
  { by destruct (Hno r1). }
  assert (r' = r1) as ->.
  { destruct Hc as [[Hin Hs] _ _ _ _ _], Hc' as [[Hin' Hs'] _ _ _ _ _].
    by apply (is_step_unique v (step_id r) t s1). }
  exists a', b'. eexists. by split.
Qed.

(** What a pass leaves in the other tables. *)
Record recorded (i : nat) (s : store) (r : step) (s' : store) : Prop := {
  rc_auth : forall eff now, is_step_authorized s run v t (plan_graph_hash rev) eff now = true ->
    is_step_authorized s' run v t (plan_graph_hash rev) eff now = true;
  rc_rev : forall x, fetch_revision s run v t = Some x ->
    exists x', fetch_revision s' run v t = Some x' /\ plan_graph_hash x' = plan_graph_hash x;
  rc_leases : forall k l, leases s' !! k = Some l ->
    k = sha256 (token (envs i)) /\ l_step l = step_id r
    \/ exists l0, leases s !! k = Some l0 /\ l_step l = l_step l0 /\ l_revision l = l_revision l0;
  rc_receipts : exists x, x_step x = step_id r /\ receipts s' = <[receipt_of (step_id r) := x]> (receipts s);
  rc_attestations : forall k y, attestations s' !! k = Some y ->
    t_receipt_id y = receipt_of (step_id r) /\ truthy (attestation_of (step_id r)) = true
      /\ bind_text (attestation_of (step_id r)) = Some k
    \/ attestations s !! k = Some y;
  rc_closed : (exists x, fetch_revision s run v t = Some x) -> unfinished v (steps s') = 0%nat ->
    exists x, revisions s' !! v = Some x /\ r_status x = "completed";
}.

Lemma close_authorized now s eff moment :
  is_step_authorized s run v t (plan_graph_hash rev) eff moment = true ->
  is_step_authorized (close_revision v t now s).1 run v t (plan_graph_hash rev) eff moment = true.
Proof.
  unfold close_revision. destruct (existsb _ _); [done|]. unfold is_step_authorized, fetch_revision, get_run. cbn.
  unfold find_approval. cbn. destruct (a ← approvals s !! v; _) as [x|]; [|done].
  rewrite lookup_alter_eq, lookup_fmap.
  destruct (revisions s !! v) as [y|]; [|done]. cbn.
  destruct (String.eqb (r_tenant y) t) eqn:Et; cbn; rewrite ?Et; [|by rewrite andb_false_r].
  destruct (String.eqb (r_run y) run); cbn; [|done].
  destruct (runs s !! run) as [z|]; cbn; [|done].
  destruct (bool_decide (current_revision_id z = Some v) && String.eqb (w_tenant z) t) eqn:Ec; cbn.
  - destruct (String.eqb (w_tenant z) t); [|done]. rewrite !andb_true_iff. tauto.
  - destruct (String.eqb (w_tenant z) t); [|done]. rewrite !andb_true_iff. tauto.
Qed.
Lemma close_fetch now s x :
  fetch_revision s run v t = Some x ->
  exists x', fetch_revision (close_revision v t now s).1 run v t = Some x' /\ plan_graph_hash x' = plan_graph_hash x.
Proof.
  unfold close_revision. destruct (existsb _ _); [by exists x|]. unfold fetch_revision. cbn. rewrite lookup_alter_eq.
  destruct (revisions s !! v) as [y|]; [|done]. cbn. destruct (String.eqb (r_tenant y) t) eqn:Et; cbn; rewrite Et.
  - destruct (String.eqb (r_run y) run); cbn; [|done]. intros [= ->]. by eexists.
  - by rewrite andb_false_r.
Qed.

Definition passed (i : nat) (s1 : store) (a : list step) (r : step) (b : list step) : store :=
  exec (FinishLease (Some (the_step_claim i r)) t (lease_now (envs i)) true) (completed_after i s1 a r b).

(** Finishing a lease touches nothing else, and keeps what the lease is of. *)
Lemma finish_lease_frame c now b s :
  let s' := exec (FinishLease (Some c) t now b) s in
  runs s' = runs s /\ revisions s' = revisions s /\ steps s' = steps s /\ approvals s' = approvals s
  /\ receipts s' = receipts s /\ attestations s' = attestations s
  /\ forall k l, leases s' !! k = Some l -> exists l0, leases s !! k = Some l0 /\ l_step l = l_step l0 /\ l_revision l = l_revision l0.
Proof.
  cbn. unfold finish_claim_lease. destruct (negb _); [cbn; split_and!; [done..|]; by intros k l Hl; exists l|].
  destruct (leases s !! sha256 (c_lease c)) as [l0|] eqn:E; [|cbn; split_and!; [done..|]; by intros k l Hl; exists l].
  destruct (_ && bool_decide (revoked_at l0 = None)); [|cbn; split_and!; [done..|]; by intros k l Hl; exists l].
  cbn. split_and!; [done..|]. intros k l Hl. destruct (decide (k = sha256 (c_lease c))) as [->|Hne].
  - rewrite lookup_insert_eq in Hl. injection Hl as <-. by exists l0.
  - rewrite lookup_insert_ne in Hl by done. by exists l.
Qed.

Lemma passed_moved s i a r b a' b' :
  keys_ok s -> steps s = a ++ r :: b -> let s1 := started i s a r b in let r1 := start w (claim_now (envs i)) r in
  steps s1 = a' ++ r1 :: b' -> exists r2, moved s (passed i s1 a' r1 b') r r2
    /\ status r2 = completed /\ step_id r2 = step_id r /\ effect r2 = effect r
    /\ output r2 = Some (reply_output (step_id r)).
Proof.
  intros Hk El s1 r1 E1.
  assert (keys_ok s1) as Hk1 by (unfold keys_ok in *; cbn; rewrite El, map_app in Hk; by rewrite map_app).
  exists (complete_row (the_verification r1)
            (if truthy (step_output (step_id r)) then step_output (step_id r) else VDict []) r1).
  split; [|by split_and!]. apply (moved_trans s s1 _ r r1); [by apply (moved_split s s1 a r b)|].
  apply (moved_split s1 _ a' r1 b'); [done|done| |done]. unfold passed.
  destruct (finish_lease_frame (the_step_claim i r1) (lease_now (envs i)) true (completed_after i s1 a' r1 b'))
    as (_ & _ & -> & _). unfold completed_after.
  match goal with |- context [close_revision v t ?n ?s] => destruct (close_revision_tables v t n s) as (-> & _) end.
  reflexivity.
Qed.

Lemma passed_recorded s i a r b a' b' :
  let s1 := started i s a r b in let r1 := start w (claim_now (envs i)) r in
  recorded i s r (passed i s1 a' r1 b').
Proof.
  intros s1 r1. unfold passed.
  destruct (finish_lease_frame (the_step_claim i r1) (lease_now (envs i)) true (completed_after i s1 a' r1 b'))
    as (Er & Ev & Es & Ea & Ex & Et & El). set (s3 := exec _ _) in *. unfold completed_after in *.
  set (s2 := completed_store _ _ _ _ _ _ _ _ _ _ _ _) in *.
  destruct (close_revision_tables v t (settle_now (envs i)) s2) as (Es2 & Ex2 & Et2 & Ea2 & _ & El2).
  constructor.
  - intros eff now Hau.
    assert (forall x y, runs x = runs y -> revisions x = revisions y -> approvals x = approvals y ->
      is_step_authorized x run v t (plan_graph_hash rev) eff now = is_step_authorized y run v t (plan_graph_hash rev) eff now) as Hsame.
    { intros x y E1 E2 E3. unfold is_step_authorized, find_approval, fetch_revision, get_run. by rewrite E1, E2, E3. }
    rewrite (Hsame _ (close_revision v t (settle_now (envs i)) s2).1) by done.
    apply close_authorized. by rewrite (Hsame _ s) by done.
  - intros x Hx. unfold fetch_revision at 1. rewrite Ev. by apply (close_fetch _ s2).
  - intros k l Hl. destruct (El k l Hl) as (l0 & Hl0 & Hstep & Hrev). rewrite El2 in Hl0.
    cbn [s2 leases completed_store] in Hl0. unfold s1, started in Hl0. cbn in Hl0.
    destruct (decide (k = sha256 (token (envs i)))) as [->|Hne].
    + left. rewrite lookup_insert_eq in Hl0. injection Hl0 as <-. by rewrite Hstep.
    + right. rewrite lookup_insert_ne in Hl0 by done. by exists l0.
  - exists (the_receipt v (step_id r) t 1 (reply_receipt (step_id r)) (settle_now (envs i))).
    split; [done|]. by rewrite Ex, Ex2.
  - intros k y Hy. rewrite Et, Et2 in Hy. cbn [s2 attestations completed_store] in Hy. unfold attested in Hy.
    change (the_attestation_id (att (step_id r1))) with (attestation_of (step_id r)) in Hy.
    destruct (truthy (attestation_of (step_id r))) eqn:Etr; [|by right].
    destruct (bind_text (attestation_of (step_id r))) as [a0|] eqn:Eb; [|by right].
    destruct (decide (k = a0)) as [->|Hne].
    + rewrite lookup_insert_eq in Hy. injection Hy as <-. by left.
    + rewrite lookup_insert_ne in Hy by done. by right.
  - intros [x Hx] Hz. rewrite Es in Hz. rewrite Es2 in Hz.
    destruct (close_revision_spec v t (settle_now (envs i)) s2) as [_ Hc]. destruct Hc as [Hc _].
    { intros y Hy Hyv. by apply (unfinished_zero (steps s2)). }
    unfold fetch_revision in Hx. destruct (revisions s !! v) as [x0|] eqn:E0; [|done]. cbn in Hx.
    destruct (String.eqb (r_run x0) run && String.eqb (r_tenant x0) t) eqn:Eb; [|done].
    apply andb_true_iff in Eb as [_ Eb%String.eqb_eq]. exists (set_r_status x0 "completed"). split; [|done].
    rewrite Ev. by apply Hc.
Qed.

(** ** A pass *)

Lemma rows_authorized s i x :
  underway s0 i s -> (i <= length rows)%nat -> plan_graph_hash x = plan_graph_hash rev ->
  authorized_now (envs i) run v t s x (steps_of s v) = true.
Proof.
  intros H Hle Hhash. unfold authorized_now. apply forallb_forall. intros y Hy%list_elem_of_In. rewrite Hhash.
  apply (uw_auth _ _ _ H). apply in_steps_of in Hy as [Hy Hyv].
  pose proof (ru_authorized _ _ Hplan i Hle) as Ha. unfold authorized_now in Ha. rewrite forallb_forall in Ha.
  destruct (uw_rows _ _ _ H y Hy Hyv) as [Hrow|(_ & _ & y0 & Hrow & _ & ->)]; apply Ha; by apply list_elem_of_In.
Qed.

Lemma pass_completes s i :
  underway s0 i s -> unfinished v (steps s) <> 0%nat ->
  exists r r' s', r ∈ rows /\ r ∈ steps s /\ moved s s' r r' /\ done_row r' /\ recorded i s r s'
  /\ after (run_next (envs i) run v t w s) = s'
  /\ answer (run_next (envs i) run v t w s) = Ok (status_of_step "step_completed" (step_id r)).
Proof.
  intros H Hn. destruct (claim_starts s i H Hn) as (a & r & b & El & Hr & Hmay & Eclaim).
  destruct (completion_runs s i a r b H El Hr) as (a' & b' & k & E1 & Epersist).
  destruct (passed_moved s i a r b a' b' (uw_keys _ _ _ H) El E1) as (r2 & Hm & Hs2 & Hid & Heff & Hout).
  exists r, r2, (passed i (started i s a r b) a' (start w (claim_now (envs i)) r) b').
  split; [done|]. split; [rewrite El; set_solver|]. split; [done|]. split.
  { split; [done|]. rewrite Hid. split; [done|]. exists r. split; [done|]. split; [apply (mv_key _ _ _ _ Hm)|done]. }
  split; [apply passed_recorded|].
  destruct (input_resolves s i a r b H El Hr Hmay) as [inp Hinp].
  destruct (uw_rev _ _ _ H) as (x & Hx & Hhash).
  assert (forall j s', interleave (envs i) j s' = s') as Hi
    by (intros; unfold interleave; by rewrite (co_alone _ Hco)).
  assert (keys_ok (started i s a r b)) as Hk1.
  { pose proof (uw_keys _ _ _ H) as Hk. unfold keys_ok in *. cbn. rewrite El, map_app in Hk. by rewrite map_app. }
  assert (authorized_now (envs i) run v t s x (steps_of s v) = true) as Hau
    by (apply (rows_authorized s i); [done| |done]; pose proof (uw_count _ _ _ H); lia).
  assert (get_revision s run v t = Some (x, steps_of s v)) as Hget by (unfold get_revision; by rewrite Hx).
  assert (get_revision (started i s a r b) run v t = Some (x, steps_of (started i s a r b) v)) as Hget1.
  { unfold get_revision. change (fetch_revision (started i s a r b) run v t) with (fetch_revision s run v t). by rewrite Hx. }
  assert (List.find (fun y => String.eqb (step_id y) (step_id r)) (steps_of (started i s a r b) v)
          = Some (start w (claim_now (envs i)) r)) as Hfind.
  { apply (find_step (started i s a r b) (start w (claim_now (envs i)) r)); [done|cbn; set_solver|].
    by destruct (fresh_row r Hr) as (_ & ? & _). }
  unfold run_next. rewrite Hget, !Hi, Hau. cbn [negb]. rewrite Eclaim, Hi. unfold run_claimed.
  rewrite Hget1. cbn [c_step the_step_claim]. rewrite Hfind.
  change (input (start w (claim_now (envs i)) r)) with (input r). rewrite Hinp, (co_policy _ Hco). cbn [negb].
  rewrite (co_answers _ Hco), Hi. cbn [record_outcome d_claim d_step step_id start set_progress set_row].
  rewrite (an_reply _ Hans r Hr). cbn [c_attempt the_step_claim].
  change (get_or (reply (step_id r)) "receipt" (VDict [])) with (reply_receipt (step_id r)).
  change (get_or (reply (step_id r)) "output" (VDict [])) with (step_output (step_id r)).
  rewrite Epersist, Hi. done.
Qed.

Lemma rows_ids r r0 : r ∈ rows -> r0 ∈ rows -> step_id r = step_id r0 -> r = r0.
Proof.
  intros Hr H0 E. pose proof (proj1 (rows_of_start r) Hr) as [Hin Hv]. pose proof (proj1 (rows_of_start r0) H0) as [Hin0 Hv0].
  apply (key_unique key (steps s0)); [done..|]. unfold key. congruence.
Qed.
Lemma receipts_differ r sid s : r ∈ rows -> open_id s sid -> sid <> step_id r -> receipt_of sid <> receipt_of (step_id r).
Proof.
  intros Hr (r0 & H0 & _ & <-) Hne E. apply Hne. f_equal.
  by apply (key_unique (fun r => receipt_of (step_id r)) rows _ _ (an_receipts _ Hans)).
Qed.
Lemma omap_NoDup {A} (f : A -> option string) l x y a :
  NoDup (omap f l) -> x ∈ l -> y ∈ l -> f x = Some a -> f y = Some a -> x = y.
Proof.
  induction l as [|z l IH]; [by intros _ ?%elem_of_nil|]. intros Hn Hx Hy Ex Ey.
  cbn [omap list_omap] in Hn.
  assert (forall q, q ∈ l -> f q = Some a -> f z <> Some a) as Hz.
  { intros q Hq Eq Ez. rewrite Ez in Hn. apply NoDup_cons in Hn as [Hn _]. apply Hn. apply list_elem_of_omap. by exists q. }
  assert (NoDup (omap f l)) as Hn' by (destruct (f z); [by apply NoDup_cons in Hn as [_ ?]|done]).
  apply elem_of_cons in Hx as [->|Hx], Hy as [->|Hy]; [done|by destruct (Hz y)|by destruct (Hz x)|by apply IH].
Qed.
Lemma attestations_differ r sid s a :
  r ∈ rows -> open_id s sid -> sid <> step_id r -> truthy (attestation_of sid) = true ->
  bind_text (attestation_of sid) = Some a -> truthy (attestation_of (step_id r)) = true ->
  bind_text (attestation_of (step_id r)) <> Some a.
Proof.
  intros Hr (r0 & H0 & _ & <-) Hne Ht0 Ha Ht E. apply Hne. f_equal.
  apply (omap_NoDup _ rows _ _ a (an_attestations _ Hans)); [done|done|by rewrite Ht0|by rewrite Ht].
Qed.

Lemma underway_pass s i :
  underway s0 i s -> unfinished v (steps s) <> 0%nat ->
  underway s0 (S i) (after (run_next (envs i) run v t w s))
  /\ exists sid, answer (run_next (envs i) run v t w s) = Ok (status_of_step "step_completed" sid).
Proof.
  intros H Hn. destruct (pass_completes s i H Hn) as (r & r' & s' & Hr & Hrs & Hm & Hd & Hrec & Es' & Ea).
  pose proof (step_completed_decreases (envs i) run v t w s _ (uw_keys _ _ _ H) (co_alone _ Hco i) Ea eq_refl) as Hlt.
  assert (keys_ok s') as Hk'.
  { destruct (run_next_calls (envs i) run v t w s) as (cs & _ & E & _). rewrite <- Es', E.
    apply exec_all_keys, (uw_keys _ _ _ H). }
  rewrite Es' in *. split; [|by eexists].
  assert (status r' <> queued) as Hq by (destruct Hd; congruence).
  pose proof (fun sid => open_moved s s' r r' sid Hr Hm Hq) as Hopen.
  destruct (rc_receipts _ _ _ _ Hrec) as (xr & Hxs & Hxr).
  constructor.
  - done.
  - intros y Hy Hv. destruct (mv_old _ _ _ _ Hm y Hy) as [->|[Hys _]]; [by right|by apply (uw_rows _ _ _ H)].
  - intros y Hy. destruct (uw_all _ _ _ H y Hy) as (x & Hx & Hkx). destruct (decide (key x = key r)) as [E|E].
    + exists r'. split; [apply (mv_in _ _ _ _ Hm)|]. rewrite (mv_key _ _ _ _ Hm). congruence.
    + exists x. split; [|done]. by apply (mv_kept _ _ _ _ Hm).
  - intros eff now Hau. apply (rc_auth _ _ _ _ Hrec). by apply (uw_auth _ _ _ H).
  - destruct (uw_rev _ _ _ H) as (x & Hx & E). destruct (rc_rev _ _ _ _ Hrec x Hx) as (x' & Hx' & E').
    exists x'. split; [done|congruence].
  - intros k l Hl Hv Ho. destruct (Hopen _ Ho) as [Ho' Hne].
    destruct (rc_leases _ _ _ _ Hrec k l Hl) as [[_ E]|(l0 & Hl0 & E & Ev)]; [done|].
    rewrite E in Ho'. apply (uw_leases _ _ _ H k l0 Hl0); congruence.
  - intros j Hj. destruct (leases s' !! sha256 (token (envs j))) as [l|] eqn:El; [exfalso|done].
    destruct (rc_leases _ _ _ _ Hrec _ l El) as [[E _]|(l0 & Hl0 & _)].
    + pose proof (NoDup_lookup _ i j (sha256 (token (envs i))) (co_tokens _ Hco)) as Hij.
      rewrite !list_lookup_fmap, !lookup_seq_lt in Hij by lia. cbn in Hij. rewrite E in Hij.
      specialize (Hij eq_refl eq_refl). lia.
    + rewrite (uw_tokens _ _ _ H j) in Hl0 by lia. done.
  - intros k x Hx Hv Ho. destruct (Hopen _ Ho) as [Ho' Hne]. rewrite Hxr in Hx.
    destruct (decide (k = receipt_of (step_id r))) as [->|Hk].
    + rewrite lookup_insert_eq in Hx. injection Hx as <-. congruence.
    + rewrite lookup_insert_ne in Hx by done. by apply (uw_receipts _ _ _ H k x).
  - intros sid Ho. destruct (Hopen _ Ho) as [Ho' Hne]. destruct (uw_receipt_ids _ _ _ H sid Ho') as [H1 H2].
    pose proof (receipts_differ r sid s Hr Ho' Hne) as Hdiff. split.
    + rewrite Hxr, lookup_insert_ne by done. done.
    + intros k y Hy. destruct (rc_attestations _ _ _ _ Hrec k y Hy) as [(-> & _)|Hy']; [done|by apply (H2 k)].
  - intros sid a Ho Ht Ha. destruct (Hopen _ Ho) as [Ho' Hne].
    destruct (attestations s' !! a) as [y|] eqn:Ey; [exfalso|done].
    destruct (rc_attestations _ _ _ _ Hrec a y Ey) as [(_ & Htr & Hb)|Hy'].
    + by apply (attestations_differ r sid s a).
    + rewrite (uw_attestations _ _ _ H sid a Ho' Ht Ha) in Hy'. done.
  - pose proof (uw_count _ _ _ H). lia.
  - apply (rc_closed _ _ _ _ Hrec). destruct (uw_rev _ _ _ H) as (x & Hx & _). by exists x.
Qed.

(** The pass after the last step answers that the plan is complete. *)
Lemma last_pass s i :
  underway s0 i s -> (i <= length rows)%nat -> unfinished v (steps s) = 0%nat ->
  after (run_next (envs i) run v t w s) = s
  /\ answer (run_next (envs i) run v t w s) = Ok (status_only "complete").
Proof.
  intros H Hle Hz. destruct (uw_rev _ _ _ H) as (x & Hx & Hhash).
  assert (forall j s', interleave (envs i) j s' = s') as Hi
    by (intros; unfold interleave; by rewrite (co_alone _ Hco)).
  assert (get_revision s run v t = Some (x, steps_of s v)) as Hget by (unfold get_revision; by rewrite Hx).
  assert (forall r, r ∈ steps s -> ~ may_start (steps s) run v t (claim_now (envs i)) r) as Hnone.
  { intros r Hr (Hin & Hq & _). unfold in_revision in Hin. row_hyps.
    rewrite (unfinished_zero _ Hz r) in Hq; done. }
  pose proof (claim_takes_first_ready run v t w (claim_now (envs i)) (lease_ttl (envs i)) (token (envs i)) s (uw_keys _ _ _ H)) as Hc.
  cbv zeta in Hc. rewrite (not_spent s i H) in Hc.
  unfold run_next. rewrite Hget, !Hi, rows_authorized by done. cbn [negb].
  destruct (claim_ready_step _ _ _ _ _ _ _ _ s) as [s' [[c|]|e]].
  - destruct Hc as (a & r & b & El & Hr & _). destruct (Hnone r); [rewrite El; set_solver|done].
  - destruct Hc as [-> _]. assert (with_steps s (steps s) = s) as -> by by destruct s.
    rewrite Hi, Hget. cbn. split; [done|].
    assert (truthy (steps_of s v) = true) as ->.
    { destruct rows as [|r0 l] eqn:E0; [by destruct (ru_some _ _ Hplan)|].
      assert (r0 ∈ rows) as Hr0 by (rewrite E0; left). rewrite <- E0 in *. destruct (uw_all _ _ _ H r0 Hr0) as (y & Hy & Hky).
      destruct (fresh_row r0 Hr0) as (_ & Ev & _). assert (y ∈ steps_of s v) as Hin.
      { apply in_steps_of. split; [done|]. unfold key in Hky. congruence. }
      destruct (steps_of s v); [by apply elem_of_nil in Hin|done]. }
    assert (forallb (has_status completed) (steps_of s v) = true) as ->; [|done].
    apply forallb_forall. intros y Hy%list_elem_of_In. apply in_steps_of in Hy as [Hy Hv].
    apply has_status_spec. by apply (unfinished_zero (steps s)).
  - destruct Hc as (_ & _ & r & Hr & Hmay & _). by destruct (Hnone r).
Qed.

Lemma runs_to_completion s i :
  underway s0 i s ->
  exists s', run_until_blocked (S (unfinished v (steps s))) envs i run v t w s
             = Some (s', Ok (status_only "complete"))
  /\ unfinished v (steps s') = 0%nat /\ exists j, underway s0 j s'.
Proof.
  remember (unfinished v (steps s)) as m eqn:Em. revert s i Em.
  induction (lt_wf m) as [m _ IH]. intros s i Em H. destruct (decide (m = 0%nat)) as [->|Hm].
  - assert (i <= length rows)%nat as Hle by (pose proof (uw_count _ _ _ H); lia).
    destruct (last_pass s i H Hle ltac:(lia)) as [Es Ea]. exists s. cbn [run_until_blocked]. rewrite Ea, Es.
    split; [done|]. split; [done|]. by exists i.
  - destruct (underway_pass s i H ltac:(lia)) as [H' [sid Ea]].
    pose proof (step_completed_decreases (envs i) run v t w s _ (uw_keys _ _ _ H) (co_alone _ Hco i) Ea eq_refl) as Hlt.
    destruct (IH (unfinished v (steps (after (run_next (envs i) run v t w s)))) ltac:(lia) _ (S i) eq_refl H') as (s' & Hrun & Hz & Hj). exists s'. split; [|by split].
    cbn [run_until_blocked]. rewrite Ea. cbn [p_answer status_of_step String.eqb Ascii.eqb].
    eapply more_fuel; [exact Hrun|lia].
Qed.
End plan.

(** C9. An approved plan is carried out.  Take a revision as it was created and
    approved: nothing of it was tried, its dependencies have no cycle, and the
    input of each step can be resolved once the steps it depends on have
    answered.  A worker alone on it, with a policy that allows, a dispatcher
    that answers each step (an attested answer for a write), and fresh tokens
    and identifiers, takes every step to completion: [run_until_blocked] returns
    "complete" after one pass per step and one more, every step is completed
    with the output its provider answered, and the revision is closed. *)
Theorem approved_plan_completes run v t w rev rows envs reply att rank s :
  keys_ok s -> runnable run v t rev rows envs reply rank s -> answerable v rows reply att s ->
  cooperative rows envs reply s ->
  exists s', run_until_blocked (S (length rows)) envs 0 run v t w s = Some (s', Ok (status_only "complete"))
  /\ (forall r, r ∈ rows -> exists x, x ∈ steps s' /\ key x = key r /\ status x = completed
        /\ output x = Some (reply_output reply (step_id r)))
  /\ exists x, revisions s' !! v = Some x /\ r_status x = "completed".
Proof.
  intros Hk Hplan Hans Hco.
  pose proof (underway_start run v t rev rows envs reply att rank s Hplan Hans Hco Hk) as H.
  destruct (runs_to_completion run v t w rev rows envs reply att rank s Hplan Hans Hco Hk s 0 H)
    as (s' & Hrun & Hz & j & Hj).
  rewrite (rows_length run v t rev rows envs reply rank s Hplan) in Hrun. exists s'. split; [exact Hrun|].
  split; [|by apply (uw_closed _ _ _ _ _ _ _ _ _ _ _ Hj)].
  intros r Hr. destruct (uw_all _ _ _ _ _ _ _ _ _ _ _ Hj r Hr) as (x & Hx & Hkx). exists x.
  destruct (fresh_row run v t rev rows envs reply rank s Hplan r Hr) as (_ & Ev & _).
  assert (revision_of x = v /\ step_id x = step_id r) as [Hxv Hid] by (unfold key in Hkx; split; congruence).
  pose proof (unfinished_zero v _ Hz x Hx Hxv) as Hst.
  destruct (uw_rows _ _ _ _ _ _ _ _ _ _ _ Hj x Hx Hxv) as [Hrow|(_ & Ho & _)].
  - destruct (fresh_row run v t rev rows envs reply rank s Hplan x Hrow) as (_ & _ & _ & E & _). congruence.
  - by rewrite <- Hid.
Qed.

(** ** A read whose answer a write uses *)

Definition pair_find : step_spec := {|
  n_step_id := "find"; n_capability_id := "contacts.find"; n_capability_version := "1";
  n_connection_id := None; n_descriptor_snapshot_hash := "d"; n_input_hash := "i";
  n_credential_version := Some 1; n_input := VDict []; n_depends_on := []; n_effect := "read" |}.
Definition pair_send : step_spec := {|
  n_step_id := "send"; n_capability_id := "mail.send"; n_capability_version := "1";
  n_connection_id := None; n_descriptor_snapshot_hash := "d"; n_input_hash := "i";
  n_credential_version := Some 1; n_input := VDict [("to", VDict [("$ref", VStr "find.output.mail")])];
  n_depends_on := ["find"]; n_effect := "write" |}.
Definition pair_plan : list call := [
  CreateRun "t" "ana" "goal" 0 "r"; CreateRevision "workflow:r" "t" "h" [pair_send; pair_find] 0 60 "v";
  Approve "workflow:r" "revision:v" "t" "h" "ana" 1 100].
Definition pair_store : store := exec_all pair_plan empty_store.
Definition pair_reply (sid : string) : list (string * pyval) :=
  if String.eqb sid "find" then [("output", VDict [("mail", VStr "bo@x")])]
  else [("receipt", VDict [("id", VInt 7)]); ("attestation", VDict [("attestation_id", VStr "att-1")])].
Definition pair_att (sid : string) : option (list (string * pyval)) :=
  if String.eqb sid "find" then None else Some [("attestation_id", VStr "att-1")].
Definition pair_env (i : nat) : environment := {|
  dispatcher r _ _ := Returned (VDict (pair_reply (step_id r)));
  policy _ _ := Bool true; auth_now _ := 10; claim_now := 10; settle_now := 11; lease_now := 12;
  lease_ttl := 60; paused_retry_seconds := 60; token := "k" +:+ pretty.pretty (Z.of_nat i);
  exn_text _ := ""; others _ := [] |}.
Definition pair_rank (sid : string) : nat := if String.eqb sid "find" then 0 else 1.
Definition pair_rows : list step :=
  [new_step "workflow:r" "revision:v" "t" 60 pair_send; new_step "workflow:r" "revision:v" "t" 60 pair_find].

Example pair_sends_to_the_address_found :
  (fun r => (answer r, d_input <$> sent r)) (run_next (pair_env 1) "workflow:r" "revision:v" "t" "w1"
     (after (run_next (pair_env 0) "workflow:r" "revision:v" "t" "w1" pair_store)))
  = (Ok (status_of_step "step_completed" "send"), Some (VDict [("to", VStr "bo@x")])).
Proof. vm_compute. reflexivity. Qed.

Lemma pair_inputs r s' :
  r ∈ pair_rows -> inputs_available "revision:v" pair_reply s' r ->
  exists x, _resolve_input s' (steps_of s' "revision:v") "revision:v" "t" (input r) = Ok x.
Proof.
  intros Hr [Hnd Hav]. unfold pair_rows in Hr.
  apply elem_of_cons in Hr as [->|[->|Hr%elem_of_nil]%elem_of_cons]; [|by eexists|done].
  destruct (Hav "find" ltac:(by left)) as (x & Hx & Hid & Ho).
  cbn [input new_step n_input pair_send _resolve_input mapM_result String.eqb Ascii.eqb].
  change (input _) with (n_input pair_send). cbn -[resolve_ref steps_of].
  assert (resolve_ref s' (steps_of s' "revision:v") "revision:v" "t" (VStr "find.output.mail") = Ok (VStr "bo@x")) as ->;
    [|by eexists].
  unfold resolve_ref. change (split_dot "find.output.mail") with ["find"; "output"; "mail"]. cbn [head default tail].
  destruct (List.find _ (steps_of s' "revision:v")) as [y|] eqn:Ey.
  - apply find_In in Ey as [Hy Hidy%String.eqb_eq]. cbn in Hidy.
    assert (y = x) as -> by (apply (key_unique step_id (steps_of s' "revision:v")); [done..|congruence]).
    cbn [String.eqb Ascii.eqb Bool.eqb]. rewrite Ho. reflexivity.
  - apply list_elem_of_In in Hx. pose proof (find_none _ _ Ey x Hx) as Hf. cbn in Hf. by rewrite Hid in Hf.
Qed.

Lemma approved_plan_completes_witness :
  exists s', run_until_blocked 3 pair_env 0 "workflow:r" "revision:v" "t" "w1" pair_store
             = Some (s', Ok (status_only "complete"))
  /\ exists x, x ∈ steps s' /\ key x = ("revision:v", "find")
     /\ output x = Some (VDict [("mail", VStr "bo@x")]).
Proof.
  assert (exists rev, get_revision pair_store "workflow:r" "revision:v" "t" = Some (rev, pair_rows)) as [rev Hrev]
    by (eexists; vm_compute; reflexivity).
  assert (leases pair_store = ∅ /\ receipts pair_store = ∅ /\ attestations pair_store = ∅) as (El & Er & Ea)
    by (vm_compute; done).
  destruct (approved_plan_completes "workflow:r" "revision:v" "t" "w1" rev pair_rows pair_env pair_reply pair_att
              pair_rank pair_store (built_keys pair_plan)) as (s' & Hrun & Hrows & _).
  - constructor; rewrite ?El, ?Er, ?Ea; try done.
    + intros r [->|[->|Hr%elem_of_nil]%elem_of_cons]%elem_of_cons; [by split_and!..|done].
    + intros r [->|[->|Hr%elem_of_nil]%elem_of_cons]%elem_of_cons; [| |done].
      * split; [apply NoDup_singleton|]. intros d ->%list_elem_of_singleton. split; [cbn; lia|]. right. left.
      * split; [constructor|]. by intros d Hd%elem_of_nil.
    + apply pair_inputs.
    + intros i _. injection Hrev as <-. vm_compute. reflexivity.
  - constructor; rewrite ?Ea.
    + by intros r [->|[->|Hr%elem_of_nil]%elem_of_cons]%elem_of_cons.
    + by intros r [->|[->|Hr%elem_of_nil]%elem_of_cons]%elem_of_cons.
    + intros r [->|[->|Hr%elem_of_nil]%elem_of_cons]%elem_of_cons; [by exists "att-1"|done|done].
    + vm_compute. repeat constructor; set_solver.
    + vm_compute. repeat constructor; set_solver.
  - constructor; rewrite ?El; try done. vm_compute. repeat constructor; set_solver.
  - exists s'. split; [exact Hrun|].
    destruct (Hrows (new_step "workflow:r" "revision:v" "t" 60 pair_find)) as (x & Hx & Hk & _ & Ho); [right; left|].
    exists x. split; [exact Hx|]. split; [exact Hk|]. rewrite Ho. vm_compute. reflexivity.
Defined.
