(* ===== verification/Actions.v ===== *)
(** * Action proposals and capability leases

    [ActionRepository] of src/agents/orchestrator/action_repository.py over
    SQLite: versioned proposals of an effect, the decision of the user they
    name, their one-use execution, and the leases a broker checks before it
    acts.  A binding is the mapping the broker sends; its values are compared
    with text columns as SQLite compares a bound parameter ([text_eq]).

    Generated identifiers and tokens are arguments; [created_now] stands for
    the clock when a caller passes no time.  Schema creation is not modelled. *)

From S2P Require Import Prelude PyValue Json Sha256 Workflow.
Local Open Scope Z_scope.

Definition canonical_payload (payload : pyval) : string := dumps payload.
Definition canonical_payload_hash (payload : pyval) : string := sha256 (canonical_payload payload).

Definition LEGACY_TENANT : string := "legacy".

Inductive action_error : Type :=
| ActionValueError (why : string)
| ActionIntegrityError
| ActionConversionError (e : pyexn)
| ActionBindingError.

Inductive proposal_status : Type :=
| proposed | superseded_p | approved | rejected | executing | p_completed | p_failed | p_unknown.
Global Instance proposal_status_eq_dec : EqDecision proposal_status.
Proof. solve_decision. Defined.

(** A row of [action_proposals]. *)
Record proposal := {
  proposal_id : string;
  version : Z;
  p_user : string;
  p_agent : string;
  p_credential : string;
  p_capability : string;
  payload : pyval;
  payload_hash : string;
  idempotency_key : string;
  p_tenant : string;
  p_revision : string;
  p_step : string;
  p_graph_hash : string;
  p_connection : string;
  p_attempt_no : Z;
  authority_profile : string;
  authority_profile_id : string;
  slack_subject_id : string;
  reinforced : bool;
  expires_at : Z;
  pr_status : proposal_status;
  approved_on : option Z;
  rejected_on : option Z;
  execution_started_at : option Z;
  dispatched_at : option Z;
  execution_finished_at : option Z;
  p_receipt : option pyval;
  broker_response : option pyval;
  failure_reason : option string;
}.

(** The columns an update may assign. *)
Record p_state := {
  s_status : proposal_status;
  s_approved : option Z;
  s_rejected : option Z;
  s_started : option Z;
  s_dispatched : option Z;
  s_finished : option Z;
  s_receipt : option pyval;
  s_response : option pyval;
  s_reason : option string;
}.
Definition state_of (p : proposal) : p_state := {|
  s_status := pr_status p; s_approved := approved_on p; s_rejected := rejected_on p;
  s_started := execution_started_at p; s_dispatched := dispatched_at p;
  s_finished := execution_finished_at p; s_receipt := p_receipt p;
  s_response := broker_response p; s_reason := failure_reason p |}.
Definition set_state (p : proposal) (x : p_state) : proposal := {|
  proposal_id := proposal_id p; version := version p; p_user := p_user p; p_agent := p_agent p;
  p_credential := p_credential p; p_capability := p_capability p; payload := payload p;
  payload_hash := payload_hash p; idempotency_key := idempotency_key p; p_tenant := p_tenant p;
  p_revision := p_revision p; p_step := p_step p; p_graph_hash := p_graph_hash p;
  p_connection := p_connection p; p_attempt_no := p_attempt_no p;
  authority_profile := authority_profile p; authority_profile_id := authority_profile_id p;
  slack_subject_id := slack_subject_id p; reinforced := reinforced p; expires_at := expires_at p;
  pr_status := s_status x; approved_on := s_approved x; rejected_on := s_rejected x;
  execution_started_at := s_started x; dispatched_at := s_dispatched x;
  execution_finished_at := s_finished x; p_receipt := s_receipt x;
  broker_response := s_response x; failure_reason := s_reason x |}.

(** A row of [capability_leases], whose key is the hash of its token. *)
Record capability_lease := {
  cl_user : string;
  cl_agent : string;
  cl_task : string;
  cl_credential : string;
  cl_capabilities : list string;
  cl_expires : Z;
  cl_revoked : option Z;
  cl_consumed : option Z;
  cl_revision : string;
  cl_step : string;
  cl_graph_hash : string;
  cl_connection : string;
  cl_attempt : Z;
  cl_profile : string;
  cl_profile_id : string;
  cl_subject : string;
  cl_tenant : string;
}.
Definition set_lease (l : capability_lease) (revoked consumed : option Z) : capability_lease := {|
  cl_user := cl_user l; cl_agent := cl_agent l; cl_task := cl_task l;
  cl_credential := cl_credential l; cl_capabilities := cl_capabilities l;
  cl_expires := cl_expires l; cl_revoked := revoked; cl_consumed := consumed;
  cl_revision := cl_revision l; cl_step := cl_step l; cl_graph_hash := cl_graph_hash l;
  cl_connection := cl_connection l; cl_attempt := cl_attempt l; cl_profile := cl_profile l;
  cl_profile_id := cl_profile_id l; cl_subject := cl_subject l; cl_tenant := cl_tenant l |}.

(** Proposals in rowid order. *)
Record actions := {
  proposals : list proposal;
  capability_leases : gmap string capability_lease;
}.
Definition no_actions : actions := {| proposals := []; capability_leases := ∅ |}.
Definition with_proposals (s : actions) (l : list proposal) : actions :=
  {| proposals := l; capability_leases := capability_leases s |}.
Definition with_capability_leases (s : actions) (m : gmap string capability_lease) : actions :=
  {| proposals := proposals s; capability_leases := m |}.

Definition actm (A : Type) : Type := stm actions action_error A.

Definition p_in (l : list proposal_status) (p : proposal) : bool :=
  existsb (fun st => bool_decide (pr_status p = st)) l.
Definition is_proposal (id : string) (v : Z) (p : proposal) : bool :=
  String.eqb (proposal_id p) id && Z.eqb (version p) v.

(** [UPDATE action_proposals ...] and its [rowcount == 1]. *)
Definition update_proposals (c : proposal -> bool) (f : proposal -> proposal) : actm bool := fun s =>
  (with_proposals s (map (fun p => if c p then f p else p) (proposals s)),
   Ok (Nat.eqb (length (List.filter c (proposals s))) 1)).

(** [column = ?] on a text column: a list or a mapping cannot be bound, NULL
    equals nothing, a number is compared as text. *)
Definition text_eq (col : string) (v : pyval) : bool :=
  match bind_text v with Some t => String.eqb col t | None => false end.
Definition bindable (v : pyval) : bool := match v with VList _ | VDict _ => false | _ => true end.
Definition params_ok (l : list pyval) : actm unit :=
  if forallb bindable l then stm_ret tt else stm_raise ActionBindingError.

(** [_tenant_scope]: the named tenant or a legacy row. *)
Definition tenant_scope (tenant_id : pyval) (col : string) : bool :=
  String.eqb col LEGACY_TENANT
  || text_eq col (if truthy tenant_id then tenant_id else VStr LEGACY_TENANT).

(** ** Proposals *)

Section proposals.
Local Open Scope stm_scope.

Record proposal_spec := {
  sp_user : string;
  sp_agent : string;
  sp_credential : string;
  sp_capability : string;
  sp_payload : pyval;
  sp_expires : Z;
  sp_id : option string;
  sp_key : option string;
  sp_revision : option string;
  sp_step : string;
  sp_graph_hash : string;
  sp_connection : string;
  sp_attempt : Z;
  sp_profile : string;
  sp_profile_id : option string;
  sp_subject : option string;
  sp_reinforced : bool;
  sp_tenant : option string;
}.

Definition dynamic (revision_id : option string) : bool :=
  match revision_id with Some r => negb (String.eqb r "legacy") | None => false end.

(** [a or b] for an optional text. *)
Definition text_or (a : option string) (b : string) : string :=
  match a with Some t => if truthy t then t else b | None => b end.

Definition attempt_suffix (n : Z) : string := ":attempt:" +:+ pretty.pretty n.
Definition proposal_key (sp : proposal_spec) (generated : string) : string :=
  let key := text_or (sp_key sp) ("action-" +:+ generated) in
  if dynamic (sp_revision sp) && negb (ends_with (attempt_suffix (sp_attempt sp)) key)
  then key +:+ attempt_suffix (sp_attempt sp) else key.

Definition last_version (id : string) (l : list proposal) : Z :=
  fold_right (fun p n => if String.eqb (proposal_id p) id then Z.max (version p) n else n) 0 l.

Definition supersede_p (p : proposal) : proposal := set_state p {|
  s_status := superseded_p; s_approved := approved_on p; s_rejected := rejected_on p;
  s_started := execution_started_at p; s_dispatched := dispatched_at p;
  s_finished := execution_finished_at p; s_receipt := p_receipt p;
  s_response := broker_response p; s_reason := failure_reason p |}.

Definition new_proposal (sp : proposal_spec) (id : string) (v : Z) (key revision_id : string)
    : proposal := {|
  proposal_id := id; version := v; p_user := sp_user sp; p_agent := sp_agent sp;
  p_credential := sp_credential sp; p_capability := sp_capability sp;
  payload := norm (sp_payload sp); payload_hash := canonical_payload_hash (sp_payload sp);
  idempotency_key := key; p_tenant := text_or (sp_tenant sp) LEGACY_TENANT;
  p_revision := revision_id; p_step := sp_step sp; p_graph_hash := sp_graph_hash sp;
  p_connection := sp_connection sp; p_attempt_no := sp_attempt sp;
  authority_profile := (if truthy (sp_profile sp) then sp_profile sp else "bot");
  authority_profile_id := text_or (sp_profile_id sp) "none";
  slack_subject_id := text_or (sp_subject sp) "none"; reinforced := sp_reinforced sp;
  expires_at := sp_expires sp; pr_status := proposed; approved_on := None; rejected_on := None;
  execution_started_at := None; dispatched_at := None; execution_finished_at := None;
  p_receipt := None; broker_response := None; failure_reason := None |}.

Definition insert_proposal (p : proposal) : actm unit := fun s =>
  if existsb (fun q => String.eqb (idempotency_key q) (idempotency_key p)
                       || is_proposal (proposal_id p) (version p) q) (proposals s)
  then (s, Err ActionIntegrityError)
  else (with_proposals s (proposals s ++ [p]), Ok tt).

Definition get (s : actions) (id : string) (v : option Z) (tenant_id : option string)
    : option proposal :=
  let tenant := match tenant_id with Some t => VStr t | None => VNone end in
  let mine := List.filter (fun p => String.eqb (proposal_id p) id && tenant_scope tenant (p_tenant p))
                (proposals s) in
  match v with
  | Some n => List.find (fun p => Z.eqb (version p) n) mine
  | None => fold_right (fun p best => match best with
                                      | Some q => if version q <? version p then Some p else best
                                      | None => Some p
                                      end) None mine
  end.
(** The key and the tenant as they are bound: a caller may pass any value. *)
Definition find_by_key (s : actions) (key tenant : pyval) : option proposal :=
  List.find (fun p => text_eq (idempotency_key p) key && tenant_scope tenant (p_tenant p))
    (proposals s).
Definition get_by_idempotency_key (s : actions) (key : string) (tenant_id : option string)
    : option proposal :=
  find_by_key s (VStr key) (match tenant_id with Some t => VStr t | None => VNone end).

Definition create_proposal (sp : proposal_spec) (generated_id generated_key : string)
    : actm (option proposal) :=
  let id := text_or (sp_id sp) ("proposal-" +:+ generated_id) in
  let key := proposal_key sp generated_key in
  v <~ transaction (
    s <~ stm_get ;;
    (if dynamic (sp_revision sp)
        && existsb (fun p => String.eqb (proposal_id p) id && p_in [executing; p_unknown] p)
             (proposals s)
     then stm_raise (ActionValueError "prior attempt is still executing or unresolved")
     else stm_ret tt) ;;;
    let v := last_version id (proposals s) + 1 in
    update_proposals (fun p => String.eqb (proposal_id p) id && p_in [proposed; approved] p)
      supersede_p ;;;
    match sp_revision sp with
    | None => stm_raise ActionIntegrityError (* NOT NULL *)
    | Some r => insert_proposal (new_proposal sp id v key r) ;;; stm_ret v
    end) ;;
  s <~ stm_get ;;
  stm_ret (get s id (Some v) (sp_tenant sp)).

Definition decide_row (yes : bool) (now_ts : Z) (p : proposal) : proposal := set_state p {|
  s_status := if yes then approved else rejected;
  s_approved := if yes then Some now_ts else approved_on p;
  s_rejected := if yes then rejected_on p else Some now_ts;
  s_started := execution_started_at p; s_dispatched := dispatched_at p;
  s_finished := execution_finished_at p; s_receipt := p_receipt p;
  s_response := broker_response p; s_reason := failure_reason p |}.
Definition decide (id : string) (v : Z) (user : string) (yes : bool) (now_ts : Z)
    (tenant_id : option string) : actm bool :=
  let tenant := match tenant_id with Some t => VStr t | None => VNone end in
  update_proposals (fun p => is_proposal id v p && String.eqb (p_user p) user
                             && p_in [proposed] p && (now_ts <=? expires_at p)
                             && tenant_scope tenant (p_tenant p))
    (decide_row yes now_ts).

Definition binding : Type := list (string * pyval).
Definition REQUIRED : list string := [
  "proposal_id"; "version"; "user_principal_id"; "agent_principal_id"; "credential_id";
  "capability_id"; "payload_hash"; "idempotency_key"].
(** [binding.get("workflow_revision_id") not in (None, "legacy")]. *)
Definition dynamic_binding (b : binding) : bool :=
  let v := PyValue.get b "workflow_revision_id" in
  negb (py_eqb v VNone || py_eqb v (VStr "legacy")).
Definition when_dynamic (b : binding) (field : string) : pyval :=
  if dynamic_binding b then PyValue.get b field else VStr "legacy".

Definition start_row (now_ts : Z) (p : proposal) : proposal := set_state p {|
  s_status := executing; s_approved := approved_on p; s_rejected := rejected_on p;
  s_started := Some now_ts; s_dispatched := dispatched_at p;
  s_finished := execution_finished_at p; s_receipt := p_receipt p;
  s_response := broker_response p; s_reason := failure_reason p |}.
Definition bound (b : binding) (v attempt now_ts : Z) (p : proposal) : bool :=
  text_eq (proposal_id p) (PyValue.get b "proposal_id") && Z.eqb (version p) v
  && text_eq (p_user p) (PyValue.get b "user_principal_id")
  && text_eq (p_agent p) (PyValue.get b "agent_principal_id")
  && text_eq (p_credential p) (PyValue.get b "credential_id")
  && text_eq (p_capability p) (PyValue.get b "capability_id")
  && text_eq (payload_hash p) (PyValue.get b "payload_hash")
  && text_eq (idempotency_key p) (PyValue.get b "idempotency_key")
  && text_eq (p_revision p) (when_dynamic b "workflow_revision_id")
  && text_eq (p_step p) (when_dynamic b "step_id")
  && text_eq (p_graph_hash p) (when_dynamic b "plan_graph_hash")
  && text_eq (p_connection p) (when_dynamic b "connection_id")
  && Z.eqb (p_attempt_no p) attempt && p_in [approved] p && (now_ts <=? expires_at p)
  && tenant_scope (PyValue.get b "tenant_id") (p_tenant p).
Definition from_py {A} (r : result pyexn A) : actm A :=
  match r with Ok a => stm_ret a | Err e => stm_raise (ActionConversionError e) end.

Definition consume_approval (b : binding) (now_ts : Z) : actm (option proposal) :=
  if existsb (fun field => negb (truthy (PyValue.get b field))) REQUIRED then stm_ret None else
  attempt <~ from_py (if dynamic_binding b then py_int (get_or b "attempt" (VInt 0)) else Ok 0) ;;
  transaction (
    v <~ from_py (py_int (PyValue.get b "version")) ;;
    params_ok (map (PyValue.get b)
                 ["proposal_id"; "user_principal_id"; "agent_principal_id"; "credential_id";
                  "capability_id"; "payload_hash"; "idempotency_key"; "tenant_id"]
               ++ map (when_dynamic b)
                 ["workflow_revision_id"; "step_id"; "plan_graph_hash"; "connection_id"]) ;;;
    s <~ stm_get ;;
    update_proposals (bound b v attempt now_ts) (start_row now_ts) ;;;
    stm_ret (start_row now_ts <$> List.find (bound b v attempt now_ts) (proposals s))).

Definition complete_p (now_ts : Z) (receipt : pyval) (response : option pyval) (p : proposal)
    : proposal := set_state p {|
  s_status := p_completed; s_approved := approved_on p; s_rejected := rejected_on p;
  s_started := execution_started_at p; s_dispatched := dispatched_at p;
  s_finished := Some now_ts; s_receipt := Some (norm receipt); s_response := norm <$> response;
  s_reason := failure_reason p |}.
Definition complete_execution (id : string) (v : Z) (receipt : pyval) (now_ts : Z)
    (response : option pyval) : actm bool :=
  update_proposals (fun p => is_proposal id v p && p_in [executing; p_unknown] p)
    (complete_p now_ts receipt response).

Definition dispatch_row (now_ts : Z) (p : proposal) : proposal := set_state p {|
  s_status := pr_status p; s_approved := approved_on p; s_rejected := rejected_on p;
  s_started := execution_started_at p; s_dispatched := Some now_ts;
  s_finished := execution_finished_at p; s_receipt := p_receipt p;
  s_response := broker_response p; s_reason := failure_reason p |}.
Definition undispatched (id : string) (v : Z) (p : proposal) : bool :=
  is_proposal id v p && p_in [executing] p && bool_decide (dispatched_at p = None).
Definition mark_dispatched (id : string) (v now_ts : Z) : actm bool :=
  update_proposals (undispatched id v) (dispatch_row now_ts).

Definition hand_back (p : proposal) : proposal := set_state p {|
  s_status := approved; s_approved := approved_on p; s_rejected := rejected_on p;
  s_started := None; s_dispatched := dispatched_at p;
  s_finished := execution_finished_at p; s_receipt := p_receipt p;
  s_response := broker_response p; s_reason := failure_reason p |}.
Definition recover_pre_dispatch_claim (id : string) (v : Z) : actm bool :=
  update_proposals (undispatched id v) hand_back.

Definition fail_row (st : proposal_status) (now_ts : Z) (reason : string) (p : proposal)
    : proposal := set_state p {|
  s_status := st; s_approved := approved_on p; s_rejected := rejected_on p;
  s_started := execution_started_at p; s_dispatched := dispatched_at p;
  s_finished := Some now_ts; s_receipt := p_receipt p; s_response := broker_response p;
  s_reason := Some (take_chars 500 reason) |}.
Definition fail_execution (id : string) (v : Z) (reason : string) (now_ts : Z) (unknown : bool)
    : actm bool :=
  update_proposals (fun p => is_proposal id v p && p_in [executing] p)
    (fail_row (if unknown then p_unknown else p_failed) now_ts reason).
Definition resolve_unknown_as_absent (id : string) (v : Z) (reason : string) (now_ts : Z)
    : actm bool :=
  update_proposals (fun p => is_proposal id v p && p_in [p_unknown] p)
    (fail_row p_failed now_ts reason).

(** ** The sweep *)

(** [COALESCE(MAX(l.expires_at), p.expires_at)] over the joined leases. *)
Definition deadline (s : actions) (p : proposal) : Z :=
  default (expires_at p)
    (map_fold (fun _ l best =>
       if negb (String.eqb (p_revision p) "legacy") && String.eqb (cl_revision l) (p_revision p)
          && String.eqb (cl_step l) (p_step p) && Z.eqb (cl_attempt l) (p_attempt_no p)
       then Some (match best with Some b => Z.max b (cl_expires l) | None => cl_expires l end)
       else best) None (capability_leases s)).

(** Grouped rows come in the order of their key. *)
Definition proposal_le (a b : proposal) : Prop :=
  String.le (proposal_id a) (proposal_id b)
  /\ (proposal_id a <> proposal_id b \/ version a <= version b).
Global Instance proposal_le_dec a b : Decision (proposal_le a b).
Proof. unfold proposal_le. apply _. Defined.
Definition stalled (s : actions) (now_ts : Z) (limit : nat) : list proposal :=
  take limit (List.filter (fun p => p_in [executing] p && (deadline s p <? now_ts))
    (merge_sort proposal_le (proposals s))).

Record swept := { recovered : list string; unknown_ids : list string }.
Definition sweep_one (now_ts : Z) (p : proposal) (acc : swept) : actm swept :=
  match dispatched_at p with
  | None =>
      ok <~ recover_pre_dispatch_claim (proposal_id p) (version p) ;;
      stm_ret (if ok : bool then {| recovered := recovered acc ++ [proposal_id p];
                            unknown_ids := unknown_ids acc |} else acc)
  | Some _ =>
      ok <~ fail_execution (proposal_id p) (version p)
              "dispatch lease expired without an observed outcome" now_ts true ;;
      stm_ret (if ok : bool then {| recovered := recovered acc;
                            unknown_ids := unknown_ids acc ++ [proposal_id p] |} else acc)
  end.
Fixpoint sweep_all (now_ts : Z) (l : list proposal) (acc : swept) : actm swept :=
  match l with
  | [] => stm_ret acc
  | p :: l' => acc' <~ sweep_one now_ts p acc ;; sweep_all now_ts l' acc'
  end.
Definition sweep_stalled_executions (now_ts : Z) (limit : nat) : actm swept :=
  s <~ stm_get ;; sweep_all now_ts (stalled s now_ts limit) {| recovered := []; unknown_ids := [] |}.

(** ** Leases *)

Record lease_spec := {
  ls_user : string;
  ls_agent : string;
  ls_task : string;
  ls_credential : string;
  ls_capabilities : list string;
  ls_expires : Z;
  ls_revision : string;
  ls_step : string;
  ls_graph_hash : string;
  ls_connection : string;
  ls_attempt : Z;
  ls_profile : string;
  ls_profile_id : option string;
  ls_subject : option string;
  ls_tenant : option string;
}.
Definition new_lease (ls : lease_spec) : capability_lease := {|
  cl_user := ls_user ls; cl_agent := ls_agent ls; cl_task := ls_task ls;
  cl_credential := ls_credential ls; cl_capabilities := str_sorted_set (ls_capabilities ls);
  cl_expires := ls_expires ls; cl_revoked := None; cl_consumed := None;
  cl_revision := ls_revision ls; cl_step := ls_step ls; cl_graph_hash := ls_graph_hash ls;
  cl_connection := ls_connection ls; cl_attempt := ls_attempt ls;
  cl_profile := (if truthy (ls_profile ls) then ls_profile ls else "bot");
  cl_profile_id := text_or (ls_profile_id ls) "none";
  cl_subject := text_or (ls_subject ls) "none";
  cl_tenant := text_or (ls_tenant ls) LEGACY_TENANT |}.

Definition is_active (l : capability_lease) : bool :=
  bool_decide (cl_consumed l = None) && bool_decide (cl_revoked l = None).
(** The partial unique index [capability_one_active_workflow_lease]. *)
Definition active_for (revision_id step_id : string) (l : capability_lease) : bool :=
  negb (String.eqb (cl_revision l) "legacy") && String.eqb (cl_revision l) revision_id
  && String.eqb (cl_step l) step_id && is_active l.

Definition revoke_active_leases (revision_id step_id : string) (now_ts : Z) : actm unit :=
  if String.eqb revision_id "legacy" then stm_ret tt
  else stm_modify (fun s => with_capability_leases s
    ((fun l => if String.eqb (cl_revision l) revision_id && String.eqb (cl_step l) step_id
                  && is_active l
               then set_lease l (Some now_ts) (cl_consumed l) else l) <$> capability_leases s)).
(** No transaction: a failed insert keeps the revocation. *)
Definition issue_lease (ls : lease_spec) (now_ts : Z) (token : string) : actm string :=
  revoke_active_leases (ls_revision ls) (ls_step ls) now_ts ;;;
  fun s =>
    let h := sha256 token in
    if bool_decide (is_Some (capability_leases s !! h))
       || negb (String.eqb (ls_revision ls) "legacy")
          && bool_decide (map_Exists (fun _ l => active_for (ls_revision ls) (ls_step ls) l = true)
                            (capability_leases s))
    then (s, Err ActionIntegrityError)
    else (with_capability_leases s (<[h := new_lease ls]> (capability_leases s)), Ok token).

Definition binding_field (b : binding) (field : string) (row dflt : pyval) : bool :=
  py_eqb row (get_or b field dflt).
Definition authority_field (b : binding) (field row dflt : string) : bool :=
  let v := PyValue.get b field in py_eqb (VStr row) (if truthy v then v else VStr dflt).
Definition _workflow_lease_binding_matches (l : capability_lease) (b : binding) : bool :=
  String.eqb (cl_revision l) "legacy"
  || binding_field b "workflow_revision_id" (VStr (cl_revision l)) (VStr "legacy")
     && binding_field b "step_id" (VStr (cl_step l)) (VStr "legacy")
     && binding_field b "plan_graph_hash" (VStr (cl_graph_hash l)) (VStr "legacy")
     && binding_field b "connection_id" (VStr (cl_connection l)) (VStr "legacy")
     && binding_field b "attempt" (VInt (cl_attempt l)) (VInt 0)
     && authority_field b "authority_profile" (cl_profile l) "bot"
     && authority_field b "authority_profile_id" (cl_profile_id l) "none"
     && authority_field b "slack_subject_id" (cl_subject l) "none".

(** The part of the lease row the query compares. *)
Definition lease_matches (b : binding) (now_ts : Z) (l : capability_lease) : bool :=
  text_eq (cl_user l) (PyValue.get b "user_principal_id")
  && text_eq (cl_agent l) (PyValue.get b "agent_principal_id")
  && text_eq (cl_task l) (PyValue.get b "task_id")
  && text_eq (cl_credential l) (PyValue.get b "credential_id")
  && bool_decide (cl_revoked l = None) && (now_ts <=? cl_expires l)
  && tenant_scope (PyValue.get b "tenant_id") (cl_tenant l).
Definition lease_allows (b : binding) (l : capability_lease) : bool :=
  mem (PyValue.get b "capability_id") (map VStr (cl_capabilities l))
  && _workflow_lease_binding_matches l b.
Definition lease_params (b : binding) : list pyval :=
  map (PyValue.get b) ["user_principal_id"; "agent_principal_id"; "task_id"; "credential_id";
                       "tenant_id"].

Definition validate_lease (token : string) (b : binding) (now_ts : Z) : actm bool :=
  if negb (truthy token) then stm_ret false else
  params_ok (lease_params b) ;;;
  s <~ stm_get ;;
  stm_ret (match capability_leases s !! sha256 token with
           | Some l => lease_matches b now_ts l && lease_allows b l
           | None => false
           end).

Definition consume_lease (token : string) (b : binding) (now_ts : Z) : actm bool :=
  if negb (truthy token) then stm_ret false else
  transaction (
    params_ok (lease_params b) ;;;
    s <~ stm_get ;;
    match capability_leases s !! sha256 token with
    | Some l =>
        if lease_matches b now_ts l && bool_decide (cl_consumed l = None) && lease_allows b l
        then stm_modify (fun s' => with_capability_leases s'
               (<[sha256 token := set_lease l (cl_revoked l) (Some now_ts)]> (capability_leases s'))) ;;;
             stm_ret true
        else stm_ret false
    | None => stm_ret false
    end).
End proposals.
