(* ===== verification/ActionProofs.v ===== *)
(** * What the action repository guarantees

    Theorems about Actions.v over every history of its methods: what an
    execution was approved for, that a dispatched effect is never handed out
    again, that one attempt is in flight at a time, and what a lease is good
    for. *)

From S2P Require Import Prelude Rows PyValue Json Sha256 Workflow Actions.
Local Open Scope Z_scope.

(** ** Histories *)

Inductive act : Type :=
| Propose (sp : proposal_spec) (generated_id generated_key : string)
| Decide (id : string) (v : Z) (user : string) (yes : bool) (now : Z) (tenant : option string)
| Consume (b : binding) (now : Z)
| CompleteAction (id : string) (v : Z) (receipt : pyval) (now : Z) (response : option pyval)
| MarkDispatched (id : string) (v now : Z)
| RecoverClaim (id : string) (v : Z)
| FailAction (id : string) (v : Z) (reason : string) (now : Z) (unknown : bool)
| ResolveAbsent (id : string) (v : Z) (reason : string) (now : Z)
| Sweep (now : Z) (limit : nat)
| IssueLease (ls : lease_spec) (now : Z) (token : string)
| ValidateLease (token : string) (b : binding) (now : Z)
| ConsumeLease (token : string) (b : binding) (now : Z).

Definition perform (c : act) (s : actions) : actions :=
  match c with
  | Propose sp g k => (create_proposal sp g k s).1
  | Decide i v u y n t => (decide i v u y n t s).1
  | Consume b n => (consume_approval b n s).1
  | CompleteAction i v r n x => (complete_execution i v r n x s).1
  | MarkDispatched i v n => (mark_dispatched i v n s).1
  | RecoverClaim i v => (recover_pre_dispatch_claim i v s).1
  | FailAction i v r n u => (fail_execution i v r n u s).1
  | ResolveAbsent i v r n => (resolve_unknown_as_absent i v r n s).1
  | Sweep n l => (sweep_stalled_executions n l s).1
  | IssueLease ls n t => (issue_lease ls n t s).1
  | ValidateLease t b n => (validate_lease t b n s).1
  | ConsumeLease t b n => (consume_lease t b n s).1
  end.
Definition perform_all (cs : list act) (s : actions) : actions :=
  fold_left (fun s c => perform c s) cs s.

(** ** The state machine of a proposal *)

Definition p_key (p : proposal) : string * Z := (proposal_id p, version p).
Definition proposed_id (sp : proposal_spec) (g : string) : string := text_or (sp_id sp) ("proposal-" +:+ g).

Inductive p_change : act -> proposal -> proposal -> Prop :=
| pc_supersede sp g k p :
    proposal_id p = proposed_id sp g -> pr_status p = proposed \/ pr_status p = approved ->
    p_change (Propose sp g k) p (supersede_p p)
| pc_decide id v user yes now t p :
    p_key p = (id, v) -> p_user p = user -> pr_status p = proposed -> now <= expires_at p ->
    p_change (Decide id v user yes now t) p (decide_row yes now p)
| pc_start b now v n p :
    bound b v n now p = true ->
    p_change (Consume b now) p (start_row now p)
| pc_complete id v receipt now response p :
    p_key p = (id, v) -> pr_status p = executing \/ pr_status p = p_unknown ->
    p_change (CompleteAction id v receipt now response) p (complete_p now receipt response p)
| pc_dispatch id v now p :
    p_key p = (id, v) -> pr_status p = executing -> dispatched_at p = None ->
    p_change (MarkDispatched id v now) p (dispatch_row now p)
| pc_hand_back c p :
    (c = RecoverClaim (proposal_id p) (version p) \/ exists now limit, c = Sweep now limit) ->
    pr_status p = executing -> dispatched_at p = None ->
    p_change c p (hand_back p)
| pc_fail c now reason st p :
    (c = FailAction (proposal_id p) (version p) reason now (bool_decide (st = p_unknown))
     \/ exists limit, c = Sweep now limit) ->
    pr_status p = executing -> st = p_unknown \/ st = p_failed ->
    p_change c p (fail_row st now reason p)
| pc_absent id v reason now p :
    p_key p = (id, v) -> pr_status p = p_unknown ->
    p_change (ResolveAbsent id v reason now) p (fail_row p_failed now reason p).

Inductive p_new : act -> proposal -> Prop :=
| pn_proposed sp g k v r :
    sp_revision sp = Some r ->
    p_new (Propose sp g k) (new_proposal sp (proposed_id sp g) v (proposal_key sp k) r).

Abbreviation p_tracks c := (Rows.tracks proposals p_key (p_change c) (p_new c)).

Lemma p_in_spec l p : p_in l p = true <-> pr_status p ∈ l.
Proof.
  unfold p_in. rewrite existsb_exists. split.
  - intros (x & Hx & E%bool_decide_eq_true). rewrite E. by apply list_elem_of_In.
  - intros H. exists (pr_status p). split; [by apply list_elem_of_In|]. by apply bool_decide_eq_true.
Qed.
Lemma p_in_one st p : p_in [st] p = true <-> pr_status p = st.
Proof. by rewrite p_in_spec, list_elem_of_singleton. Qed.
Lemma p_in_two a b p : p_in [a; b] p = true <-> pr_status p = a \/ pr_status p = b.
Proof. rewrite p_in_spec. set_solver. Qed.
Lemma is_proposal_key id v p : is_proposal id v p = true <-> p_key p = (id, v).
Proof.
  unfold is_proposal, p_key. rewrite andb_true_iff, String.eqb_eq, Z.eqb_eq. naive_solver.
Qed.
Lemma undispatched_spec id v p :
  undispatched id v p = true <-> p_key p = (id, v) /\ pr_status p = executing /\ dispatched_at p = None.
Proof.
  unfold undispatched. rewrite !andb_true_iff, is_proposal_key, p_in_one, bool_decide_eq_true. tauto.
Qed.

Lemma p_tracks_update c f g :
  (forall p, p_key (g p) = p_key p) -> (forall p, f p = true -> p_change c p (g p)) ->
  p_tracks c (update_proposals f g).
Proof. by apply tracks_update. Qed.

Ltac p_frame := apply tracks_frame; intros ?; repeat case_match; reflexivity.

Lemma last_version_le id l p : p ∈ l -> proposal_id p = id -> version p <= last_version id l.
Proof.
  induction l as [|q l IH]; [by intros ?%elem_of_nil|]. simpl. intros [->|Hp]%elem_of_cons E.
  - rewrite E, String.eqb_refl. lia.
  - specialize (IH Hp E). case_match; lia.
Qed.

Lemma p_tracks_insert sp g k v r :
  sp_revision sp = Some r ->
  p_tracks (Propose sp g k) (insert_proposal (new_proposal sp (proposed_id sp g) v (proposal_key sp k) r)).
Proof.
  intros Hr. eapply tracks_insert; [|by constructor]. intros s. unfold insert_proposal.
  destruct (existsb _ _) eqn:E; [by left|right]. split; [done|].
  intros (q & Hq & Hin)%list_elem_of_fmap. apply not_true_iff_false in E. apply E.
  apply existsb_exists. exists q. split; [by apply list_elem_of_In|].
  rewrite orb_true_iff, is_proposal_key. right. by rewrite <- Hq.
Qed.

Lemma p_tracks_propose sp g k : p_tracks (Propose sp g k) (create_proposal sp g k).
Proof.
  unfold create_proposal. apply tracks_bind; [|intros v; apply tracks_get; intros; apply tracks_ret].
  apply tracks_transaction, tracks_get. intros s0 _. apply tracks_bind.
  { apply tracks_if; [apply tracks_raise|apply tracks_ret]. }
  intros _. apply tracks_bind.
  { apply p_tracks_update; [by intros []|]. intros p Hp.
    apply andb_true_iff in Hp as [Hid Hst]. apply p_in_two in Hst. apply String.eqb_eq in Hid.
    by constructor. }
  intros _. destruct (sp_revision sp) eqn:Er; [|apply tracks_raise].
  apply tracks_bind; [by apply p_tracks_insert|]. intros _. apply tracks_ret.
Qed.

Lemma p_tracks_from_py {A} c (r : result pyexn A) : p_tracks c (from_py r).
Proof. destruct r; [apply tracks_ret|apply tracks_raise]. Qed.
Lemma p_tracks_params c l : p_tracks c (params_ok l).
Proof. unfold params_ok. apply tracks_if; [apply tracks_ret|apply tracks_raise]. Qed.

Lemma p_tracks_consume b now : p_tracks (Consume b now) (consume_approval b now).
Proof.
  unfold consume_approval. apply tracks_if; [apply tracks_ret|].
  apply tracks_bind; [apply p_tracks_from_py|]. intros n.
  apply tracks_transaction, tracks_bind; [apply p_tracks_from_py|].
  intros v. apply tracks_bind; [apply p_tracks_params|]. intros _. apply tracks_get. intros s _.
  apply tracks_bind; [|intros; apply tracks_ret].
  apply p_tracks_update; [by intros []|]. intros p Hp. by econstructor.
Qed.

Lemma p_tracks_sweep now limit : p_tracks (Sweep now limit) (sweep_stalled_executions now limit).
Proof.
  unfold sweep_stalled_executions. apply tracks_get. intros s _.
  generalize (stalled s now limit) as l. intros l. generalize {| recovered := []; unknown_ids := [] |}.
  induction l as [|p l IH]; intros acc; [apply tracks_ret|]. simpl.
  apply tracks_bind; [|intros acc'; apply IH]. unfold sweep_one. case_match.
  - apply tracks_bind; [|intros; apply tracks_ret].
    apply p_tracks_update; [by intros []|]. intros q Hq.
    rewrite andb_true_iff, p_in_one in Hq. destruct Hq as [_ Hst].
    constructor; [right; by eexists|done|by left].
  - apply tracks_bind; [|intros; apply tracks_ret].
    apply p_tracks_update; [by intros []|]. intros q Hq%undispatched_spec.
    destruct Hq as (_ & Hst & Hd). constructor; [|done..]. right. by eexists _, _.
Qed.

(** Every method changes the proposals as the machine allows. *)
Lemma perform_tracks c s :
  keyed proposals p_key s ->
  keyed proposals p_key (perform c s)
  /\ Rows.follows (p_change c) (p_new c) (proposals s) (proposals (perform c s)).
Proof.
  revert s. enough (forall A (m : actm A), p_tracks c m ->
    forall s, keyed proposals p_key s -> keyed proposals p_key (m s).1
      /\ Rows.follows (p_change c) (p_new c) (proposals s) (proposals (m s).1)) as Hm.
  2: { intros A m H. exact H. }
  destruct c; cbn [perform]; apply Hm; clear Hm.
  - apply p_tracks_propose.
  - unfold decide. apply p_tracks_update; [by intros []|]. intros p Hp.
    rewrite !andb_true_iff, is_proposal_key, p_in_one, String.eqb_eq, Z.leb_le in Hp.
    destruct Hp as ((((Hk & Hu) & Hst) & Hx) & _). by constructor.
  - apply p_tracks_consume.
  - unfold complete_execution. apply p_tracks_update; [by intros []|].
    intros p Hp. rewrite andb_true_iff, is_proposal_key, p_in_two in Hp. destruct Hp. by constructor.
  - unfold mark_dispatched. apply p_tracks_update; [by intros []|].
    intros p (Hk & Hst & Hd)%undispatched_spec. by constructor.
  - unfold recover_pre_dispatch_claim. apply p_tracks_update; [by intros []|].
    intros p (Hk & Hst & Hd)%undispatched_spec. constructor; [|done..]. left.
    unfold p_key in Hk. congruence.
  - unfold fail_execution. apply p_tracks_update; [by intros []|]. intros p Hp.
    rewrite andb_true_iff, is_proposal_key, p_in_one in Hp. destruct Hp as [Hk Hst].
    unfold p_key in Hk. injection Hk as <- <-.
    destruct unknown; (constructor; [left; reflexivity|done|auto]).
  - unfold resolve_unknown_as_absent. apply p_tracks_update; [by intros []|].
    intros p Hp. rewrite andb_true_iff, is_proposal_key, p_in_one in Hp. destruct Hp. by constructor.
  - apply p_tracks_sweep.
  - unfold issue_lease, revoke_active_leases. apply tracks_bind; [p_frame|intros _; p_frame].
  - unfold validate_lease. apply tracks_if; [p_frame|].
    apply tracks_bind; [apply p_tracks_params|intros _; apply tracks_get; intros; apply tracks_ret].
  - unfold consume_lease. apply tracks_if; [p_frame|]. apply tracks_transaction.
    apply tracks_bind; [apply p_tracks_params|]. intros _. apply tracks_get. intros s _. repeat case_match; p_frame.
Qed.

Lemma perform_all_app cs cs' s : perform_all (cs ++ cs') s = perform_all cs' (perform_all cs s).
Proof. apply fold_left_app. Qed.

Lemma built_actions cs : keyed proposals p_key (perform_all cs no_actions).
Proof. apply (history_keyed _ _ perform p_change p_new perform_tracks). constructor. Qed.

Lemma p_change_key c p q : p_change c p q -> p_key q = p_key p.
Proof. by destruct 1. Qed.

(** ** What was approved *)

(** The columns of the proposal a call asked for. *)
Definition proposed_as (sp : proposal_spec) (p : proposal) : Prop :=
  p_user p = sp_user sp /\ p_agent p = sp_agent sp /\ p_credential p = sp_credential sp
  /\ p_capability p = sp_capability sp /\ payload p = norm (sp_payload sp)
  /\ payload_hash p = canonical_payload_hash (sp_payload sp)
  /\ Some (p_revision p) = sp_revision sp /\ p_step p = sp_step sp
  /\ p_graph_hash p = sp_graph_hash sp /\ p_connection p = sp_connection sp
  /\ p_attempt_no p = sp_attempt sp /\ expires_at p = sp_expires sp.

(** The statuses only an approval leads to. *)
Definition past_approval (st : proposal_status) : bool :=
  match st with
  | approved | executing | p_completed | p_failed | p_unknown => true
  | proposed | superseded_p | rejected => false
  end.

Definition sanctioned (cs : list act) (p : proposal) : Prop :=
  (exists sp g k, Propose sp g k ∈ cs /\ proposed_id sp g = proposal_id p /\ proposed_as sp p)
  /\ (past_approval (pr_status p) = true ->
      exists t tenant, Decide (proposal_id p) (version p) (p_user p) true t tenant ∈ cs
        /\ t <= expires_at p).

Lemma sanctioned_change cs c p q :
  c ∈ cs -> p_change c p q -> sanctioned cs p -> sanctioned cs q.
Proof.
  intros Hc Hch [Hsp Hap]. split.
  { destruct Hsp as (sp & g & k & Hin & Hid & Has). exists sp, g, k. by destruct Hch. }
  assert (pr_status p = approved \/ pr_status p = executing \/ pr_status p = p_unknown ->
    exists t tenant, Decide (proposal_id p) (version p) (p_user p) true t tenant ∈ cs
      /\ t <= expires_at p) as Hap'.
  { intros Hst. apply Hap. by destruct Hst as [->|[->| ->]]. }
  destruct Hch as [|id v user yes now t p Hk Hu Hst Hx|b now v n p Hb| | | |c now reason st p _ Hst Hto|];
    simpl; intros Hp; try discriminate Hp; try (apply Hap'; tauto).
  - destruct yes; [|discriminate Hp]. unfold p_key in Hk. injection Hk as -> ->. subst user. eauto.
  - apply Hap'. left. unfold bound in Hb. rewrite !andb_true_iff, p_in_one in Hb. tauto.
Qed.

Lemma sanctioned_history cs p : p ∈ proposals (perform_all cs no_actions) -> sanctioned cs p.
Proof.
  revert p. apply (history_invariant _ _ perform p_change p_new perform_tracks (sanctioned cs)).
  - constructor.
  - intros c p q. apply sanctioned_change.
  - intros c p Hc Hnew. destruct Hnew as [sp g k v r Hr]. split.
    + exists sp, g, k. split; [done|]. split; [done|]. unfold proposed_as. simpl. by split_and!.
    + discriminate.
  - by intros p ?%elem_of_nil.
Qed.

Lemma bind_text_VStr (s : string) : bind_text (VStr s) = Some s.
Proof. done. Qed.

(** What [consume_approval] returns, it found approved and bound. *)
Lemma consume_inv b now s s' p :
  consume_approval b now s = (s', Ok (Some p)) ->
  exists q v n, q ∈ proposals s /\ bound b v n now q = true /\ p = start_row now q
    /\ s' = with_proposals s (map (fun r => if bound b v n now r then start_row now r else r)
                                (proposals s)).
Proof.
  unfold consume_approval. destruct (existsb _ REQUIRED); [done|].
  unfold stm_bind at 1, from_py at 1.
  destruct (if dynamic_binding b then _ else _) as [n|e]; [|done]. unfold stm_ret at 1, transaction.
  unfold stm_bind at 1, from_py. destruct (py_int _) as [v|e]; [|done]. unfold stm_ret at 1.
  unfold stm_bind at 1, params_ok. destruct (forallb _ _); [|done]. unfold stm_ret at 1.
  change (stm_bind stm_get ?k s) with (k s s). unfold stm_bind, update_proposals, stm_ret.
  destruct (List.find _ _) as [q|] eqn:Ef; [|done]. intros [= <- <-].
  apply find_In in Ef as [Hq Hb]. exists q, v, n. by split_and!.
Qed.

Lemma text_eq_spec col v : text_eq col v = true <-> bind_text v = Some col.
Proof.
  unfold text_eq. destruct (bind_text v) as [t|]; [|by split].
  rewrite String.eqb_eq. naive_solver.
Qed.

(** An execution runs only what its user approved.  When
    [consume_approval] hands out a proposal, it is executing and unexpired; it
    was proposed with the user, agent, credential, capability, payload hash and
    (for a workflow step) revision, step and attempt that the binding names;
    the payload stored is the one that hash is of; and the user it names
    approved that version before it expired. *)
Theorem execution_was_approved cs b now s' p :
  consume_approval b now (perform_all cs no_actions) = (s', Ok (Some p)) ->
  pr_status p = executing /\ now <= expires_at p
  /\ bind_text (PyValue.get b "payload_hash") = Some (payload_hash p)
  /\ bind_text (PyValue.get b "capability_id") = Some (p_capability p)
  /\ bind_text (PyValue.get b "agent_principal_id") = Some (p_agent p)
  /\ bind_text (when_dynamic b "workflow_revision_id") = Some (p_revision p)
  /\ bind_text (when_dynamic b "step_id") = Some (p_step p)
  /\ (exists sp g k, Propose sp g k ∈ cs /\ proposed_id sp g = proposal_id p /\ proposed_as sp p)
  /\ exists t tenant, Decide (proposal_id p) (version p) (p_user p) true t tenant ∈ cs
       /\ t <= expires_at p.
Proof.
  intros Hc. destruct (consume_inv _ _ _ _ _ Hc) as (q & v & n & Hq & Hb & -> & _).
  destruct (sanctioned_history cs q Hq) as [Hsp Hap]. unfold bound in Hb.
  rewrite !andb_true_iff, !text_eq_spec, Z.leb_le, p_in_one in Hb.
  destruct Hb as (((((((((((((((H1 & H2) & H3) & H4) & H5) & H6) & H7) & H8) & H9) & H10) & H11) & H12)
    & H13) & H14) & H15) & H16).
  rewrite H14 in Hap. specialize (Hap eq_refl). simpl. by split_and!.
Qed.

(** ** A dispatched effect *)

Definition released (st : proposal_status) : bool :=
  match st with
  | executing | p_completed | p_failed | p_unknown => true
  | proposed | superseded_p | approved | rejected => false
  end.
Definition sealed (d : Z) (p : proposal) : Prop := dispatched_at p = Some d /\ released (pr_status p) = true.

Lemma sealed_change c p q d : p_change c p q -> sealed d p -> sealed d q.
Proof.
  unfold sealed. intros Hch [Hd Hst].
  destruct Hch as [| | b now v n p Hb| | | | |]; simpl; try (split; [done|]); try congruence; try done.
  - destruct H0 as [E|E]; rewrite E in Hst; discriminate Hst.
  - rewrite H1 in Hst. discriminate Hst.
  - by destruct H1 as [->| ->].
Qed.

Lemma dispatched_sealed cs p d :
  p ∈ proposals (perform_all cs no_actions) -> dispatched_at p = Some d -> sealed d p.
Proof.
  intros Hp Hd. split; [done|].
  enough (dispatched_at p <> None -> released (pr_status p) = true) as H by (apply H; congruence).
  clear Hd. revert p Hp.
  apply (history_invariant _ _ perform p_change p_new perform_tracks
           (fun p => dispatched_at p <> None -> released (pr_status p) = true)).
  - constructor.
  - intros c p q _ Hch HP. destruct Hch as [| | b now v n p Hb| | | | |]; simpl; try done;
      try (intros Hd; specialize (HP Hd)); try done.
    + destruct H0 as [E|E]; rewrite E in HP; discriminate HP.
    + rewrite H1 in HP. discriminate HP.
    + by rewrite H0.
    + by destruct H1 as [->| ->].
  - intros c p _ [] ?. done.
  - by intros p ?%elem_of_nil.
Qed.

Lemma sealed_history cs s p d :
  keyed proposals p_key s -> p ∈ proposals s -> sealed d p ->
  exists q, q ∈ proposals (perform_all cs s) /\ p_key q = p_key p /\ sealed d q.
Proof.
  intros Hk Hp Hs. destruct (history_row _ _ perform p_change p_new perform_tracks cs s p Hk Hp)
    as (q & Hq & Hch). exists q. split; [exact Hq|]. clear Hq Hp.
  induction Hch as [|x y z (c & _ & Hxy) _ IH]; [done|].
  destruct IH as [E Hz]; [by apply (sealed_change c x)|].
  split; [|done]. apply p_change_key in Hxy. congruence.
Qed.

Lemma update_none f g s :
  (forall p, p ∈ proposals s -> f p = false) ->
  (update_proposals f g s).2 = Ok false.
Proof.
  intros Hf. unfold update_proposals. simpl.
  destruct (List.filter f (proposals s)) as [|p l] eqn:E; [done|].
  assert (p ∈ List.filter f (proposals s)) as Hp by (rewrite E; left).
  apply in_filter in Hp as [Hp Hfp]. rewrite Hf in Hfp; done.
Qed.

(** A dispatched effect is never handed out again.  Once a version of a
    proposal has been marked dispatched, no later history of calls, sweeps
    included, makes it approved again: it stays executing, completed, failed or
    unknown, it cannot be marked dispatched a second time or recovered as if it
    had not been sent, and no approval of it can be consumed. *)
Theorem dispatched_never_again cs cs' p d :
  p ∈ proposals (perform_all cs no_actions) -> dispatched_at p = Some d ->
  let s := perform_all cs' (perform_all cs no_actions) in
  (exists q, q ∈ proposals s /\ p_key q = p_key p /\ dispatched_at q = Some d
     /\ released (pr_status q) = true)
  /\ (forall now, (mark_dispatched (proposal_id p) (version p) now s).2 = Ok false)
  /\ (recover_pre_dispatch_claim (proposal_id p) (version p) s).2 = Ok false
  /\ forall b now s' q, consume_approval b now s = (s', Ok (Some q)) -> p_key q <> p_key p.
Proof.
  intros Hp Hd s. pose proof (dispatched_sealed cs p d Hp Hd) as Hs.
  pose proof (built_actions cs) as Hk.
  destruct (sealed_history cs' _ p d Hk Hp Hs) as (q & Hq & Hkq & Hdq & Hst). fold s in Hq.
  assert (keyed proposals p_key s) as Hks.
  { apply (history_keyed _ _ perform p_change p_new perform_tracks), Hk. }
  assert (forall r, r ∈ proposals s -> p_key r = p_key p -> r = q) as Huniq.
  { intros r Hr E. apply (key_unique p_key (proposals s)); try done. congruence. }
  assert (forall r, r ∈ proposals s -> undispatched (proposal_id p) (version p) r = false) as Hnone.
  { intros r Hr. apply not_true_iff_false. intros (Hkr & _ & Hdr)%undispatched_spec.
    rewrite (Huniq r Hr Hkr) in Hdr. congruence. }
  split; [by exists q|]. split; [|split].
  - intros now. by apply update_none.
  - by apply update_none.
  - intros b now s' r Hc E. destruct (consume_inv _ _ _ _ _ Hc) as (r0 & v & n & Hr0 & Hb & -> & _).
    rewrite (Huniq r0 Hr0) in Hb; [|exact E]. unfold bound in Hb.
    rewrite !andb_true_iff, p_in_one in Hb. destruct Hb as (((_ & E') & _) & _).
    rewrite E' in Hst. discriminate Hst.
Qed.

(** ** One attempt in flight *)

(** A row that still may lead to an effect, or whose outcome is not known. *)
Definition live (id : string) (p : proposal) : bool :=
  String.eqb (proposal_id p) id && p_in [proposed; approved; executing; p_unknown] p.
Definition live_rows (id : string) (s : actions) : list proposal := List.filter (live id) (proposals s).

Lemma live_spec id p :
  live id p = true <-> proposal_id p = id
    /\ (pr_status p = proposed \/ pr_status p = approved \/ pr_status p = executing
        \/ pr_status p = p_unknown).
Proof. unfold live. rewrite andb_true_iff, String.eqb_eq, p_in_spec. set_solver. Qed.

(** No change but a proposal's makes a row live again. *)
Lemma live_change id c p q : p_change c p q -> live id q = true -> live id p = true.
Proof.
  rewrite !live_spec. intros Hch [Hid Hst]. split; [by destruct Hch|].
  destruct Hch as [| | b now v n p Hb| | | | |]; try tauto.
  unfold bound in Hb. rewrite !andb_true_iff, p_in_one in Hb. tauto.
Qed.

Lemma live_filter id (l l' : list proposal) :
  Forall2 (fun p q => live id q = true -> live id p = true) l l' ->
  (length (List.filter (live id) l') <= length (List.filter (live id) l))%nat.
Proof.
  induction 1 as [|p q l l' Hpq _ IH]; simpl; [done|].
  destruct (live id q) eqn:E; [rewrite Hpq by done; simpl; lia|].
  destruct (live id p); simpl; lia.
Qed.

Definition proposes_act (c : act) : bool := match c with Propose _ _ _ => true | _ => false end.

Lemma live_others id c s :
  proposes_act c = false -> keyed proposals p_key s ->
  (length (live_rows id (perform c s)) <= length (live_rows id s))%nat.
Proof.
  intros Hc Hk. destruct (perform_tracks c s Hk) as [_ (old & new & E & Ho & Hn)].
  assert (new = []) as ->.
  { destruct new as [|q new]; [done|]. apply Forall_cons in Hn as [(r & Hr & _) _].
    destruct Hr. discriminate Hc. }
  unfold live_rows. rewrite E, app_nil_r. apply live_filter. eapply Forall2_impl; [exact Ho|].
  intros p q H. induction H as [|x y z Hxy _ IH]; [done|]. intros Hz.
  by apply (live_change id c x y), IH.
Qed.

(** [create_proposal] fails without effect, or closes the open versions of the
    proposal and adds one. *)
Lemma create_proposal_cases sp g k s :
  let id := proposed_id sp g in
  perform (Propose sp g k) s = s
  \/ exists v r, sp_revision sp = Some r
     /\ (dynamic (sp_revision sp) = true ->
         forall p, p ∈ proposals s -> proposal_id p = id ->
           pr_status p <> executing /\ pr_status p <> p_unknown)
     /\ proposals (perform (Propose sp g k) s)
        = map (fun p => if String.eqb (proposal_id p) id && p_in [proposed; approved] p
                        then supersede_p p else p) (proposals s)
          ++ [new_proposal sp id v (proposal_key sp k) r]
     /\ v = last_version id (proposals s) + 1.
Proof.
  intros id. cbn [perform]. unfold create_proposal. fold (proposed_id sp g). fold id.
  unfold transaction, stm_bind, stm_get, update_proposals, insert_proposal.
  destruct (dynamic _ && _) eqn:Ed; unfold stm_raise, stm_ret; cbn -[last_version existsb]; [by left|].
  destruct (sp_revision sp) as [r|] eqn:Er; cbn -[last_version existsb]; [|by left].
  match goal with |- context [existsb ?f (map ?h ?l)] => destruct (existsb f (map h l)) end;
    cbn -[last_version existsb]; [by left|]. right.
  exists (last_version id (proposals s) + 1), r. split; [done|]. split; [|by split].
  intros Hdyn p Hp Hid. cbn [dynamic] in Ed, Hdyn. rewrite Hdyn in Ed. cbn [andb] in Ed.
  split; intros Hst.
  all: apply not_true_iff_false in Ed; apply Ed, existsb_exists; exists p;
    split; [by apply list_elem_of_In|]; rewrite andb_true_iff, String.eqb_eq, p_in_two; auto.
Qed.

Lemma live_propose id sp g k s :
  (proposed_id sp g = id -> dynamic (sp_revision sp) = true) ->
  (length (live_rows id s) <= 1)%nat -> (length (live_rows id (perform (Propose sp g k) s)) <= 1)%nat.
Proof.
  intros Hdyn Hle. destruct (create_proposal_cases sp g k s) as [->|(v & r & Hr & Hnone & E & _)]; [done|].
  unfold live_rows in *. rewrite E, List.filter_app, length_app. clear E.
  set (n := new_proposal _ _ _ _ _). destruct (String.eqb_spec (proposed_id sp g) id) as [Hid|Hid].
  - assert (List.filter (live id) (map (fun p => if String.eqb (proposal_id p) (proposed_id sp g)
      && p_in [proposed; approved] p then supersede_p p else p) (proposals s)) = []) as ->.
    { apply filter_none. intros q (p & -> & Hp)%list_elem_of_fmap. apply not_true_iff_false. intros Hlive.
      destruct (String.eqb (proposal_id p) (proposed_id sp g) && p_in [proposed; approved] p) eqn:Eu.
      - apply live_spec in Hlive as [_ Hst]. simpl in Hst. naive_solver.
      - apply live_spec in Hlive as [Hpid Hst].
        destruct (Hnone (Hdyn Hid) p Hp) as [H1 H2]; [congruence|].
        rewrite Hpid, Hid, String.eqb_refl in Eu. cbn [andb] in Eu.
        apply not_true_iff_false in Eu. rewrite p_in_two in Eu. naive_solver. }
    simpl. destruct (live id n); simpl; lia.
  - assert (live id n = false) as Hn.
    { apply not_true_iff_false. rewrite live_spec. by intros [? _]. }
    simpl. rewrite Hn. simpl. rewrite Nat.add_0_r. etrans; [|exact Hle]. apply live_filter.
    clear. induction (proposals s) as [|p l IH]; simpl; constructor; [|done].
    case_match; [|done]. rewrite !live_spec. naive_solver.
Qed.

(** One attempt of an effect is in flight.  When every version of a
    proposal is proposed for a workflow step, at most one version is proposed,
    approved, executing or unknown at any time: a new version supersedes an
    undecided or unused one, and is refused while an earlier one is executing
    or its outcome is not known. *)
Theorem one_attempt_in_flight cs id p q :
  (forall sp g k, Propose sp g k ∈ cs -> proposed_id sp g = id -> dynamic (sp_revision sp) = true) ->
  let s := perform_all cs no_actions in
  p ∈ proposals s -> q ∈ proposals s -> live id p = true -> live id q = true -> p = q.
Proof.
  intros Hdyn s Hp Hq Hlp Hlq.
  assert (length (live_rows id s) <= 1)%nat as Hle.
  { unfold s. clear Hp Hq. induction cs as [|c cs IH] using rev_ind; [simpl; lia|].
    rewrite perform_all_app. assert (length (live_rows id (perform_all cs no_actions)) <= 1)%nat as Hle.
    { apply IH. intros sp g k Hin. apply (Hdyn sp g k). set_solver. }
    change (perform_all [c] ?s0) with (perform c s0). destruct (proposes_act c) eqn:Ec.
    - destruct c; try discriminate Ec. apply live_propose; [|done].
      apply (Hdyn sp generated_id generated_key). set_solver.
    - etrans; [apply live_others; [done|apply built_actions]|done]. }
  assert (p ∈ live_rows id s) as Hp' by by apply in_filter.
  assert (q ∈ live_rows id s) as Hq' by by apply in_filter.
  destruct (live_rows id s) as [|x [|y l]]; [by apply elem_of_nil in Hp'| |simpl in Hle; lia].
  apply list_elem_of_singleton in Hp', Hq'. congruence.
Qed.

(** ** The open version is the last *)

Definition last_open (s : actions) : Prop := forall p q,
  p ∈ proposals s -> q ∈ proposals s -> proposal_id q = proposal_id p -> pr_status p = proposed ->
  version q <= version p.

Lemma change_not_open c p q : p_change c p q -> pr_status q <> proposed.
Proof.
  destruct 1 as [| | | |id v now p Hk Hst Hd| |c now reason st p Hc Hst Hto|]; simpl; try done.
  - by destruct yes.
  - by rewrite Hst.
  - by destruct Hto as [->| ->].
Qed.
Lemma open_unchanged c p q : rtc (p_change c) p q -> pr_status q = proposed -> p = q.
Proof.
  intros H Hq. destruct (rtc_inv_r _ _ H) as [->|(r & _ & Hr)]; [done|]. by apply change_not_open in Hr.
Qed.

Lemma last_open_perform c s : keyed proposals p_key s -> last_open s -> last_open (perform c s).
Proof.
  intros Hk Ho. destruct (proposes_act c) eqn:Ec.
  - destruct c as [sp g k| | | | | | | | | | |]; try discriminate Ec.
    destruct (create_proposal_cases sp g k s) as [->|(v & r & _ & _ & E & Hv)]; [done|].
    intros p q. rewrite E. intros Hp Hq Hid Hst.
    assert (forall x, x ∈ map (fun p => if String.eqb (proposal_id p) (proposed_id sp g)
      && p_in [proposed; approved] p then supersede_p p else p) (proposals s) ->
      exists y, y ∈ proposals s /\ p_key x = p_key y /\ (pr_status x = proposed -> x = y /\ proposal_id x <> proposed_id sp g)) as Hold.
    { intros x (y & -> & Hy)%list_elem_of_fmap. exists y. split; [done|].
      destruct (String.eqb_spec (proposal_id y) (proposed_id sp g)) as [E1|E1]; cbn [andb]; [|done].
      destruct (p_in [proposed; approved] y) eqn:E2; [done|]. split; [done|]. intros Hs.
      apply not_true_iff_false in E2. rewrite p_in_two in E2. naive_solver. }
    set (n := new_proposal _ _ _ _ _) in *.
    apply elem_of_app in Hq as [Hq|Hq%list_elem_of_singleton], Hp as [Hp|Hp%list_elem_of_singleton].
    + destruct (Hold q Hq) as (y & Hy & Hky & _), (Hold p Hp) as (z & Hz & _ & Hpz).
      destruct (Hpz Hst) as [-> _]. unfold p_key in Hky. injection Hky as Hi ->. apply Ho; try done. congruence.
    + destruct (Hold q Hq) as (y & Hy & Hky & _). unfold p_key in Hky. injection Hky as Hi ->. subst p.
      simpl. rewrite Hv. pose proof (last_version_le (proposed_id sp g) _ y Hy). simpl in Hid.
      lapply H; [lia|]. congruence.
    + destruct (Hold p Hp) as (z & _ & _ & Hpz). destruct (Hpz Hst) as [_ Hne]. subst q. simpl in Hid. congruence.
    + by subst.
  - destruct (perform_tracks c s Hk) as [_ (old & new & E & Hold & Hn)].
    assert (new = []) as ->.
    { destruct new as [|q new]; [done|]. apply Forall_cons in Hn as [(r & Hr & _) _].
      destruct Hr. discriminate Ec. }
    rewrite app_nil_r in E. intros p q. rewrite E. intros Hp Hq Hid Hst.
    apply list_elem_of_lookup_1 in Hp as [i Hi], Hq as [j Hj].
    destruct (Forall2_lookup_r _ _ _ _ _ Hold Hi) as (p0 & Hi0 & Hp).
    destruct (Forall2_lookup_r _ _ _ _ _ Hold Hj) as (q0 & Hj0 & Hq).
    apply open_unchanged in Hp; [|done]. subst p0.
    assert (p_key q = p_key q0) as Ekey.
    { clear -Hq. induction Hq as [|x y z Hxy _ IH]; [done|]. apply p_change_key in Hxy. congruence. }
    unfold p_key in Ekey. injection Ekey as Eid ->. apply Ho; try (by eapply list_elem_of_lookup_2); congruence.
Qed.
Lemma last_open_history cs : last_open (perform_all cs no_actions).
Proof.
  induction cs as [|c cs IH] using rev_ind; [by intros p q ?%elem_of_nil|].
  rewrite perform_all_app. by apply last_open_perform; [apply built_actions|].
Qed.

(** ** Leases *)

(** What a call may do to the lease rows. *)
Definition lease_step (c : act) (s s' : actions) : Prop :=
  forall h, match capability_leases s !! h with
            | Some l => exists rv cn, capability_leases s' !! h = Some (set_lease l rv cn)
                /\ (cl_consumed l <> None -> cn = cl_consumed l)
            | None => forall l, capability_leases s' !! h = Some l ->
                exists ls n tok, c = IssueLease ls n tok /\ sha256 tok = h /\ l = new_lease ls
            end.

Lemma set_lease_same l : set_lease l (cl_revoked l) (cl_consumed l) = l.
Proof. by destruct l. Qed.

Lemma lease_step_same c s s' : capability_leases s' = capability_leases s -> lease_step c s s'.
Proof.
  intros E h. rewrite E. destruct (capability_leases s !! h) as [l|] eqn:El; [|done].
  exists (cl_revoked l), (cl_consumed l). by rewrite set_lease_same.
Qed.

Lemma consume_lease_cases tok b now s :
  perform (ConsumeLease tok b now) s = s /\ (consume_lease tok b now s).2 <> Ok true
  \/ exists l, capability_leases s !! sha256 tok = Some l /\ lease_matches b now l = true
     /\ cl_consumed l = None /\ lease_allows b l = true
     /\ perform (ConsumeLease tok b now) s
        = with_capability_leases s
            (<[sha256 tok := set_lease l (cl_revoked l) (Some now)]> (capability_leases s)).
Proof.
  cbn [perform]. unfold consume_lease. destruct (truthy tok); [|by left]. cbn [negb].
  unfold transaction, stm_bind, params_ok. destruct (forallb bindable (lease_params b)); [|by left].
  unfold stm_ret, stm_get. destruct (capability_leases s !! sha256 tok) as [l|]; [|by left].
  destruct (lease_matches b now l && bool_decide (cl_consumed l = None) && lease_allows b l) eqn:E;
    [|by left].
  right. rewrite !andb_true_iff, bool_decide_eq_true in E. destruct E as ((H1 & H2) & H3).
  exists l. by split_and!.
Qed.

Lemma issue_lease_step ls n tok s : lease_step (IssueLease ls n tok) s (perform (IssueLease ls n tok) s).
Proof.
  cbn [perform]. unfold issue_lease, revoke_active_leases, stm_bind.
  match goal with |- context [let (_, _) := ?x in _] => set (s1 := x) | |- context [match ?x s with _ => _ end] => set (s1 := x s) end.
  assert (exists s2, s1 = (s2, Ok tt) /\ forall h, capability_leases s2 !! h =
    (fun l => set_lease l (if negb (String.eqb (ls_revision ls) "legacy")
                              && (String.eqb (cl_revision l) (ls_revision ls)
                                  && String.eqb (cl_step l) (ls_step ls) && is_active l)
                           then Some n else cl_revoked l) (cl_consumed l)) <$> capability_leases s !! h)
    as (s2 & -> & H2).
  { unfold s1. destruct (String.eqb (ls_revision ls) "legacy"); simpl.
    - exists s. split; [done|]. intros h. destruct (capability_leases s !! h) as [l|]; [|done].
      simpl. by rewrite set_lease_same.
    - eexists. split; [reflexivity|]. intros h. simpl. rewrite lookup_fmap.
      destruct (capability_leases s !! h) as [l|]; [|done]. simpl.
      destruct (_ && _ && is_active l); [done|]. by rewrite set_lease_same. }
  assert (lease_step (IssueLease ls n tok) s s2) as Hs2.
  { intros h. rewrite H2. destruct (capability_leases s !! h) as [l|]; [|done]. simpl. eexists _, _. by split. }
  destruct (bool_decide _ || _) eqn:E; [exact Hs2|]. simpl. intros h. specialize (Hs2 h).
  apply orb_false_iff in E as [E _]. apply bool_decide_eq_false in E. simpl.
  destruct (String.eqb_spec (sha256 tok) h) as [<-|Hne].
  - rewrite H2 in E. destruct (capability_leases s !! sha256 tok); [destruct E; by eexists|].
    intros l. rewrite lookup_insert_eq. intros [= <-]. by exists ls, n, tok.
  - by rewrite lookup_insert_ne.
Qed.

Lemma sweep_leases now limit : leaves capability_leases (sweep_stalled_executions now limit).
Proof.
  unfold sweep_stalled_executions. apply leaves_get. intros s.
  generalize (stalled s now limit) as l. intros l. generalize {| recovered := []; unknown_ids := [] |}.
  induction l as [|p l IH]; intros acc; [done|]. simpl. apply leaves_bind; [|intros; apply IH].
  unfold sweep_one. case_match; (apply leaves_bind; [by intros ?|done]).
Qed.

Lemma perform_lease_step c s : lease_step c s (perform c s).
Proof.
  destruct c; cbn [perform];
    try (apply lease_step_same; match goal with |- capability_leases (?m ?s0).1 = _ =>
           refine ((_ : leaves capability_leases m) s0) end;
      unfold create_proposal, insert_proposal, decide, consume_approval, params_ok, from_py,
        complete_execution, mark_dispatched, recover_pre_dispatch_claim, fail_execution,
        resolve_unknown_as_absent, validate_lease; leaving;
      intros ?; simpl; repeat case_match; reflexivity).
  - apply lease_step_same, sweep_leases.
  - apply issue_lease_step.
  - apply lease_step_same. unfold validate_lease, params_ok, stm_bind.
    destruct (truthy token); [|done]. cbn [negb]. by destruct (forallb _ _).
  - destruct (consume_lease_cases token b now s) as [[E _]|(l & Hl & _ & Hc & _ & E)];
      cbn [perform] in E; rewrite E; [by apply lease_step_same|]. intros h. simpl.
    destruct (String.eqb_spec (sha256 token) h) as [<-|Hne].
    + rewrite Hl, lookup_insert_eq. by exists (cl_revoked l), (Some now).
    + rewrite lookup_insert_ne by done. apply (lease_step_same _ s s eq_refl h).
Qed.

(** What a lease was issued for. *)
Definition issued_as (ls : lease_spec) (l : capability_lease) : Prop :=
  exists rv cn, l = set_lease (new_lease ls) rv cn.

Lemma leases_issued cs h l :
  capability_leases (perform_all cs no_actions) !! h = Some l ->
  exists ls n tok, IssueLease ls n tok ∈ cs /\ sha256 tok = h /\ issued_as ls l.
Proof.
  revert l. induction cs as [|c cs IH] using rev_ind; intros l; [done|].
  rewrite perform_all_app. change (perform_all [c] ?s0) with (perform c s0).
  pose proof (perform_lease_step c (perform_all cs no_actions) h) as Hs.
  destruct (capability_leases (perform_all cs no_actions) !! h) as [l0|] eqn:E.
  - destruct Hs as (rv & cn & -> & _). intros [= <-].
    destruct (IH l0 eq_refl) as (ls & n & tok & Hin & Htok & rv0 & cn0 & ->).
    exists ls, n, tok. split; [set_solver|]. split; [done|]. by exists rv, cn.
  - intros Hl. destruct (Hs l Hl) as (ls & n & tok & -> & Htok & ->).
    exists ls, n, tok. split; [set_solver|]. split; [done|].
    exists None, None. by destruct ls.
Qed.

Lemma consumed_kept cs s h l t :
  capability_leases s !! h = Some l -> cl_consumed l = Some t ->
  exists l', capability_leases (perform_all cs s) !! h = Some l' /\ cl_consumed l' = Some t.
Proof.
  revert s l. induction cs as [|c cs IH]; intros s l Hl Ht; [by exists l|]. simpl.
  pose proof (perform_lease_step c s h) as Hs. rewrite Hl in Hs. destruct Hs as (rv & cn & Hl' & Hcn).
  apply (IH _ _ Hl'). simpl. rewrite Hcn; congruence.
Qed.

Lemma py_eqb_str s v : py_eqb (VStr s) v = true -> v = VStr s.
Proof. destruct v; try done. simpl. by intros ->%String.eqb_eq. Qed.

(** A lease lets one dispatch act, as issued.  A successful
    [consume_lease] finds an unexpired lease issued for the user, agent, task
    and credential of the binding, whose capabilities include the one asked
    for; the lease of a workflow step also for that revision, step, graph hash
    and connection.  No later call, whatever the binding, consumes the same
    token again. *)
Theorem lease_is_one_use cs cs' tok b now s' :
  consume_lease tok b now (perform_all cs no_actions) = (s', Ok true) ->
  (exists ls n tok', IssueLease ls n tok' ∈ cs /\ sha256 tok' = sha256 tok
     /\ now <= ls_expires ls
     /\ bind_text (PyValue.get b "user_principal_id") = Some (ls_user ls)
     /\ bind_text (PyValue.get b "agent_principal_id") = Some (ls_agent ls)
     /\ bind_text (PyValue.get b "task_id") = Some (ls_task ls)
     /\ bind_text (PyValue.get b "credential_id") = Some (ls_credential ls)
     /\ (exists cap, PyValue.get b "capability_id" = VStr cap /\ cap ∈ ls_capabilities ls)
     /\ (ls_revision ls <> "legacy" ->
          get_or b "workflow_revision_id" (VStr "legacy") = VStr (ls_revision ls)
          /\ get_or b "step_id" (VStr "legacy") = VStr (ls_step ls)
          /\ get_or b "plan_graph_hash" (VStr "legacy") = VStr (ls_graph_hash ls)
          /\ get_or b "connection_id" (VStr "legacy") = VStr (ls_connection ls)))
  /\ forall b' now', (consume_lease tok b' now' (perform_all cs' s')).2 <> Ok true.
Proof.
  intros Hc. set (s := perform_all cs no_actions) in *.
  destruct (consume_lease_cases tok b now s) as [[_ Hn]|(l & Hl & Hm & Hcn & Ha & E)];
    [by rewrite Hc in Hn|]. cbn [perform] in E. rewrite Hc in E. simpl in E. subst s'. split.
  - destruct (leases_issued cs (sha256 tok) l Hl) as (ls & n & tok' & Hin & Htok & rv & cn & ->).
    exists ls, n, tok'. unfold lease_matches in Hm. simpl in Hm.
    rewrite !andb_true_iff, !text_eq_spec, Z.leb_le in Hm.
    destruct Hm as ((((((H1 & H2) & H3) & H4) & _) & H6) & _).
    unfold lease_allows in Ha. apply andb_true_iff in Ha as [Hcap Hbind].
    split_and!; try done.
    + unfold mem in Hcap. apply existsb_exists in Hcap as (x & Hx & Ex).
      apply list_elem_of_In, list_elem_of_fmap in Hx as (cap & -> & Hcap).
      apply py_eqb_str in Ex. exists cap. split; [done|]. simpl in Hcap.
      exact (proj1 (str_sorted_set_elem _ _) Hcap).
    + intros Hdyn. unfold _workflow_lease_binding_matches, binding_field in Hbind. simpl in Hbind.
      apply String.eqb_neq in Hdyn. rewrite Hdyn in Hbind. cbn [orb] in Hbind.
      rewrite !andb_true_iff in Hbind. destruct Hbind as (((((((B1 & B2) & B3) & B4) & _) & _) & _) & _).
      split_and!; by apply py_eqb_str.
  - intros b' now' Hc'.
    destruct (consumed_kept cs' (with_capability_leases s
      (<[sha256 tok := set_lease l (cl_revoked l) (Some now)]> (capability_leases s)))
      (sha256 tok) (set_lease l (cl_revoked l) (Some now)) now) as (l' & Hl' & Hcn').
    { simpl. apply lookup_insert_eq. } { done. }
    match type of Hc' with (consume_lease _ _ _ ?s2).2 = _ =>
      destruct (consume_lease_cases tok b' now' s2) as [[_ Hn]|(l2 & Hl2 & _ & Hcn2 & _)] end.
    + by apply Hn.
    + rewrite Hl' in Hl2. injection Hl2 as <-. congruence.
Qed.

(** ** A proposal from end to end *)

Definition demo_proposal : proposal_spec := {|
  sp_user := "ana"; sp_agent := "agent"; sp_credential := "cred"; sp_capability := "mail.send";
  sp_payload := VDict [("to", VStr "bo")]; sp_expires := 100; sp_id := Some "p1";
  sp_key := Some "workflow:v:send"; sp_revision := Some "v"; sp_step := "send";
  sp_graph_hash := "h"; sp_connection := "c"; sp_attempt := 1; sp_profile := "bot";
  sp_profile_id := None; sp_subject := None; sp_reinforced := false; sp_tenant := Some "t" |}.
Definition demo_binding : binding := [
  ("proposal_id", VStr "p1"); ("version", VInt 1); ("user_principal_id", VStr "ana");
  ("agent_principal_id", VStr "agent"); ("credential_id", VStr "cred");
  ("capability_id", VStr "mail.send"); ("task_id", VStr "task");
  ("payload_hash", VStr (canonical_payload_hash (VDict [("to", VStr "bo")])));
  ("idempotency_key", VStr "workflow:v:send:attempt:1"); ("workflow_revision_id", VStr "v");
  ("step_id", VStr "send"); ("plan_graph_hash", VStr "h"); ("connection_id", VStr "c");
  ("attempt", VInt 1); ("tenant_id", VStr "t")].
Definition demo_lease_spec : lease_spec := {|
  ls_user := "ana"; ls_agent := "agent"; ls_task := "task"; ls_credential := "cred";
  ls_capabilities := ["mail.send"]; ls_expires := 90; ls_revision := "v"; ls_step := "send";
  ls_graph_hash := "h"; ls_connection := "c"; ls_attempt := 1; ls_profile := "bot";
  ls_profile_id := None; ls_subject := None; ls_tenant := Some "t" |}.
Definition demo_approved : list act := [
  Propose demo_proposal "x" "y"; Decide "p1" 1 "ana" true 10 (Some "t");
  IssueLease demo_lease_spec 11 "tok"].
Definition demo_sent : list act :=
  demo_approved ++ [ConsumeLease "tok" demo_binding 12; Consume demo_binding 12;
                    MarkDispatched "p1" 1 13].

Lemma execution_was_approved_witness :
  exists s' p, consume_approval demo_binding 12 (perform_all demo_approved no_actions) = (s', Ok (Some p))
  /\ pr_status p = executing
  /\ exists t tenant, Decide (proposal_id p) (version p) (p_user p) true t tenant ∈ demo_approved
       /\ t <= expires_at p.
Proof.
  destruct (consume_approval demo_binding 12 (perform_all demo_approved no_actions)) as [s' r] eqn:E.
  assert (exists p, r = Ok (Some p)) as [p Hr].
  { change r with (s', r).2. rewrite <- E. eexists. vm_compute. reflexivity. }
  subst r. exists s', p. split; [reflexivity|].
  destruct (execution_was_approved demo_approved demo_binding 12 s' p E)
    as (Hst & _ & _ & _ & _ & _ & _ & _ & Hd).
  split; [exact Hst|exact Hd].
Defined.

Lemma dispatched_never_again_witness :
  exists p, p ∈ proposals (perform_all demo_sent no_actions) /\ dispatched_at p = Some 13
  /\ (mark_dispatched (proposal_id p) (version p) 50
        (perform_all [Sweep 1000 10; ResolveAbsent "p1" 1 "gone" 1001]
           (perform_all demo_sent no_actions))).2 = Ok false.
Proof.
  assert (exists p, proposals (perform_all demo_sent no_actions) = [p] /\ dispatched_at p = Some 13)
    as (p & Ep & Hd) by (vm_compute; eexists; split; reflexivity).
  assert (p ∈ proposals (perform_all demo_sent no_actions)) as Hp by (rewrite Ep; apply list_elem_of_here).
  exists p. split; [exact Hp|]. split; [exact Hd|].
  destruct (dispatched_never_again demo_sent [Sweep 1000 10; ResolveAbsent "p1" 1 "gone" 1001] p 13 Hp Hd)
    as (_ & Hm & _).
  exact (Hm 50).
Defined.

Lemma one_attempt_in_flight_witness :
  exists p, proposals (perform_all demo_approved no_actions) = [p] /\ live "p1" p = true
  /\ forall q, ~ (q ∈ proposals (perform_all demo_approved no_actions) /\ live "p1" q = true /\ p <> q).
Proof.
  assert (exists p, proposals (perform_all demo_approved no_actions) = [p] /\ live "p1" p = true)
    as (p & Ep & Hl) by (vm_compute; eexists; split; reflexivity).
  exists p. split; [exact Ep|]. split; [exact Hl|]. intros q (Hq & Hlq & Hne). apply Hne.
  apply (one_attempt_in_flight demo_approved "p1"); [|rewrite Ep; apply list_elem_of_here|exact Hq|exact Hl|exact Hlq].
  intros sp g k Hin _. repeat (apply elem_of_cons in Hin as [Hin|Hin]; [try discriminate Hin|]).
  - injection Hin as -> _ _. reflexivity.
  - by apply elem_of_nil in Hin.
Defined.

Lemma lease_is_one_use_witness :
  exists s', consume_lease "tok" demo_binding 12 (perform_all demo_approved no_actions) = (s', Ok true)
  /\ (consume_lease "tok" demo_binding 13 (perform_all [Sweep 50 10] s')).2 <> Ok true.
Proof.
  destruct (consume_lease "tok" demo_binding 12 (perform_all demo_approved no_actions)) as [s' r] eqn:E.
  assert (r = Ok true) as -> by (change r with (s', r).2; rewrite <- E; vm_compute; reflexivity).
  exists s'. split; [reflexivity|].
  destruct (lease_is_one_use demo_approved [Sweep 50 10] "tok" demo_binding 12 s' E) as [_ H].
  exact (H demo_binding 13).
Defined.
