(* ===== verification/PostgresActions.v ===== *)
(** * The PostgreSQL action repository

    [PostgresActionRepository] of src/agents/orchestrator/action_repository.py
    over the tables of src/migrations/0030_operational_state_core.sql, on the
    same rows as [Actions]; and the theorem that the two repositories are the
    same for one account.

    Every method runs for a tenant: the one it is given, or the one bound to
    the thread ([org]).  A parameter that is not text or NULL cannot be
    compared with a text column.  The rows a foreign key refers to are an
    argument ([known], [known_lease]). *)

From S2P Require Import Prelude Rows PyValue Json Sha256 Actions ActionProofs.
Local Open Scope Z_scope.

(** The same request, for a tenant. *)
Definition spec_in (tenant : string) (sp : proposal_spec) : proposal_spec := {|
  sp_user := sp_user sp; sp_agent := sp_agent sp; sp_credential := sp_credential sp;
  sp_capability := sp_capability sp; sp_payload := sp_payload sp; sp_expires := sp_expires sp;
  sp_id := sp_id sp; sp_key := sp_key sp; sp_revision := sp_revision sp; sp_step := sp_step sp;
  sp_graph_hash := sp_graph_hash sp; sp_connection := sp_connection sp; sp_attempt := sp_attempt sp;
  sp_profile := sp_profile sp; sp_profile_id := sp_profile_id sp; sp_subject := sp_subject sp;
  sp_reinforced := sp_reinforced sp; sp_tenant := Some tenant |}.
Definition lease_in (tenant : string) (ls : lease_spec) : lease_spec := {|
  ls_user := ls_user ls; ls_agent := ls_agent ls; ls_task := ls_task ls;
  ls_credential := ls_credential ls; ls_capabilities := ls_capabilities ls;
  ls_expires := ls_expires ls; ls_revision := ls_revision ls; ls_step := ls_step ls;
  ls_graph_hash := ls_graph_hash ls; ls_connection := ls_connection ls; ls_attempt := ls_attempt ls;
  ls_profile := ls_profile ls; ls_profile_id := ls_profile_id ls; ls_subject := ls_subject ls;
  ls_tenant := Some tenant |}.

Section postgres.
Context (org : option string) (known : proposal_spec -> bool) (known_lease : lease_spec -> bool).
Local Open Scope stm_scope.

(** [_tenant] of a given tenant, as text or as a value of a binding. *)
Definition _tenant (given : pyval) : actm pyval :=
  if truthy given then stm_ret given
  else match org with
       | Some t => if truthy t then stm_ret (VStr t) else stm_raise (ActionValueError "tenant_id is required")
       | None => stm_raise (ActionValueError "tenant_id is required")
       end.
Definition given_tenant (t : option string) : pyval := match t with Some t => VStr t | None => VNone end.

(** [column = %s]. *)
Definition pg_eq (col : string) (v : pyval) : bool := match v with VStr t => String.eqb col t | _ => false end.
Definition comparable (v : pyval) : bool := match v with VStr _ | VNone => true | _ => false end.
Definition pg_params (l : list pyval) : actm unit :=
  if forallb comparable l then stm_ret tt else stm_raise ActionBindingError.

Definition of_tenant (t : pyval) (p : proposal) : bool := pg_eq (p_tenant p) t.

(** The primary key, the key of the tenant, and the checks of the table. *)
Definition pg_insert (sp : proposal_spec) (p : proposal) : actm unit := fun s =>
  if existsb (fun q => String.eqb (p_tenant q) (p_tenant p)
                       && (String.eqb (idempotency_key q) (idempotency_key p)
                           || is_proposal (proposal_id p) (version p) q)) (proposals s)
     || negb (known sp) || (version p <=? 0) || (p_attempt_no p <? 0)
  then (s, Err ActionIntegrityError)
  else (with_proposals s (proposals s ++ [p]), Ok tt).

Definition pg_get (id : string) (v : option Z) (tenant_id : option string) : actm (option proposal) :=
  t <~ _tenant (given_tenant tenant_id) ;;
  s <~ stm_get ;;
  let mine := List.filter (fun p => of_tenant t p && String.eqb (proposal_id p) id) (proposals s) in
  stm_ret match v with
          | Some n => List.find (fun p => Z.eqb (version p) n) mine
          | None => fold_right (fun p best => match best with
                                              | Some q => if version q <? version p then Some p else best
                                              | None => Some p
                                              end) None mine
          end.
Definition pg_get_by_idempotency_key (key : string) (tenant_id : option string) : actm (option proposal) :=
  t <~ _tenant (given_tenant tenant_id) ;;
  s <~ stm_get ;;
  stm_ret (List.find (fun p => of_tenant t p && String.eqb (idempotency_key p) key) (proposals s)).

Definition pg_last_version (t : pyval) (id : string) (l : list proposal) : Z :=
  last_version id (List.filter (of_tenant t) l).
(** The advisory lock serialises the transactions of one proposal. *)
Definition pg_create_proposal (sp : proposal_spec) (generated_id generated_key : string)
    : actm (option proposal) :=
  t <~ _tenant (given_tenant (sp_tenant sp)) ;;
  let id := text_or (sp_id sp) ("proposal-" +:+ generated_id) in
  let key := proposal_key sp generated_key in
  v <~ transaction (
    s <~ stm_get ;;
    (if dynamic (sp_revision sp)
        && existsb (fun p => of_tenant t p && String.eqb (proposal_id p) id
                             && p_in [executing; p_unknown] p) (proposals s)
     then stm_raise (ActionValueError "prior attempt is still executing or unresolved")
     else stm_ret tt) ;;;
    let v := pg_last_version t id (proposals s) + 1 in
    update_proposals (fun p => of_tenant t p && String.eqb (proposal_id p) id && p_in [proposed; approved] p)
      supersede_p ;;;
    match sp_revision sp with
    | None => stm_raise ActionIntegrityError      (* no caller passes NULL, and no row holds it *)
    | Some r =>
        match t with
        | VStr tenant => pg_insert sp (new_proposal (spec_in tenant sp) id v key r) ;;; stm_ret v
        | _ => stm_raise ActionBindingError
        end
    end) ;;
  pg_get id (Some v) (sp_tenant sp).

Definition pg_decide (id : string) (v : Z) (user : string) (yes : bool) (now_ts : Z)
    (tenant_id : option string) : actm bool :=
  t <~ _tenant (given_tenant tenant_id) ;;
  update_proposals (fun p => of_tenant t p && is_proposal id v p && String.eqb (p_user p) user
                             && p_in [proposed] p && (now_ts <=? expires_at p))
    (decide_row yes now_ts).

Definition pg_bound (t : pyval) (b : binding) (v attempt now_ts : Z) (p : proposal) : bool :=
  of_tenant t p && pg_eq (proposal_id p) (PyValue.get b "proposal_id") && Z.eqb (version p) v
  && pg_eq (p_user p) (PyValue.get b "user_principal_id")
  && pg_eq (p_agent p) (PyValue.get b "agent_principal_id")
  && pg_eq (p_credential p) (PyValue.get b "credential_id")
  && pg_eq (p_capability p) (PyValue.get b "capability_id")
  && pg_eq (payload_hash p) (PyValue.get b "payload_hash")
  && pg_eq (idempotency_key p) (PyValue.get b "idempotency_key")
  && pg_eq (p_revision p) (when_dynamic b "workflow_revision_id")
  && pg_eq (p_step p) (when_dynamic b "step_id")
  && pg_eq (p_graph_hash p) (when_dynamic b "plan_graph_hash")
  && pg_eq (p_connection p) (when_dynamic b "connection_id")
  && Z.eqb (p_attempt_no p) attempt && p_in [approved] p && (now_ts <=? expires_at p).
Definition pg_consume_approval (b : binding) (now_ts : Z) : actm (option proposal) :=
  if existsb (fun field => negb (truthy (PyValue.get b field))) REQUIRED then stm_ret None else
  t <~ _tenant (PyValue.get b "tenant_id") ;;
  v <~ from_py (py_int (PyValue.get b "version")) ;;
  attempt <~ from_py (if dynamic_binding b then py_int (get_or b "attempt" (VInt 0)) else Ok 0) ;;
  pg_params (t :: map (PyValue.get b)
                 ["proposal_id"; "user_principal_id"; "agent_principal_id"; "credential_id";
                  "capability_id"; "payload_hash"; "idempotency_key"]
             ++ map (when_dynamic b)
                 ["workflow_revision_id"; "step_id"; "plan_graph_hash"; "connection_id"]) ;;;
  s <~ stm_get ;;
  update_proposals (pg_bound t b v attempt now_ts) (start_row now_ts) ;;;
  stm_ret (start_row now_ts <$> List.find (pg_bound t b v attempt now_ts) (proposals s)).

(** One row of the thread's tenant. *)
Definition pg_update_own (c : proposal -> bool) (f : proposal -> proposal) : actm bool :=
  t <~ _tenant VNone ;;
  update_proposals (fun p => of_tenant t p && c p) f.
Definition coalesce {A} (a b : option A) : option A := match a with Some x => Some x | None => b end.
Definition finish_row (st : proposal_status) (now_ts : Z) (receipt : option pyval)
    (response : option pyval) (reason : option string) (p : proposal) : proposal := set_state p {|
  s_status := st; s_approved := approved_on p; s_rejected := rejected_on p;
  s_started := execution_started_at p; s_dispatched := dispatched_at p;
  s_finished := Some now_ts; s_receipt := coalesce (norm <$> receipt) (p_receipt p);
  s_response := coalesce (norm <$> response) (broker_response p);
  s_reason := coalesce reason (failure_reason p) |}.
Definition _finish (id : string) (v : Z) (st : proposal_status) (now_ts : Z) (receipt : option pyval)
    (response : option pyval) (reason : option string) (from : list proposal_status) : actm bool :=
  pg_update_own (fun p => is_proposal id v p && p_in from p) (finish_row st now_ts receipt response reason).
(** A receipt that is [None] is not stored. *)
Definition given_value (v : pyval) : option pyval := match v with VNone => None | _ => Some v end.
Definition pg_complete_execution (id : string) (v : Z) (receipt : pyval) (now_ts : Z)
    (response : option pyval) : actm bool :=
  _finish id v p_completed now_ts (given_value receipt) response None [executing; p_unknown].
Definition pg_mark_dispatched (id : string) (v now_ts : Z) : actm bool :=
  pg_update_own (undispatched id v) (dispatch_row now_ts).
Definition pg_recover_pre_dispatch_claim (id : string) (v : Z) : actm bool :=
  pg_update_own (undispatched id v) hand_back.
Definition pg_fail_execution (id : string) (v : Z) (reason : string) (now_ts : Z) (unknown : bool)
    : actm bool :=
  _finish id v (if unknown then p_unknown else p_failed) now_ts None None (Some (take_chars 500 reason))
    [executing].
Definition pg_resolve_unknown_as_absent (id : string) (v : Z) (reason : string) (now_ts : Z) : actm bool :=
  _finish id v p_failed now_ts None None (Some (take_chars 500 reason)) [p_unknown].

(** ** The sweep *)

(** The join has no exception for a proposal outside a workflow. *)
Definition pg_deadline (s : actions) (p : proposal) : Z :=
  default (expires_at p)
    (map_fold (fun _ l best =>
       if String.eqb (cl_tenant l) (p_tenant p) && String.eqb (cl_revision l) (p_revision p)
          && String.eqb (cl_step l) (p_step p) && Z.eqb (cl_attempt l) (p_attempt_no p)
       then Some (match best with Some b => Z.max b (cl_expires l) | None => cl_expires l end)
       else best) None (capability_leases s)).
(** Ordered by [proposal_id]; the versions of one proposal in their order. *)
Definition pg_stalled (t : pyval) (s : actions) (now_ts : Z) (limit : nat) : list proposal :=
  take limit (List.filter (fun p => of_tenant t p && p_in [executing] p && (pg_deadline s p <? now_ts))
    (merge_sort proposal_le (proposals s))).
Definition pg_sweep_one (now_ts : Z) (p : proposal) (acc : swept) : actm swept :=
  match dispatched_at p with
  | None =>
      ok <~ pg_recover_pre_dispatch_claim (proposal_id p) (version p) ;;
      stm_ret (if ok : bool then {| recovered := recovered acc ++ [proposal_id p];
                            unknown_ids := unknown_ids acc |} else acc)
  | Some _ =>
      ok <~ pg_fail_execution (proposal_id p) (version p)
              "dispatch lease expired without an observed outcome" now_ts true ;;
      stm_ret (if ok : bool then {| recovered := recovered acc;
                            unknown_ids := unknown_ids acc ++ [proposal_id p] |} else acc)
  end.
Fixpoint pg_sweep_all (now_ts : Z) (l : list proposal) (acc : swept) : actm swept :=
  match l with
  | [] => stm_ret acc
  | p :: l' => acc' <~ pg_sweep_one now_ts p acc ;; pg_sweep_all now_ts l' acc'
  end.
Definition pg_sweep_stalled_executions (now_ts : Z) (limit : nat) : actm swept :=
  t <~ _tenant VNone ;;
  s <~ stm_get ;;
  pg_sweep_all now_ts (pg_stalled t s now_ts limit) {| recovered := []; unknown_ids := [] |}.

(** ** Leases *)

(** The partial unique index has no exception for a lease outside a workflow. *)
Definition pg_active_for (l' : capability_lease) (l : capability_lease) : bool :=
  String.eqb (cl_tenant l) (cl_tenant l') && String.eqb (cl_revision l) (cl_revision l')
  && String.eqb (cl_step l) (cl_step l') && is_active l.
Definition pg_insert_lease (ls : lease_spec) (l : capability_lease) (token : string) : actm string := fun s =>
  let h := sha256 token in
  if bool_decide (is_Some (capability_leases s !! h))
     || bool_decide (map_Exists (fun _ x => pg_active_for l x = true) (capability_leases s))
     || negb (known_lease ls) || (cl_attempt l <? 0)
  then (s, Err ActionIntegrityError)
  else (with_capability_leases s (<[h := l]> (capability_leases s)), Ok token).
Definition pg_issue_lease (ls : lease_spec) (now_ts : Z) (token : string) : actm string :=
  t <~ _tenant (given_tenant (ls_tenant ls)) ;;
  match t with
  | VStr tenant =>
      transaction (
        (if String.eqb (ls_revision ls) "legacy" then stm_ret tt
         else stm_modify (fun s => with_capability_leases s
           ((fun l => if String.eqb (cl_tenant l) tenant && String.eqb (cl_revision l) (ls_revision ls)
                         && String.eqb (cl_step l) (ls_step ls) && is_active l
                      then set_lease l (Some now_ts) (cl_consumed l) else l) <$> capability_leases s))) ;;;
        pg_insert_lease ls (new_lease (lease_in tenant ls)) token)
  | _ => stm_raise ActionBindingError
  end.

Definition pg_lease_matches (t : pyval) (b : binding) (now_ts : Z) (l : capability_lease) : bool :=
  pg_eq (cl_tenant l) t
  && pg_eq (cl_user l) (PyValue.get b "user_principal_id")
  && pg_eq (cl_agent l) (PyValue.get b "agent_principal_id")
  && pg_eq (cl_task l) (PyValue.get b "task_id")
  && pg_eq (cl_credential l) (PyValue.get b "credential_id")
  && is_active l && (now_ts <=? cl_expires l).
Definition _lease_allowed (token : string) (b : binding) (now_ts : Z) (consume : bool) : actm bool :=
  if negb (truthy token) then stm_ret false else
  t <~ _tenant (PyValue.get b "tenant_id") ;;
  pg_params (t :: map (PyValue.get b)
               ["user_principal_id"; "agent_principal_id"; "task_id"; "credential_id"]) ;;;
  s <~ stm_get ;;
  match capability_leases s !! sha256 token with
  | Some l =>
      let allowed := pg_lease_matches t b now_ts l && lease_allows b l in
      if allowed && consume
      then stm_modify (fun s' => with_capability_leases s'
             (<[sha256 token := set_lease l (cl_revoked l) (Some now_ts)]> (capability_leases s'))) ;;;
           stm_ret true
      else stm_ret allowed
  | None => stm_ret false
  end.
Definition pg_validate_lease (token : string) (b : binding) (now_ts : Z) : actm bool :=
  _lease_allowed token b now_ts false.
Definition pg_consume_lease (token : string) (b : binding) (now_ts : Z) : actm bool :=
  _lease_allowed token b now_ts true.
End postgres.

(** ** One history on both *)

Inductive reply : Type :=
| RProposal (r : result action_error (option proposal))
| RBool (r : result action_error bool)
| RSwept (r : result action_error swept)
| RToken (r : result action_error string).
Definition replying {A} (f : result action_error A -> reply) (m : actm A) (s : actions) : actions * reply :=
  let (s', r) := m s in (s', f r).

Definition sqlite_reply (c : act) : actions -> actions * reply :=
  match c with
  | Propose sp g k => replying RProposal (create_proposal sp g k)
  | Decide i v u y n t => replying RBool (decide i v u y n t)
  | Consume b n => replying RProposal (consume_approval b n)
  | CompleteAction i v r n x => replying RBool (complete_execution i v r n x)
  | MarkDispatched i v n => replying RBool (mark_dispatched i v n)
  | RecoverClaim i v => replying RBool (recover_pre_dispatch_claim i v)
  | FailAction i v r n u => replying RBool (fail_execution i v r n u)
  | ResolveAbsent i v r n => replying RBool (resolve_unknown_as_absent i v r n)
  | Sweep n l => replying RSwept (sweep_stalled_executions n l)
  | IssueLease ls n t => replying RToken (issue_lease ls n t)
  | ValidateLease t b n => replying RBool (validate_lease t b n)
  | ConsumeLease t b n => replying RBool (consume_lease t b n)
  end.
Definition postgres_reply (org : option string) (c : act) : actions -> actions * reply :=
  let all {A} (_ : A) := true in
  match c with
  | Propose sp g k => replying RProposal (pg_create_proposal org all sp g k)
  | Decide i v u y n t => replying RBool (pg_decide org i v u y n t)
  | Consume b n => replying RProposal (pg_consume_approval org b n)
  | CompleteAction i v r n x => replying RBool (pg_complete_execution org i v r n x)
  | MarkDispatched i v n => replying RBool (pg_mark_dispatched org i v n)
  | RecoverClaim i v => replying RBool (pg_recover_pre_dispatch_claim org i v)
  | FailAction i v r n u => replying RBool (pg_fail_execution org i v r n u)
  | ResolveAbsent i v r n => replying RBool (pg_resolve_unknown_as_absent org i v r n)
  | Sweep n l => replying RSwept (pg_sweep_stalled_executions org n l)
  | IssueLease ls n t => replying RToken (pg_issue_lease org all ls n t)
  | ValidateLease t b n => replying RBool (pg_validate_lease org t b n)
  | ConsumeLease t b n => replying RBool (pg_consume_lease org t b n)
  end.
Fixpoint replies (m : act -> actions -> actions * reply) (cs : list act) (s : actions) : actions * list reply :=
  match cs with
  | [] => (s, [])
  | c :: cs' => let (s', r) := m c s in let (s'', rs) := replies m cs' s' in (s'', r :: rs)
  end.

Lemma replying_state {A} f (m : actm A) s : (replying f m s).1 = (m s).1.
Proof. unfold replying. by destruct (m s). Qed.
Lemma sqlite_reply_perform c s : (sqlite_reply c s).1 = perform c s.
Proof. destruct c; cbn [sqlite_reply perform]; apply replying_state. Qed.

(** ** The calls of one account *)

Section account.
Context (T : string) (Htruthy : truthy T = true).

Definition BOUND_TEXT : list string := [
  "proposal_id"; "user_principal_id"; "agent_principal_id"; "credential_id"; "capability_id";
  "payload_hash"; "idempotency_key"; "task_id"; "workflow_revision_id"; "step_id"; "plan_graph_hash";
  "connection_id"].
(** A binding of the account, typed as the dispatcher builds it. *)
Record typed_binding (b : binding) : Prop := {
  tb_tenant : PyValue.get b "tenant_id" = VStr T;
  tb_text : forall f, f ∈ BOUND_TEXT -> comparable (PyValue.get b f) = true;
  tb_version : exists v, PyValue.get b "version" = VInt v;
  tb_attempt : exists n, get_or b "attempt" (VInt 0) = VInt n;
}.
(** The calls in which the two agree: within the account, with a receipt when
    one completes, and for leases of workflow steps. *)
Definition scoped (c : act) : Prop :=
  match c with
  | Propose sp _ _ => sp_tenant sp = Some T /\ is_Some (sp_revision sp) /\ 0 <= sp_attempt sp
  | Decide _ _ _ _ _ t => t = Some T
  | Consume b _ | ConsumeLease _ b _ => typed_binding b
  | CompleteAction _ _ r _ _ => r <> VNone
  | IssueLease ls _ _ => ls_tenant ls = Some T /\ ls_revision ls <> "legacy" /\ 0 <= ls_attempt ls
  | ValidateLease _ _ _ => False
  | _ => True
  end.

Definition own_row (p : proposal) : Prop :=
  p_tenant p = T /\ (pr_status p <> p_completed -> broker_response p = None).
Definition own_lease (l : capability_lease) : Prop := cl_tenant l = T /\ cl_revision l <> "legacy".
Record own (s : actions) : Prop := {
  own_rows : Forall own_row (proposals s);
  own_leases : map_Forall (fun _ l => own_lease l) (capability_leases s);
}.

Lemma own_of p : own_row p -> of_tenant (VStr T) p = true.
Proof. intros [H _]. unfold of_tenant, pg_eq. rewrite H. apply String.eqb_refl. Qed.
Lemma own_scope tenant p : own_row p -> tenant = VStr T -> tenant_scope tenant (p_tenant p) = true.
Proof.
  intros [H _] ->. unfold tenant_scope.
  change (truthy (VStr T)) with (negb (String.eqb T "")).
  assert (negb (String.eqb T "") = true) as -> by (clear -Htruthy; unfold truthy, truthy_string in Htruthy; by destruct (String.eqb T "")).
  rewrite H. unfold text_eq. cbn [bind_text]. rewrite String.eqb_refl. apply orb_true_r.
Qed.
Lemma tenant_own : _tenant (Some T) (VStr T) = stm_ret (VStr T) /\ _tenant (Some T) VNone = stm_ret (VStr T).
Proof.
  unfold _tenant. change (truthy (VStr T)) with (negb (String.eqb T "")). change (truthy VNone) with false.
  rewrite Htruthy. unfold truthy, truthy_string in Htruthy. by destruct (String.eqb T "").
Qed.

(** Two updates that look at and write the same rows. *)
Lemma update_same c c' f f' s :
  (forall p, p ∈ proposals s -> c p = c' p) -> (forall p, p ∈ proposals s -> c p = true -> f p = f' p) ->
  update_proposals c f s = update_proposals c' f' s.
Proof.
  intros Hc Hf. unfold update_proposals. f_equal; [f_equal|do 2 f_equal].
  - apply map_ext_in. intros p Hp%list_elem_of_In. rewrite <- (Hc p Hp).
    destruct (c p) eqn:E; [by apply Hf|done].
  - f_equal. apply filter_ext_in. intros p Hp%list_elem_of_In. by apply Hc.
Qed.
Lemma update_own c f f' s :
  own s -> (forall p, p ∈ proposals s -> c p = true -> f p = f' p) ->
  pg_update_own (Some T) c f s = update_proposals c f' s.
Proof.
  intros [Hr _] Hf. unfold pg_update_own, stm_bind. rewrite (proj2 tenant_own). unfold stm_ret.
  rewrite Forall_forall in Hr. apply update_same.
  - intros p Hp. by rewrite own_of by auto.
  - intros p Hp. rewrite own_of by auto. by apply Hf.
Qed.

Lemma find_same {A} (f g : A -> bool) l : (forall x, x ∈ l -> f x = g x) -> List.find f l = List.find g l.
Proof.
  induction l as [|x l IH]; [done|]. intros H. cbn. rewrite (H x) by left. destruct (g x); [done|].
  apply IH. intros y Hy. apply H. by right.
Qed.
Lemma existsb_same {A} (f g : A -> bool) l : (forall x, x ∈ l -> f x = g x) -> existsb f l = existsb g l.
Proof.
  induction l as [|x l IH]; [done|]. intros H. cbn. rewrite (H x) by left. f_equal.
  apply IH. intros y Hy. apply H. by right.
Qed.
Lemma filter_same {A} (f g : A -> bool) l : (forall x, x ∈ l -> f x = g x) -> List.filter f l = List.filter g l.
Proof. intros H. apply filter_ext_in. intros x Hx. apply H. by apply list_elem_of_In. Qed.

Lemma decide_agrees i v u y n s :
  own s -> pg_decide (Some T) i v u y n (Some T) s = decide i v u y n (Some T) s.
Proof.
  intros [Hr _]. rewrite Forall_forall in Hr. unfold pg_decide, stm_bind, decide, given_tenant.
  rewrite (proj1 tenant_own). unfold stm_ret. apply update_same; [|done].
  intros p Hp. rewrite own_of, (own_scope (VStr T)) by auto. by rewrite andb_true_r.
Qed.

Lemma complete_agrees i v r n x s :
  own s -> r <> VNone -> pg_complete_execution (Some T) i v r n x s = complete_execution i v r n x s.
Proof.
  intros Hs Hr. apply update_own; [done|]. intros p Hp Hc. destruct Hs as [Hrows _].
  rewrite Forall_forall in Hrows. destruct (Hrows p Hp) as [_ Hresp].
  apply andb_true_iff in Hc as [_ Hc]. apply p_in_two in Hc.
  unfold finish_row, complete_p. rewrite (Hresp ltac:(by destruct Hc; congruence)).
  f_equal. f_equal; [by destruct r|by destruct x].
Qed.
Lemma mark_agrees i v n s : own s -> pg_mark_dispatched (Some T) i v n s = mark_dispatched i v n s.
Proof. intros Hs. by apply update_own. Qed.
Lemma recover_agrees i v s :
  own s -> pg_recover_pre_dispatch_claim (Some T) i v s = recover_pre_dispatch_claim i v s.
Proof. intros Hs. by apply update_own. Qed.
Lemma fail_agrees i v r n u s : own s -> pg_fail_execution (Some T) i v r n u s = fail_execution i v r n u s.
Proof. intros Hs. by apply update_own. Qed.
Lemma absent_agrees i v r n s :
  own s -> pg_resolve_unknown_as_absent (Some T) i v r n s = resolve_unknown_as_absent i v r n s.
Proof. intros Hs. by apply update_own. Qed.

(** ** Bindings *)

Lemma text_eq_comparable col v : comparable v = true -> text_eq col v = pg_eq col v.
Proof. by destruct v. Qed.
Lemma comparable_bindable v : comparable v = true -> bindable v = true.
Proof. by destruct v. Qed.
Lemma when_dynamic_comparable b f : typed_binding b -> f ∈ BOUND_TEXT -> comparable (when_dynamic b f) = true.
Proof. intros Hb Hf. unfold when_dynamic. destruct (dynamic_binding b); [by apply tb_text|done]. Qed.
Ltac bound_field := unfold BOUND_TEXT; repeat (first [apply list_elem_of_here | apply list_elem_of_further]).
Ltac comparable_field := first [by apply when_dynamic_comparable; [done|bound_field] | by apply tb_text; [done|bound_field]].

Lemma bound_agrees b v n now p :
  typed_binding b -> own_row p -> pg_bound (VStr T) b v n now p = bound b v n now p.
Proof.
  intros Hb Hp. unfold pg_bound, bound. rewrite own_of by done.
  rewrite (own_scope (PyValue.get b "tenant_id") p Hp) by apply (tb_tenant b Hb). rewrite andb_true_r, andb_true_l.
  by rewrite !text_eq_comparable by comparable_field.
Qed.

Lemma consume_agrees b now s :
  own s -> typed_binding b -> pg_consume_approval (Some T) b now s = consume_approval b now s.
Proof.
  intros [Hr _] Hb. unfold pg_consume_approval, consume_approval.
  destruct (existsb _ REQUIRED); [done|].
  destruct (tb_version b Hb) as [v Ev], (tb_attempt b Hb) as [n En].
  rewrite Ev, (tb_tenant b Hb), En, (proj1 tenant_own). cbn [py_int].
  set (a := if dynamic_binding b then Ok n else Ok 0).
  assert (exists k, a = Ok k) as [k ->] by (unfold a; destruct (dynamic_binding b); by eexists).
  cbv [from_py pg_params params_ok stm_bind stm_ret stm_get stm_raise transaction].
  assert (forallb comparable (VStr T :: map (PyValue.get b)
    ["proposal_id"; "user_principal_id"; "agent_principal_id"; "credential_id"; "capability_id";
     "payload_hash"; "idempotency_key"]
    ++ map (when_dynamic b) ["workflow_revision_id"; "step_id"; "plan_graph_hash"; "connection_id"]) = true) as ->.
  { cbn [forallb map app comparable]. rewrite !andb_true_iff. split_and!; try done; comparable_field. }
  match goal with |- context [if forallb bindable ?l then _ else _] => assert (forallb bindable l = true) as -> end.
  { cbn [forallb map app]. rewrite (tb_tenant b Hb). cbn [bindable].
    rewrite !andb_true_iff. split_and!; try done; apply comparable_bindable; comparable_field. }
  rewrite Forall_forall in Hr.
  rewrite (update_same _ (bound b v k now) _ (start_row now)); [|intros p Hp; by apply bound_agrees; [|apply Hr]|done].
  rewrite (find_same _ (bound b v k now)); [|intros p Hp; by apply bound_agrees; [|apply Hr]].
  unfold update_proposals. done.
Qed.

(** ** Proposals *)

Lemma last_version_own id l : Forall own_row l -> pg_last_version (VStr T) id l = last_version id l.
Proof.
  intros Hl. unfold pg_last_version. f_equal. rewrite Forall_forall in Hl.
  rewrite (filter_same _ (fun _ => true)) by (intros p Hp; apply own_of; auto).
  clear. by induction l as [|p l IH]; [|cbn; f_equal].
Qed.
Lemma last_version_pos id l : 0 <= last_version id l.
Proof.
  induction l as [|p l IH]; [done|]. unfold last_version in *. cbn. destruct (String.eqb _ _); lia.
Qed.

Lemma get_agrees i v s : own s -> pg_get (Some T) i v (Some T) s = (s, Ok (Actions.get s i v (Some T))).
Proof.
  intros [Hr _]. unfold pg_get, given_tenant. rewrite (proj1 tenant_own).
  cbv [stm_bind stm_ret stm_get]. do 2 f_equal. unfold Actions.get. rewrite Forall_forall in Hr.
  rewrite (filter_same _ (fun p => String.eqb (proposal_id p) i && tenant_scope (VStr T) (p_tenant p))); [done|].
  intros p Hp. rewrite own_of, (own_scope (VStr T)) by auto. by rewrite andb_true_r.
Qed.

(** The row a proposal adds is one of the account. *)
Lemma own_new sp id v key r : sp_tenant sp = Some T -> own_row (new_proposal sp id v key r).
Proof. intros E. split; [|done]. unfold new_proposal, text_or. cbn. by rewrite E, Htruthy. Qed.
Lemma own_change c p q : own_row p -> p_change c p q -> own_row q.
Proof.
  intros [Ht Hr] H. split; [by destruct H|]. destruct H as [| | b now v n p Hb | | | | |]; cbn; intros Hs;
    try (apply Hr; intuition congruence); try done.
  apply Hr. unfold bound in Hb. rewrite !andb_true_iff, p_in_one in Hb. intuition congruence.
Qed.

Lemma spec_in_own sp : sp_tenant sp = Some T -> spec_in T sp = sp.
Proof. intros E. destruct sp. cbn in *. by rewrite E. Qed.

Lemma create_agrees sp g k s :
  own s -> sp_tenant sp = Some T -> is_Some (sp_revision sp) -> 0 <= sp_attempt sp ->
  pg_create_proposal (Some T) (fun _ => true) sp g k s = create_proposal sp g k s.
Proof.
  intros Hs Et [r Er] Ha. pose proof (own_rows s Hs) as Hr. pose proof Hr as Hr'. rewrite Forall_forall in Hr'.
  unfold pg_create_proposal, create_proposal. rewrite Er, Et. unfold given_tenant. rewrite (proj1 tenant_own).
  set (id := text_or _ _). set (key := proposal_key sp k).
  cbv [stm_bind stm_ret stm_get stm_raise transaction]. rewrite spec_in_own by done.
  rewrite (existsb_same _ (fun p => String.eqb (proposal_id p) id && p_in [executing; p_unknown] p))
    by (intros p Hp; by rewrite own_of by auto).
  rewrite last_version_own by done. destruct (dynamic _ && _); [done|].
  rewrite (update_same _ (fun p => String.eqb (proposal_id p) id && p_in [proposed; approved] p) _ supersede_p)
    by (try done; intros p Hp; by rewrite own_of by auto).
  unfold update_proposals, pg_insert, insert_proposal. cbn [negb orb].
  set (v := last_version id (proposals s) + 1).
  assert ((v <=? 0) = false) as Hv by (apply Z.leb_gt; pose proof (last_version_pos id (proposals s)); lia).
  change (version (new_proposal sp id v key r)) with v.
  change (p_attempt_no (new_proposal sp id v key r)) with (sp_attempt sp).
  assert ((sp_attempt sp <? 0) = false) as -> by by apply Z.ltb_ge. rewrite Hv, !orb_false_r.
  set (rows := map _ (proposals s)).
  assert (Forall own_row rows) as Hrows.
  { unfold rows. apply Forall_map. apply (Forall_impl _ _ _ Hr). intros p [Hp Hq].
    unfold own_row. destruct (_ && p_in _ p) eqn:E; [|done]. split; [done|]. intros _. apply Hq.
    apply andb_true_iff in E as [_ E]. apply p_in_two in E. destruct E; congruence. }
  pose proof Hrows as Hrows'. rewrite Forall_forall in Hrows'.
  assert (own_row (new_proposal sp id v key r)) as Hnew by by apply own_new.
  cbn [proposals with_proposals].
  rewrite (existsb_same _ (fun q => String.eqb (idempotency_key q) (idempotency_key (new_proposal sp id v key r))
    || is_proposal (proposal_id (new_proposal sp id v key r)) v q)).
  2: { intros q Hq. destruct (Hrows' q Hq) as [-> _], Hnew as [-> _]. by rewrite String.eqb_refl. }
  destruct (existsb _ rows); [done|].
  rewrite get_agrees; [done|]. constructor; [|apply Hs]. cbn. apply Forall_app. by split; [|constructor].
Qed.

Lemma own_update c f s :
  own s -> (forall p, c p = true -> own_row p -> own_row (f p)) -> own (update_proposals c f s).1.
Proof.
  intros [Hr Hl] Hf. constructor; [|done]. cbn. apply Forall_map. apply (Forall_impl _ _ _ Hr).
  intros p Hp. cbn. destruct (c p) eqn:E; [by apply Hf|done].
Qed.

Lemma own_executing p q :
  pr_status p = executing -> p_tenant q = p_tenant p -> broker_response q = broker_response p ->
  own_row p -> own_row q.
Proof. intros E Et Eb [Ht Hr]. split; [congruence|]. intros _. rewrite Eb. apply Hr. congruence. Qed.

(** ** The sweep *)

Lemma fold_leases f g (b : option Z) (m : gmap string capability_lease) :
  map_Forall (fun k l => forall acc, f k l acc = g k l acc) m -> map_fold f b m = map_fold g b m.
Proof.
  intros H. rewrite !map_fold_foldr. assert (Forall (fun kl => forall acc, f kl.1 kl.2 acc = g kl.1 kl.2 acc) (map_to_list m)) as Hl.
  { apply map_Forall_to_list in H. apply (Forall_impl _ _ _ H). by intros []. }
  induction Hl as [|[k l] ls Hk _ IH]; [done|]. cbn in *. by rewrite IH, Hk.
Qed.
Lemma deadline_agrees s p : own s -> own_row p -> pg_deadline s p = deadline s p.
Proof.
  intros [_ Hl] [Hp _]. unfold pg_deadline, deadline. f_equal. apply fold_leases. intros k l Hk acc.
  destruct (Hl k l Hk) as [Ht Hr]. rewrite Ht, Hp, String.eqb_refl, andb_true_l.
  destruct (String.eqb_spec (cl_revision l) (p_revision p)) as [E|E]; [|by rewrite andb_false_r].
  rewrite <- E. by apply String.eqb_neq in Hr as ->.
Qed.
Lemma stalled_agrees now limit s : own s -> pg_stalled (VStr T) s now limit = stalled s now limit.
Proof.
  intros Hs. unfold pg_stalled, stalled. f_equal. apply filter_same. intros p Hp.
  rewrite merge_sort_Permutation in Hp. pose proof (own_rows s Hs) as Hr. rewrite Forall_forall in Hr.
  by rewrite own_of, deadline_agrees by auto.
Qed.
Lemma sweep_all_agrees now l acc s : own s -> pg_sweep_all (Some T) now l acc s = sweep_all now l acc s.
Proof.
  revert acc s. induction l as [|p l IH]; intros acc s Hs; [done|]. cbn [pg_sweep_all sweep_all].
  cbv beta delta [stm_bind pg_sweep_one sweep_one].
  destruct (dispatched_at p); [rewrite fail_agrees by done|rewrite recover_agrees by done].
  - unfold fail_execution. match goal with |- context [update_proposals ?c ?f s] =>
      pose proof (own_update c f s Hs) as Ho; destruct (update_proposals c f s) as [s' [ok|e]] end; [|done].
    apply IH, Ho. intros q Hq. apply own_executing; [|done..]. by apply andb_true_iff in Hq as [_ Hq%p_in_one].
  - unfold recover_pre_dispatch_claim. match goal with |- context [update_proposals ?c ?f s] =>
      pose proof (own_update c f s Hs) as Ho; destruct (update_proposals c f s) as [s' [ok|e]] end; [|done].
    apply IH, Ho. intros q (_ & Hq & _)%undispatched_spec. by apply own_executing.
Qed.
Lemma sweep_agrees now limit s :
  own s -> pg_sweep_stalled_executions (Some T) now limit s = sweep_stalled_executions now limit s.
Proof.
  intros Hs. unfold pg_sweep_stalled_executions, sweep_stalled_executions. rewrite (proj2 tenant_own).
  cbv [stm_bind stm_ret stm_get]. rewrite stalled_agrees by done. by apply sweep_all_agrees.
Qed.

(** ** Leases *)

(** The tokens of the leases a history issues; the leases of a state come from
    the tokens spent on it. *)
Definition token_hashes (cs : list act) : list string :=
  omap (fun c => match c with IssueLease _ _ token => Some (sha256 token) | _ => None end) cs.

Lemma own_new_lease ls : ls_tenant ls = Some T -> ls_revision ls <> "legacy" -> own_lease (new_lease ls).
Proof. intros E Hr. split; [|done]. unfold new_lease, text_or. cbn. by rewrite E, Htruthy. Qed.
Lemma lease_in_own ls : ls_tenant ls = Some T -> lease_in T ls = ls.
Proof. intros E. destruct ls. cbn in *. by rewrite E. Qed.

Definition revoke (ls : lease_spec) (now : Z) (l : capability_lease) : capability_lease :=
  if String.eqb (cl_revision l) (ls_revision ls) && String.eqb (cl_step l) (ls_step ls) && is_active l
  then set_lease l (Some now) (cl_consumed l) else l.
Lemma revoke_own ls now l : own_lease l -> own_lease (revoke ls now l).
Proof. unfold revoke. by destruct (_ && is_active l). Qed.
Lemma revoke_inactive ls now l :
  String.eqb (cl_revision (revoke ls now l)) (ls_revision ls)
  && String.eqb (cl_step (revoke ls now l)) (ls_step ls) && is_active (revoke ls now l) = false.
Proof.
  unfold revoke. destruct (_ && is_active l) eqn:E; [|done].
  apply andb_false_iff. right. unfold is_active. cbn [cl_revoked cl_consumed set_lease].
  by rewrite (bool_decide_eq_false_2 (Some now = None)), andb_false_r by done.
Qed.

Lemma issue_agrees ls now token s :
  own s -> ls_tenant ls = Some T -> ls_revision ls <> "legacy" -> 0 <= ls_attempt ls ->
  capability_leases s !! sha256 token = None ->
  pg_issue_lease (Some T) (fun _ => true) ls now token s = issue_lease ls now token s
  /\ capability_leases (issue_lease ls now token s).1
     = <[sha256 token := new_lease ls]> (revoke ls now <$> capability_leases s).
Proof.
  intros [_ Hl] Et Hr Ha Hfresh. unfold pg_issue_lease, issue_lease, revoke_active_leases. rewrite Et.
  unfold given_tenant. rewrite (proj1 tenant_own). cbv [stm_bind stm_ret transaction stm_modify pg_insert_lease].
  rewrite lease_in_own by done. apply String.eqb_neq in Hr as E. rewrite E. clear E.
  assert ((fun l => if String.eqb (cl_tenant l) T && String.eqb (cl_revision l) (ls_revision ls)
                     && String.eqb (cl_step l) (ls_step ls) && is_active l
                  then set_lease l (Some now) (cl_consumed l) else l) <$> capability_leases s
          = revoke ls now <$> capability_leases s) as ->.
  { apply map_fmap_ext. intros k l Hk. destruct (Hl k l Hk) as [-> _]. by rewrite String.eqb_refl. }
  change ((fun l => if String.eqb (cl_revision l) (ls_revision ls) && String.eqb (cl_step l) (ls_step ls)
                       && is_active l then set_lease l (Some now) (cl_consumed l) else l) <$> capability_leases s)
    with (revoke ls now <$> capability_leases s).
  cbn [capability_leases with_capability_leases negb]. rewrite lookup_fmap, Hfresh.
  rewrite !(bool_decide_eq_false_2 (is_Some _)) by by intros [].
  rewrite !(bool_decide_eq_false_2 (map_Exists _ _)).
  2: { intros (k & l & Hk & Hact). apply lookup_fmap_Some in Hk as (l' & <- & Hk).
       unfold active_for in Hact. rewrite <- !andb_assoc in Hact. apply andb_true_iff in Hact as [_ Hact].
       rewrite andb_assoc, revoke_inactive in Hact. done. }
  2: { intros (k & l & Hk & Hact). apply lookup_fmap_Some in Hk as (l' & <- & Hk).
       unfold pg_active_for in Hact. cbn [cl_revision cl_step new_lease] in Hact.
       rewrite <- !andb_assoc in Hact. apply andb_true_iff in Hact as [_ Hact].
       rewrite andb_assoc, revoke_inactive in Hact. done. }
  cbn [orb andb]. change (cl_attempt (new_lease ls)) with (ls_attempt ls).
  assert ((ls_attempt ls <? 0) = false) as -> by by apply Z.ltb_ge. done.
Qed.

Lemma lease_params_typed b : typed_binding b -> forallb bindable (lease_params b) = true.
Proof.
  intros Hb. unfold lease_params. cbn [map forallb]. rewrite (tb_tenant b Hb). cbn [bindable].
  rewrite !andb_true_iff. split_and!; try done; apply comparable_bindable; comparable_field.
Qed.
Lemma matches_agree b now l :
  typed_binding b -> own_lease l ->
  pg_lease_matches (VStr T) b now l = lease_matches b now l && bool_decide (cl_consumed l = None).
Proof.
  intros Hb [Ht _]. unfold pg_lease_matches, lease_matches, is_active.
  rewrite !text_eq_comparable by comparable_field. rewrite (tb_tenant b Hb), Ht.
  assert (tenant_scope (VStr T) T = true) as ->.
  { unfold tenant_scope. change (truthy (VStr T)) with (truthy T). rewrite Htruthy. unfold text_eq.
    cbn [bind_text]. rewrite String.eqb_refl. apply orb_true_r. }
  unfold pg_eq at 1. rewrite String.eqb_refl.
  destruct (bool_decide (cl_consumed l = None)), (bool_decide (cl_revoked l = None)), (now <=? cl_expires l);
    by rewrite ?andb_true_r, ?andb_false_r.
Qed.
Lemma consume_lease_agrees token b now s :
  own s -> typed_binding b -> pg_consume_lease (Some T) token b now s = consume_lease token b now s.
Proof.
  intros [_ Hl] Hb. unfold pg_consume_lease, _lease_allowed, consume_lease.
  destruct (negb (truthy token)); [done|]. rewrite (tb_tenant b Hb), (proj1 tenant_own).
  cbv [stm_bind stm_ret transaction stm_get pg_params params_ok stm_modify]. rewrite lease_params_typed by done.
  assert (forallb comparable (VStr T :: map (PyValue.get b)
    ["user_principal_id"; "agent_principal_id"; "task_id"; "credential_id"]) = true) as ->.
  { cbn [forallb map comparable]. rewrite !andb_true_iff. split_and!; try done; comparable_field. }
  destruct (capability_leases s !! sha256 token) as [l|] eqn:El; [|done].
  rewrite matches_agree by (try done; by apply (Hl _ _ El)).
  by destruct (_ && lease_allows b l).
Qed.

(** ** Histories *)

Lemma own_changes c p q : rtc (p_change c) p q -> own_row p -> own_row q.
Proof. induction 1 as [|x y z Hxy _ IH]; [done|]. intros Hx. by apply IH, (own_change c x). Qed.
Lemma own_perform c s :
  scoped c -> Rows.keyed proposals p_key s -> own s ->
  Rows.keyed proposals p_key (perform c s) /\ own (perform c s).
Proof.
  intros Hc Hk [Hr Hl]. destruct (perform_tracks c s Hk) as [Hk' Hf]. split; [done|]. constructor.
  - apply Forall_forall. intros q Hq. rewrite Forall_forall in Hr.
    destruct (Rows.follows_inv _ _ _ _ _ Hf Hq) as [(p & Hp & Hpq)|(p & Hp & Hpq)];
      apply (own_changes _ _ _ Hpq); [by apply Hr|].
    destruct Hp as [sp g k v r _]. by apply own_new, Hc.
  - intros h l' Hl'. pose proof (perform_lease_step c s h) as Hs.
    destruct (capability_leases s !! h) as [l|] eqn:E.
    + destruct Hs as (rv & cn & Hs & _). rewrite Hs in Hl'. injection Hl' as <-. apply (Hl h l E).
    + destruct (Hs l' Hl') as (ls & n & tok & -> & _ & ->). by apply own_new_lease; apply Hc.
Qed.

Lemma reply_agrees c s :
  scoped c -> own s -> (forall ls n tok, c = IssueLease ls n tok -> capability_leases s !! sha256 tok = None) ->
  postgres_reply (Some T) c s = sqlite_reply c s.
Proof.
  intros Hc Hs Hfresh. destruct c; cbn [postgres_reply sqlite_reply scoped] in *; unfold replying.
  - destruct Hc as (? & ? & ?). by rewrite create_agrees.
  - subst tenant. by rewrite decide_agrees.
  - by rewrite consume_agrees.
  - by rewrite complete_agrees.
  - by rewrite mark_agrees.
  - by rewrite recover_agrees.
  - by rewrite fail_agrees.
  - by rewrite absent_agrees.
  - by rewrite sweep_agrees.
  - destruct Hc as (? & ? & ?). rewrite (proj1 (issue_agrees ls now token s Hs ltac:(done) ltac:(done) ltac:(done) (Hfresh _ _ _ eq_refl))).
    done.
  - done.
  - by rewrite consume_lease_agrees.
Qed.

Lemma fresh_kept c cs s :
  NoDup (token_hashes (c :: cs)) ->
  (forall h, h ∈ token_hashes (c :: cs) -> capability_leases s !! h = None) ->
  NoDup (token_hashes cs) /\ forall h, h ∈ token_hashes cs -> capability_leases (perform c s) !! h = None.
Proof.
  intros Hn Hf.
  assert (NoDup (token_hashes cs) /\ (forall h, h ∈ token_hashes cs -> capability_leases s !! h = None)
    /\ forall ls n tok, c = IssueLease ls n tok -> sha256 tok ∉ token_hashes cs) as (Hn' & Hf' & Hne).
  { destruct c; try done. unfold token_hashes in *. cbn [omap list_omap] in *. apply NoDup_cons in Hn as [Hn1 Hn2].
    split; [done|]. split; [|by intros ??? [= -> -> ->]]. intros h Hh. apply Hf. by right. }
  split; [done|]. intros h Hh. pose proof (perform_lease_step c s h) as Hs. rewrite (Hf' h Hh) in Hs.
  destruct (capability_leases (perform c s) !! h) as [l|]; [|done].
  destruct (Hs l eq_refl) as (ls & n & tok & -> & <- & _). by destruct (Hne _ _ _ eq_refl).
Qed.

Lemma replies_agree cs s :
  Forall scoped cs -> NoDup (token_hashes cs) ->
  (forall h, h ∈ token_hashes cs -> capability_leases s !! h = None) ->
  Rows.keyed proposals p_key s -> own s ->
  replies (postgres_reply (Some T)) cs s = replies sqlite_reply cs s.
Proof.
  revert s. induction cs as [|c cs IH]; intros s Hcs Hn Hf Hk Hs; [done|]. cbn [replies].
  apply Forall_cons in Hcs as [Hc Hcs]. rewrite reply_agrees; [|done..|].
  2: { intros ls n tok ->. apply Hf. unfold token_hashes. cbn [omap list_omap]. by left. }
  destruct (fresh_kept c cs s Hn Hf) as [Hn' Hf']. destruct (own_perform c s Hc Hk Hs) as [Hk' Hs'].
  rewrite <- sqlite_reply_perform in Hf', Hk', Hs'. destruct (sqlite_reply c s) as [s' r]. by rewrite IH.
Qed.
End account.


(** Two threads of different accounts do not see each other's rows, where
    SQLite's [mark_dispatched] finds any row of that number. *)
Example postgres_is_scoped :
  let s := perform_all demo_approved no_actions in
  (postgres_reply (Some "t") (Consume demo_binding 12) s).1 <> s
  /\ (postgres_reply (Some "u") (Decide "p1" 1 "ana" true 10 None) s).2 = RBool (Ok false)
  /\ (postgres_reply None (MarkDispatched "p1" 1 13) (perform_all [Consume demo_binding 12] s)).2
     = RBool (Err (ActionValueError "tenant_id is required"))
  /\ (sqlite_reply (MarkDispatched "p1" 1 13) (perform_all [Consume demo_binding 12] s)).2 = RBool (Ok true).
Proof. vm_compute. split_and!; try reflexivity. discriminate. Qed.

