(* ===== verification/Broker.v ===== *)
(** * The action broker

    [ActionBroker] of src/services/action_broker/app.py: the one place where an
    effect reaches a provider.  It checks the lease, the control plane, the
    runtime, the credential, the agent, the approved proposal and the live
    policy, consumes the approval and the lease, calls the provider inside the
    vault's custody of the secret, and records what came back.

    The state is the action repository and the calls made to providers.  Other
    callers of the repository may run between two of its calls ([others]).
    What surrounds the broker is an argument: the gate, the policy, the
    connections, the vault's custody up to the operation, the provider client,
    and the JSON-schema validator. *)

From S2P Require Import Prelude ControlPlane PyValue Json Sha256 Catalog Approval Policy Runtime Workflow Actions ActionProofs.
Local Open Scope Z_scope.

Abbreviation dict := (list (string * pyval)).

(** ** Receipts *)

Definition _FORBIDDEN_RECEIPT_KEYS : list string :=
  ["access_token"; "refresh_token"; "authorization"; "token"].
Definition _MAX_RECEIPT_DEPTH : nat := 8.
Definition _MAX_RECEIPT_ITEMS : nat := 1000.
Definition _MAX_RECEIPT_SERIALIZED_BYTES : nat := 64 * 1024.

(** [str.casefold] as far as its result can be ASCII: the ASCII letters, and
    the characters that fold to ASCII letters (sharp s, long s, the Kelvin
    sign, the Latin ligatures). *)
Definition FOLDS : list (list N * string) :=
  [([195; 159]%N, "ss"); ([197; 191]%N, "s"); ([225; 186; 158]%N, "ss"); ([226; 132; 170]%N, "k");
   ([239; 172; 128]%N, "ff"); ([239; 172; 129]%N, "fi"); ([239; 172; 130]%N, "fl");
   ([239; 172; 131]%N, "ffi"); ([239; 172; 132]%N, "ffl"); ([239; 172; 133]%N, "st");
   ([239; 172; 134]%N, "st")].
Definition utf8 (codes : list N) : string := String.string_of_list_ascii (map chr codes).
Fixpoint fold_at (l : list (list N * string)) (s : string) : option (string * nat) :=
  match l with
  | [] => None
  | (codes, t) :: l' => if starts_with (utf8 codes) s then Some (t, length codes) else fold_at l' s
  end.
Fixpoint casefold_from (skip : nat) (s : string) : string :=
  match s with
  | "" => ""
  | String c s' =>
      match skip with
      | S k => casefold_from k s'
      | O => match fold_at FOLDS s with
             | Some (t, n) => t +:+ casefold_from (n - 1) s'
             | None => String (lower_char c) (casefold_from 0 s')
             end
      end
  end.
Definition casefold (s : string) : string := casefold_from 0 s.

(** [inspect(node, depth)] with the count of items so far. *)
Fixpoint inspect (node : pyval) (depth count : nat) {struct node} : result string nat :=
  if Nat.ltb _MAX_RECEIPT_DEPTH depth then Err "provider result exceeds receipt depth limit" else
  match node with
  | VDict d =>
      let count := (count + length d)%nat in
      if Nat.ltb _MAX_RECEIPT_ITEMS count then Err "provider result exceeds receipt item limit" else
      (fix go (d : list (string * pyval)) (count : nat) : result string nat :=
         match d with
         | [] => Ok count
         | (k, v) :: d' =>
             if str_in (casefold k) _FORBIDDEN_RECEIPT_KEYS
             then Err "provider result contains forbidden authority material"
             else match inspect v (S depth) count with Ok c => go d' c | Err e => Err e end
         end) d count
  | VList l =>
      let count := (count + length l)%nat in
      if Nat.ltb _MAX_RECEIPT_ITEMS count then Err "provider result exceeds receipt item limit" else
      (fix go (l : list pyval) (count : nat) : result string nat :=
         match l with
         | [] => Ok count
         | v :: l' => match inspect v (S depth) count with Ok c => go l' c | Err e => Err e end
         end) l count
  | _ => Ok count
  end.

(** A dataclass the provider returned is the mapping [asdict] makes of it. *)
Definition _safe_receipt (value : pyval) : result provider_exn pyval :=
  match value with
  | VDict _ =>
      match inspect value 0 0 with
      | Err why => Err (value_error why)
      | Ok _ =>
          if Nat.ltb _MAX_RECEIPT_SERIALIZED_BYTES (str_length (dumps_raw value))
          then Err (value_error "provider result exceeds receipt size limit") else Ok value
      end
  | _ => Err (value_error "provider result must be a filtered object or receipt")
  end.

(** ** Answers *)

Definition answer : Type := Z * dict.
Definition SAFE : string * pyval := ("outcome_certainty", VStr "safe").

Definition slack_status (category : string) : Z :=
  if str_in category ["auth"; "scope"; "permission"; "membership"] then 403
  else if String.eqb category "validation" then 422
  else if String.eqb category "provider" then 409
  else if String.eqb category "transient" then 503 else 409.

Definition _safe_provider_error (e : provider_exn) : answer :=
  let failed := VStr "provider operation failed safely" in
  let after := match retry_after e with Some z => [("retry_after", VInt z)] | None => [] end in
  match kind e with
  | SlackRateLimitError z =>
      (429, [("error", VStr "rate_limited"); SAFE; ("category", VStr "rate_limit"); ("retry_after", VInt z)])
  | SlackAPIError code category =>
      (slack_status category, [("error", VStr code); SAFE; ("category", VStr category)])
  | PermissionDenied => (403, [("error", failed); SAFE] ++ after)
  | ProviderNetworkError => (503, [("error", failed); SAFE] ++ after)
  | KeyMissing =>
      (403, [("error", VStr "credential_unavailable"); SAFE] ++ after
            ++ [("category", VStr "auth"); ("recovery", VStr "reconnect_integration")])
  | _ => (502, [("error", failed); SAFE] ++ after ++ [("error_class", VStr (class_name e))])
  end.

Definition error (why : string) : dict := [("error", VStr why)].

(** ** The gate and the binding *)

Definition DEFAULT_GATE_REASON : string := "capability rollout is disabled".
Definition _gate_allows (d : ControlPlane.decision) : bool :=
  match d with
  | Bool b => b
  | Mapping m => truthy (get_or m "allowed" (VBool true))
  | Object b _ => b
  end.
Definition _gate_reason (d : ControlPlane.decision) : pyval :=
  let reason := match d with
                | Bool _ => VNone
                | Mapping m => PyValue.get m "reason"
                | Object _ r => r
                end in
  if truthy reason then reason else VStr DEFAULT_GATE_REASON.

(** [proposal.get(field)] for the fields a binding names. *)
Definition proposal_field (p : proposal) (field : string) : pyval :=
  if String.eqb field "proposal_id" then VStr (proposal_id p)
  else if String.eqb field "version" then VInt (Actions.version p)
  else if String.eqb field "user_principal_id" then VStr (p_user p)
  else if String.eqb field "agent_principal_id" then VStr (p_agent p)
  else if String.eqb field "credential_id" then VStr (p_credential p)
  else if String.eqb field "capability_id" then VStr (p_capability p)
  else if String.eqb field "payload_hash" then VStr (payload_hash p)
  else if String.eqb field "idempotency_key" then VStr (idempotency_key p)
  else if String.eqb field "workflow_revision_id" then VStr (p_revision p)
  else if String.eqb field "step_id" then VStr (p_step p)
  else if String.eqb field "plan_graph_hash" then VStr (p_graph_hash p)
  else if String.eqb field "connection_id" then VStr (p_connection p)
  else if String.eqb field "attempt" then VInt (p_attempt_no p)
  else VNone.
Definition _binding_fields (p : proposal) : list string :=
  ["proposal_id"; "version"; "user_principal_id"; "agent_principal_id"; "credential_id";
   "capability_id"; "payload_hash"; "idempotency_key"]
  ++ if String.eqb (p_revision p) "legacy" then []
     else ["workflow_revision_id"; "step_id"; "plan_graph_hash"; "connection_id"; "attempt"].
Definition binding_mismatches (p : option proposal) (b : binding) : list string :=
  match p with
  | None => ["proposal is unknown"]
  | Some p => List.filter (fun f => py_neqb (proposal_field p f) (PyValue.get b f)) (_binding_fields p)
  end.

(** [x in c]. *)
Definition py_in (x c : pyval) : result pyexn bool :=
  match c, x with
  | VList l, _ => Ok (mem x l)
  | VDict d, _ => if hashable x then Ok (mem x (map (fun kv => VStr kv.1) d)) else Err TypeError
  | VStr t, VStr s => Ok (substring s t)
  | _, _ => Err TypeError
  end.

(** [oauth_connection_authorizer(repository)]: what the repository holds for
    an installation, or for a user's connection, as a mapping. *)
Definition oauth_connection_authorizer (get_installation : pyval -> pyval -> option dict)
    (get_connection : pyval -> option dict) (b : binding) : result pyexn bool :=
  let connection :=
    if truthy (PyValue.get b "connection_id") && truthy (PyValue.get b "tenant_id")
    then get_installation (PyValue.get b "connection_id") (PyValue.get b "tenant_id")
    else get_connection (PyValue.get b "user_principal_id") in
  match connection with
  | None | Some [] => Ok false
  | Some c =>
      if val_is (PyValue.get c "status") "connected"
         && py_eqb (PyValue.get c "credential_id") (PyValue.get b "credential_id")
      then py_in (PyValue.get b "capability_id") (get_or c "enabled_capabilities" (VList []))
      else Ok false
  end.

(** [dict(a)] then [update(b)]; only lookups read the result. *)
Definition dict_update (a b : dict) : dict :=
  List.filter (fun kv => negb (bool_decide (is_Some (dget b kv.1)))) a ++ b.

(** The mapping a decision is, as the binding carries it. *)
Definition decision_value (d : Policy.decision) : pyval :=
  VDict [("allowed", VBool (Policy.allowed d)); ("reason", VStr (Policy.reason d));
         ("version", VStr (Policy.d_version d)); ("input_hash", VStr (Policy.input_hash d));
         ("decision_hash", VStr (Policy.decision_hash d))].

(** ** The broker and what surrounds one call *)

Record eligibility := { el_allowed : bool; el_reason : string; el_deferred : option Z }.
(** What the evidence submitter returned. *)
Inductive submission : Type :=
| Replied (status : Z) (body : dict)
| Malformed
| Raised.

Record ActionBroker := {
  dispatch_policy : binding -> ControlPlane.decision;
  runtime_registry : option registry;
  rollout : string;
  schema_valid : dict -> pyval -> bool;
  credential_authorizer : option (binding -> result pyexn bool);
  credential_connector : option (string -> list string);   (* its scope catalog *)
  agent_url_resolver : option (pyval -> option string);
  identity_verifier : string -> pyval -> bool;
  policy_evaluator : option PolicyEvaluator;
  connection_resolver : option (pyval -> pyval -> pyval);
  live_eligibility : option (dict -> result string eligibility);
  credential_rotators : string -> option (pyval -> pyval -> option provider_exn);
  attestor : option (binding -> dict -> pyval -> Z -> result string dict);
  evidence_submitter : option (dict -> submission);
}.

(** One call of the provider client. *)
Record provider_call := {
  pc_write : bool;                         (* [execute], not [read] *)
  pc_provider : string;
  pc_capability : string;
  pc_payload : dict;
  pc_context : dict;
  pc_proposal : option (string * Z);       (* the version it was approved as *)
}.

Record surroundings := {
  clock : nat -> Z;                        (* [self.clock()], reading by reading *)
  others : nat -> list act;                (* other callers, between two calls *)
  custody : pyval -> result provider_exn Runtime.sealed;
  refresh : string -> result provider_exn (string * pyval);
  provider_client : provider_call -> result provider_exn pyval;
}.

Record world := { w_actions : actions; w_calls : list provider_call }.
Inductive broker_error : Type :=
| RepositoryError (e : action_error)
| Uncaught (class_name : string).
Definition bm (A : Type) : Type := stm world broker_error A.

Definition lift {A} (m : actm A) : bm A := fun w =>
  let (s, r) := m (w_actions w) in
  ({| w_actions := s; w_calls := w_calls w |},
   match r with Ok a => Ok a | Err e => Err (RepositoryError e) end).
Definition record_call (c : provider_call) : bm unit :=
  stm_modify (fun w => {| w_actions := w_actions w; w_calls := w_calls w ++ [c] |}).
Definition from_option {A} (class_name : string) (o : option A) : bm A :=
  match o with Some a => stm_ret a | None => stm_raise (Uncaught class_name) end.

(** ** One execution *)

Section execute.
Context (self : ActionBroker) (env : surroundings).
Local Open Scope stm_scope.

Definition yield (i : nat) : bm unit := fun w =>
  ({| w_actions := perform_all (others env i) (w_actions w); w_calls := w_calls w |}, Ok tt).

(** The runtime a binding names: [None] answers 403; without a registry there
    is none to name. *)
Definition resolve_runtime (b : binding) : option (option CapabilityBinding) :=
  match runtime_registry self with
  | None => Some None
  | Some r =>
      match Runtime.from_mapping (PyValue.get b "connection_snapshot") with
      | None => None
      | Some s =>
          if py_neqb (sn_connection_id s) (PyValue.get b "connection_id")
             || py_neqb (sn_tenant_id s) (PyValue.get b "tenant_id")
          then None
          else Some <$> resolve r s (rollout self)
      end
  end.

(** The checks of a write before anything is consumed: [None] goes on. *)
Definition check_write (b : binding) (payload : dict) : bm (option answer) :=
  let agent := PyValue.get b "agent_principal_id" in
  match agent_url_resolver self ≫= fun f => f agent with
  | None | Some "" => stm_ret (Some (403, error "agent endpoint is not trusted"))
  | Some url =>
      if negb (identity_verifier self url agent)
      then stm_ret (Some (403, error "agent identity could not be re-verified")) else
      key <~ from_option "KeyError" (dget b "idempotency_key") ;;
      yield 1 ;;;
      lift (params_ok [key; PyValue.get b "tenant_id"]) ;;;
      w <~ stm_get ;;
      let existing := find_by_key (w_actions w) key (PyValue.get b "tenant_id") in
      let mismatched := binding_mismatches existing b in
      match mismatched, existing with
      | [], Some p =>
          match pr_status p with
          | p_completed =>
              match broker_response p, p_receipt p with
              | Some (VDict d), _ => stm_ret (Some (200, d))
              | Some _, _ => stm_raise (Uncaught "TypeError")
              | None, Some r => stm_ret (Some (200, [("receipt", r)]))
              | None, None => stm_raise (Uncaught "KeyError")
              end
          | executing => stm_ret (Some (202, [("status", VStr "executing")]))
          | p_unknown => stm_ret (Some (202, [("status", VStr "execution_unknown")]))
          | _ =>
              if negb (String.eqb (canonical_payload_hash (VDict payload)) (payload_hash p))
              then stm_ret (Some (403, error "payload does not match approved proposal"))
              else stm_ret None
          end
      | _, _ =>
          stm_ret (Some (403, [("error", VStr "action binding does not match proposal");
                               ("mismatched_fields", VList (map VStr mismatched))]))
      end
  end.

(** The live policy decision must allow, and be the one the binding carries. *)
Definition check_policy (b : binding) : bm (option answer) :=
  let denied := Some (403, error "dynamic policy decision is stale or denied") in
  match policy_evaluator self, connection_resolver self with
  | Some pe, Some connections =>
      match Policy.evaluate pe (VDict b)
              (connections (PyValue.get b "connection_id") (PyValue.get b "tenant_id"))
              (clock env 1) with
      | Err _ => stm_raise (Uncaught "TypeError")
      | Ok d => stm_ret (if negb (Policy.allowed d)
                            || py_neqb (PyValue.get b "policy_decision") (decision_value d)
                         then denied else None)
      end
  | _, _ => stm_ret denied
  end.

Definition check_eligibility (cap : string) (b : binding) (payload : dict) : bm (option answer) :=
  match live_eligibility self with
  | None => stm_ret None
  | Some evaluate =>
      match evaluate (dict_update (dict_update b payload) [("capability_id", VStr cap)]) with
      | Err class_name => stm_raise (Uncaught class_name)
      | Ok e =>
          stm_ret (if el_allowed e then None
                   else Some (409, match el_deferred e with
                                   | None => [("error", VStr (el_reason e)); ("status", VStr "prevented")]
                                   | Some t => [("error", VStr (el_reason e)); ("status", VStr "deferred");
                                                ("deferred_until", VInt t)]
                                   end))
      end
  end.

(** ** The provider call, inside the custody of the secret *)

Definition required (rb : option CapabilityBinding) (cap : string) : list string :=
  match rb with
  | Some r => required_scopes (cb_definition r)
  | None => match credential_connector self with Some f => f cap | None => [] end
  end.
Definition the_provider (rb : option CapabilityBinding) : string :=
  match rb with Some r => provider (cb_definition r) | None => "google" end.

(** [a or b] on an optional text and a value. *)
Definition account_or (a : option string) (v : pyval) : pyval :=
  match a with Some t => if truthy t then VStr t else v | None => v end.
Definition provider_context (a : authority) (b : binding) (payload : dict) : dict :=
  let account := account_or (account_id a) (PyValue.get b "provider_account_id") in
  [("access_token", VStr (access_token a));
   ("connection_id", PyValue.get b "connection_id");
   ("team_id", PyValue.get b "team_id");
   ("bot_user_id", PyValue.get b "bot_user_id");
   ("authority_profile", get_or b "authority_profile" (VStr "bot"));
   ("slack_subject_id", PyValue.get b "slack_subject_id");
   ("provider_account_id", account);
   ("account_id", account);
   ("tenant_id", PyValue.get b "tenant_id");
   ("effect_id", PyValue.get b "step_id");
   ("dispatch_key", PyValue.get b "idempotency_key");
   ("callback_token", PyValue.get payload "callback_token")].

(** What the [try] block produced, and whether the provider may have acted. *)
Record attempt := { at_started : bool; at_result : result provider_exn pyval }.
Definition failed_before (e : provider_exn) : attempt := {| at_started := false; at_result := Err e |}.

Definition provider_operation (rb : option CapabilityBinding) (cap : string) (write : bool)
    (b : binding) (payload : dict) (p : option proposal) (secret : Runtime.sealed) : bm attempt :=
  match strategy_authority (refresh env) (match rb with Some r => cb_strategy r | None => RefreshedOAuth end)
          true secret with
  | Err e => stm_ret (failed_before e)
  | Ok a =>
      let scopes := required rb cap in
      if negb (truthy scopes)
      then stm_ret (failed_before (permission_error "capability has no provider scope"))
      else if truthy (granted_scopes a) && negb (subset (map VStr scopes) (granted_scopes a))
      then stm_ret (failed_before (permission_error "provider did not grant the required scope"))
      else
        let call := {| pc_write := write; pc_provider := the_provider rb; pc_capability := cap;
                       pc_payload := payload; pc_context := provider_context a b payload;
                       pc_proposal := (fun q => (proposal_id q, Actions.version q)) <$> p |} in
        let answered := match provider_client env call with
                        | Ok v => _safe_receipt v | Err e => Err e end in
        if write then
          yield 4 ;;;
          marked <~ match p with
                    | Some q => lift (mark_dispatched (proposal_id q) (Actions.version q) (clock env 4))
                    | None => stm_ret false
                    end ;;
          if negb marked
          then stm_ret (failed_before (permission_error "provider dispatch claim is no longer valid"))
          else record_call call ;;; stm_ret {| at_started := true; at_result := answered |}
        else record_call call ;;; stm_ret {| at_started := false; at_result := answered |}
  end.

Definition try_provider (rb : option CapabilityBinding) (cap : string) (write : bool)
    (b : binding) (payload : dict) (p : option proposal) : bm attempt :=
  match credential_rotators self (the_provider rb) ≫=
        fun rotate => rotate (PyValue.get b "connection_id") (PyValue.get b "credential_id") with
  | Some e => stm_ret (failed_before e)
  | None =>
      match custody env (PyValue.get b "credential_id") with
      | Err e => stm_ret (failed_before e)
      | Ok secret => provider_operation rb cap write b payload p secret
      end
  end.

(** The [except] clause. *)
Definition caught (e : provider_exn) : bool := match kind e with Unlisted => false | _ => true end.
Definition is_network (e : provider_exn) : bool :=
  match kind e with ProviderNetworkError => true | _ => false end.
Definition settle_failure (write : bool) (p : option proposal) (t : attempt) (e : provider_exn)
    : bm answer :=
  if negb (caught e) then stm_raise (Uncaught (class_name e)) else
  let outcome_unknown := write && at_started t && is_network e in
  yield 5 ;;;
  match p with
  | Some q => lift (fail_execution (proposal_id q) (Actions.version q) (message e) (clock env 5)
                      outcome_unknown) ;;; stm_ret tt
  | None => stm_ret tt
  end ;;;
  stm_ret (if outcome_unknown then (202, [("status", VStr "execution_unknown")])
           else _safe_provider_error e).

(** ** Evidence and the record of success *)

Definition is_status_ok (z : Z) : bool := (200 <=? z) && (z <? 300).
(** What the evidence submitter adds to the response; nothing it does makes
    the execution fail. *)
Definition evidence_status (s : submission) : pyval :=
  match s with
  | Replied z body => if is_status_ok z then get_or body "evidence_status" (VStr "pending") else VStr "pending"
  | Malformed | Raised => VStr "pending"
  end.
Definition verification_result (s : submission) : dict :=
  match s with
  | Replied z body =>
      if is_status_ok z
      then match PyValue.get body "verification_result" with
           | VDict d => [("verification_result", VDict d)] | _ => [] end
      else []
  | Malformed | Raised => []
  end.
Definition _evidence_response (create : binding -> dict -> pyval -> Z -> result string dict)
    (b : binding) (payload : dict) (receipt : pyval) : bm dict :=
  match create b payload receipt (clock env 6) with
  | Err class_name => stm_raise (Uncaught class_name)
  | Ok attestation =>
      match dget attestation "attestation_id" with
      | None => stm_raise (Uncaught "KeyError")
      | Some id =>
          let evidence := [("evidence_id", id); ("capability_id", PyValue.get b "capability_id");
                           ("execution_attestation", VDict attestation)] in
          let sub := match evidence_submitter self with
                     | Some submit => submit evidence | None => Malformed end in
          stm_ret ([("receipt", receipt); ("execution_attestation", VDict attestation);
                    ("evidence_status", evidence_status sub)] ++ verification_result sub)
      end
  end.

Definition settle_success (write : bool) (b : binding) (payload : dict) (p : option proposal)
    (receipt : pyval) : bm answer :=
  match p, (if write then attestor self else None) with
  | Some q, Some create =>
      response <~ _evidence_response create b payload receipt ;;
      yield 7 ;;;
      lift (complete_execution (proposal_id q) (Actions.version q) receipt (clock env 7)
              (Some (VDict response))) ;;;
      stm_ret (200, response)
  | Some q, None =>
      yield 7 ;;;
      lift (complete_execution (proposal_id q) (Actions.version q) receipt (clock env 7) None) ;;;
      stm_ret (200, [("receipt", receipt)])
  | None, _ => stm_ret (200, [("receipt", receipt)])
  end.

(** ** [execute] *)

Definition consume_authority (lease : string) (write : bool) (b : binding)
    : bm (option proposal + answer) :=
  yield 2 ;;;
  p <~ (if write then lift (consume_approval b (clock env 2)) else stm_ret None) ;;
  if write && bool_decide (p = None)
  then stm_ret (inr (403, error "exact action approval is required")) else
  yield 3 ;;;
  ok <~ lift (consume_lease lease b (clock env 3)) ;;
  if negb ok then
    match p with
    | Some q => lift (recover_pre_dispatch_claim (proposal_id q) (Actions.version q)) ;;; stm_ret tt
    | None => stm_ret tt
    end ;;;
    stm_ret (inr (403, error "capability lease was already consumed"))
  else stm_ret (inl p).

(** From the consumed authority on. *)
Definition dispatch_effect (lease : string) (rb : option CapabilityBinding) (cap : string)
    (write : bool) (b : binding) (payload : dict) : bm answer :=
  consumed <~ consume_authority lease write b ;;
  match consumed with
  | inr a => stm_ret a
  | inl p =>
      t <~ try_provider rb cap write b payload p ;;
      match at_result t with
      | Err e => settle_failure write p t e
      | Ok receipt => settle_success write b payload p receipt
      end
  end.

Definition or_answer (m : bm (option answer)) (k : bm answer) : bm answer :=
  r <~ m ;; match r with Some a => stm_ret a | None => k end.

Definition side_effecting (rb : option CapabilityBinding) (cap : string) : bool :=
  match rb with
  | Some r => String.eqb (Catalog.effect (cb_definition r)) "write"
  | None => requires_action_approval cap
  end.

Definition execute_checked (lease : string) (rb : option CapabilityBinding) (cap : string)
    (b : binding) (payload : dict) : bm answer :=
  let write := side_effecting rb cap in
  if match rb with Some r => negb (schema_valid self payload (input_schema (cb_definition r))) | None => false end
  then stm_ret (422, error "payload does not match capability schema") else
  authorized <~ match credential_authorizer self with
                | None => stm_ret false
                | Some f => match f b with Ok x => stm_ret x | Err _ => stm_raise (Uncaught "TypeError") end
                end ;;
  if negb authorized
  then stm_ret (403, error "credential is not active for this user and capability")
  else if bool_decide (credential_connector self = None) && bool_decide (runtime_registry self = None)
  then stm_ret (503, error "credential refresh is not configured") else
  or_answer (if write then check_write b payload else stm_ret None)
    (or_answer (if dynamic_binding b then check_policy b else stm_ret None)
       (or_answer (if write then check_eligibility cap b payload else stm_ret None)
          (dispatch_effect lease rb cap write b payload))).

(** A validated lease names its capability, so the binding has one. *)
Definition execute (lease : string) (b : binding) (payload : dict) : bm answer :=
  yield 0 ;;;
  valid <~ lift (validate_lease lease b (clock env 0)) ;;
  if negb valid then stm_ret (403, error "missing, expired, or mismatched capability lease") else
  let gate := dispatch_policy self b in
  if negb (_gate_allows gate)
  then stm_ret (403, [("error", _gate_reason gate); ("recovery", VStr "contact_admin")]) else
  match PyValue.get b "capability_id", resolve_runtime b with
  | VStr cap, Some rb => execute_checked lease rb cap b payload
  | VStr _, None => stm_ret (403, error "capability snapshot is unavailable or stale")
  | _, _ => stm_raise (Uncaught "KeyError")
  end.
End execute.

(** ** The decision of a person *)

(** What the session service says of a session. *)
Record session := { s_principal : string; s_tenant : option string }.
Record sessions := {
  current : option session;                              (* [resolve] *)
  csrf_matches : bool;
  authentication_attestation : option dict;              (* [None]: not offered *)
}.
Definition REINFORCED_FRESHNESS_SECONDS : Z := 300.

Definition _reinforced_step_up_failure (ss : sessions) (s : actions) (proposal_id_ : string)
    (yes : bool) (tenant_id : option string) : option answer :=
  if negb yes then None else
  match Actions.get s proposal_id_ None tenant_id with
  | Some p =>
      if negb (Actions.reinforced p) then None else
      match authentication_attestation ss with
      | None => Some (403, [("error", VStr "step_up_required"); ("recovery", VStr "reauthenticate")])
      | Some a =>
          if is_true (PyValue.get a "fresh") then None
          else Some (403, [("error", VStr "step_up_required");
                           ("reason", get_or a "reason" (VStr "authentication_stale"));
                           ("freshness_seconds",
                            get_or a "freshness_seconds" (VInt REINFORCED_FRESHNESS_SECONDS));
                           ("recovery", VStr "reauthenticate")])
      end
  | None => None
  end.

(** [version] passes [isinstance(_, int)], as a truth value does. *)
Definition decide_request (ss : sessions) (proposal_id_ : string) (body : pyval) (now : Z)
    : actm answer := fun s =>
  match current ss with
  | None => (s, Ok (401, error "authentication required"))
  | Some who =>
      if negb (csrf_matches ss) then (s, Ok (403, error "invalid CSRF token")) else
      let d := as_mapping body in
      match as_number (PyValue.get d "version") with
      | None => (s, Ok (422, error "proposal version is required"))
      | Some v =>
          match PyValue.get d "approved" with
          | VBool yes =>
              match _reinforced_step_up_failure ss s proposal_id_ yes (s_tenant who) with
              | Some a => (s, Ok a)
              | None =>
                  let (s', r) := Actions.decide proposal_id_ v (s_principal who) yes now (s_tenant who) s in
                  (s', match r with
                       | Ok true => Ok (200, [("status", VStr (if yes then "approved" else "rejected"))])
                       | Ok false => Ok (409, error "proposal is expired, changed, or already decided")
                       | Err e => Err e
                       end)
              end
          | _ => (s, Ok (422, error "approved must be boolean"))
          end
      end
  end.

(** ** The internal endpoint *)

Definition BEARER : string := "Bearer ".
Fixpoint drop_chars (n : nat) (s : string) : string :=
  match n, s with S n', String _ s' => drop_chars n' s' | _, _ => s end.
Definition bearer_token (header : string) : string :=
  if starts_with BEARER header then drop_chars (str_length BEARER) header else "".
Definition authenticated (expected : option string) (header : string) : bool :=
  match expected with
  | Some t => truthy t && truthy (bearer_token header) && String.eqb (bearer_token header) t
  | None => false
  end.

(** [None] for a body that is not JSON. *)
Definition _execute_internal (self : ActionBroker) (env : surroundings) (expected : option string)
    (header : string) (body : option pyval) : bm answer :=
  if negb (authenticated expected header)
  then stm_ret (401, error "service authentication required") else
  match body with
  | Some (VDict d) =>
      match PyValue.get d "lease", PyValue.get d "binding", PyValue.get d "payload" with
      | VStr lease, VDict b, VDict payload => execute self env lease b payload
      | _, _, _ => stm_ret (422, error "invalid execution request")
      end
  | _ => stm_ret (422, error "invalid execution request")
  end.
