(* ===== verification/BrokerProofs.v ===== *)
(** * What the broker guarantees

    Theorems about Broker.v: what had to hold for an effect to reach its
    provider, that an approved write is sent once by however many brokers, and
    what is recorded and answered when a provider fails. *)

From S2P Require Import Prelude Rows ControlPlane PyValue Json Sha256 Catalog Approval Policy Runtime Workflow Actions ActionProofs Broker.
Local Open Scope Z_scope.

(** ** Steps that call no provider *)

Abbreviation quiet := (leaves w_calls).

Lemma quiet_lift {A} (m : actm A) : quiet (lift m).
Proof. intros w. unfold lift. by destruct (m _). Qed.
Lemma quiet_yield env i : quiet (yield env i).
Proof. done. Qed.
Lemma quiet_from_option {A} n (o : option A) : quiet (from_option n o).
Proof. by destruct o. Qed.
Ltac quieten :=
  repeat first [apply quiet_lift | apply quiet_yield | apply quiet_from_option | progress leaving].

Section quiet.
Context (self : ActionBroker) (env : surroundings).

Lemma quiet_check_write b payload : quiet (check_write self env b payload).
Proof. unfold check_write. cbv zeta. quieten. Qed.
Lemma quiet_check_policy b : quiet (check_policy self env b).
Proof. unfold check_policy. quieten. Qed.
Lemma quiet_check_eligibility cap b payload : quiet (check_eligibility self cap b payload).
Proof. unfold check_eligibility. quieten. Qed.
Lemma quiet_consume lease write b : quiet (consume_authority env lease write b).
Proof. unfold consume_authority. quieten. Qed.
Lemma quiet_settle_failure write p t e : quiet (settle_failure env write p t e).
Proof. unfold settle_failure. quieten. Qed.
Lemma quiet_settle_success write b payload p r : quiet (settle_success self env write b payload p r).
Proof. unfold settle_success, _evidence_response. quieten. Qed.
End quiet.

(** ** From an effect back to its checks *)

(** [m] called a provider. *)
Definition calls_provider {E A} (m : stm world E A) (w : world) : Prop := w_calls (m w).1 <> w_calls w.

Lemma bind_reached {E A B} (m : stm world E A) (k : A -> stm world E B) w :
  quiet m -> calls_provider (stm_bind m k) w ->
  exists a w1, m w = (w1, Ok a) /\ w_calls w1 = w_calls w /\ calls_provider (k a) w1.
Proof.
  unfold calls_provider, stm_bind. intros Hq H. specialize (Hq w). destruct (m w) as [w1 [a|e]]; [|done].
  simpl in Hq. exists a, w1. split_and!; [done|done|]. by rewrite Hq.
Qed.

Lemma or_answer_reached (m : bm (option answer)) (k : bm answer) w :
  quiet m -> calls_provider (or_answer m k) w ->
  exists w1, m w = (w1, Ok None) /\ w_calls w1 = w_calls w /\ calls_provider k w1.
Proof.
  intros Hq H. apply bind_reached in H as ([a|] & w1 & Hm & Hc & H); [done| |done]. eauto.
Qed.

(** A repository call seen from the broker. *)
Lemma broker_lift_ok {A} (m : actm A) w w1 (a : A) :
  lift m w = (w1, Ok a) -> m (w_actions w) = (w_actions w1, Ok a).
Proof. unfold lift. destruct (m (w_actions w)) as [s [x|e]]; [|done]. by intros [= <- <-]. Qed.

Lemma py_eqb_VStr s v : py_neqb (VStr s) v = false -> v = VStr s.
Proof. unfold py_neqb. intros H%negb_false_iff. by apply py_eqb_str. Qed.

Lemma matching_payload_hash p b :
  binding_mismatches (Some p) b = [] -> PyValue.get b "payload_hash" = VStr (payload_hash p).
Proof.
  unfold binding_mismatches. intros H. apply (py_eqb_VStr (payload_hash p)).
  destruct (py_neqb _ _) eqn:E; [|done]. exfalso.
  assert ("payload_hash" ∈ List.filter (fun f => py_neqb (proposal_field p f) (PyValue.get b f))
    (_binding_fields p)) as Hin.
  { apply list_elem_of_In, filter_In. split; [|exact E]. apply in_app_iff. left.
    do 6 right. by left. }
  rewrite H in Hin. by apply elem_of_nil in Hin.
Qed.

Section reached.
Context (self : ActionBroker) (env : surroundings) (lease : string) (b : binding) (payload : dict).

(** The agent that acts answered for itself at an endpoint we trust. *)
Definition agent_verified : Prop :=
  exists url f, agent_url_resolver self = Some f
    /\ f (PyValue.get b "agent_principal_id") = Some url /\ truthy url = true
    /\ identity_verifier self url (PyValue.get b "agent_principal_id") = true.
(** The binding names the hash of this payload. *)
Definition payload_bound : Prop :=
  PyValue.get b "payload_hash" = VStr (canonical_payload_hash (VDict payload)).
(** The policy allows the binding against the live connection, and this is the
    decision the binding carries. *)
Definition policy_agrees : Prop :=
  exists pe connections d, policy_evaluator self = Some pe
    /\ connection_resolver self = Some connections
    /\ Policy.evaluate pe (VDict b)
         (connections (PyValue.get b "connection_id") (PyValue.get b "tenant_id")) (clock env 1) = Ok d
    /\ Policy.allowed d = true /\ py_eqb (PyValue.get b "policy_decision") (decision_value d) = true.
Definition eligible_now (cap : string) : Prop :=
  forall evaluate, live_eligibility self = Some evaluate ->
    exists e, evaluate (dict_update (dict_update b payload) [("capability_id", VStr cap)]) = Ok e
      /\ el_allowed e = true.

(** The checks of a write that was let through. *)
Lemma check_write_passed w w1 :
  check_write self env b payload w = (w1, Ok None) ->
  w_actions w1 = perform_all (others env 1) (w_actions w)
  /\ agent_verified
  /\ payload_bound.
Proof.
  unfold check_write, agent_verified. destruct (agent_url_resolver self) as [f|] eqn:Ef; [|done].
  cbn [mbind option_bind]. destruct (f _) as [url|] eqn:Eu; [|done].
  destruct (truthy url) eqn:Et.
  2: { unfold truthy, truthy_string in Et. apply negb_false_iff, String.eqb_eq in Et. by subst url. }
  destruct (identity_verifier self url _) eqn:Ei; [|by destruct url].
  intros H. assert (exists key, dget b "idempotency_key" = Some key /\
    (forallb bindable [key; PyValue.get b "tenant_id"] = true) /\
    let w' := {| w_actions := perform_all (others env 1) (w_actions w); w_calls := w_calls w |} in
    w1 = w' /\ exists p, binding_mismatches (Some p) b = []
      /\ String.eqb (canonical_payload_hash (VDict payload)) (payload_hash p) = true) as
    (key & Hk & Hb & Hw & p & Hm & Hp).
  { destruct url as [|c url]; [done|]. cbn [negb] in H. unfold stm_bind at 1, from_option in H.
    destruct (dget b "idempotency_key") as [key|]; [|done]. exists key. split; [done|].
    unfold stm_ret at 1, stm_bind at 1, yield at 1 in H. unfold stm_bind at 1, lift at 1, params_ok in H.
    destruct (forallb _ _); [|done]. split; [done|]. cbn [stm_ret] in H.
    change (stm_bind stm_get ?k ?s) with (k s s) in H. cbv beta in H. cbn [w_actions w_calls] in H.
    destruct (binding_mismatches _ b) as [|x l] eqn:Em; [|done].
    destruct (find_by_key _ _ _) as [p|]; [|done].
    destruct (pr_status p); try done; repeat case_match; try done;
      (split; [by injection H as <-|]; exists p; split; [done|]; by apply negb_false_iff). }
  split; [by rewrite Hw|]. split; [by exists url, f|].
  apply String.eqb_eq in Hp. unfold payload_bound. by rewrite (matching_payload_hash p b Hm), Hp.
Qed.

Lemma check_policy_passed w w1 :
  check_policy self env b w = (w1, Ok None) ->
  w1 = w /\ policy_agrees.
Proof.
  unfold check_policy, policy_agrees. destruct (policy_evaluator self) as [pe|]; [|done].
  destruct (connection_resolver self) as [cs|]; [|done].
  destruct (Policy.evaluate _ _ _ _) as [d|e] eqn:Ee; [|done]. unfold stm_ret.
  destruct (Policy.allowed d) eqn:Ea; [|done]. cbn [negb orb].
  destruct (py_neqb _ _) eqn:En; [done|]. intros [= <-]. split; [done|].
  exists pe, cs, d. do 4 (split; [done|]). by apply negb_false_iff.
Qed.

Lemma check_eligibility_passed cap w w1 :
  check_eligibility self cap b payload w = (w1, Ok None) ->
  w1 = w /\ eligible_now cap.
Proof.
  unfold check_eligibility, eligible_now. destruct (live_eligibility self) as [ev|]; [|by intros [= <-]].
  destruct (ev _) as [e|n] eqn:Ee; [|done]. unfold stm_ret. destruct (el_allowed e) eqn:Ea; [|done].
  intros [= <-]. split; [done|]. intros ev' [= <-]. by exists e.
Qed.

Lemma consume_passed write w w1 p :
  consume_authority env lease write b w = (w1, Ok (inl p)) ->
  let s2 := perform_all (others env 2) (w_actions w) in
  exists s2', (if write then exists q, p = Some q /\ consume_approval b (clock env 2) s2 = (s2', Ok (Some q))
               else p = None /\ s2' = s2)
    /\ consume_lease lease b (clock env 3) (perform_all (others env 3) s2') = (w_actions w1, Ok true).
Proof.
  intros H s2. unfold consume_authority in H. unfold stm_bind at 1, yield at 1 in H.
  cbn [w_actions w_calls] in H. fold s2 in H. unfold stm_bind at 1 in H.
  assert (exists s2', (if write return bm (option proposal) then lift (consume_approval b (clock env 2))
      else stm_ret None) {| w_actions := s2; w_calls := w_calls w |}
     = ({| w_actions := s2'; w_calls := w_calls w |}, Ok p)
    /\ (write = true -> p <> None)
    /\ consume_lease lease b (clock env 3) (perform_all (others env 3) s2') = (w_actions w1, Ok true))
    as (s2' & Hp & Hn & Hl).
  { match type of H with (let (_, _) := ?m in _) = _ => destruct m as [[s2' calls] [q|e]] eqn:E end; [|done].
    assert (calls = w_calls w) as ->.
    { clear -E. destruct write; [|by injection E]. unfold lift in E. cbn in E.
      destruct (consume_approval _ _ _). by injection E. }
    destruct (write && _) eqn:Ewn; [done|]. unfold stm_bind at 1, yield in H. cbn [w_actions w_calls] in H.
    unfold stm_bind at 1, lift at 1 in H. cbn [w_actions w_calls] in H.
    destruct (consume_lease _ _ _ _) as [s4 [ok|e]] eqn:El; [|done].
    destruct ok; cbn [negb] in H.
    - injection H as <- <-. exists s2'. split; [done|]. split; [|done].
      intros ->. simpl in Ewn. by apply bool_decide_eq_false in Ewn.
    - exfalso. revert H. unfold stm_bind. destruct q; [|done]. unfold lift. by destruct (recover_pre_dispatch_claim _ _ _) as [? []]. }
  exists s2'. split; [|done]. destruct write.
  - destruct p as [q|]; [|by destruct (Hn eq_refl)]. exists q. split; [done|].
    apply broker_lift_ok in Hp. exact Hp.
  - by injection Hp as -> <-.
Qed.

(** ** The provider call *)

Definition key_of (p : option proposal) : option (string * Z) := p_key <$> p.

Definition the_call (rb : option CapabilityBinding) (cap : string) (write : bool) (p : option proposal)
    (a : authority) : provider_call := {|
  pc_write := write; pc_provider := the_provider rb; pc_capability := cap; pc_payload := payload;
  pc_context := provider_context a b payload; pc_proposal := key_of p |}.
Definition provider_says (c : provider_call) : result provider_exn pyval :=
  match provider_client env c with Ok v => _safe_receipt v | Err e => Err e end.

(** What a call that reached the provider had established, and left. *)
Definition reached_with (rb : option CapabilityBinding) (cap : string) (write : bool)
    (p : option proposal) (secret : Runtime.sealed) (s s' : actions) (c : provider_call) : Prop :=
  exists a, strategy_authority (refresh env)
      (match rb with Some r => cb_strategy r | None => RefreshedOAuth end) true secret = Ok a
    /\ truthy (required self rb cap) = true
    /\ (truthy (granted_scopes a) = true -> subset (map VStr (required self rb cap)) (granted_scopes a) = true)
    /\ c = the_call rb cap write p a
    /\ if write then exists q, p = Some q
         /\ mark_dispatched (proposal_id q) (Actions.version q) (clock env 4)
              (perform_all (others env 4) s) = (s', Ok true)
       else s' = s.

Lemma provider_operation_reached rb cap write p secret w :
  calls_provider (provider_operation self env rb cap write b payload p secret) w ->
  exists c s', reached_with rb cap write p secret (w_actions w) s' c
    /\ provider_operation self env rb cap write b payload p secret w
       = ({| w_actions := s'; w_calls := w_calls w ++ [c] |},
          Ok {| at_started := write; at_result := provider_says c |}).
Proof.
  unfold calls_provider, provider_operation, reached_with.
  destruct (strategy_authority _ _ _ _) as [a|e]; [|done].
  destruct (truthy (required self rb cap)) eqn:Et; [|done]. cbn [negb].
  destruct (truthy (granted_scopes a) && _) eqn:Es; [done|].
  assert (truthy (granted_scopes a) = true ->
    subset (map VStr (required self rb cap)) (granted_scopes a) = true) as Hs.
  { intros Hg. rewrite Hg in Es. by apply negb_false_iff in Es. }
  clear Es. fold (key_of p). fold (the_call rb cap write p a). fold (provider_says (the_call rb cap write p a)).
  destruct write.
  - unfold stm_bind, yield, lift, record_call, stm_modify, stm_ret. cbn [w_actions w_calls].
    destruct p as [q|]; [|done]. cbn [w_actions w_calls].
    destruct (mark_dispatched _ _ _ _) as [s' [[|]|e]] eqn:Em; try done.
    intros _. exists (the_call rb cap true (Some q) a), s'. split; [|done].
    exists a. split_and!; try done. by exists q.
  - intros _. exists (the_call rb cap false p a), (w_actions w). split; [|done]. exists a. by split_and!.
Qed.

Lemma try_provider_reached rb cap write p w :
  calls_provider (try_provider self env rb cap write b payload p) w ->
  exists c s' secret, custody env (PyValue.get b "credential_id") = Ok secret
    /\ reached_with rb cap write p secret (w_actions w) s' c
    /\ try_provider self env rb cap write b payload p w
       = ({| w_actions := s'; w_calls := w_calls w ++ [c] |},
          Ok {| at_started := write; at_result := provider_says c |}).
Proof.
  unfold calls_provider, try_provider. destruct (_ ≫= _) as [e|]; [done|].
  destruct (custody env _) as [secret|e]; [|done]. intros H.
  destruct (provider_operation_reached _ _ _ _ _ _ H) as (c & s' & Hr & E). by exists c, s', secret.
Qed.

(** What held along a dispatch that called its provider with [c], from the
    repository [s0] where the dispatch began: [s2'] after the approval was
    consumed, [s3'] after the lease was, [s4'] after the mark. *)
Definition dispatched_with (rb : option CapabilityBinding) (cap : string) (write : bool)
    (s0 : actions) (c : provider_call) (s4' : actions) (p : option proposal) : Prop :=
  exists s2' s3' secret,
    (let s2 := perform_all (others env 2) s0 in
     if write then exists q, p = Some q /\ consume_approval b (clock env 2) s2 = (s2', Ok (Some q))
     else p = None /\ s2' = s2)
    /\ consume_lease lease b (clock env 3) (perform_all (others env 3) s2') = (s3', Ok true)
    /\ custody env (PyValue.get b "credential_id") = Ok secret
    /\ reached_with rb cap write p secret s3' s4' c.

(** The end of a dispatch, once the provider was called with [c]. *)
Definition settled (write : bool) (p : option proposal) (c : provider_call) : bm answer :=
  match provider_says c with
  | Err e => settle_failure env write p {| at_started := write; at_result := Err e |} e
  | Ok receipt => settle_success self env write b payload p receipt
  end.

Lemma dispatch_effect_reached rb cap write w :
  calls_provider (dispatch_effect self env lease rb cap write b payload) w ->
  exists c s4' p, dispatched_with rb cap write (w_actions w) c s4' p
    /\ dispatch_effect self env lease rb cap write b payload w
       = settled write p c {| w_actions := s4'; w_calls := w_calls w ++ [c] |}.
Proof.
  intros H. pose proof H as Hk. unfold dispatch_effect in Hk.
  apply bind_reached in Hk as ([p|a] & w1 & Hc & Hq & Hk); [|done|by apply quiet_consume].
  destruct (consume_passed _ _ _ _ Hc) as (s2' & Hp & Hl).
  assert (calls_provider (try_provider self env rb cap write b payload p) w1) as Ht.
  { intros E. apply Hk. unfold stm_bind.
    destruct (try_provider _ _ _ _ _ _ _ _ w1) as [w2 [t|e]] eqn:Et; [|exact E]. simpl in E.
    destruct (at_result t); [rewrite (quiet_settle_success _ _ _ _ _ _ _ _)|rewrite (quiet_settle_failure _ _ _ _ _ _)]; exact E. }
  destruct (try_provider_reached _ _ _ _ _ Ht) as (c & s4' & secret & Hs & Hr & E).
  exists c, s4', p. split.
  { exists s2', (w_actions w1), secret. by split_and!. }
  unfold dispatch_effect, stm_bind at 1. rewrite Hc. unfold stm_bind. rewrite E, Hq. cbn [at_result].
  unfold settled. by destruct (provider_says c).
Qed.

(** ** Clearance *)

(** The runtime the dispatch was bound to, when a registry is configured. *)
Definition runtime_bound (rb : option CapabilityBinding) : Prop :=
  forall r, runtime_registry self = Some r ->
    exists sn x, rb = Some x /\ Runtime.from_mapping (PyValue.get b "connection_snapshot") = Some sn
      /\ resolve r sn (rollout self) = Some x
      /\ py_eqb (sn_connection_id sn) (PyValue.get b "connection_id") = true
      /\ py_eqb (sn_tenant_id sn) (PyValue.get b "tenant_id") = true
      /\ schema_valid self payload (input_schema (cb_definition x)) = true.

(** Everything that had to hold before a provider was called. *)
Record clearance (rb : option CapabilityBinding) (cap : string) (w0 : world) (s : actions) : Prop := {
  ck_gate : _gate_allows (dispatch_policy self b) = true;
  ck_lease : exists w1, lift (validate_lease lease b (clock env 0))
      {| w_actions := perform_all (others env 0) (w_actions w0); w_calls := w_calls w0 |} = (w1, Ok true);
  ck_capability : PyValue.get b "capability_id" = VStr cap;
  ck_runtime : runtime_bound rb;
  ck_credential : exists f, credential_authorizer self = Some f /\ f b = Ok true;
  ck_policy : dynamic_binding b = true ->
    policy_agrees;
  ck_write : side_effecting rb cap = true ->
    agent_verified
    /\ payload_bound
    /\ eligible_now cap;
  ck_state : s = perform_all (others env 0 ++ if side_effecting rb cap then others env 1 else [])
                   (w_actions w0);
}.

Lemma validate_same lease' b' now s : (validate_lease lease' b' now s).1 = s.
Proof.
  unfold validate_lease. destruct (negb _); [done|]. unfold stm_bind, params_ok, stm_get.
  by destruct (forallb _ _).
Qed.

(** An early answer calls no provider, so its check let the dispatch go on. *)
Lemma or_answer_passed (m : bm (option answer)) (k : bm answer) w :
  quiet m -> calls_provider (or_answer m k) w ->
  exists w1, m w = (w1, Ok None) /\ w_calls w1 = w_calls w /\ calls_provider k w1
    /\ or_answer m k w = k w1.
Proof.
  intros Hq H. destruct (or_answer_reached _ _ _ Hq H) as (w1 & Hm & Hc & Hk).
  exists w1. split_and!; try done. unfold or_answer, stm_bind. by rewrite Hm.
Qed.
Lemma quiet_if {A} (c : bool) (m1 m2 : bm A) : quiet m1 -> quiet m2 -> quiet (if c then m1 else m2).
Proof. by destruct c. Qed.

Lemma execute_checked_reached rb cap w w0 :
  w_actions w = perform_all (others env 0) (w_actions w0) -> w_calls w = w_calls w0 ->
  _gate_allows (dispatch_policy self b) = true ->
  (exists w1, lift (validate_lease lease b (clock env 0)) w = (w1, Ok true)) ->
  PyValue.get b "capability_id" = VStr cap -> resolve_runtime self b = Some rb ->
  calls_provider (execute_checked self env lease rb cap b payload) w ->
  let write := side_effecting rb cap in
  exists s c s4' p, clearance rb cap w0 s /\ dispatched_with rb cap write s c s4' p
    /\ execute_checked self env lease rb cap b payload w
       = settled write p c {| w_actions := s4'; w_calls := w_calls w0 ++ [c] |}.
Proof.
  intros Hw0 Hc0 Hgate Hlease Hcap Hrt H write. pose proof H as Hk. unfold execute_checked in Hk.
  fold write in Hk. destruct (match rb with Some _ => _ | None => false end) eqn:Esch; [done|].
  apply bind_reached in Hk as (au & w1 & Hau & Hc1 & Hk).
  2: { destruct (credential_authorizer self) as [f|]; [destruct (f b)|]; quieten. }
  destruct au; [|done]. cbn [negb] in Hk.
  assert (w1 = w /\ exists f, credential_authorizer self = Some f /\ f b = Ok true) as [-> Hcred].
  { destruct (credential_authorizer self) as [f|]; [|done].
    destruct (f b) as [x|e] eqn:Ef; [|done]. injection Hau as -> ->. split; [done|]. by exists f. }
  destruct (bool_decide _ && _) eqn:E503; [done|].
  apply or_answer_passed in Hk as (w1 & Hcw & Hcc1 & Hk & E1);
    [|apply quiet_if; [apply quiet_check_write|apply leaves_ret]].
  apply or_answer_passed in Hk as (w2 & Hcp & Hcc2 & Hk & E2);
    [|apply quiet_if; [apply quiet_check_policy|apply leaves_ret]].
  apply or_answer_passed in Hk as (w3 & Hce & Hcc3 & Hk & E3);
    [|apply quiet_if; [apply quiet_check_eligibility|apply leaves_ret]].
  destruct (dispatch_effect_reached _ _ _ _ Hk) as (c & s4' & p & Hd & E).
  assert (w2 = w1 /\ (dynamic_binding b = true -> policy_agrees)) as [-> Hpol].
  { destruct (dynamic_binding b); [|by injection Hcp as <-].
    destruct (check_policy_passed _ _ Hcp) as [-> Hp]. split; [done|]. intros _. exact Hp. }
  assert (w3 = w1 /\ (write = true -> eligible_now cap)) as [-> Hel].
  { destruct write; [|by injection Hce as <-].
    destruct (check_eligibility_passed _ _ _ Hce) as [-> Hp]. split; [done|]. intros _. exact Hp. }
  assert (w_actions w1 = perform_all (others env 0 ++ if write then others env 1 else []) (w_actions w0)
    /\ (write = true -> agent_verified /\ payload_bound)) as [Hst Hwr].
  { rewrite perform_all_app, <- Hw0. destruct write; [|by injection Hcw as <-].
    destruct (check_write_passed _ _ Hcw) as [-> Hp]. split; [done|]. intros _. exact Hp. }
  exists (w_actions w1), c, s4', p. split; [|split; [exact Hd|]].
  - split; try done.
    + destruct Hlease as (w' & Hl). exists w'. rewrite <- Hw0, <- Hc0. by destruct w.
    + intros r Hr. unfold resolve_runtime in Hrt. rewrite Hr in Hrt.
      destruct (Runtime.from_mapping _) as [sn|] eqn:Es; [|done].
      destruct (py_neqb _ _ || py_neqb _ _) eqn:Ep; [done|].
      destruct (resolve r sn (rollout self)) as [x|] eqn:Ex; [|done]. injection Hrt as <-.
      apply orb_false_iff in Ep as [Ep1%negb_false_iff Ep2%negb_false_iff].
      exists sn, x. split_and!; try done. by apply negb_false_iff in Esch.
    + intros Hw. destruct (Hwr Hw) as [Hu Hh]. split_and!; try done. by apply Hel.
  - unfold execute_checked. fold write. rewrite Esch. unfold stm_bind at 1. rewrite Hau. cbn [negb].
    rewrite E503, E1, E2, E3, E. by rewrite Hcc1, Hc0.
Qed.

Lemma execute_reached w :
  calls_provider (execute self env lease b payload) w ->
  exists rb cap s c s4' p, clearance rb cap w s
    /\ dispatched_with rb cap (side_effecting rb cap) s c s4' p
    /\ execute self env lease b payload w
       = settled (side_effecting rb cap) p c {| w_actions := s4'; w_calls := w_calls w ++ [c] |}.
Proof.
  intros H. pose proof H as Hk. unfold execute in Hk.
  apply bind_reached in Hk as (u & w1 & Hy & Hc1 & Hk); [|apply quiet_yield].
  apply bind_reached in Hk as (ok & w2 & Hv & Hc2 & Hk); [|apply quiet_lift].
  destruct ok; [|done]. cbn [negb] in Hk.
  destruct (_gate_allows (dispatch_policy self b)) eqn:Eg; [|done]. cbn [negb] in Hk.
  assert (w2 = w1) as ->.
  { pose proof (broker_lift_ok _ _ _ _ Hv) as E. apply (f_equal fst) in E. rewrite validate_same in E. simpl in E.
    destruct w1, w2. simpl in *. by subst. }
  destruct (PyValue.get b "capability_id") as [| | |cap| |] eqn:Ecap; try done.
  destruct (resolve_runtime self b) as [rb|] eqn:Er; [|done].
  assert (w_actions w1 = perform_all (others env 0) (w_actions w)) as Ha1 by by injection Hy as <- _.
  destruct (execute_checked_reached rb cap w1 w Ha1 Hc1 Eg (ex_intro _ _ Hv) Ecap Er Hk)
    as (s & c & s4' & p & Hck & Hd & E).
  exists rb, cap, s, c, s4', p. split_and!; try done.
  unfold execute, stm_bind. rewrite Hy, Hv. cbn [negb]. rewrite Eg, Ecap, Er. exact E.
Qed.
End reached.

(** ** What reached a provider *)

Lemma collides_or_same v v' :
  canonical_payload_hash v = canonical_payload_hash v' -> norm v = norm v' \/ collides (dumps v) (dumps v').
Proof. apply hash_value_binds. Qed.

(** An approval handed out in a history: who proposed it and who approved it. *)
Lemma approval_origin h b now s' q :
  consume_approval b now (perform_all h no_actions) = (s', Ok (Some q)) ->
  now <= expires_at q
  /\ bind_text (PyValue.get b "payload_hash") = Some (payload_hash q)
  /\ bind_text (PyValue.get b "capability_id") = Some (p_capability q)
  /\ (exists sp g k, Propose sp g k ∈ h /\ proposed_as sp q)
  /\ exists t tenant, Decide (proposal_id q) (Actions.version q) (p_user q) true t tenant ∈ h
      /\ t <= expires_at q.
Proof.
  intros Hc. destruct (consume_inv _ _ _ _ _ Hc) as (q0 & v & n & Hq0 & Hb & -> & _).
  destruct (sanctioned_history h q0 Hq0) as [(sp & g & k & Hin & _ & Has) Hap]. unfold bound in Hb.
  rewrite !andb_true_iff, !text_eq_spec, Z.leb_le, p_in_one in Hb.
  destruct Hb as (((((((((((((((_ & _) & _) & _) & _) & H6) & H7) & _) & _) & _) & _) & _) & _)
    & H14) & H15) & _).
  rewrite H14 in Hap. specialize (Hap eq_refl). simpl. split_and!; try done. by exists sp, g, k.
Qed.

(** The authority made of the secret covers every scope the capability
    declares, as far as the provider says what it granted. *)
Definition granted_enough (self : ActionBroker) (env : surroundings) (b : binding)
    (rb : option CapabilityBinding) (cap : string) : Prop :=
  exists secret a, custody env (PyValue.get b "credential_id") = Ok secret
    /\ strategy_authority (refresh env)
         (match rb with Some r => cb_strategy r | None => RefreshedOAuth end) true secret = Ok a
    /\ truthy (required self rb cap) = true
    /\ (truthy (granted_scopes a) = true -> subset (map VStr (required self rb cap)) (granted_scopes a) = true).

Lemma settled_calls self env b payload write p c w :
  w_calls (settled self env b payload write p c w).1 = w_calls w.
Proof.
  unfold settled. destruct (provider_says env c); [apply quiet_settle_success|apply quiet_settle_failure].
Qed.

(** C3. Nothing reaches a provider uncleared.  When an execution calls a
    provider, the call carries the payload it was given and the capability the
    lease was consumed for; the control plane, the runtime, the credential and,
    for a workflow step, the live policy agreed; the provider granted every
    scope the capability declares.  A write was, moreover, proposed with that
    capability and (but for a SHA-256 collision) that very payload, approved by
    the user it names before it expired, and still unexpired when the approval
    was consumed, in the history the broker saw. *)
Theorem effect_was_cleared self env lease b payload cs calls c :
  let w := {| w_actions := perform_all cs no_actions; w_calls := calls |} in
  c ∈ w_calls (execute self env lease b payload w).1 -> c ∉ calls ->
  exists rb s,
    clearance self env lease b payload rb (pc_capability c) w s
    /\ pc_payload c = payload /\ pc_write c = side_effecting rb (pc_capability c)
    /\ (exists h s3, consume_lease lease b (clock env 3) (perform_all h no_actions) = (s3, Ok true))
    /\ granted_enough self env b rb (pc_capability c)
    /\ (pc_write c = true -> exists sp g k id v t tenant,
          let h := cs ++ others env 0 ++ others env 1 ++ others env 2 in
          Propose sp g k ∈ h /\ Decide id v (sp_user sp) true t tenant ∈ h
          /\ t <= sp_expires sp /\ clock env 2 <= sp_expires sp
          /\ pc_proposal c = Some (id, v) /\ sp_capability sp = pc_capability c
          /\ (norm (sp_payload sp) = norm (VDict payload)
              \/ collides (dumps (sp_payload sp)) (dumps (VDict payload)))).
Proof.
  intros w Hc Hnew.
  assert (calls_provider (execute self env lease b payload) w) as Hreach.
  { unfold calls_provider. cbn [w_calls w]. intros E. rewrite E in Hc. done. }
  destruct (execute_reached _ _ _ _ _ _ Hreach) as (rb & cap & s & c0 & s4 & p & Hck & Hd & E).
  rewrite E, settled_calls in Hc. cbn [w_calls w] in Hc.
  apply elem_of_app in Hc as [Hc|Hc]; [done|]. apply list_elem_of_singleton in Hc. subst c0.
  destruct Hd as (s2 & s3 & secret & Hcons & Hlease & Hcust & a & Ha & Hreq & Hsub & Ecall & Hmark).
  assert (pc_capability c = cap /\ pc_payload c = payload /\ pc_write c = side_effecting rb cap
    /\ pc_proposal c = key_of p) as (Ecap & Epay & Ewrite & Eprop) by by subst c.
  rewrite Ecap. exists rb, s. split; [done|]. split; [done|]. split; [done|].
  pose proof (ck_state _ _ _ _ _ _ _ _ _ Hck) as Hs. cbn [w_actions w] in Hs.
  split; [|split; [by exists secret, a|]].
  - destruct (side_effecting rb cap).
    + destruct Hcons as (q & -> & Hcons).
      exists (cs ++ (others env 0 ++ others env 1) ++ others env 2 ++ [Consume b (clock env 2)] ++ others env 3), s3.
      rewrite !perform_all_app. rewrite perform_all_app in Hs. rewrite <- Hs. simpl. by rewrite Hcons.
    + destruct Hcons as [-> ->].
      exists (cs ++ (others env 0 ++ []) ++ others env 2 ++ others env 3), s3.
      rewrite !perform_all_app. rewrite perform_all_app in Hs. by rewrite <- Hs.
  - rewrite Ewrite. intros Hw. destruct (ck_write _ _ _ _ _ _ _ _ _ Hck Hw) as (_ & Hbound & _).
    rewrite Hw in Hcons, Hs. destruct Hcons as (q & -> & Hcons).
    assert (perform_all (others env 2) s
      = perform_all (cs ++ others env 0 ++ others env 1 ++ others env 2) no_actions) as Eh.
    { rewrite Hs, !perform_all_app. done. }
    rewrite Eh in Hcons.
    destruct (approval_origin _ _ _ _ _ Hcons) as (Hexp & Hph & Hcap & (sp & g & k & Hin & Has) & t & tenant & Hdec & Ht).
    destruct Has as (Eu & _ & _ & Ec & _ & Eph & _ & _ & _ & _ & _ & Ee).
    exists sp, g, k, (proposal_id q), (Actions.version q), t, tenant. cbv zeta.
    rewrite <- Ee, <- Eu, <- Ec. split_and!; try done.
    + rewrite (ck_capability _ _ _ _ _ _ _ _ _ Hck) in Hcap. by injection Hcap as ->.
    + apply collides_or_same. rewrite <- Eph. unfold payload_bound in Hbound. rewrite Hbound in Hph.
      by injection Hph as <-.
Qed.

(** ** Sent once *)

(** The versions a history marks as dispatched, in order. *)
Definition mark_of (c : act) (s : actions) : list (string * Z) :=
  match c with
  | MarkDispatched id v now =>
      match (mark_dispatched id v now s).2 with Ok true => [(id, v)] | _ => [] end
  | _ => []
  end.
Fixpoint marks (cs : list act) (s : actions) : list (string * Z) :=
  match cs with [] => [] | c :: cs' => mark_of c s ++ marks cs' (perform c s) end.

Lemma marks_app cs cs' s : marks (cs ++ cs') s = marks cs s ++ marks cs' (perform_all cs s).
Proof.
  revert s. induction cs as [|c cs IH]; intros s; [done|]. simpl. by rewrite IH, app_assoc.
Qed.

Lemma mark_row id v now s s' :
  mark_dispatched id v now s = (s', Ok true) ->
  exists p, dispatch_row now p ∈ proposals s' /\ p_key p = (id, v) /\ pr_status p = executing.
Proof.
  intros H. unfold mark_dispatched, update_proposals in H. injection H as <- Hn.
  apply Nat.eqb_eq in Hn.
  destruct (List.filter (undispatched id v) (proposals s)) as [|p l] eqn:E; [done|].
  assert (p ∈ List.filter (undispatched id v) (proposals s)) as Hp by (rewrite E; left).
  apply in_filter in Hp as [Hp Hu]. pose proof Hu as Hu'.
  apply undispatched_spec in Hu' as (Hkey & Hst & _). exists p. split_and!; try done.
  simpl. apply list_elem_of_fmap. exists p. split; [by rewrite Hu|done].
Qed.

Lemma mark_once id v now s s' :
  mark_dispatched id v now s = (s', Ok true) ->
  exists p, p ∈ proposals s' /\ p_key p = (id, v) /\ sealed now p.
Proof.
  intros (p & Hp & Hkey & Hst)%mark_row. exists (dispatch_row now p).
  split; [done|]. split; [done|]. split; [done|]. simpl. by rewrite Hst.
Qed.

Lemma marks_fresh cs s p d :
  keyed proposals p_key s -> p ∈ proposals s -> sealed d p -> p_key p ∉ marks cs s.
Proof.
  revert s p. induction cs as [|c cs IH]; intros s p Hk Hp Hs; cbn [marks]; [apply not_elem_of_nil|].
  rewrite elem_of_app. intros [H|H].
  - destruct c; try by apply elem_of_nil in H. cbn [mark_of] in H.
    assert ((mark_dispatched id v now s).2 = Ok false) as E.
    { apply update_none. intros q Hq. apply not_true_iff_false. intros (Hkq & _ & Hdq)%undispatched_spec.
      destruct (mark_dispatched id v now s) as [s' [[]|]]; cbn [snd] in H; try by apply elem_of_nil in H.
      apply list_elem_of_singleton in H. rewrite (key_unique p_key (proposals s) q p Hk Hq Hp) in Hdq by congruence.
      destruct Hs. congruence. }
    rewrite E in H. by apply elem_of_nil in H.
  - destruct (sealed_history [c] s p d Hk Hp Hs) as (q & Hq & Hkq & Hsq).
    rewrite <- Hkq in H. revert H. apply IH; try done.
    by apply (history_keyed _ _ perform p_change p_new perform_tracks [c]).
Qed.

Lemma marks_NoDup cs s : keyed proposals p_key s -> NoDup (marks cs s).
Proof.
  revert s. induction cs as [|c cs IH]; intros s Hk; cbn [marks]; [constructor|].
  assert (keyed proposals p_key (perform c s)) as Hk'
    by by apply (history_keyed _ _ perform p_change p_new perform_tracks [c]).
  destruct c; try by apply IH. cbn [mark_of].
  destruct (mark_dispatched id v now s) as [s' [[|]|e]] eqn:E; cbn [snd]; try by apply IH.
  cbn [app]. constructor; [|by apply IH].
  destruct (mark_once id v now s s' E) as (p & Hp & Hkey & Hs). rewrite <- Hkey.
  cbn [perform] in *. rewrite E in *. by apply (marks_fresh _ _ p now).
Qed.

(** The approved versions a list of provider calls wrote for. *)
Definition written (calls : list provider_call) : list (string * Z) :=
  omap (fun c => if pc_write c then pc_proposal c else None) calls.
Lemma written_app l l' : written (l ++ l') = written l ++ written l'.
Proof. apply omap_app. Qed.

(** A broker step is a run of repository calls, and every write it sends was
    marked by one of them. *)
Definition accounted {A} (m : bm A) : Prop := forall w, exists cs calls,
  w_actions (m w).1 = perform_all cs (w_actions w) /\ w_calls (m w).1 = w_calls w ++ calls
  /\ sublist (written calls) (marks cs (w_actions w))
  /\ Forall (fun c => pc_write c = true -> is_Some (pc_proposal c)) calls.

Lemma accounted_same {A} (m : bm A) : (forall w, (m w).1 = w) -> accounted m.
Proof. intros H w. exists [], []. rewrite H, app_nil_r. split_and!; try done. Qed.
Lemma accounted_ret {A} (a : A) : accounted (stm_ret a : bm A).
Proof. by apply accounted_same. Qed.
Lemma accounted_raise {A} e : accounted (stm_raise e : bm A).
Proof. by apply accounted_same. Qed.
Lemma accounted_bind {A B} (m : bm A) (k : A -> bm B) :
  accounted m -> (forall a, accounted (k a)) -> accounted (stm_bind m k).
Proof.
  intros Hm Hk w. unfold stm_bind. destruct (Hm w) as (cs & calls & Ha & Hc & Hs & Hf).
  destruct (m w) as [w1 [a|e]]; [|by exists cs, calls]. cbn [fst] in *.
  destruct (Hk a w1) as (cs' & calls' & Ha' & Hc' & Hs' & Hf').
  exists (cs ++ cs'), (calls ++ calls'). rewrite perform_all_app, <- Ha, Hc', Hc, app_assoc, marks_app, written_app, <- Ha.
  split_and!; try done; [by apply sublist_app|by apply Forall_app].
Qed.
Lemma accounted_get {A} (k : world -> bm A) : (forall w, accounted (k w)) -> accounted (stm_bind stm_get k).
Proof. intros Hk. by apply accounted_bind; [apply accounted_same|]. Qed.
Lemma accounted_if {A} (b : bool) (m1 m2 : bm A) : accounted m1 -> accounted m2 -> accounted (if b then m1 else m2).
Proof. by destruct b. Qed.
Lemma accounted_acts {A} (m : bm A) (f : actions -> list act) :
  (forall w, (m w).1 = {| w_actions := perform_all (f (w_actions w)) (w_actions w); w_calls := w_calls w |}) ->
  accounted m.
Proof.
  intros H w. exists (f (w_actions w)), []. rewrite H, app_nil_r. split_and!; try done. apply sublist_nil_l.
Qed.
Lemma accounted_lift {A} (m : actm A) (c : act) : (forall s, (m s).1 = perform c s) -> accounted (lift m).
Proof.
  intros H. apply (accounted_acts _ (fun _ => [c])). intros w. unfold lift. simpl. rewrite <- H.
  by destruct (m (w_actions w)).
Qed.
Lemma accounted_yield env i : accounted (yield env i).
Proof. by apply (accounted_acts _ (fun _ => others env i)). Qed.
Lemma accounted_params l : accounted (lift (params_ok l)).
Proof. apply accounted_same. intros []. unfold lift, params_ok. by destruct (forallb _ _). Qed.
Lemma accounted_from_option {A} n (o : option A) : accounted (from_option n o).
Proof. apply accounted_same. by destruct o. Qed.
Lemma accounted_read call : pc_write call = false -> accounted (record_call call).
Proof.
  intros E w. exists [], [call]. cbn. rewrite E. split_and!; try done.
  constructor; [by rewrite E|constructor].
Qed.
Lemma accounted_mark {A} q now call (x y : A) :
  pc_proposal call = Some (p_key q) ->
  accounted (stm_bind (lift (mark_dispatched (proposal_id q) (Actions.version q) now))
    (fun marked => if negb marked then stm_ret x else stm_bind (record_call call) (fun _ => stm_ret y))).
Proof.
  intros Hp w. exists [MarkDispatched (proposal_id q) (Actions.version q) now].
  unfold stm_bind, lift, record_call, stm_modify, stm_ret. cbn [marks mark_of perform_all perform fold_left].
  destruct (mark_dispatched _ _ _ _) as [s' [[|]|e]] eqn:E; cbn [negb fst snd w_actions w_calls].
  - exists [call]. split_and!; try done.
    + cbn. rewrite Hp. destruct (pc_write call); [done|apply sublist_nil_l].
    + constructor; [by rewrite Hp|constructor].
  - exists []. rewrite app_nil_r. by split_and!.
  - exists []. rewrite app_nil_r. by split_and!.
Qed.

Ltac accounting :=
  repeat match goal with
  | |- accounted (yield _ _) => apply accounted_yield
  | |- accounted (lift (params_ok _)) => apply accounted_params
  | |- accounted (lift (validate_lease ?l ?b ?n)) => by apply (accounted_lift _ (ValidateLease l b n))
  | |- accounted (lift (consume_approval ?b ?n)) => by apply (accounted_lift _ (Consume b n))
  | |- accounted (lift (consume_lease ?l ?b ?n)) => by apply (accounted_lift _ (ConsumeLease l b n))
  | |- accounted (lift (recover_pre_dispatch_claim ?i ?v)) => by apply (accounted_lift _ (RecoverClaim i v))
  | |- accounted (lift (fail_execution ?i ?v ?r ?n ?u)) => by apply (accounted_lift _ (FailAction i v r n u))
  | |- accounted (lift (complete_execution ?i ?v ?r ?n ?x)) => by apply (accounted_lift _ (CompleteAction i v r n x))
  | |- accounted (from_option _ _) => apply accounted_from_option
  | |- accounted (stm_bind stm_get _) => apply accounted_get; intros ?
  | |- accounted (stm_bind _ _) => apply accounted_bind; [|intros ?]
  | |- accounted (if _ then _ else _) => apply accounted_if
  | |- accounted (match ?x with _ => _ end) => destruct x
  | |- accounted (stm_ret _) => apply accounted_ret
  | |- accounted (stm_raise _) => apply accounted_raise
  end.

Section accounted.
Context (self : ActionBroker) (env : surroundings).

Lemma accounted_provider_operation rb cap write b payload p secret :
  accounted (provider_operation self env rb cap write b payload p secret).
Proof.
  unfold provider_operation. destruct (strategy_authority _ _ _ _) as [a|e]; [|apply accounted_ret].
  apply accounted_if; [apply accounted_ret|]. apply accounted_if; [apply accounted_ret|].
  destruct write; [|apply accounted_bind; [by apply accounted_read|intros; apply accounted_ret]].
  apply accounted_bind; [apply accounted_yield|intros _].
  destruct p as [q|]; [by apply accounted_mark|].
  by apply accounted_same.
Qed.

Lemma accounted_execute lease b payload : accounted (execute self env lease b payload).
Proof.
  unfold execute, execute_checked, or_answer, check_write, check_policy, check_eligibility,
    dispatch_effect, consume_authority, settle_failure, settle_success, _evidence_response, try_provider.
  cbv zeta. accounting. all: try apply accounted_provider_operation.
Qed.
End accounted.

(** Brokers serving requests one after the other, each with the calls of the
    others between its own. *)
Record request := {
  rq_broker : ActionBroker; rq_env : surroundings; rq_lease : string; rq_binding : binding;
  rq_payload : dict }.
Definition serve (w : world) (r : request) : world :=
  (execute (rq_broker r) (rq_env r) (rq_lease r) (rq_binding r) (rq_payload r) w).1.
Definition serve_all (rs : list request) (w : world) : world := fold_left serve rs w.

Lemma serve_accounted rs w :
  exists cs calls, w_actions (serve_all rs w) = perform_all cs (w_actions w)
  /\ w_calls (serve_all rs w) = w_calls w ++ calls
  /\ sublist (written calls) (marks cs (w_actions w))
  /\ Forall (fun c => pc_write c = true -> is_Some (pc_proposal c)) calls.
Proof.
  assert (accounted (fun w => (serve_all rs w, Ok tt))) as H; [|exact (H w)].
  induction rs as [|r rs IH]; [by apply accounted_same|].
  intros w0. apply (accounted_bind (fun w => (serve w r, Ok tt)) (fun _ w => (serve_all rs w, Ok tt))).
  - exact (accounted_execute (rq_broker r) (rq_env r) (rq_lease r) (rq_binding r) (rq_payload r)).
  - intros _. exact IH.
Qed.


(** ** What one execution leaves *)

(** The row of a write that was sent, by what the broker answered: the status
    the answer stands for. *)
Definition record_fits (answered : result broker_error answer) (st : proposal_status) : Prop :=
  match answered with
  | Ok (code, body) =>
      if Z.eqb code 200 then st = p_completed
      else if Z.eqb code 202 then st = p_unknown
      else st = p_failed /\ exists e, caught e = true /\ is_network e = false
                                     /\ (code, body) = _safe_provider_error e
  | Err _ => st = executing
  end.

Lemma failure_code e : caught e = true -> is_network e = false ->
  (_safe_provider_error e).1 <> 200 /\ (_safe_provider_error e).1 <> 202.
Proof.
  unfold caught, is_network, _safe_provider_error, slack_status. intros _.
  destruct (kind e); repeat case_match; cbn; try done; lia.
Qed.

(** Updating the executing row of a key. *)
Lemma update_executing r (l : list proposal) id v sts f :
  r ∈ l -> p_key r = (id, v) -> p_in sts r = true ->
  f r ∈ map (fun p => if is_proposal id v p && p_in sts p then f p else p) l.
Proof.
  intros Hr Hk Hs. apply list_elem_of_fmap. exists r. split; [|done].
  assert (is_proposal id v r = true) as -> by by rewrite is_proposal_key. by rewrite Hs.
Qed.

Lemma settle_failure_fits env q now r t e w :
  others env 5 = [] -> dispatch_row now r ∈ proposals (w_actions w) -> p_key r = p_key q ->
  pr_status r = executing -> at_started t = true ->
  let out := settle_failure env true (Some q) t e w in
  exists r', r' ∈ proposals (w_actions out.1) /\ p_key r' = p_key q /\ dispatched_at r' = Some now
    /\ (caught e = true -> failure_reason r' = Some (take_chars 500 (message e)))
    /\ out.2 = (if caught e then Ok (if is_network e then (202, [("status", VStr "execution_unknown")])
                                     else _safe_provider_error e)
                else Err (Uncaught (class_name e)))
    /\ pr_status r' = (if caught e then if is_network e then p_unknown else p_failed else executing).
Proof.
  intros H5 Hr Hkey Hst Hat. unfold settle_failure. rewrite Hat. cbn [andb].
  destruct (caught e) eqn:Ec; cbn [negb].
  - unfold stm_bind, yield, lift, stm_ret. rewrite H5. cbn [perform_all fold_left w_actions w_calls].
    unfold fail_execution, update_proposals. cbn [fst snd w_actions proposals with_proposals].
    eexists. split; [apply (update_executing (dispatch_row now r)); [exact Hr|exact Hkey|]|].
    { by rewrite p_in_one. }
    by split_and!.
  - exists (dispatch_row now r). by split_and!.
Qed.

Lemma settle_success_fits self env b payload q now r receipt w :
  others env 7 = [] -> dispatch_row now r ∈ proposals (w_actions w) -> p_key r = p_key q ->
  pr_status r = executing ->
  let out := settle_success self env true b payload (Some q) receipt w in
  exists r', r' ∈ proposals (w_actions out.1) /\ p_key r' = p_key q
    /\ ((exists body, out.2 = Ok (200, body)) /\ pr_status r' = p_completed
        \/ (exists e, out.2 = Err e) /\ pr_status r' = executing).
Proof.
  intros H7 Hr Hkey Hst. unfold settle_success.
  assert (forall response (body : dict), exists r',
    let out := (stm_bind (yield env 7) (fun _ => stm_bind (lift (complete_execution (proposal_id q)
      (Actions.version q) receipt (clock env 7) response)) (fun _ => stm_ret (200, body : dict)))) w in
    r' ∈ proposals (w_actions out.1) /\ p_key r' = p_key q
    /\ ((exists body, out.2 = Ok (200, body)) /\ pr_status r' = p_completed
        \/ (exists e, out.2 = Err e) /\ pr_status r' = executing)) as Hdone.
  { intros response body. unfold stm_bind, yield, lift, stm_ret. rewrite H7.
    cbn [perform_all fold_left w_actions w_calls].
    unfold complete_execution, update_proposals. cbn [fst snd w_actions proposals with_proposals].
    eexists. split; [apply (update_executing (dispatch_row now r)); [exact Hr|exact Hkey|]|].
    { by rewrite p_in_two; left. }
    split; [done|]. left. split; [by eexists|done]. }
  destruct (attestor self) as [create|]; [|apply Hdone].
  unfold _evidence_response. destruct (create _ _ _ _) as [a|n].
  - destruct (dget a "attestation_id"); [apply Hdone|].
    exists (dispatch_row now r). split; [done|]. split; [done|]. right. split; [by eexists|done].
  - exists (dispatch_row now r). split; [done|]. split; [done|]. right. split; [by eexists|done].
Qed.

(** An execution that called its provider: with what, and what it left. *)
Lemma execute_sent self env lease b payload w :
  let out := execute self env lease b payload w in
  calls_provider (execute self env lease b payload) w ->
  exists c, w_calls out.1 = w_calls w ++ [c] /\ pc_payload c = payload
    /\ PyValue.get b "capability_id" = VStr (pc_capability c)
    /\ (pc_write c = true ->
         exists p, pc_proposal c = Some (p_key p)
         /\ bind_text (PyValue.get b "proposal_id") = Some (proposal_id p)
         /\ truthy (PyValue.get b "proposal_id") = true
         /\ (others env 5 = [] -> others env 7 = [] ->
              exists q, q ∈ proposals (w_actions out.1) /\ p_key q = p_key p
                /\ record_fits out.2 (pr_status q))).
Proof.
  intros out Hreach.
  destruct (execute_reached _ _ _ _ _ _ Hreach) as (rb & cap & s & c & s4 & p & Hck & Hd & E).
  unfold out. clear out. rewrite E. exists c. rewrite settled_calls. split; [done|].
  destruct Hd as (s2 & s3 & secret & Hcons & _ & _ & a & _ & _ & _ & Ecall & Hmark).
  pose proof (ck_capability _ _ _ _ _ _ _ _ _ Hck) as Hcap.
  assert (pc_write c = side_effecting rb cap /\ pc_proposal c = key_of p /\ pc_payload c = payload
    /\ pc_capability c = cap) as (Ew & Ep & Epay & Ecap) by by subst c.
  rewrite Epay, Ecap. split; [done|]. split; [done|]. rewrite <- Ew in *. clear Ew. intros Hw. rewrite Hw in *.
  destruct Hmark as (q & -> & Hm). destruct Hcons as (q' & [= <-] & Hcons).
  exists q. split; [done|].
  assert (truthy (PyValue.get b "proposal_id") = true) as Hid.
  { unfold consume_approval in Hcons. destruct (existsb _ REQUIRED) eqn:Er; [done|].
    unfold REQUIRED in Er. cbn [existsb] in Er. apply orb_false_iff in Er as [Er _]. by apply negb_false_iff. }
  destruct (consume_inv _ _ _ _ _ Hcons) as (q0 & v & n & _ & Hb & -> & _).
  unfold bound in Hb. rewrite !andb_true_iff, !text_eq_spec in Hb.
  split; [simpl; intuition|]. split; [done|]. intros H5 H7.
  destruct (mark_row _ _ _ _ _ Hm) as (r & Hr & Hkey & Hst).
  unfold settled. destruct (provider_says env c) as [receipt|e].
  - destruct (settle_success_fits self env b payload (start_row (clock env 2) q0) (clock env 4) r receipt
      {| w_actions := s4; w_calls := w_calls w ++ [c] |} H7 Hr Hkey Hst) as (r' & Hr' & Hk' & Hans).
    exists r'. split; [done|]. split; [done|].
    destruct Hans as [[[body ->] Hs]|[[e ->] Hs]]; exact Hs.
  - destruct (settle_failure_fits env (start_row (clock env 2) q0) (clock env 4) r
      {| at_started := true; at_result := Err e |} e
      {| w_actions := s4; w_calls := w_calls w ++ [c] |} H5 Hr Hkey Hst eq_refl)
      as (r' & Hr' & Hk' & _ & _ & -> & Hs).
    exists r'. split; [done|]. split; [done|]. rewrite Hs. unfold record_fits.
    destruct (caught e) eqn:Ec; [|done]. destruct (is_network e) eqn:En; [done|].
    destruct (failure_code e Ec En) as [H200 H202].
    destruct (_safe_provider_error e) as [code body] eqn:Ee. cbn [fst] in *.
    apply Z.eqb_neq in H200, H202. rewrite H200, H202. split; [done|]. by exists e.
Qed.

(** ** When the provider fails *)

(** Every way a write can fail at its provider is settled.  When nothing
    else touches the row meanwhile, a network failure leaves the outcome
    unknown, for reconciliation; every other failure the broker knows, raised
    by the provider or by the check of its receipt, is recorded as failed and
    answered as one that is safe to repeat; and one it does not know leaves the
    row executing and dispatched, for the sweep. *)
Theorem failed_write_is_settled self env lease b payload w c e :
  let out := execute self env lease b payload w in
  w_calls out.1 = w_calls w ++ [c] -> pc_write c = true -> others env 5 = [] ->
  provider_says env c = Err e ->
  exists q, q ∈ proposals (w_actions out.1) /\ pc_proposal c = Some (p_key q)
    /\ dispatched_at q = Some (clock env 4)
    /\ if caught e
       then pr_status q = (if is_network e then p_unknown else p_failed)
            /\ failure_reason q = Some (take_chars 500 (message e))
            /\ out.2 = Ok (if is_network e then (202, [("status", VStr "execution_unknown")])
                           else _safe_provider_error e)
       else pr_status q = executing /\ out.2 = Err (Uncaught (class_name e)).
Proof.
  intros out Hcalls Hw H5 Hsays.
  assert (calls_provider (execute self env lease b payload) w) as Hreach.
  { unfold calls_provider. fold out. rewrite Hcalls. intros E. apply (f_equal length) in E.
    rewrite length_app in E. simpl in E. lia. }
  destruct (execute_reached _ _ _ _ _ _ Hreach) as (rb & cap & s & c0 & s4 & p & Hck & Hd & E).
  unfold out in *. clear out. rewrite E, settled_calls in Hcalls. cbn [w_calls] in Hcalls.
  apply app_inj_2 in Hcalls as [_ Ec]; [|done]. injection Ec as ->.
  destruct Hd as (s2 & s3 & secret & Hcons & _ & _ & a & _ & _ & _ & Ecall & Hmark).
  assert (pc_write c = side_effecting rb cap /\ pc_proposal c = key_of p) as [Ewrite Eprop] by by subst c.
  rewrite <- Ewrite, Hw in *. destruct Hmark as (q & -> & Hm). clear Ewrite.
  destruct (mark_row _ _ _ _ _ Hm) as (r & Hr & Hkey & Hst). rewrite E. unfold settled. rewrite Hsays.
  destruct (settle_failure_fits env q (clock env 4) r {| at_started := true; at_result := Err e |} e
    {| w_actions := s4; w_calls := w_calls w ++ [c] |} H5 Hr Hkey Hst eq_refl)
    as (r' & Hr' & Hk' & Hd' & Hf & -> & Hs).
  exists r'. split; [done|]. split; [by rewrite Eprop, Hk'|]. split; [done|].
  destruct (caught e); [|done]. split; [done|]. split; [by apply Hf|done].
Qed.

(** The receipt of a write the provider carried out can be refused (it is too
    large, too deep, or has a key named like a credential): the write is then
    recorded as failed and answered with a status and a certainty that make
    its caller repeat it. *)
Lemma refused_receipt_counts_as_failed env c v e :
  provider_client env c = Ok v -> _safe_receipt v = Err e ->
  provider_says env c = Err e /\ caught e = true /\ is_network e = false
  /\ (_safe_provider_error e).1 = 502 /\ PyValue.get (_safe_provider_error e).2 "outcome_certainty" = VStr "safe".
Proof.
  intros Hv He. unfold provider_says. rewrite Hv. split; [done|].
  assert (exists m, e = value_error m) as [m ->]; [|done].
  revert He. unfold _safe_receipt. destruct v; try by intros [= <-]; eexists.
  destruct (inspect _ _ _); [|by intros [= <-]; eexists]. case_match; [|done]. intros [= <-]. by eexists.
Qed.

(** ** A person decides *)

(** [get] without a version: the newest row in scope. *)
Lemma get_newest s id tenant p :
  p ∈ proposals s -> proposal_id p = id ->
  tenant_scope (match tenant with Some t => VStr t | None => VNone end) (p_tenant p) = true ->
  exists q, Actions.get s id None tenant = Some q /\ q ∈ proposals s /\ proposal_id q = id
    /\ Actions.version p <= Actions.version q.
Proof.
  intros Hp Hid Ht. unfold Actions.get.
  set (mine := List.filter _ _).
  assert (p ∈ mine) as Hm.
  { apply in_filter. split; [done|]. by rewrite Hid, String.eqb_refl, Ht. }
  assert (forall q, q ∈ mine -> q ∈ proposals s /\ proposal_id q = id) as Hmine.
  { intros q Hq. apply in_filter in Hq as [Hq [E%String.eqb_eq _]%andb_true_iff]. done. }
  enough (match fold_right (fun p best => match best with
      | Some q => if Actions.version q <? Actions.version p then Some p else best
      | None => Some p end) None mine with
    | Some y => y ∈ proposals s /\ proposal_id y = id
                /\ forall q, q ∈ mine -> Actions.version q <= Actions.version y
    | None => mine = [] end) as H.
  { destruct (fold_right _ None mine) as [y|]; [|subst mine; rewrite H in Hm; by apply elem_of_nil in Hm].
    destruct H as (Hy & Hyid & Hmax). exists y. split_and!; try done. by apply Hmax. }
  clearbody mine. clear Hm. induction mine as [|x l IH]; [done|]. simpl.
  destruct (Hmine x) as [Hx Hxid]; [by left|].
  specialize (IH (fun q Hq => Hmine q (list_elem_of_further q x l Hq))).
  destruct (fold_right _ None l) as [y|].
  - destruct IH as (Hy & Hyid & Hmax).
    destruct (Z.ltb_spec (Actions.version y) (Actions.version x)); split_and!; try done;
      intros q [->|Hq]%elem_of_cons; try lia; specialize (Hmax q Hq); lia.
  - subst l. split_and!; try done. intros q ->%list_elem_of_singleton. lia.
Qed.

(** An approval is a person's, and a reinforced one needs them present.
    When the broker answers that a proposal was approved, the session was live,
    its CSRF token matched, the row was proposed to the session's own
    principal and unexpired, and if the effect is reinforced the session had
    freshly authenticated. *)
Theorem approval_needs_presence ss cs id body now s' answer_body :
  decide_request ss id body now (perform_all cs no_actions) = (s', Ok (200, answer_body)) ->
  PyValue.get (as_mapping body) "approved" = VBool true ->
  exists who p, current ss = Some who /\ csrf_matches ss = true
    /\ p ∈ proposals (perform_all cs no_actions) /\ proposal_id p = id
    /\ as_number (PyValue.get (as_mapping body) "version") = Some (Actions.version p)
    /\ p_user p = s_principal who /\ pr_status p = proposed /\ now <= expires_at p
    /\ (Actions.reinforced p = true ->
         exists a, authentication_attestation ss = Some a /\ PyValue.get a "fresh" = VBool true).
Proof.
  set (s := perform_all cs no_actions). unfold decide_request. intros H Hyes.
  destruct (current ss) as [who|]; [|done]. destruct (csrf_matches ss) eqn:Ec; [|done]. cbn [negb] in H.
  destruct (as_number _) as [v|]; [|done]. rewrite Hyes in H.
  destruct (_reinforced_step_up_failure ss s id true (s_tenant who)) as [[]|] eqn:Er.
  { injection H as _ -> _. exfalso. revert Er. unfold _reinforced_step_up_failure. repeat case_match; done. }
  destruct (Actions.decide id v (s_principal who) true now (s_tenant who) s) as [s1 r] eqn:Ed.
  destruct r as [[|]|e]; try done. unfold Actions.decide, update_proposals in Ed. injection Ed as _ Hn.
  apply Nat.eqb_eq in Hn.
  match type of Hn with length ?l = _ => destruct l as [|p l'] eqn:E; [done|] end.
  assert (p ∈ p :: l') as Hp by left. rewrite <- E in Hp. apply in_filter in Hp as [Hp Hm].
  rewrite orb_false_r, !andb_true_iff, is_proposal_key, String.eqb_eq, bool_decide_eq_true, Z.leb_le in Hm.
  destruct Hm as ((((Hk & Hu) & Hst) & Hx) & Ht). unfold p_key in Hk. injection Hk as Hid Hv.
  exists who, p. split_and!; try done; [by rewrite Hv|]. intros Hrf.
  destruct (get_newest s id (s_tenant who) p Hp Hid Ht) as (q & Hg & Hq & Hqid & Hle).
  assert (q = p) as ->.
  { apply (key_unique p_key (proposals s)); [apply built_actions|done|done|].
    pose proof (last_open_history cs p q Hp Hq (eq_trans Hqid (eq_sym Hid)) Hst). unfold p_key. f_equal; [congruence|lia]. }
  unfold _reinforced_step_up_failure in Er. cbn [negb] in Er. rewrite Hg, Hrf in Er. cbn [negb] in Er.
  destruct (authentication_attestation ss) as [a|]; [|done]. exists a. split; [done|].
  destruct (PyValue.get a "fresh") as [|[]| | | |]; done.
Qed.

(** ** Examples *)

Definition demo_payload : dict := [("raw", VStr "hello")].
Definition demo_mail : proposal_spec := {|
  sp_user := "ana"; sp_agent := "agent"; sp_credential := "cred"; sp_capability := "gmail.send";
  sp_payload := VDict demo_payload; sp_expires := 100; sp_id := Some "p1"; sp_key := Some "key-1";
  sp_revision := Some "legacy"; sp_step := "legacy"; sp_graph_hash := "legacy";
  sp_connection := "legacy"; sp_attempt := 0; sp_profile := "bot"; sp_profile_id := None;
  sp_subject := None; sp_reinforced := false; sp_tenant := Some "t" |}.
Definition demo_mail_lease : lease_spec := {|
  ls_user := "ana"; ls_agent := "agent"; ls_task := "task"; ls_credential := "cred";
  ls_capabilities := ["gmail.send"]; ls_expires := 90; ls_revision := "legacy"; ls_step := "legacy";
  ls_graph_hash := "legacy"; ls_connection := "legacy"; ls_attempt := 0; ls_profile := "bot";
  ls_profile_id := None; ls_subject := None; ls_tenant := Some "t" |}.
Definition demo_mail_binding : binding := [
  ("proposal_id", VStr "p1"); ("version", VInt 1); ("user_principal_id", VStr "ana");
  ("agent_principal_id", VStr "agent"); ("credential_id", VStr "cred");
  ("capability_id", VStr "gmail.send"); ("task_id", VStr "task");
  ("payload_hash", VStr (canonical_payload_hash (VDict demo_payload)));
  ("idempotency_key", VStr "key-1"); ("tenant_id", VStr "t")].
Definition demo_history : list act := [
  Propose demo_mail "x" "y"; Decide "p1" 1 "ana" true 10 (Some "t"); IssueLease demo_mail_lease 11 "tok"].
Definition demo_world : world := {| w_actions := perform_all demo_history no_actions; w_calls := [] |}.
Definition demo_broker : ActionBroker := {|
  dispatch_policy _ := Bool true; runtime_registry := None; rollout := "production-v1";
  schema_valid _ _ := true;
  credential_authorizer := Some (oauth_connection_authorizer (fun _ _ => None)
    (fun _ => Some [("status", VStr "connected"); ("credential_id", VStr "cred");
                    ("enabled_capabilities", VList [VStr "gmail.send"])]));
  credential_connector := Some (fun _ => ["mail.send"]);
  agent_url_resolver := Some (fun _ => Some "https://agent"); identity_verifier _ _ := true;
  policy_evaluator := None; connection_resolver := None; live_eligibility := None;
  credential_rotators _ := None; attestor := None; evidence_submitter := None |}.
Definition demo_env (reply : result provider_exn pyval) : surroundings := {|
  clock _ := 20; others _ := [];
  custody _ := Ok {| as_text := Some "refresh"; as_document := None |};
  refresh _ := Ok ("token", VList [VStr "mail.send"]);
  provider_client _ := reply |}.
Definition demo_run (reply : result provider_exn pyval) : world * result broker_error answer :=
  execute demo_broker (demo_env reply) "tok" demo_mail_binding demo_payload demo_world.
Definition accepted : result provider_exn pyval :=
  Ok (VDict [("provider", VStr "google"); ("provider_id", VStr "m-1")]).

Example demo_sends : (demo_run accepted).2
  = Ok (200, [("receipt", VDict [("provider", VStr "google"); ("provider_id", VStr "m-1")])]).
Proof. vm_compute. reflexivity. Qed.

(** The provider took the message, and said so with a field named [token]. *)
Example demo_refused_receipt :
  let out := demo_run (Ok (VDict [("provider_id", VStr "m-1"); ("Token", VStr "x")])) in
  length (w_calls out.1) = 1%nat /\ map pr_status (proposals (w_actions out.1)) = [p_failed]
  /\ out.2 = Ok (502, [("error", VStr "provider operation failed safely"); SAFE;
                       ("error_class", VStr "ValueError")]).
Proof. vm_compute. split_and!; reflexivity. Qed.

Lemma effect_was_cleared_witness :
  exists c, c ∈ w_calls (demo_run accepted).1 /\ pc_payload c = demo_payload
  /\ exists t tenant, Decide "p1" 1 "ana" true t tenant ∈ demo_history /\ t <= 100.
Proof.
  assert (exists c, w_calls (demo_run accepted).1 = [c] /\ pc_write c = true
    /\ pc_proposal c = Some ("p1", 1)) as (c & Ec & Hw & Hk)
    by (vm_compute; eexists; split_and!; reflexivity).
  assert (c ∈ w_calls (demo_run accepted).1) as Hc by (rewrite Ec; apply list_elem_of_here).
  exists c. split; [exact Hc|].
  destruct (effect_was_cleared demo_broker (demo_env accepted) "tok" demo_mail_binding demo_payload
    demo_history [] c Hc (not_elem_of_nil c)) as (rb & s & _ & Hp & _ & _ & _ & Hwr).
  split; [exact Hp|]. clear Ec Hc.
  destruct (Hwr Hw) as (sp & g & k & id & v & t & tenant & Hin & Hdec & Ht & _ & Hkey & _).
  rewrite Hk in Hkey. clear Hwr Hk Hp. injection Hkey as <- <-. cbn [others demo_env] in Hin, Hdec.
  rewrite app_nil_r in Hin, Hdec. unfold demo_history in Hin.
  apply elem_of_cons in Hin as [Hin|Hin].
  { injection Hin as -> _ _. exists t, tenant. split; [exact Hdec|exact Ht]. }
  apply elem_of_cons in Hin as [Hin|Hin]; [discriminate Hin|].
  apply elem_of_cons in Hin as [Hin|Hin]; [discriminate Hin|]. by apply elem_of_nil in Hin.
Defined.

Definition lost : provider_exn :=
  {| kind := ProviderNetworkError; message := "timeout"; class_name := "ProviderNetworkError"; retry_after := None |}.

Lemma failed_write_is_settled_witness :
  exists q, q ∈ proposals (w_actions (demo_run (Err lost)).1) /\ pr_status q = p_unknown
  /\ (demo_run (Err lost)).2 = Ok (202, [("status", VStr "execution_unknown")]).
Proof.
  assert (exists c, w_calls (demo_run (Err lost)).1 = w_calls demo_world ++ [c] /\ pc_write c = true
    /\ provider_says (demo_env (Err lost)) c = Err lost) as (c & Ec & Hw & Hs)
    by (vm_compute; eexists; split_and!; reflexivity).
  destruct (failed_write_is_settled demo_broker (demo_env (Err lost)) "tok" demo_mail_binding demo_payload
    demo_world c lost Ec Hw eq_refl Hs) as (q & Hq & _ & _ & Hst & _ & Hr).
  exists q. split; [exact Hq|]. split; [exact Hst|exact Hr].
Defined.

Definition demo_sessions : sessions := {|
  current := Some {| s_principal := "ana"; s_tenant := Some "t" |}; csrf_matches := true;
  authentication_attestation := Some [("fresh", VBool true)] |}.
Definition demo_body : pyval := VDict [("version", VInt 1); ("approved", VBool true)].

Lemma approval_needs_presence_witness :
  exists s', decide_request demo_sessions "p1" demo_body 10
      (perform_all [Propose demo_mail "x" "y"] no_actions) = (s', Ok (200, [("status", VStr "approved")]))
  /\ exists p, p ∈ proposals (perform_all [Propose demo_mail "x" "y"] no_actions) /\ pr_status p = proposed.
Proof.
  destruct (decide_request demo_sessions "p1" demo_body 10
      (perform_all [Propose demo_mail "x" "y"] no_actions)) as [s' r] eqn:E.
  assert (r = Ok (200, [("status", VStr "approved")])) as ->
    by (change r with (s', r).2; rewrite <- E; vm_compute; reflexivity).
  exists s'. split; [reflexivity|].
  destruct (approval_needs_presence demo_sessions [Propose demo_mail "x" "y"] "p1" demo_body 10 s' _ E eq_refl)
    as (who & p & _ & _ & Hp & _ & _ & _ & Hst & _).
  exists p. split; [exact Hp|exact Hst].
Defined.
