(* ===== verification/BrokerEvidence.v ===== *)
(** * What the broker attests

    The evidence that src/services/action_broker/app.py
    ([ActionBroker._evidence_response]) makes with [ExecutionAttestor.create]
    (Attestation.v) about an effect, and what can be relied on when it passes. *)

From stdpp Require Import gmap.
From Stdlib Require Import QArith.
From S2P Require Import Prelude PyValue Json Base64 Sha256 Signing Attestation Actions Broker BrokerProofs.
From S2P Require SigningProofs.
Local Close Scope Q_scope.
Local Open Scope Z_scope.

Section evidence.
Context {E : Ed25519}.

(** The arguments [_evidence_response] passes to [create]. *)
Definition attested_execution (b : binding) (payload : dict) (receipt : pyval) (now : Z) : execution := {|
  x_task := PyValue.get b "task_id"; x_user := PyValue.get b "user_principal_id"; x_agent := PyValue.get b "agent_principal_id";
  x_credential := PyValue.get b "credential_id"; x_capability := PyValue.get b "capability_id";
  x_payload_hash := PyValue.get b "payload_hash"; x_receipt := receipt; x_idempotency_key := PyValue.get b "idempotency_key";
  x_outcome := VStr "succeeded"; x_payload := VDict payload; x_executed_at := Some (inject_Z now) |}.
(** The broker's [attestor]. *)
Definition attest (attestor : ExecutionAttestor) : binding -> dict -> pyval -> Z -> result string dict := fun b payload receipt now =>
  match create attestor (inject_Z now) (attested_execution b payload receipt now) with
  | Ok a => Ok a
  | Err (AttestationError _) => Err "AttestationError"
  | Err (Attestation.Python _) => Err "TypeError"
  end.

Lemma no_success e : (_safe_provider_error e).1 <> 200.
Proof. unfold _safe_provider_error, slack_status. by repeat case_match. Qed.
Lemma settle_failure_code env write p t e w response : (settle_failure env write p t e w).2 <> Ok (200, response).
Proof.
  unfold settle_failure. destruct (caught e); cbn [negb]; [|discriminate]. pose proof (no_success e) as Hn.
  destruct (_safe_provider_error e) as [code body] eqn:Ee.
  destruct p as [q|]; unfold stm_bind, yield, lift, stm_ret; cbn; repeat case_match; cbn; intros [= ? ?]; subst; cbn in *; congruence.
Qed.
(** The answer to a write whose effect the provider confirmed. *)
Lemma settle_success_attested self env create write b payload p receipt w response a :
  attestor self = Some create -> (settle_success self env write b payload p receipt w).2 = Ok (200, response) ->
  PyValue.get response "execution_attestation" = VDict a -> write = true /\ exists now, create b payload receipt now = Ok a.
Proof.
  intros Hat. unfold settle_success. rewrite Hat. destruct p as [q|]; [|intros [= <-]; discriminate].
  destruct write; [|unfold stm_bind, yield, lift, stm_ret; cbn; repeat case_match; intros [= <-]; discriminate].
  unfold stm_bind at 1, _evidence_response. destruct (create b payload receipt (clock env 6)) as [a'|] eqn:Ec; [|discriminate].
  destruct (dget a' "attestation_id"); [|discriminate]. unfold stm_ret at 1. unfold stm_bind, yield, lift, stm_ret. cbn.
  repeat case_match; try discriminate; intros [= <-] Hg; cbn in Hg; injection Hg as ->; (split; [done|]; by eexists).
Qed.

End evidence.

(** ** The broker of BrokerProofs.v, with an attestor *)

Definition with_attestor (self : ActionBroker) (create : binding -> dict -> pyval -> Z -> result string dict) : ActionBroker := {|
  dispatch_policy := dispatch_policy self; runtime_registry := runtime_registry self; rollout := rollout self;
  schema_valid := schema_valid self; credential_authorizer := credential_authorizer self;
  credential_connector := credential_connector self; agent_url_resolver := agent_url_resolver self;
  identity_verifier := identity_verifier self; policy_evaluator := policy_evaluator self;
  connection_resolver := connection_resolver self; live_eligibility := live_eligibility self;
  credential_rotators := credential_rotators self; attestor := Some create; evidence_submitter := evidence_submitter self |}.
Definition toy_attestor : ExecutionAttestor (E := SigningProofs.toy) :=
  {| broker_key_id := "broker-1"; signing_key := true : key (Ed25519 := SigningProofs.toy) |}.
Definition toy_broker : ActionBroker := with_attestor demo_broker (attest (E := SigningProofs.toy) toy_attestor).
Definition toy_receipt : pyval :=
  VDict [("provider", VStr "google"); ("capability_id", VStr "gmail.send"); ("provider_id", VStr "m-1")].
Definition toy_keys : broker_keys := Keys [("broker-1", VStr (public_key_b64 (E := SigningProofs.toy) true))].

