(* ===== verification/Dispatcher.v ===== *)
(** * The workflow broker dispatcher

    [WorkflowBrokerDispatcher] of
    src/agents/orchestrator/workflow_broker_dispatcher.py: it turns one claimed
    step into one exact broker dispatch (the binding, the proposal it approves
    in the name of the run's principal, the lease) and turns what the broker
    answers into an outcome the executor knows; and the client of
    src/agents/orchestrator/broker_client.py that carries the request.

    It reads the workflow store, of which other workers may change rows between
    two readings ([reading]), and changes the action repository, in which other
    callers may run between two calls ([between]).  The request or its answer
    may be lost on the way ([network]). *)

From S2P Require Import Prelude ControlPlane PyValue Json Sha256 Catalog Workflow Executor Policy Runtime Actions ActionProofs Broker.
Local Open Scope Z_scope.

(** ** Failures *)

Definition action_class (e : action_error) : string :=
  match e with
  | ActionValueError _ => "ValueError"
  | ActionIntegrityError => "IntegrityError"
  | ActionConversionError PyValue.TypeError => "TypeError"
  | ActionConversionError PyValue.KeyError => "KeyError"
  | ActionConversionError _ => "ValueError"
  | ActionBindingError => "ProgrammingError"
  end.
(** What the body of a [try] raised: a permission or step error, or another
    class. *)
Inductive raised : Type := StepError (o : outcome) | OtherClass (class_name : string).
Definition _pre_dispatch_rejection (exc : raised) : outcome :=
  match exc with
  | StepError o => o
  | OtherClass class_name => CorrectableStepError ("pre_dispatch:" +:+ class_name)
  end.

(** ** The approved template *)

Definition same_keys (a b : list (string * pyval)) : bool :=
  forallb (fun kv => bool_decide (is_Some (dget b kv.1))) a
  && forallb (fun kv => bool_decide (is_Some (dget a kv.1))) b.
(** [set(template) == {"$ref"}]. *)
Definition declares_ref (d : list (string * pyval)) : bool :=
  match d with [(k, _)] => String.eqb k "$ref" | _ => false end.
Fixpoint _matches_approved_template (template resolved : pyval) {struct template} : bool :=
  match template with
  | VDict d =>
      if declares_ref d then true else
      match resolved with
      | VDict r =>
          same_keys d r
          && forallb (fun kv => match dget r kv.1 with
                                | Some x => _matches_approved_template kv.2 x
                                | None => false
                                end) d
      | _ => false
      end
  | VList l =>
      match resolved with
      | VList r =>
          (fix go (l r : list pyval) : bool :=
             match l, r with
             | [], [] => true
             | x :: l', y :: r' => _matches_approved_template x y && go l' r'
             | _, _ => false
             end) l r
      | _ => false
      end
  | _ => py_eqb template resolved
  end.

(** ** What the broker answered *)

Section failure.
Context (shown : pyval -> string).      (* [str()] of a value that is not text *)

Definition text_of (v : pyval) (dflt : string) : string :=
  if truthy v then match v with VStr t => t | _ => shown v end else dflt.

Definition _raise_for_broker_failure (status : Z) (body : dict) (eff retry_policy : string) : outcome :=
  let repeatable := negb (String.eqb eff "write") || String.eqb retry_policy "idempotent" in
  let after := as_number (PyValue.get body "retry_after") in
  let category := PyValue.get body "category" in
  let why := PyValue.get body "error" in
  if Z.eqb status 202 then
    if repeatable
    then RetryableStepError "provider outcome is unknown but the effect is repeatable" None
    else AmbiguousStepError "provider outcome requires reconciliation"
  else if 500 <=? status then
    if negb repeatable && negb (val_is (PyValue.get body "outcome_certainty") "safe")
    then AmbiguousStepError "provider write outcome requires reconciliation"
    else RetryableStepError "provider is temporarily unavailable" after
  else if Z.eqb status 429 then RetryableStepError "provider is rate limited" after
  else if val_in category ["scope"; "membership"; "permission"; "validation"; "provider"] then
    CorrectableStepError (text_of category "" +:+ ":" +:+ text_of why "provider_rejected")
  else if Z.eqb status 422 then
    CorrectableStepError (text_of why "broker rejected the request schema")
  else Executor.PermissionError (text_of why "broker rejected the live authorization").
End failure.

(** ** The dispatcher and what surrounds one call *)

Record WorkflowBrokerDispatcher := {
  d_agent_principal_id : string;
  d_ttl : Z;
  d_rollout_version : string;
  d_policy_evaluator : option PolicyEvaluator;
}.

(** What becomes of the request the client posts. *)
Inductive delivery : Type :=
| Delivered
| RequestLost (msg : string)      (* it never arrives *)
| AnswerLost (msg : string).      (* it is served, the answer does not come back *)

Record dispatch_env := {
  de_now : Z;
  reading : nat -> store;                               (* the workflow store, reading by reading *)
  get_installation : string -> string -> option dict;
  between : nat -> list act;
  uuid : string;
  lease_token : string;
  error_text : pyexn -> string;
  shown : pyval -> string;
  service : ActionBroker;                               (* the broker behind the client *)
  service_env : surroundings;
  internal_token : option string;                       (* what the broker expects *)
  service_token : string;                               (* what the client sends *)
  network : delivery;
}.

Definition dm (A : Type) : Type := stm world outcome A.

(** [None[...]] *)
Definition not_subscriptable : outcome := OtherException "'NoneType' object is not subscriptable".
(** [str(KeyError(k))]. *)
Definition missing_key (k : string) : outcome := OtherException ("'" +:+ k +:+ "'").

Definition of_option {A} (e : outcome) (o : option A) : dm A :=
  match o with Some a => stm_ret a | None => stm_raise e end.
(** A guard: raise unless it holds. *)
Definition ensure (b : bool) (e : outcome) : dm unit := if b then stm_ret tt else stm_raise e.

(** Columns a connection row fills in the action tables: text, a number as
    text, NULL; a list or a mapping cannot be bound. *)
Definition optional_param (v : pyval) : result action_error (option string) :=
  if truthy v then match bind_text v with Some t => Ok (Some t) | None => Err ActionBindingError end
  else Ok None.
Record identity := {
  i_credential : string;
  i_profile : string;
  i_profile_id : option string;
  i_subject : option string;
}.
Definition acting_as (credential profile profile_id subject : pyval) : result action_error identity :=
  match optional_param profile, optional_param profile_id, optional_param subject with
  | Ok p, Ok i, Ok u =>
      match credential with
      | VNone => Err ActionIntegrityError                       (* NOT NULL *)
      | _ => match bind_text credential with
             | Some t => Ok {| i_credential := t; i_profile := default "" p; i_profile_id := i;
                               i_subject := u |}
             | None => Err ActionBindingError
             end
      end
  | _, _, _ => Err ActionBindingError
  end.

Section dispatch.
Context (self : WorkflowBrokerDispatcher) (env : dispatch_env).
Local Open Scope stm_scope.

Definition interleave (i : nat) : dm unit := fun w =>
  ({| w_actions := perform_all (between env i) (w_actions w); w_calls := w_calls w |}, Ok tt).
(** A call of the action repository, inside one of the [try] blocks. *)
Definition on_actions {A} (m : actm A) : dm A := fun w =>
  let (s, r) := m (w_actions w) in
  ({| w_actions := s; w_calls := w_calls w |},
   match r with
   | Ok a => Ok a
   | Err e => Err (_pre_dispatch_rejection (OtherClass (action_class e)))
   end).

(** The step, with its input resolved, and the claim it runs under. *)
Section step.
Context (r : step) (resolved : pyval) (c : claim).

Definition writes : bool := String.eqb (Workflow.effect r) "write".
Definition task_id : string := c_revision c +:+ ":" +:+ step_id r.

(** A live connection, of the credential version the plan was approved with,
    on which the capability is enabled. *)
Definition live_connection : dm dict :=
  connection <~ of_option (PausedStepError "connection is unavailable" None)
    (cid ← Workflow.connection_id r; get_installation env cid (tenant_of r)) ;;
  ensure (truthy (VDict connection) && val_is (PyValue.get connection "status") "connected")
    (PausedStepError "connection is unavailable" None) ;;;
  stm_ret connection.

Definition same_credential (connection : dict) : dm unit :=
  if Z.eqb (credential_version r) 0 then stm_ret tt else
  let v := PyValue.get connection "credential_version" in
  match py_int (if truthy v then v else VInt 0) with
  | Err e => stm_raise (OtherException (error_text env e))
  | Ok n => ensure (Z.eqb n (credential_version r))
              (Executor.PermissionError "credential version changed; replan required")
  end.

Definition still_enabled (connection : dict) : dm unit :=
  match dget connection "enabled_capabilities" with
  | None => stm_ret tt
  | Some v =>
      match py_set v with
      | Err e => stm_raise (OtherException (error_text env e))
      | Ok l => ensure (mem (VStr (Workflow.capability_id r)) l)
                  (CorrectableStepError "missing_scope:reconnect_installation")
      end
  end.

(** The binding before the policy and the proposal are added to it. *)
Definition approval_payload_hash : pyval :=
  if writes then VStr (canonical_payload_hash resolved) else VNone.
Definition first_binding (principal graph_hash cid : string) (credential version : pyval)
    (connection : dict) : binding :=
  let profile := get_or connection "authority_profile" (VStr "bot") in
  [("user_principal_id", VStr principal);
   ("agent_principal_id", VStr (d_agent_principal_id self));
   ("task_id", VStr task_id);
   ("credential_id", credential);
   ("capability_id", VStr (Workflow.capability_id r));
   ("connection_id", VStr cid);
   ("tenant_id", VStr (tenant_of r));
   ("authority_profile", profile);
   ("authority_profile_id", PyValue.get connection "authority_profile_id");
   ("slack_subject_id", PyValue.get connection "slack_subject_id");
   ("authority_authorization", PyValue.get connection "authority_authorization");
   ("credential_version", version);
   ("capability_version", VStr (capability_version r));
   ("descriptor_snapshot_hash", VStr (descriptor_snapshot_hash r));
   ("effect", VStr (Workflow.effect r));
   ("workflow_revision_id", VStr (c_revision c));
   ("step_id", VStr (step_id r));
   ("plan_graph_hash", VStr graph_hash);
   ("attempt", VInt (c_attempt c));
   ("approval_payload_hash", approval_payload_hash);
   ("approval_expires_at", if writes then VInt (de_now env + d_ttl self) else VNone);
   ("payload_hash", approval_payload_hash);
   ("slack_connect", VBool false);
   ("data_egress", VBool false);
   ("team_id", PyValue.get connection "team_id");
   ("bot_user_id", PyValue.get connection "bot_user_id");
   ("connection_snapshot", VDict [
      ("connection_id", VStr cid); ("tenant_id", VStr (tenant_of r));
      ("capability_id", VStr (Workflow.capability_id r));
      ("capability_version", VStr (capability_version r));
      ("credential_version", version);
      ("effective_scopes", get_or connection "granted_scopes" (VList []));
      ("health", VStr "healthy"); ("rollout_version", VStr (d_rollout_version self));
      ("authority_profile", profile)])].

Definition decided (b : binding) (connection : dict) : dm binding :=
  match d_policy_evaluator self with
  | None => stm_ret b
  | Some pe =>
      match Policy.evaluate pe (VDict b) (VDict connection) (de_now env) with
      | Err e => stm_raise (OtherException (error_text env e))
      | Ok d =>
          if Policy.allowed d then stm_ret (b ++ [("policy_decision", decision_value d)])
          else stm_raise (Executor.PermissionError ("dynamic policy denied: " +:+ Policy.reason d))
      end
  end.

(** ** The proposal and the lease *)

Definition proposal_spec_of (principal graph_hash cid : string) (who : identity) : proposal_spec := {|
  sp_user := principal; sp_agent := d_agent_principal_id self; sp_credential := i_credential who;
  sp_capability := Workflow.capability_id r; sp_payload := resolved;
  sp_expires := de_now env + d_ttl self; sp_id := Some ("proposal:" +:+ task_id);
  sp_key := Some ("workflow:" +:+ task_id); sp_revision := Some (c_revision c);
  sp_step := step_id r; sp_graph_hash := graph_hash; sp_connection := cid;
  sp_attempt := c_attempt c; sp_profile := i_profile who; sp_profile_id := i_profile_id who;
  sp_subject := i_subject who; sp_reinforced := capability_reinforced (Workflow.capability_id r);
  sp_tenant := Some (tenant_of r) |}.
Definition lease_spec_of (principal graph_hash cid : string) (who : identity) : lease_spec := {|
  ls_user := principal; ls_agent := d_agent_principal_id self; ls_task := task_id;
  ls_credential := i_credential who; ls_capabilities := [Workflow.capability_id r];
  ls_expires := de_now env + d_ttl self; ls_revision := c_revision c; ls_step := step_id r;
  ls_graph_hash := graph_hash; ls_connection := cid; ls_attempt := c_attempt c;
  ls_profile := i_profile who; ls_profile_id := i_profile_id who; ls_subject := i_subject who;
  ls_tenant := Some (tenant_of r) |}.

(** [create_proposal] with a value it cannot store: the prior attempt is
    looked at first. *)
Definition refuse_proposal (e : action_error) : actm (option proposal) := fun s =>
  (s, Err (if dynamic (Some (c_revision c))
              && existsb (fun p => String.eqb (proposal_id p) ("proposal:" +:+ task_id)
                                   && p_in [executing; p_unknown] p) (proposals s)
           then ActionValueError "prior attempt is still executing or unresolved" else e)).

Definition materialize (principal graph_hash cid : string) (who : result action_error identity)
    (b : binding) : dm binding :=
  interleave 0 ;;;
  created <~ on_actions match who with
                        | Ok i => create_proposal (proposal_spec_of principal graph_hash cid i) (uuid env) (uuid env)
                        | Err e => refuse_proposal e
                        end ;;
  p <~ of_option (_pre_dispatch_rejection (OtherClass "TypeError")) created ;;
  interleave 1 ;;;
  approved <~ on_actions (Actions.decide (proposal_id p) (Actions.version p) principal true (de_now env)
                            (Some (tenant_of r))) ;;
  ensure approved (_pre_dispatch_rejection (StepError
    (Executor.PermissionError "exact action approval could not be materialized"))) ;;;
  stm_ret (dict_update b [
    ("proposal_id", VStr (proposal_id p)); ("version", VInt (Actions.version p));
    ("payload_hash", VStr (canonical_payload_hash resolved));
    ("idempotency_key", VStr (idempotency_key p))]).

Definition leased_for (principal graph_hash cid : string) (who : result action_error identity)
    : dm string :=
  interleave 2 ;;;
  on_actions match who with
             | Ok i => issue_lease (lease_spec_of principal graph_hash cid i) (de_now env) (lease_token env)
             | Err e =>
                 revoke_active_leases (c_revision c) (step_id r) (de_now env) ;;; stm_raise e
             end.

(** [ActionBrokerClient.execute]: the broker's handler behind the network.  A
    handler that raises closes the connection. *)
Definition post (lease : string) (b : binding) : dm (Z * dict) := fun w =>
  let (w', answered) :=
    _execute_internal (service env) (service_env env) (internal_token env)
      (BEARER +:+ service_token env)
      (Some (VDict [("lease", VStr lease); ("binding", VDict b); ("payload", resolved)])) w in
  match network env with
  | RequestLost msg => (w, Err (OtherException msg))
  | AnswerLost msg => (w', Err (OtherException msg))
  | Delivered =>
      (w', match answered with
           | Ok a => Ok a
           | Err _ => Err (OtherException "connection aborted")
           end)
  end.

Definition completion (body : dict) : pyval :=
  VDict [("receipt", get_or body "receipt" (VDict [])); ("output", get_or body "receipt" (VDict []));
         ("attestation", PyValue.get body "execution_attestation")].

(** The call, up to the broker's answer. *)
Definition call_broker : dm (Z * dict) :=
  let found := get_run (reading env 0) (run_of r) (tenant_of r) in
  let rev := get_revision (reading env 1) (run_of r) (c_revision c) (tenant_of r) in
  connection <~ live_connection ;;
  same_credential connection ;;;
  still_enabled connection ;;;
  rv <~ of_option not_subscriptable (fst <$> rev) ;;
  ensure (is_step_authorized (reading env 2) (run_of r) (c_revision c) (tenant_of r)
            (plan_graph_hash rv) (Workflow.effect r) (Some (de_now env)))
    (Executor.PermissionError "workflow approval expired before dispatch") ;;;
  ensure (_matches_approved_template (input r) resolved)
    (Executor.PermissionError "resolved effect no longer matches the approved graph") ;;;
  u <~ of_option not_subscriptable (user_principal_id <$> found) ;;
  credential <~ of_option (missing_key "credential_id") (dget connection "credential_id") ;;
  version <~ of_option (missing_key "credential_version") (dget connection "credential_version") ;;
  cid <~ of_option not_subscriptable (Workflow.connection_id r) ;;
  let g := plan_graph_hash rv in
  let b0 := first_binding u g cid credential version connection in
  let who := acting_as credential (PyValue.get b0 "authority_profile")
               (PyValue.get b0 "authority_profile_id") (PyValue.get b0 "slack_subject_id") in
  b <~ decided b0 connection ;;
  b' <~ (if writes then materialize u g cid who b else stm_ret b) ;;
  lease <~ leased_for u g cid who ;;
  post lease b'.

(** [__call__], with what it raises as its outcome. *)
Definition dispatch_step : world -> world * outcome := fun w =>
  match call_broker w with
  | (w', Err o) => (w', o)
  | (w', Ok (status, body)) =>
      (w', if Z.eqb status 200 then Returned (completion body)
           else _raise_for_broker_failure (shown env) status body (Workflow.effect r)
                  (capability_retry_policy (Workflow.capability_id r) (Workflow.effect r)))
  end.
End step.
End dispatch.
