(* ===== verification/DispatcherProofs.v ===== *)
(** * What the dispatcher guarantees

    Theorems about Dispatcher.v: the provider call a dispatch leads to is the
    approved step's and nothing else, what the executor is told agrees with
    the row the action repository keeps, an input the executor resolved always
    passes the check against the approved template, and an effect that acts as
    a provider account can never be dispatched. *)

From S2P Require Import Prelude Rows ControlPlane PyValue Json Sha256 Catalog PlanSchema Workflow WorkflowProofs WorkflowClaims Executor ExecutorProofs Policy Runtime Actions ActionProofs Broker BrokerProofs Dispatcher.
Local Open Scope Z_scope.

(** ** Steps that call no provider *)

Lemma quiet_of_option {A} e (o : option A) : quiet (of_option e o).
Proof. by destruct o. Qed.
Lemma quiet_ensure b e : quiet (ensure b e).
Proof. by destruct b. Qed.
Lemma quiet_on_actions {A} (m : actm A) : quiet (on_actions m).
Proof. intros w. unfold on_actions. by destruct (m _). Qed.
Lemma quiet_interleave env i : quiet (interleave env i).
Proof. done. Qed.
Ltac dquieten :=
  repeat first [apply quiet_of_option | apply quiet_ensure | apply quiet_on_actions
    | apply quiet_interleave | progress leaving].

Section quiet.
Context (self : WorkflowBrokerDispatcher) (env : dispatch_env) (r : step) (resolved : pyval) (c : claim).

Lemma quiet_live : quiet (live_connection env r).
Proof. unfold live_connection. dquieten. Qed.
Lemma quiet_same conn : quiet (same_credential env r conn).
Proof. unfold same_credential. dquieten. Qed.
Lemma quiet_enabled conn : quiet (still_enabled env r conn).
Proof. unfold still_enabled. dquieten. Qed.
Lemma quiet_decided b conn : quiet (decided self env b conn).
Proof. unfold decided. dquieten. Qed.
Lemma quiet_materialize u g cid who b : quiet (materialize self env r resolved c u g cid who b).
Proof. unfold materialize. dquieten. Qed.
Lemma quiet_leased u g cid who : quiet (leased_for self env r c u g cid who).
Proof. unfold leased_for. dquieten. Qed.
End quiet.

(** ** What the guards let through *)

Lemma of_option_ok {A} e (o : option A) w w1 (a : A) : of_option e o w = (w1, Ok a) -> o = Some a /\ w1 = w.
Proof. unfold of_option. destruct o; [|done]. by intros [= -> ->]. Qed.
Lemma ensure_ok b e w w1 u : ensure b e w = (w1, Ok u) -> b = true /\ w1 = w.
Proof. unfold ensure. destruct b; [|done]. by intros [= -> _]. Qed.

Lemma bind_ok {S' E A B} (m : stm S' E A) (k : A -> stm S' E B) w w2 b :
  stm_bind m k w = (w2, Ok b) -> exists a w1, m w = (w1, Ok a) /\ k a w1 = (w2, Ok b).
Proof. unfold stm_bind. destruct (m w) as [w1 [a|e]]; [|done]. by exists a, w1. Qed.

Lemma bind_step {S' E A B} (m : stm S' E A) (k : A -> stm S' E B) w w1 a :
  m w = (w1, Ok a) -> stm_bind m k w = k a w1.
Proof. unfold stm_bind. by intros ->. Qed.

Lemma on_actions_ok {A} (m : actm A) w w1 (a : A) :
  on_actions m w = (w1, Ok a) -> m (w_actions w) = (w_actions w1, Ok a).
Proof. unfold on_actions. destruct (m (w_actions w)) as [s [x|e]]; [|done]. by intros [= <- <-]. Qed.

Lemma get_matches s id v tenant p :
  Actions.get s id (Some v) tenant = Some p -> p ∈ proposals s /\ proposal_id p = id /\ Actions.version p = v.
Proof.
  unfold Actions.get. intros [H Hv%Z.eqb_eq]%find_In.
  apply in_filter in H as [H [Hid%String.eqb_eq _]%andb_true_iff]. done.
Qed.

Lemma created_matches sp g k s s' p :
  create_proposal sp g k s = (s', Ok (Some p)) -> p ∈ proposals s' /\ proposal_id p = proposed_id sp g.
Proof.
  unfold create_proposal. fold (proposed_id sp g). intros (v & s1 & _ & H)%bind_ok.
  apply bind_ok in H as (s2 & s3 & [= -> ->] & H). unfold stm_ret in H. injection H as <- H.
  apply get_matches in H as (H & Hid & _). done.
Qed.

Section reached.
Context (self : WorkflowBrokerDispatcher) (env : dispatch_env) (r : step) (resolved : pyval) (c : claim).

(** The connection the step may use: connected, of the credential version it
    was planned with, with its capability enabled. *)
Definition usable (cid : string) (conn : dict) : Prop :=
  Workflow.connection_id r = Some cid /\ get_installation env cid (tenant_of r) = Some conn
  /\ PyValue.get conn "status" = VStr "connected"
  /\ (credential_version r <> 0 -> exists v, PyValue.get conn "credential_version" = v
        /\ py_int (if truthy v then v else VInt 0) = Ok (credential_version r))
  /\ (forall v, dget conn "enabled_capabilities" = Some v ->
        exists l, py_set v = Ok l /\ mem (VStr (Workflow.capability_id r)) l = true).

Lemma live_connection_ok w w1 conn :
  live_connection env r w = (w1, Ok conn) ->
  w1 = w /\ exists cid, Workflow.connection_id r = Some cid
    /\ get_installation env cid (tenant_of r) = Some conn /\ PyValue.get conn "status" = VStr "connected".
Proof.
  unfold live_connection. intros (x & w2 & [H ->]%of_option_ok & H2)%bind_ok.
  apply bind_ok in H2 as (u & w3 & [Hb ->]%ensure_ok & [= -> ->]). split; [done|].
  destruct (Workflow.connection_id r) as [cid|]; [|done]. exists cid. split; [done|]. split; [done|].
  apply andb_true_iff in Hb as [_ Hb]. by apply val_is_spec.
Qed.

Lemma same_ok conn w w1 u :
  same_credential env r conn w = (w1, Ok u) ->
  w1 = w /\ (credential_version r <> 0 -> exists v, PyValue.get conn "credential_version" = v
               /\ py_int (if truthy v then v else VInt 0) = Ok (credential_version r)).
Proof.
  unfold same_credential. destruct (Z.eqb_spec (credential_version r) 0); [by intros [= -> _]|].
  cbv zeta. destruct (py_int _) as [n'|e] eqn:E; [|done]. intros [Hb ->]%ensure_ok. split; [done|].
  intros _. apply Z.eqb_eq in Hb. subst n'. eexists. by split.
Qed.

Lemma enabled_ok conn w w1 u :
  still_enabled env r conn w = (w1, Ok u) ->
  w1 = w /\ forall v, dget conn "enabled_capabilities" = Some v ->
    exists l, py_set v = Ok l /\ mem (VStr (Workflow.capability_id r)) l = true.
Proof.
  unfold still_enabled. destruct (dget conn _) as [v|]; [|by intros [= -> _]].
  destruct (py_set v) as [l|e] eqn:E; [|done]. intros [Hb ->]%ensure_ok. split; [done|].
  intros v' [= <-]. by exists l.
Qed.

(** The policy, when there is one, allowed this binding. *)
Definition policy_allowed (b : binding) (conn : dict) : Prop :=
  forall pe, d_policy_evaluator self = Some pe ->
    exists d, Policy.evaluate pe (VDict b) (VDict conn) (de_now env) = Ok d /\ Policy.allowed d = true.

Lemma decided_ok b conn w w1 b' :
  decided self env b conn w = (w1, Ok b') ->
  w1 = w /\ policy_allowed b conn
  /\ exists extra, b' = b ++ extra /\ forall k, k <> "policy_decision" -> dget extra k = None.
Proof.
  unfold decided, policy_allowed. destruct (d_policy_evaluator self) as [pe|].
  - destruct (Policy.evaluate _ _ _ _) as [d|e] eqn:E; [|done].
    destruct (Policy.allowed d) eqn:Ea; [|done]. intros [= -> <-]. split; [done|]. split.
    { intros pe' [= <-]. by exists d. }
    eexists. split; [reflexivity|]. intros k Hk. cbn [dget].
    destruct (String.eqb_spec "policy_decision" k); [congruence|done].
  - intros [= -> <-]. split; [done|]. split; [done|]. exists []. by rewrite app_nil_r.
Qed.

Lemma dget_app a b k : dget (a ++ b) k = match dget a k with Some v => Some v | None => dget b k end.
Proof. induction a as [|[x v] a IH]; [done|]. cbn [dget app]. by destruct (String.eqb x k). Qed.
Lemma dget_filter (f : string -> bool) a k :
  dget (List.filter (fun kv => f kv.1) a) k = if f k then dget a k else None.
Proof.
  induction a as [|[x v] a IH]; cbn [List.filter dget]; [by destruct (f k)|]. cbn [fst].
  destruct (f x) eqn:Ef; cbn [dget]; rewrite IH; destruct (String.eqb_spec x k) as [->|]; try done.
  - by rewrite Ef.
  - by rewrite Ef.
Qed.
Lemma dget_update a b k : dget (dict_update a b) k = match dget b k with Some v => Some v | None => dget a k end.
Proof.
  unfold dict_update. rewrite dget_app.
  pose proof (dget_filter (fun k => negb (bool_decide (is_Some (dget b k)))) a k) as E.
  cbv beta in E. rewrite E. clear E.
  destruct (dget b k) as [v|]; cbn; [done|]. by destruct (dget a k).
Qed.

(** What the binding that is sent says, over the one the policy was asked of. *)
Definition same_but (ks : list string) (b b' : binding) : Prop :=
  forall k, k ∉ ks -> dget b' k = dget b k.

Lemma materialize_ok u g cid who b w w1 b' :
  materialize self env r resolved c u g cid who b w = (w1, Ok b') ->
  same_but ["proposal_id"; "version"; "payload_hash"; "idempotency_key"] b b'
  /\ PyValue.get b' "proposal_id" = VStr ("proposal:" +:+ task_id r c).
Proof.
  unfold materialize. intros (u0 & w2 & _ & H)%bind_ok.
  apply bind_ok in H as (created & w3 & Hc & H). apply bind_ok in H as (p & w4 & [-> ->]%of_option_ok & H).
  apply bind_ok in H as (u1 & w5 & _ & H). apply bind_ok in H as (ok & w6 & _ & H).
  apply bind_ok in H as (u2 & w7 & _ & [= <- <-]).
  apply on_actions_ok in Hc. destruct who as [i|e]; [|done]. apply created_matches in Hc as [_ Hid].
  split.
  - intros k Hk. rewrite dget_update. set_unfold in Hk. cbn [dget].
    repeat match goal with |- context [String.eqb ?a k] =>
      destruct (String.eqb_spec a k); [exfalso; naive_solver|] end. done.
  - unfold PyValue.get. rewrite dget_update. cbn. by rewrite Hid.
Qed.

(** Everything a dispatch established before it posted its request. *)
Record prepared (conn : dict) (u g : string) (b b' : binding) : Prop := {
  pr_rev : exists rv rows, get_revision (reading env 1) (run_of r) (c_revision c) (tenant_of r) = Some (rv, rows)
    /\ g = plan_graph_hash rv;
  pr_authorized : is_step_authorized (reading env 2) (run_of r) (c_revision c) (tenant_of r) g
    (Workflow.effect r) (Some (de_now env)) = true;
  pr_run : exists x, get_run (reading env 0) (run_of r) (tenant_of r) = Some x /\ u = user_principal_id x;
  pr_template : _matches_approved_template (input r) resolved = true;
  pr_first : exists cid credential version, usable cid conn
    /\ dget conn "credential_id" = Some credential
    /\ b = first_binding self env r resolved c u g cid credential version conn;
  pr_policy : policy_allowed b conn;
  pr_sent : same_but ["policy_decision"; "proposal_id"; "version"; "payload_hash"; "idempotency_key"] b b';
  pr_proposal : PyValue.get b' "proposal_id" = if writes r then VStr ("proposal:" +:+ task_id r c) else VNone;
}.

Lemma call_broker_reached w :
  calls_provider (call_broker self env r resolved c) w ->
  exists conn u g b b' lease w1, prepared conn u g b b' /\ w_calls w1 = w_calls w
    /\ calls_provider (post env resolved lease b') w1
    /\ call_broker self env r resolved c w = post env resolved lease b' w1.
Proof.
  intros H. pose proof H as Hk. unfold call_broker in Hk.
  apply bind_reached in Hk as (conn & w1 & E1 & _ & Hk); [|apply quiet_live].
  destruct (live_connection_ok _ _ _ E1) as [-> (cid & Hcid & Hget & Hst)].
  apply bind_reached in Hk as (u2 & w2 & E2 & _ & Hk); [|apply quiet_same].
  destruct (same_ok _ _ _ _ E2) as [-> Hver].
  apply bind_reached in Hk as (u3 & w3 & E3 & _ & Hk); [|apply quiet_enabled].
  destruct (enabled_ok _ _ _ _ E3) as [-> Hen].
  apply bind_reached in Hk as (rv & w4 & E4 & _ & Hk); [|apply quiet_of_option].
  destruct (of_option_ok _ _ _ _ _ E4) as [Hrv ->].
  apply bind_reached in Hk as (u5 & w5 & E5 & _ & Hk); [|apply quiet_ensure].
  destruct (ensure_ok _ _ _ _ _ E5) as [Hau ->].
  apply bind_reached in Hk as (u6 & w6 & E6 & _ & Hk); [|apply quiet_ensure].
  destruct (ensure_ok _ _ _ _ _ E6) as [Htm ->].
  apply bind_reached in Hk as (u & w7 & E7 & _ & Hk); [|apply quiet_of_option].
  destruct (of_option_ok _ _ _ _ _ E7) as [Hu ->].
  apply bind_reached in Hk as (credential & w8 & E8 & _ & Hk); [|apply quiet_of_option].
  destruct (of_option_ok _ _ _ _ _ E8) as [Hcred ->].
  apply bind_reached in Hk as (version & w9 & E9 & _ & Hk); [|apply quiet_of_option].
  destruct (of_option_ok _ _ _ _ _ E9) as [_ ->].
  apply bind_reached in Hk as (cid' & w10 & E10 & _ & Hk); [|apply quiet_of_option].
  destruct (of_option_ok _ _ _ _ _ E10) as [Hcid' ->]. rewrite Hcid in Hcid'. injection Hcid' as <-.
  apply bind_reached in Hk as (b & w11 & E11 & _ & Hk); [|apply quiet_decided].
  destruct (decided_ok _ _ _ _ _ E11) as (-> & Hpol & extra & Eb & Hextra).
  apply bind_reached in Hk as (b' & w12 & E12 & C12 & Hk); [|apply leaves_if; [apply quiet_materialize|apply leaves_ret]].
  apply bind_reached in Hk as (lease & w13 & E13 & C13 & Hk); [|apply quiet_leased].
  set (g := plan_graph_hash rv) in *.
  set (b0 := first_binding self env r resolved c u g cid credential version conn) in *.
  exists conn, u, g, b0, b', lease, w13. split; [|split; [congruence|split; [exact Hk|]]].
  - constructor; try done.
    + destruct (get_revision _ _ _ _) as [[rv' rows]|]; [|done]. injection Hrv as ->. by exists rv, rows.
    + destruct (get_run _ _ _) as [x|]; [|done]. injection Hu as <-. by exists x.
    + by exists cid, credential, version.
    + intros k Hk'. set_unfold in Hk'. transitivity (dget b k).
      * destruct (writes r); [|by injection E12 as _ <-].
        apply materialize_ok in E12 as [Hs _]. apply Hs. set_unfold. naive_solver.
      * rewrite Eb, dget_app, Hextra by naive_solver. by destruct (dget b0 k).
    + destruct (writes r) eqn:Ew; [by apply materialize_ok in E12 as [_ Hp]|].
      injection E12 as _ <-. rewrite Eb. unfold PyValue.get. rewrite dget_app, Hextra by done. done.
  - unfold call_broker. rewrite (bind_step _ _ _ _ _ E1), (bind_step _ _ _ _ _ E2), (bind_step _ _ _ _ _ E3),
      (bind_step _ _ _ _ _ E4), (bind_step _ _ _ _ _ E5), (bind_step _ _ _ _ _ E6), (bind_step _ _ _ _ _ E7),
      (bind_step _ _ _ _ _ E8), (bind_step _ _ _ _ _ E9), (bind_step _ _ _ _ _ E10). cbv zeta. fold g b0.
    by rewrite (bind_step _ _ _ _ _ E11), (bind_step _ _ _ _ _ E12), (bind_step _ _ _ _ _ E13).
Qed.
End reached.

(** ** The request, served *)

Lemma internal_request broker senv token header lease b resolved :
  _execute_internal broker senv token header
    (Some (VDict [("lease", VStr lease); ("binding", VDict b); ("payload", resolved)]))
  = if authenticated token header
    then match resolved with
         | VDict payload => execute broker senv lease b payload
         | _ => stm_ret (422, error "invalid execution request")
         end
    else stm_ret (401, error "service authentication required").
Proof. unfold _execute_internal. by destruct (authenticated token header). Qed.

Lemma post_reached env resolved lease b w :
  calls_provider (post env resolved lease b) w ->
  exists payload, resolved = VDict payload
    /\ authenticated (internal_token env) (BEARER +:+ service_token env) = true
    /\ calls_provider (execute (service env) (service_env env) lease b payload) w
    /\ let served := execute (service env) (service_env env) lease b payload w in
       post env resolved lease b w
       = (served.1, match network env with
                    | Delivered => match served.2 with
                                   | Ok a => Ok a | Err _ => Err (OtherException "connection aborted") end
                    | RequestLost msg | AnswerLost msg => Err (OtherException msg)
                    end)
    /\ forall msg, network env <> RequestLost msg.
Proof.
  unfold calls_provider, post. rewrite internal_request.
  destruct (authenticated _ _) eqn:Ea; [|unfold stm_ret; by destruct (network env)].
  destruct resolved as [| | | | |payload]; try (unfold stm_ret; by destruct (network env)).
  destruct (execute (service env) (service_env env) lease b payload w) as [w' answered] eqn:E.
  destruct (network env) as [|msg|msg] eqn:En; intros H.
  2: { exfalso. by apply H. }
  all: exists payload; split; [done|]; split; [done|].
  all: rewrite E; split; [exact H|]; split; [done|]; done.
Qed.

(** What the executor is told of a write that was sent, and the row of its
    proposal. *)
Definition told (idempotent : bool) (sent_over : delivery) (o : outcome) (st : proposal_status) : Prop :=
  match o with
  | Returned _ => st = p_completed
  | AmbiguousStepError _ => st = p_unknown
  | RetryableStepError _ _ => st = p_failed \/ idempotent = true /\ st = p_unknown
  | CorrectableStepError _ | Executor.PermissionError _ => st = p_failed
  | OtherException _ => sent_over = Delivered -> st = executing
  | PausedStepError _ _ | Killed => False
  end.

Lemma safe_error_certain e : PyValue.get (_safe_provider_error e).2 "outcome_certainty" = VStr "safe".
Proof. unfold _safe_provider_error. destruct (kind e); repeat case_match; done. Qed.

Lemma failure_told shown e retry_policy over :
  told (String.eqb retry_policy "idempotent") over
    (_raise_for_broker_failure shown (_safe_provider_error e).1 (_safe_provider_error e).2 "write" retry_policy)
    p_failed.
Proof.
  pose proof (safe_error_certain e) as Hs. unfold _raise_for_broker_failure. rewrite Hs.
  change (val_is (VStr "safe") "safe") with true. rewrite andb_false_r. cbn [negb].
  assert ((_safe_provider_error e).1 <> 202) as Hc.
  { unfold _safe_provider_error, slack_status. destruct (kind e); repeat case_match; cbn; lia. }
  apply Z.eqb_neq in Hc. rewrite Hc. repeat case_match; cbn; auto.
Qed.

Section sent.
Context (self : WorkflowBrokerDispatcher) (env : dispatch_env) (r : step) (resolved : pyval) (c : claim).

Definition idempotent_step : bool :=
  String.eqb (capability_retry_policy (Workflow.capability_id r) (Workflow.effect r)) "idempotent".

(** The outcome the executor gets of what the client received. *)
Definition outcome_of (answered : result outcome (Z * dict)) : outcome :=
  match answered with
  | Err o => o
  | Ok (status, body) =>
      if Z.eqb status 200 then Returned (completion body)
      else _raise_for_broker_failure (shown env) status body (Workflow.effect r)
             (capability_retry_policy (Workflow.capability_id r) (Workflow.effect r))
  end.
Lemma dispatch_step_eq w :
  dispatch_step self env r resolved c w
  = ((call_broker self env r resolved c w).1, outcome_of (call_broker self env r resolved c w).2).
Proof. unfold dispatch_step. by destruct (call_broker _ _ _ _ _ w) as [w' [[st body]|o]]. Qed.

Lemma told_fits answered st :
  Workflow.effect r = "write" -> record_fits answered st -> (forall msg, network env <> RequestLost msg) ->
  told idempotent_step (network env)
    (outcome_of (match network env with
                 | Delivered => match answered with
                                | Ok a => Ok a | Err _ => Err (OtherException "connection aborted") end
                 | RequestLost msg | AnswerLost msg => Err (OtherException msg)
                 end)) st.
Proof.
  intros Hw Hf Hn. destruct (network env) as [|msg|msg]; [|by destruct (Hn msg)|done].
  destruct answered as [[code body]|e]; [|by intros _]. cbn [outcome_of record_fits] in *.
  destruct (Z.eqb_spec code 200) as [|H200]; [done|].
  destruct (Z.eqb_spec code 202) as [->|H202].
  - unfold _raise_for_broker_failure, idempotent_step. rewrite Hw. cbn [Z.eqb negb orb String.eqb].
    change (negb (String.eqb "write" "write")) with false. cbn [orb].
    change (202 =? 202) with true. cbn iota.
    destruct (String.eqb _ "idempotent"); cbn; auto.
  - destruct Hf as [-> (e & _ & _ & E)]. unfold idempotent_step. rewrite Hw.
    pose proof (failure_told (shown env) e
      (capability_retry_policy (Workflow.capability_id r) "write") Delivered) as H.
    rewrite <- E in H. exact H.
Qed.

(** A dispatch that led to a provider call. *)
Lemma dispatch_sent w :
  let out := dispatch_step self env r resolved c w in
  w_calls out.1 <> w_calls w ->
  exists conn u g b b' x, prepared self env r resolved c conn u g b b'
    /\ w_calls out.1 = w_calls w ++ [x] /\ resolved = VDict (pc_payload x)
    /\ pc_capability x = Workflow.capability_id r
    /\ authenticated (internal_token env) (BEARER +:+ service_token env) = true
    /\ (pc_write x = true ->
          writes r = true
          /\ exists p, pc_proposal x = Some (p_key p) /\ proposal_id p = "proposal:" +:+ task_id r c
          /\ (others (service_env env) 5 = [] -> others (service_env env) 7 = [] ->
              exists q, q ∈ proposals (w_actions out.1) /\ p_key q = p_key p
                /\ told idempotent_step (network env) out.2 (pr_status q))).
Proof.
  intros out H. subst out. rewrite dispatch_step_eq in H |- *. cbn [fst snd] in *.
  destruct (call_broker_reached _ _ _ _ _ _ H) as (conn & u & g & b & b' & lease & w1 & Hp & Hc & Hpost & E).
  destruct (post_reached _ _ _ _ _ Hpost) as (payload & -> & Ha & Hreach & Ep & Hn).
  destruct (execute_sent _ _ _ _ _ _ Hreach) as (x & Hx & <- & Hcap & Hwr).
  exists conn, u, g, b, b', x. rewrite E, Ep. cbn [fst snd]. split; [done|]. split; [by rewrite Hx, Hc|].
  split; [done|].
  assert (PyValue.get b' "capability_id" = VStr (Workflow.capability_id r)) as Hcap'.
  { unfold PyValue.get. rewrite (pr_sent _ _ _ _ _ _ _ _ _ _ Hp) by set_solver.
    destruct (pr_first _ _ _ _ _ _ _ _ _ _ Hp) as (cid & credential & version & _ & _ & ->). done. }
  rewrite Hcap' in Hcap. injection Hcap as Hcap. split; [done|]. split; [done|].
  intros Hw. destruct (Hwr Hw) as (p & Hprop & Hid & Ht & Hrow).
  rewrite (pr_proposal _ _ _ _ _ _ _ _ _ _ Hp) in Hid, Ht.
  destruct (writes r) eqn:Ew; [|done]. split; [done|]. injection Hid as Hid.
  exists p. split; [done|]. split; [done|]. intros H5 H7.
  destruct (Hrow H5 H7) as (q & Hq & Hk & Hf). exists q. split; [done|]. split; [done|].
  apply told_fits; [|done|done]. by apply String.eqb_eq.
Qed.
End sent.

(** ** The theorems *)

Section theorems.
Context (self : WorkflowBrokerDispatcher) (env : dispatch_env) (r : step) (resolved : pyval) (c : claim).

(** C5. A dispatch reaches a provider only as the approved step.  When it leads
    to a provider call, the call carries the step's capability and its
    resolved input, which fills the approved template; the revision that was
    read is authorised, when the dispatcher looks, for the step's effect; the
    connection is live, of the credential version the plan was approved with,
    with the capability enabled; the policy allowed the binding; and a call
    that writes is one the plan declares a write, sent for the proposal named
    after that revision and step. *)
Theorem provider_gets_the_approved_step w x :
  x ∈ w_calls (dispatch_step self env r resolved c w).1 -> x ∉ w_calls w ->
  resolved = VDict (pc_payload x) /\ pc_capability x = Workflow.capability_id r
  /\ _matches_approved_template (input r) resolved = true
  /\ (exists rv rows,
        get_revision (reading env 1) (run_of r) (c_revision c) (tenant_of r) = Some (rv, rows)
        /\ is_step_authorized (reading env 2) (run_of r) (c_revision c) (tenant_of r)
             (plan_graph_hash rv) (Workflow.effect r) (Some (de_now env)) = true)
  /\ (exists cid conn b, usable env r cid conn /\ policy_allowed self env b conn
        /\ PyValue.get b "capability_id" = VStr (Workflow.capability_id r)
        /\ PyValue.get b "payload_hash" = (if writes r then VStr (canonical_payload_hash resolved) else VNone))
  /\ (pc_write x = true -> Workflow.effect r = "write"
        /\ exists v, pc_proposal x = Some ("proposal:" +:+ c_revision c +:+ ":" +:+ step_id r, v)).
Proof.
  intros Hx Hnew.
  assert (w_calls (dispatch_step self env r resolved c w).1 <> w_calls w) as Hs by congruence.
  destruct (dispatch_sent self env r resolved c w Hs) as (conn & u & g & b & b' & x' & Hp & E & Er & Hcap & _ & Hwr).
  rewrite E in Hx. apply elem_of_app in Hx as [Hx|Hx]; [done|]. apply list_elem_of_singleton in Hx. subst x'.
  destruct Hp as [(rv & rows & Hrev & ->) Hau _ Htm (cid & credential & version & Hus & _ & Eb) Hpol _ _].
  split; [done|]. split; [done|]. split; [done|]. split; [by exists rv, rows|].
  split; [exists cid, conn, b; subst b; split_and!; done|]. intros Hw. destruct (Hwr Hw) as (Hwrites & p & Hprop & Hid & _).
  split; [by apply String.eqb_eq|]. exists (Actions.version p). rewrite Hprop. unfold p_key. by rewrite Hid.
Qed.

(** The executor is told the truth about a write.  When a dispatch sent a
    write and nothing else touched its row as it was settled, the outcome
    handed to the executor agrees with the row of its proposal: a result means
    completed, an ambiguous outcome means unknown, an error that lets the step
    run again or asks a person means the attempt was recorded as failed (or,
    for an idempotent capability, that its outcome is unknown), and any other
    exception means the row still waits for the sweep, unless an answer was
    lost on the way. *)
Theorem executor_is_told_the_truth w x :
  let out := dispatch_step self env r resolved c w in
  w_calls out.1 = w_calls w ++ [x] -> pc_write x = true ->
  others (service_env env) 5 = [] -> others (service_env env) 7 = [] ->
  exists q, q ∈ proposals (w_actions out.1) /\ pc_proposal x = Some (p_key q)
    /\ told (idempotent_step r) (network env) out.2 (pr_status q).
Proof.
  intros out E Hw H5 H7.
  assert (w_calls out.1 <> w_calls w) as Hs.
  { rewrite E. intros El. apply (f_equal length) in El. rewrite length_app in El. simpl in El. lia. }
  destruct (dispatch_sent self env r resolved c w Hs) as (_ & _ & _ & _ & _ & x' & _ & E' & _ & _ & _ & Hwr).
  fold out in E', Hwr. rewrite E in E'. apply app_inj_2 in E' as [_ E']; [|done]. injection E' as <-.
  destruct (Hwr Hw) as (_ & p & Hprop & _ & Hrow). destruct (Hrow H5 H7) as (q & Hq & Hk & Ht).
  exists q. rewrite Hprop, Hk. done.
Qed.
End theorems.

(** ** The two stores after a pass *)

(** A completed step has a completed proposal; one that may be dispatched
    again, or waits for a person, has one that failed. *)
Definition stores_agree (over : delivery) (st : execution_status) (ps : proposal_status) : Prop :=
  match st with
  | completed => ps = p_completed
  | queued | paused_by_policy => ps = p_failed
  | execution_unknown => over = Delivered -> ps = p_unknown \/ ps = executing
  | _ => False
  end.

Lemma told_agrees over o st :
  told false over o st -> ExecutorProofs.raised o = true -> stores_agree over (settled_status o) st.
Proof. destruct o; simpl; intros H Hr; try done; [auto|naive_solver|auto]. Qed.

(** A completion that is answered was recorded. *)
Lemma completed_row ex v t d result s rep :
  keys_ok s -> Executor.answer (record_outcome ex v t d (Returned result) s) = Ok rep -> Executor.others ex 5 = [] ->
  exists r', r' ∈ steps (after (record_outcome ex v t d (Returned result) s))
    /\ key r' = (v, step_id (d_step d)) /\ status r' = completed.
Proof.
  intros Hk. unfold record_outcome. destruct result as [| | | | |result]; try done.
  destruct (as_attestation _) as [att|]; [|done].
  destruct (completion_cases v (step_id (d_step d)) t (c_attempt (d_claim d))
    (get_or result "receipt" (VDict [])) att s (settle_now ex) (get_or result "output" (VDict [])) Hk)
    as [(e & -> & _)|(a & r & b & El & Hc & ->)]; [done|]. intros _ H5. cbn [after].
  unfold Executor.interleave. rewrite H5. cbn [exec_all fold_left].
  match goal with |- exists r', r' ∈ steps (exec (FinishLease ?c' ?t' ?n ?b') ?s') /\ _ =>
    assert (steps (exec (FinishLease c' t' n b') s') = steps s') as E
      by (simpl; unfold finish_claim_lease; by repeat case_match); rewrite E; clear E end.
  destruct (close_revision_tables v t (settle_now ex) (completed_store v (step_id (d_step d)) t (c_attempt (d_claim d))
    (get_or result "receipt" (VDict [])) att s (settle_now ex) (get_or result "output" (VDict [])) a r b)) as (-> & _).
  destruct Hc as [[_ Hr%is_step_key] _ _ _ _ _]. eexists. split; [cbn [steps completed_store]; apply elem_of_app; right; apply list_elem_of_here|].
  done.
Qed.

(** C6. A pass leaves the two stores agreeing.  When a worker's pass sent a
    non-idempotent write and recorded what the dispatcher told it, with nothing
    else touching either row meanwhile, the step's row and the row of its
    proposal agree: completed with completed; back in the queue or waiting for
    a person only if the attempt is recorded as failed; unknown if the
    proposal is unknown or awaits the sweep, or an answer was lost. *)
Theorem pass_leaves_the_stores_agreeing ex self env v t d s w x a b r l :
  let out := dispatch_step self env (d_step d) (d_input d) (d_claim d) w in
  let pass := record_outcome ex v t d out.2 s in
  Executor.others ex 5 = [] -> keys_ok s -> steps s = a ++ r :: b ->
  is_step v (step_id (d_step d)) t r = true -> status r = running ->
  Workflow.attempt r = c_attempt (d_claim d) -> open_lease s t (d_claim d) l ->
  w_calls out.1 = w_calls w ++ [x] -> pc_write x = true -> idempotent_step (d_step d) = false ->
  others (service_env env) 5 = [] -> others (service_env env) 7 = [] ->
  (exists rep, Executor.answer pass = Ok rep) ->
  exists r' q, r' ∈ steps (after pass) /\ key r' = key r
    /\ q ∈ proposals (w_actions out.1) /\ pc_proposal x = Some (p_key q)
    /\ stores_agree (network env) (status r') (pr_status q).
Proof.
  intros out pass Ho Hk El Hr Hst Hn Hl E Hw Hi H5 H7 [rep Hrep].
  assert (w_calls out.1 <> w_calls w) as Hs.
  { rewrite E. intros El'. apply (f_equal length) in El'. rewrite length_app in El'. simpl in El'. lia. }
  destruct (dispatch_sent self env (d_step d) (d_input d) (d_claim d) w Hs)
    as (_ & _ & _ & _ & _ & x' & _ & E' & _ & _ & _ & Hwr).
  fold out in E', Hwr. rewrite E in E'. apply app_inj_2 in E' as [_ E']; [|done]. injection E' as <-.
  destruct (Hwr Hw) as (_ & p & Hprop & _ & Hrow). destruct (Hrow H5 H7) as (q & Hq & Hkq & Ht).
  clear Hwr Hrow. rewrite Hi in Ht.
  assert (exists r', r' ∈ steps (after pass) /\ key r' = key r
    /\ stores_agree (network env) (status r') (pr_status q)) as (r' & Hr' & Hkr & Ha).
  2: { exists r', q. by rewrite Hprop, Hkq. }
  unfold pass in *. clear pass. destruct (ExecutorProofs.raised out.2) eqn:Hraised.
  - destruct (raised_settles ex v t d out.2 s r Hr Hst Hn Hraised)
      as (Hr' & f & p' & m & Es & Hm & Hp & Hpr & Hpl & H1 & _).
    exists (f r). rewrite Es, (settle_row ex v t s a b r (d_claim d) l Ho Hk El Hl m p' f) by done.
    split; [cbn [steps with_leases with_steps]; apply elem_of_app; right; apply list_elem_of_here|].
    split; [by destruct Hpl|].
    rewrite H1. by apply told_agrees.
  - destruct out.2 as [result| | | | | | |]; try discriminate Hraised; [|done].
    destruct (completed_row ex v t d result s rep Hk Hrep Ho) as (r' & Hin & Hkr & Hsr).
    exists r'. split; [done|]. apply is_step_key in Hr. split; [congruence|]. rewrite Hsr. exact Ht.
Qed.

(** ** Resolution and the approved template *)

(** A value as Python has it: the keys of a mapping are distinct. *)
Fixpoint distinct_keys (v : pyval) : Prop :=
  match v with
  | VDict d => NoDup d.*1 /\ (fix all (d : list (string * pyval)) : Prop :=
                                match d with [] => True | kv :: d' => distinct_keys kv.2 /\ all d' end) d
  | VList l => (fix all (l : list pyval) : Prop :=
                  match l with [] => True | x :: l' => distinct_keys x /\ all l' end) l
  | _ => True
  end.
Lemma distinct_keys_dict d : distinct_keys (VDict d) <-> NoDup d.*1 /\ Forall (fun kv => distinct_keys kv.2) d.
Proof.
  cbn [distinct_keys]. apply and_iff_compat_l. induction d as [|kv d IH]; [by split|]. by rewrite Forall_cons, IH.
Qed.
Lemma distinct_keys_list l : distinct_keys (VList l) <-> Forall distinct_keys l.
Proof.
  cbn [distinct_keys]. induction l as [|x l IH]; [by split|]. by rewrite Forall_cons, IH.
Qed.

Section paired.
Context (P : pyval -> pyval -> Prop).
Abbreviation paired := (Forall2 (fun a b : string * pyval => a.1 = b.1 /\ P a.2 b.2)).

Lemma paired_dget d d' kv : paired d d' -> NoDup d.*1 -> kv ∈ d -> exists y, dget d' kv.1 = Some y /\ P kv.2 y.
Proof.
  induction 1 as [|[k x] [k' y] d d' [Hk Hp] _ IH]; intros Hn Hin; [by apply elem_of_nil in Hin|].
  simpl in Hk. subst k'. cbn [dget fst snd fmap list_fmap] in *. apply NoDup_cons in Hn as [Hnk Hn].
  apply elem_of_cons in Hin as [->|Hin].
  - rewrite String.eqb_refl. by exists y.
  - destruct (String.eqb_spec k kv.1) as [->|]; [|by apply IH].
    destruct Hnk. apply list_elem_of_fmap. by exists kv.
Qed.
Lemma paired_keys d d' : paired d d' -> d'.*1 = d.*1.
Proof. induction 1 as [|[k x] [k' y] d d' [Hk _] _ IH]; [done|]. simpl in Hk. subst k'. cbn. f_equal. exact IH. Qed.
End paired.

Lemma dget_in d k : is_Some (dget d k) <-> k ∈ d.*1.
Proof.
  induction d as [|[k' x] d IH]; cbn [dget fmap list_fmap fst]; [by rewrite elem_of_nil, is_Some_alt|].
  rewrite elem_of_cons. destruct (String.eqb_spec k' k) as [->|Hn]; [|rewrite IH; naive_solver].
  split; [by left|]. intros _. by eexists.
Qed.
Lemma same_keys_refl d d' : d'.*1 = d.*1 -> same_keys d d' = true.
Proof.
  intros E. unfold same_keys. rewrite andb_true_iff, !forallb_forall. split.
  - intros kv Hkv. apply bool_decide_eq_true, dget_in. rewrite E. apply list_elem_of_fmap.
    exists kv. split; [done|]. by apply list_elem_of_In.
  - intros kv Hkv. apply bool_decide_eq_true, dget_in. rewrite <- E. apply list_elem_of_fmap.
    exists kv. split; [done|]. by apply list_elem_of_In.
Qed.

Lemma template_dict d d' :
  NoDup d.*1 ->
  Forall2 (fun a b => a.1 = b.1 /\ _matches_approved_template a.2 b.2 = true) d d' ->
  _matches_approved_template (VDict d) (VDict d') = true.
Proof.
  intros Hn H. cbn [_matches_approved_template]. destruct (declares_ref d); [done|].
  apply andb_true_iff. split.
  { by apply same_keys_refl, (paired_keys (fun x y => _matches_approved_template x y = true)). }
  apply forallb_forall. intros kv Hkv%list_elem_of_In.
  destruct (paired_dget (fun x y => _matches_approved_template x y = true) d d' kv H Hn Hkv) as (y & -> & Hy).
  exact Hy.
Qed.
Lemma template_list l l' :
  Forall2 (fun x y => _matches_approved_template x y = true) l l' ->
  _matches_approved_template (VList l) (VList l') = true.
Proof.
  intros H. cbn [_matches_approved_template]. induction H as [|x y l l' Hx _ IH]; [done|].
  by rewrite Hx, IH.
Qed.

(** Resolving a mapping resolves it field by field, unless it is a reference. *)
Lemma resolve_dict s rows v t d y :
  declares_ref d = false -> _resolve_input s rows v t (VDict d) = Ok y ->
  exists d', y = VDict d'
    /\ Forall2 (fun a b => a.1 = b.1 /\ _resolve_input s rows v t a.2 = Ok b.2) d d'.
Proof.
  intros Hd H.
  assert (match mapM_result (fun kv => match _resolve_input s rows v t kv.2 with
                                       | Ok y => Ok (kv.1, y) | Err e => Err e end) d with
          | Ok d' => Ok (VDict d') | Err e => Err e end = Ok y) as E.
  { destruct d as [|[k x] [|kv d]]; [exact H| |exact H]. cbn [declares_ref] in Hd.
    cbn [_resolve_input] in H. rewrite Hd in H. cbn. by destruct (_resolve_input s rows v t x). }
  clear H. destruct (mapM_result _ d) as [d'|e] eqn:Em; [|done]. injection E as <-. exists d'. split; [done|].
  apply mapM_result_ok in Em. eapply Forall2_impl; [exact Em|]. intros [k x] [k' x'] Hx. cbn in *.
  destruct (_resolve_input s rows v t x) as [z|e]; [|done]. injection Hx as <- <-. done.
Qed.

(** Resolution never strays from what was approved.  Whatever the outputs
    and receipts of earlier steps hold, an input the executor resolves fits
    the approved template the dispatcher holds it against: the check only
    ever stops an input that did not come from resolving the approved one. *)
Theorem resolved_input_fits_the_template s rows v t value y :
  distinct_keys value -> _resolve_input s rows v t value = Ok y ->
  _matches_approved_template value y = true.
Proof.
  revert y. induction value as [| | | |l IH|d IH] using pyval_ind'; intros y Hk H.
  - by injection H as <-.
  - injection H as <-. apply Z.eqb_refl.
  - injection H as <-. apply Z.eqb_refl.
  - injection H as <-. apply String.eqb_refl.
  - rewrite distinct_keys_list in Hk. cbn [_resolve_input] in H.
    destruct (mapM_result _ l) as [l'|e] eqn:Em; [|done]. injection H as <-.
    apply mapM_result_ok in Em. apply template_list.
    induction Em as [|x z l l' Hx _ IHl]; [constructor|].
    apply Forall_cons in IH as [IHx IH], Hk as [Hkx Hk]. constructor; [by apply IHx|by apply IHl].
  - destruct (declares_ref d) eqn:Ed; [cbn [_matches_approved_template]; by rewrite Ed|].
    apply resolve_dict in H as (d' & -> & H); [|done]. apply distinct_keys_dict in Hk as [Hn Hk].
    apply template_dict; [done|]. clear Ed Hn.
    induction H as [|a b d d' [Ha Hb] _ IHd]; [constructor|].
    apply Forall_cons in IH as [IHa IH], Hk as [Hka Hk]. constructor; [|by apply IHd].
    split; [done|]. by apply IHa.
Qed.

(** ** Account authority *)

(** Raising, without a trace, something that is not a result. *)
Definition refuses {A} (m : dm A) (w : world) : Prop :=
  exists o, m w = (w, Err o) /\ forall result, o <> Returned result.
(** A check: it changes nothing, and raises no result. *)
Definition check {A} (m : dm A) : Prop := forall w, refuses m w \/ exists a, m w = (w, Ok a).

Lemma refuses_bind {A B} (m : dm A) (k : A -> dm B) w :
  check m -> (forall a, m w = (w, Ok a) -> refuses (k a) w) -> refuses (stm_bind m k) w.
Proof.
  intros Hm Hk. unfold refuses. unfold stm_bind.
  destruct (Hm w) as [(o & E & Ho)|[a E]]; rewrite E; [by exists o|]. by apply Hk.
Qed.
Lemma check_bind {A B} (m : dm A) (k : A -> dm B) : check m -> (forall a, check (k a)) -> check (stm_bind m k).
Proof.
  intros Hm Hk w. unfold refuses, stm_bind. destruct (Hm w) as [(o & E & Ho)|[a E]]; rewrite E.
  - left. by exists o.
  - apply Hk.
Qed.
Lemma check_of_option {A} e (o : option A) : (forall result, e <> Returned result) -> check (of_option e o).
Proof. intros He w. destruct o; [right; by eexists|left; by exists e]. Qed.
Lemma check_ensure b e : (forall result, e <> Returned result) -> check (ensure b e).
Proof. intros He w. destruct b; [right; by eexists|left; by exists e]. Qed.
Lemma check_ret {A} (a : A) : check (stm_ret a).
Proof. intros w. right. by exists a. Qed.
Ltac checking := repeat first [apply check_of_option; done | apply check_ensure; done | apply check_ret
  | apply check_bind; [|intros ?] | intros ?; left; by eexists | progress case_match].

Lemma account_not_allowed self env r resolved c u g cid credential version conn pe def d :
  find_definition (pe_definitions pe) (Workflow.capability_id r) (capability_version r) = Some def ->
  Catalog.authority_profile def = "account" ->
  Policy.evaluate pe (VDict (first_binding self env r resolved c u g cid credential version conn))
    (VDict conn) (de_now env) = Ok d ->
  Policy.allowed d = false.
Proof.
  intros Hdef Hacc E. destruct (Policy.allowed d) eqn:Ea; [|done]. exfalso.
  destruct (allowed_authorised _ _ _ _ _ E Ea) as (def' & en & ss & gr & bd & Hd & _ & _ & _ & _ & Hau).
  cbn [as_mapping] in Hd. unfold lookup_definition in Hd. cbn in Hd. rewrite Hdef in Hd.
  injection Hd as <-. destruct (au_supported _ _ _ _ _ _ _ _ _ _ _ Hau) as [Hp _]. rewrite Hacc in Hp.
  by destruct (au_account _ _ _ _ _ _ _ _ _ _ _ Hau Hp) as [Ht _].
Qed.

Lemma account_refused self env r resolved c w pe def :
  d_policy_evaluator self = Some pe ->
  find_definition (pe_definitions pe) (Workflow.capability_id r) (capability_version r) = Some def ->
  Catalog.authority_profile def = "account" -> refuses (call_broker self env r resolved c) w.
Proof.
  intros Hpe Hdef Hacc. unfold call_broker.
  apply refuses_bind; [unfold live_connection; checking|intros conn _].
  apply refuses_bind; [unfold same_credential; cbv zeta; checking|intros _ _].
  apply refuses_bind; [unfold still_enabled; checking|intros _ _].
  do 7 (apply refuses_bind; [checking|intros ? _]). cbv zeta.
  match goal with |- refuses (stm_bind (decided _ _ ?b _) _) _ => set (b0 := b) end.
  unfold decided. rewrite Hpe. destruct (Policy.evaluate _ _ _ _) as [d|e] eqn:E; [|by eexists].
  rewrite (account_not_allowed _ _ _ _ _ _ _ _ _ _ _ _ _ _ Hdef Hacc E). by eexists.
Qed.

(** No effect that acts as a provider account is ever dispatched.  The
    binding the dispatcher builds names no provider account, so with the
    policy in place a capability whose descriptor asks for account authority
    is refused whatever the connection holds: the provider is not called, no
    proposal or lease is made, and the step is not completed. *)
Theorem account_effects_are_never_dispatched self env r resolved c w pe def :
  d_policy_evaluator self = Some pe ->
  find_definition (pe_definitions pe) (Workflow.capability_id r) (capability_version r) = Some def ->
  Catalog.authority_profile def = "account" ->
  let out := dispatch_step self env r resolved c w in
  out.1 = w /\ forall result, out.2 <> Returned result.
Proof.
  intros Hpe Hdef Hacc out. unfold out. rewrite dispatch_step_eq. cbn [fst snd].
  destruct (account_refused self env r resolved c w pe def Hpe Hdef Hacc) as (o & E & Ho).
  by rewrite E.
Qed.

(** ** A post to Slack, end to end *)

Definition post_input : pyval := VDict [("text", VStr "hi")].
Definition post_spec : step_spec := {|
  n_step_id := "post"; n_capability_id := "slack.message.send"; n_capability_version := "1";
  n_connection_id := Some "c1"; n_descriptor_snapshot_hash := descriptor_hash ex_definition;
  n_input_hash := "i"; n_credential_version := Some 3; n_input := post_input; n_depends_on := [];
  n_effect := "write" |}.
Definition post_plan : list call := [
  CreateRun "t1" "ana" "goal" 0 "r"; CreateRevision "workflow:r" "t1" "h" [post_spec] 0 60 "v";
  Approve "workflow:r" "revision:v" "t1" "h" "ana" 1 1000;
  Claim "workflow:r" "revision:v" "t1" "w1" 10 30 "k1"].
Definition post_row : step := start "w1" 10 (new_step "workflow:r" "revision:v" "t1" 60 post_spec).
Definition post_claim (n : Z) : claim := {|
  c_lease := "k1"; c_step := "post"; c_attempt := n; c_revision := "revision:v" |}.
Definition post_store : store := exec_all post_plan empty_store.
Definition post_runtime : ProviderRuntime := {|
  rt_provider := "slack"; rt_definitions := [ex_definition]; rt_strategy := SealedTokenDocument |}.
Definition post_broker : ActionBroker := {|
  dispatch_policy _ := Bool true; runtime_registry := Some [(ex_definition, post_runtime)];
  rollout := "r1"; schema_valid _ _ := true;
  credential_authorizer := Some (oauth_connection_authorizer (fun _ _ => Some (as_mapping ex_live)) (fun _ => None));
  credential_connector := None; agent_url_resolver := Some (fun _ => Some "https://agent");
  identity_verifier _ _ := true; policy_evaluator := Some ex_evaluator;
  connection_resolver := Some (fun _ _ => ex_live); live_eligibility := None;
  credential_rotators _ := None;
  attestor := Some (fun _ _ _ _ => Ok [("attestation_id", VStr "att-1")]); evidence_submitter := None |}.
Definition post_surroundings (reply : result provider_exn pyval) : surroundings := {|
  clock _ := 20; others _ := [];
  custody _ := Ok {| as_text := None; as_document := Some (VDict [("access_token", VStr "xoxb")]) |};
  refresh _ := Err (permission_error "unused"); provider_client _ := reply |}.
Definition post_dispatcher : WorkflowBrokerDispatcher := {|
  d_agent_principal_id := "agent:orchestrator"; d_ttl := 300; d_rollout_version := "r1";
  d_policy_evaluator := Some ex_evaluator |}.
Definition post_env (token : string) (over : delivery) (reply : result provider_exn pyval) : dispatch_env := {|
  de_now := 20; reading _ := post_store; get_installation _ _ := Some (as_mapping ex_live);
  between _ := []; uuid := "u"; lease_token := token; error_text _ := ""; shown _ := "";
  service := post_broker; service_env := post_surroundings reply; internal_token := Some "secret";
  service_token := "secret"; network := over |}.
Definition posted (over : delivery) (reply : result provider_exn pyval) : world * outcome :=
  dispatch_step post_dispatcher (post_env "l1" over reply) post_row post_input (post_claim 1)
    {| w_actions := no_actions; w_calls := [] |}.
Definition receipt_of_post : result provider_exn pyval := Ok (VDict [("ts", VStr "1")]).
Definition refused_receipt : result provider_exn pyval := Ok (VDict [("ts", VStr "1"); ("Token", VStr "x")]).
Definition statuses (w : world) : list (Z * proposal_status) :=
  map (fun p => (Actions.version p, pr_status p)) (proposals (w_actions w)).

Example post_completes :
  let out := posted Delivered receipt_of_post in
  length (w_calls out.1) = 1%nat /\ statuses out.1 = [(1, p_completed)]
  /\ out.2 = Returned (VDict [("receipt", VDict [("ts", VStr "1")]); ("output", VDict [("ts", VStr "1")]);
                              ("attestation", VDict [("attestation_id", VStr "att-1")])]).
Proof. vm_compute. split_and!; reflexivity. Qed.

Example post_answer_lost :
  let out := posted (AnswerLost "timeout") receipt_of_post in
  statuses out.1 = [(1, p_completed)] /\ out.2 = OtherException "timeout".
Proof. vm_compute. split_and!; reflexivity. Qed.

(** Slack took the message and its receipt was refused: the dispatcher calls
    it retryable, the executor queues the step again, and the next dispatch
    posts the message a second time. *)
Definition first_try : world * outcome := posted Delivered refused_receipt.
Definition requeued : store :=
  after (record_outcome ExecutorProofs.demo_env "revision:v" "t1"
    {| d_step := post_row; d_input := post_input; d_claim := post_claim 1 |} first_try.2 post_store).
Definition second_try : world * outcome :=
  dispatch_step post_dispatcher (post_env "l2" Delivered receipt_of_post) post_row post_input (post_claim 2)
    first_try.1.
Example refused_receipt_posts_twice :
  first_try.2 = RetryableStepError "provider is temporarily unavailable" None
  /\ map status (steps requeued) = [queued]
  /\ map pc_payload (w_calls second_try.1) = [[("text", VStr "hi")]; [("text", VStr "hi")]]
  /\ statuses second_try.1 = [(1, p_failed); (2, p_completed)].
Proof. vm_compute. split_and!; reflexivity. Qed.

(** ** Witnesses *)

Lemma provider_gets_the_approved_step_witness :
  exists x, x ∈ w_calls (posted Delivered receipt_of_post).1 /\ pc_capability x = "slack.message.send"
  /\ post_input = VDict (pc_payload x).
Proof.
  assert (exists x, w_calls (posted Delivered receipt_of_post).1 = [x]) as [x E] by (vm_compute; by eexists).
  exists x. assert (x ∈ w_calls (posted Delivered receipt_of_post).1) as Hx by (rewrite E; apply list_elem_of_here).
  split; [exact Hx|].
  destruct (provider_gets_the_approved_step _ _ _ _ _ _ _ Hx (not_elem_of_nil x)) as (Hp & Hc & _).
  split; [exact Hc|exact Hp].
Defined.

Lemma executor_is_told_the_truth_witness :
  exists x q, w_calls (posted Delivered receipt_of_post).1 = [x]
  /\ q ∈ proposals (w_actions (posted Delivered receipt_of_post).1) /\ pr_status q = p_completed.
Proof.
  assert (exists x, w_calls (posted Delivered receipt_of_post).1 = [x] /\ pc_write x = true) as (x & E & Hw)
    by (vm_compute; eexists; split; reflexivity).
  assert (exists v, (posted Delivered receipt_of_post).2 = Returned v) as [v Ev] by (vm_compute; by eexists).
  destruct (executor_is_told_the_truth post_dispatcher (post_env "l1" Delivered receipt_of_post) post_row post_input
    (post_claim 1) {| w_actions := no_actions; w_calls := [] |} x E Hw eq_refl eq_refl) as (q & Hq & _ & Ht).
  exists x, q. split; [exact E|]. split; [exact Hq|].
  fold (posted Delivered receipt_of_post) in Ht. rewrite Ev in Ht. exact Ht.
Defined.

Lemma pass_leaves_the_stores_agreeing_witness :
  exists r' q, r' ∈ steps requeued /\ q ∈ proposals (w_actions first_try.1)
  /\ stores_agree Delivered (status r') (pr_status q).
Proof.
  assert (exists x, w_calls first_try.1 = [x] /\ pc_write x = true) as (x & E & Hw)
    by (vm_compute; eexists; split; reflexivity).
  pose proof (built_keys post_plan) as Hk.
  assert (steps post_store = [post_row]) as Hrows by (vm_compute; reflexivity).
  assert (exists l, open_lease post_store "t1" (post_claim 1) l) as [l Hl].
  { eexists {| l_revision := "revision:v"; l_step := "post"; l_attempt := 1; l_tenant := "t1";
      worker_id := "w1"; l_expires_at := 40; consumed_at := None; revoked_at := None |}.
    constructor; [discriminate|vm_compute; reflexivity|reflexivity|reflexivity|split; reflexivity]. }
  assert (exists rep, Executor.answer (record_outcome ExecutorProofs.demo_env "revision:v" "t1"
    {| d_step := post_row; d_input := post_input; d_claim := post_claim 1 |} first_try.2 post_store) = Ok rep)
    as Hrep by (vm_compute; by eexists).
  destruct (pass_leaves_the_stores_agreeing ExecutorProofs.demo_env post_dispatcher
    (post_env "l1" Delivered refused_receipt) "revision:v" "t1"
    {| d_step := post_row; d_input := post_input; d_claim := post_claim 1 |} post_store
    {| w_actions := no_actions; w_calls := [] |} x [] [] post_row l eq_refl Hk Hrows eq_refl eq_refl eq_refl
    Hl E Hw eq_refl eq_refl eq_refl Hrep) as (r' & q & Hr & _ & Hq & _ & Ha).
  exists r', q. split; [exact Hr|]. split; [exact Hq|exact Ha].
Defined.

Definition greeting : pyval := VDict [("channel", VDict [("$ref", VStr "post.output.channel")]);
                                      ("text", VStr "hello")].
Definition posted_rows : list step := [
  complete_row "pending" (VDict [("channel", VStr "C1")]) post_row].
Lemma resolved_input_fits_the_template_witness :
  _resolve_input post_store posted_rows "revision:v" "t1" greeting
    = Ok (VDict [("channel", VStr "C1"); ("text", VStr "hello")])
  /\ _matches_approved_template greeting (VDict [("channel", VStr "C1"); ("text", VStr "hello")]) = true
  /\ _matches_approved_template greeting (VDict [("channel", VStr "C1"); ("text", VStr "bye")]) = false.
Proof.
  assert (_resolve_input post_store posted_rows "revision:v" "t1" greeting
    = Ok (VDict [("channel", VStr "C1"); ("text", VStr "hello")])) as E by (vm_compute; reflexivity).
  assert (distinct_keys greeting) as Hd.
  { simpl. split_and!; try exact I; repeat constructor; set_solver. }
  split; [exact E|]. split; [exact (resolved_input_fits_the_template _ _ _ _ _ _ Hd E)|reflexivity].
Defined.

(** The same step as one that acts as a provider account. *)
Definition account_definition : TrustedCapabilityDefinition := {|
  Catalog.capability_id := "slack.message.send"; Catalog.version := "1"; provider := "slack";
  input_schema := VDict []; output_schema := VDict []; required_scopes := ["chat:write"];
  Catalog.effect := "write"; risk := "medium"; retry_policy := "none"; preview_fields := [];
  verifier := None; Catalog.authority_profile := "account"; Catalog.reinforced := false |}.
Definition account_dispatcher : WorkflowBrokerDispatcher := {|
  d_agent_principal_id := "agent:orchestrator"; d_ttl := 300; d_rollout_version := "r1";
  d_policy_evaluator := Some {| pe_version := "policy-v3"; rollout_version := "r1";
                                pe_definitions := [account_definition] |} |}.
Definition account_row : dict := dict_update (as_mapping ex_live)
  [("authority_profile", VStr "account"); ("provider_account_id", VStr "AC1"); ("account_status", VStr "verified")].
Definition account_env : dispatch_env := {|
  de_now := 20; reading _ := post_store; get_installation _ _ := Some account_row;
  between _ := []; uuid := "u"; lease_token := "l1"; error_text _ := ""; shown _ := "";
  service := post_broker; service_env := post_surroundings receipt_of_post; internal_token := Some "secret";
  service_token := "secret"; network := Delivered |}.
Lemma account_effects_are_never_dispatched_witness :
  let out := dispatch_step account_dispatcher account_env post_row post_input (post_claim 1)
    {| w_actions := no_actions; w_calls := [] |} in
  w_calls out.1 = [] /\ out.2 = Executor.PermissionError "dynamic policy denied: account_authority_unbound".
Proof.
  intros out.
  destruct (account_effects_are_never_dispatched account_dispatcher account_env post_row post_input (post_claim 1)
    {| w_actions := no_actions; w_calls := [] |} _ account_definition eq_refl eq_refl eq_refl) as [E _].
  split; [exact (f_equal w_calls E)|vm_compute; reflexivity].
Defined.
