(* ===== verification/Reconciliation.v ===== *)
(** * Reconciling unknown outcomes

    src/agents/orchestrator/reconciliation.py over the workflow store and the
    action store: [reconcile_unknown_action], and [WorkflowReconciler], which
    asks a provider what became of each write whose outcome is unknown.  Also
    [DeliveryVerdictService] of delivery_verdict.py, which puts what a carrier
    reports on the verification axis.

    A provider's reconciler is an argument: it returns a value or raises the
    named exception.  Reasons and verification statuses it reports are text. *)

From S2P Require Import Prelude Rows PyValue Json Sha256 PlanSchema Workflow WorkflowProofs WorkflowClaims Actions.
Local Open Scope Z_scope.

(** ** A single proposal *)

Inductive action_verdict : Type :=
| NotUnknown
| StillUnknown
| ActionCompleted (receipt : pyval).

Definition reconcile_unknown_action (key : string) (tenant_id : option string)
    (provider_lookup : pyval) (now_ts : Z) : actm action_verdict := fun s =>
  match get_by_idempotency_key s key tenant_id with
  | Some p =>
      if bool_decide (pr_status p = p_unknown) then
        match provider_lookup with
        | VDict receipt =>
            let s' := (complete_execution (proposal_id p) (version p) (VDict receipt) now_ts None s).1 in
            (s', Ok (ActionCompleted (VDict receipt)))
        | _ => (s, Ok StillUnknown)
        end
      else (s, Ok NotUnknown)
  | None => (s, Ok NotUnknown)
  end.

(** ** The reconciler *)

Record both := { workflows : store; acts : option actions }.

Record reconciler := {
  (* per capability family: the step and its plan hash, and the time *)
  providers : string -> option (step * string -> Z -> result string pyval);
  reconciler_id : string;
  retry_seconds : Z;
  max_attempts : Z;
}.
Definition RETRY_SECONDS : Z := 60.
Definition RECONCILE_ATTEMPTS : Z := 5.

Record verdict := {
  v_status : string;
  v_applied : option bool;
  v_exhausted : option bool;
  v_reason : option string;
  v_key : string * string;
}.

Inductive reconcile_error : Type :=
| WorkflowError (e : wf_error)
| ReconcileAttributeError
| ReconcileConversionError (e : pyexn).

Section reconciler.
Context (self : reconciler).

Definition _ask_provider (x : step * string) (now_ts : Z) : result reconcile_error (list (string * pyval)) :=
  let family := default "" (head (split_dot (capability_id x.1))) in
  match providers self family with
  | None => Ok [("execution_status", VStr "execution_unknown");
                ("reason", VStr ("no reconciler is registered for "
                                 +:+ (if truthy family then family else "?")))]
  | Some f =>
      match f x now_ts with
      | Err name => Ok [("execution_status", VStr "execution_unknown");
                        ("reason", VStr ("provider was unreachable: " +:+ name))]
      | Ok v => if truthy v then match v with VDict d => Ok d | _ => Err ReconcileAttributeError end
                else Ok []
      end
  end.

(** The mapping [apply_reconciliation] reads. *)
Definition observation_of (d : list (string * pyval)) (now_ts : Z) : observation := {|
  o_status := match PyValue.get d "execution_status" with VStr s => s | _ => "" end;
  o_receipt := dget d "receipt";
  o_attestation := dget d "attestation";
  o_output := dget d "output";
  o_verification := match dget d "verification_status" with Some (VStr s) => Some s | _ => None end;
  o_reconciled_at := Some now_ts |}.

Definition _proposal (b : both) (x : step) : option proposal :=
  a ← acts b;
  get_by_idempotency_key a
    ("workflow:" +:+ revision_of x +:+ ":" +:+ step_id x +:+ ":attempt:" +:+ pretty.pretty (attempt x))
    (Some (tenant_of x)).
Definition on_actions (b : both) (f : actions -> actions) : both :=
  {| workflows := workflows b; acts := f <$> acts b |}.
Definition run_call (b : both) (c : call) : both :=
  {| workflows := exec c (workflows b); acts := acts b |}.

Definition defer_reason (d : list (string * pyval)) : string :=
  match PyValue.get d "reason" with
  | VStr s => if truthy s then s else "reconciliation is unresolved"
  | _ => "reconciliation is unresolved"
  end.
Definition _defer (b : both) (x : step) (d : list (string * pyval)) (now_ts : Z)
    : both * result reconcile_error verdict :=
  let exhausted := max_attempts self <=? reconcile_attempts x + 1 in
  let reason := defer_reason d in
  let raw := PyValue.get d "retry_after" in
  match (if truthy raw then py_int raw else Ok (retry_seconds self)) with
  | Err e => (b, Err (ReconcileConversionError e))
  | Ok retry_after =>
      (run_call b (Defer (revision_of x) (step_id x) (tenant_of x) (attempt x)
         (if exhausted then "awaiting human resolution: " +:+ reason else reason)
         (now_ts + (if exhausted then retry_seconds self else retry_after))),
       Ok {| v_status := "execution_unknown"; v_applied := None; v_exhausted := Some exhausted;
             v_reason := Some reason; v_key := key x |})
  end.

Definition is_dict (o : option pyval) : bool :=
  match o with Some (VDict _) => true | _ => false end.

(** [apply_reconciliation], then the proposal of the attempt. *)
Definition _apply (b : both) (x : step) (d : list (string * pyval)) (now_ts : Z) (status : string)
    (settle : proposal -> actions -> actions) : both * result reconcile_error verdict :=
  match apply_reconciliation (revision_of x) (step_id x) (tenant_of x) (attempt x)
          (observation_of d now_ts) (workflows b) with
  | (w, Err e) => ({| workflows := w; acts := acts b |}, Err (WorkflowError e))
  | (w, Ok applied) =>
      let b' := {| workflows := w; acts := acts b |} in
      (match _proposal b' x with
       | Some p => on_actions b' (settle p)
       | None => b'
       end,
       Ok {| v_status := status; v_applied := Some applied; v_exhausted := None;
             v_reason := None; v_key := key x |})
  end.

Definition _apply_completion (b : both) (x : step) (d : list (string * pyval)) (now_ts : Z)
    : both * result reconcile_error verdict :=
  if negb (is_dict (dget d "receipt") && is_dict (dget d "attestation")) then
    _defer b x (("reason", VStr "provider confirmed the effect without a signed receipt") :: d) now_ts
  else
    _apply b x d now_ts "completed"
      (fun p a => (complete_execution (proposal_id p) (version p)
         (let receipt := PyValue.get d "receipt" in if truthy receipt then receipt else VDict [])
         now_ts None a).1).

Definition _apply_absence (b : both) (x : step) (d : list (string * pyval)) (now_ts : Z)
    : both * result reconcile_error verdict :=
  _apply b x d now_ts "queued"
    (fun p a => (resolve_unknown_as_absent (proposal_id p) (version p)
       "reconciliation proved no effect occurred" now_ts a).1).

Definition reconcile (b : both) (x : step * string) (now_ts : Z)
    : both * result reconcile_error (option verdict) :=
  let c := ClaimUnresolved (revision_of x.1) (step_id x.1) (tenant_of x.1) (attempt x.1)
             (reconciler_id self) now_ts (retry_seconds self) in
  match (claim_unresolved_write_step (revision_of x.1) (step_id x.1) (tenant_of x.1) (attempt x.1)
           (reconciler_id self) now_ts (retry_seconds self) (workflows b)).2 with
  | Ok true =>
      let b := run_call b c in
      match _ask_provider x now_ts with
      | Err e => (b, Err e)
      | Ok d =>
          let status := PyValue.get d "execution_status" in
          let r := if val_is status "completed" then _apply_completion b x.1 d now_ts
                   else if val_is status "queued" then _apply_absence b x.1 d now_ts
                   else _defer b x.1 d now_ts in
          (r.1, match r.2 with Ok v => Ok (Some v) | Err e => Err e end)
      end
  | Ok false => (run_call b c, Ok None)
  | Err e => (run_call b c, Err (WorkflowError e))
  end.

Fixpoint reconcile_each (b : both) (l : list (step * string)) (now_ts : Z) (verdicts : list verdict)
    : both * result reconcile_error (list verdict) :=
  match l with
  | [] => (b, Ok verdicts)
  | x :: l' =>
      match reconcile b x now_ts with
      | (b', Err e) => (b', Err e)
      | (b', Ok v) =>
          reconcile_each b' l' now_ts (verdicts ++ match v with Some v => [v] | None => [] end)
      end
  end.
Definition run_once (b : both) (now_ts : Z) (limit : nat) : both * result reconcile_error (list verdict) :=
  reconcile_each b (list_unresolved_write_steps (workflows b) now_ts limit) now_ts [].
End reconciler.

(** ** Delivery verdicts *)

Definition DELIVERED : list string := ["delivered"; "read"; "completed"].
Definition FAILED : list string := ["undelivered"; "failed"; "busy"; "no-answer"; "canceled"].
Definition DEAD_ADDRESS_CODES : list string := ["21211"; "21612"; "21614"; "30003"; "30005"; "30006"].
Definition PROVIDER_OPTOUT_CODES : list string := ["21610"].

Record effect_record := {
  e_revision : string;
  e_step : string;
  e_tenant : string;
  e_address : string;
  e_channel : string;
  e_id : string;
  e_conversation_closed : bool;
  e_accepted_at : Z;
  e_verification : string;
}.

(** What the service asks its writers to record. *)
Inductive notice : Type :=
| Suppress (tenant address channel state reason : string)
| Correct (tenant effect_id verification provider_status : string).

Section delivery.
Context (writes_suppressions writes_corrections : bool) (deadlines : string -> option Z).

Definition verification_of (status : string) : string :=
  if str_in status DELIVERED then "verified" else if str_in status FAILED then "failed" else "pending".

Definition correction (e : effect_record) (verification provider_status : string) : list notice :=
  if writes_corrections && e_conversation_closed e
  then [Correct (e_tenant e) (e_id e) verification provider_status] else [].

Definition deliver (e : effect_record) (status : string) (code : option string) (s : store)
    : store * list notice * string :=
  let verification := verification_of status in
  if String.eqb verification "pending" then (s, [], verification) else
  (exec (SetVerification (e_revision e) (e_step e) (e_tenant e) verification) s,
   (if String.eqb verification "failed" && writes_suppressions then
      match code with
      | Some c =>
          if str_in c PROVIDER_OPTOUT_CODES then
            [Suppress (e_tenant e) (e_address e) (e_channel e) "suppressed_by_optout" "provider_optout"]
          else if str_in c DEAD_ADDRESS_CODES then
            [Suppress (e_tenant e) (e_address e) (e_channel e) "suppressed_by_bounce" "carrier_rejection"]
          else []
      | None => []
      end
    else []) ++ correction e verification status,
   verification).

(** [None] when a channel has no deadline: a [KeyError], raised midway. *)
Fixpoint expire (effects : list effect_record) (now : Z) (s : store)
    : store * list notice * option (list string) :=
  match effects with
  | [] => (s, [], Some [])
  | e :: rest =>
      match deadlines (e_channel e) with
      | None => (s, [], None)
      | Some d =>
          if String.eqb (e_verification e) "pending" && (e_accepted_at e + d <=? now) then
            let '(s', notices, ids) :=
              expire rest now (exec (SetVerification (e_revision e) (e_step e) (e_tenant e) "inconclusive") s) in
            (s', correction e "inconclusive" "deadline_elapsed" ++ notices,
             (fun l => e_id e :: l) <$> ids)
          else expire rest now s
      end
  end.
End delivery.

(** ** What the reconciler may do *)

(** The provider answered, and what it answered settles the step. *)
Definition answered (self : reconciler) (x : step * string) (now : Z) (d : list (string * pyval)) : Prop :=
  exists f, providers self (default "" (head (split_dot (capability_id x.1)))) = Some f
    /\ f x now = Ok (VDict d).
Definition evidence (d : list (string * pyval)) (st : execution_status) : Prop :=
  (PyValue.get d "execution_status" = VStr "completed" /\ is_dict (dget d "receipt") = true
     /\ is_dict (dget d "attestation") = true /\ st = completed)
  \/ (PyValue.get d "execution_status" = VStr "queued" /\ st = queued).

(** The calls of a pass: some never move a step, the others carry evidence. *)
Definition quiet (c : call) : Prop :=
  (exists v i t n w now vis, c = ClaimUnresolved v i t n w now vis)
  \/ (exists v i t n why retry, c = Defer v i t n why retry).
Definition settling (self : reconciler) (now : Z) (x : step * string) (c : call) : Prop :=
  exists d st, c = Reconcile (revision_of x.1) (step_id x.1) (tenant_of x.1) (attempt x.1) (observation_of d now)
    /\ answered self x now d /\ evidence d st
    /\ o_status (observation_of d now) = (match st with completed => "completed" | _ => "queued" end).

Lemma ask_answered self x now d s :
  _ask_provider self x now = Ok d -> PyValue.get d "execution_status" = VStr s ->
  s <> "execution_unknown" -> answered self x now d.
Proof.
  unfold _ask_provider, answered. destruct (providers self _) as [f|].
  2: { intros [= <-] [= <-]. done. }
  destruct (f x now) as [v|name] eqn:Ef; [|intros [= <-] [= <-]; done].
  destruct (truthy v) eqn:Et; [|by intros [= <-]].
  destruct v; try done. intros [= <-] _ _. by exists f.
Qed.

Lemma defer_calls self b x d now :
  exists cs, workflows (_defer self b x d now).1 = exec_all cs (workflows b)
    /\ forall c, c ∈ cs -> quiet c.
Proof.
  unfold _defer. destruct (if truthy _ then _ else _) as [z|e]; cbn [fst workflows run_call].
  - match goal with |- context [exec ?k (workflows b)] => exists [k] end.
    split; [reflexivity|]. intros c ->%list_elem_of_singleton. right. by eexists _, _, _, _, _, _.
  - exists []. split; [done|]. by intros c ?%elem_of_nil.
Qed.

Lemma apply_calls b x d now status settle :
  workflows (_apply b x d now status settle).1
  = exec (Reconcile (revision_of x) (step_id x) (tenant_of x) (attempt x) (observation_of d now))
      (workflows b).
Proof.
  unfold _apply. simpl. destruct (apply_reconciliation _ _ _ _ _ _) as [w [a|e]]; [|done].
  by destruct (_proposal _ x).
Qed.

Lemma reconcile_calls self b x now :
  exists cs, workflows (reconcile self b x now).1 = exec_all cs (workflows b)
    /\ forall c, c ∈ cs -> quiet c \/ settling self now x c.
Proof.
  unfold reconcile. set (c0 := ClaimUnresolved _ _ _ _ _ _ _).
  assert (quiet c0) as Hc0 by (left; by eexists _, _, _, _, _, _, _).
  assert (exists cs, workflows (run_call b c0) = exec_all cs (workflows b)
    /\ forall c, c ∈ cs -> quiet c \/ settling self now x c) as Hone.
  { exists [c0]. split; [done|]. intros c ->%list_elem_of_singleton. by left. }
  destruct (claim_unresolved_write_step _ _ _ _ _ _ _ _).2 as [[]|e]; [|exact Hone..].
  destruct (_ask_provider self x now) as [d|e] eqn:Ed; [|exact Hone]. cbn [fst].
  assert (forall w1 cs1, w1 = exec_all cs1 (workflows (run_call b c0)) ->
    (forall c, c ∈ cs1 -> quiet c \/ settling self now x c) ->
    exists cs, w1 = exec_all cs (workflows b)
      /\ forall c, c ∈ cs -> quiet c \/ settling self now x c) as Hmore.
  { intros w1 cs1 E H. exists (c0 :: cs1). split; [done|].
    intros c [->|Hc]%elem_of_cons; [by left|by apply H]. }
  assert (forall d', exists cs, workflows (_defer self (run_call b c0) x.1 d' now).1 = exec_all cs (workflows b)
    /\ forall c, c ∈ cs -> quiet c \/ settling self now x c) as Hdefer.
  { intros d'. destruct (defer_calls self (run_call b c0) x.1 d' now) as (cs & E & H).
    apply (Hmore _ cs E). auto. }
  destruct (val_is _ "completed") eqn:E1; [|destruct (val_is _ "queued") eqn:E2; [|apply Hdefer]].
  - apply val_is_spec in E1. unfold _apply_completion. destruct (is_dict _ && is_dict _) eqn:E2; [|apply Hdefer].
    cbn [negb]. rewrite apply_calls. match goal with |- context [exec ?k (workflows (run_call b c0))] =>
      apply (Hmore _ [k] eq_refl) end.
    intros c ->%list_elem_of_singleton. right. apply andb_true_iff in E2 as [Hr Ha].
    exists d, completed. split; [done|]. split; [by eapply ask_answered|].
    split; [by left|]. simpl. by rewrite E1.
  - apply val_is_spec in E2. unfold _apply_absence. rewrite apply_calls.
    match goal with |- context [exec ?k (workflows (run_call b c0))] =>
      apply (Hmore _ [k] eq_refl) end.
    intros c ->%list_elem_of_singleton. right.
    exists d, queued. split; [done|]. split; [by eapply ask_answered|].
    split; [by right|]. simpl. by rewrite E2.
Qed.

Lemma reconcile_each_calls self now l b verdicts :
  exists cs, workflows (reconcile_each self b l now verdicts).1 = exec_all cs (workflows b)
    /\ forall c, c ∈ cs -> quiet c \/ exists x, x ∈ l /\ settling self now x c.
Proof.
  revert b verdicts. induction l as [|x l IH]; intros b verdicts; simpl.
  { exists []. split; [done|]. by intros c ?%elem_of_nil. }
  destruct (reconcile_calls self b x now) as (cs & E & H).
  destruct (reconcile self b x now) as [b1 [v|e]]; cbn [fst] in E.
  - destruct (IH b1 (verdicts ++ match v with Some v => [v] | None => [] end)) as (cs' & E' & H').
    exists (cs ++ cs'). split; [by rewrite E', E; unfold exec_all; rewrite fold_left_app|].
    intros c [Hc|Hc]%elem_of_app.
    + destruct (H c Hc) as [?|?]; [by left|right]. exists x. split; [by left|done].
    + destruct (H' c Hc) as [?|(y & Hy & ?)]; [by left|right]. exists y. split; [by right|done].
  - exists cs. split; [done|]. intros c Hc. destruct (H c Hc) as [?|?]; [by left|right].
    exists x. split; [by left|done].
Qed.

Lemma listed_step s now limit x : x ∈ list_unresolved_write_steps s now limit -> x.1 ∈ steps s.
Proof.
  unfold list_unresolved_write_steps. intros Hx%elem_of_take.
  destruct Hx as (j & Hj & _). apply list_elem_of_lookup_2 in Hj. revert Hj.
  intros ([k r] & Hin & E)%list_elem_of_omap. simpl in E.
  destruct (revisions s !! revision_of r); simpl in E; [|done]. case_match; [|done]. injection E as <-.
  rewrite (merge_sort_Permutation _ _) in Hin. simpl.
  apply list_elem_of_lookup_1 in Hin as [m Hm]. rewrite list_lookup_imap in Hm.
  apply fmap_Some in Hm as (r' & Hr' & E'). injection E' as _ ->. by eapply list_elem_of_lookup_2.
Qed.

(** What a settled row was settled by. *)
Definition settled_by (self : reconciler) (now : Z) (r r' : step) : Prop :=
  exists h d, answered self (r, h) now d /\ evidence d (status r').

(** Where a row is in the pass. *)
Definition progress (self : reconciler) (now : Z) (r y : step) : Prop :=
  (status y = execution_unknown /\ key y = key r /\ attempt y = attempt r) \/ settled_by self now r y.

Lemma quiet_change self now r c y z :
  quiet c -> row_change c y z -> progress self now r y -> progress self now r z.
Proof.
  intros Hq Hyz [(Hs & Hk & Hn)|(h & d & Ha & Hev)];
    destruct Hq as [(v & i & t & n & w & now' & vis & ->)|(v & i & t & n & why & ret & ->)];
    inversion Hyz; subst; first [by left|right; by exists h, d].
Qed.

Lemma reconcile_change v i t n ob y z :
  row_change (Reconcile v i t n ob) y z ->
  key y = (v, i) /\ (status y = running \/ status y = execution_unknown)
  /\ ((o_status ob = "completed" /\ status z = completed)
      \/ (o_status ob = "queued" /\ status z = queued)
      \/ (o_status ob = "execution_unknown" /\ status z = execution_unknown)).
Proof. inversion 1 as [| | | | | | | | | |? ? ? ? ? ? ? ? ? ? ?|? ? ? ? ? ? ? ? ? []| | | | | | |]; subst; naive_solver. Qed.

Lemma settling_change self now r x c y z :
  settling self now x c -> row_change c y z -> progress self now r y ->
  (key x.1 = key r -> x.1 = r) -> progress self now r z.
Proof.
  intros (d & st & -> & Ha & Hev & Ho) (Hky & Hst & Hz)%reconcile_change Hp Hx.
  destruct Hp as [(Hs & Hk & Hn)|Hset].
  - right. exists x.2, d. rewrite <-Hx by (by rewrite <-Hk, Hky). split; [by destruct x|].
    destruct Hev as [(? & ? & ? & ->)|(? & ->)]; rewrite Ho in Hz; [left|right];
      by destruct Hz as [[? ->]|[[? ->]|[? ->]]].
  - exfalso. destruct Hset as (h & d' & _ & Hev').
    destruct Hev' as [(_ & _ & _ & E)|(_ & E)]; rewrite E in Hst; by destruct Hst.
Qed.

(** C32. An unknown outcome is never guessed.  When a pass of the reconciler
    moves a write out of [execution_unknown], the reconciler registered for
    its capability family answered for that very attempt: a completion with a
    receipt and an attestation, and the step is completed, or that nothing
    happened, and the step is queued.  A missing reconciler, an unreachable
    provider, an unclear answer or a completion without evidence leaves every
    step where it was. *)
Theorem unknown_is_never_guessed self b now limit r r' :
  keys_ok (workflows b) -> r ∈ steps (workflows b) -> status r = execution_unknown ->
  r' ∈ steps (workflows (run_once self b now limit).1) -> key r' = key r ->
  status r' = execution_unknown \/ settled_by self now r r'.
Proof.
  intros Hk Hr Hst Hr' Hkey. unfold run_once in Hr'.
  destruct (reconcile_each_calls self now (list_unresolved_write_steps (workflows b) now limit) b [])
    as (cs & E & Hcs). rewrite E in Hr'.
  destruct (row_after cs (workflows b) r Hk Hr) as (r2 & Hr2 & Hch).
  assert (r2 = r') as <-.
  { apply (key_unique key (steps (exec_all cs (workflows b)))); try done; [by apply exec_all_keys|].
    rewrite Hkey. clear -Hch. induction Hch as [|x y z (c & _ & Hxy) _ IH]; [done|].
    rewrite IH. by eapply row_change_key. }
  clear Hr2 Hr' E Hkey.
  assert (forall y, rtc (fun a b => exists c, c ∈ cs /\ row_change c a b) r y ->
    progress self now r y) as Hall; [|destruct (Hall r2 Hch) as [(? & _)|?]; auto].
  apply (rtc_ind_r (progress self now r)); [by left|]. intros y z _ (c & Hc & Hyz) IH.
  destruct (Hcs c Hc) as [Hq|(x & Hx & Hset)].
  - by apply (quiet_change _ _ _ _ _ _ Hq Hyz).
  - apply (settling_change _ _ _ _ _ _ _ Hset Hyz IH).
    intros Ex. apply listed_step in Hx. by apply (key_unique key (steps (workflows b))).
Qed.

Definition demo_provider : reconciler := {|
  providers := fun family =>
    if String.eqb family "mail" then
      Some (fun _ _ => Ok (VDict [("execution_status", VStr "completed");
                                  ("receipt", VDict [("id", VInt 7)]);
                                  ("attestation", VDict demo_attestation)]))
    else None;
  reconciler_id := "rec"; retry_seconds := RETRY_SECONDS; max_attempts := RECONCILE_ATTEMPTS |}.
Definition demo_unknown : both :=
  {| workflows := exec_all (demo_claimed ++ [Recover 100]) empty_store; acts := None |}.
Definition demo_lost : step := recover demo_row.
Definition demo_found : step :=
  default demo_lost (head (steps (workflows (run_once demo_provider demo_unknown 110 100).1))).

Lemma demo_unknown_rows : steps (workflows demo_unknown) = [demo_lost].
Proof. vm_compute. reflexivity. Qed.

Lemma unknown_is_never_guessed_witness :
  status demo_found = completed /\ settled_by demo_provider 110 demo_lost demo_found.
Proof.
  assert (status demo_found = completed) as Hf by (vm_compute; reflexivity).
  split; [exact Hf|].
  destruct (unknown_is_never_guessed demo_provider demo_unknown 110 100 demo_lost demo_found)
    as [E|H]; [| | | | |rewrite Hf in E; discriminate E|exact H].
  - unfold keys_ok. rewrite demo_unknown_rows. apply NoDup_singleton.
  - rewrite demo_unknown_rows. by apply list_elem_of_singleton.
  - vm_compute. reflexivity.
  - apply list_elem_of_In. vm_compute. by left.
  - vm_compute. reflexivity.
Defined.
