(* ===== verification/Outbox.v ===== *)
(** * The outbox and its projection

    The transactional outbox of [WorkflowRepository]
    (src/agents/orchestrator/workflow_repository.py): events appended once and
    numbered within their aggregate, claimed in order under a visibility
    timeout, completed, retried or set aside; the projection watermarks; and
    the loop of src/services/workflow_worker/app.py ([_drain_outbox],
    [_project_event]) that consumes them.

    A payload is kept as its text and as the value the text reads back as.
    Event identifiers are arguments; what projecting one event does is an
    argument of the loop, which only sees whether it raises. *)

From S2P Require Import Prelude Rows PyValue Json.
Local Open Scope Z_scope.

Inductive outbox_status : Type := pending | claimed | completed_ev | dead_letter.
Global Instance outbox_status_eq_dec : EqDecision outbox_status.
Proof. solve_decision. Defined.

(** A row of [workflow_outbox]. *)
Record event := {
  event_id : string;
  ev_tenant : string;
  aggregate_type : string;
  aggregate_id : string;
  aggregate_version : Z;
  event_type : string;
  payload_json : string;
  ev_payload : pyval;
  dedupe_key : string;
  ev_status : outbox_status;
  attempts : Z;
  max_attempts : Z;
  available_at : Z;
  ev_claimed_by : option string;
  claim_expires_at : option Z;
  last_error : option string;
  ev_created_at : Z;
  ev_completed_at : option Z;
  dead_lettered_at : option Z;
}.

(** The columns an update may assign. *)
Record delivery := {
  d_status : outbox_status;
  d_attempts : Z;
  d_available : Z;
  d_claimed_by : option string;
  d_expires : option Z;
  d_error : option string;
  d_completed : option Z;
  d_dead : option Z;
}.
Definition set_delivery (e : event) (d : delivery) : event := {|
  event_id := event_id e; ev_tenant := ev_tenant e; aggregate_type := aggregate_type e;
  aggregate_id := aggregate_id e; aggregate_version := aggregate_version e;
  event_type := event_type e; payload_json := payload_json e; ev_payload := ev_payload e;
  dedupe_key := dedupe_key e; ev_status := d_status d; attempts := d_attempts d;
  max_attempts := max_attempts e; available_at := d_available d;
  ev_claimed_by := d_claimed_by d; claim_expires_at := d_expires d; last_error := d_error d;
  ev_created_at := ev_created_at e; ev_completed_at := d_completed d;
  dead_lettered_at := d_dead d |}.

(** A row of [workflow_projection_watermarks], by tenant, projection name,
    aggregate type and aggregate. *)
Record watermark := { projected_version : Z; last_event_id : string; w_updated_at : Z }.
Definition mark_key : Type := string * string * string * string.

(** Events in rowid order. *)
Record outbox := { events : list event; watermarks : gmap mark_key watermark }.
Definition empty_outbox : outbox := {| events := []; watermarks := ∅ |}.
Definition with_events (s : outbox) (l : list event) : outbox :=
  {| events := l; watermarks := watermarks s |}.

Inductive outbox_error : Type :=
| OutboxValueError (why : string)
| OutboxIntegrityError.
Definition obm (A : Type) : Type := stm outbox outbox_error A.

Definition aggregate (e : event) : string * string * string :=
  (ev_tenant e, aggregate_type e, aggregate_id e).

Section operations.
Local Open Scope stm_scope.

(** ** Appending *)

Definition last_version (a : string * string * string) (l : list event) : Z :=
  fold_right (fun e n => if bool_decide (aggregate e = a) then Z.max (aggregate_version e) n else n) 0 l.

Record draft := {
  n_tenant : string; n_type : string; n_aggregate : string; n_event : string;
  n_payload : pyval; n_dedupe : string; n_max_attempts : Z; n_available : option Z }.
Definition MAX_ATTEMPTS_DEFAULT : Z := 5.

Definition new_event (d : draft) (id : string) (v now_ts : Z) : event := {|
  event_id := id; ev_tenant := n_tenant d; aggregate_type := n_type d;
  aggregate_id := n_aggregate d; aggregate_version := v; event_type := n_event d;
  payload_json := json_text (n_payload d); ev_payload := norm (n_payload d);
  dedupe_key := n_dedupe d; ev_status := pending; attempts := 0;
  max_attempts := n_max_attempts d; available_at := default now_ts (n_available d);
  ev_claimed_by := None; claim_expires_at := None; last_error := None; ev_created_at := now_ts;
  ev_completed_at := None; dead_lettered_at := None |}.

Definition insert_event (e : event) : obm unit := fun s =>
  if (aggregate_version e <=? 0) || (max_attempts e <=? 0)
     || existsb (fun x => String.eqb (event_id x) (event_id e)
                          || String.eqb (ev_tenant x) (ev_tenant e)
                             && String.eqb (dedupe_key x) (dedupe_key e)
                          || bool_decide (aggregate x = aggregate e)
                             && Z.eqb (aggregate_version x) (aggregate_version e)) (events s)
  then (s, Err OutboxIntegrityError)
  else (with_events s (events s ++ [e]), Ok tt).

Definition same_dedupe (d : draft) (e : event) : bool :=
  String.eqb (ev_tenant e) (n_tenant d) && String.eqb (dedupe_key e) (n_dedupe d).
Definition same_event (d : draft) (e : event) : bool :=
  String.eqb (aggregate_type e) (n_type d) && String.eqb (aggregate_id e) (n_aggregate d)
  && String.eqb (event_type e) (n_event d)
  && String.eqb (payload_json e) (json_text (n_payload d)).

Definition append_outbox_event (d : draft) (now_ts : Z) (new_id : string) : obm event :=
  if negb (truthy (n_tenant d) && truthy (n_type d) && truthy (n_aggregate d)
           && truthy (n_event d) && truthy (n_dedupe d))
  then stm_raise (OutboxValueError "outbox tenant, aggregate, event type and dedupe key are required")
  else transaction (
    s <~ stm_get ;;
    match List.find (same_dedupe d) (events s) with
    | Some prior =>
        if same_event d prior then stm_ret prior
        else stm_raise (OutboxValueError "outbox dedupe key was reused for another event")
    | None =>
        let v := last_version (n_tenant d, n_type d, n_aggregate d) (events s) + 1 in
        let e := new_event d ("outbox:" +:+ new_id) v now_ts in
        insert_event e ;;; stm_ret e
    end).

Definition is_event (id tenant_id : string) (e : event) : bool :=
  String.eqb (event_id e) id && String.eqb (ev_tenant e) tenant_id.
Definition get_outbox_event (s : outbox) (id tenant_id : string) : option event :=
  List.find (is_event id tenant_id) (events s).
Definition count_outbox_events (s : outbox) (tenant_id dedupe : string) : nat :=
  length (List.filter (fun e => String.eqb (ev_tenant e) tenant_id
                                && String.eqb (dedupe_key e) dedupe) (events s)).

(** ** Claiming *)

Definition at_most (o : option Z) (now_ts : Z) : bool :=
  match o with Some z => z <=? now_ts | None => false end.
Definition has_ev_status (st : outbox_status) (e : event) : bool := bool_decide (ev_status e = st).
Definition available (now_ts : Z) (e : event) : bool :=
  has_ev_status pending e && (available_at e <=? now_ts)
  || has_ev_status claimed e && at_most (claim_expires_at e) now_ts.
Definition overtakes (l : list event) (e : event) : bool :=
  existsb (fun x => bool_decide (aggregate x = aggregate e)
                    && (aggregate_version x <? aggregate_version e)
                    && negb (has_ev_status completed_ev x)) l.
Definition claimable_event (l : list event) (tenant_id : option string) (now_ts : Z) (e : event) : bool :=
  available now_ts e
  && (match tenant_id with Some t => if truthy t then String.eqb (ev_tenant e) t else true | None => true end)
  && negb (overtakes l e).

(** [ORDER BY o.created_at, o.event_id]. *)
Definition claim_le (a b : event) : Prop :=
  ev_created_at a < ev_created_at b
  \/ ev_created_at a = ev_created_at b /\ String.le (event_id a) (event_id b).
Global Instance claim_le_dec a b : Decision (claim_le a b).
Proof. unfold claim_le. apply _. Defined.

Definition take_event (worker : string) (until : Z) (e : event) : event := set_delivery e {|
  d_status := claimed; d_attempts := attempts e + 1; d_available := available_at e;
  d_claimed_by := Some worker; d_expires := Some until; d_error := last_error e;
  d_completed := ev_completed_at e; d_dead := dead_lettered_at e |}.

Definition next_event (s : outbox) (tenant_id : option string) (now_ts : Z) : option event :=
  head (merge_sort claim_le (List.filter (claimable_event (events s) tenant_id now_ts) (events s))).

Definition claim_outbox_event (worker : string) (now_ts visibility_timeout : Z)
    (tenant_id : option string) : obm (option event) := fun s =>
  match next_event s tenant_id now_ts with
  | None => (s, Ok None)
  | Some row =>
      let p e := is_event (event_id row) (ev_tenant row) e && available now_ts e in
      let l := update_where p (take_event worker (now_ts + visibility_timeout)) (events s) in
      if Nat.eqb (length (List.filter p (events s))) 1
      then (with_events s l, Ok (List.find (fun e => String.eqb (event_id e) (event_id row)) l))
      else (s, Ok None)
  end.

(** ** Settling *)

Definition complete_ev (now_ts : Z) (e : event) : event := set_delivery e {|
  d_status := completed_ev; d_attempts := attempts e; d_available := available_at e;
  d_claimed_by := None; d_expires := None; d_error := last_error e;
  d_completed := Some now_ts; d_dead := dead_lettered_at e |}.
Definition held_by (worker : string) (e : event) : bool :=
  has_ev_status claimed e && bool_decide (ev_claimed_by e = Some worker).
Definition complete_outbox_event (id tenant_id worker : string) (now_ts : Z) : obm bool := fun s =>
  match List.find (is_event id tenant_id) (events s) with
  | None => (s, Ok false)
  | Some current =>
      if has_ev_status completed_ev current then (s, Ok true)
      else
        let p e := is_event id tenant_id e && held_by worker e in
        (with_events s (update_where p (complete_ev now_ts) (events s)),
         Ok (Nat.eqb (length (List.filter p (events s))) 1))
  end.

Inductive disposition : Type := NotHeld | Retry | DeadLetter.
Definition fail_ev (dead : bool) (now_ts retry_delay : Z) (error : string) (e : event) : event :=
  set_delivery e {|
    d_status := if dead then dead_letter else pending; d_attempts := attempts e;
    d_available := now_ts + retry_delay; d_claimed_by := None; d_expires := None;
    d_error := Some (take_chars 1000 error); d_completed := ev_completed_at e;
    d_dead := if dead then Some now_ts else None |}.
Definition fail_outbox_event (id tenant_id worker : string) (now_ts : Z) (error : string)
    (retry_delay : Z) : obm disposition := fun s =>
  match List.find (fun e => is_event id tenant_id e && held_by worker e) (events s) with
  | None => (s, Ok NotHeld)
  | Some row =>
      let dead := max_attempts row <=? attempts row in
      (with_events s (update_where (is_event id tenant_id) (fail_ev dead now_ts retry_delay error)
         (events s)),
       Ok (if dead then DeadLetter else Retry))
  end.

(** ** Watermarks and retention *)

Definition PROJECTION : string := "conversation".
Definition the_mark (a : string * string * string) (projection : string) : mark_key :=
  (a.1.1, projection, a.1.2, a.2).
Definition get_projection_watermark (s : outbox) (a : string * string * string) (projection : string)
    : option watermark := watermarks s !! the_mark a projection.
Definition advance_projection_watermark (a : string * string * string) (version : Z)
    (id : string) (now_ts : Z) (projection : string) : obm bool := fun s =>
  if version <=? 0 then (s, Err OutboxIntegrityError) (* CHECK(projected_version > 0) *)
  else
    let k := the_mark a projection in
    let s' := {| events := events s;
                 watermarks := <[k := {| projected_version := version; last_event_id := id;
                                         w_updated_at := now_ts |}]> (watermarks s) |} in
    match watermarks s !! k with
    | Some w => if projected_version w <? version then (s', Ok true) else (s, Ok false)
    | None => (s', Ok true)
    end.

Definition purgeable (tenant_id : string) (before : Z) (e : event) : bool :=
  String.eqb (ev_tenant e) tenant_id && has_ev_status completed_ev e
  && match ev_completed_at e with Some z => z <? before | None => false end.
Definition purge_completed_outbox (tenant_id : string) (before : Z) : obm nat := fun s =>
  (with_events s (List.filter (fun e => negb (purgeable tenant_id before e)) (events s)),
   Ok (length (List.filter (purgeable tenant_id before) (events s)))).
End operations.

(** ** The worker's loop *)

Definition EVENT_TYPES : list string :=
  ["workflow.outcome"; "conversation.turn_committed"; "conversation.resolver_completed"].
Definition OUTBOX_VISIBILITY_SECONDS : Z := 30.
Definition OUTBOX_RETRY_SECONDS : Z := 5.

Section worker.
(** The projection of one event: [None], or the name of what it raised.  A
    [workflow.outcome] that finds no conversation raises too. *)
Context (project : event -> option string) (worker : string).

(** What a pass leaves: the outbox, the events projected, what was raised. *)
Record projected := { p_outbox : outbox; p_done : list event; p_raised : option string }.

Definition needs_projection (e : event) : bool :=
  String.eqb (event_type e) "workflow.outcome"
  || String.eqb (event_type e) "conversation.resolver_completed".
Definition behind (w : option watermark) (v : Z) : bool :=
  match w with Some w => projected_version w <? v | None => true end.

Definition _project_event (e : event) (now_ts : Z) (s : outbox) : projected :=
  let stop s done why := {| p_outbox := s; p_done := done; p_raised := why |} in
  if negb (str_in (event_type e) EVENT_TYPES) then stop s [] (Some "ValueError") else
  if negb (behind (get_projection_watermark s (aggregate e) PROJECTION) (aggregate_version e))
  then stop s [] None else
  match (if needs_projection e then project e else None) with
  | Some why => stop s [] (Some why)
  | None =>
      match advance_projection_watermark (aggregate e) (aggregate_version e) (event_id e) now_ts
              PROJECTION s with
      | (s', Ok true) => stop s' [e] None
      | (s', Ok false) =>
          if behind (get_projection_watermark s' (aggregate e) PROJECTION) (aggregate_version e)
          then stop s' [e] (Some "RuntimeError") else stop s' [e] None
      | (s', Err _) => stop s' [e] (Some "IntegrityError")
      end
  end.

Fixpoint _drain_outbox (limit : nat) (now_ts : Z) (s : outbox) : outbox * list event * nat :=
  match limit with
  | O => (s, [], 0%nat)
  | S limit' =>
      match claim_outbox_event worker now_ts OUTBOX_VISIBILITY_SECONDS None s with
      | (s1, Ok (Some e)) =>
          let r := _project_event e now_ts s1 in
          let '(s2, n) :=
            match p_raised r with
            | None => ((complete_outbox_event (event_id e) (ev_tenant e) worker now_ts (p_outbox r)).1, 1%nat)
            | Some why => ((fail_outbox_event (event_id e) (ev_tenant e) worker now_ts why
                              OUTBOX_RETRY_SECONDS (p_outbox r)).1, 0%nat)
            end in
          let '(s3, done, m) := _drain_outbox limit' now_ts s2 in
          (s3, p_done r ++ done, (n + m)%nat)
      | (s1, _) => (s1, [], 0%nat)
      end
  end.
End worker.
