(* ===== verification/OutboxWorker.v ===== *)
(** * Workers over the outbox

    Any number of workers running the loop of
    src/services/workflow_worker/app.py, one database call at a time, with
    crashes, failed projections, expired claims taken over by others, and
    producers appending meanwhile.  [log] is the trace of successful
    projections.  The loop of one worker is a run of this system. *)

From S2P Require Import Prelude Rows PyValue Json Outbox OutboxProofs.
Local Open Scope Z_scope.

(** Where a worker is in [_drain_outbox]: it has the event; it has seen that
    the projection is behind; it has projected; [_project_event] returned. *)
Inductive phase : Type := Holding | Behind | Projected | Finished.
Record system := {
  sy_outbox : outbox;
  log : list event;
  held : gmap string (event * phase);
}.
Definition initial : system := {| sy_outbox := empty_outbox; log := []; held := ∅ |}.
Definition on_outbox (s : outbox) (sy : system) : system :=
  {| sy_outbox := s; log := log sy; held := held sy |}.
Definition now_holds (w : string) (x : event * phase) (sy : system) : system :=
  {| sy_outbox := sy_outbox sy; log := log sy; held := <[w := x]> (held sy) |}.
Definition lets_go (w : string) (sy : system) : system :=
  {| sy_outbox := sy_outbox sy; log := log sy; held := delete w (held sy) |}.
Definition logs (e : event) (sy : system) : system :=
  {| sy_outbox := sy_outbox sy; log := log sy ++ [e]; held := held sy |}.
Definition mark_of (s : outbox) (e : event) : option watermark :=
  get_projection_watermark s (aggregate e) PROJECTION.
Definition advanced (e : event) (now : Z) (s : outbox) : outbox :=
  (advance_projection_watermark (aggregate e) (aggregate_version e) (event_id e) now PROJECTION s).1.

Inductive sys_step : system -> system -> Prop :=
| st_append d now id sy :
    sys_step sy (on_outbox (append_outbox_event d now id (sy_outbox sy)).1 sy)
| st_claim w now vis t s e sy :
    claim_outbox_event w now vis t (sy_outbox sy) = (s, Ok (Some e)) ->
    sys_step sy (now_holds w (e, Holding) (on_outbox s sy))
| st_skip w e sy :
    held sy !! w = Some (e, Holding) -> str_in (event_type e) EVENT_TYPES = true ->
    behind (mark_of (sy_outbox sy) e) (aggregate_version e) = false ->
    sys_step sy (now_holds w (e, Finished) sy)
| st_look w e sy :
    held sy !! w = Some (e, Holding) -> str_in (event_type e) EVENT_TYPES = true ->
    behind (mark_of (sy_outbox sy) e) (aggregate_version e) = true ->
    sys_step sy (now_holds w (e, Behind) sy)
| st_project w e sy :
    held sy !! w = Some (e, Behind) -> sys_step sy (now_holds w (e, Projected) (logs e sy))
| st_advance w e now sy :
    held sy !! w = Some (e, Projected) ->
    behind (mark_of (advanced e now (sy_outbox sy)) e) (aggregate_version e) = false ->
    sys_step sy (now_holds w (e, Finished) (on_outbox (advanced e now (sy_outbox sy)) sy))
| st_complete w e now sy :
    held sy !! w = Some (e, Finished) ->
    sys_step sy (lets_go w (on_outbox (complete_outbox_event (event_id e) (ev_tenant e) w now
                                         (sy_outbox sy)).1 sy))
| st_fail w e ph now why delay sy :
    held sy !! w = Some (e, ph) ->
    sys_step sy (lets_go w (on_outbox (fail_outbox_event (event_id e) (ev_tenant e) w now why delay
                                         (sy_outbox sy)).1 sy))
| st_crash w sy : sys_step sy (lets_go w sy).

(** ** What completed events have behind them *)

Definition logged (l : list event) (e : event) : Prop := exists x, x ∈ l /\ identity x = identity e.

Record coherent (sy : system) : Prop := {
  co_order : well_ordered (events (sy_outbox sy));
  co_marks : forall a m, get_projection_watermark (sy_outbox sy) a PROJECTION = Some m ->
    (forall e, e ∈ events (sy_outbox sy) -> aggregate e = a ->
       aggregate_version e <= projected_version m -> logged (log sy) e)
    /\ exists e, e ∈ events (sy_outbox sy) /\ aggregate e = a /\ aggregate_version e = projected_version m;
  co_completed : forall e, e ∈ events (sy_outbox sy) -> ev_status e = completed_ev -> logged (log sy) e;
  co_held : forall w e ph, held sy !! w = Some (e, ph) ->
    (exists x, x ∈ events (sy_outbox sy) /\ identity x = identity e /\ 0 < attempts x)
    /\ (ph = Projected \/ ph = Finished -> logged (log sy) e);
}.

Lemma logged_same l e x : identity x = identity e -> logged l e -> logged l x.
Proof. intros E (y & Hy & Hyx). exists y. split; [done|congruence]. Qed.
Lemma logged_more l l' e : logged l e -> logged (l ++ l') e.
Proof. intros (y & Hy & Hye). exists y. split; [apply elem_of_app; by left|done]. Qed.

(** How the rows move in one call: identities stay, an event completes only
    as allowed, new events come after those of their aggregate. *)
Record moves (may_complete : event -> Prop) (l l' : list event) : Prop := {
  mv_forth : forall e, e ∈ l ->
    exists e', e' ∈ l' /\ identity e' = identity e /\ attempts e <= attempts e';
  mv_back : forall e', e' ∈ l' ->
    (exists e, e ∈ l /\ identity e' = identity e
       /\ (ev_status e' = completed_ev -> ev_status e = completed_ev \/ may_complete e))
    \/ ev_status e' = pending
       /\ forall x, x ∈ l -> aggregate x = aggregate e' -> aggregate_version x < aggregate_version e';
}.

Lemma moves_refl P l : moves P l l.
Proof. constructor; [eauto with lia|]. intros e He. left. exists e. tauto. Qed.

Lemma moves_update (P : event -> Prop) p f l :
  (forall e, identity (f e) = identity e) -> (forall e, attempts e <= attempts (f e)) ->
  (forall e, e ∈ l -> p e = true -> ev_status (f e) = completed_ev -> P e) ->
  moves P l (update_where p f l).
Proof.
  intros Hi Ha Hc. constructor.
  - intros e He. exists (if p e then f e else e). split; [apply elem_of_update; by exists e|].
    destruct (p e); [by split|]. split; [done|lia].
  - intros e' (e & He & ->)%elem_of_update. left. exists e. split; [done|].
    destruct (p e) eqn:E; [|tauto]. split; [done|]. right. by apply Hc.
Qed.

Lemma moves_append P d now id s :
  well_ordered (events s) -> moves P (events s) (events (append_outbox_event d now id s).1).
Proof.
  intros Hl. pose proof (append_well_ordered d now id s Hl) as Hl'.
  destruct (append_cases d now id s Hl) as [->|[E _]]; [apply moves_refl|].
  rewrite E in *. simpl. constructor.
  - intros y Hy. exists y. split; [apply elem_of_app; by left|]. split; [done|lia].
  - intros y [Hy| ->%list_elem_of_singleton]%elem_of_app; [left; exists y; tauto|]. right.
    split; [done|]. intros x Hx Ha. by apply (appended_last d now id s).
Qed.

Lemma moves_claim P w now vis t s :
  well_ordered (events s) -> moves P (events s) (events (claim_outbox_event w now vis t s).1).
Proof.
  intros Hl. destruct (claim_cases w now vis t s Hl) as [->|(row & _ & _ & ->)]; [apply moves_refl|].
  apply moves_update; [done|simpl; lia|]. by intros e _ _ ?.
Qed.

Lemma moves_complete (P : event -> Prop) id t w now s :
  (forall e, e ∈ events s -> is_event id t e = true -> P e) ->
  moves P (events s) (events (complete_outbox_event id t w now s).1).
Proof.
  intros HP. unfold complete_outbox_event. destruct (List.find _ _) as [row|]; [|apply moves_refl].
  destruct (has_ev_status _ _); [apply moves_refl|]. apply moves_update; [done|simpl; lia|].
  intros e He Hp _. apply andb_true_iff in Hp as [Hp _]. by apply HP.
Qed.

Lemma moves_fail P id t w now why delay s :
  moves P (events s) (events (fail_outbox_event id t w now why delay s).1).
Proof.
  unfold fail_outbox_event. destruct (List.find _ _) as [row|]; [|apply moves_refl].
  apply moves_update; [done|simpl; lia|]. intros e _ _. simpl. by case_match.
Qed.

(** A call that moves the rows and leaves the watermarks alone. *)
Lemma coherent_moves s' sy :
  watermarks s' = watermarks (sy_outbox sy) -> well_ordered (events s') ->
  moves (logged (log sy)) (events (sy_outbox sy)) (events s') ->
  coherent sy -> coherent (on_outbox s' sy).
Proof.
  intros Hw Hl [Hf Hb] [Ho Hm Hc Hh]. constructor; simpl; [done|..].
  - intros a m Ha. unfold get_projection_watermark in Ha. rewrite Hw in Ha.
    destruct (Hm a m Ha) as (Hall & e0 & He0 & Ha0 & Hv0). split.
    + intros e' He' Hae Hv. destruct (Hb e' He') as [(e & He & Hid & _)|[_ Hnew]].
      * apply (logged_same _ e); [done|]. apply identity_parts in Hid as (_ & Hag & Hve & _).
        apply Hall; [done|congruence|lia].
      * specialize (Hnew e0 He0). rewrite Ha0, Hae in Hnew. specialize (Hnew eq_refl). lia.
    + destruct (Hf e0 He0) as (e' & He' & Hid & _). exists e'. split; [done|].
      apply identity_parts in Hid as (_ & Hag & Hve & _). split; congruence.
  - intros e' He' Hst. destruct (Hb e' He') as [(e & He & Hid & Hcomp)|[Hp _]]; [|congruence].
    apply (logged_same _ e); [done|]. destruct (Hcomp Hst) as [Hs|Hs]; [by apply Hc|done].
  - intros w e ph Hhe. destruct (Hh w e ph Hhe) as ((x & Hx & Hid & Hn) & Hlog). split; [|done].
    destruct (Hf x Hx) as (x' & Hx' & Hid' & Hn'). exists x'. split; [done|]. split; [congruence|lia].
Qed.

Lemma coherent_holds w e ph sy :
  (exists x, x ∈ events (sy_outbox sy) /\ identity x = identity e /\ 0 < attempts x) ->
  (ph = Projected \/ ph = Finished -> logged (log sy) e) ->
  coherent sy -> coherent (now_holds w (e, ph) sy).
Proof.
  intros Hx Hlog [Ho Hm Hc Hh]. constructor; simpl; try done.
  intros w' e' ph'. rewrite lookup_insert. case_decide; [|by apply Hh]. by intros [= <- <-].
Qed.

Lemma coherent_lets_go w sy : coherent sy -> coherent (lets_go w sy).
Proof.
  intros [Ho Hm Hc Hh]. constructor; simpl; try done.
  intros w' e' ph' [_ Hl]%lookup_delete_Some. by apply Hh in Hl.
Qed.

Lemma coherent_logs e sy : coherent sy -> coherent (logs e sy).
Proof.
  intros [Ho Hm Hc Hh]. constructor; simpl; try done.
  - intros a m Ha. destruct (Hm a m Ha) as [Hall Hex]. split; [|done].
    intros x Hx Hax Hv. apply logged_more. by apply Hall.
  - intros x Hx Hst. apply logged_more. by apply Hc.
  - intros w x ph Hw. destruct (Hh w x ph Hw) as [Hex Hlog]. split; [done|].
    intros Hph. apply logged_more. by apply Hlog.
Qed.

(** The event a worker holds is a row that was handed out. *)
Lemma held_row sy w e ph :
  coherent sy -> held sy !! w = Some (e, ph) ->
  exists x, x ∈ events (sy_outbox sy) /\ identity x = identity e /\ 0 < attempts x.
Proof. intros H Hw. by apply (co_held sy H w e ph). Qed.

Lemma logged_up_to sy e :
  coherent sy -> (exists x, x ∈ events (sy_outbox sy) /\ identity x = identity e /\ 0 < attempts x) ->
  logged (log sy) e ->
  forall y, y ∈ events (sy_outbox sy) -> aggregate y = aggregate e ->
    aggregate_version y <= aggregate_version e -> logged (log sy) y.
Proof.
  intros [Ho _ Hc _] (x & Hx & Hid & Hn) Hlog y Hy Ha Hv.
  destruct (identity_parts _ _ Hid) as (_ & Hag & Hve & _).
  destruct (decide (aggregate_version y = aggregate_version e)) as [E|E].
  - assert (y = x) as -> by (eapply version_unique; [done|exact Hx|exact Hy|congruence|congruence]).
    by eapply logged_same.
  - apply Hc; [done|]. apply (wo_order _ Ho x); try done. split; [congruence|lia].
Qed.

Lemma coherent_advance sy e now :
  coherent sy -> (exists x, x ∈ events (sy_outbox sy) /\ identity x = identity e /\ 0 < attempts x) ->
  logged (log sy) e -> coherent (on_outbox (advanced e now (sy_outbox sy)) sy).
Proof.
  intros Hco Hrow Hlog. pose proof (logged_up_to sy e Hco Hrow Hlog) as Hup.
  destruct Hco as [Ho Hm Hc Hh]. unfold advanced.
  pose proof (advance_events (aggregate e) (aggregate_version e) (event_id e) now PROJECTION (sy_outbox sy)) as Ee.
  constructor; simpl; rewrite ?Ee; try done. intros a m Ha.
  unfold advance_projection_watermark in Ha. destruct (_ <=? 0); [by apply Hm|].
  assert (forall P : Prop, (the_mark (aggregate e) PROJECTION = the_mark a PROJECTION -> m = {|
       projected_version := aggregate_version e; last_event_id := event_id e; w_updated_at := now |} -> P) ->
    (watermarks (sy_outbox sy) !! the_mark a PROJECTION = Some m -> P) -> P) as Hcase.
  { intros P H1 H2. unfold get_projection_watermark in Ha.
    destruct (watermarks (sy_outbox sy) !! the_mark (aggregate e) PROJECTION) as [w|];
      [destruct (_ <? _); [|by apply H2]|]; simpl in Ha; rewrite lookup_insert in Ha;
      (case_decide as Hk; [apply H1; [done|congruence]|by apply H2]). }
  apply Hcase; [|by apply Hm]. intros Hk ->. simpl.
  assert (aggregate e = a) as <-.
  { unfold the_mark, aggregate in *. destruct a as [[t ty] ag]. simpl in Hk. congruence. }
  split; [exact Hup|]. destruct Hrow as (x & Hx & Hid & _). exists x. split; [done|].
  by apply identity_parts in Hid as (_ & ? & ? & _).
Qed.

Lemma step_coherent sy sy' : sys_step sy sy' -> coherent sy -> coherent sy'.
Proof.
  intros Hs Hco. pose proof (co_order sy Hco) as Ho. destruct Hs.
  - destruct (append_cases d now id (sy_outbox sy) Ho) as [E|[E _]];
      apply coherent_moves; try done; [by rewrite E|by apply append_well_ordered|by apply moves_append
        |by rewrite E|by apply append_well_ordered|by apply moves_append].
  - pose proof (moves_claim (logged (log sy)) w now vis t _ Ho) as Hm.
    pose proof (claim_well_ordered w now vis t _ Ho) as Hw. rewrite H in Hm, Hw.
    destruct (claim_cases w now vis t _ Ho) as [E|(row & Hin & _ & E)]; rewrite E in H; [done|].
    injection H as <- <-. apply coherent_holds; [|by intros [|]|by apply coherent_moves]. simpl.
    exists (take_event w (now + vis) row). split; [|split; [done|]].
    + apply elem_of_update. exists row. split; [done|]. by rewrite (proj2 (is_event_spec _ _ _)).
    + simpl. pose proof (wo_attempts _ Ho row Hin). lia.
  - apply coherent_holds; [by eapply held_row| |done]. intros _.
    destruct (held_row _ _ _ _ Hco H) as (x & Hx & Hid & _).
    destruct (identity_parts _ _ Hid) as (_ & Hag & Hve & _). unfold behind, mark_of in H1.
    destruct (get_projection_watermark _ _ _) as [m|] eqn:Em; [|done].
    apply (logged_same _ x); [done|]. destruct (co_marks sy Hco _ _ Em) as [Hall _].
    apply Hall; [done|done|]. bool_hyps. lia.
  - apply coherent_holds; [by eapply held_row|by intros [|]|done].
  - apply coherent_holds; [by eapply (held_row sy)| |by apply coherent_logs].
    intros _. exists e. split; [|done]. simpl. apply elem_of_app. right. by left.
  - assert (logged (log sy) e) as Hlog by (apply (co_held sy Hco _ _ _ H); auto).
    pose proof (held_row _ _ _ _ Hco H) as Hrow.
    apply coherent_holds; [|done|by apply coherent_advance]. simpl.
    unfold advanced. by rewrite advance_events.
  - apply coherent_lets_go, coherent_moves; [|by apply complete_well_ordered| |done].
    + unfold complete_outbox_event. by repeat case_match.
    + apply moves_complete. intros y Hy [Hid _]%is_event_spec.
      destruct (co_held sy Hco _ _ _ H) as [(x & Hx & Hidx & _) Hlog].
      apply (logged_same _ e); [|auto]. rewrite <- Hidx. f_equal.
      apply (same_id_same_event _ x y Ho Hx Hy). apply identity_parts in Hidx as (? & _). congruence.
  - apply coherent_lets_go, coherent_moves; [|by apply fail_well_ordered|by apply moves_fail|done].
    unfold fail_outbox_event. by repeat case_match.
  - by apply coherent_lets_go.
Qed.

Lemma initial_coherent : coherent initial.
Proof.
  constructor; simpl; [apply well_ordered_empty|..].
  - intros a m. unfold get_projection_watermark. simpl. by rewrite lookup_empty.
  - by intros e ?%elem_of_nil.
  - intros w e ph. by rewrite lookup_empty.
Qed.

Lemma reachable_coherent sy : rtc sys_step initial sy -> coherent sy.
Proof. apply (rtc_ind_r coherent); [apply initial_coherent|]. intros y z _ Hs. by apply step_coherent. Qed.

(** No completed event went unprojected.  However the workers interleave,
    crash, fail and take over expired claims, an event is completed only after
    some worker projected it, and every event of an aggregate up to its
    watermark has been projected. *)
Theorem completed_was_projected sy :
  rtc sys_step initial sy ->
  (forall e, e ∈ events (sy_outbox sy) -> ev_status e = completed_ev -> logged (log sy) e)
  /\ (forall e m, e ∈ events (sy_outbox sy) -> mark_of (sy_outbox sy) e = Some m ->
        aggregate_version e <= projected_version m -> logged (log sy) e).
Proof.
  intros Hr. destruct (reachable_coherent sy Hr) as [_ Hm Hc _]. split; [exact Hc|].
  intros e m He Hem Hv. destruct (Hm (aggregate e) m Hem) as [Hall _]. by apply Hall.
Qed.

(** ** The loop of one worker is a run *)

Section loop.
Context (project : event -> option string) (w : string).

Definition at_phase (h : gmap string (event * phase)) (l : list event) (e : event) (ph : phase)
    (s : outbox) : system := {| sy_outbox := s; log := l; held := <[w := (e, ph)]> h |}.

Lemma set_phase h l e ph ph' s : now_holds w (e, ph') (at_phase h l e ph s) = at_phase h l e ph' s.
Proof. unfold now_holds, at_phase. simpl. by rewrite insert_insert_eq. Qed.

Lemma at_phase_held h l e ph s : held (at_phase h l e ph s) !! w = Some (e, ph).
Proof. apply lookup_insert_eq. Qed.

Lemma project_is_a_run e now s h l :
  let r := _project_event project e now s in
  exists ph, rtc sys_step (at_phase h l e Holding s) (at_phase h (l ++ p_done r) e ph (p_outbox r))
    /\ (p_raised r = None -> ph = Finished).
Proof.
  unfold _project_event. destruct (str_in (event_type e) EVENT_TYPES) eqn:Et; simpl.
  2: { exists Holding. rewrite app_nil_r. by split. }
  destruct (behind _ _) eqn:Eb; simpl.
  2: { exists Finished. rewrite app_nil_r. split; [|done]. apply rtc_once.
       rewrite <- (set_phase h l e Holding Finished). apply st_skip; [apply at_phase_held|done|done]. }
  assert (rtc sys_step (at_phase h l e Holding s) (at_phase h l e Behind s)) as H1.
  { apply rtc_once. rewrite <- (set_phase h l e Holding Behind). apply st_look; [apply at_phase_held|done|done]. }
  destruct (if needs_projection e then project e else None) as [why|]; simpl.
  { exists Behind. rewrite app_nil_r. by split. }
  assert (rtc sys_step (at_phase h l e Holding s) (at_phase h (l ++ [e]) e Projected s)) as H2.
  { etrans; [exact H1|]. apply rtc_once.
    pose proof (st_project w e (at_phase h l e Behind s) (at_phase_held _ _ _ _ _)) as Hs.
    unfold logs, now_holds, at_phase in *. simpl in Hs. by rewrite insert_insert_eq in Hs. }
  assert (forall s', advanced e now s = s' -> behind (mark_of s' e) (aggregate_version e) = false ->
    rtc sys_step (at_phase h l e Holding s) (at_phase h (l ++ [e]) e Finished s')) as H3.
  { intros s' <- Hb. etrans; [exact H2|]. apply rtc_once.
    pose proof (st_advance w e now (at_phase h (l ++ [e]) e Projected s) (at_phase_held _ _ _ _ _) Hb) as Hs.
    unfold on_outbox, now_holds, at_phase in *. simpl in Hs. by rewrite insert_insert_eq in Hs. }
  unfold advanced in H3.
  destruct (advance_projection_watermark _ _ _ _ _ s) as [s' [[]|err]] eqn:Ea; simpl in *.
  - exists Finished. split; [|done]. apply H3; [done|].
    unfold advance_projection_watermark in Ea. destruct (_ <=? 0); [done|].
    unfold mark_of, get_projection_watermark.
    destruct (watermarks s !! _) as [m|]; [destruct (_ <? _); [|done]|]; injection Ea as <-; simpl;
      rewrite lookup_insert_eq; simpl; apply Z.ltb_irrefl.
  - assert (s' = s) as ->.
    { unfold advance_projection_watermark in Ea. by repeat case_match; simplify_eq. }
    destruct (behind _ _) eqn:Eb'; simpl; [by exists Projected|].
    exists Finished. split; [|done]. by apply H3.
  - assert (s' = s) as ->.
    { unfold advance_projection_watermark in Ea. by repeat case_match; simplify_eq. }
    by exists Projected.
Qed.

Lemma drain_steps limit now sy :
  held sy !! w = None ->
  let '(s, done, _) := _drain_outbox project w limit now (sy_outbox sy) in
  rtc sys_step sy {| sy_outbox := s; log := log sy ++ done; held := held sy |}.
Proof.
  revert sy. induction limit as [|limit IH]; intros [s l h] Hw; simpl in *.
  { by rewrite app_nil_r. }
  destruct (claim_outbox_event w now OUTBOX_VISIBILITY_SECONDS None s) as [s1 [[e|]|err]] eqn:Ec.
  2: { apply claim_none in Ec as ->. by rewrite app_nil_r. }
  2: { unfold claim_outbox_event in Ec. by repeat case_match; simplify_eq. }
  assert (rtc sys_step {| sy_outbox := s; log := l; held := h |} (at_phase h l e Holding s1)) as H1.
  { apply rtc_once. by apply (st_claim w now OUTBOX_VISIBILITY_SECONDS None s1 e
      {| sy_outbox := s; log := l; held := h |}). }
  destruct (project_is_a_run e now s1 h l) as (ph & H2 & Hph).
  set (r := _project_event project e now s1) in *.
  assert (exists s2, (match p_raised r with
    | None => ((complete_outbox_event (event_id e) (ev_tenant e) w now (p_outbox r)).1, 1%nat)
    | Some why => ((fail_outbox_event (event_id e) (ev_tenant e) w now why OUTBOX_RETRY_SECONDS
                      (p_outbox r)).1, 0%nat) end).1 = s2
    /\ sys_step (at_phase h (l ++ p_done r) e ph (p_outbox r))
         {| sy_outbox := s2; log := l ++ p_done r; held := h |}) as (s2 & Es2 & H3).
  { assert (delete w (<[w := (e, ph)]> h) = h) as Ed by by apply delete_insert_id.
    eexists. split; [reflexivity|]. destruct (p_raised r) as [why|]; simpl.
    - pose proof (st_fail w e ph now why OUTBOX_RETRY_SECONDS _ (at_phase_held h (l ++ p_done r) e ph (p_outbox r))) as Hs.
      unfold lets_go, on_outbox, at_phase in *. simpl in Hs. by rewrite Ed in Hs.
    - rewrite Hph in * by done.
      pose proof (st_complete w e now _ (at_phase_held h (l ++ p_done r) e Finished (p_outbox r))) as Hs.
      unfold lets_go, on_outbox, at_phase in *. simpl in Hs. by rewrite Ed in Hs. }
  destruct (match p_raised r with None => _ | Some _ => _ end) as [s2' n]. simpl in Es2. subst s2'.
  specialize (IH {| sy_outbox := s2; log := l ++ p_done r; held := h |} Hw). simpl in IH.
  destruct (_drain_outbox project w limit now s2) as [[s3 done] m].
  etrans; [exact H1|]. etrans; [exact H2|]. eapply rtc_l; [exact H3|].
  rewrite app_assoc. exact IH.
Qed.
End loop.

(** The worker's loop is a run of the system.  Whatever projecting an event
    does, draining the outbox takes the system from state to state by the
    steps of a worker, with the events it projected at the end of the trace;
    so what holds of all runs holds of workers that drain, interleaved as they
    may be between two drains. *)
Theorem drain_is_a_run project w limit now sy :
  rtc sys_step initial sy -> held sy !! w = None ->
  let '(s, done, _) := _drain_outbox project w limit now (sy_outbox sy) in
  rtc sys_step sy {| sy_outbox := s; log := log sy ++ done; held := held sy |}
  /\ forall e, e ∈ events s -> ev_status e = completed_ev -> logged (log sy ++ done) e.
Proof.
  intros Hr Hw. pose proof (drain_steps project w limit now sy Hw) as Hd.
  destruct (_drain_outbox project w limit now (sy_outbox sy)) as [[s done] n].
  split; [exact Hd|].
  assert (coherent {| sy_outbox := s; log := log sy ++ done; held := held sy |}) as [_ _ Hc _]; [|exact Hc].
  apply reachable_coherent. by etrans.
Qed.

(** ** On concrete events *)

Definition demo_stored : outbox :=
  (append_outbox_event (demo_draft "b") 1 "2"
     (append_outbox_event (demo_draft "a") 1 "1" empty_outbox).1).1.
Definition demo_system : system := on_outbox demo_stored initial.
Lemma demo_reachable : rtc sys_step initial demo_system.
Proof.
  transitivity (on_outbox (append_outbox_event (demo_draft "a") 1 "1" empty_outbox).1 initial); apply rtc_once.
  - apply (st_append (demo_draft "a") 1 "1" initial).
  - apply (st_append (demo_draft "b") 1 "2"
             (on_outbox (append_outbox_event (demo_draft "a") 1 "1" empty_outbox).1 initial)).
Qed.
Definition demo_project (e : event) : option string := None.

Lemma completed_was_projected_witness :
  let '(s, done, n) := _drain_outbox demo_project "w1" 5 2 demo_stored in
  n = 2%nat /\ map ev_status (events s) = [completed_ev; completed_ev]
  /\ forall e, e ∈ events s -> ev_status e = completed_ev -> logged done e.
Proof.
  pose proof (drain_steps demo_project "w1" 5 2 demo_system eq_refl) as Hd.
  change (sy_outbox demo_system) with demo_stored in Hd.
  assert (let '(s, done, n) := _drain_outbox demo_project "w1" 5 2 demo_stored in
    n = 2%nat /\ map ev_status (events s) = [completed_ev; completed_ev]) as He by (vm_compute; by split).
  destruct (_drain_outbox demo_project "w1" 5 2 demo_stored) as [[s done] n].
  destruct He as [Hn Hst]. split; [exact Hn|]. split; [exact Hst|].
  assert (rtc sys_step initial {| sy_outbox := s; log := done; held := ∅ |}) as Hr
    by (etrans; [apply demo_reachable|exact Hd]).
  exact (proj1 (completed_was_projected _ Hr)).
Defined.

Lemma drain_is_a_run_witness :
  let '(s, done, _) := _drain_outbox demo_project "w1" 5 2 demo_stored in
  map event_id done = ["outbox:1"; "outbox:2"]
  /\ rtc sys_step demo_system {| sy_outbox := s; log := done; held := ∅ |}.
Proof.
  pose proof (drain_is_a_run demo_project "w1" 5 2 demo_system demo_reachable eq_refl) as H.
  change (sy_outbox demo_system) with demo_stored in H.
  assert (let '(s, done, n) := _drain_outbox demo_project "w1" 5 2 demo_stored in
    map event_id done = ["outbox:1"; "outbox:2"]) as He by (vm_compute; reflexivity).
  destruct (_drain_outbox demo_project "w1" 5 2 demo_stored) as [[s done] n].
  split; [exact He|]. exact (proj1 H).
Defined.

(** A slow worker between its look and its projection, and a quick one that
    drains thirty seconds later. *)
Definition slow_claim : outbox * result outbox_error (option event) :=
  claim_outbox_event "w1" 2 30 None demo_stored.
Definition slow_event : event :=
  match slow_claim.2 with Ok (Some e) => e | _ => new_event (demo_draft "a") "" 1 1 end.
Definition slow_holding : system := now_holds "w1" (slow_event, Holding) (on_outbox slow_claim.1 demo_system).
Definition slow_behind : system := now_holds "w1" (slow_event, Behind) slow_holding.
Definition quick_drain : outbox * list event * nat :=
  _drain_outbox demo_project "w2" 2 32 (sy_outbox slow_behind).
Definition quick_done : system := {|
  sy_outbox := quick_drain.1.1; log := log slow_behind ++ quick_drain.1.2; held := held slow_behind |}.
Definition slow_projected : system := now_holds "w1" (slow_event, Projected) (logs slow_event quick_done).

(** A slow worker projects an old event over a newer one.  A worker looks
    at the watermark, then projects, then advances; nothing renews its claim
    in between.  When its claim expires meanwhile, another worker projects the
    same event and the next one, and then the slow worker's projection of the
    first lands last, although the watermark already stands at the second. *)
Theorem late_projection_lands_last :
  rtc sys_step initial slow_projected
  /\ map event_id (log slow_projected) = ["outbox:1"; "outbox:2"; "outbox:1"]
  /\ map ev_status (events (sy_outbox slow_projected)) = [completed_ev; completed_ev]
  /\ projected_version <$> mark_of (sy_outbox slow_projected) slow_event = Some 2.
Proof.
  split; [|vm_compute; by repeat split].
  etrans; [apply demo_reachable|].
  eapply rtc_l; [apply (st_claim "w1" 2 30 None slow_claim.1 slow_event demo_system); vm_compute; reflexivity|].
  eapply rtc_l; [apply (st_look "w1" slow_event slow_holding); vm_compute; reflexivity|].
  transitivity quick_done; [|apply rtc_once, st_project; vm_compute; reflexivity].
  pose proof (drain_steps demo_project "w2" 2 32 slow_behind) as Hd.
  assert (held slow_behind !! "w2" = None) as Hw by (vm_compute; reflexivity). specialize (Hd Hw).
  unfold quick_done, quick_drain. set (d := _drain_outbox _ _ _ _ _) in *. clearbody d.
  destruct d as [[s done] n]. exact Hd.
Qed.
