(* ===== verification/Conversation.v ===== *)
(** * Conversations and their turns

    The conversation part of [WorkflowRepository]
    (src/agents/orchestrator/workflow_repository.py) over SQLite: a
    conversation's versioned state, the client turns that advance it, the
    answers to its blocking need, its presentation, and the append-only
    outcome events.  A committed turn appends its event to the outbox in the
    same transaction (Outbox.v).

    State, requests, responses and presentations are the values their JSON
    texts read back as.  A state is a mapping, a request and a response are
    mappings by type.  Content encryption is not modelled. *)

From S2P Require Import Prelude Rows PyValue Json Sha256 Outbox.
Local Open Scope Z_scope.

Definition fields : Type := list (string * pyval).

Definition CONVERSATION_STATUSES : list string := [
  "interpreting"; "resolving"; "needs_input"; "retrieving"; "answering"; "ready";
  "awaiting_approval"; "executing"; "succeeded"; "retryable_failure"; "unknown_outcome";
  "cancelled"; "expired"; "closed"].
Definition CONVERSATION_STATE_FIELDS : list string := [
  "locale"; "operation"; "operation_candidates"; "active_connection"; "active_channel";
  "active_person"; "active_thread"; "active_message"; "active_file"; "active_reaction";
  "read_period"; "pending_draft"; "effect_candidates"; "known_inputs"; "slot_state";
  "corrections"; "dependencies"; "blockers"; "entity_refs"; "blocking_need";
  "resolution_request"; "read_progress"; "effect_group"].
Definition META_FIELDS : list string := ["status"; "workflow_run_id"; "workflow_revision_id"].
Definition OUTCOME_EVENT_TYPES : list string := [
  "operation_attempted"; "clarification_requested"; "corrected"; "previewed"; "approved";
  "rejected"; "completed"; "abandoned"; "failed"].
Definition OUTCOME_METRIC_FIELDS : list string := [
  "clarification_count"; "correction_count"; "turn_count"; "page_count"; "candidate_count";
  "duration_seconds"; "terminal_outcome"; "error_code"; "locale"].

(** A row of [concierge_conversations]. *)
Record conv := {
  c_id : string;
  c_tenant : string;
  c_principal : string;
  c_status : string;
  state_version : Z;
  c_state : fields;
  presentation : option pyval;
  presentation_hash : option string;
  c_run : option string;
  c_revision : option string;
  c_created : Z;
  c_updated : Z;
  c_expires : Z;
  c_content_expires : Z;
  c_closed : option Z;
}.

Inductive turn_status : Type := started | committed | conflicted | failed_turn.
Global Instance turn_status_eq_dec : EqDecision turn_status.
Proof. solve_decision. Defined.

(** A row of [concierge_turns]. *)
Record turn := {
  tu_conv : string;
  tu_tenant : string;
  tu_principal : string;
  client_turn_id : string;
  turn_version : Z;
  base_version : Z;
  request_hash : string;
  tu_request : pyval;
  response_hash : option string;
  tu_response : option pyval;
  tu_status : turn_status;
  tu_content_expires : Z;
  tu_created : Z;
  tu_committed : option Z;
}.

(** A row of [concierge_answers]. *)
Record answer := {
  an_conv : string;
  an_tenant : string;
  an_principal : string;
  idempotency_key : string;
  an_field : string;
  answer_hash : string;
  an_run : option string;
  an_revision : option string;
  applied_at : Z;
}.

(** A row of [concierge_outcome_events]. *)
Record outcome_event := {
  oc_id : string;
  oc_tenant : string;
  oc_conv : string;
  oc_principal : string;
  oc_sequence : Z;
  oc_type : string;
  oc_family : option string;
  oc_metrics : pyval;
  oc_created : Z;
}.

(** The tables, in rowid order, and the outbox. *)
Record chat := {
  convs : list conv;
  turns : list turn;
  answers : list answer;
  outcomes : list outcome_event;
  chat_outbox : outbox;
}.
Definition empty_chat : chat :=
  {| convs := []; turns := []; answers := []; outcomes := []; chat_outbox := empty_outbox |}.
Definition with_convs (s : chat) (l : list conv) : chat :=
  {| convs := l; turns := turns s; answers := answers s; outcomes := outcomes s;
     chat_outbox := chat_outbox s |}.
Definition with_turns (s : chat) (l : list turn) : chat :=
  {| convs := convs s; turns := l; answers := answers s; outcomes := outcomes s;
     chat_outbox := chat_outbox s |}.
Definition with_answers (s : chat) (l : list answer) : chat :=
  {| convs := convs s; turns := turns s; answers := l; outcomes := outcomes s;
     chat_outbox := chat_outbox s |}.
Definition with_outcomes (s : chat) (l : list outcome_event) : chat :=
  {| convs := convs s; turns := turns s; answers := answers s; outcomes := l;
     chat_outbox := chat_outbox s |}.
Definition with_outbox (s : chat) (o : outbox) : chat :=
  {| convs := convs s; turns := turns s; answers := answers s; outcomes := outcomes s;
     chat_outbox := o |}.

Inductive chat_error : Type :=
| ChatValueError (why : string)
| Unavailable                     (* [KeyError] *)
| VersionConflict                 (* [RuntimeError("conversation version conflict")] *)
| TurnInProgress                  (* [RuntimeError("conversation turn already in progress")] *)
| ChatIntegrityError
| ChatTypeError
| ChatBindingError
| OutboxError (e : outbox_error).
Definition chatm (A : Type) : Type := stm chat chat_error A.

(** The columns an update of a conversation may assign. *)
Record conv_state := {
  s_status : string; s_version : Z; s_state : fields; s_presentation : option pyval;
  s_hash : option string; s_run : option string; s_revision : option string; s_updated : Z;
  s_expires : Z; s_content_expires : Z; s_closed : option Z }.
Definition set_conv (c : conv) (x : conv_state) : conv := {|
  c_id := c_id c; c_tenant := c_tenant c; c_principal := c_principal c; c_status := s_status x;
  state_version := s_version x; c_state := s_state x; presentation := s_presentation x;
  presentation_hash := s_hash x; c_run := s_run x; c_revision := s_revision x;
  c_created := c_created c; c_updated := s_updated x; c_expires := s_expires x;
  c_content_expires := s_content_expires x; c_closed := s_closed x |}.

Definition owns (cid tenant principal : string) (c : conv) : bool :=
  String.eqb (c_id c) cid && String.eqb (c_tenant c) tenant && String.eqb (c_principal c) principal.
Definition terminal (c : conv) : bool := str_in (c_status c) ["closed"; "expired"].

(** The mapping a state's JSON text reads back as. *)
Definition stored_fields (d : fields) : fields :=
  match norm (VDict d) with VDict d' => d' | _ => [] end.

Section operations.
Local Open Scope stm_scope.

(** [UPDATE ...] and whether it changed exactly one row. *)
Definition update_convs (p : conv -> bool) (f : conv -> conv) : chatm bool := fun s =>
  (with_convs s (update_where p f (convs s)),
   Ok (Nat.eqb (length (List.filter p (convs s))) 1)).
Definition chat_get : chatm chat := stm_get.

(** ** Reading and creating *)

Definition expire_conv (now_ts : Z) (c : conv) : conv := set_conv c {|
  s_status := "expired"; s_version := state_version c; s_state := []; s_presentation := None;
  s_hash := presentation_hash c; s_run := c_run c; s_revision := c_revision c;
  s_updated := now_ts; s_expires := c_expires c; s_content_expires := c_content_expires c;
  s_closed := Some now_ts |}.

Definition get_conversation (cid tenant principal : string) (now_ts : Z) (include_terminal : bool)
    : chatm (option conv) := fun s =>
  match List.find (owns cid tenant principal) (convs s) with
  | None => (s, Ok None)
  | Some row =>
      let late := negb (terminal row) && (c_expires row <? now_ts) in
      let s' := if late then with_convs s (update_where (owns cid tenant principal)
                                             (expire_conv now_ts) (convs s)) else s in
      let row' := if late then expire_conv now_ts row else row in
      (s', Ok (if terminal row' && negb include_terminal then None else Some row'))
  end.

(** The conversation, or [KeyError]. *)
Definition live_conversation (cid tenant principal : string) (now_ts : Z) : chatm conv :=
  c <~ get_conversation cid tenant principal now_ts false ;;
  match c with Some c => stm_ret c | None => stm_raise Unavailable end.

Definition new_conv (cid tenant principal : string) (state : fields) (now_ts expires : Z) : conv := {|
  c_id := cid; c_tenant := tenant; c_principal := principal; c_status := "interpreting";
  state_version := 1; c_state := state; presentation := None; presentation_hash := None;
  c_run := None; c_revision := None; c_created := now_ts; c_updated := now_ts;
  c_expires := expires; c_content_expires := expires; c_closed := None |}.
Definition insert_conv (c : conv) : chatm unit := fun s =>
  if existsb (fun x => String.eqb (c_id x) (c_id c)) (convs s) then (s, Err ChatIntegrityError)
  else (with_convs s (convs s ++ [c]), Ok tt).

Definition create_conversation (tenant principal : string) (now_ts ttl_seconds : Z)
    (conversation_id : option string) (locale : option string) (new_id : string)
    : chatm (option conv) :=
  if negb (truthy tenant && truthy principal)
  then stm_raise (ChatValueError "tenant_id and principal_id are required") else
  let cid := match conversation_id with
             | Some i => if truthy i then i else "conversation:" +:+ new_id
             | None => "conversation:" +:+ new_id end in
  let state := match locale with Some l => if truthy l then [("locale", VStr l)] else [] | None => [] end in
  insert_conv (new_conv cid tenant principal state now_ts (now_ts + ttl_seconds)) ;;;
  get_conversation cid tenant principal now_ts false.

(** ** Updating under a version *)

Definition dset (d : fields) (k : string) (v : pyval) : fields :=
  List.filter (fun kv => negb (String.eqb kv.1 k)) d ++ [(k, v)].
Definition dpop (d : fields) (k : string) : fields :=
  List.filter (fun kv => negb (String.eqb kv.1 k)) d.
Definition is_none (v : pyval) : bool := match v with VNone => true | _ => false end.

(** [{key: current.get(key) for key in names if current.get(key) is not None}]. *)
Definition kept (names : list string) (state : fields) : fields :=
  List.filter (fun kv => str_in kv.1 names && negb (is_none kv.2)) state.
Definition apply_changes (state changes : fields) : fields :=
  fold_left (fun st kv =>
    if str_in kv.1 META_FIELDS then st
    else if is_none kv.2 then dpop st kv.1 else dset st kv.1 kv.2) changes state.
Definition unsupported (changes : fields) : bool :=
  existsb (fun kv => negb (str_in kv.1 (CONVERSATION_STATE_FIELDS ++ META_FIELDS))) changes.

(** [changes.get("status", current)], one of the declared statuses. *)
Definition next_status (changes : fields) (current : string) : result chat_error string :=
  match get_or changes "status" (VStr current) with
  | VStr st => if str_in st CONVERSATION_STATUSES then Ok st
               else Err (ChatValueError "invalid conversation status")
  | VList _ | VDict _ => Err ChatTypeError
  | _ => Err (ChatValueError "invalid conversation status")
  end.
(** A link column: absent changes keep it, [None] clears it. *)
Definition next_link (changes : fields) (name : string) (current : option string)
    : result chat_error (option string) :=
  match dget changes name with
  | None => Ok current
  | Some VNone => Ok None
  | Some v => match bind_text v with Some t => Ok (Some t) | None => Err ChatBindingError end
  end.
Definition lift_chat {A} (r : result chat_error A) : chatm A :=
  match r with Ok a => stm_ret a | Err e => stm_raise e end.

Definition advance_conv (st : string) (state : fields) (run revision : option string)
    (now_ts expires : Z) (c : conv) : conv := set_conv c {|
  s_status := st; s_version := state_version c + 1; s_state := stored_fields state;
  s_presentation := presentation c; s_hash := presentation_hash c; s_run := run;
  s_revision := revision; s_updated := now_ts; s_expires := expires;
  s_content_expires := expires; s_closed := c_closed c |}.

(** The [UPDATE] both writers share, with its version check. *)
Definition advance (cid tenant principal : string) (v : Z) (current : conv) (state changes : fields)
    (now_ts ttl_seconds : Z) : chatm unit :=
  st <~ lift_chat (next_status changes (c_status current)) ;;
  run <~ lift_chat (next_link changes "workflow_run_id" (c_run current)) ;;
  revision <~ lift_chat (next_link changes "workflow_revision_id" (c_revision current)) ;;
  ok <~ update_convs (fun c => owns cid tenant principal c && Z.eqb (state_version c) v)
          (advance_conv st state run revision now_ts (now_ts + ttl_seconds)) ;;
  if ok : bool then stm_ret tt else stm_raise VersionConflict.

Definition update_conversation (cid tenant principal : string) (changes : fields)
    (now_ts ttl_seconds : Z) (expected_version : option Z) : chatm (option conv) :=
  if unsupported changes then stm_raise (ChatValueError "unsupported conversation fields") else
  current <~ live_conversation cid tenant principal now_ts ;;
  (match expected_version with
   | Some v => if Z.eqb (state_version current) v then stm_ret tt else stm_raise VersionConflict
   | None => stm_ret tt
   end) ;;;
  let state := apply_changes (kept CONVERSATION_STATE_FIELDS (c_state current)) changes in
  advance cid tenant principal (state_version current) current state changes now_ts ttl_seconds ;;;
  get_conversation cid tenant principal now_ts false.

(** ** Turns *)

Definition is_turn (cid tenant principal client_turn : string) (x : turn) : bool :=
  String.eqb (tu_conv x) cid && String.eqb (tu_tenant x) tenant
  && String.eqb (tu_principal x) principal && String.eqb (client_turn_id x) client_turn.
Definition in_conversation (cid tenant principal : string) (x : turn) : bool :=
  String.eqb (tu_conv x) cid && String.eqb (tu_tenant x) tenant && String.eqb (tu_principal x) principal.
Definition has_turn_status (st : turn_status) (x : turn) : bool := bool_decide (tu_status x = st).
Definition active_at (cid tenant principal : string) (v : Z) (x : turn) : bool :=
  in_conversation cid tenant principal x && Z.eqb (base_version x) v && has_turn_status started x.

(** [_conversation_turn_result]. *)
Record turn_result := { tr_turn : turn; tr_conversation : option conv; tr_duplicate : bool }.

Definition next_turn_version (cid tenant principal : string) (l : list turn) : Z :=
  fold_right (fun x n => if in_conversation cid tenant principal x then Z.max (turn_version x) n else n)
    0 l + 1.

Definition new_turn (cid tenant principal client_turn : string) (n base : Z) (request : fields)
    (now_ts ttl : Z) : turn := {|
  tu_conv := cid; tu_tenant := tenant; tu_principal := principal; client_turn_id := client_turn;
  turn_version := n; base_version := base; request_hash := sha256 (json_text (VDict request));
  tu_request := norm (VDict request); response_hash := None; tu_response := None;
  tu_status := started; tu_content_expires := now_ts + ttl; tu_created := now_ts;
  tu_committed := None |}.

(** The primary key, the two unique constraints, the checks and the foreign
    key; [begin] turns a violation into [TurnInProgress]. *)
Definition insert_turn (x : turn) : chatm unit := fun s =>
  let same y := in_conversation (tu_conv x) (tu_tenant x) (tu_principal x) y in
  if (turn_version x <=? 0) || (base_version x <=? 0)
     || existsb (fun y => same y && (String.eqb (client_turn_id y) (client_turn_id x)
                                     || Z.eqb (turn_version y) (turn_version x)
                                     || Z.eqb (base_version y) (base_version x)
                                        && has_turn_status started y)) (turns s)
     || negb (existsb (owns (tu_conv x) (tu_tenant x) (tu_principal x)) (convs s))
  then (s, Err TurnInProgress)
  else (with_turns s (turns s ++ [x]), Ok tt).

Definition begin_conversation_turn (cid tenant principal client_turn : string) (expected_version : Z)
    (request : fields) (now_ts content_ttl : Z) : chatm turn_result :=
  if negb (truthy client_turn)
  then stm_raise (ChatValueError "client_turn_id and request object are required") else
  current <~ live_conversation cid tenant principal now_ts ;;
  s <~ chat_get ;;
  match List.find (is_turn cid tenant principal client_turn) (turns s) with
  | Some prior =>
      if String.eqb (request_hash prior) (sha256 (json_text (VDict request)))
      then stm_ret {| tr_turn := prior; tr_conversation := Some current; tr_duplicate := true |}
      else stm_raise (ChatValueError "client turn id was used for a different request")
  | None =>
      if negb (Z.eqb (state_version current) expected_version) then stm_raise VersionConflict
      else if existsb (active_at cid tenant principal expected_version) (turns s)
      then stm_raise TurnInProgress
      else
        let x := new_turn cid tenant principal client_turn
                   (next_turn_version cid tenant principal (turns s)) expected_version request
                   now_ts content_ttl in
        insert_turn x ;;;
        stm_ret {| tr_turn := x; tr_conversation := Some current; tr_duplicate := false |}
  end.

Definition set_turn (x : turn) (st : turn_status) (hash : option string) (response : option pyval)
    (at_ : option Z) : turn := {|
  tu_conv := tu_conv x; tu_tenant := tu_tenant x; tu_principal := tu_principal x;
  client_turn_id := client_turn_id x; turn_version := turn_version x;
  base_version := base_version x; request_hash := request_hash x; tu_request := tu_request x;
  response_hash := hash; tu_response := response; tu_status := st;
  tu_content_expires := tu_content_expires x; tu_created := tu_created x; tu_committed := at_ |}.
Definition mark_conflicted (x : turn) : turn :=
  set_turn x conflicted (response_hash x) (tu_response x) (tu_committed x).
Definition mark_committed (response : fields) (now_ts : Z) (x : turn) : turn :=
  set_turn x committed (Some (sha256 (json_text (VDict response)))) (Some (norm (VDict response)))
    (Some now_ts).
Definition update_turns (p : turn -> bool) (f : turn -> turn) : chatm unit :=
  stm_modify (fun s => with_turns s (update_where p f (turns s))).

(** The event of a committed turn. *)
Definition turn_event (cid tenant client_turn : string) (v : Z) (req_hash res_hash : string) : draft := {|
  n_tenant := tenant; n_type := "conversation"; n_aggregate := cid;
  n_event := "conversation.turn_committed";
  n_payload := VDict [("client_turn_id", VStr client_turn); ("state_version", VInt v);
                      ("request_hash", VStr req_hash); ("response_hash", VStr res_hash)];
  n_dedupe := "conversation-turn:" +:+ cid +:+ ":" +:+ client_turn;
  n_max_attempts := MAX_ATTEMPTS_DEFAULT; n_available := None |}.
Definition outbox_statement {A} (m : obm A) : chatm A := fun s =>
  match m (chat_outbox s) with
  | (o, Ok a) => (with_outbox s o, Ok a)
  | (o, Err e) => (with_outbox s o, Err (OutboxError e))
  end.

(** What a commit decides inside its transaction. *)
Inductive commit_outcome : Type :=
| AlreadyCommitted (x : turn) (c : conv)
| Conflict
| Committed.

Definition blocking_need_ok (state : fields) : bool :=
  match get state "blocking_need" with VNone | VDict _ => true | _ => false end.

Definition commit_changes (cid tenant principal client_turn : string) (v : Z) (x : turn) (c : conv)
    (changes response : fields) (now_ts ttl_seconds : Z) (event_id : string) : chatm unit :=
  let state := apply_changes (kept CONVERSATION_STATE_FIELDS (c_state c)) changes in
  (if blocking_need_ok state then stm_ret tt
   else stm_raise (ChatValueError "blocking_need must be one object")) ;;;
  advance cid tenant principal v c state changes now_ts ttl_seconds ;;;
  update_turns (fun y => is_turn cid tenant principal client_turn y && has_turn_status started y)
    (mark_committed response now_ts) ;;;
  outbox_statement (append_outbox_event
    (turn_event cid tenant client_turn (v + 1) (request_hash x) (sha256 (json_text (VDict response))))
    now_ts event_id) ;;;
  stm_ret tt.

Definition commit_transaction (cid tenant principal client_turn : string) (v : Z)
    (changes response : fields) (now_ts ttl_seconds : Z) (event_id : string) : chatm commit_outcome :=
  transaction (
    s <~ chat_get ;;
    match List.find (is_turn cid tenant principal client_turn) (turns s) with
    | None => stm_raise Unavailable
    | Some x =>
        match List.find (owns cid tenant principal) (convs s) with
        | None => stm_raise Unavailable
        | Some c =>
            if terminal c then stm_raise Unavailable
            else if has_turn_status committed x then stm_ret (AlreadyCommitted x c)
            else if negb (has_turn_status started x) || negb (Z.eqb (base_version x) v)
                    || negb (Z.eqb (state_version c) v)
            then
              (if has_turn_status started x
               then update_turns (is_turn cid tenant principal client_turn) mark_conflicted
               else stm_ret tt) ;;;
              stm_ret Conflict
            else
              commit_changes cid tenant principal client_turn v x c changes response now_ts
                ttl_seconds event_id ;;;
              stm_ret Committed
        end
    end).

Definition commit_conversation_turn (cid tenant principal client_turn : string) (v : Z)
    (changes response : fields) (now_ts ttl_seconds : Z) (event_id : string) : chatm turn_result :=
  if unsupported changes then stm_raise (ChatValueError "unsupported conversation fields") else
  o <~ commit_transaction cid tenant principal client_turn v changes response now_ts ttl_seconds event_id ;;
  match o with
  | AlreadyCommitted x c =>
      stm_ret {| tr_turn := x; tr_conversation := Some c; tr_duplicate := true |}
  | Conflict => stm_raise VersionConflict
  | Committed =>
      s <~ chat_get ;;
      match List.find (is_turn cid tenant principal client_turn) (turns s) with
      | None => stm_raise ChatTypeError
      | Some x =>
          c <~ get_conversation cid tenant principal now_ts false ;;
          stm_ret {| tr_turn := x; tr_conversation := c; tr_duplicate := false |}
      end
  end.

(** ** Answers *)

(** The slots an answer keeps, and those it may fill directly. *)
Definition ANSWER_SLOTS : list string := [
  "locale"; "operation"; "active_connection"; "active_channel"; "active_person"; "active_thread";
  "read_period"; "pending_draft"].
Definition is_answer (cid tenant principal key : string) (a : answer) : bool :=
  String.eqb (an_conv a) cid && String.eqb (an_tenant a) tenant && String.eqb (an_principal a) principal
  && String.eqb (idempotency_key a) key.
Record answer_result := { ar_conversation : option conv; ar_answer : answer; ar_duplicate : bool }.

(** [dict(current.get("known_inputs") or {})]; a value that is neither empty
    nor a mapping is taken to raise. *)
Definition known_inputs (state : fields) : result chat_error fields :=
  let v := get state "known_inputs" in
  if truthy v then match v with VDict d => Ok d | _ => Err ChatTypeError end else Ok [].
Definition answered_state (state : fields) (field : string) (v : pyval) : result chat_error fields :=
  let base := kept (ANSWER_SLOTS ++ ["known_inputs"]) state in
  if str_in field ANSWER_SLOTS then Ok (dset base field v)
  else match known_inputs state with
       | Ok known => Ok (dset base "known_inputs" (VDict (dset known field v)))
       | Err e => Err e
       end.

Definition needs_field (c : conv) (field : string) : bool :=
  match get (c_state c) "blocking_need" with
  | VDict need => py_eqb (get need "field") (VStr field)
  | _ => false
  end.

Definition insert_answer (a : answer) : chatm unit := fun s =>
  if existsb (is_answer (an_conv a) (an_tenant a) (an_principal a) (idempotency_key a)) (answers s)
     || negb (existsb (owns (an_conv a) (an_tenant a) (an_principal a)) (convs s))
  then (s, Err ChatIntegrityError)
  else (with_answers s (answers s ++ [a]), Ok tt).

(** The version, the expiry and the content expiry stay as they were. *)
Definition answer_conv (state : fields) (run revision : option string) (now_ts : Z) (c : conv) : conv :=
  set_conv c {|
    s_status := "interpreting"; s_version := state_version c; s_state := stored_fields state;
    s_presentation := presentation c; s_hash := presentation_hash c;
    s_run := match run with Some r => Some r | None => c_run c end;
    s_revision := match revision with Some r => Some r | None => c_revision c end;
    s_updated := now_ts; s_expires := c_expires c; s_content_expires := c_content_expires c;
    s_closed := c_closed c |}.

Definition apply_conversation_answer (cid tenant principal key field : string) (v : pyval)
    (now_ts : Z) (run revision : option string) : chatm answer_result :=
  if negb (truthy key && truthy field)
  then stm_raise (ChatValueError "idempotency_key and field_name are required") else
  let hash := sha256 (json_text v) in
  current <~ live_conversation cid tenant principal now_ts ;;
  s <~ chat_get ;;
  match List.find (is_answer cid tenant principal key) (answers s) with
  | Some prior =>
      if String.eqb (an_field prior) field && String.eqb (answer_hash prior) hash
      then stm_ret {| ar_conversation := Some current; ar_answer := prior; ar_duplicate := true |}
      else stm_raise (ChatValueError "idempotency key was used for a different answer")
  | None =>
      if negb (needs_field current field)
      then stm_raise (ChatValueError "answer does not match the active blocking need") else
      state <~ lift_chat (answered_state (c_state current) field v) ;;
      let a := {| an_conv := cid; an_tenant := tenant; an_principal := principal;
                  idempotency_key := key; an_field := field; answer_hash := hash; an_run := run;
                  an_revision := revision; applied_at := now_ts |} in
      transaction (
        insert_answer a ;;;
        update_convs (owns cid tenant principal) (answer_conv state run revision now_ts)) ;;;
      c <~ get_conversation cid tenant principal now_ts false ;;
      stm_ret {| ar_conversation := c; ar_answer := a; ar_duplicate := false |}
  end.

(** ** Presentation, outcome events, closing *)

Definition present_conv (v : pyval) (now_ts ttl : Z) (c : conv) : conv := set_conv c {|
  s_status := c_status c; s_version := state_version c; s_state := c_state c;
  s_presentation := Some (norm v); s_hash := Some (sha256 (json_text v)); s_run := c_run c;
  s_revision := c_revision c; s_updated := now_ts; s_expires := c_expires c;
  s_content_expires := now_ts + ttl; s_closed := c_closed c |}.
Definition store_conversation_presentation (cid tenant principal : string) (v : pyval)
    (now_ts content_ttl : Z) : chatm (option conv) :=
  live_conversation cid tenant principal now_ts ;;;
  update_convs (owns cid tenant principal) (present_conv v now_ts content_ttl) ;;;
  get_conversation cid tenant principal now_ts false.

Definition safe_metrics (metrics : fields) : fields :=
  List.filter (fun kv => str_in kv.1 OUTCOME_METRIC_FIELDS
                         && match kv.2 with VInt _ | VStr _ | VBool _ => true | _ => false end) metrics.
Definition next_sequence (cid tenant : string) (l : list outcome_event) : Z :=
  fold_right (fun e n => if String.eqb (oc_tenant e) tenant && String.eqb (oc_conv e) cid
                         then Z.max (oc_sequence e) n else n) 0 l + 1.
Definition append_conversation_outcome_event (cid tenant principal type : string) (now_ts : Z)
    (family : pyval) (metrics : fields) (new_id : string) : chatm outcome_event :=
  if negb (str_in type OUTCOME_EVENT_TYPES)
  then stm_raise (ChatValueError "unsupported conversation outcome event") else
  if negb (truthy cid && truthy tenant && truthy principal)
  then stm_raise (ChatValueError "outcome events require owner binding") else
  transaction (
    s <~ chat_get ;;
    (if existsb (owns cid tenant principal) (convs s) then stm_ret tt else stm_raise Unavailable) ;;;
    let insert o :=
      let e := {| oc_id := "outcome:" +:+ new_id; oc_tenant := tenant; oc_conv := cid;
                  oc_principal := principal; oc_sequence := next_sequence cid tenant (outcomes s);
                  oc_type := type; oc_family := o; oc_metrics := norm (VDict (safe_metrics metrics));
                  oc_created := now_ts |} in
      (if existsb (fun x => String.eqb (oc_id x) (oc_id e) && String.eqb (oc_tenant x) tenant) (outcomes s)
       then stm_raise ChatIntegrityError
       else stm_modify (fun s' => with_outcomes s' (outcomes s' ++ [e]))) ;;;
      stm_ret e in
    match family with
    | VNone => insert None
    | v => match bind_text v with Some t => insert (Some t) | None => stm_raise ChatBindingError end
    end).

Definition close_conv (now_ts : Z) (c : conv) : conv := set_conv c {|
  s_status := "closed"; s_version := state_version c; s_state := []; s_presentation := None;
  s_hash := presentation_hash c; s_run := c_run c; s_revision := c_revision c;
  s_updated := now_ts; s_expires := c_expires c; s_content_expires := c_content_expires c;
  s_closed := Some now_ts |}.
Definition close_conversation (cid tenant principal : string) (now_ts : Z) (new_id : string) : chatm bool :=
  current <~ get_conversation cid tenant principal now_ts false ;;
  ok <~ update_convs (fun c => owns cid tenant principal c && negb (terminal c)) (close_conv now_ts) ;;
  if ok : bool then
    let state := match current with Some c => c_state c | None => [] end in
    append_conversation_outcome_event cid tenant principal
      (if truthy (get state "pending_draft") then "rejected" else "abandoned") now_ts
      (get state "operation") [("terminal_outcome", VStr "closed_by_user")] new_id ;;;
    stm_ret true
  else stm_ret false.

Definition unpresent (c : conv) : conv := set_conv c {|
  s_status := c_status c; s_version := state_version c; s_state := c_state c;
  s_presentation := None; s_hash := presentation_hash c; s_run := c_run c;
  s_revision := c_revision c; s_updated := c_updated c; s_expires := c_expires c;
  s_content_expires := c_content_expires c; s_closed := c_closed c |}.
Definition content_late (now_ts : Z) (c : conv) : bool :=
  (c_content_expires c <? now_ts) && match presentation c with Some _ => true | None => false end.
Definition purge_expired_conversation_content (now_ts : Z) : chatm nat := fun s =>
  (with_convs s (update_where (content_late now_ts) unpresent (convs s)),
   Ok (length (List.filter (content_late now_ts) (convs s)))).
End operations.
