(* ===== verification/ConversationProofs.v ===== *)
(** * What turns guarantee

    Theorems about Conversation.v.  Every method moves the tables by a few
    kinds of change ([chat_step]); along them a conversation's version never
    goes back, at most one turn per version is open, at most one is ever
    committed, and a committed turn has its event in the outbox. *)

From S2P Require Import Prelude Rows PyValue Json Sha256 Outbox OutboxProofs Conversation.
Local Open Scope Z_scope.

Definition owner (c : conv) : string * string * string := (c_id c, c_tenant c, c_principal c).
Definition turn_owner (x : turn) : string * string * string := (tu_conv x, tu_tenant x, tu_principal x).
Definition turn_key (x : turn) : string * string * string * string := (turn_owner x, client_turn_id x).

Lemma owns_spec cid tenant principal c :
  owns cid tenant principal c = true <-> owner c = (cid, tenant, principal).
Proof.
  unfold owns, owner. rewrite !andb_true_iff, !String.eqb_eq. split; [by intros [[-> ->] ->]|].
  intros E. by injection E as -> -> ->.
Qed.
Lemma in_conversation_spec cid tenant principal x :
  in_conversation cid tenant principal x = true <-> turn_owner x = (cid, tenant, principal).
Proof.
  unfold in_conversation, turn_owner. rewrite !andb_true_iff, !String.eqb_eq.
  split; [by intros [[-> ->] ->]|]. intros E. by injection E as -> -> ->.
Qed.
Lemma is_turn_spec cid tenant principal k x :
  is_turn cid tenant principal k x = true <-> turn_key x = ((cid, tenant, principal), k).
Proof.
  unfold is_turn, turn_key, turn_owner. rewrite !andb_true_iff, !String.eqb_eq.
  split; [by intros [[[-> ->] ->] ->]|]. intros E. by injection E as -> -> -> ->.
Qed.
Lemma has_turn_status_spec st x : has_turn_status st x = true <-> tu_status x = st.
Proof. unfold has_turn_status. by rewrite bool_decide_eq_true. Qed.

(** ** The changes *)

Definition same_conv (c c' : conv) : Prop := owner c' = owner c /\ state_version c <= state_version c'.
(** A turn keeps its columns but the outcome. *)
Definition same_turn (x x' : turn) : Prop :=
  turn_key x' = turn_key x /\ base_version x' = base_version x /\ turn_version x' = turn_version x
  /\ request_hash x' = request_hash x.

(** The outbox holds the event of the turn. *)
Definition announced (o : outbox) (x : turn) : Prop :=
  exists e, e ∈ events o /\ aggregate e = (tu_tenant x, "conversation", tu_conv x)
    /\ event_type e = "conversation.turn_committed"
    /\ payload_json e = json_text (VDict [
         ("client_turn_id", VStr (client_turn_id x)); ("state_version", VInt (base_version x + 1));
         ("request_hash", VStr (request_hash x)); ("response_hash", VStr (default "" (response_hash x)))]).

Inductive chat_step (s s' : chat) : Prop :=
| cs_convs :
    Forall2 same_conv (convs s) (convs s') -> turns s' = turns s -> chat_outbox s' = chat_outbox s ->
    chat_step s s'
| cs_new c :
    convs s' = convs s ++ [c] -> (forall x, x ∈ convs s -> c_id x <> c_id c) -> state_version c = 1 ->
    turns s' = turns s -> chat_outbox s' = chat_outbox s -> chat_step s s'
| cs_begin x c :
    turns s' = turns s ++ [x] -> tu_status x = started -> c ∈ convs s -> owner c = turn_owner x ->
    base_version x = state_version c ->
    (forall y, y ∈ turns s -> turn_key y <> turn_key x) ->
    (forall y, y ∈ turns s -> turn_owner y = turn_owner x -> base_version y = base_version x ->
       tu_status y <> started) ->
    convs s' = convs s -> chat_outbox s' = chat_outbox s -> chat_step s s'
| cs_conflict :
    Forall2 (fun x x' => x' = x \/ tu_status x = started /\ same_turn x x' /\ tu_status x' = conflicted) (turns s) (turns s') ->
    convs s' = convs s -> chat_outbox s' = chat_outbox s -> chat_step s s'
| cs_commit x c a b :
    turns s = a ++ x :: b -> tu_status x = started -> c ∈ convs s -> owner c = turn_owner x ->
    base_version x = state_version c ->
    Forall2 (fun d d' => same_conv d d' /\ (d = c -> state_version d' = state_version c + 1))
      (convs s) (convs s') ->
    (exists x', turns s' = a ++ x' :: b /\ same_turn x x' /\ tu_status x' = committed
       /\ announced (chat_outbox s') x') ->
    (exists d now id, chat_outbox s' = (append_outbox_event d now id (chat_outbox s)).1) ->
    chat_step s s'.

(** ** The invariant *)

Record orderly (s : chat) : Prop := {
  or_convs : NoDup (map c_id (convs s));
  or_turns : NoDup (map turn_key (turns s));
  or_versions : forall c, c ∈ convs s -> 1 <= state_version c;
  or_owned : forall x, x ∈ turns s -> exists c, c ∈ convs s /\ owner c = turn_owner x
    /\ base_version x <= state_version c /\ (tu_status x = committed -> base_version x < state_version c);
  or_open : forall x y, x ∈ turns s -> y ∈ turns s -> turn_owner x = turn_owner y ->
    base_version x = base_version y -> tu_status x = started \/ tu_status x = committed ->
    tu_status y = started \/ tu_status y = committed -> x = y;
  or_outbox : well_ordered (events (chat_outbox s));
  or_events : forall x, x ∈ turns s -> tu_status x = committed -> announced (chat_outbox s) x;
}.

Lemma conv_unique s c d : orderly s -> c ∈ convs s -> d ∈ convs s -> owner c = owner d -> c = d.
Proof.
  intros Hs Hc Hd E. apply (key_unique c_id (convs s)); [apply Hs|done|done|].
  unfold owner in E. congruence.
Qed.

Lemma Forall2_same_ids l l' : Forall2 same_conv l l' -> map c_id l' = map c_id l.
Proof.
  induction 1 as [|c c' l l' [Ho _] _ IH]; [done|]. simpl. rewrite IH. unfold owner in Ho. congruence.
Qed.

Lemma same_conv_forth l l' c :
  Forall2 same_conv l l' -> c ∈ l -> exists c', c' ∈ l' /\ same_conv c c'.
Proof.
  intros H [i Hi]%list_elem_of_lookup_1. destruct (Forall2_lookup_l _ _ _ _ _ H Hi) as (c' & Hi' & Hc).
  eauto using list_elem_of_lookup_2.
Qed.
Lemma same_conv_back l l' c' :
  Forall2 same_conv l l' -> c' ∈ l' -> exists c, c ∈ l /\ same_conv c c'.
Proof.
  intros H [i Hi]%list_elem_of_lookup_1. destruct (Forall2_lookup_r _ _ _ _ _ H Hi) as (c & Hi' & Hc).
  eauto using list_elem_of_lookup_2.
Qed.

Lemma announced_more d now id o x :
  well_ordered (events o) -> announced o x -> announced (append_outbox_event d now id o).1 x.
Proof.
  intros Ho (e & He & H). exists e. split; [|done].
  destruct (append_cases d now id o Ho) as [->|[-> _]]; [done|]. simpl. apply elem_of_app. by left.
Qed.

(** Owners stay and versions do not go back. *)
Lemma owned_mono l l' x :
  Forall2 same_conv l l' ->
  (exists c, c ∈ l /\ owner c = turn_owner x /\ base_version x <= state_version c
     /\ (tu_status x = committed -> base_version x < state_version c)) ->
  exists c, c ∈ l' /\ owner c = turn_owner x /\ base_version x <= state_version c
     /\ (tu_status x = committed -> base_version x < state_version c).
Proof.
  intros Hl (c & Hc & Ho & Hb & Hk). destruct (same_conv_forth l l' c Hl Hc) as (c' & Hc' & Ho' & Hv).
  exists c'. split; [done|]. split; [congruence|]. split; [lia|]. intros Hst. specialize (Hk Hst). lia.
Qed.

Lemma versions_mono l l' :
  Forall2 same_conv l l' -> (forall c, c ∈ l -> 1 <= state_version c) ->
  forall c, c ∈ l' -> 1 <= state_version c.
Proof.
  intros Hl Hv c' Hc'. destruct (same_conv_back l l' c' Hl Hc') as (c & Hc & _ & Hle).
  specialize (Hv c Hc). lia.
Qed.

Lemma orderly_convs s s' :
  Forall2 same_conv (convs s) (convs s') -> turns s' = turns s -> chat_outbox s' = chat_outbox s ->
  orderly s -> orderly s'.
Proof.
  intros Hc Ht Ho Hs. destruct Hs as [H1 H2 H3 H4 H5 H6 H7]. constructor; rewrite ?Ht, ?Ho; try done.
  - by rewrite (Forall2_same_ids _ _ Hc).
  - by apply (versions_mono (convs s)).
  - intros x Hx. apply (owned_mono (convs s)); [done|by apply H4].
Qed.

Lemma orderly_new s s' c :
  convs s' = convs s ++ [c] -> (forall x, x ∈ convs s -> c_id x <> c_id c) -> state_version c = 1 ->
  turns s' = turns s -> chat_outbox s' = chat_outbox s -> orderly s -> orderly s'.
Proof.
  intros Hc Hn Hv Ht Ho Hs. destruct Hs as [H1 H2 H3 H4 H5 H6 H7]. constructor; rewrite ?Ht, ?Ho, ?Hc; try done.
  - rewrite map_app. apply NoDup_app. split; [done|]. split; [|apply NoDup_singleton].
    intros k (x & -> & Hx)%list_elem_of_fmap E%list_elem_of_singleton. by apply (Hn x).
  - intros d [Hd| ->%list_elem_of_singleton]%elem_of_app; [by apply H3|lia].
  - intros x Hx. destruct (H4 x Hx) as (d & Hd & H). exists d. split; [apply elem_of_app; by left|done].
Qed.

Lemma orderly_begin s s' x c :
  turns s' = turns s ++ [x] -> tu_status x = started -> c ∈ convs s -> owner c = turn_owner x ->
  base_version x = state_version c ->
  (forall y, y ∈ turns s -> turn_key y <> turn_key x) ->
  (forall y, y ∈ turns s -> turn_owner y = turn_owner x -> base_version y = base_version x ->
     tu_status y <> started) ->
  convs s' = convs s -> chat_outbox s' = chat_outbox s -> orderly s -> orderly s'.
Proof.
  intros Ht Hst Hc Hoc Hb Hk Ha Hcs Ho Hs. pose proof (conv_unique s) as Hu.
  assert (forall y, y ∈ turns s -> turn_owner y = turn_owner x -> base_version y = base_version x ->
    tu_status y = started \/ tu_status y = committed -> False) as Hclash.
  { intros y Hy Hyo Hyb [E|E]; [by apply (Ha y)|].
    destruct (or_owned s Hs y Hy) as (d & Hd & Hod & _ & Hlt). specialize (Hlt E).
    assert (d = c) as -> by (apply Hu; [done..|congruence]). lia. }
  destruct Hs as [H1 H2 H3 H4 H5 H6 H7]. constructor; rewrite ?Ht, ?Ho, ?Hcs; try done.
  - rewrite map_app. apply NoDup_app. split; [done|]. split; [|apply NoDup_singleton].
    intros k (y & -> & Hy)%list_elem_of_fmap E%list_elem_of_singleton. by apply (Hk y).
  - intros y [Hy| ->%list_elem_of_singleton]%elem_of_app; [by apply H4|].
    exists c. split; [done|]. split; [done|]. split; [lia|congruence].
  - intros y z [Hy| ->%list_elem_of_singleton]%elem_of_app [Hz| ->%list_elem_of_singleton]%elem_of_app Hyz Hb' Hy' Hz'.
    + by apply H5.
    + by destruct (Hclash y).
    + by destruct (Hclash z).
    + done.
  - intros y [Hy| ->%list_elem_of_singleton]%elem_of_app E; [by apply H7|congruence].
Qed.

Lemma orderly_conflict s s' :
  Forall2 (fun x x' => x' = x \/ tu_status x = started /\ same_turn x x' /\ tu_status x' = conflicted) (turns s) (turns s') ->
  convs s' = convs s -> chat_outbox s' = chat_outbox s -> orderly s -> orderly s'.
Proof.
  intros Ht Hcs Ho Hs. destruct Hs as [H1 H2 H3 H4 H5 H6 H7].
  assert (forall x', x' ∈ turns s' -> x' ∈ turns s
    \/ tu_status x' = conflicted /\ exists x, x ∈ turns s /\ same_turn x x') as Hback.
  { intros x' [i Hi]%list_elem_of_lookup_1.
    destruct (Forall2_lookup_r _ _ _ _ _ Ht Hi) as (x & Hi' & Hx). apply list_elem_of_lookup_2 in Hi'.
    destruct Hx as [->|(_ & Hsame & Hst)]; [by left|right]. split; [done|]. by exists x. }
  constructor; rewrite ?Ho, ?Hcs; try done.
  - assert (map turn_key (turns s') = map turn_key (turns s)) as ->; [|done].
    clear -Ht. induction Ht as [|x x' l l' [->|(_ & [E _] & _)] _ IH]; [done|..]; simpl; by rewrite IH, ?E.
  - intros x' Hx'. destruct (Hback x' Hx') as [Hx|(Hst & x & Hx & [Hk [Hb _]])]; [by apply H4|].
    destruct (H4 x Hx) as (c & Hc & Hoc & Hle & _). exists c. split; [done|].
    assert (turn_owner x' = turn_owner x) as -> by (unfold turn_key in Hk; congruence).
    rewrite Hb. split; [done|]. split; [done|congruence].
  - intros x y Hx Hy E1 E2 Hsx Hsy.
    destruct (Hback x Hx) as [Hx'|(Hst & _)]; [|by destruct Hsx; congruence].
    destruct (Hback y Hy) as [Hy'|(Hst & _)]; [|by destruct Hsy; congruence]. by apply H5.
  - intros x Hx Hst. destruct (Hback x Hx) as [Hx'|(Hst' & _)]; [by apply H7|congruence].
Qed.

Lemma orderly_commit s s' x c a b :
  turns s = a ++ x :: b -> tu_status x = started -> c ∈ convs s -> owner c = turn_owner x ->
  base_version x = state_version c ->
  Forall2 (fun d d' => same_conv d d' /\ (d = c -> state_version d' = state_version c + 1))
    (convs s) (convs s') ->
  (exists x', turns s' = a ++ x' :: b /\ same_turn x x' /\ tu_status x' = committed
     /\ announced (chat_outbox s') x') ->
  (exists d now id, chat_outbox s' = (append_outbox_event d now id (chat_outbox s)).1) ->
  orderly s -> orderly s'.
Proof.
  intros Ht Hst Hc Hoc Hb Hcs (x' & Ht' & (Hk & Hb' & _ & _) & Hst' & Ha) (d & now & id & Ho) Hs.
  assert (Forall2 same_conv (convs s) (convs s')) as Hsame by (eapply Forall2_impl; [exact Hcs|by intros ? ? []]).
  assert (turn_owner x' = turn_owner x) as Hox by (unfold turn_key in Hk; congruence).
  assert (exists c', c' ∈ convs s' /\ owner c' = turn_owner x /\ state_version c' = state_version c + 1)
    as (c' & Hc' & Hoc' & Hvc').
  { apply list_elem_of_lookup_1 in Hc as [i Hi].
    destruct (Forall2_lookup_l _ _ _ _ _ Hcs Hi) as (c' & Hi' & [[E _] Hv]).
    exists c'. split; [by eapply list_elem_of_lookup_2|]. split; [congruence|by apply Hv]. }
  assert (forall y, y ∈ turns s' -> y = x' \/ y ∈ turns s /\ y ∈ a ++ b) as Hback.
  { rewrite Ht', Ht. set_solver. }
  assert (x ∈ turns s) as Hx by (rewrite Ht; set_solver).
  assert (forall y, y ∈ turns s -> y ∈ a ++ b -> turn_owner y = turn_owner x ->
    base_version y = base_version x -> tu_status y = started \/ tu_status y = committed -> False) as Hclash.
  { intros y Hy Hab E1 E2 Hys. assert (y = x) as -> by (apply (or_open s Hs); auto).
    pose proof (or_turns s Hs) as Hnd. rewrite Ht in Hnd. by apply (NoDup_split_key turn_key a x b x). }
  destruct Hs as [H1 H2 H3 H4 H5 H6 H7]. constructor.
  - by rewrite (Forall2_same_ids _ _ Hsame).
  - rewrite Ht', map_app. simpl. rewrite Hk. rewrite Ht, map_app in H2. exact H2.
  - by apply (versions_mono (convs s)).
  - intros y Hy. destruct (Hback y Hy) as [->|[Hy' _]]; [|by apply (owned_mono (convs s)); [|apply H4]].
    exists c'. split; [done|]. split; [congruence|]. split; [lia|intros _; lia].
  - intros y z Hy Hz E1 E2 Hys Hzs.
    destruct (Hback y Hy) as [->|[Hy1 Hy2]], (Hback z Hz) as [->|[Hz1 Hz2]]; [done|..|by apply H5].
    + destruct (Hclash z); [done..|congruence|congruence|done].
    + destruct (Hclash y); [done..|congruence|congruence|done].
  - rewrite Ho. by apply append_well_ordered.
  - intros y Hy Hys. destruct (Hback y Hy) as [->|[Hy' _]]; [done|]. rewrite Ho.
    apply announced_more; [done|]. by apply H7.
Qed.

Lemma step_orderly s s' : chat_step s s' -> orderly s -> orderly s'.
Proof.
  intros []; [by eapply orderly_convs|by eapply orderly_new|by eapply orderly_begin
    |by eapply orderly_conflict|by eapply orderly_commit].
Qed.
Lemma steps_orderly s s' : rtc chat_step s s' -> orderly s -> orderly s'.
Proof. induction 1 as [|x y z H _ IH]; [done|]. intros Hs. by apply IH, (step_orderly x). Qed.

(** Conversations stay, under the same owner, and their versions do not go back. *)
Lemma step_versions s s' c : chat_step s s' -> c ∈ convs s -> exists c', c' ∈ convs s' /\ same_conv c c'.
Proof.
  intros [Hc _ _|d E _ _ _ _|x d _ _ _ _ _ _ _ E _|_ E _|x d a b _ _ _ _ _ Hc _ _] Hin.
  - by apply (same_conv_forth (convs s)).
  - exists c. rewrite E. split; [apply elem_of_app; by left|by split].
  - exists c. rewrite E. by split.
  - exists c. rewrite E. by split.
  - apply (same_conv_forth (convs s)); [|done]. eapply Forall2_impl; [exact Hc|by intros ? ? []].
Qed.
Lemma steps_versions s s' c :
  rtc chat_step s s' -> c ∈ convs s -> exists c', c' ∈ convs s' /\ same_conv c c'.
Proof.
  intros Hr. revert c. induction Hr as [|x y z Hxy _ IH]; intros c Hc; [exists c; by split|].
  destruct (step_versions x y c Hxy Hc) as (d & Hd & Ho & Hv). destruct (IH d Hd) as (e & He & Ho' & Hv').
  exists e. split; [done|]. split; [congruence|lia].
Qed.

Lemma empty_orderly : orderly empty_chat.
Proof.
  constructor; simpl; [constructor|constructor|..|apply well_ordered_empty|]; set_solver.
Qed.

(** ** Every method moves along the changes *)

Definition moving {A} (m : chatm A) : Prop := forall s, orderly s -> rtc chat_step s (m s).1.

Lemma moving_ret {A} (a : A) : moving (stm_ret a).
Proof. intros s _. reflexivity. Qed.
Lemma moving_raise {A} e : moving (stm_raise (A := A) e).
Proof. intros s _. reflexivity. Qed.
Lemma moving_lift {A} (r : result chat_error A) : moving (lift_chat r).
Proof. destruct r; [apply moving_ret|apply moving_raise]. Qed.
Lemma moving_get {A} (k : chat -> chatm A) : (forall s, moving (k s)) -> moving (stm_bind chat_get k).
Proof. intros Hk s Hs. by apply Hk. Qed.
Lemma moving_bind {A B} (m : chatm A) (k : A -> chatm B) :
  moving m -> (forall a, moving (k a)) -> moving (stm_bind m k).
Proof.
  intros Hm Hk s Hs. unfold stm_bind. specialize (Hm s Hs). destruct (m s) as [s' [a|e]]; [|done].
  etrans; [exact Hm|]. apply Hk. by eapply steps_orderly.
Qed.
Lemma moving_transaction {A} (m : chatm A) : moving m -> moving (transaction m).
Proof.
  intros Hm s Hs. specialize (Hm s Hs). unfold transaction. destruct (m s) as [s' [a|e]]; [done|reflexivity].
Qed.

Lemma Forall2_update {R : conv -> conv -> Prop} p f l :
  (forall c, c ∈ l -> p c = false -> R c c) -> (forall c, c ∈ l -> p c = true -> R c (f c)) ->
  Forall2 R l (update_where p f l).
Proof.
  intros Hr Hf. induction l as [|c l IH]; [constructor|]. simpl. constructor.
  - destruct (p c) eqn:E; [apply Hf; [by left|done]|apply Hr; [by left|done]].
  - apply IH; intros d Hd; [apply Hr|apply Hf]; by right.
Qed.
Lemma same_conv_refl c : same_conv c c.
Proof. by split. Qed.

Lemma step_update p f s :
  (forall c, c ∈ convs s -> p c = true -> same_conv c (f c)) ->
  chat_step s (with_convs s (update_where p f (convs s))).
Proof. intros Hf. apply cs_convs; [|done|done]. apply Forall2_update; [intros; apply same_conv_refl|done]. Qed.
Lemma moving_update p f : (forall c, p c = true -> same_conv c (f c)) -> moving (update_convs p f).
Proof. intros Hf s _. apply rtc_once, step_update. auto. Qed.

Lemma moving_conversation cid t u now b : moving (get_conversation cid t u now b).
Proof.
  intros s _. unfold get_conversation. destruct (List.find _ _) as [row|]; [|reflexivity].
  cbn [fst]. destruct (_ && _); [|reflexivity]. apply rtc_once, step_update. intros c _ _. by split.
Qed.
#[local] Hint Resolve moving_ret moving_raise moving_lift moving_conversation : tessera.

Lemma moving_live cid t u now : moving (live_conversation cid t u now).
Proof. apply moving_bind; [auto with tessera|]. intros [c|]; auto with tessera. Qed.

Lemma live_ok cid t u now s s' c :
  live_conversation cid t u now s = (s', Ok c) ->
  s' = s /\ List.find (owns cid t u) (convs s) = Some c /\ terminal c = false.
Proof.
  unfold live_conversation, get_conversation, stm_bind.
  destruct (List.find _ _) as [row|]; [|done].
  destruct (negb (terminal row) && (c_expires row <? now)) eqn:E; simpl; [done|].
  destruct (terminal row) eqn:Et; simpl; [done|]. by intros [= <- <-].
Qed.

Lemma moving_advance cid t u v current st ch now ttl : moving (advance cid t u v current st ch now ttl).
Proof.
  unfold advance. do 3 (apply moving_bind; [auto with tessera|intros ?]).
  apply moving_bind; [apply moving_update; intros c _; split; [done|simpl; lia]|].
  intros []; auto with tessera.
Qed.

Lemma moving_update_conversation cid t u ch now ttl v : moving (update_conversation cid t u ch now ttl v).
Proof.
  unfold update_conversation. destruct (unsupported ch); [auto with tessera|].
  apply moving_bind; [apply moving_live|]. intros current.
  apply moving_bind; [destruct v; [case_match|]; auto with tessera|]. intros _.
  apply moving_bind; [apply moving_advance|auto with tessera].
Qed.

Lemma moving_create t u now ttl cid locale id : moving (create_conversation t u now ttl cid locale id).
Proof.
  unfold create_conversation. destruct (negb _); [auto with tessera|].
  apply moving_bind; [|auto with tessera]. intros s _. unfold insert_conv.
  destruct (existsb _ _) eqn:E; [reflexivity|]. apply rtc_once. eapply cs_new; try reflexivity.
  intros x Hx Heq. apply not_true_iff_false in E. apply E, existsb_exists. exists x.
  split; [by apply list_elem_of_In|]. by apply String.eqb_eq.
Qed.

(** What a new turn needs. *)
Lemma insert_turn_ok x s s' :
  insert_turn x s = (s', Ok tt) ->
  s' = with_turns s (turns s ++ [x])
  /\ forall y, y ∈ turns s -> turn_owner y = turn_owner x ->
       client_turn_id y <> client_turn_id x
       /\ (base_version y = base_version x -> tu_status y <> started).
Proof.
  unfold insert_turn. destruct (_ || _) eqn:E; [done|]. intros [= <-]. split; [done|].
  apply orb_false_iff in E as [E _]. apply orb_false_iff in E as [_ E].
  intros y Hy Ho. apply not_true_iff_false in E. rewrite existsb_exists in E.
  split; [intros Hc|intros Hb Hst]; apply E; exists y; (split; [by apply list_elem_of_In|]);
    rewrite (proj2 (in_conversation_spec _ _ _ _)) by done; simpl.
  - by rewrite Hc, String.eqb_refl.
  - rewrite Hb, Z.eqb_refl, (proj2 (has_turn_status_spec _ _) Hst). by rewrite !orb_true_r.
Qed.

Lemma moving_begin cid t u k v req now ttl : moving (begin_conversation_turn cid t u k v req now ttl).
Proof.
  unfold begin_conversation_turn. destruct (negb _); [auto with tessera|].
  intros s Hs. pose proof (moving_live cid t u now s Hs) as Hm. unfold stm_bind.
  destruct (live_conversation cid t u now s) as [s1 [c|e]] eqn:El; [|exact Hm].
  apply live_ok in El as (-> & Hf & _). clear Hm. apply find_In in Hf as [Hc Hown%owns_spec].
  unfold chat_get, stm_get. destruct (List.find _ _) as [prior|] eqn:Ef; [by case_match|].
  destruct (Z.eqb_spec (state_version c) v) as [Hv|]; [|reflexivity]. simpl.
  destruct (existsb _ _); [reflexivity|].
  destruct (insert_turn _ s) as [s2 [[]|e]] eqn:Ei.
  - apply insert_turn_ok in Ei as [-> Hn]. apply rtc_once.
    eapply (cs_begin _ _ _ c); try reflexivity; [done|done|done| |].
    + intros y Hy E. unfold turn_key in E. destruct (Hn y Hy) as [Hk _]; [congruence|]. congruence.
    + intros y Hy Ho Hb. by apply Hn.
  - unfold insert_turn in Ei. destruct (_ || _); by simplify_eq.
Qed.

Lemma advance_ok cid t u v c st ch now ttl s s' :
  advance cid t u v c st ch now ttl s = (s', Ok tt) ->
  exists status run revision,
    s' = with_convs s (update_where (fun d => owns cid t u d && Z.eqb (state_version d) v)
                         (advance_conv status st run revision now (now + ttl)) (convs s)).
Proof.
  unfold advance, lift_chat, stm_bind, stm_ret, stm_raise. destruct (next_status _ _) as [status|]; [|done].
  destruct (next_link ch "workflow_run_id" _) as [run|]; [|done].
  destruct (next_link ch "workflow_revision_id" _) as [revision|]; [|done]. simpl.
  destruct (Nat.eqb _ _); [|done]. intros [= <-]. by exists status, run, revision.
Qed.

(** A committed turn: its conversation one version on, its event appended. *)
Lemma commit_changes_step cid t u k v x c ch res now ttl id s s' :
  orderly s -> List.find (is_turn cid t u k) (turns s) = Some x ->
  List.find (owns cid t u) (convs s) = Some c ->
  tu_status x = started -> base_version x = v -> state_version c = v ->
  commit_changes cid t u k v x c ch res now ttl id s = (s', Ok tt) -> chat_step s s'.
Proof.
  intros Hs Hx Hc Hst Hb Hv. apply find_In in Hc as [Hc Ho%owns_spec].
  apply find_split in Hx as (a & b & El & Hx%is_turn_spec & _).
  unfold commit_changes. unfold stm_bind at 1. destruct (blocking_need_ok _); [|done].
  unfold stm_ret at 1, stm_bind at 1. destruct (advance _ _ _ _ _ _ _ _ _ s) as [s1 [[]|e]] eqn:Ea; [|done].
  apply advance_ok in Ea as (status & run & revision & ->). unfold stm_bind, update_turns, stm_modify. simpl.
  unfold outbox_statement. simpl. destruct (append_outbox_event _ now id (chat_outbox s)) as [o [e|e]] eqn:Ee; [|done].
  intros [= <-]. assert (turn_owner x = (cid, t, u) /\ client_turn_id x = k) as [Hxo Hxk]
    by (unfold turn_key in Hx; by split; congruence).
  eapply (cs_commit s _ x c a b); simpl; try done.
  - congruence.
  - congruence.
  - apply Forall2_update; intros d Hd Hp.
    + split; [apply same_conv_refl|]. intros ->. exfalso. apply not_true_iff_false in Hp. apply Hp.
      apply andb_true_iff. split; [by apply owns_spec|by apply Z.eqb_eq].
    + split; [split; [done|simpl; lia]|]. by intros ->.
  - exists (mark_committed res now x). split; [|split; [done|split; [done|]]].
    + rewrite El. apply update_split.
      * apply andb_true_iff. split; [by apply is_turn_spec|by apply has_turn_status_spec].
      * intros y Hy. apply not_true_iff_false. intros [Hk%is_turn_spec _]%andb_true_iff.
        pose proof (or_turns s Hs) as Hnd. rewrite El in Hnd.
        apply (NoDup_split_key turn_key a x b y Hnd Hy). congruence.
    + apply append_ok in Ee as (He & Hd & Hsame). exists e. split; [done|].
      unfold same_dedupe in Hd. unfold same_event in Hsame. simpl in Hd, Hsame. bool_hyps.
      unfold turn_owner in Hxo. injection Hxo as E1 E2 E3. unfold aggregate. simpl.
      rewrite Hxk, E1, E2, Hb. split; [congruence|]. split; [done|]. congruence.
  - eexists _, now, id. by rewrite Ee.
Qed.

(** What a commit may do, case by case. *)
Lemma commit_cases cid t u k v ch res now ttl id s :
  match commit_transaction cid t u k v ch res now ttl id s with
  | (s', Ok Committed) => exists x c,
      List.find (is_turn cid t u k) (turns s) = Some x
      /\ List.find (owns cid t u) (convs s) = Some c /\ terminal c = false
      /\ tu_status x = started /\ base_version x = v /\ state_version c = v
      /\ commit_changes cid t u k v x c ch res now ttl id s = (s', Ok tt)
  | (s', Ok Conflict) => exists x, List.find (is_turn cid t u k) (turns s) = Some x
      /\ tu_status x <> committed
      /\ (s' = s \/ tu_status x = started
          /\ s' = with_turns s (update_where (is_turn cid t u k) mark_conflicted (turns s)))
  | (s', Ok (AlreadyCommitted x c)) =>
      s' = s /\ List.find (is_turn cid t u k) (turns s) = Some x
      /\ List.find (owns cid t u) (convs s) = Some c /\ terminal c = false /\ tu_status x = committed
  | (s', Err _) => s' = s
  end.
Proof.
  unfold commit_transaction, transaction, stm_bind at 1, chat_get, stm_get.
  destruct (List.find (is_turn cid t u k) (turns s)) as [x|] eqn:Ex; [|done].
  destruct (List.find (owns cid t u) (convs s)) as [c|] eqn:Ec; [|done].
  destruct (terminal c) eqn:Et; [done|].
  destruct (has_turn_status committed x) eqn:Ek; [by rewrite has_turn_status_spec in Ek|].
  assert (tu_status x <> committed) as Hnk.
  { intros E. by rewrite (proj2 (has_turn_status_spec _ _) E) in Ek. }
  destruct (negb (has_turn_status started x) || negb (Z.eqb (base_version x) v)
            || negb (Z.eqb (state_version c) v)) eqn:E.
  - unfold stm_bind. destruct (has_turn_status started x) eqn:Est; simpl; exists x;
      (split; [done|]; split; [done|]); [right|by left]. by rewrite has_turn_status_spec in Est.
  - unfold stm_bind. destruct (commit_changes _ _ _ _ _ _ _ _ _ _ _ _ s) as [s' [[]|e]] eqn:Em; [|done].
    bool_hyps. rewrite has_turn_status_spec in *. exists x, c. by split_and!.
Qed.

Lemma step_conflict cid t u k x s :
  orderly s -> List.find (is_turn cid t u k) (turns s) = Some x -> tu_status x = started ->
  chat_step s (with_turns s (update_where (is_turn cid t u k) mark_conflicted (turns s))).
Proof.
  intros Hs (Hx & Hk%is_turn_spec)%find_In Hst. apply cs_conflict; [|done|done]. simpl.
  assert (forall y, y ∈ turns s -> is_turn cid t u k y = true -> tu_status y = started) as Hu.
  { intros y Hy Hky%is_turn_spec. assert (y = x) as ->; [|done].
    apply (key_unique turn_key (turns s)); [apply Hs|done|done|congruence]. }
  clear Hx Hst. induction (turns s) as [|y l IH]; [constructor|]. simpl. constructor.
  - destruct (is_turn cid t u k y) eqn:E; [right|by left]. split; [apply Hu; [by left|done]|]. by split.
  - apply IH. intros z Hz. apply Hu. by right.
Qed.

Lemma moving_commit cid t u k v ch res now ttl id :
  moving (commit_conversation_turn cid t u k v ch res now ttl id).
Proof.
  unfold commit_conversation_turn. destruct (unsupported ch); [auto with tessera|].
  apply moving_bind.
  - intros s Hs. pose proof (commit_cases cid t u k v ch res now ttl id s) as H.
    destruct (commit_transaction _ _ _ _ _ _ _ _ _ _ s) as [s' [[x c| |]|e]]; simpl.
    + by destruct H as [-> _].
    + destruct H as (x & Hx & _ & [->|[Hst ->]]); [reflexivity|]. apply rtc_once. by eapply step_conflict.
    + destruct H as (x & c & Hx & Hc & _ & Hst & Hb & Hv & Hcommit). apply rtc_once.
      by eapply commit_changes_step.
    + by rewrite H.
  - intros [x c| |]; auto with tessera. apply moving_get. intros s.
    destruct (List.find _ _) as [x|]; [|auto with tessera].
    apply moving_bind; [auto with tessera|]. auto with tessera.
Qed.

(** Statements that touch neither conversations, turns nor the outbox. *)
Lemma moving_aside {A} (m : chatm A) :
  (forall s, convs (m s).1 = convs s /\ turns (m s).1 = turns s /\ chat_outbox (m s).1 = chat_outbox s) ->
  moving m.
Proof.
  intros Hm s _. destruct (Hm s) as (Hc & Ht & Ho). apply rtc_once, cs_convs; [|done|done].
  rewrite Hc. clear. induction (convs s); constructor; [apply same_conv_refl|done].
Qed.

Lemma moving_answer cid t u key field v now run revision :
  moving (apply_conversation_answer cid t u key field v now run revision).
Proof.
  unfold apply_conversation_answer. destruct (negb _); [auto with tessera|].
  apply moving_bind; [apply moving_live|]. intros c. apply moving_get. intros s.
  destruct (List.find _ _) as [prior|]; [case_match; auto with tessera|].
  destruct (negb _); [auto with tessera|].
  apply moving_bind; [auto with tessera|]. intros st.
  apply moving_bind; [apply moving_transaction, moving_bind|].
  - apply moving_aside. intros s'. unfold insert_answer. by case_match.
  - intros _. apply moving_update. intros d _. by split.
  - intros _. apply moving_bind; auto with tessera.
Qed.

Lemma moving_present cid t u v now ttl : moving (store_conversation_presentation cid t u v now ttl).
Proof.
  unfold store_conversation_presentation. apply moving_bind; [apply moving_live|]. intros _.
  apply moving_bind; [apply moving_update; intros d _; by split|auto with tessera].
Qed.

Lemma moving_outcome cid t u type now family metrics id :
  moving (append_conversation_outcome_event cid t u type now family metrics id).
Proof.
  apply moving_aside. intros s. unfold append_conversation_outcome_event.
  destruct (negb _); [done|]. destruct (negb _); [done|].
  unfold transaction, stm_bind, chat_get, stm_get, stm_ret, stm_raise, stm_modify.
  destruct (existsb (owns cid t u) _); [|done].
  destruct family; simpl; try done; by destruct (existsb _ _).
Qed.

Lemma moving_close cid t u now id : moving (close_conversation cid t u now id).
Proof.
  unfold close_conversation. apply moving_bind; [auto with tessera|]. intros c.
  apply moving_bind; [apply moving_update; intros d _; by split|]. intros []; [|auto with tessera].
  apply moving_bind; [apply moving_outcome|auto with tessera].
Qed.

Lemma moving_purge now : moving (purge_expired_conversation_content now).
Proof. intros s _. apply rtc_once, step_update. intros c _ _. by split. Qed.

(** ** Histories *)

Inductive chat_call : Type :=
| Create (t u : string) (now ttl : Z) (cid locale : option string) (id : string)
| Read (cid t u : string) (now : Z) (include_terminal : bool)
| Update (cid t u : string) (ch : fields) (now ttl : Z) (v : option Z)
| Begin (cid t u k : string) (v : Z) (req : fields) (now ttl : Z)
| Commit (cid t u k : string) (v : Z) (ch res : fields) (now ttl : Z) (id : string)
| Answer (cid t u key field : string) (v : pyval) (now : Z) (run revision : option string)
| Present (cid t u : string) (v : pyval) (now ttl : Z)
| Outcome (cid t u type : string) (now : Z) (family : pyval) (metrics : fields) (id : string)
| Close (cid t u : string) (now : Z) (id : string)
| PurgeContent (now : Z).
Definition chat_exec (c : chat_call) (s : chat) : chat :=
  match c with
  | Create t u now ttl cid locale id => (create_conversation t u now ttl cid locale id s).1
  | Read cid t u now b => (get_conversation cid t u now b s).1
  | Update cid t u ch now ttl v => (update_conversation cid t u ch now ttl v s).1
  | Begin cid t u k v req now ttl => (begin_conversation_turn cid t u k v req now ttl s).1
  | Commit cid t u k v ch res now ttl id => (commit_conversation_turn cid t u k v ch res now ttl id s).1
  | Answer cid t u key field v now run revision =>
      (apply_conversation_answer cid t u key field v now run revision s).1
  | Present cid t u v now ttl => (store_conversation_presentation cid t u v now ttl s).1
  | Outcome cid t u type now family metrics id =>
      (append_conversation_outcome_event cid t u type now family metrics id s).1
  | Close cid t u now id => (close_conversation cid t u now id s).1
  | PurgeContent now => (purge_expired_conversation_content now s).1
  end.
Definition chat_history (cs : list chat_call) (s : chat) : chat :=
  fold_left (fun s c => chat_exec c s) cs s.

Lemma exec_moves c s : orderly s -> rtc chat_step s (chat_exec c s).
Proof.
  destruct c; [apply moving_create|apply moving_conversation|apply moving_update_conversation
    |apply moving_begin|apply moving_commit|apply moving_answer|apply moving_present
    |apply moving_outcome|apply moving_close|apply moving_purge].
Qed.

Lemma history_moves cs s : orderly s -> rtc chat_step s (chat_history cs s) /\ orderly (chat_history cs s).
Proof.
  revert s. induction cs as [|c cs IH]; intros s Hs; [by split|]. simpl.
  pose proof (exec_moves c s Hs) as Hm. destruct (IH (chat_exec c s)) as [Hr Ho]; [by eapply steps_orderly|].
  split; [by etrans|done].
Qed.

(** C38. One turn per version.  In every reachable state at most one turn of a
    conversation is open or committed on a given version, a committed turn's
    version lies strictly behind the conversation's, and its event stands in
    the outbox with the version it produced and the hashes of its request and
    response.  Whatever is called next, no conversation's version goes back
    or disappears. *)
Theorem one_turn_per_version cs cs' :
  let s := chat_history cs empty_chat in
  (forall x y, x ∈ turns s -> y ∈ turns s -> turn_owner x = turn_owner y ->
     base_version x = base_version y -> tu_status x = started \/ tu_status x = committed ->
     tu_status y = started \/ tu_status y = committed -> x = y)
  /\ (forall x, x ∈ turns s -> tu_status x = committed ->
        announced (chat_outbox s) x
        /\ exists c, c ∈ convs s /\ owner c = turn_owner x /\ base_version x < state_version c)
  /\ (forall c, c ∈ convs s -> exists c', c' ∈ convs (chat_history cs' s) /\ same_conv c c').
Proof.
  intros s. destruct (history_moves cs empty_chat empty_orderly) as [_ Hs]. fold s in Hs.
  split; [apply Hs|]. split.
  - intros x Hx Hst. split; [by apply Hs|]. destruct (or_owned s Hs x Hx) as (c & Hc & Ho & _ & Hlt).
    exists c. auto.
  - intros c Hc. destruct (history_moves cs' s Hs) as [Hr _].
    apply (steps_versions s); [exact Hr|done].
Qed.

Lemma find_key {R K} (key : R -> K) (p : R -> bool) l x :
  NoDup (map key l) -> x ∈ l -> p x = true -> (forall y, p y = true -> key y = key x) ->
  List.find p l = Some x.
Proof.
  intros Hnd Hx Hp Hk. destruct (List.find p l) as [y|] eqn:E.
  - apply find_In in E as [Hy Hpy]. f_equal. apply (key_unique key l); auto.
  - apply list_elem_of_In in Hx. pose proof (find_none _ _ E x Hx). congruence.
Qed.

Lemma live_conversation_eq s c now :
  orderly s -> c ∈ convs s -> terminal c = false -> now <= c_expires c ->
  live_conversation (c_id c) (c_tenant c) (c_principal c) now s = (s, Ok c).
Proof.
  intros Hs Hc Ht Hn. unfold live_conversation, get_conversation, stm_bind.
  rewrite (find_key c_id _ (convs s) c); [|apply Hs|done|by apply owns_spec|].
  2: { intros y Hy%owns_spec. unfold owner in Hy. congruence. }
  rewrite Ht. assert ((c_expires c <? now) = false) as -> by (by apply Z.ltb_ge). simpl. by rewrite Ht.
Qed.

(** A turn is applied once however often it is sent.  For a turn of a live
    conversation: beginning it again with the same request returns it and
    changes nothing, with another request it is refused and nothing changes;
    once it is committed, committing it again, with whatever changes, returns
    the committed turn with its first response and changes nothing. *)
Theorem turns_are_idempotent cs x c :
  let s := chat_history cs empty_chat in
  x ∈ turns s -> c ∈ convs s -> owner c = turn_owner x -> terminal c = false ->
  let again := {| tr_turn := x; tr_conversation := Some c; tr_duplicate := true |} in
  (forall v req now ttl, client_turn_id x <> "" -> now <= c_expires c ->
     begin_conversation_turn (c_id c) (c_tenant c) (c_principal c) (client_turn_id x) v req now ttl s
     = (s, if String.eqb (request_hash x) (sha256 (json_text (VDict req))) then Ok again
           else Err (ChatValueError "client turn id was used for a different request")))
  /\ (tu_status x = committed -> forall v ch res now ttl id, unsupported ch = false ->
     commit_conversation_turn (c_id c) (c_tenant c) (c_principal c) (client_turn_id x) v ch res now ttl id s
     = (s, Ok again)).
Proof.
  intros s Hx Hc Ho Ht again. destruct (history_moves cs empty_chat empty_orderly) as [_ Hs]. fold s in Hs.
  assert (List.find (is_turn (c_id c) (c_tenant c) (c_principal c) (client_turn_id x)) (turns s) = Some x) as Ef.
  { apply (find_key turn_key); [apply Hs|done|apply is_turn_spec; unfold turn_key; by rewrite <- Ho|].
    intros y ->%is_turn_spec. unfold turn_key. by rewrite <- Ho. }
  split.
  - intros v req now ttl Hk Hn. unfold begin_conversation_turn.
    assert (truthy (client_turn_id x) = true) as ->.
    { unfold truthy, truthy_string. by destruct (String.eqb_spec (client_turn_id x) ""). }
    cbn [negb]. unfold stm_bind. rewrite live_conversation_eq by done.
    unfold chat_get, stm_get. rewrite Ef. by case_match.
  - intros Hst v ch res now ttl id Hu. unfold commit_conversation_turn, commit_transaction. rewrite Hu.
    unfold transaction, stm_bind, chat_get, stm_get. rewrite Ef.
    rewrite (find_key c_id _ (convs s) c); [|apply Hs|done|by apply owns_spec|].
    2: { intros y Hy%owns_spec. unfold owner in Hy. congruence. }
    by rewrite Ht, (proj2 (has_turn_status_spec _ _) Hst).
Qed.

(** ** On concrete conversations *)

Definition demo_chat_calls : list chat_call := [
  Create "t" "ana" 10 100 (Some "c") None "1";
  Begin "c" "t" "ana" "k1" 1 [("text", VStr "hola")] 11 100;
  Commit "c" "t" "ana" "k1" 1 [("operation", VStr "send")] [("reply", VStr "ok")] 12 100 "e1"].
Definition demo_chat : chat := chat_history demo_chat_calls empty_chat.
Definition demo_turn : turn := default (new_turn "" "" "" "" 1 1 [] 0 0) (head (turns demo_chat)).
Definition demo_conv : conv := default (new_conv "" "" "" [] 0 0) (head (convs demo_chat)).

Lemma turns_are_idempotent_witness :
  tu_status demo_turn = committed /\ state_version demo_conv = 2
  /\ commit_conversation_turn "c" "t" "ana" "k1" 7 [] [("reply", VStr "other")] 13 100 "e2" demo_chat
     = (demo_chat, Ok {| tr_turn := demo_turn; tr_conversation := Some demo_conv; tr_duplicate := true |}).
Proof.
  assert (tu_status demo_turn = committed) as Hst by (vm_compute; reflexivity).
  split; [exact Hst|]. split; [vm_compute; reflexivity|].
  destruct (turns_are_idempotent demo_chat_calls demo_turn demo_conv) as [_ H].
  - apply list_elem_of_In. vm_compute. by left.
  - apply list_elem_of_In. vm_compute. by left.
  - vm_compute. reflexivity.
  - vm_compute. reflexivity.
  - exact (H Hst 7 [] [("reply", VStr "other")] 13 100 "e2" eq_refl).
Defined.

(** An answer slips past the version check.  [apply_conversation_answer]
    writes the state without advancing its version: a turn that was begun
    before the answer, against the version that still had the question open,
    commits after it as if nothing had happened and overwrites the answer. *)
Theorem answer_is_overwritten_by_an_older_turn :
  let s0 := chat_history [
      Create "t" "ana" 10 100 (Some "c") None "1";
      Update "c" "t" "ana" [("blocking_need", VDict [("field", VStr "operation")])] 11 100 None;
      Begin "c" "t" "ana" "k1" 2 [("text", VStr "hola")] 12 100] empty_chat in
  let s1 := chat_exec (Answer "c" "t" "ana" "a1" "operation" (VStr "cancel") 13 None None) s0 in
  let r := commit_conversation_turn "c" "t" "ana" "k1" 2 [("operation", VStr "send")] [] 14 100 "e1" s1 in
  map (fun c => (state_version c, get (c_state c) "operation")) (convs s1) = [(2, VStr "cancel")]
  /\ map (fun c => (state_version c, get (c_state c) "operation")) (convs r.1) = [(3, VStr "send")]
  /\ is_ok r.2 = true.
Proof. vm_compute. by repeat split. Qed.

(** An answer keeps eight slots and the known inputs; what else the
    conversation remembered is gone. *)
Example answer_forgets :
  let s := chat_history [
      Create "t" "ana" 10 100 (Some "c") None "1";
      Update "c" "t" "ana" [("blocking_need", VDict [("field", VStr "operation")]);
                            ("effect_group", VDict [("effects", VList [VStr "x"])])] 11 100 None;
      Answer "c" "t" "ana" "a1" "operation" (VStr "send") 13 None None] empty_chat in
  map c_state (convs s) = [[("operation", VStr "send")]].
Proof. vm_compute. reflexivity. Qed.
