(* ===== verification/Campaign.v ===== *)
(** * Campaigns

    [CampaignRepository] of src/agents/orchestrator/campaign_repository.py and
    [CampaignWorker] of src/services/campaign_worker/app.py: a definition and a
    fixed audience are previewed, authorised as one envelope, and drained as
    one effect per contact and channel.

    A method is a program ([Program]): each statement outside a transaction,
    and each transaction, is one step, and other threads run between steps.
    The clock, permissions, eligibility, throughput and the provider are
    questions.  Members of an audience hold text, as the service builds them.
    A stored definition reads back as the same mapping: nothing reads the order
    of its keys, and its hash sorts them. *)

From S2P Require Import Prelude Rows PyValue Json Sha256 Program.
Local Open Scope Z_scope.

Inductive campaign_error : Type :=
| CampaignPermissionDenied (why : string)
| CampaignEnvelopeChanged (why : string)
| CampaignStateConflict (why : string)
| InvalidCampaign (why : string)              (* ValueError *)
| CampaignNotFound                            (* LookupError *)
| CampaignIntegrity
| CampaignPython (e : pyexn)
| NotText
| ProviderRaised (why : string).              (* an exception [tick] does not catch *)

Inductive campaign_status : Type :=
| audience_previewed | authorized | scheduled | running | deferred_quiet_hours | throttled
| blocked_connection | paused | stopped | draining | reconciling | drained | expired | invalidated.
Global Instance campaign_status_eq_dec : EqDecision campaign_status.
Proof. solve_decision. Defined.

Inductive effect_status : Type :=
| e_pending | e_claimed | e_deferred | e_completed | e_prevented | e_uncertain | e_never_eligible | e_cancelled.
Global Instance effect_status_eq_dec : EqDecision effect_status.
Proof. solve_decision. Defined.

(** ** Rows *)

(** A row of [campaigns], under its tenant and identifier. *)
Record campaign := {
  created_by : string;
  authorized_by : option string;
  definition : pyval;
  definition_hash : string;
  cohort_hash : string;
  envelope_hash : string;
  c_status : campaign_status;
  approval_expires_at : Z;
  envelope_expires_at : option Z;
  reaffirm_by : option Z;
  estimated_spend_micros : Z;
  c_created_at : Z;
  c_updated_at : Z;
}.
(** A row of [campaign_cohort]: 0 excluded, 1 previewed, 2 admitted later. *)
Record cohort_row := {
  h_tenant : string;
  h_campaign : string;
  h_contact : string;
  h_channel : string;
  h_address : string;
  h_branch : string;
  h_masked : string;
  h_included : Z;
  h_reason : option string;
}.
(** A row of [campaign_effects]. *)
Record effect := {
  f_tenant : string;
  f_campaign : string;
  f_contact : string;
  f_channel : string;
  f_address : string;
  f_cycle : Z;
  f_status : effect_status;
  f_reason : option string;
  f_not_before : Z;
  f_claimed_by : option string;
  f_claimed_at : option Z;
  f_lease_expires_at : option Z;
  f_attempts : Z;
  f_provider_id : option string;
  f_updated_at : Z;
}.
Record audit_row := {
  o_tenant : string;
  o_campaign : string;
  o_event : string;
  o_actor : option string;
  o_details : pyval;
  o_created_at : Z;
}.
Definition row_id : Type := string * string * string * string.
Definition cohort_key (r : cohort_row) : row_id := (h_tenant r, h_campaign r, h_contact r, h_channel r).
Definition effect_key (e : effect) : row_id := (f_tenant e, f_campaign e, f_contact e, f_channel e).

Record campaigns := {
  rows : gmap (string * string) campaign;
  cohort : list cohort_row;
  effects : list effect;
  audits : list audit_row;
}.
Definition no_campaigns : campaigns := {| rows := ∅; cohort := []; effects := []; audits := [] |}.
Definition with_rows (s : campaigns) (m : gmap (string * string) campaign) : campaigns :=
  {| rows := m; cohort := cohort s; effects := effects s; audits := audits s |}.
Definition with_cohort (s : campaigns) (l : list cohort_row) : campaigns :=
  {| rows := rows s; cohort := l; effects := effects s; audits := audits s |}.
Definition with_effects (s : campaigns) (l : list effect) : campaigns :=
  {| rows := rows s; cohort := cohort s; effects := l; audits := audits s |}.
Definition with_audits (s : campaigns) (l : list audit_row) : campaigns :=
  {| rows := rows s; cohort := cohort s; effects := effects s; audits := l |}.
Definition cm (A : Type) : Type := stm campaigns campaign_error A.

(** What an update of a campaign assigns. *)
Definition set_campaign (c : campaign) (st : campaign_status) (now : Z) : campaign := {|
  created_by := created_by c; authorized_by := authorized_by c; definition := definition c;
  definition_hash := definition_hash c; cohort_hash := cohort_hash c; envelope_hash := envelope_hash c;
  c_status := st; approval_expires_at := approval_expires_at c;
  envelope_expires_at := envelope_expires_at c; reaffirm_by := reaffirm_by c;
  estimated_spend_micros := estimated_spend_micros c; c_created_at := c_created_at c; c_updated_at := now |}.
Definition set_authority (c : campaign) (who : option string) (envelope : string) (expires reaffirm : option Z)
    : campaign := {|
  created_by := created_by c; authorized_by := who; definition := definition c;
  definition_hash := definition_hash c; cohort_hash := cohort_hash c; envelope_hash := envelope;
  c_status := c_status c; approval_expires_at := approval_expires_at c;
  envelope_expires_at := expires; reaffirm_by := reaffirm;
  estimated_spend_micros := estimated_spend_micros c; c_created_at := c_created_at c;
  c_updated_at := c_updated_at c |}.

Record progress := {
  g_status : effect_status;
  g_reason : option string;
  g_not_before : Z;
  g_claim : option (string * Z * Z);      (* by, at, until *)
  g_attempts : Z;
  g_provider_id : option string;
}.
Definition set_effect (e : effect) (g : progress) (now : Z) : effect := {|
  f_tenant := f_tenant e; f_campaign := f_campaign e; f_contact := f_contact e; f_channel := f_channel e;
  f_address := f_address e; f_cycle := f_cycle e; f_status := g_status g; f_reason := g_reason g;
  f_not_before := g_not_before g; f_claimed_by := (fun x => x.1.1) <$> g_claim g;
  f_claimed_at := (fun x => x.1.2) <$> g_claim g; f_lease_expires_at := (fun x => x.2) <$> g_claim g;
  f_attempts := g_attempts g; f_provider_id := g_provider_id g; f_updated_at := now |}.
(** Only the status and the reason. *)
Definition mark_effect (st : effect_status) (reason : option string) (now : Z) (e : effect) : effect := {|
  f_tenant := f_tenant e; f_campaign := f_campaign e; f_contact := f_contact e; f_channel := f_channel e;
  f_address := f_address e; f_cycle := f_cycle e; f_status := st; f_reason := reason;
  f_not_before := f_not_before e; f_claimed_by := f_claimed_by e; f_claimed_at := f_claimed_at e;
  f_lease_expires_at := f_lease_expires_at e; f_attempts := f_attempts e;
  f_provider_id := f_provider_id e; f_updated_at := now |}.

(** ** Statements *)

Definition in_campaign (t c : string) (e : effect) : bool :=
  String.eqb (f_tenant e) t && String.eqb (f_campaign e) c.
Definition is_effect (k : row_id) (e : effect) : bool := bool_decide (effect_key e = k).
Definition f_in (l : list effect_status) (e : effect) : bool :=
  existsb (fun st => bool_decide (f_status e = st)) l.
Definition c_in (l : list campaign_status) (c : campaign) : bool :=
  existsb (fun st => bool_decide (c_status c = st)) l.
Definition waiting : list effect_status := [e_pending; e_deferred].

(** [update campaign_effects ...] and its [rowcount]. *)
Definition update_effects (p : effect -> bool) (f : effect -> effect) : cm nat := fun s =>
  (with_effects s (update_where p f (effects s)), Ok (length (List.filter p (effects s)))).
(** [update campaigns ... where p] and its [rowcount]. *)
Definition update_campaign (t c : string) (p : campaign -> bool) (f : campaign -> campaign) : cm nat := fun s =>
  match rows s !! (t, c) with
  | Some x => if p x then (with_rows s (<[(t, c) := f x]> (rows s)), Ok 1%nat) else (s, Ok 0%nat)
  | None => (s, Ok 0%nat)
  end.
Definition write_status (t c : string) (st : campaign_status) (now : Z) : cm nat :=
  update_campaign t c (fun _ => true) (fun x => set_campaign x st now).
Definition add_audit (t c event : string) (actor : option string) (details : pyval) (now : Z) : cm unit :=
  stm_modify (fun s => with_audits s (audits s ++ [{| o_tenant := t; o_campaign := c; o_event := event;
    o_actor := actor; o_details := details; o_created_at := now |}])).

Definition insert_campaign (t c : string) (x : campaign) : cm unit := fun s =>
  match rows s !! (t, c) with
  | Some _ => (s, Err CampaignIntegrity)
  | None => (with_rows s (<[(t, c) := x]> (rows s)), Ok tt)
  end.
Definition has_cohort (s : campaigns) (k : row_id) : bool :=
  existsb (fun r => bool_decide (cohort_key r = k)) (cohort s).
Definition insert_cohort (r : cohort_row) : cm unit := fun s =>
  if has_cohort s (cohort_key r) then (s, Err CampaignIntegrity) else (with_cohort s (cohort s ++ [r]), Ok tt).
(** [insert or ignore] and its [rowcount]. *)
Definition insert_or_ignore (r : cohort_row) : cm bool := fun s =>
  if has_cohort s (cohort_key r) then (s, Ok false) else (with_cohort s (cohort s ++ [r]), Ok true).
Definition insert_effect (e : effect) : cm unit := fun s =>
  if existsb (fun x => bool_decide (effect_key x = effect_key e)) (effects s) then (s, Err CampaignIntegrity)
  else (with_effects s (effects s ++ [e]), Ok tt).
Definition get (t c : string) : cm campaign := fun s =>
  match rows s !! (t, c) with Some x => (s, Ok x) | None => (s, Err CampaignNotFound) end.

(** ** Definitions and members *)

Definition REQUIRED_FIELDS : list string := [
  "audience_rule"; "content"; "channels"; "senders"; "schedule"; "frequency"; "budget_micros";
  "concurrency"; "duration_seconds"; "stop_conditions"; "include_late_arrivals"; "audience_ceiling"].
Definition MEMBER_FIELDS : list string := [
  "contact_id"; "channel"; "address_id"; "branch_id"; "masked_destination"].
Definition FORBIDDEN_FIELDS : list string := ["to"; "destination"; "address"; "address_id"; "contact_id"].

(** [isinstance(v, dict) and set(v) == fields]. *)
Definition has_exactly (v : pyval) (fields : list string) : bool :=
  match v with
  | VDict d => forallb (fun k => str_in k (map fst d)) fields && forallb (fun k => str_in k fields) (map fst d)
  | _ => false
  end.
(** [v[k]]. *)
Definition item (v : pyval) (k : string) : result campaign_error pyval :=
  match v with
  | VDict d => match dget d k with Some x => Ok x | None => Err (CampaignPython KeyError) end
  | _ => Err (CampaignPython TypeError)
  end.
Definition int_of (v : pyval) : result campaign_error Z :=
  match py_int v with Ok z => Ok z | Err e => Err (CampaignPython e) end.
Definition int_item (v : pyval) (k : string) : result campaign_error Z := x ← item v k; int_of x.

Fixpoint carries_destination (v : pyval) : bool :=
  match v with
  | VDict d => existsb (fun kv => str_in kv.1 FORBIDDEN_FIELDS) d || existsb (fun kv => carries_destination kv.2) d
  | VList l => existsb carries_destination l
  | _ => false
  end.

Definition _validate_definition (v : pyval) : result campaign_error unit :=
  guard_or (InvalidCampaign "campaign definition fields are incomplete") (has_exactly v REQUIRED_FIELDS) ≫= fun _ =>
  budget ← int_item v "budget_micros";
  guard_or (InvalidCampaign "campaign budget and concurrency must be positive") (0 <? budget) ≫= fun _ =>
  concurrency ← int_item v "concurrency";
  guard_or (InvalidCampaign "campaign budget and concurrency must be positive") (0 <? concurrency) ≫= fun _ =>
  duration ← int_item v "duration_seconds";
  guard_or (InvalidCampaign "campaign duration must be positive") (0 <? duration) ≫= fun _ =>
  ceiling ← int_item v "audience_ceiling";
  guard_or (InvalidCampaign "campaign audience ceiling must be positive") (0 <? ceiling) ≫= fun _ =>
  guard_or (InvalidCampaign "campaign definition cannot carry destinations") (negb (carries_destination v)).

Record member := {
  m_contact : string;
  m_channel : string;
  m_address : string;
  m_branch : string;
  m_masked : string;
}.
Definition text_item (v : pyval) (k : string) : result campaign_error string :=
  x ← item v k; match x with VStr t => Ok t | _ => Err NotText end.
Definition _validate_member (v : pyval) : result campaign_error member :=
  guard_or (InvalidCampaign "campaign audience member fields are incomplete") (has_exactly v MEMBER_FIELDS) ≫= fun _ =>
  contact ← text_item v "contact_id"; channel ← text_item v "channel"; address ← text_item v "address_id";
  branch ← text_item v "branch_id"; masked ← text_item v "masked_destination";
  Ok {| m_contact := contact; m_channel := channel; m_address := address; m_branch := branch; m_masked := masked |}.

Definition member_id (m : member) : string * string := (m_contact m, m_channel m).
(** [included.setdefault(...)]: the first member of each contact and channel. *)
Fixpoint first_members (l : list member) (seen : list (string * string)) : list member :=
  match l with
  | [] => []
  | m :: l' => if bool_decide (member_id m ∈ seen) then first_members l' seen
               else m :: first_members l' (member_id m :: seen)
  end.
Definition id_le (a b : string * string) : Prop :=
  a.1 <> b.1 /\ String.le a.1 b.1 \/ a.1 = b.1 /\ String.le a.2 b.2.
Definition member_le (a b : member) : Prop := id_le (member_id a) (member_id b).
Global Instance member_le_dec a b : Decision (member_le a b).
Proof. unfold member_le, id_le. apply _. Defined.

Definition proof_entry (contact channel address branch : string) : pyval := VDict [
  ("contact_id", VStr contact); ("channel", VStr channel); ("address_id", VStr address); ("branch_id", VStr branch)].
Definition _hash (v : pyval) : string := sha256 (dumps v).
Definition cohort_proof (l : list member) : pyval :=
  VList (map (fun m => proof_entry (m_contact m) (m_channel m) (m_address m) (m_branch m)) (merge_sort member_le l)).
Definition envelope (definition : pyval) (def_hash cohort : string) : pyval := VDict [
  ("definition", definition); ("definition_hash", VStr def_hash); ("cohort_hash", VStr cohort)].

(** An excluded contact: [row.get(field, default)]. *)
Record exclusion := {
  x_contact : string;
  x_channel : option string;
  x_address : option string;
  x_branch : option string;
  x_masked : option string;
  x_reason : string;
}.

(** ** What surrounds a campaign *)

Record verdict := { allowed : bool; why : option string; defer_until : option Z }.
Inductive outcome : Type :=
| Delivered (provider_id : option string)
| ThroughputExceeded (retry_at : Z)
| SpendCeilingExceeded (reason : string)
| AmbiguousDispatch                        (* or a timeout *)
| ProviderNetworkError
| ProviderHTTPError
| OtherError (why : string).
Inductive question : Type -> Type :=
| Clock : question Z
| Permission (principal : option string) (branch : pyval) : question bool
| Eligibility (e : effect) (c : campaign) : question verdict
| Acquire (tenant capability : string) : question (option outcome)    (* None: acquired *)
| Dispatch (e : effect) (c : campaign) : question outcome
| EmergencyStopped (tenant : string) : question bool
| ConnectionAvailable (tenant : string) (c : campaign) : question bool.
Definition cprog (A : Type) : Type := prog campaigns campaign_error question A.

Section methods.
Local Open Scope prog_scope.

Definition stm_result {A} (r : result campaign_error A) : cm A :=
  match r with Ok a => stm_ret a | Err e => stm_raise e end.
Definition in_text (o : option string) : pyval := match o with Some t => VStr t | None => VNone end.
Definition fail {A} (e : campaign_error) : cprog A := raise e.
Definition ensure (b : bool) (e : campaign_error) : cprog unit := if b then give tt else raise e.

(** ** Preview *)

Definition cohort_of (t c : string) (m : member) (n : Z) : cohort_row := {|
  h_tenant := t; h_campaign := c; h_contact := m_contact m; h_channel := m_channel m; h_address := m_address m;
  h_branch := m_branch m; h_masked := m_masked m; h_included := n; h_reason := None |}.
(** The default of the branch is read whether or not it is used; a row without
    one is ignored. *)
Definition insert_excluded (t c : string) (def : pyval) (x : exclusion) : cm unit := (
  branch <~ stm_result (rule ← item def "audience_rule"; item rule "branch_id") ;;
  match (match x_branch x with Some b => Some b | None => bind_text branch end) with
  | Some b =>
      insert_or_ignore {| h_tenant := t; h_campaign := c; h_contact := x_contact x;
        h_channel := default "sms" (x_channel x);
        h_address := default ("excluded:" +:+ x_contact x) (x_address x); h_branch := b;
        h_masked := default "redacted" (x_masked x); h_included := 0; h_reason := Some (x_reason x) |} ;;;
      stm_ret tt
  | None => match branch with VNone => stm_ret tt | _ => stm_raise NotText end
  end)%stm.

Record summary := {
  v_status : campaign_status;
  v_audience : list cohort_row;
  v_reasons : list (option string * nat);
  v_spend : Z;
  v_envelope : string;
}.
Fixpoint count_reason (r : option string) (l : list (option string * nat)) : list (option string * nat) :=
  match l with
  | [] => [(r, 1%nat)]
  | (q, n) :: l' => if bool_decide (q = r) then (q, S n) :: l' else (q, n) :: count_reason r l'
  end.
Definition cohort_rows (t c : string) (s : campaigns) : list cohort_row :=
  List.filter (fun r => String.eqb (h_tenant r) t && String.eqb (h_campaign r) c) (cohort s).
Definition preview (t c : string) : cprog summary :=
  x <- atom (get t c) ;;
  l <- atom (fun s => (s, Ok (cohort_rows t c s))) ;;
  give {| v_status := c_status x; v_audience := List.filter (fun r => negb (Z.eqb (h_included r) 0)) l;
          v_reasons := fold_left (fun acc r => if Z.eqb (h_included r) 0 then count_reason (h_reason r) acc else acc) l [];
          v_spend := estimated_spend_micros x; v_envelope := envelope_hash x |}.

Definition preview_rows (t c who : string) (def : pyval) (members : list member) (exclusions : list exclusion)
    (spend ttl now : Z) : cm unit := transaction (
  insert_campaign t c {|
    created_by := who; authorized_by := None; definition := def; definition_hash := _hash def;
    cohort_hash := _hash (cohort_proof members);
    envelope_hash := _hash (envelope def (_hash def) (_hash (cohort_proof members)));
    c_status := audience_previewed; approval_expires_at := now + ttl; envelope_expires_at := None;
    reaffirm_by := None; estimated_spend_micros := spend; c_created_at := now; c_updated_at := now |} ;;;
  stm_iter (fun m => insert_cohort (cohort_of t c m 1)) members ;;;
  stm_iter (insert_excluded t c def) exclusions ;;;
  add_audit t c "audience_previewed" (Some who)
    (VDict [("eligible_count", VInt (Z.of_nat (length members)));
            ("excluded_count", VInt (Z.of_nat (length exclusions)))]) now)%stm.
Definition create_preview (t c who : string) (def : pyval) (audience : list pyval) (exclusions : list exclusion)
    (spend ttl : Z) : cprog summary :=
  of_result (_validate_definition def) ;;
  now <- ask Clock ;;
  members <- of_result (mapM_result _validate_member audience) ;;
  ceiling <- of_result (int_item def "audience_ceiling") ;;
  let included := first_members members [] in
  ensure (Z.of_nat (length included) <=? ceiling) (InvalidCampaign "campaign audience exceeds its ceiling") ;;
  atom (preview_rows t c who def included exclusions spend ttl now) ;;
  preview t c.

(** ** Authority *)

Definition branch_of (def : pyval) : result campaign_error pyval := rule ← item def "audience_rule"; item rule "branch_id".
Definition new_effect (t c contact channel address : string) (not_before now : Z) : effect := {|
  f_tenant := t; f_campaign := c; f_contact := contact; f_channel := channel; f_address := address; f_cycle := 1;
  f_status := e_pending; f_reason := None; f_not_before := not_before; f_claimed_by := None;
  f_claimed_at := None; f_lease_expires_at := None; f_attempts := 0; f_provider_id := None; f_updated_at := now |}.
Definition authorize_rows (t c who env : string) (def : pyval) (expires now : Z) : cm unit := transaction (
  n <~ update_campaign t c (c_in [audience_previewed])
         (fun x => set_campaign (set_authority x (Some who) env (Some expires) (reaffirm_by x)) authorized now) ;;
  (if Nat.eqb n 1 then stm_ret tt else stm_raise (CampaignStateConflict "campaign authorization raced")) ;;;
  s <~ stm_get ;;
  stm_iter (fun r => starts <~ stm_result (x ← item def "schedule"; int_item x "starts_at") ;;
                     insert_effect (new_effect t c (h_contact r) (h_channel r) (h_address r) starts now))
    (List.filter (fun r => Z.eqb (h_included r) 1) (cohort_rows t c s)) ;;;
  add_audit t c "authorized" (Some who) (VDict [("envelope_hash", VStr env)]) now)%stm.
Definition authorize (t c who : string) : cprog campaign :=
  now <- ask Clock ;;
  x <- atom (get t c) ;;
  let def := definition x in
  branch <- of_result (branch_of def) ;;
  permitted <- ask (Permission (Some who) branch) ;;
  ensure permitted (CampaignPermissionDenied "campaign_use permission is required") ;;
  ensure (c_in [audience_previewed] x) (CampaignStateConflict "campaign is not ready for authorization") ;;
  ensure (now <=? approval_expires_at x) (CampaignStateConflict "campaign preview authorization expired") ;;
  let env := _hash (envelope def (definition_hash x) (cohort_hash x)) in
  ensure (String.eqb env (envelope_hash x)) (CampaignEnvelopeChanged "campaign preview binding changed") ;;
  duration <- of_result (int_item def "duration_seconds") ;;
  ends_at <- of_result (y ← item def "schedule"; int_item y "ends_at") ;;
  starts_at <- of_result (y ← item def "schedule"; int_item y "starts_at") ;;
  let expires := Z.min (starts_at + duration) ends_at in
  ensure (now <? expires) (CampaignStateConflict "campaign envelope is already expired") ;;
  atom (authorize_rows t c who env def expires now) ;;
  atom (get t c).

Definition row_member (r : cohort_row) : member := {|
  m_contact := h_contact r; m_channel := h_channel r; m_address := h_address r; m_branch := h_branch r;
  m_masked := h_masked r |}.
(** The hash of the previewed members as they are stored. *)
Definition stored_cohort (t c : string) (s : campaigns) : string :=
  _hash (cohort_proof (map row_member (List.filter (fun r => Z.eqb (h_included r) 1) (cohort_rows t c s)))).
Definition cancel_waiting (t c : string) (st : effect_status) (reason : string) (now : Z) : cm nat :=
  update_effects (fun e => in_campaign t c e && f_in waiting e) (mark_effect st (Some reason) now).
Definition invalidate (t c : string) (now : Z) : cm unit := transaction (
  write_status t c invalidated now ;;;
  cancel_waiting t c e_cancelled "envelope_changed" now ;;;
  add_audit t c "envelope_invalidated" None (VDict []) now)%stm.
Definition assert_envelope (t c : string) (def : pyval) : cprog string :=
  x <- atom (get t c) ;;
  stored <- atom (fun s => (s, Ok (stored_cohort t c s))) ;;
  if negb (String.eqb (_hash def) (definition_hash x)) || negb (String.eqb stored (cohort_hash x))
     || negb (String.eqb (_hash (envelope def (_hash def) stored)) (envelope_hash x))
  then now <- ask Clock ;;
       atom (invalidate t c now) ;;
       fail (CampaignEnvelopeChanged "material campaign definition changed")
  else give (envelope_hash x).

Definition LIVE : list campaign_status := [authorized; scheduled; running].
Definition check_authority (t c : string) (reaffirm_within : Z) : cprog bool :=
  x <- atom (get t c) ;;
  branch <- of_result (branch_of (definition x)) ;;
  permitted <- ask (Permission (authorized_by x) branch) ;;
  if permitted : bool then give true
  else now <- ask Clock ;;
       atom (update_campaign t c (c_in LIVE) (fun y =>
               set_campaign (set_authority y (authorized_by y) (envelope_hash y) (envelope_expires_at y)
                               (Some (now + reaffirm_within))) paused now)) ;;
       atom (add_audit t c "reaffirmation_required" None (VDict []) now) ;;
       give false.

Definition OPEN : list campaign_status := [
  authorized; scheduled; running; deferred_quiet_hours; throttled; blocked_connection].
Definition admit_late (t c : string) (m : member) (ceiling starts now : Z) : cm bool := transaction (
  s <~ stm_get ;;
  if ceiling <=? Z.of_nat (length (List.filter (fun r => negb (Z.eqb (h_included r) 0)) (cohort_rows t c s)))
  then stm_ret false else
  inserted <~ insert_or_ignore (cohort_of t c m 2) ;;
  if negb inserted then stm_ret false else
  insert_effect (new_effect t c (m_contact m) (m_channel m) (m_address m) (Z.max now starts) now) ;;;
  add_audit t c "late_arrival_admitted" None
    (VDict [("contact_id", VStr (m_contact m)); ("channel", VStr (m_channel m))]) now ;;;
  stm_ret true)%stm.
Definition add_late_audience_member (t c : string) (v : pyval) : cprog bool :=
  x <- atom (get t c) ;;
  if negb (truthy (PyValue.get (as_mapping (definition x)) "include_late_arrivals")) || negb (c_in OPEN x)
  then give false else
  m <- of_result (_validate_member v) ;;
  now <- ask Clock ;;
  ceiling <- of_result (int_item (definition x) "audience_ceiling") ;;
  starts <- of_result (y ← item (definition x) "schedule"; int_item y "starts_at") ;;
  atom (admit_late t c m ceiling starts now).

(** ** Status *)

Definition set_status (t c : string) (st : campaign_status) (name : string) (reason : option string) : cprog unit :=
  now <- ask Clock ;;
  atom (write_status t c st now) ;;
  atom (add_audit t c "status_changed" None (VDict [("status", VStr name); ("reason", in_text reason)]) now).

Definition expire (t c : string) (now : Z) : cprog bool :=
  x <- atom (get t c) ;;
  match envelope_expires_at x with
  | None => fail (CampaignPython TypeError)
  | Some until =>
      if now <=? until then give false
      else atom (transaction (write_status t c expired now ;;;
                              cancel_waiting t c e_cancelled "envelope_expired" now ;;; stm_ret tt)%stm) ;;
           give true
  end.

Definition pause (t c who : string) : cprog unit :=
  x <- atom (get t c) ;;
  ensure (c_in OPEN x) (CampaignStateConflict "campaign cannot be paused") ;;
  set_status t c paused "paused" (Some "operator_pause") ;;
  now <- ask Clock ;;
  atom (add_audit t c "paused" (Some who) (VDict []) now).
Definition resume (t c who : string) : cprog unit :=
  x <- atom (get t c) ;;
  ensure (c_in [paused] x && bool_decide (reaffirm_by x = None))
    (CampaignStateConflict "campaign requires reaffirmation or is not paused") ;;
  set_status t c running "running" (Some "operator_resume") ;;
  now <- ask Clock ;;
  atom (add_audit t c "resumed" (Some who) (VDict []) now).
Definition reaffirm (t c who : string) : cprog campaign :=
  x <- atom (get t c) ;;
  branch <- of_result (branch_of (definition x)) ;;
  match reaffirm_by x with
  | None => fail (CampaignStateConflict "campaign does not require reaffirmation")
  | Some by_ =>
      ensure (c_in [paused] x) (CampaignStateConflict "campaign does not require reaffirmation") ;;
      moment <- ask Clock ;;
      ensure (moment <=? by_) (CampaignStateConflict "campaign reaffirmation window expired") ;;
      permitted <- ask (Permission (Some who) branch) ;;
      ensure permitted (CampaignPermissionDenied "campaign_use permission is required") ;;
      now <- ask Clock ;;
      atom (update_campaign t c (c_in [paused]) (fun y =>
              set_campaign (set_authority y (Some who) (envelope_hash y) (envelope_expires_at y) None) running now)) ;;
      atom (add_audit t c "reaffirmed" (Some who) (VDict [("envelope_hash", VStr (envelope_hash x))]) now) ;;
      atom (get t c)
  end.

Definition prevent_rows (t c : string) (st : campaign_status) (reason : string) (now : Z) : cm unit := transaction (
  write_status t c st now ;;; cancel_waiting t c e_prevented reason now ;;; stm_ret tt)%stm.
Definition stop (t c reason : string) : cprog unit :=
  now <- ask Clock ;; atom (prevent_rows t c stopped reason now).
Definition drain_remaining (t c reason : string) : cprog unit :=
  now <- ask Clock ;; atom (prevent_rows t c draining reason now).

Definition list_effects (t c : string) : cm (list effect) := fun s =>
  (s, Ok (merge_sort (fun a b => id_le (f_contact a, f_channel a) (f_contact b, f_channel b))
            (List.filter (in_campaign t c) (effects s)))).
Definition FINAL : list campaign_status := [expired; stopped; invalidated].
Definition finalize (t c : string) : cprog (option string) :=
  l <- atom (list_effects t c) ;;
  if existsb (f_in [e_pending; e_deferred; e_claimed]) l then give None else
  let unknown := existsb (f_in [e_uncertain]) l in
  let name := if unknown then "reconciling" else "drained" in
  x <- atom (get t c) ;;
  (if c_in FINAL x then give tt
   else set_status t c (if unknown then reconciling else drained) name None) ;;
  give (Some name).

(** ** Effects *)

Definition DRAINABLE : list campaign_status := [authorized; scheduled; running; deferred_quiet_hours; throttled].
Definition campaign_of (s : campaigns) (e : effect) : option campaign := rows s !! (f_tenant e, f_campaign e).
Definition claimable (t c : option string) (now : Z) (s : campaigns) (e : effect) : bool :=
  f_in waiting e && (f_not_before e <=? now)
  && match campaign_of s e with Some x => c_in DRAINABLE x | None => false end
  && match t with Some t => String.eqb (f_tenant e) t | None => true end
  && match c with Some c => String.eqb (f_campaign e) c | None => true end.
(** [order by c.updated_at,e.updated_at,e.contact_id,e.channel]. *)
Definition claim_order (s : campaigns) (a b : effect) : Prop :=
  let ca := from_option c_updated_at 0 (campaign_of s a) in let cb := from_option c_updated_at 0 (campaign_of s b) in
  ca < cb \/ ca = cb /\ (f_updated_at a < f_updated_at b \/ f_updated_at a = f_updated_at b
    /\ id_le (f_contact a, f_channel a) (f_contact b, f_channel b)).
Global Instance claim_order_dec s a b : Decision (claim_order s a b).
Proof. unfold claim_order, id_le. apply _. Defined.

(** The first row whose campaign has a free worker. *)
Fixpoint choose (s : campaigns) (l : list effect) : cm (option effect) := (
  match l with
  | [] => stm_ret None
  | e :: l' =>
      n <~ stm_result (int_item (default VNone (definition <$> campaign_of s e)) "concurrency") ;;
      if Z.of_nat (length (List.filter (fun x => in_campaign (f_tenant e) (f_campaign e) x && f_in [e_claimed] x)
                             (effects s))) <? n
      then stm_ret (Some e) else choose s l'
  end)%stm.
Definition claim_effect (worker : string) (now lease : Z) (e : effect) : effect :=
  set_effect e {| g_status := e_claimed; g_reason := f_reason e; g_not_before := f_not_before e;
                  g_claim := Some (worker, now, now + lease); g_attempts := f_attempts e;
                  g_provider_id := f_provider_id e |} now.
(** The row it returns is the row as claimed; nothing reads its old
    [updated_at]. *)
Definition claim_next (worker : string) (now lease : Z) (t c : option string) : cm (option effect) := transaction (
  s <~ stm_get ;;
  chosen <~ choose s (merge_sort (claim_order s) (List.filter (claimable t c now s) (effects s))) ;;
  match chosen with
  | None => stm_ret None
  | Some e =>
      n <~ update_effects (fun x => is_effect (effect_key e) x && f_in waiting x) (claim_effect worker now lease) ;;
      if negb (Nat.eqb n 1) then stm_ret None else
      write_status (f_tenant e) (f_campaign e) running now ;;;
      stm_ret (Some (claim_effect worker now lease e))
  end)%stm.

Definition complete_row (st : effect_status) (reason provider : option string) (not_before : Z) (counted : bool)
    (now : Z) (e : effect) : effect :=
  set_effect e {| g_status := st; g_reason := reason; g_not_before := not_before; g_claim := None;
                  g_attempts := f_attempts e + (if counted then 1 else 0); g_provider_id := provider |} now.
Definition complete_effect (e : effect) (st : effect_status) (reason provider : option string)
    (defer : option Z) (counted : bool) : cprog bool :=
  ensure (negb (bool_decide (st = e_claimed))) (InvalidCampaign "invalid campaign effect status") ;;
  now <- ask Clock ;;
  n <- atom (update_effects
         (fun x => is_effect (effect_key e) x && f_in [e_claimed] x
                   && match f_claimed_by e with Some w => bool_decide (f_claimed_by x = Some w) | None => false end)
         (complete_row st reason provider (default (f_not_before e) defer) counted now)) ;;
  give (Nat.eqb n 1).

Definition recover_row (now : Z) (e : effect) : effect :=
  set_effect e {| g_status := e_uncertain; g_reason := Some "worker_lease_expired"; g_not_before := f_not_before e;
                  g_claim := None; g_attempts := f_attempts e; g_provider_id := f_provider_id e |} now.
Definition recover_expired_claims (now : Z) : cm nat :=
  update_effects (fun e => f_in [e_claimed] e
                           && match f_lease_expires_at e with Some until => until <? now | None => false end)
    (recover_row now).

Definition reconcile_row (verdict : string) (provider : option string) (now : Z) (e : effect) : effect := {|
  f_tenant := f_tenant e; f_campaign := f_campaign e; f_contact := f_contact e; f_channel := f_channel e;
  f_address := f_address e; f_cycle := f_cycle e;
  f_status := if String.eqb verdict "delivered" then e_completed else e_prevented;
  f_reason := if String.eqb verdict "delivered" then None else Some verdict;
  f_not_before := f_not_before e; f_claimed_by := f_claimed_by e; f_claimed_at := f_claimed_at e;
  f_lease_expires_at := f_lease_expires_at e; f_attempts := f_attempts e;
  f_provider_id := match provider with Some p => Some p | None => f_provider_id e end; f_updated_at := now |}.
Definition reconcile_effect (t c contact channel verdict : string) (provider : option string) : cprog bool :=
  now <- ask Clock ;;
  n <- atom (update_effects (fun e => is_effect (t, c, contact, channel) e && f_in [e_uncertain] e)
               (reconcile_row verdict provider now)) ;;
  (if Nat.eqb n 0 then give None else finalize t c) ;;
  give (Nat.eqb n 1).

Definition extend_envelope (t c : string) : cprog unit :=
  atom (get t c) ;;
  fail (InvalidCampaign "campaign envelope cannot be extended; authorize a new campaign").

Record counts := { n_completed : nat; n_progress : nat; n_prevented : nat; n_uncertain : nat; n_never : nat }.
Definition count_effect (n : counts) (e : effect) : counts :=
  match f_status e with
  | e_completed => {| n_completed := S (n_completed n); n_progress := n_progress n; n_prevented := n_prevented n;
                      n_uncertain := n_uncertain n; n_never := n_never n |}
  | e_pending | e_deferred | e_claimed =>
      {| n_completed := n_completed n; n_progress := S (n_progress n); n_prevented := n_prevented n;
         n_uncertain := n_uncertain n; n_never := n_never n |}
  | e_uncertain => {| n_completed := n_completed n; n_progress := n_progress n; n_prevented := n_prevented n;
                      n_uncertain := S (n_uncertain n); n_never := n_never n |}
  | e_never_eligible => {| n_completed := n_completed n; n_progress := n_progress n; n_prevented := n_prevented n;
                           n_uncertain := n_uncertain n; n_never := S (n_never n) |}
  | e_prevented | e_cancelled =>
      {| n_completed := n_completed n; n_progress := n_progress n; n_prevented := S (n_prevented n);
         n_uncertain := n_uncertain n; n_never := n_never n |}
  end.
Definition report (t c : string) : cprog (campaign_status * nat * counts) :=
  x <- atom (get t c) ;;
  l <- atom (list_effects t c) ;;
  let n := fold_left count_effect l {| n_completed := 0; n_progress := 0; n_prevented := 0; n_uncertain := 0; n_never := 0 |} in
  give (c_status x, (n_completed n + n_progress n + n_prevented n + n_uncertain n + n_never n)%nat, n).

Definition created_order (a b : string * string * campaign) : Prop :=
  c_created_at b.2 < c_created_at a.2
  \/ c_created_at a.2 = c_created_at b.2 /\ String.le b.1.2 a.1.2.
Global Instance created_order_dec a b : Decision (created_order a b).
Proof. unfold created_order. apply _. Defined.
Definition list_campaigns (t : string) (limit : nat) : cm (list (string * string * campaign)) := fun s =>
  (s, Ok (take limit (merge_sort created_order
     (List.filter (fun x => String.eqb x.1.1 t) (map_to_list (rows s)))))).

(** ** The worker *)

Definition due_order (a b : string * string * campaign) : Prop :=
  c_updated_at a.2 < c_updated_at b.2
  \/ c_updated_at a.2 = c_updated_at b.2 /\ id_le a.1 b.1.
Global Instance due_order_dec a b : Decision (due_order a b).
Proof. unfold due_order, id_le. apply _. Defined.
Definition next_campaign : cm (option (string * string)) := fun s =>
  (s, Ok (fst <$> head (merge_sort due_order (List.filter (fun x => c_in OPEN x.2) (map_to_list (rows s)))))).

Record worker := {
  worker_id : string;
  checks_authority : bool;         (* [authority_check is not None] *)
  has_throughput : bool;
  lease_seconds : Z;
}.

(** What [tick] does with the outcome of an effect. *)
Definition settle (t c : string) (e : effect) (o : outcome) : cprog (option string) :=
  let conclude st reason provider counted word :=
    complete_effect e st reason provider None counted ;; finalize t c ;; give (Some word) in
  match o with
  | ThroughputExceeded retry_at =>
      complete_effect e e_deferred (Some "throughput_limited") None (Some retry_at) false ;;
      set_status t c throttled "throttled" None ;;
      give (Some "throttled")
  | SpendCeilingExceeded reason =>
      complete_effect e e_prevented (Some reason) None None false ;;
      drain_remaining t c reason ;;
      finalize t c ;;
      give (Some "prevented")
  | AmbiguousDispatch | ProviderNetworkError =>
      conclude e_uncertain (Some "provider_outcome_unknown") None true "uncertain"
  | ProviderHTTPError => conclude e_prevented (Some "provider_rejected") None true "prevented"
  | OtherError why => fail (ProviderRaised why)
  | Delivered provider => conclude e_completed None provider true "completed"
  end.
(** From the claim on. *)
Definition attempt (w : worker) (t c : string) (x : campaign) (e : effect) : cprog (option string) :=
  v <- ask (Eligibility e x) ;;
  if negb (allowed v) then
    match defer_until v with
    | Some until =>
        match envelope_expires_at x with
        | None => fail (CampaignPython TypeError)
        | Some expires =>
            if expires <? until then
              complete_effect e e_never_eligible (why v) None None false ;;
              finalize t c ;;
              give (Some "never_eligible")
            else
              complete_effect e e_deferred (why v) None (Some until) false ;;
              set_status t c deferred_quiet_hours "deferred_quiet_hours" (why v) ;;
              give (Some "deferred")
        end
    | None =>
        complete_effect e e_prevented
          (Some (match why v with Some y => if truthy y then y else "ineligible" | None => "ineligible" end))
          None None false ;;
        finalize t c ;;
        give (Some "prevented")
    end
  else
    acquired <- (if has_throughput w then ask (Acquire t ("twilio." +:+ f_channel e +:+ ".send")) else give None) ;;
    match acquired with
    | Some refused => settle t c e refused
    | None => o <- ask (Dispatch e x) ;; settle t c e o
    end.
Definition tick (w : worker) : cprog (option string) :=
  now <- ask Clock ;;
  atom (recover_expired_claims now) ;;
  selected <- atom next_campaign ;;
  match selected with
  | None => give None
  | Some (t, c) =>
      x <- atom (get t c) ;;
      assert_envelope t c (definition x) ;;
      valid <- (if checks_authority w then check_authority t c 86400 else give true) ;;
      if negb valid then give (Some "reaffirmation_required") else
      over <- expire t c now ;;
      if over : bool then give (Some "expired") else
      halted <- ask (EmergencyStopped t) ;;
      if halted : bool then stop t c "emergency_stopped" ;; give (Some "stopped") else
      connected <- ask (ConnectionAvailable t x) ;;
      if negb connected then
        set_status t c blocked_connection "blocked_connection" (Some "connection_unavailable") ;;
        give (Some "blocked_connection")
      else
        (if c_in [blocked_connection] x then set_status t c running "running" None else give tt) ;;
        effect <- atom (claim_next (worker_id w) now (lease_seconds w) (Some t) (Some c)) ;;
        match effect with
        | None => finalize t c
        | Some e => attempt w t c x e
        end
  end.
End methods.
