(* ===== verification/CampaignProofs.v ===== *)
(** * One message to each person asked for

    Theorems about Campaign.v in the system where any number of workers and
    operators run the methods at once ([campaign_step]): what a campaign sends,
    to whom, by whose authority, and how often. *)

From S2P Require Import Prelude Rows PyValue Json Sha256 Program Campaign.
Local Open Scope Z_scope.

(** ** The system *)

(** The methods the service, the operators and the workers call; [set_status],
    [claim_next] and [complete_effect] are called by the others only. *)
Inductive method : cprog unit -> Prop :=
| do_preview t c who def audience exclusions spend ttl :
    method (forget (create_preview t c who def audience exclusions spend ttl))
| do_authorize t c who : method (forget (authorize t c who))
| do_assert t c def : method (forget (assert_envelope t c def))
| do_check t c within : method (forget (check_authority t c within))
| do_late t c v : method (forget (add_late_audience_member t c v))
| do_expire t c now : method (forget (expire t c now))
| do_pause t c who : method (forget (pause t c who))
| do_resume t c who : method (forget (resume t c who))
| do_reaffirm t c who : method (forget (reaffirm t c who))
| do_stop t c reason : method (forget (stop t c reason))
| do_drain t c reason : method (forget (drain_remaining t c reason))
| do_finalize t c : method (forget (finalize t c))
| do_reconcile t c contact channel verdict provider :
    method (forget (reconcile_effect t c contact channel verdict provider))
| do_recover now : method (forget (atom (recover_expired_claims now)))
| do_extend t c : method (forget (extend_envelope t c))
| do_read t c : method (forget (report t c))
| do_view t c : method (forget (preview t c))
| do_tick w : method (forget (tick w)).

Definition campaign_step : system campaigns campaign_error question -> system campaigns campaign_error question -> Prop :=
  system_step method.
Definition reachable (y : system campaigns campaign_error question) : Prop :=
  rtc campaign_step {| store_of := no_campaigns; pool := []; log := [] |} y.

(** What the log says was handed to the provider, found eligible, and
    permitted.  A dispatch its limit refused sent nothing. *)
Definition sent_by (ev : event (Q := question)) : option effect :=
  let '(existT B (q, x)) := ev in
  match q in question B return B -> option effect with
  | Dispatch e _ => fun o => match o with ThroughputExceeded _ => None | _ => Some e end
  | _ => fun _ => None
  end x.
Definition cleared_by (ev : event (Q := question)) : option effect :=
  let '(existT B (q, x)) := ev in
  match q in question B return B -> option effect with
  | Eligibility e _ => fun v => if allowed v then Some e else None
  | _ => fun _ => None
  end x.
Definition granted_by (ev : event (Q := question)) : option (option string * pyval) :=
  let '(existT B (q, x)) := ev in
  match q in question B return B -> option (option string * pyval) with
  | Permission who branch => fun b => if b then Some (who, branch) else None
  | _ => fun _ => None
  end x.
Definition sends (g : list (event (Q := question))) : list effect := omap sent_by g.
Definition clearances (g : list (event (Q := question))) : list effect := omap cleared_by g.
Definition grants (g : list (event (Q := question))) : list (option string * pyval) := omap granted_by g.

(** ** The tables *)

Definition target : Type := row_id * string.
Definition ident (e : effect) : target := (effect_key e, f_address e).
Definition open (e : effect) : Prop := f_status e = e_pending \/ f_status e = e_deferred.
Lemma waiting_open e : f_in waiting e = true <-> open e.
Proof.
  unfold f_in, waiting, open. cbn. rewrite orb_false_r, orb_true_iff, !bool_decide_eq_true. done.
Qed.

Definition sent_rows (t c : string) (s : campaigns) : list cohort_row :=
  List.filter (fun r => negb (Z.eqb (h_included r) 0)) (cohort_rows t c s).
(** The statuses only an authorisation leads to. *)
Definition ACTIVE : list campaign_status := paused :: OPEN.
Record wf (s : campaigns) : Prop := {
  wf_effects : NoDup (map effect_key (effects s));
  wf_cohort : NoDup (map cohort_key (cohort s));
  wf_grounded : forall e, e ∈ effects s -> exists x, campaign_of s e = Some x /\ is_Some (authorized_by x)
    /\ exists r, r ∈ cohort s /\ cohort_key r = effect_key e /\ h_address r = f_address e /\ h_included r <> 0;
  wf_ceiling : forall t c x, rows s !! (t, c) = Some x ->
    exists n, int_item (definition x) "audience_ceiling" = Ok n /\ Z.of_nat (length (sent_rows t c s)) <= n;
  wf_owned : forall r, r ∈ cohort s -> is_Some (rows s !! (h_tenant r, h_campaign r));
  wf_envelope : forall t c x, rows s !! (t, c) = Some x ->
    definition_hash x = _hash (definition x) /\ cohort_hash x = stored_cohort t c s
    /\ envelope_hash x = _hash (envelope (definition x) (definition_hash x) (cohort_hash x));
  wf_active : forall k x, rows s !! k = Some x -> c_in ACTIVE x = true -> is_Some (authorized_by x);
}.
Lemma wf_empty : wf no_campaigns.
Proof.
  constructor; [apply NoDup_nil_2|apply NoDup_nil_2|..]; try (by intros ? H%elem_of_nil);
    intros; match goal with H : rows _ !! _ = Some _ |- _ => cbn in H; by rewrite lookup_empty in H end.
Qed.

(** ** The state of a thread *)

Inductive hold : Type := Idle | Held (x : target) | Cleared (x : target).
(** What a thread holds, what it was told, the campaigns it has read, and those
    it found authorised. *)
Record local := {
  l_hold : hold;
  l_knows : list (option string * pyval);
  l_read : list (string * string * campaign);
  l_auth : list (string * string);
}.
Definition held (l : local) : option target := match l_hold l with Idle => None | Held x | Cleared x => Some x end.
Definition idle : local := {| l_hold := Idle; l_knows := []; l_read := []; l_auth := [] |}.
(** The columns of a campaign nothing changes. *)
Definition same_plan (x y : campaign) : Prop :=
  definition y = definition x /\ definition_hash y = definition_hash x /\ cohort_hash y = cohort_hash x
  /\ envelope_hash y = envelope_hash x /\ (is_Some (authorized_by x) -> is_Some (authorized_by y)).
Definition authorised (s : campaigns) (k : string * string) : Prop :=
  exists x, rows s !! k = Some x /\ is_Some (authorized_by x).
Definition still (s : campaigns) (l : local) : Prop :=
  (forall k x, (k, x) ∈ l_read l -> exists y, rows s !! k = Some y /\ same_plan x y)
  /\ forall k, k ∈ l_auth l -> authorised s k.
Lemma same_plan_refl x : same_plan x x.
Proof. by split_and!. Qed.
Lemma same_plan_trans x y z : same_plan x y -> same_plan y z -> same_plan x z.
Proof. unfold same_plan. intuition congruence. Qed.

Record invariant (s : campaigns) (ls : list local) (g : list event) : Prop := {
  in_wf : wf s;
  in_held : NoDup (omap held ls);
  in_closed : forall x, x ∈ omap held ls -> exists e, e ∈ effects s /\ ident e = x /\ ~ open e;
  in_sent : forall e, e ∈ sends g -> (ident e ∉ omap held ls)
    /\ (exists e', e' ∈ effects s /\ ident e' = ident e /\ ~ open e') /\ ident e ∈ map ident (clearances g);
  in_once : NoDup (map ident (sends g));
  in_cleared : forall l x, l ∈ ls -> l_hold l = Cleared x -> x ∈ map ident (clearances g);
  in_knows : forall l k, l ∈ ls -> k ∈ l_knows l -> k ∈ grants g;
  in_granted : forall k x who, rows s !! k = Some x -> authorized_by x = Some who ->
    exists branch, branch_of (definition x) = Ok branch /\ (Some who, branch) ∈ grants g;
  in_still : forall l, l ∈ ls -> still s l;
}.

(** ** What a statement may do *)

(** Statement [s] to [s'] of a thread in [l], which is then in [l']: rows keep
    their identity, none disappears, and a row that was taken is given back only
    by the thread that holds it, which then holds it no more. *)
Record kept (l l' : local) (s s' : campaigns) : Prop := {
  k_wf : wf s';
  k_rows : forall e', e' ∈ effects s' ->
    (exists e, e ∈ effects s /\ ident e = ident e'
       /\ (open e' -> open e \/ held l = Some (ident e) /\ held l' = None))
    \/ effect_key e' ∉ map effect_key (effects s);
  k_keep : forall e, e ∈ effects s -> exists e', e' ∈ effects s' /\ ident e' = ident e;
  k_held : forall x, held l' = Some x -> held l = Some x \/
    exists e e', e ∈ effects s /\ ident e = x /\ open e /\ e' ∈ effects s' /\ ident e' = x /\ ~ open e';
  k_cleared : forall x, l_hold l' = Cleared x -> l_hold l = Cleared x;
  k_knows : l_knows l' = l_knows l;
  k_plan : forall k x, rows s !! k = Some x -> exists y, rows s' !! k = Some y /\ same_plan x y;
  k_read : forall k x, (k, x) ∈ l_read l' -> (k, x) ∈ l_read l \/ rows s !! k = Some x;
  k_authed : forall k, k ∈ l_auth l' -> k ∈ l_auth l \/ authorised s k;
  k_auth : forall k x' who, rows s' !! k = Some x' -> authorized_by x' = Some who ->
    (exists x, rows s !! k = Some x /\ authorized_by x = Some who /\ definition x = definition x')
    \/ exists branch, branch_of (definition x') = Ok branch /\ (Some who, branch) ∈ l_knows l;
}.

Lemma held_in a l b x : x ∈ omap held (a ++ l :: b) <-> held l = Some x \/ x ∈ omap held (a ++ b).
Proof.
  rewrite !list_elem_of_omap. split.
  - intros (y & Hy & E). apply elem_of_app in Hy as [Hy|[->|Hy]%elem_of_cons]; [right|by left|right];
      exists y; (split; [|done]); set_solver.
  - intros [E|(y & Hy & E)]; [exists l; set_solver|]. exists y. split; [set_solver|done].
Qed.
Lemma held_distinct a l b :
  NoDup (omap held (a ++ l :: b)) <-> NoDup (omap held (a ++ b)) /\ forall x, held l = Some x -> x ∉ omap held (a ++ b).
Proof.
  rewrite !omap_app. cbn [omap list_omap].
  destruct (held l) as [x|]; [|by split; [intros H; split|intros [H _]]].
  rewrite <- Permutation_middle, NoDup_cons. split.
  - intros [Hx H]. split; [done|]. by intros y [= <-].
  - intros [H Hx]. split; [|done]. by apply Hx.
Qed.
Lemma same_effect s e e' : wf s -> e ∈ effects s -> e' ∈ effects s -> effect_key e = effect_key e' -> e = e'.
Proof. intros Hs. apply (key_unique effect_key), Hs. Qed.
Lemma ident_key e e' : ident e = ident e' -> effect_key e = effect_key e'.
Proof. intros E. by apply (f_equal fst) in E. Qed.

(** A closed row another thread relies on stays closed. *)
Lemma kept_closed l l' s s' x e :
  wf s -> kept l l' s s' -> e ∈ effects s -> ident e = x -> ~ open e ->
  (held l = Some x -> held l' <> None) -> exists e', e' ∈ effects s' /\ ident e' = x /\ ~ open e'.
Proof.
  intros Hs H He Hx Ho Hl. destruct (k_keep _ _ _ _ H e He) as (e' & He' & Hid). exists e'.
  split; [done|]. split; [congruence|]. intros Ho'.
  destruct (k_rows _ _ _ _ H e' He') as [(e0 & He0 & Hid0 & Hopen)|Hnew].
  - assert (e0 = e) as -> by (apply (same_effect s); [done..|apply ident_key; congruence]).
    destruct (Hopen Ho') as [|[Hh Hn]]; [done|]. apply Hl; [congruence|done].
  - apply Hnew, list_elem_of_fmap. exists e. split; [|done]. by apply ident_key.
Qed.

Lemma kept_authorised l l' s s' k : kept l l' s s' -> authorised s k -> authorised s' k.
Proof.
  intros H (x & Hx & Ha). destruct (k_plan _ _ _ _ H k x Hx) as (y & Hy & Hp). exists y. split; [done|]. by apply Hp.
Qed.
Definition present (s : campaigns) (l : local) : Prop :=
  forall x, held l = Some x -> exists e, e ∈ effects s /\ ident e = x /\ ~ open e.
Lemma kept_invariant l l' s s' a b g :
  (wf s -> still s l -> present s l -> kept l l' s s') -> invariant s (a ++ l :: b) g -> invariant s' (a ++ l' :: b) g.
Proof.
  intros Hkept [Hwf Hheld Hclosed Hsent Honce Hcl Hkn Hgr Hst].
  specialize (Hkept Hwf (Hst l ltac:(set_solver)) (fun x Hx => Hclosed x (proj2 (held_in a l b x) (or_introl Hx)))) as H.
  apply held_distinct in Hheld as [Hheld Hl].
  assert (forall x, held l' = Some x -> x ∉ omap held (a ++ b)) as Hl'.
  { intros x Hx Hin. destruct (k_held _ _ _ _ H x Hx) as [Hh|(e & e' & He & Hid & Ho & _)]; [by apply (Hl x)|].
    destruct (Hclosed x) as (e0 & He0 & Hid0 & Ho0); [by apply held_in; right|].
    assert (e0 = e) as -> by (apply (same_effect s); [done..|apply ident_key; congruence]). done. }
  constructor.
  - apply H.
  - by apply held_distinct.
  - intros x [Hx|Hx]%held_in.
    + destruct (k_held _ _ _ _ H x Hx) as [Hh|(e & e' & _ & _ & _ & He' & Hid' & Ho')]; [|by exists e'].
      destruct (Hclosed x) as (e0 & He0 & Hid0 & Ho0); [by apply held_in; left|].
      apply (kept_closed l l' s s' x e0); [done..|]. congruence.
    + destruct (Hclosed x) as (e0 & He0 & Hid0 & Ho0); [by apply held_in; right|].
      apply (kept_closed l l' s s' x e0); [done..|]. intros Hh. by destruct (Hl x).
  - intros e He. destruct (Hsent e He) as (Hno & (e0 & He0 & Hid0 & Ho0) & Hc). split; [|split; [|done]].
    + intros [Hx|Hx]%held_in; [|apply Hno, held_in; by right].
      destruct (k_held _ _ _ _ H _ Hx) as [Hh|(e1 & e1' & He1 & Hid1 & Ho1 & _)].
      { apply Hno, held_in. by left. }
      assert (e0 = e1) as -> by (apply (same_effect s); [done..|apply ident_key; congruence]). done.
    + apply (kept_closed l l' s s' _ e0); [done..|]. intros Hh. destruct Hno. apply held_in. by left.
  - done.
  - intros l0 x Hin Hx. assert (l0 = l' \/ l0 ∈ a ++ b) as [->|Hab] by set_solver.
    + apply (Hcl l); [set_solver|]. by apply (k_cleared _ _ _ _ H).
    + apply (Hcl l0); [set_solver|done].
  - intros l0 k Hin Hk. assert (l0 = l' \/ l0 ∈ a ++ b) as [->|Hab] by set_solver.
    + apply (Hkn l); [set_solver|]. by rewrite <- (k_knows _ _ _ _ H).
    + apply (Hkn l0); [set_solver|done].
  - intros k x who Hx Hw. destruct (k_auth _ _ _ _ H k x who Hx Hw) as [(x0 & Hx0 & Hw0 & Hd)|(br & Hb & Hk)].
    + rewrite <- Hd. by apply (Hgr k x0).
    + exists br. split; [done|]. apply (Hkn l); [set_solver|done].
  - assert (forall l0, l0 ∈ a ++ l :: b -> still s' l0) as Hold.
    { intros l0 Hin. destruct (Hst l0 Hin) as [Hrd Hau]. split.
      - intros k x Hk. destruct (Hrd k x Hk) as (y & Hy & Hp).
        destruct (k_plan _ _ _ _ H k y Hy) as (z & Hz & Hp'). exists z. split; [done|]. by eapply same_plan_trans.
      - intros k Hk. by apply (kept_authorised l l' s), Hau. }
    intros l0 Hin. assert (l0 = l' \/ l0 ∈ a ++ b) as [->|Hab] by set_solver; [split|apply Hold; set_solver].
    + intros k x Hk. destruct (k_read _ _ _ _ H k x Hk) as [Hl0|Hrow].
      * by apply (proj1 (Hold l ltac:(set_solver))).
      * destruct (k_plan _ _ _ _ H k x Hrow) as (z & Hz & Hp'). by exists z.
    + intros k Hk. destruct (k_authed _ _ _ _ H k Hk) as [Hl0|Hau].
      * by apply (proj2 (Hold l ltac:(set_solver))).
      * by apply (kept_authorised l l' s).
Qed.

(** ** Statements that leave the effects *)

Lemma stored_same t c s s' : cohort s' = cohort s -> stored_cohort t c s' = stored_cohort t c s.
Proof. unfold stored_cohort, cohort_rows. by intros ->. Qed.
Lemma sent_rows_same t c s s' : cohort s' = cohort s -> sent_rows t c s' = sent_rows t c s.
Proof. unfold sent_rows, cohort_rows. by intros ->. Qed.

(** The rows of [s'] are those of [s], some with another status, and an
    authority the thread was granted. *)
Record shifted (l : local) (s s' : campaigns) : Prop := {
  mv_effects : effects s' = effects s;
  mv_cohort : cohort s' = cohort s;
  mv_from : forall k y, rows s' !! k = Some y -> exists x, rows s !! k = Some x /\ same_plan x y
    /\ (authorized_by y = authorized_by x
        \/ exists who branch, authorized_by y = Some who /\ branch_of (definition y) = Ok branch /\ (Some who, branch) ∈ l_knows l)
    /\ (c_in ACTIVE y = true -> c_in ACTIVE x = true \/ is_Some (authorized_by y));
  mv_to : forall k x, rows s !! k = Some x -> is_Some (rows s' !! k);
}.
Lemma shifted_wf l s s' : wf s -> shifted l s s' -> wf s'.
Proof.
  intros [W1 W2 W3 W4 W5 W6 W7] [E1 E2 Hfrom Hto]. constructor; rewrite ?E1, ?E2; try done.
  - intros e He. destruct (W3 e He) as (x & Hx & Hw & Hr). destruct (Hto _ _ Hx) as [y Hy].
    exists y. split; [done|]. split; [|done]. destruct (Hfrom _ _ Hy) as (x' & Hx' & Hp & _).
    unfold campaign_of in Hx. rewrite Hx in Hx'. injection Hx' as <-. by apply Hp.
  - intros t c y Hy. destruct (Hfrom _ _ Hy) as (x & Hx & (Hd & _) & _). rewrite (sent_rows_same _ _ s), Hd by done. by apply W4.
  - intros r Hr. destruct (W5 r Hr) as [x Hx]. by apply (Hto _ _ Hx).
  - intros t c y Hy. destruct (Hfrom _ _ Hy) as (x & Hx & (Hd & Hh & Hc & He & _) & _).
    destruct (W6 t c x Hx) as (Q1 & Q2 & Q3). rewrite (stored_same _ _ s) by done. by rewrite Hh, Hc, He, Hd.
  - intros k y Hy Hact. destruct (Hfrom _ _ Hy) as (x & Hx & Hp & _ & Hac).
    destruct (Hac Hact) as [Hxa|]; [|done]. apply Hp. by apply (W7 k).
Qed.
Lemma shifted_kept l l' s s' :
  wf s -> shifted l s s' -> l_hold l' = l_hold l -> l_knows l' = l_knows l ->
  (forall k x, (k, x) ∈ l_read l' -> (k, x) ∈ l_read l \/ rows s !! k = Some x) ->
  (forall k, k ∈ l_auth l' -> k ∈ l_auth l \/ authorised s k) -> kept l l' s s'.
Proof.
  intros Hwf H Hh Hk Hr Hau. constructor.
  - by apply (shifted_wf l s).
  - intros e He. rewrite (mv_effects _ _ _ H) in He. left. exists e. split_and!; [done|done|by left].
  - intros e He. exists e. by rewrite (mv_effects _ _ _ H).
  - intros x. unfold held. rewrite Hh. by left.
  - intros x. by rewrite Hh.
  - done.
  - intros k x Hx. destruct (mv_to _ _ _ H k x Hx) as [y Hy]. exists y. split; [done|].
    destruct (mv_from _ _ _ H k y Hy) as (x' & Hx' & Hp & _). congruence.
  - done.
  - done.
  - intros k y who Hy Hw. destruct (mv_from _ _ _ H k y Hy) as (x & Hx & (Hd & _) & [E|(w & br & E & Hb & Hin)] & _).
    + left. exists x. split_and!; [done|congruence|done].
    + right. exists br. split; [done|]. congruence.
Qed.
Lemma shifted_refl l s : shifted l s s.
Proof.
  constructor; [done..| |by eexists]. intros k y Hy. exists y. split_and!; [done|apply same_plan_refl|by left|by left].
Qed.
Lemma kept_refl l s : wf s -> kept l l s s.
Proof. intros Hwf. apply shifted_kept; [done|apply shifted_refl|done|done|by left|by left]. Qed.
Lemma shifted_update l t c p f s :
  (forall x, rows s !! (t, c) = Some x -> p x = true -> same_plan x (f x)
     /\ (authorized_by (f x) = authorized_by x
         \/ exists who branch, authorized_by (f x) = Some who /\ branch_of (definition (f x)) = Ok branch /\ (Some who, branch) ∈ l_knows l)
     /\ (c_in ACTIVE (f x) = true -> c_in ACTIVE x = true \/ is_Some (authorized_by (f x)))) ->
  shifted l s (update_campaign t c p f s).1.
Proof.
  intros Hf. unfold update_campaign. destruct (rows s !! (t, c)) as [x|] eqn:Ex; [|apply shifted_refl].
  destruct (p x) eqn:Ep; [|apply shifted_refl]. constructor; [done..| |]; cbn.
  - intros k y Hy. destruct (decide (k = (t, c))) as [->|Hne].
    + rewrite lookup_insert_eq in Hy. injection Hy as <-. exists x. split; [done|]. by apply Hf.
    + rewrite lookup_insert_ne in Hy by done. exists y. split_and!; [done|apply same_plan_refl|by left|by left].
  - intros k y Hy. destruct (decide (k = (t, c))) as [->|Hne]; [rewrite lookup_insert_eq|rewrite lookup_insert_ne by done]; by eexists.
Qed.
(** A status of an authorised campaign, or one that needs no authority. *)
Lemma shifted_status l t c st now s :
  st ∉ ACTIVE \/ authorised s (t, c) -> shifted l s (write_status t c st now s).1.
Proof.
  intros Hst. apply shifted_update. intros x Hx _. split; [by split_and!|]. split; [by left|]. intros Hact. right.
  destruct Hst as [Hn|(x' & Hx' & Ha)]; [exfalso|cbn; congruence]. apply Hn.
  unfold c_in in Hact. apply existsb_exists in Hact as (st' & Hin & E%bool_decide_eq_true). cbn in E. subst st'.
  by apply list_elem_of_In.
Qed.
Lemma shifted_audit l t c ev who d now s : shifted l s (add_audit t c ev who d now s).1.
Proof.
  constructor; [done..| |by eexists]. intros k y Hy. exists y. split_and!; [done|apply same_plan_refl|by left|by left].
Qed.

(** Statements one after another. *)
Lemma kept_trans l s1 s2 s3 : kept l l s1 s2 -> kept l l s2 s3 -> kept l l s1 s3.
Proof.
  intros H H'. constructor; try (by left); try done.
  - apply H'.
  - intros e3 He3. destruct (k_rows _ _ _ _ H' e3 He3) as [(e2 & He2 & Hid2 & Ho2)|Hnew].
    + destruct (k_rows _ _ _ _ H e2 He2) as [(e1 & He1 & Hid1 & Ho1)|Hnew].
      * left. exists e1. split_and!; [done|congruence|]. intros Ho3. left. destruct (Ho2 Ho3) as [Ho|[??]]; [|congruence].
        destruct (Ho1 Ho) as [?|[??]]; [done|congruence].
      * right. by rewrite <- (ident_key _ _ Hid2).
    + right. intros (e1 & E & He1)%list_elem_of_fmap. destruct (k_keep _ _ _ _ H e1 He1) as (e2 & He2 & Hid).
      apply Hnew, list_elem_of_fmap. exists e2. split; [|done]. rewrite (ident_key _ _ Hid). done.
  - intros e1 He1. destruct (k_keep _ _ _ _ H e1 He1) as (e2 & He2 & Hid).
    destruct (k_keep _ _ _ _ H' e2 He2) as (e3 & He3 & Hid'). exists e3. split; [done|congruence].
  - intros k x Hx. destruct (k_plan _ _ _ _ H k x Hx) as (y & Hy & Hp). destruct (k_plan _ _ _ _ H' k y Hy) as (z & Hz & Hp').
    exists z. split; [done|]. by eapply same_plan_trans.
  - intros k z who Hz Hw. destruct (k_auth _ _ _ _ H' k z who Hz Hw) as [(y & Hy & Hwy & Hd)|?]; [|by right].
    destruct (k_auth _ _ _ _ H k y who Hy Hwy) as [(x & Hx & Hwx & Hd')|(br & Hb & Hin)].
    + left. exists x. split_and!; [done|done|congruence].
    + right. exists br. split; [congruence|done].
Qed.
Lemma kept_after l l' s1 s2 s3 : kept l l' s1 s2 -> shifted l' s2 s3 -> kept l l' s1 s3.
Proof.
  intros H H'. constructor; try apply H.
  - apply (shifted_wf l' s2); [apply H|done].
  - intros e He. rewrite (mv_effects _ _ _ H') in He. by apply (k_rows _ _ _ _ H).
  - intros e He. rewrite (mv_effects _ _ _ H'). by apply (k_keep _ _ _ _ H).
  - intros x Hx. rewrite (mv_effects _ _ _ H'). by apply (k_held _ _ _ _ H).
  - intros k x Hx. destruct (k_plan _ _ _ _ H k x Hx) as (y & Hy & Hp). destruct (mv_to _ _ _ H' k y Hy) as [z Hz].
    exists z. split; [done|]. destruct (mv_from _ _ _ H' k z Hz) as (y' & Hy' & Hp' & _).
    assert (y' = y) as -> by congruence. by eapply same_plan_trans.
  - intros k z who Hz Hw. destruct (mv_from _ _ _ H' k z Hz) as (y & Hy & (Hd & _) & Ha & _).
    destruct Ha as [E|(w & br & E & Hb & Hin)].
    + rewrite Hd. destruct (k_auth _ _ _ _ H k y who Hy ltac:(congruence)) as [(x & ? & ? & ?)|?]; [left; exists x|right]; auto.
    + right. exists br. rewrite <- (k_knows _ _ _ _ H). split; [done|]. congruence.
Qed.

(** ** Statements on the effects *)

Definition as_held (l l' : local) : Prop :=
  l_knows l' = l_knows l /\ l_read l' = l_read l /\ (forall k, k ∈ l_auth l' -> k ∈ l_auth l)
  /\ forall x, l_hold l' = Cleared x -> l_hold l = Cleared x.
Lemma as_held_refl l : as_held l l.
Proof. by split_and!. Qed.

Lemma update_keys_same p f l :
  (forall e, e ∈ l -> p e = true -> ident (f e) = ident e) -> map effect_key (update_where p f l) = map effect_key l.
Proof.
  intros Hf. unfold update_where. rewrite map_map. apply map_ext_in. intros e He%list_elem_of_In.
  destruct (p e) eqn:E; [|done]. by apply ident_key, Hf.
Qed.
Lemma in_update p f l (e' : effect) :
  e' ∈ update_where p f l <-> exists e, e ∈ l /\ e' = if p e then f e else e.
Proof.
  unfold update_where. rewrite list_elem_of_fmap. split; intros (e & E & He); exists e; by split.
Qed.
Lemma update_effects_wf p f s :
  (forall e, e ∈ effects s -> p e = true -> ident (f e) = ident e) -> wf s -> wf (update_effects p f s).1.
Proof.
  intros Hf [W1 W2 W3 W4 W5 W6 W7]. constructor; cbn; try done; [by rewrite update_keys_same|].
  intros e' He'. apply in_update in He' as (e & He & ->). destruct (W3 e He) as (x & Hx & Ha & r & Hr & Hk & Had & Hi).
  assert (ident (if p e then f e else e) = ident e) as Hid by (destruct (p e) eqn:E; [by apply Hf|done]).
  assert (effect_key (if p e then f e else e) = effect_key e) as Hke by by apply ident_key.
  assert (f_address (if p e then f e else e) = f_address e) as Hae by (by apply (f_equal snd) in Hid).
  exists x. split; [|split; [done|]].
  - unfold campaign_of in *. cbn. unfold effect_key in Hke. injection Hke as -> -> _ _. done.
  - exists r. split_and!; [done|congruence|congruence|done].
Qed.
Lemma kept_update l l' p f s :
  wf s -> as_held l l' ->
  (forall e, e ∈ effects s -> p e = true -> ident (f e) = ident e
     /\ (open (f e) -> open e \/ held l = Some (ident e) /\ held l' = None)) ->
  (forall x, held l' = Some x -> held l = Some x \/
     exists e, e ∈ effects s /\ ident e = x /\ open e /\ p e = true /\ ~ open (f e)) ->
  kept l l' s (update_effects p f s).1.
Proof.
  intros Hwf (Hkn & Hrd & Hau & Hcl) Hf Hh. constructor; cbn; try done.
  - apply update_effects_wf; [|done]. intros e He Hp. by apply Hf.
  - intros e' He'. apply in_update in He' as (e & He & ->). left. exists e. split; [done|].
    destruct (p e) eqn:E; [|by split; [|left]]. destruct (Hf e He E) as [Hid Ho]. by rewrite Hid.
  - intros e He. exists (if p e then f e else e). split; [apply in_update; by exists e|].
    destruct (p e) eqn:E; [by apply Hf|done].
  - intros x Hx. destruct (Hh x Hx) as [|(e & He & Hid & Ho & Hp & Hn)]; [by left|right].
    exists e, (f e). split_and!; try done.
    + apply in_update. exists e. by rewrite Hp.
    + destruct (Hf e He Hp) as [-> _]. done.
  - intros k x Hx. exists x. split; [done|apply same_plan_refl].
  - intros k x. rewrite Hrd. by left.
  - intros k Hk. left. by apply Hau.
  - intros k x who Hx Hw. left. by exists x.
Qed.
(** An update that opens nothing. *)
Lemma kept_closing l p f s :
  wf s -> (forall e, p e = true -> ident (f e) = ident e /\ (open (f e) -> open e)) ->
  kept l l s (update_effects p f s).1.
Proof.
  intros Hwf Hf. apply kept_update; [done|apply as_held_refl| |by left].
  intros e _ He. destruct (Hf e He) as [? Ho]. split; [done|]. intros Hop. left. by apply Ho.
Qed.
Lemma kept_cancel l t c st reason now s :
  wf s -> kept l l s (cancel_waiting t c st reason now s).1.
Proof.
  intros Hwf. apply kept_closing; [done|]. intros e He. apply andb_true_iff in He as [_ He%waiting_open].
  split; [done|]. by intros _.
Qed.
Lemma kept_recover l now s : wf s -> kept l l s (recover_expired_claims now s).1.
Proof. intros Hwf. apply kept_closing; [done|]. intros e _. split; [done|]. by intros [?|?]. Qed.
Lemma kept_reconcile l q verdict provider now s :
  wf s -> kept l l s (update_effects q (reconcile_row verdict provider now) s).1.
Proof.
  intros Hwf. apply kept_closing; [done|]. intros e _. split; [done|]. unfold open. cbn.
  destruct (String.eqb verdict "delivered"); by intros [?|?].
Qed.

(** ** New rows *)

Definition grounded (s : campaigns) (e : effect) : Prop :=
  authorised s (f_tenant e, f_campaign e)
  /\ exists r, r ∈ cohort s /\ cohort_key r = effect_key e /\ h_address r = f_address e /\ h_included r <> 0.
Lemma insert_effect_frame e s :
  let s' := (insert_effect e s).1 in rows s' = rows s /\ cohort s' = cohort s.
Proof. unfold insert_effect. by destruct (existsb _ _). Qed.
Lemma kept_insert_effect l e s : wf s -> grounded s e -> kept l l s (insert_effect e s).1.
Proof.
  intros Hwf [(x & Hx & Ha) Hr]. unfold insert_effect. destruct (existsb _ _) eqn:E; [by apply kept_refl|].
  assert (effect_key e ∉ map effect_key (effects s)) as Hn.
  { intros (e0 & Hk & He0)%list_elem_of_fmap. apply not_true_iff_false in E. apply E, existsb_exists.
    exists e0. split; [by apply list_elem_of_In|]. by apply bool_decide_eq_true. }
  pose proof Hwf as [W1 W2 W3 W4 W5 W6 W7]. constructor; try (by left); try done.
  - constructor; try done; cbn.
    + rewrite map_app. apply NoDup_app. split; [done|]. split; [|apply NoDup_singleton]. by intros k Hk ->%list_elem_of_singleton.
    + intros e0 [He0| ->%list_elem_of_singleton]%elem_of_app; [by apply W3|]. by exists x.
  - cbn. intros e0 [He0| ->%list_elem_of_singleton]%elem_of_app; [left|by right]. exists e0. split_and!; [done|done|by left].
  - cbn. intros e0 He0. exists e0. split; [set_solver|done].
  - intros k y Hy. exists y. split; [done|apply same_plan_refl].
  - intros k y who Hy Hw. left. by exists y.
Qed.

Lemma in_cohort_rows t c s r : r ∈ cohort_rows t c s <-> r ∈ cohort s /\ h_tenant r = t /\ h_campaign r = c.
Proof. unfold cohort_rows. rewrite in_filter, andb_true_iff, !String.eqb_eq. tauto. Qed.

(** [authorize] inserts one effect for each previewed row. *)
Definition effect_for (t c : string) (def : pyval) (now : Z) (r : cohort_row) : cm unit :=
  stm_bind (stm_result (x ← item def "schedule"; int_item x "starts_at"))
    (fun starts => insert_effect (new_effect t c (h_contact r) (h_channel r) (h_address r) starts now)).
Lemma kept_effects_for l t c def now rs s :
  wf s -> authorised s (t, c) -> (forall r, r ∈ rs -> r ∈ cohort_rows t c s /\ h_included r <> 0) ->
  kept l l s (stm_iter (effect_for t c def now) rs s).1.
Proof.
  revert s. induction rs as [|r rs IH]; intros s Hwf Ha Hr; cbn [stm_iter]; [by apply kept_refl|].
  destruct (Hr r ltac:(left)) as [[Hin [Ht Hc]]%in_cohort_rows Hi].
  unfold stm_bind at 1, effect_for at 1, stm_bind at 1.
  destruct (_ : result campaign_error Z) as [starts|e]; cbn [stm_result stm_ret stm_raise]; [|by apply kept_refl].
  set (e := new_effect _ _ _ _ _ _ _).
  assert (kept l l s (insert_effect e s).1) as H1.
  { apply kept_insert_effect; [done|]. split; [done|]. exists r. split_and!; [done| |done|done].
    unfold cohort_key, effect_key. cbn. congruence. }
  pose proof (insert_effect_frame e s) as [Er Ec]. destruct (insert_effect e s) as [s' [[]|err]] eqn:E; [|done].
  apply (kept_trans l s s'); [done|]. apply IH; [apply H1| |].
  - unfold authorised in *. cbn in Er. by rewrite Er.
  - intros q Hq. unfold cohort_rows. cbn in Ec. rewrite Ec. apply Hr. by right.
Qed.

Lemma transaction_fst {A} (P : campaigns -> Prop) (m : cm A) s :
  P s -> P (m s).1 -> P (transaction m s).1.
Proof. unfold transaction. by destruct (m s) as [s' [a|e]]. Qed.

(** Statement by statement inside a transaction. *)
Lemma bind_fst {A B} (P : campaigns -> Prop) (m : cm A) (k : A -> cm B) s :
  P (m s).1 -> (forall a s', m s = (s', Ok a) -> P (k a s').1) -> P (stm_bind m k s).1.
Proof. unfold stm_bind. intros H Hk. destruct (m s) as [s' [a|e]]; [by apply Hk|done]. Qed.

Lemma update_campaign_found t c p f s n :
  (update_campaign t c p f s).2 = Ok n -> n = 1%nat ->
  exists x, rows s !! (t, c) = Some x /\ p x = true
  /\ (update_campaign t c p f s).1 = with_rows s (<[(t, c) := f x]> (rows s)).
Proof.
  unfold update_campaign. destruct (rows s !! (t, c)) as [x|]; [|by intros [= <-]].
  destruct (p x) eqn:E; [|by intros [= <-]]. intros _ _. by exists x.
Qed.
Lemma kept_authorize l t c who env def expires now s x branch :
  wf s -> still s l -> (t, c, x) ∈ l_read l -> definition x = def -> env = envelope_hash x ->
  branch_of def = Ok branch -> (Some who, branch) ∈ l_knows l ->
  kept l l s (authorize_rows t c who env def expires now s).1.
Proof.
  intros Hwf [Hst _] Hread Hdef Henv Hbr Hkn. destruct (Hst (t, c) x Hread) as (y & Hy & Hp).
  unfold authorize_rows. apply transaction_fst; [by apply kept_refl|].
  set (f := fun z => set_campaign (set_authority z (Some who) env (Some expires) (reaffirm_by z)) authorized now).
  assert (shifted l s (update_campaign t c (c_in [audience_previewed]) f s).1) as H1.
  { apply shifted_update. intros z Hz _. assert (z = y) as -> by congruence. split; [|split].
    - destruct Hp as (Hd & Hh & Hc & He & _). split_and!; try done; cbn; congruence.
    - right. exists who, branch. split_and!; [done| |done]. destruct Hp as [Hd _]. cbn. congruence.
    - right. by eexists. }
  assert (kept l l s (update_campaign t c (c_in [audience_previewed]) f s).1) as H1'
    by (by apply shifted_kept; [| | | |by left|by left]).
  apply bind_fst; [done|]. intros n s1 E1. rewrite E1 in H1, H1'. cbn in H1, H1'.
  destruct (Nat.eqb_spec n 1) as [Hn|Hn].
  2: { unfold stm_bind, stm_raise. done. }
  destruct (update_campaign_found t c (c_in [audience_previewed]) f s n) as (z & Hz & _ & Es); [by rewrite E1|done|].
  rewrite E1 in Es. cbn in Es. unfold stm_bind at 1, stm_ret at 1. apply bind_fst; [done|]. intros s1' s1'' [= <- <-].
  set (rs := List.filter _ _).
  assert (kept l l s1 (stm_iter (effect_for t c def now) rs s1).1) as H2.
  { apply kept_effects_for; [apply H1'| |].
    - rewrite Es. exists (f z). split; [apply lookup_insert_eq|by eexists].
    - intros r [Hr Hi]%in_filter. apply Z.eqb_eq in Hi. split; [done|]. lia. }
  apply bind_fst; [by apply (kept_trans l s s1)|]. intros [] s2 E2.
  change (stm_iter _ rs s1) with (stm_iter (effect_for t c def now) rs s1) in E2. rewrite E2 in H2. cbn in H2.
  apply (kept_trans l s s2); [by apply (kept_trans l s s1)|].
  apply shifted_kept; [apply H2|apply shifted_audit|done|done|by left|by left].
Qed.

(** A later member is admitted below the ceiling. *)
Lemma cohort_rows_snoc t c s r l :
  cohort_rows t c (with_cohort s (l ++ [r]))
  = List.filter (fun r => String.eqb (h_tenant r) t && String.eqb (h_campaign r) c) l
    ++ (if String.eqb (h_tenant r) t && String.eqb (h_campaign r) c then [r] else []).
Proof. unfold cohort_rows. cbn. rewrite List.filter_app. cbn. by destruct (_ && _). Qed.
Lemma has_cohort_spec s k : has_cohort s k = true <-> k ∈ map cohort_key (cohort s).
Proof.
  unfold has_cohort. rewrite existsb_exists, list_elem_of_fmap. split.
  - intros (r & Hr & E%bool_decide_eq_true). exists r. split; [done|by apply list_elem_of_In].
  - intros (r & -> & Hr). exists r. split; [by apply list_elem_of_In|by apply bool_decide_eq_true].
Qed.
Lemma admitted_wf t c m s ceiling x :
  wf s -> rows s !! (t, c) = Some x -> int_item (definition x) "audience_ceiling" = Ok ceiling ->
  Z.of_nat (length (sent_rows t c s)) < ceiling -> has_cohort s (t, c, m_contact m, m_channel m) = false ->
  wf (with_cohort s (cohort s ++ [cohort_of t c m 2])).
Proof.
  intros [W1 W2 W3 W4 W5 W6 W7] Hx Hc Hlt Hn. constructor; try done.
  - cbn. rewrite map_app. apply NoDup_app. split; [done|]. split; [|apply NoDup_singleton].
    intros k Hk ->%list_elem_of_singleton. apply has_cohort_spec in Hk. unfold cohort_key, cohort_of in Hk. cbn in Hk. congruence.
  - intros e He. destruct (W3 e He) as (y & Hy & Ha & r & Hr & Hk). exists y. split; [done|]. split; [done|].
    exists r. split; [set_solver|done].
  - intros t' c' y Hy. cbn in Hy. unfold sent_rows. rewrite cohort_rows_snoc. cbn [h_tenant h_campaign cohort_of].
    rewrite List.filter_app. fold (cohort_rows t' c' s). fold (sent_rows t' c' s).
    destruct (String.eqb t t' && String.eqb c c') eqn:E.
    + apply andb_true_iff in E as [->%String.eqb_eq ->%String.eqb_eq]. assert (y = x) as -> by congruence.
      exists ceiling. split; [done|]. rewrite length_app. cbn. lia.
    + cbn. rewrite app_nil_r. by apply W4.
  - intros r [Hr| ->%list_elem_of_singleton]%elem_of_app; [by apply W5|]. by exists x.
  - intros t' c' y Hy. destruct (W6 t' c' y Hy) as (Q1 & Q2 & Q3). split; [done|]. split; [|done]. rewrite Q2.
    unfold stored_cohort. rewrite cohort_rows_snoc. cbn [h_tenant h_campaign cohort_of].
    rewrite List.filter_app. fold (cohort_rows t' c' s). destruct (_ && _); cbn; by rewrite app_nil_r.
Qed.
Lemma kept_admit l t c m ceiling starts now s x :
  wf s -> still s l -> (t, c, x) ∈ l_read l -> (t, c) ∈ l_auth l ->
  int_item (definition x) "audience_ceiling" = Ok ceiling ->
  kept l l s (admit_late t c m ceiling starts now s).1.
Proof.
  intros Hwf [Hst Hau] Hread Hauth Hc. destruct (Hst (t, c) x Hread) as (y & Hy & Hd & _).
  unfold admit_late. apply transaction_fst; [by apply kept_refl|]. unfold stm_bind at 1, stm_get at 1.
  fold (sent_rows t c s). destruct (Z.leb_spec ceiling (Z.of_nat (length (sent_rows t c s)))) as [|Hlt]; [by apply kept_refl|].
  unfold stm_bind at 1, insert_or_ignore. destruct (has_cohort s _) eqn:Eh; [by apply kept_refl|]. cbn [negb].
  set (s1 := with_cohort s _).
  assert (wf s1) as Hwf1 by (apply (admitted_wf t c m s ceiling y); [done|done|by rewrite Hd|done|done]).
  assert (kept l l s s1) as H1.
  { constructor; try (by left); try done.
    - intros e He. left. exists e. split_and!; [done|done|by left].
    - intros e He. by exists e.
    - intros k z Hz. exists z. split; [done|apply same_plan_refl].
    - intros k z who Hz Hw. left. by exists z. }
  set (e := new_effect _ _ _ _ _ _ _).
  assert (kept l l s1 (insert_effect e s1).1) as H2.
  { apply kept_insert_effect; [done|]. split; [by apply Hau|]. exists (cohort_of t c m 2). split_and!; try done.
    cbn. set_solver. }
  apply bind_fst; [by apply (kept_trans l s s1)|]. intros [] s2 E2. rewrite E2 in H2. cbn in H2.
  apply (kept_trans l s s2); [by apply (kept_trans l s s1)|].
  apply shifted_kept; [apply H2|apply shifted_audit|done|done|by left|by left].
Qed.

(** ** A new campaign *)

Lemma iter_insert_cohort t c members s s' :
  stm_iter (fun m => insert_cohort (cohort_of t c m 1)) members s = (s', Ok tt) ->
  s' = with_cohort s (cohort s ++ map (fun m => cohort_of t c m 1) members)
  /\ (NoDup (map cohort_key (cohort s)) -> NoDup (map cohort_key (cohort s'))).
Proof.
  revert s. induction members as [|m l IH]; intros s; cbn [stm_iter map].
  - intros [= <-]. split; [|done]. rewrite app_nil_r. by destruct s.
  - unfold stm_bind at 1, insert_cohort at 1. destruct (has_cohort s _) eqn:E; [done|]. intros H.
    destruct (IH _ H) as [-> Hnd]. split; [cbn; by rewrite <- app_assoc|]. intros Hn. apply Hnd. cbn.
    rewrite map_app. apply NoDup_app. split; [done|]. split; [|apply NoDup_singleton].
    intros k Hk ->%list_elem_of_singleton. apply has_cohort_spec in Hk. congruence.
Qed.
Lemma insert_excluded_rows t c def x s s' :
  insert_excluded t c def x s = (s', Ok tt) ->
  exists l, s' = with_cohort s (cohort s ++ l)
  /\ (forall r, r ∈ l -> h_tenant r = t /\ h_campaign r = c /\ h_included r = 0)
  /\ (NoDup (map cohort_key (cohort s)) -> NoDup (map cohort_key (cohort s'))).
Proof.
  assert (s = with_cohort s (cohort s ++ [])) as Hnil by (rewrite app_nil_r; by destruct s).
  unfold insert_excluded, stm_bind at 1. destruct (_ : result campaign_error pyval) as [branch|e]; cbn [stm_result stm_ret stm_raise]; [|done].
  destruct (match x_branch x with Some b => Some b | None => bind_text branch end) as [b|].
  - unfold stm_bind, insert_or_ignore. destruct (has_cohort s _) eqn:E; intros [= <-].
    + exists []. split; [done|]. split; [by intros r Hr%elem_of_nil|done].
    + eexists [_]. split; [reflexivity|]. split; [by intros r ->%list_elem_of_singleton|]. intros Hn. cbn.
      rewrite map_app. apply NoDup_app. split; [done|]. split; [|apply NoDup_singleton].
      intros k Hk ->%list_elem_of_singleton. apply has_cohort_spec in Hk. congruence.
  - destruct branch; try done. intros [= <-]. exists []. split; [done|]. split; [by intros r Hr%elem_of_nil|done].
Qed.
Lemma iter_insert_excluded t c def xs s s' :
  stm_iter (insert_excluded t c def) xs s = (s', Ok tt) ->
  exists l, s' = with_cohort s (cohort s ++ l)
  /\ (forall r, r ∈ l -> h_tenant r = t /\ h_campaign r = c /\ h_included r = 0)
  /\ (NoDup (map cohort_key (cohort s)) -> NoDup (map cohort_key (cohort s'))).
Proof.
  revert s. induction xs as [|x xs IH]; intros s; cbn [stm_iter].
  - intros [= <-]. exists []. split; [rewrite app_nil_r; by destruct s|]. split; [by intros r Hr%elem_of_nil|done].
  - unfold stm_bind at 1. destruct (insert_excluded t c def x s) as [s1 [[]|e]] eqn:E; [|done]. intros H.
    destruct (insert_excluded_rows _ _ _ _ _ _ E) as (l1 & -> & Hl1 & Hn1).
    destruct (IH _ H) as (l2 & -> & Hl2 & Hn2). exists (l1 ++ l2). split; [cbn; by rewrite app_assoc|]. split; [|by intros Hn; apply Hn2, Hn1].
    intros r [Hr|Hr]%elem_of_app; auto.
Qed.
(** The rows of a campaign that was not there. *)
Lemma previewed_rows t c s members l :
  wf s -> rows s !! (t, c) = None -> (forall r, r ∈ l -> h_tenant r = t /\ h_campaign r = c /\ h_included r = 0) ->
  let s' := with_cohort s ((cohort s ++ map (fun m => cohort_of t c m 1) members) ++ l) in
  cohort_rows t c s' = map (fun m => cohort_of t c m 1) members ++ l
  /\ forall t' c', (t', c') <> (t, c) -> cohort_rows t' c' s' = cohort_rows t' c' s.
Proof.
  intros Hwf Hnone Hl s'. unfold cohort_rows, s'. cbn. rewrite !List.filter_app. split.
  - rewrite (filter_none _ (cohort s)), (filter_all _ (map _ members)), (filter_all _ l); [done|..].
    + intros r Hr. destruct (Hl r Hr) as (-> & -> & _). by rewrite !String.eqb_refl.
    + intros r (m & -> & _)%list_elem_of_fmap. cbn. by rewrite !String.eqb_refl.
    + intros r Hr. destruct (wf_owned _ Hwf r Hr) as [y Hy]. apply not_true_iff_false.
      intros [E1%String.eqb_eq E2%String.eqb_eq]%andb_true_iff. congruence.
  - intros t' c' Hne. rewrite !List.filter_app.
    assert (forall r, h_tenant r = t -> h_campaign r = c -> String.eqb (h_tenant r) t' && String.eqb (h_campaign r) c' = false) as Hf.
    { intros r E1 E2. apply not_true_iff_false. rewrite E1, E2.
      intros [E3%String.eqb_eq E4%String.eqb_eq]%andb_true_iff. congruence. }
    rewrite (filter_none _ (map _ members)), (filter_none _ l); [by rewrite !app_nil_r|..].
    + intros r Hr. destruct (Hl r Hr) as (H1 & H2 & _). by apply Hf.
    + intros r (m & -> & _)%list_elem_of_fmap. by apply Hf.
Qed.

Lemma members_of_rows t c members : map row_member (map (fun m => cohort_of t c m 1) members) = members.
Proof. rewrite map_map. rewrite <- (map_id members) at 2. apply map_ext. by intros []. Qed.
Lemma preview_wf t c s x members l :
  wf s -> rows s !! (t, c) = None -> (forall r, r ∈ l -> h_tenant r = t /\ h_campaign r = c /\ h_included r = 0) ->
  let rs := (cohort s ++ map (fun m => cohort_of t c m 1) members) ++ l in
  NoDup (map cohort_key rs) ->
  definition_hash x = _hash (definition x) -> cohort_hash x = _hash (cohort_proof members) ->
  envelope_hash x = _hash (envelope (definition x) (definition_hash x) (cohort_hash x)) ->
  c_status x = audience_previewed ->
  (exists n, int_item (definition x) "audience_ceiling" = Ok n /\ Z.of_nat (length members) <= n) ->
  wf (with_rows (with_cohort s rs) (<[(t, c) := x]> (rows s))).
Proof.
  intros Hwf Hnone Hl rs Hnd Hh Hc He Hst (n & Hn & Hle).
  destruct (previewed_rows t c s members l Hwf Hnone Hl) as [Hmine Hothers]. fold rs in Hmine, Hothers.
  set (s' := with_rows _ _). pose proof Hwf as [W1 W2 W3 W4 W5 W6 W7].
  assert (forall t' c', cohort_rows t' c' s' = cohort_rows t' c' (with_cohort s rs)) as Hsame by done.
  assert (List.filter (fun r => negb (Z.eqb (h_included r) 0)) l = []) as Hl0.
  { apply filter_none. intros r Hr. destruct (Hl r Hr) as (_ & _ & ->). done. }
  assert (List.filter (fun r => Z.eqb (h_included r) 1) l = []) as Hl1.
  { apply filter_none. intros r Hr. destruct (Hl r Hr) as (_ & _ & ->). done. }
  constructor; try done.
  - intros e Hin. destruct (W3 e Hin) as (y & Hy & Ha & r & Hr & Hk). exists y. split; [|split; [done|]].
    + unfold campaign_of in *. cbn. rewrite lookup_insert_ne; [done|]. intros E. rewrite E in Hnone. congruence.
    + exists r. split; [|done]. cbn. unfold rs. set_solver.
  - intros t' c' y Hy. cbn in Hy. unfold sent_rows. rewrite Hsame. destruct (decide ((t', c') = (t, c))) as [E|Hne].
    + injection E as -> ->. rewrite lookup_insert_eq in Hy. injection Hy as <-. exists n. split; [done|].
      rewrite Hmine, List.filter_app, Hl0, app_nil_r, filter_all, length_map; [done|].
      by intros r (m & -> & _)%list_elem_of_fmap.
    + rewrite lookup_insert_ne in Hy by congruence. rewrite Hothers by done. by apply W4.
  - intros r Hr. cbn. destruct (decide ((h_tenant r, h_campaign r) = (t, c))) as [E|Hne].
    + rewrite E, lookup_insert_eq. by eexists.
    + rewrite lookup_insert_ne by congruence. cbn in Hr. unfold rs in Hr.
      apply elem_of_app in Hr as [[Hr|(m & -> & _)%list_elem_of_fmap]%elem_of_app|Hr]; [by apply W5|done|].
      destruct (Hl r Hr) as (E1 & E2 & _). congruence.
  - intros t' c' y Hy. cbn in Hy. unfold stored_cohort. rewrite Hsame. destruct (decide ((t', c') = (t, c))) as [E|Hne].
    + injection E as -> ->. rewrite lookup_insert_eq in Hy. injection Hy as <-. split; [done|]. split; [|done].
      rewrite Hmine, List.filter_app, Hl1, app_nil_r, filter_all, members_of_rows; [done|].
      by intros r (m & -> & _)%list_elem_of_fmap.
    + rewrite lookup_insert_ne in Hy by congruence. rewrite Hothers by done. by apply W6.
  - intros k y Hy Hact. cbn in Hy. destruct (decide (k = (t, c))) as [->|Hne].
    + rewrite lookup_insert_eq in Hy. injection Hy as <-. unfold c_in in Hact. rewrite Hst in Hact. done.
    + rewrite lookup_insert_ne in Hy by congruence. by apply (W7 k).
Qed.

Lemma kept_preview l t c who def members exclusions spend ttl now s n :
  wf s -> int_item def "audience_ceiling" = Ok n -> Z.of_nat (length members) <= n ->
  kept l l s (preview_rows t c who def members exclusions spend ttl now s).1.
Proof.
  intros Hwf Hn Hle. unfold preview_rows, transaction.
  match goal with |- context [let (_, _) := ?x in _] => destruct x as [s' [[]|e]] eqn:E end; [|by apply kept_refl].
  set (x := {| created_by := who |}) in E. unfold stm_bind at 1, insert_campaign in E.
  destruct (rows s !! (t, c)) eqn:Hnone; [done|].
  unfold stm_bind at 1 in E. destruct (stm_iter _ members _) as [s1 [[]|e]] eqn:E1; [|done].
  unfold stm_bind at 1 in E. destruct (stm_iter _ exclusions _) as [s2 [[]|e]] eqn:E2; [|done].
  apply iter_insert_cohort in E1 as [-> Hn1]. apply iter_insert_excluded in E2 as (l2 & -> & Hl2 & Hn2).
  injection E as <-. cbn [audits with_audits with_cohort with_rows].
  set (s2 := with_rows (with_cohort s ((cohort s ++ map (fun m => cohort_of t c m 1) members) ++ l2)) (<[(t, c):=x]> (rows s))).
  assert (wf s2) as Hwf2.
  { apply preview_wf; [done|done|done| |done|done|done|done|by exists n]. apply Hn2. apply Hn1. apply Hwf. }
  eapply (kept_after l l s s2); [|exact (shifted_audit l t c "audience_previewed" (Some who)
    (VDict [("eligible_count", VInt (Z.of_nat (length members))); ("excluded_count", VInt (Z.of_nat (length exclusions)))]) now s2)].
  constructor; try (by left); try done.
  - intros e He. left. exists e. split_and!; [done|done|by left].
  - intros e He. by exists e.
  - intros k y Hy. exists y. split; [|apply same_plan_refl]. cbn. rewrite lookup_insert_ne; [done|]. intros <-. congruence.
  - intros k y w Hy Hw. cbn in Hy. destruct (decide (k = (t, c))) as [->|Hne].
    + rewrite lookup_insert_eq in Hy. injection Hy as <-. done.
    + rewrite lookup_insert_ne in Hy by congruence. left. by exists y.
Qed.

(** ** Taking an effect and giving it back *)

Definition hold_set (l : local) (h : hold) : local :=
  {| l_hold := h; l_knows := l_knows l; l_read := l_read l; l_auth := l_auth l |}.
Lemma choose_spec s l s0 :
  exists r, choose s l s0 = (s0, r) /\ forall e, r = Ok (Some e) -> e ∈ l.
Proof.
  induction l as [|e l IH]; cbn [choose]; [by exists (Ok None)|].
  unfold stm_bind. destruct (int_item _ "concurrency") as [n|er]; cbn [stm_result stm_ret stm_raise].
  2: { by exists (Err er). }
  case_match; [exists (Ok (Some e)); split; [done|]; intros e' [= <-]; left|].
  destruct IH as (r & E & Hr). exists r. split; [done|]. intros e' He'. right. by apply Hr.
Qed.
Lemma drainable_active x : c_in DRAINABLE x = true -> c_in ACTIVE x = true.
Proof.
  unfold c_in. rewrite !existsb_exists. intros (st & Hin & E). exists st. split; [|done].
  unfold ACTIVE, OPEN. cbn in *. tauto.
Qed.
Lemma bind_eq {A B} (m : cm A) (k : A -> cm B) s s' r :
  m s = (s', r) -> stm_bind m k s = match r with Ok a => k a s' | Err e => (s', Err e) end.
Proof. unfold stm_bind. by intros ->. Qed.
Lemma campaign_claim_cases w now lease t c s :
  wf s ->
  (exists r, claim_next w now lease t c s = (s, r) /\ forall e, r <> Ok (Some e))
  \/ exists e, e ∈ effects s /\ open e /\ authorised s (f_tenant e, f_campaign e)
     /\ claim_next w now lease t c s
        = ((write_status (f_tenant e) (f_campaign e) running now
              (update_effects (fun x => is_effect (effect_key e) x && f_in waiting x) (claim_effect w now lease) s).1).1,
           Ok (Some (claim_effect w now lease e))).
Proof.
  intros Hwf. unfold claim_next, transaction. rewrite (bind_eq stm_get _ s s (Ok s)) by done.
  destruct (choose_spec s (merge_sort (claim_order s) (List.filter (claimable t c now s) (effects s))) s) as (r & Ec & Hr).
  rewrite (bind_eq _ _ _ _ _ Ec). destruct r as [[e|]|er]; [|left; by eexists|left; by eexists].
  right. specialize (Hr e eq_refl). rewrite merge_sort_Permutation in Hr. apply in_filter in Hr as [He Hcl].
  unfold claimable in Hcl. rewrite !andb_true_iff, waiting_open in Hcl. destruct Hcl as ((((Ho & _) & Hc) & _) & _).
  exists e. split; [done|]. split; [done|]. destruct (campaign_of s e) as [x|] eqn:Ex; [|done].
  split; [exists x; split; [done|by apply (wf_active _ Hwf _ _ Ex), drainable_active]|].
  set (q := fun x => is_effect (effect_key e) x && f_in waiting x).
  assert (List.filter q (effects s) = [e]) as Hone.
  { apply (filter_one effect_key q); [apply Hwf|done| |].
    - unfold q, is_effect. rewrite bool_decide_eq_true_2 by done. by apply waiting_open.
    - intros y Hy Hq. unfold q, is_effect in Hq. apply andb_true_iff in Hq as [Hk%bool_decide_eq_true _].
      by apply (same_effect s). }
  rewrite (bind_eq (update_effects q (claim_effect w now lease)) _ s
             (update_effects q (claim_effect w now lease) s).1 (Ok 1%nat)) by (unfold update_effects; by rewrite Hone).
  cbn [Nat.eqb negb]. set (s1 := (update_effects _ _ s).1).
  rewrite (bind_eq (write_status (f_tenant e) (f_campaign e) running now) _ s1
             (write_status (f_tenant e) (f_campaign e) running now s1).1 (Ok 1%nat)); [done|].
  unfold write_status, update_campaign, s1. cbn. unfold campaign_of in Ex. by rewrite Ex.
Qed.
Lemma kept_claim l w now lease t c s :
  wf s -> held l = None ->
  kept l (match (claim_next w now lease t c s).2 with Ok (Some e) => hold_set l (Held (ident e)) | _ => l end)
    s (claim_next w now lease t c s).1.
Proof.
  intros Hwf Hl. destruct (campaign_claim_cases w now lease t c s Hwf) as [(r & -> & Hr)|(e & He & Ho & Ha & ->)]; cbn [fst snd].
  { destruct r as [[e|]|er]; [by destruct (Hr e)|by apply kept_refl|by apply kept_refl]. }
  set (q := fun x => is_effect (effect_key e) x && f_in waiting x).
  apply (kept_after l _ s (update_effects q (claim_effect w now lease) s).1).
  - apply kept_update; [done|by split_and!| |].
    + intros y _ Hy. split; [done|]. by intros [?|?].
    + intros x [= <-]. right. exists e. split_and!; try done; [|by intros [?|?]].
      unfold q, is_effect. rewrite bool_decide_eq_true_2 by done. by apply waiting_open.
  - apply shifted_status. right. exact Ha.
Qed.

(** Completing an effect the thread holds, or closing any effect. *)
Definition completing (e x : effect) : bool :=
  is_effect (effect_key e) x && f_in [e_claimed] x
  && match f_claimed_by e with Some w => bool_decide (f_claimed_by x = Some w) | None => false end.
Lemma kept_complete l e st reason provider nb counted now s :
  wf s -> present s l -> held l = Some (ident e) \/ st <> e_pending /\ st <> e_deferred ->
  kept l (hold_set l Idle) s (update_effects (completing e) (complete_row st reason provider nb counted now) s).1.
Proof.
  intros Hwf Hpr Hl. apply kept_update; [done|by split_and!| |done].
  intros y Hin Hy. split; [done|]. unfold completing, is_effect in Hy. rewrite !andb_true_iff, bool_decide_eq_true in Hy.
  destruct Hy as ((Hk & _) & _). intros Ho. destruct Hl as [Hl|[H1 H2]]; [right|by destruct Ho].
  split; [|done]. destruct (Hpr _ Hl) as (e0 & He0 & Hid & _).
  assert (y = e0) as -> by (apply (same_effect s); [done..|rewrite Hk; symmetry; by apply ident_key]). congruence.
Qed.

(** ** Rules for the programs *)

Abbreviation wpc := (wp invariant).

Lemma wp_atom {A B} l (next : result campaign_error A -> local) (m : cm A) (f : A -> cprog B) post :
  (forall s, wf s -> still s l -> present s l -> kept l (next (m s).2) s (m s).1) ->
  (forall a, wpc (next (Ok a)) (f a) post) -> (forall e, post (next (Err e)) (Err e)) ->
  wpc l (prog_bind (atom m) f) post.
Proof.
  intros Hm Hk He. exists next. split.
  - intros s a b g. apply kept_invariant, Hm.
  - intros [a|e]; cbn; [apply Hk|apply He].
Qed.
(** A statement after which the thread is where it was. *)
Lemma wp_same {A B} l (m : cm A) (f : A -> cprog B) post :
  (forall s, wf s -> still s l -> present s l -> kept l l s (m s).1) ->
  (forall a, wpc l (f a) post) -> (forall e, post l (Err e)) -> wpc l (prog_bind (atom m) f) post.
Proof. intros Hm Hk He. by apply (wp_atom l (fun _ => l)). Qed.
Lemma wp_last {A} l (m : cm A) (post : local -> result campaign_error A -> Prop) :
  (forall s, wf s -> still s l -> present s l -> kept l l s (m s).1) ->
  (forall r, post l r) -> wpc l (atom m) post.
Proof.
  intros Hm He. exists (fun _ => l). split; [|apply He]. intros s a b g. apply kept_invariant, Hm.
Qed.
Lemma wp_reading {A B} l (m : cm A) (f : A -> cprog B) post :
  (forall s, (m s).1 = s) -> (forall a, wpc l (f a) post) -> (forall e, post l (Err e)) ->
  wpc l (prog_bind (atom m) f) post.
Proof. intros Hm. apply wp_same. intros s Hwf _ _. rewrite Hm. by apply kept_refl. Qed.
Lemma get_state t c s : (get t c s).1 = s.
Proof. unfold get. by destruct (rows s !! (t, c)). Qed.

(** Reading a campaign, and remembering it. *)
Definition read (l : local) (k : string * string) (x : campaign) : local :=
  {| l_hold := l_hold l; l_knows := l_knows l; l_read := (k, x) :: l_read l; l_auth := l_auth l |}.
Definition found (l : local) (k : string * string) : local :=
  {| l_hold := l_hold l; l_knows := l_knows l; l_read := l_read l; l_auth := k :: l_auth l |}.
Lemma kept_told l l' s :
  wf s -> l_hold l' = l_hold l -> l_knows l' = l_knows l ->
  (forall k x, (k, x) ∈ l_read l' -> (k, x) ∈ l_read l \/ rows s !! k = Some x) ->
  (forall k, k ∈ l_auth l' -> k ∈ l_auth l \/ authorised s k) -> kept l l' s s.
Proof. intros Hwf. by apply shifted_kept, shifted_refl. Qed.
Lemma invariant_ask s ls g (ev : event (Q := question)) :
  sent_by ev = None -> invariant s ls g -> invariant s ls (g ++ [ev]).
Proof.
  intros Hn [I1 I2 I3 I4 I5 I6 I7 I8 I9].
  assert (sends (g ++ [ev]) = sends g) as Es by (unfold sends; rewrite omap_app; cbn; by rewrite Hn, app_nil_r).
  assert (forall x, x ∈ map ident (clearances g) -> x ∈ map ident (clearances (g ++ [ev]))) as Hc.
  { intros x Hx. unfold clearances. rewrite omap_app, map_app. set_solver. }
  assert (forall k, k ∈ grants g -> k ∈ grants (g ++ [ev])) as Hg.
  { intros k Hk. unfold grants. rewrite omap_app. set_solver. }
  constructor; rewrite ?Es; try done.
  - intros e He. destruct (I4 e He) as (? & ? & ?). auto.
  - intros l x Hl Hx. by apply Hc, (I6 l).
  - intros l k Hl Hk. by apply Hg, (I7 l).
  - intros k x who Hx Hw. destruct (I8 k x who Hx Hw) as (br & Hb & Hin). exists br. auto.
Qed.
(** A thread learns what is in the log. *)
Lemma invariant_told s a l l' b g :
  held l' = held l -> l_read l' = l_read l -> l_auth l' = l_auth l ->
  (forall x, l_hold l' = Cleared x -> l_hold l = Cleared x \/ x ∈ map ident (clearances g)) ->
  (forall k, k ∈ l_knows l' -> k ∈ l_knows l \/ k ∈ grants g) ->
  invariant s (a ++ l :: b) g -> invariant s (a ++ l' :: b) g.
Proof.
  intros Hh Hr Ha Hc Hk [I1 I2 I3 I4 I5 I6 I7 I8 I9].
  assert (omap held (a ++ l' :: b) = omap held (a ++ l :: b)) as E by (rewrite !omap_app; cbn; by rewrite Hh).
  assert (forall l0, l0 ∈ a ++ l' :: b -> l0 = l' \/ l0 ∈ a ++ l :: b) as Hin by set_solver.
  constructor; rewrite ?E; try done.
  - intros l0 x [->|Hl0]%Hin Hx; [|by apply (I6 l0)]. destruct (Hc x Hx) as [Hx'|]; [|done]. apply (I6 l); [set_solver|done].
  - intros l0 k [->|Hl0]%Hin Hx; [|by apply (I7 l0)]. destruct (Hk k Hx) as [Hx'|]; [|done]. apply (I7 l); [set_solver|done].
  - intros l0 [->|Hl0]%Hin; [|by apply I9]. destruct (I9 l ltac:(set_solver)) as [H1 H2].
    split; [by rewrite Hr|by rewrite Ha].
Qed.

Lemma wp_ask {A B} l (q : question A) (f : A -> cprog B) post :
  (forall x, sent_by (answered q x) = None) -> (forall x, wpc l (f x) post) -> wpc l (prog_bind (ask q) f) post.
Proof.
  intros Hq Hk x. exists l. split; [|apply Hk]. intros s a b g. by apply invariant_ask.
Qed.
Definition told (l : local) (k : option string * pyval) : local :=
  {| l_hold := l_hold l; l_knows := k :: l_knows l; l_read := l_read l; l_auth := l_auth l |}.
Lemma wp_permission {B} l who branch (f : bool -> cprog B) post :
  wpc l (f false) post -> wpc (told l (who, branch)) (f true) post ->
  wpc l (prog_bind (ask (Permission who branch)) f) post.
Proof.
  intros Hf Ht [|].
  - exists (told l (who, branch)). split; [|done]. intros s a b g H.
    apply (invariant_told _ _ l); [done..| | |by apply invariant_ask]; [by left|].
    intros k [->|Hk]%elem_of_cons; [right|by left]. unfold grants. rewrite omap_app. set_solver.
  - exists l. split; [|done]. intros s a b g. by apply invariant_ask.
Qed.
Lemma wp_eligibility {B} l e x (f : verdict -> cprog B) post :
  l_hold l = Held (ident e) -> (forall v, allowed v = false -> wpc l (f v) post) ->
  (forall v, allowed v = true -> wpc (hold_set l (Cleared (ident e))) (f v) post) ->
  wpc l (prog_bind (ask (Eligibility e x)) f) post.
Proof.
  intros Hl Hf Ht v. destruct (allowed v) eqn:E.
  - exists (hold_set l (Cleared (ident e))). split; [|by apply Ht]. intros s a b g H.
    apply (invariant_told _ _ l); [unfold held; cbn; by rewrite Hl|done..| | |by apply invariant_ask]; [|by left].
    intros y [= <-]. right. unfold clearances. rewrite omap_app, map_app. cbn. rewrite E. set_solver.
  - exists l. split; [|by apply Hf]. intros s a b g. by apply invariant_ask.
Qed.
(** The provider is called for an effect the thread holds and had cleared; it
    holds it no more, unless the limit refused it. *)
Definition dispatched (l : local) (o : outcome) : local :=
  match o with ThroughputExceeded _ => l | _ => hold_set l Idle end.
Lemma invariant_sent s a l b g e x o :
  l_hold l = Cleared (ident e) -> sent_by (answered (Dispatch e x) o) = Some e ->
  invariant s (a ++ l :: b) g -> invariant s (a ++ hold_set l Idle :: b) (g ++ [answered (Dispatch e x) o]).
Proof.
  intros Hl Hs [I1 I2 I3 I4 I5 I6 I7 I8 I9].
  assert (held l = Some (ident e)) as Hh by (unfold held; by rewrite Hl).
  apply held_distinct in I2 as [Hnd Hl'].
  assert (omap held (a ++ hold_set l Idle :: b) = omap held (a ++ b)) as Eh by (by rewrite !omap_app).
  assert (sends (g ++ [answered (Dispatch e x) o]) = sends g ++ [e]) as Es
    by (unfold sends; rewrite omap_app; f_equal; cbn [omap list_omap]; by rewrite Hs).
  assert (clearances (g ++ [answered (Dispatch e x) o]) = clearances g) as Ec by (unfold clearances; rewrite omap_app; cbn; by rewrite app_nil_r).
  assert (grants (g ++ [answered (Dispatch e x) o]) = grants g) as Eg by (unfold grants; rewrite omap_app; cbn; by rewrite app_nil_r).
  assert (forall l0, l0 ∈ a ++ hold_set l Idle :: b -> l0 = hold_set l Idle \/ l0 ∈ a ++ l :: b) as Hin by set_solver.
  constructor; rewrite ?Eh, ?Es, ?Ec, ?Eg; try done.
  - intros y Hy. apply I3, held_in. by right.
  - intros e0 [He0| ->%list_elem_of_singleton]%elem_of_app.
    + destruct (I4 e0 He0) as (Hno & Hrow & Hcl). split; [|by split]. intros Hy. apply Hno, held_in. by right.
    + split; [by apply Hl'|]. split; [|by apply (I6 l); [set_solver|]]. apply I3, held_in. by left.
  - rewrite map_app. apply NoDup_app. split; [done|]. split; [|apply NoDup_singleton].
    intros y (e0 & -> & He0)%list_elem_of_fmap Hy%list_elem_of_singleton. destruct (I4 e0 He0) as (Hno & _).
    apply Hno, held_in. left. by rewrite Hh, Hy.
  - intros l0 y [->|Hl0]%Hin Hy; [done|]. by apply (I6 l0).
  - intros l0 k [->|Hl0]%Hin Hy; [|by apply (I7 l0)]. apply (I7 l); [set_solver|done].
  - intros l0 [->|Hl0]%Hin; [|by apply I9]. apply (I9 l). set_solver.
Qed.
Lemma wp_dispatch {B} l e x (f : outcome -> cprog B) post :
  l_hold l = Cleared (ident e) -> (forall o, wpc (dispatched l o) (f o) post) ->
  wpc l (prog_bind (ask (Dispatch e x)) f) post.
Proof.
  intros Hl Hk o. exists (dispatched l o). split; [|apply Hk]. intros s a b g H.
  destruct o; first [by apply invariant_sent | by apply invariant_ask].
Qed.
Lemma wp_result {A B} l (r : result campaign_error A) (f : A -> cprog B) post :
  (forall a, r = Ok a -> wpc l (f a) post) -> (forall e, post l (Err e)) -> wpc l (prog_bind (of_result r) f) post.
Proof. intros Hk He. destruct r as [a|e]; cbn; [by apply Hk|apply He]. Qed.
Lemma wp_ensure {B} l b e (f : unit -> cprog B) post :
  (b = true -> wpc l (f tt) post) -> (forall e, post l (Err e)) -> wpc l (prog_bind (ensure b e) f) post.
Proof. intros Hk He. destruct b; cbn; [by apply Hk|apply He]. Qed.
Lemma wp_seq {A B} l (p : cprog A) (f : A -> cprog B) (l' : local) :
  wpc l p (fun l0 _ => l0 = l') -> (forall a, wpc l' (f a) anything) -> wpc l (prog_bind p f) anything.
Proof.
  intros Hp Hk. apply wp_bind. apply (wp_mono _ _ _ _ _ Hp). intros l0 [a|e] ->; [apply Hk|done].
Qed.

(** After reading a campaign. *)
Record has_read (l l' : local) (k : string * string) (x : campaign) : Prop := {
  hr_hold : l_hold l' = l_hold l;
  hr_auth : forall k', k' ∈ l_auth l -> k' ∈ l_auth l';
  hr_read : (k, x) ∈ l_read l';
  hr_active : c_in ACTIVE x = true -> k ∈ l_auth l';
}.
Lemma wp_get_any {B} l t c (f : campaign -> cprog B) post :
  (forall x l', has_read l l' (t, c) x -> wpc l' (f x) post) -> (forall e, post l (Err e)) ->
  wpc l (prog_bind (atom (get t c)) f) post.
Proof.
  intros Hk He.
  apply (wp_atom l (fun r => match r with
    | Ok x => if c_in ACTIVE x then found (read l (t, c) x) (t, c) else read l (t, c) x | Err _ => l end)); [|intros x|done].
  - intros s Hwf _ _. rewrite get_state. unfold get. destruct (rows s !! (t, c)) as [x|] eqn:Ex; cbn [snd]; [|by apply kept_refl].
    destruct (c_in ACTIVE x) eqn:E; apply kept_told; try done; cbn; try by left.
    + intros k y [[= -> ->]|Hin]%elem_of_cons; [by right|by left].
    + intros k [->|Hin]%elem_of_cons; [right|by left]. exists x. split; [done|]. by apply (wf_active _ Hwf (t, c)).
    + intros k y [[= -> ->]|Hin]%elem_of_cons; [by right|by left].
  - apply Hk. destruct (c_in ACTIVE x) eqn:E; constructor; try done; try (intros; by left); try congruence; intros k' Hk'; by right.
Qed.

(** ** The methods *)

Ltac neutral := first [apply wp_ask; [done|intros ?] | apply wp_result; [intros ? ?|done] | apply wp_ensure; [intros ?|done]
  | apply wp_reading; [done|intros ?|done]].

Lemma wp_preview l t c : wpc l (preview t c) (fun l' _ => l' = l).
Proof. unfold preview. apply wp_reading; [apply get_state| |done]. intros x. apply wp_reading; [done| |done]. done. Qed.
Lemma wp_create_preview l t c who def audience exclusions spend ttl :
  wpc l (create_preview t c who def audience exclusions spend ttl) anything.
Proof.
  unfold create_preview. neutral. neutral. neutral. apply wp_result; [intros ceiling Hc|done].
  apply wp_ensure; [intros Hle%Z.leb_le|done]. apply wp_same; [intros s Hwf _ _; by apply (kept_preview _ _ _ _ _ _ _ _ _ _ _ ceiling)| |done].
  intros _. by apply (wp_mono _ _ _ _ _ (wp_preview l t c)).
Qed.
Lemma wp_authorize l t c who : wpc l (authorize t c who) anything.
Proof.
  unfold authorize. neutral. apply wp_get_any; [|done]. intros y l1 [_ _ Hin _].
  apply wp_result; [intros branch Hb|done]. apply wp_permission; [done|].
  neutral. neutral. neutral. apply wp_ensure; [intros Henv%String.eqb_eq|done]. neutral. neutral. neutral. neutral.
  apply wp_same; [|intros _; by apply wp_last; [intros s Hwf _ _; rewrite get_state; by apply kept_refl|]|done].
  intros s Hwf Hst _. apply (kept_authorize _ _ _ _ _ _ _ _ _ y branch); try done. left.
Qed.

(** Writing a status, with the audit of it. *)
Lemma kept_status l t c st now s :
  wf s -> st ∉ ACTIVE \/ authorised s (t, c) -> kept l l s (write_status t c st now s).1.
Proof. intros Hwf Hst. apply shifted_kept; [done|by apply shifted_status|done|done|by left|by left]. Qed.
Lemma kept_audit l t c ev who d now s : wf s -> kept l l s (add_audit t c ev who d now s).1.
Proof. intros Hwf. apply shifted_kept; [done|apply shifted_audit|done|done|by left|by left]. Qed.
Lemma kept_seq {A B} l (m : cm A) (k : A -> cm B) s :
  kept l l s (m s).1 -> (forall a s', wf s' -> kept l l s' (k a s').1) -> kept l l s (stm_bind m k s).1.
Proof.
  intros H Hk. unfold stm_bind. destruct (m s) as [s' [a|e]]; [|done]. apply (kept_trans l s s'); [done|].
  apply Hk, H.
Qed.
Lemma kept_transaction {A} l (m : cm A) s : wf s -> kept l l s (m s).1 -> kept l l s (transaction m s).1.
Proof. intros Hwf. apply transaction_fst. by apply kept_refl. Qed.
Lemma wp_set_status l t c st name reason :
  st ∉ ACTIVE \/ (t, c) ∈ l_auth l -> wpc l (set_status t c st name reason) (fun l' _ => l' = l).
Proof.
  intros Hst. unfold set_status. neutral. apply wp_same; [| |done].
  - intros s Hwf [_ Hau] _. apply kept_status; [done|]. destruct Hst as [|H]; [by left|right; by apply Hau].
  - intros _. apply wp_last; [|done]. intros s Hwf _ _. by apply kept_audit.
Qed.
Ltac not_active := unfold ACTIVE, OPEN; set_solver.
Lemma wp_assert l t c def : wpc l (assert_envelope t c def) (fun l' _ => l' = l).
Proof.
  unfold assert_envelope. apply wp_reading; [apply get_state|intros x|done]. apply wp_reading; [done|intros stored|done].
  destruct (_ || _); [|done]. neutral. apply wp_same; [|done|done].
  intros s Hwf _ _. unfold invalidate. apply kept_transaction; [done|]. apply kept_seq; [apply kept_status; [done|left; not_active]|].
  intros _ s1 H1. apply kept_seq; [by apply kept_cancel|]. intros _ s2 H2. by apply kept_audit.
Qed.
Lemma wp_check l t c within :
  wpc l (check_authority t c within) (fun l' _ => l_hold l' = l_hold l /\ forall k, k ∈ l_auth l -> k ∈ l_auth l').
Proof.
  unfold check_authority. apply wp_get_any; [|done]. intros x l1 [Hh Ha Hin _]. neutral.
  apply wp_permission; [|done]. neutral. apply wp_same; [| |done].
  - intros s Hwf _ _. apply shifted_kept; [done| |done|done|by left|by left]. apply shifted_update.
    intros y Hy Hp. split; [by split_and!|]. split; [by left|]. intros _. left.
    unfold c_in in *. apply existsb_exists in Hp as (st & Hst & E). apply existsb_exists. exists st. split; [|done].
    unfold ACTIVE, OPEN, LIVE in *. cbn in *. tauto.
  - intros _. apply wp_same; [|done|done]. intros s Hwf _ _. by apply kept_audit.
Qed.
Lemma open_active x : c_in OPEN x = true -> c_in ACTIVE x = true.
Proof. unfold ACTIVE. cbn. intros ->. apply orb_true_r. Qed.
Lemma paused_active x : c_in [paused] x = true -> c_in ACTIVE x = true.
Proof. cbn. rewrite orb_false_r. by intros ->. Qed.
Lemma wp_late l t c v : wpc l (add_late_audience_member t c v) anything.
Proof.
  unfold add_late_audience_member. apply wp_get_any; [|done]. intros x l1 [_ _ Hin Hact].
  destruct (_ || negb (c_in OPEN x)) eqn:E; [done|]. apply orb_false_iff in E as [_ Ho%negb_false_iff].
  neutral. neutral. apply wp_result; [intros ceiling Hc|done]. neutral. apply wp_last; [|done].
  intros s Hwf Hst _. apply (kept_admit _ _ _ _ _ _ _ _ x); try done. by apply Hact, open_active.
Qed.

(** A status that ends the campaign's waiting effects. *)
Lemma kept_ending l t c st how reason now s :
  wf s -> st ∉ ACTIVE ->
  kept l l s (transaction (stm_bind (write_status t c st now) (fun _ =>
                stm_bind (cancel_waiting t c how reason now) (fun _ => stm_ret tt))) s).1.
Proof.
  intros Hwf Hst. apply kept_transaction; [done|]. apply kept_seq; [apply kept_status; [done|by left]|].
  intros _ s1 H1. apply kept_seq; [by apply kept_cancel|]. intros _ s2 H2. by apply kept_refl.
Qed.
Lemma wp_ending l t c st reason :
  st ∉ ACTIVE -> wpc l (now <- ask Clock ;; atom (prevent_rows t c st reason now))%prog (fun l' _ => l' = l).
Proof. intros Hst. neutral. apply wp_last; [|done]. intros s Hwf _ _. by apply kept_ending. Qed.
Definition grown (l l' : local) : Prop := l_hold l' = l_hold l /\ forall k, k ∈ l_auth l -> k ∈ l_auth l'.
Lemma wp_expire l t c now : wpc l (expire t c now) (fun l' _ => l' = l).
Proof.
  unfold expire. apply wp_reading; [apply get_state|intros x|done]. destruct (envelope_expires_at x) as [until|]; [|done].
  destruct (now <=? until); [done|]. apply wp_same; [|done|done]. intros s Hwf _ _. apply kept_ending; [done|not_active].
Qed.
Lemma wp_pause l t c who : wpc l (pause t c who) anything.
Proof.
  unfold pause. apply wp_get_any; [|done]. intros x l1 [_ _ _ Hact]. apply wp_ensure; [intros Ho|done].
  eapply wp_seq; [apply wp_set_status; right; by apply Hact, open_active|intros _]. neutral.
  apply wp_last; [|done]. intros s Hwf _ _. by apply kept_audit.
Qed.
Lemma wp_resume l t c who : wpc l (resume t c who) anything.
Proof.
  unfold resume. apply wp_get_any; [|done]. intros x l1 [_ _ _ Hact].
  apply wp_ensure; [intros [Ho _]%andb_true_iff|done].
  eapply wp_seq; [apply wp_set_status; right; by apply Hact, paused_active|intros _]. neutral.
  apply wp_last; [|done]. intros s Hwf _ _. by apply kept_audit.
Qed.
Lemma wp_reaffirm l t c who : wpc l (reaffirm t c who) anything.
Proof.
  unfold reaffirm. apply wp_get_any; [|done]. intros x l1 [_ _ Hin _].
  apply wp_result; [intros branch Hb|done]. destruct (reaffirm_by x) as [until|]; [|done].
  neutral. neutral. neutral. apply wp_permission; [done|]. neutral. apply wp_same; [| |done].
  - intros s Hwf [Hst _] _. destruct (Hst (t, c) x Hin) as (y & Hy & Hd & _).
    apply shifted_kept; [done| |done|done|by left|by left]. apply shifted_update. intros z Hz _.
    assert (z = y) as -> by congruence. split; [by split_and!|]. split; [right|right; by eexists].
    exists who, branch. split_and!; [done|cbn; congruence|left].
  - intros _. apply wp_same; [intros s Hwf _ _; by apply kept_audit|intros _|done].
    apply wp_last; [|done]. intros s Hwf _ _. rewrite get_state. by apply kept_refl.
Qed.
Lemma wp_finalize l t c : wpc l (finalize t c) (fun l' _ => l' = l).
Proof.
  unfold finalize. apply wp_reading; [done|intros es|done]. destruct (existsb _ es); [done|].
  apply wp_reading; [apply get_state|intros x|done]. destruct (c_in FINAL x); [done|].
  apply wp_bind. eapply wp_mono; [apply wp_set_status; left; destruct (existsb (f_in [e_uncertain]) es); not_active|].
  by intros l0 [a|e] ->.
Qed.
Lemma wp_reconcile l t c contact channel verdict provider :
  wpc l (reconcile_effect t c contact channel verdict provider) anything.
Proof.
  unfold reconcile_effect. neutral. apply wp_same; [intros s Hwf _ _; by apply kept_reconcile|intros n|done].
  destruct (Nat.eqb n 0); [done|]. eapply wp_seq; [apply wp_finalize|done].
Qed.

(** ** The worker *)

Lemma wp_complete l e st reason provider defer counted :
  held l = Some (ident e) \/ st <> e_pending /\ st <> e_deferred -> 
  wpc l (complete_effect e st reason provider defer counted)
    (fun l' r => match r with Ok _ => l' = hold_set l Idle | Err _ => True end).
Proof.
  intros Hl. unfold complete_effect. neutral. neutral. apply (wp_atom l (fun _ => hold_set l Idle)); [|done|done].
  intros s Hwf _ Hpr. by apply kept_complete.
Qed.
Lemma wp_completing {B} l e st reason provider defer counted (f : bool -> cprog B) :
  held l = Some (ident e) \/ st <> e_pending /\ st <> e_deferred ->
  (forall b, wpc (hold_set l Idle) (f b) anything) ->
  wpc l (prog_bind (complete_effect e st reason provider defer counted) f) anything.
Proof.
  intros Hl Hk. apply wp_bind. eapply wp_mono; [by apply wp_complete|]. intros l0 [b|er]; [intros ->; apply Hk|done].
Qed.
Definition refused (o : outcome) : bool := match o with ThroughputExceeded _ => true | _ => false end.
Lemma wp_settle l t c e o :
  (t, c) ∈ l_auth l -> (refused o = true -> held l = Some (ident e)) -> wpc l (settle t c e o) anything.
Proof.
  intros Hau Hl. unfold settle.
  destruct o; try (apply wp_completing; [by right|intros _]); try (by eapply wp_seq; [apply wp_finalize|done]); [| |done].
  - apply wp_completing; [left; by apply Hl|intros _]. eapply wp_seq; [apply wp_set_status; by right|done].
  - eapply wp_seq; [apply wp_ending; not_active|intros _]. eapply wp_seq; [apply wp_finalize|done].
Qed.
Lemma wp_attempt l w t c x e :
  (t, c) ∈ l_auth l -> l_hold l = Held (ident e) -> wpc l (attempt w t c x e) anything.
Proof.
  intros Hau Hl. assert (held l = Some (ident e)) as Hh by (unfold held; by rewrite Hl).
  unfold attempt. apply wp_eligibility; [done| |]; intros v Hv; rewrite Hv; cbn [negb].
  - destruct (defer_until v) as [until|]; [destruct (envelope_expires_at x) as [expires|]; [|done]; destruct (expires <? until)|];
      (apply wp_completing; [by left|intros _]); (eapply wp_seq; [first [apply wp_finalize|apply wp_set_status; by right]|done]).
  - set (l1 := hold_set l (Cleared (ident e))).
    assert (forall o, wpc l1 (settle t c e o) anything) as Hset by (intros o; by apply wp_settle).
    assert (wpc l1 (prog_bind (ask (Dispatch e x)) (settle t c e)) anything) as Hdis.
    { apply wp_dispatch; [done|]. intros o. apply wp_settle; [by destruct o|]. by destruct o. }
    destruct (has_throughput w); [|exact Hdis]. apply wp_ask; [done|]. intros [o|]; [apply Hset|exact Hdis].
Qed.
Lemma next_campaign_spec s k : wf s -> (next_campaign s).2 = Ok (Some k) -> authorised s k.
Proof.
  intros Hwf. cbn. set (l := merge_sort _ _). intros [= H]. destruct l as [|[k' x] l'] eqn:El; [done|]. injection H as <-.
  assert ((k', x) ∈ l) as Hin by (rewrite El; left). unfold l in Hin. rewrite merge_sort_Permutation in Hin.
  apply in_filter in Hin as [Hin%elem_of_map_to_list Ho]. exists x. split; [done|].
  by apply (wf_active _ Hwf k'), open_active.
Qed.
Lemma wp_tick l w : l_hold l = Idle -> wpc l (tick w) anything.
Proof.
  intros Hl. unfold tick. apply wp_ask; [done|intros now]. apply wp_same; [intros s Hwf _ _; by apply kept_recover|intros _|done].
  apply (wp_atom l (fun r => match r with Ok (Some k) => found l k | _ => l end)); [| |done].
  { intros s Hwf _ _. pose proof (fun k => next_campaign_spec s k Hwf) as Hk. unfold next_campaign in *. cbn [fst snd] in *.
    destruct (fst <$> head _) as [k|]; [|by apply kept_refl]. apply kept_told; try done; [by left|].
    intros k' [->|Hin]%elem_of_cons; [right; by apply Hk|by left]. }
  intros [[t c]|]; [|done]. set (l1 := found l (t, c)).
  apply wp_get_any; [|done]. intros x l2 [Hh2 Ha2 _ _].
  eapply wp_seq; [apply wp_assert|intros _]. apply wp_bind.
  eapply (wp_mono _ _ _ (fun l' _ => grown l2 l')).
  { destruct (checks_authority w); [apply wp_check|done]. }
  intros l3 [valid|er] [Hh3 Ha3]; [|done]. destruct valid; [cbn [negb]|done].
  assert (l_hold l3 = Idle /\ (t, c) ∈ l_auth l3) as [Hl3 Hau] by (split; [by rewrite Hh3, Hh2|apply Ha3, Ha2; left]).
  eapply wp_seq; [apply wp_expire|intros over]. destruct over; [done|].
  neutral. match goal with |- context [if ?b then _ else _] => destruct b end.
  { eapply wp_seq; [apply wp_ending; not_active|done]. }
  neutral. match goal with |- context [negb ?b] => destruct b end; cbn [negb].
  2: { eapply wp_seq; [apply wp_set_status; by right|done]. }
  eapply (wp_seq _ _ _ l3); [destruct (c_in _ x); [apply wp_set_status; by right|done]|intros _].
  apply (wp_atom l3 (fun r => match r with Ok (Some e) => hold_set l3 (Held (ident e)) | _ => l3 end)); [| |done].
  { intros s Hwf _ _. apply kept_claim; [done|]. unfold held. by rewrite Hl3. }
  intros [e|]; [by apply wp_attempt|]. eapply wp_mono; [apply wp_finalize|done].
Qed.

Lemma wp_method p : method p -> wpc idle p anything.
Proof.
  intros H. destruct H; apply (wp_forget _ _ _ (fun _ => True)); try (eapply wp_mono; [|done]).
  - apply wp_create_preview.
  - apply wp_authorize.
  - apply wp_assert.
  - apply wp_check.
  - apply wp_late.
  - apply wp_expire.
  - apply wp_pause.
  - apply wp_resume.
  - apply wp_reaffirm.
  - apply wp_ending. not_active.
  - apply wp_ending. not_active.
  - apply wp_finalize.
  - apply wp_reconcile.
  - apply (wp_last _ _ anything); [intros s Hwf _ _; by apply kept_recover|done].
  - unfold extend_envelope. apply (wp_reading _ _ _ anything); [apply get_state|done|done].
  - unfold report. apply (wp_reading _ _ _ anything); [apply get_state|intros ?|done]. by apply wp_reading.
  - apply wp_preview.
  - by apply wp_tick.
Qed.

(** ** What a campaign sends *)

Lemma invariant_empty : invariant no_campaigns [] [].
Proof.
  constructor; cbn; try (by intros ? H%elem_of_nil); [apply wf_empty|apply NoDup_nil_2|apply NoDup_nil_2|..];
    try (intros ? ? H; by apply elem_of_nil in H).
  intros k x who H. by rewrite lookup_empty in H.
Qed.
Lemma invariant_born s ls g : invariant s ls g -> invariant s (ls ++ [idle]) g.
Proof.
  intros [I1 I2 I3 I4 I5 I6 I7 I8 I9].
  assert (omap held (ls ++ [idle]) = omap held ls) as E by (by rewrite omap_app, app_nil_r).
  assert (forall l, l ∈ ls ++ [idle] -> l = idle \/ l ∈ ls) as Hin by set_solver.
  constructor; rewrite ?E; try done.
  - intros l x [->|Hl]%Hin; [done|by apply I6].
  - intros l k [->|Hl]%Hin Hk; [by apply elem_of_nil in Hk|by apply (I7 l)].
  - intros l [->|Hl]%Hin; [|by apply I9]. split; intros *; cbn; by intros ?%elem_of_nil.
Qed.
Lemma invariant_dead s a l b g : invariant s (a ++ l :: b) g -> invariant s (a ++ b) g.
Proof.
  intros [I1 I2 I3 I4 I5 I6 I7 I8 I9]. apply held_distinct in I2 as [I2 _].
  constructor; try done.
  - intros x Hx. apply I3, held_in. by right.
  - intros e He. destruct (I4 e He) as (Hno & H). split; [|done]. intros Hx. apply Hno, held_in. by right.
  - intros l0 x Hl0. apply I6. set_solver.
  - intros l0 x Hl0. apply I7. set_solver.
  - intros l0 Hl0. apply I9. set_solver.
Qed.
Lemma reachable_invariant y : reachable y -> exists ls, invariant (store_of y) ls (log y).
Proof.
  intros H. apply (system_sound invariant idle method wp_method invariant_born invariant_dead _ _ H).
  exists []. split; [constructor|apply invariant_empty].
Qed.

(** A send whose campaign, audience and permission are on record. *)
Record backed (y : system campaigns campaign_error question) (e : effect) (x : campaign) : Prop := {
  bk_campaign : campaign_of (store_of y) e = Some x;
  bk_permitted : exists who branch, authorized_by x = Some who /\ branch_of (definition x) = Ok branch
    /\ (Some who, branch) ∈ grants (log y);
  bk_cleared : ident e ∈ map ident (clearances (log y));
  bk_audience : exists r, r ∈ sent_rows (f_tenant e) (f_campaign e) (store_of y)
    /\ cohort_key r = effect_key e /\ h_address r = f_address e;
  bk_envelope : envelope_hash x = _hash (envelope (definition x) (_hash (definition x))
                  (stored_cohort (f_tenant e) (f_campaign e) (store_of y)));
}.
Lemma sent_backed y ls e : invariant (store_of y) ls (log y) -> e ∈ sends (log y) -> exists x, backed y e x.
Proof.
  intros [I1 I2 I3 I4 I5 I6 I7 I8 I9] He. destruct (I4 e He) as (_ & (e' & He' & Hid & _) & Hc).
  destruct (wf_grounded _ I1 e' He') as (x & Hx & [who Hw] & r & Hr & Hk & Ha & Hi).
  assert (effect_key e' = effect_key e) as Hke by by apply ident_key.
  assert (f_address e' = f_address e) as Hae by (by apply (f_equal snd) in Hid).
  pose proof Hke as Hkc. unfold effect_key in Hkc. injection Hkc as Et Ec _ _.
  assert (rows (store_of y) !! (f_tenant e, f_campaign e) = Some x) as Hx' by (unfold campaign_of in Hx; congruence).
  exists x. constructor.
  - exact Hx'.
  - destruct (I8 _ x who Hx' Hw) as (branch & Hb & Hg). by exists who, branch.
  - done.
  - exists r. rewrite Hk, Ha. split_and!; [|done|done]. apply in_filter. split; [|by apply negb_true_iff, Z.eqb_neq].
    apply in_cohort_rows. unfold cohort_key in Hk. rewrite Hke in Hk. injection Hk as -> -> _ _. done.
  - destruct (wf_envelope _ I1 _ _ _ Hx') as (H1 & H2 & H3). congruence.
Qed.
Lemma sends_distinct (y : system campaigns campaign_error question) ls : invariant (store_of y) ls (log y) -> NoDup (map effect_key (sends (log y))).
Proof.
  intros [I1 I2 I3 I4 I5 I6 I7 I8 I9].
  assert (forall e, e ∈ sends (log y) -> exists e', e' ∈ effects (store_of y) /\ ident e' = ident e) as Hrow.
  { intros e He. destruct (I4 e He) as (_ & (e' & He' & Hid & _) & _). by exists e'. }
  clear I4. revert I5 Hrow. generalize (sends (log y)) as l. induction l as [|e l IH]; intros Hn Hrow; [constructor|].
  cbn in *. apply NoDup_cons in Hn as [He Hn]. apply NoDup_cons. split; [|apply IH; [done|intros e0 H0; apply Hrow; by right]].
  intros (e1 & Hk & He1)%list_elem_of_fmap. apply He, list_elem_of_fmap. exists e1. split; [|done].
  destruct (Hrow e ltac:(left)) as (a & Ha & Ea). destruct (Hrow e1 ltac:(by right)) as (b & Hb & Eb).
  assert (a = b) as -> by (apply (same_effect (store_of y)); [done..|];
    rewrite (ident_key _ _ Ea), (ident_key _ _ Eb); done). congruence.
Qed.

(** C10. However many workers drain the campaigns and operators act on them, in
    every interleaving, with every answer of the provider and with threads dying
    at any point: no contact of a campaign is handed to the provider twice over
    one channel; every message handed over has an effect that eligibility
    cleared, an audience row with the same address, and a campaign authorised by
    someone who was granted permission on the branch of its definition, whose
    envelope hash binds the definition and the stored cohort; and a campaign
    sends at most its definition's audience ceiling. *)
Theorem one_message_each y :
  reachable y ->
  NoDup (map effect_key (sends (log y)))
  /\ (forall e, e ∈ sends (log y) -> exists x, backed y e x)
  /\ forall t c x, rows (store_of y) !! (t, c) = Some x ->
       exists ceiling, int_item (definition x) "audience_ceiling" = Ok ceiling
         /\ Z.of_nat (length (List.filter (in_campaign t c) (sends (log y)))) <= ceiling.
Proof.
  intros [ls H]%reachable_invariant. pose proof (sends_distinct y ls H) as Hnd.
  split; [done|]. split; [intros e; by apply (sent_backed y ls)|]. intros t c x Hx.
  destruct (wf_ceiling _ (in_wf _ _ _ H) t c x Hx) as (n & Hn & Hle). exists n. split; [done|].
  etrans; [|exact Hle]. apply inj_le. rewrite <- (length_map effect_key), <- (length_map cohort_key (sent_rows _ _ _)).
  apply List.NoDup_incl_length.
  - apply NoDup_ListNoDup. by apply NoDup_map_filter.
  - intros k Hk%list_elem_of_In. apply list_elem_of_In. apply list_elem_of_fmap in Hk as (e & -> & [He Hin]%in_filter).
    destruct (sent_backed y ls e H He) as (x' & [_ _ _ (r & Hr & Hk & _) _]).
    unfold in_campaign in Hin. apply andb_true_iff in Hin as [Et%String.eqb_eq Ec%String.eqb_eq].
    rewrite Et, Ec in Hr. apply list_elem_of_fmap. by exists r.
Qed.

(** Two workers drain a campaign of one previewed contact and one admitted
    later, turn by turn. *)
Definition demo_definition : pyval := VDict [
  ("audience_rule", VDict [("branch_id", VStr "b1")]); ("content", VStr "hello"); ("channels", VList [VStr "sms"]);
  ("senders", VDict []); ("schedule", VDict [("starts_at", VInt 0); ("ends_at", VInt 900)]); ("frequency", VNone);
  ("budget_micros", VInt 50); ("concurrency", VInt 2); ("duration_seconds", VInt 900); ("stop_conditions", VList []);
  ("include_late_arrivals", VBool true); ("audience_ceiling", VInt 2)].
Definition demo_member (contact : string) : pyval := VDict [
  ("contact_id", VStr contact); ("channel", VStr "sms"); ("address_id", VStr ("address of " +:+ contact));
  ("branch_id", VStr "b1"); ("masked_destination", VStr "***")].
Definition demo_worker (name : string) : worker :=
  {| worker_id := name; checks_authority := true; has_throughput := true; lease_seconds := 60 |}.
(** Everything is granted; a recipient is in quiet hours while fewer than
    [quiet] answers were given. *)
Definition answers (quiet : nat) : oracle (Q := question) := fun B q n =>
  match q in question B return B with
  | Clock => Z.of_nat n
  | Permission _ _ => true
  | Eligibility _ _ => if (n <? quiet)%nat then {| allowed := false; why := Some "quiet_hours"; defer_until := Some (Z.of_nat n) |}
                       else {| allowed := true; why := None; defer_until := None |}
  | Acquire _ _ => None
  | Dispatch _ _ => Delivered (Some "SM1")
  | EmergencyStopped _ => false
  | ConnectionAvailable _ _ => true
  end.
Definition turns (n : nat) (who : list nat) : list (move campaigns campaign_error question) :=
  concat (replicate n (map Turn who)).
Definition demo_start : list (move campaigns campaign_error question) :=
  Launch (forget (create_preview "t" "c" "ann" demo_definition [demo_member "bob"] [] 7 100)) :: turns 4 [0%nat]
  ++ Launch (forget (authorize "t" "c" "ann")) :: turns 5 [1%nat].
Definition demo (quiet : nat) (l : list (move campaigns campaign_error question)) : system campaigns campaign_error question :=
  fold_left (play (answers quiet)) (demo_start ++ l) {| store_of := no_campaigns; pool := []; log := [] |}.
Definition two_workers : list (move campaigns campaign_error question) :=
  Launch (forget (add_late_audience_member "t" "c" (demo_member "eve"))) :: turns 3 [2%nat]
  ++ Launch (forget (tick (demo_worker "w1"))) :: Launch (forget (tick (demo_worker "w2"))) :: turns 22 [3%nat; 4%nat].
Lemma campaign_demo_reachable quiet l :
  Forall (fun v => match v with Launch p => method p | Turn _ => True end) l -> reachable (demo quiet l).
Proof.
  intros H. apply play_reach. apply Forall_app. split; [|done].
  repeat constructor.
Qed.
Lemma turns_fine n who : Forall (fun v => match v with Launch p => method p | Turn _ => True end) (turns n who).
Proof.
  unfold turns. induction n as [|n IH]; [constructor|]. cbn. apply Forall_app. split; [|done]. clear IH; induction who; by constructor.
Qed.
Lemma one_message_each_witness :
  map effect_key (sends (log (demo 0 two_workers))) = [("t", "c", "bob", "sms"); ("t", "c", "eve", "sms")]
  /\ NoDup (map effect_key (sends (log (demo 0 two_workers)))).
Proof.
  split; [by vm_compute|]. apply (one_message_each (demo 0 two_workers)), campaign_demo_reachable.
  repeat first [apply Forall_app; split | apply turns_fine | constructor].
Defined.

(** A stopped campaign that sends: a worker that held an effect when the
    operator stopped the campaign defers it and writes the campaign's status over
    [stopped]; the next worker sends the effect. *)
Definition stopping : list (move campaigns campaign_error question) :=
  Launch (forget (tick (demo_worker "w1"))) :: turns 12 [2%nat]
  ++ Launch (forget (stop "t" "c" "operator")) :: turns 2 [3%nat].
Definition after_stop : list (move campaigns campaign_error question) :=
  turns 6 [2%nat] ++ Launch (forget (tick (demo_worker "w2"))) :: turns 20 [4%nat].
Definition status_in (y : system campaigns campaign_error question) : option campaign_status :=
  c_status <$> rows (store_of y) !! ("t", "c").
Example stopped_campaign_sends :
  reachable (demo 8 (stopping ++ after_stop))
  /\ status_in (demo 8 stopping) = Some stopped /\ sends (log (demo 8 stopping)) = []
  /\ map effect_key (sends (log (demo 8 (stopping ++ after_stop)))) = [("t", "c", "bob", "sms")].
Proof.
  split; [|by vm_compute]. apply campaign_demo_reachable.
  repeat first [apply Forall_app; split | apply turns_fine | constructor].
Qed.
