(* ===== verification/SessionProofs.v ===== *)
(** * What a session stands for

    Theorems about Sessions.v: the SQLite and the PostgreSQL repositories are the
    same machine while clocks go forward, and what a person approves in a session
    goes back to an identity proof their key signed. *)

From stdpp Require Import gmap.
From Stdlib Require Import QArith.
From S2P Require Import Prelude Rows PyValue Json Sha256 Base64 Signing SigningProofs Actions ActionProofs Broker BrokerProofs Sessions.
Local Close Scope Q_scope.
Local Open Scope Z_scope.

(** ** Two repositories, one behaviour *)

Definition times (c : Sessions.call) : list Q :=
  match c with
  | Post _ _ now1 now2 _ _ | Delete _ _ now1 now2 => [now1; now2]
  | Get _ now | Resolve _ now _ | Attest _ now | Attestation _ now _ | Count now => [now]
  | Csrf _ _ => []
  end.
Definition readings (cs : list Sessions.call) : list Z := map trunc (concat (map times cs)).
(** The principals that ask for a session. *)
Definition named (c : Sessions.call) : option string :=
  match c with
  | Post body _ _ _ _ _ =>
      match PyValue.get (as_mapping (PyValue.get (as_mapping body) "assertion")) "principal_id" with
      | VStr p => Some p
      | _ => None
      end
  | _ => None
  end.

Record row_ok (t : Z) (r : session_row) : Prop := {
  ro_created : 1 <= created_at r <= t;
  ro_seen : created_at r <= last_seen_at r;
  ro_authenticated : exists a, authenticated_at r = Some a /\ created_at r <= a;
  ro_absolute : created_at r < absolute_expires_at r;
  ro_revoked : forall x, revoked_at r = Some x -> created_at r <= x;
}.
Definition store_ok (t : Z) (s : store) : Prop := map_Forall (fun _ r => row_ok t r) (web_sessions s).

Lemma row_later t t' r : t <= t' -> row_ok t r -> row_ok t' r.
Proof. intros Hle []. constructor; try done. lia. Qed.
Lemma store_later t t' s : t <= t' -> store_ok t s -> store_ok t' s.
Proof. intros Hle H h r Hr. apply (row_later t); [done|]. by apply (H h). Qed.
Lemma live_row_ok t s sid r : store_ok t s -> live s sid = Some r -> row_ok t r.
Proof.
  unfold live. intros H. destruct (web_sessions s !! _hash sid) as [r'|] eqn:E; [|done]. destruct (live_row r'); [|done].
  intros [= ->]. by apply (H (_hash sid)).
Qed.
Lemma put_ok t s sid r : store_ok t s -> row_ok t r -> store_ok t (put s sid r).
Proof. intros H Hr. apply map_Forall_insert_2; done. Qed.
Lemma checks_ok t r : row_ok t r -> Postgres.row_checks r = true.
Proof.
  intros [H1 H2 (a & Ha & Hle) H4 H5]. unfold Postgres.row_checks. rewrite Ha.
  rewrite (proj2 (Z.leb_le _ _) H2), (proj2 (Z.leb_le _ _) Hle), (proj2 (Z.ltb_lt _ _) H4). cbn [andb].
  destruct (revoked_at r) as [x|]; [by apply Z.leb_le, H5|done].
Qed.
Lemma write_ok t s sid r : row_ok t r -> Postgres.write sid r s = (put s sid r, Ok tt).
Proof. intros H. unfold Postgres.write. by rewrite (checks_ok t). Qed.

Section agree.
Context {E : Ed25519} (ttl : terms) (known : string -> bool).
Hypothesis term : 0 < absolute_ttl_seconds ttl.
Let L := Sqlite.repository.
Let P := Postgres.repository known.

Lemma revoked_ok t n r : t <= n -> row_ok t r -> row_ok n (set_revoked r n).
Proof. intros Hle []. constructor; cbn; try done; [lia|]. intros x [= <-]. lia. Qed.
Lemma seen_ok t n r : t <= n -> row_ok t r -> row_ok n (set_seen r n).
Proof. intros Hle []. constructor; cbn; try done; lia. Qed.
Lemma authenticated_ok t n r : t <= n -> row_ok t r -> row_ok n (set_authenticated r n).
Proof. intros Hle []. constructor; cbn; try done; [lia|lia|]. exists n. split; [done|lia]. Qed.
Lemma new_row_ok n p c : 1 <= n -> row_ok n (new_row p c n (n + absolute_ttl_seconds ttl)).
Proof. intros Hn. constructor; cbn; try done; try lia. by exists n. Qed.

(** An update of a live row. *)
Lemma update_agrees t n s sid f :
  t <= n -> store_ok t s -> (forall r, row_ok t r -> row_ok n (f r)) ->
  Postgres.update_live sid f s = match live s sid with Some r => (put s sid (f r), Ok true) | None => (s, Ok false) end
  /\ store_ok n (Postgres.update_live sid f s).1.
Proof.
  intros Hle Hs Hf. unfold Postgres.update_live, stm_bind, stm_get, stm_ret. destruct (live s sid) as [r|] eqn:El.
  - pose proof (live_row_ok t s sid r Hs El) as Hr. rewrite (write_ok n) by by apply Hf. split; [done|]. cbn.
    apply put_ok; [by apply (store_later t)|by apply Hf].
  - split; [done|]. by apply (store_later t).
Qed.
Lemma transaction_same {A} (m : sm A) s s' a : m s = (s', Ok a) -> transaction m s = (s', Ok a).
Proof. unfold transaction. by intros ->. Qed.
Lemma revoke_agrees t n s sid :
  t <= n -> store_ok t s -> revoke (SessionStore := L) sid n s = revoke (SessionStore := P) sid n s
  /\ store_ok n (revoke (SessionStore := L) sid n s).1.
Proof.
  intros Hle Hs. cbn. unfold Sqlite.revoke, Postgres.revoke. destruct (given sid) as [k|]; [|split; [done|by apply (store_later t)]].
  destruct (update_agrees t n s k (fun r => set_revoked r n) Hle Hs) as [E1 E2]; [intros r; by apply revoked_ok|].
  unfold Sqlite.revoke_live. destruct (live s k) as [r|]; rewrite E1 in E2; rewrite (transaction_same _ _ _ _ E1); done.
Qed.
Lemma resolve_agrees t n s sid touch :
  t <= n -> store_ok t s -> resolve (SessionStore := L) ttl sid n touch s = resolve (SessionStore := P) ttl sid n touch s
  /\ store_ok n (resolve (SessionStore := L) ttl sid n touch s).1.
Proof.
  intros Hle Hs. cbn. unfold Sqlite.resolve, Postgres.resolve. destruct (given sid) as [k|]; [|split; [done|by apply (store_later t)]].
  unfold transaction, stm_bind, stm_get, stm_ret.
  destruct (live s k) as [r|] eqn:El; [|split; [done|by apply (store_later t)]].
  pose proof (live_row_ok t s k r Hs El) as Hr. assert (store_ok n s) as Hn by by apply (store_later t).
  destruct (is_expired ttl r n).
  - rewrite (write_ok n) by by apply (revoked_ok t). split; [done|]. apply put_ok; [done|by apply (revoked_ok t)].
  - destruct (touch && negb (Z.eqb n (last_seen_at r))); [|done].
    rewrite (write_ok n) by by apply (seen_ok t). split; [done|]. apply put_ok; [done|by apply (seen_ok t)].
Qed.
Lemma attest_agrees t n s sid :
  t <= n -> store_ok t s -> attest_authentication (SessionStore := L) sid n s = attest_authentication (SessionStore := P) sid n s
  /\ store_ok n (attest_authentication (SessionStore := L) sid n s).1.
Proof.
  intros Hle Hs. cbn. unfold Sqlite.attest_authentication, Postgres.attest_authentication.
  destruct (update_agrees t n s sid (fun r => set_authenticated r n) Hle Hs) as [E1 E2]; [intros r; by apply authenticated_ok|].
  destruct (live s sid) as [r|]; rewrite E1 in E2; rewrite (transaction_same _ _ _ _ E1); done.
Qed.
Lemma attestation_agrees t n s sid f :
  store_ok t s -> authentication_attestation (SessionStore := L) sid n f s = authentication_attestation (SessionStore := P) sid n f s.
Proof.
  intros Hs. cbn. unfold Sqlite.authentication_attestation, Postgres.authentication_attestation.
  destruct (live s sid) as [r|] eqn:El; [|done]. destruct (live_row_ok t s sid r Hs El) as [H1 _ (a & Ha & Hle) _ _].
  unfold Sqlite.authenticated_or_created. rewrite Ha. rewrite (proj2 (Z.eqb_neq a 0)) by lia. done.
Qed.
Lemma login_agrees t n s p proof prev sid csrf :
  t <= n -> 1 <= t -> store_ok t s -> known p = true ->
  create (SessionStore := L) ttl p proof n prev sid csrf s = create (SessionStore := P) ttl p proof n prev sid csrf s
  /\ store_ok n (create (SessionStore := L) ttl p proof n prev sid csrf s).1.
Proof.
  intros Hle Hone Hs Hk. cbn. unfold Sqlite.create, Postgres.create, transaction, stm_bind, stm_ret.
  unfold Sqlite.consume_proof, Postgres.consume_proof. assert (store_ok n s) as Hn by by apply (store_later t).
  destruct (consumed_identity_proofs s !! _hash proof); [done|].
  set (s1 := with_proofs s _). assert (store_ok t s1) as Hs1 by done.
  assert (forall s2, store_ok n s2 ->
    Sqlite.insert_session sid (new_row p csrf n (n + absolute_ttl_seconds ttl)) s2
    = Postgres.insert_session known sid (new_row p csrf n (n + absolute_ttl_seconds ttl)) s2
    /\ store_ok n (Sqlite.insert_session sid (new_row p csrf n (n + absolute_ttl_seconds ttl)) s2).1) as Hins.
  { intros s2 H2. unfold Sqlite.insert_session, Postgres.insert_session.
    rewrite (checks_ok n) by (apply new_row_ok; lia). cbn [negb]. destruct (web_sessions s2 !! _hash sid); [done|].
    cbn [new_row principal_id]. rewrite Hk. split; [done|]. apply put_ok; [done|apply new_row_ok; lia]. }
  destruct (given prev) as [q|].
  - destruct (update_agrees t n s1 q (fun r => set_revoked r n) Hle Hs1) as [E1 E2]; [intros r; by apply revoked_ok|].
    unfold Sqlite.revoke_live. rewrite E1 in *. destruct (live s1 q) as [r|]; cbn [fst] in E2.
    + destruct (Hins _ E2) as [<- H3]. by destruct (Sqlite.insert_session _ _ _) as [s3 [u|e]].
    + destruct (Hins _ E2) as [<- H3]. by destruct (Sqlite.insert_session _ _ _) as [s3 [u|e]].
  - destruct (Hins s1) as [<- H3]; [done|]. by destruct (Sqlite.insert_session _ _ _) as [s3 [u|e]].
Qed.

(** One call at a time. *)
Lemma post_agrees t body cookie now1 now2 sid csrf s :
  1 <= t <= trunc now2 -> store_ok t s ->
  (forall p, named (Post body cookie now1 now2 sid csrf) = Some p -> known p = true) ->
  do_POST (R := L) ttl body cookie now1 now2 sid csrf s = do_POST (R := P) ttl body cookie now1 now2 sid csrf s
  /\ store_ok (trunc now2) (do_POST (R := L) ttl body cookie now1 now2 sid csrf s).1.
Proof.
  intros Ht Hs Hk. assert (store_ok (trunc now2) s) as Hn by (apply (store_later t); [lia|done]).
  unfold named in Hk. unfold do_POST. destruct (PyValue.get (as_mapping body) "assertion") as [| | | | |d]; try done.
  cbn [as_mapping] in Hk. destruct (verify_session_assertion d _ now1) as [v|[]]; try done.
  destruct (PyValue.get d "principal_id") as [| | |p| |]; try done.
  destruct (login_agrees t (trunc now2) s p (_proof_fingerprint d) cookie sid csrf) as [E1 E2]; [lia|lia|done|by apply Hk|].
  unfold L, P in *. rewrite <- E1. by destruct (create _ _ _ _ _ _ _ s) as [s' [c|[]]].
Qed.
Lemma show_agrees t cookie now s :
  t <= trunc now -> store_ok t s ->
  do_GET (R := L) ttl cookie now s = do_GET (R := P) ttl cookie now s
  /\ store_ok (trunc now) (do_GET (R := L) ttl cookie now s).1.
Proof.
  intros Ht Hs. unfold do_GET, stm_bind. destruct (resolve_agrees t (trunc now) s cookie true Ht Hs) as [E1 E2].
  rewrite <- E1. by destruct (resolve _ _ _ _ s) as [s' [[c|]|e]].
Qed.
Lemma delete_agrees t cookie csrf now1 now2 s :
  t <= trunc now1 -> trunc now1 <= trunc now2 -> store_ok t s ->
  do_DELETE (R := L) ttl cookie csrf now1 now2 s = do_DELETE (R := P) ttl cookie csrf now1 now2 s
  /\ store_ok (trunc now2) (do_DELETE (R := L) ttl cookie csrf now1 now2 s).1.
Proof.
  intros Ht Hle Hs. unfold do_DELETE, stm_bind. destruct (resolve_agrees t (trunc now1) s cookie true Ht Hs) as [E1 E2].
  rewrite <- E1. destruct (resolve _ _ _ _ s) as [s' [[c|]|e]]; cbn [fst] in E2;
    try (split; [done|by apply (store_later (trunc now1))]).
  cbn. unfold Sqlite.csrf_matches, Postgres.csrf_matches. destruct (csrf_of cookie csrf s'); cbn.
  - destruct (revoke_agrees (trunc now1) (trunc now2) s' cookie Hle E2) as [E3 E4]. cbn in E3, E4. rewrite <- E3.
    by destruct (Sqlite.revoke _ _ s') as [s2 [b|e]].
  - split; [done|by apply (store_later (trunc now1))].
Qed.
Lemma through_same {A} (m m' : sm A) (f : result session_error A -> reply) s n :
  m s = m' s /\ store_ok n (m s).1 -> through m f s = through m' f s /\ store_ok n (through m f s).1.
Proof. unfold through. intros [<- H]. by destruct (m s). Qed.
Lemma exec_agrees t c s :
  1 <= t -> StronglySorted Z.le (t :: map trunc (times c)) -> store_ok t s ->
  (forall p, named c = Some p -> known p = true) ->
  exec L ttl c s = exec P ttl c s /\ store_ok (List.last (map trunc (times c)) t) (exec L ttl c s).1.
Proof.
  intros Ht Hsort Hs Hk. apply StronglySorted_inv in Hsort as [Hsort Hall]. rewrite Forall_forall in Hall.
  destruct c; cbn [times map List.last] in *; cbn [exec]; apply through_same.
  - apply (post_agrees t); [|done|done]. split; [done|]. apply Hall. set_solver.
  - apply show_agrees with t; [|done]. apply Hall. set_solver.
  - apply delete_agrees with t; [apply Hall; set_solver| |done].
    apply StronglySorted_inv in Hsort as [_ H]. by inversion H.
  - apply resolve_agrees with t; [|done]. apply Hall. set_solver.
  - done.
  - apply attest_agrees with t; [|done]. apply Hall. set_solver.
  - split; [by apply (attestation_agrees t)|]. apply (store_later t); [|done]. apply Hall. set_solver.
  - split; [done|]. apply (store_later t); [|done]. apply Hall. set_solver.
Qed.
Lemma sorted_split (t : Z) l1 l2 : StronglySorted Z.le (t :: l1 ++ l2) ->
  StronglySorted Z.le (t :: l1) /\ StronglySorted Z.le (List.last l1 t :: l2).
Proof.
  revert t. induction l1 as [|x l1 IH]; intros t H; [split; [repeat constructor|done]|].
  apply StronglySorted_inv in H as [H1 H2]. destruct (IH x H1) as [H3 H4]. split.
  - constructor; [done|]. apply Forall_forall. intros y Hy. apply (proj1 (Forall_forall _ _) H2).
    apply elem_of_cons in Hy as [->|Hy]; [left|]. right. apply elem_of_app. by left.
  - destruct l1 as [|y l1]; [done|]. change (List.last (x :: y :: l1) t) with (List.last (y :: l1) t).
    replace (List.last (y :: l1) t) with (List.last (y :: l1) x); [done|]. clear.
    revert y. induction l1 as [|z l1 IH]; intros y; [done|]. apply (IH z).
Qed.
Lemma serve_agrees t cs s :
  1 <= t -> StronglySorted Z.le (t :: readings cs) -> store_ok t s ->
  (forall c p, c ∈ cs -> named c = Some p -> known p = true) ->
  serve L ttl cs s = serve P ttl cs s.
Proof.
  revert t s. induction cs as [|c cs IH]; intros t s Ht Hsort Hs Hk; [done|]. unfold readings in Hsort. cbn [map concat] in Hsort.
  rewrite map_app in Hsort. apply sorted_split in Hsort as [H1 H2]. cbn [serve].
  destruct (exec_agrees t c s Ht H1 Hs) as [E1 E2]; [intros p; apply Hk; left|]. rewrite <- E1.
  destruct (exec L ttl c s) as [s1 r]. cbn [fst] in E2.
  rewrite (IH (List.last (map trunc (times c)) t) s1); [done| |done|done|].
  - clear -Ht H1. apply StronglySorted_inv in H1 as [_ H1]. induction H1 as [|x l Hx Hl IH]; [done|].
    destruct l as [|y l]; [cbn; lia|done].
  - intros c' p Hc. apply Hk. by right.
Qed.
End agree.

(** C15. The two session repositories are one machine.  With clocks that never
    go back, sessions that last, and principals PostgreSQL knows, any history of
    the handler's requests and of the other services' calls gets the same
    replies from [SessionRepository] and [PostgresSessionRepository] and leaves
    the same rows: none of the table's checks is ever tripped. *)
Theorem postgres_sessions_agree {E : Ed25519} ttl known cs :
  0 < absolute_ttl_seconds ttl ->
  StronglySorted Z.le (1 :: readings cs) ->
  (forall c p, c ∈ cs -> named c = Some p -> known p = true) ->
  serve Sqlite.repository ttl cs no_sessions = serve (Postgres.repository known) ttl cs no_sessions.
Proof. intros H1 H2 H3. apply (serve_agrees ttl known H1 1); done. Qed.

(** ** What a row goes back to *)

(** Nothing but the time it was seen and its revocation has changed. *)
Definition kin (r r' : session_row) : Prop :=
  principal_id r' = principal_id r /\ csrf_hash r' = csrf_hash r /\ created_at r' = created_at r
  /\ absolute_expires_at r' = absolute_expires_at r /\ authenticated_at r' = authenticated_at r.
Definition keeps (s s' : store) : Prop :=
  forall h r', web_sessions s' !! h = Some r' -> exists r, web_sessions s !! h = Some r /\ kin r r'.
#[global] Instance keeps_preorder : PreOrder keeps.
Proof.
  split; [intros s h r H; exists r; done|]. intros a b c H1 H2 h r Hr.
  destruct (H2 h r Hr) as (r2 & H3 & K2). destruct (H1 h r2 H3) as (r1 & H4 & K1). exists r1. split; [done|].
  unfold kin in *. by destruct K2 as (-> & -> & -> & -> & ->).
Qed.
Lemma live_lookup s sid r : live s sid = Some r -> web_sessions s !! _hash sid = Some r.
Proof. unfold live. destruct (web_sessions s !! _) as [r'|]; [|done]. destruct (live_row r'); [|done]. by intros [= ->]. Qed.
Lemma put_keeps s sid r r' : live s sid = Some r -> kin r r' -> keeps s (put s sid r').
Proof.
  intros Hl Hk h x. cbn. rewrite lookup_insert_Some. intros [[<- <-]|[_ Hx]].
  - exists r. split; [by apply live_lookup|done].
  - by exists x.
Qed.
Lemma revoke_keeps sid n s : keeps s (Sqlite.revoke sid n s).1.
Proof.
  unfold Sqlite.revoke, Sqlite.revoke_live. destruct (given sid) as [k|]; [|done].
  destruct (live s k) as [r|] eqn:El; [|done]. by apply (put_keeps s k r).
Qed.
Lemma resolve_keeps ttl sid n touch s : keeps s (Sqlite.resolve ttl sid n touch s).1.
Proof.
  unfold Sqlite.resolve. destruct (given sid) as [k|]; [|done]. destruct (live s k) as [r|] eqn:El; [|done].
  destruct (is_expired ttl r n); [by apply (put_keeps s k r)|]. cbn. destruct (_ && _); [by apply (put_keeps s k r)|done].
Qed.

Section trace.
Context {E : Ed25519} {laws : Ed25519Laws E} (ttl : terms).
Let R := Sqlite.repository.
Implicit Types log : list (Sessions.call * reply).

(** The row was made when its principal's key had signed an unexpired
    assertion, and authenticated then or at a later call. *)
Definition logged_in log (h : string) (r : session_row) : Prop :=
  exists body cookie now1 now2 sid csrf c d raw until,
    (Post body cookie now1 now2 sid csrf, Http (Ok {| h_status := 201; h_created := Some c; h_current := None |})) ∈ log
    /\ _hash sid = h /\ csrf_hash r = _hash csrf
    /\ PyValue.get (as_mapping body) "assertion" = VDict d /\ decode_text (principal_id r) = Some raw
    /\ signs raw (_canonical_session_bytes (VStr (principal_id r)) (PyValue.get d "session_public_key")
                    (PyValue.get d "issued_at") (PyValue.get d "expires_at"))
    /\ as_number (PyValue.get d "expires_at") = Some until /\ (now1 <= inject_Z until)%Q
    /\ created_at r = trunc now2 /\ absolute_expires_at r = trunc now2 + absolute_ttl_seconds ttl.
Definition authenticated_by log (h : string) (r : session_row) : Prop :=
  exists a, authenticated_at r = Some a
    /\ (a = created_at r \/ exists sid n, (Attest sid n, Truth (Ok true)) ∈ log /\ _hash sid = h /\ a = trunc n).
Definition traced log (s : store) : Prop :=
  forall h r, web_sessions s !! h = Some r -> logged_in log h r /\ authenticated_by log h r.

Lemma logged_in_later log log' h r : log ⊆ log' -> logged_in log h r -> logged_in log' h r.
Proof. intros Hl (b & k & n1 & n2 & sid & csrf & c & d & raw & u & H1 & H2). exists b, k, n1, n2, sid, csrf, c, d, raw, u. split; [by apply Hl|done]. Qed.
Lemma authenticated_later log log' h r : log ⊆ log' -> authenticated_by log h r -> authenticated_by log' h r.
Proof. intros Hl (a & H1 & [H2|(sid & n & H2 & H3)]); exists a; (split; [done|]); [by left|right]. exists sid, n. split; [by apply Hl|done]. Qed.
Lemma traced_later log log' s s' : log ⊆ log' -> keeps s s' -> traced log s -> traced log' s'.
Proof.
  intros Hl Hk H h r' Hr'. destruct (Hk h r' Hr') as (r & Hr & Hkin). destruct (H h r Hr) as [H1 H2]. split.
  - apply (logged_in_later log log' h r') in Hl; [done|]. unfold logged_in, kin in *. by destruct Hkin as (-> & -> & -> & -> & _).
  - apply (authenticated_later log log' h r') in Hl; [done|]. unfold authenticated_by, kin in *. by destruct Hkin as (_ & _ & -> & _ & ->).
Qed.

(** What a creation leaves. *)
Lemma create_shape p proof n prev sid csrf s s' c :
  Sqlite.create ttl p proof n prev sid csrf s = (s', Ok c) ->
  forall h r, web_sessions s' !! h = Some r ->
    (h = _hash sid /\ r = new_row p csrf n (n + absolute_ttl_seconds ttl))
    \/ exists r0, web_sessions s !! h = Some r0 /\ kin r0 r.
Proof.
  unfold Sqlite.create, transaction, stm_bind, stm_ret, Sqlite.consume_proof.
  destruct (consumed_identity_proofs s !! _); [done|]. set (s1 := with_proofs s _).
  assert (forall s2, keeps s1 s2 -> forall s3, Sqlite.insert_session sid (new_row p csrf n (n + absolute_ttl_seconds ttl)) s2 = (s3, Ok tt) ->
    forall h r, web_sessions s3 !! h = Some r ->
      (h = _hash sid /\ r = new_row p csrf n (n + absolute_ttl_seconds ttl)) \/ exists r0, web_sessions s !! h = Some r0 /\ kin r0 r) as Hins.
  { intros s2 Hk s3. unfold Sqlite.insert_session. destruct (web_sessions s2 !! _); [done|]. intros [= <-] h r. cbn.
    rewrite lookup_insert_Some. intros [[<- <-]|[_ Hr]]; [by left|right]. by apply Hk in Hr. }
  destruct (given prev) as [q|] eqn:Eq.
  - pose proof (revoke_keeps prev n s1) as Hk. unfold Sqlite.revoke in Hk. rewrite Eq in Hk.
    destruct (Sqlite.revoke_live q n s1) as [s2 [b|e]]; [|done]. cbn [fst] in Hk.
    destruct (Sqlite.insert_session _ _ s2) as [s3 [[]|e]] eqn:Ei; [|done]. intros [= <- _]. by apply (Hins s2).
  - destruct (Sqlite.insert_session _ _ s1) as [s3 [[]|e]] eqn:Ei; [|done]. intros [= <- _]. by apply (Hins s1).
Qed.
Lemma create_refused p proof n prev sid csrf s s' e :
  Sqlite.create ttl p proof n prev sid csrf s = (s', Err e) -> s' = s.
Proof. unfold Sqlite.create. apply transaction_err. Qed.

Lemma post_traced log body cookie now1 now2 sid csrf s :
  traced log s ->
  let (s', r) := exec R ttl (Post body cookie now1 now2 sid csrf) s in
  traced (log ++ [(Post body cookie now1 now2 sid csrf, r)]) s'.
Proof.
  intros Ht. cbn. unfold through, do_POST. set (entry := fun r => (Post body cookie now1 now2 sid csrf, Http r)).
  assert (forall r, traced (log ++ [entry r]) s) as Hsame by (intros r; apply (traced_later log _ s); [set_solver|done|done]).
  destruct (PyValue.get (as_mapping body) "assertion") as [| | | | |d] eqn:Ed; try apply Hsame.
  destruct (verify_session_assertion d _ now1) as [v|[]] eqn:Ev; try apply Hsame.
  destruct (PyValue.get d "principal_id") as [| | |p| |] eqn:Ep; try apply Hsame.
  cbn. destruct (Sqlite.create ttl p _ _ cookie sid csrf s) as [s' [c|e]] eqn:Ec;
    [|rewrite (create_refused _ _ _ _ _ _ _ _ _ Ec); destruct e; apply Hsame].
  apply assertion_signed in Ev as (raw & u & Hraw & _ & -> & Hsig & Hu & Hle).
  intros h r Hr. destruct (create_shape _ _ _ _ _ _ _ _ _ Ec h r Hr) as [[-> ->]|(r0 & Hr0 & Hk)].
  - split; [|exists (trunc now2); split; [done|by left]].
    exists body, cookie, now1, now2, sid, csrf, c, d, raw, u. split_and!; try done. set_solver.
  - apply (traced_later log _ s {| web_sessions := {[h := r]}; consumed_identity_proofs := ∅ |}); [set_solver| |done|cbn; apply lookup_singleton_Some; done].
    intros h' r' H. cbn in H. apply lookup_singleton_Some in H as [<- <-]. by exists r0.
Qed.
Lemma served_keeps c s :
  match c with Post _ _ _ _ _ _ | Attest _ _ => True | _ => keeps s (exec R ttl c s).1 end.
Proof.
  destruct c; try done; cbn; unfold through.
  - unfold do_GET, stm_bind. pose proof (resolve_keeps ttl cookie (trunc now) true s) as H. cbn.
    by destruct (Sqlite.resolve _ _ _ _ s) as [s' [[c|]|e]].
  - unfold do_DELETE, stm_bind. pose proof (resolve_keeps ttl cookie (trunc now1) true s) as H. cbn.
    destruct (Sqlite.resolve _ _ _ _ s) as [s' [[c|]|e]]; try done. cbn. destruct (csrf_of cookie csrf s'); [|done].
    pose proof (revoke_keeps cookie (trunc now2) s') as H'. destruct (Sqlite.revoke _ _ s') as [s2 [b|e]]; cbn in *; by transitivity s'.
  - pose proof (resolve_keeps ttl session_id (trunc now) touch s) as H. by destruct (Sqlite.resolve _ _ _ _ s).
Qed.
Lemma attest_traced log sid n s :
  traced log s -> let (s', r) := exec R ttl (Attest sid n) s in traced (log ++ [(Attest sid n, r)]) s'.
Proof.
  intros Ht. cbn. unfold through, Sqlite.attest_authentication. destruct (live s sid) as [r|] eqn:El;
    [|by apply (traced_later log _ s); [set_solver|done|]].
  intros h x. cbn. rewrite lookup_insert_Some. intros [[<- <-]|[_ Hx]].
  - destruct (Ht _ _ (live_lookup s sid r El)) as [H1 _]. split; [by apply (logged_in_later log _ _ r); [set_solver|]|].
    exists (trunc n). split; [done|]. right. exists sid, n. split; [set_solver|done].
  - destruct (Ht _ _ Hx) as [H1 H2]. split; [apply (logged_in_later log)|apply (authenticated_later log)]; set_solver.
Qed.
Lemma exec_traced log c s :
  traced log s -> let (s', r) := exec R ttl c s in traced (log ++ [(c, r)]) s'.
Proof.
  intros Ht. pose proof (served_keeps c s) as Hk.
  destruct c; try by apply post_traced; try by apply attest_traced.
  all: try (by apply attest_traced); destruct (exec _ _ _ s) as [s' r]; by apply (traced_later log _ s); [set_solver|..].
Qed.
Lemma serve_traced log cs s :
  traced log s -> let (s', l) := serve R ttl cs s in traced (log ++ l) s'.
Proof.
  revert log s. induction cs as [|c cs IH]; intros log s Ht; cbn; [by rewrite app_nil_r|].
  pose proof (exec_traced log c s Ht) as H. destruct (exec R ttl c s) as [s1 r]. specialize (IH _ _ H).
  destruct (serve R ttl cs s1) as [s2 l]. by rewrite <- app_assoc in IH.
Qed.
End trace.

(** ** A person's decision *)

(** What the session service tells the broker: [resolve] names no account, so
    [current.get("tenant_id")] is [None]. *)
Definition attestation_dict (a : attestation) : dict :=
  [("fresh", VBool (t_fresh a)); ("reason", VStr (t_reason a))]
  ++ match t_authenticated a with
     | Some (at_, age) => [("authenticated_at", VInt at_); ("age_seconds", VInt age)]
     | None => []
     end
  ++ [("freshness_seconds", VInt (t_freshness a))].
Definition session_view (ttl : terms) (s : store) (session_id csrf : option string) (now1 now2 : Q) : sessions :=
  let (s1, r) := Sqlite.resolve ttl session_id (trunc now1) true s in {|
  Broker.current := match r with
                    | Ok (Some c) => Some {| s_principal := r_principal c; s_tenant := None |}
                    | _ => None
                    end;
  Broker.csrf_matches := csrf_of session_id csrf s1;
  Broker.authentication_attestation :=
    Some (attestation_dict
      match live s1 (default "" session_id) with
      | Some r => attested (Sqlite.authenticated_or_created r) (trunc now2) REINFORCED_FRESHNESS_SECONDS
      | None => absent REINFORCED_FRESHNESS_SECONDS
      end) |}.

(** A session a decision can be made in. *)
Lemma view_row ttl s session_id csrf now1 now2 who :
  Broker.current (session_view ttl s session_id csrf now1 now2) = Some who ->
  Broker.csrf_matches (session_view ttl s session_id csrf now1 now2) = true ->
  exists token csrf_token r, given session_id = Some token /\ given csrf = Some csrf_token
    /\ web_sessions s !! _hash token = Some r /\ csrf_hash r = _hash csrf_token
    /\ who = {| s_principal := principal_id r; s_tenant := None |}
    /\ trunc now1 <= absolute_expires_at r
    /\ forall a, Broker.authentication_attestation (session_view ttl s session_id csrf now1 now2) = Some a ->
         PyValue.get a "fresh" = VBool true ->
         trunc now2 - REINFORCED_FRESHNESS_SECONDS <= Sqlite.authenticated_or_created r <= trunc now2.
Proof.
  unfold session_view, Sqlite.resolve. destruct (given session_id) as [token|] eqn:Eg; [|done].
  destruct (live s token) as [r|] eqn:El; [|done]. destruct (is_expired ttl r (trunc now1)) eqn:Ex; [done|].
  cbn [Broker.current Broker.csrf_matches Broker.authentication_attestation]. intros [= <-].
  set (s1 := if _ && _ then _ else s). unfold csrf_of. rewrite Eg. destruct (given csrf) as [csrf_token|]; [|done].
  assert (exists r1, live s1 token = Some r1 /\ kin r r1) as (r1 & E1 & Hk).
  { subst s1. destruct (_ && _); [|by exists r]. exists (set_seen r (trunc now1)). split; [|done].
    unfold live, put. cbn. rewrite lookup_insert_eq. unfold live in El. destruct (web_sessions s !! _) as [x|]; [|done].
    destruct (live_row x) eqn:Elr; [|done]. injection El as ->. unfold live_row in *. cbn. by rewrite Elr. }
  rewrite E1. intros Hc%String.eqb_eq. exists token, csrf_token, r. apply orb_false_iff in Ex as [Ex _].
  unfold kin in Hk. destruct Hk as (_ & Hk & Hcr & _ & Hau).
  split_and!; try done; [by apply live_lookup|congruence|by apply Z.ltb_ge|].
  assert (default "" session_id = token) as ->.
  { unfold given in Eg. destruct session_id as [x|]; [|done]. destruct (truthy x); [|done]. by injection Eg. }
  rewrite E1. intros a [= <-] Hf.
  change (VBool (t_fresh (attested (Sqlite.authenticated_or_created r1) (trunc now2) REINFORCED_FRESHNESS_SECONDS)) = VBool true) in Hf.
  injection Hf as Hf. cbn in Hf. apply andb_true_iff in Hf as [Hf1%Z.leb_le Hf2%Z.leb_le].
  assert (Sqlite.authenticated_or_created r1 = Sqlite.authenticated_or_created r) as E3
    by (unfold Sqlite.authenticated_or_created; by rewrite Hcr, Hau).
  lia.
Qed.

(** C11. An approval goes back to a signature.  When the broker answers that a
    proposal was approved in a session of the session service's history, then:
    the proposal was open, unexpired and made for a principal; that principal's
    key had signed an assertion, unexpired when it was posted, for which the
    service made this session and this CSRF token; the session is within its
    absolute term; and if the proposal's effect is reinforced, the session was
    authenticated, at that login or by a later recorded attestation, at most
    [REINFORCED_FRESHNESS_SECONDS] ago. *)
Theorem approval_traces_to_proof {E : Ed25519} {laws : Ed25519Laws E} ttl cs s log acs session_id csrf now1 now2 now3 id body s' answer_body :
  serve Sqlite.repository ttl cs no_sessions = (s, log) ->
  decide_request (session_view ttl s session_id csrf now1 now2) id body now3 (perform_all acs no_actions)
    = (s', Ok (200, answer_body)) ->
  PyValue.get (as_mapping body) "approved" = VBool true ->
  exists token csrf_token p,
    given session_id = Some token /\ given csrf = Some csrf_token
    /\ p ∈ proposals (perform_all acs no_actions) /\ proposal_id p = id /\ pr_status p = proposed /\ now3 <= expires_at p
    /\ exists post cookie t1 t2 sid csrf0 c d raw until,
         (Post post cookie t1 t2 sid csrf0, Http (Ok {| h_status := 201; h_created := Some c; h_current := None |})) ∈ log
         /\ _hash sid = _hash token /\ _hash csrf0 = _hash csrf_token
         /\ PyValue.get (as_mapping post) "assertion" = VDict d /\ decode_text (p_user p) = Some raw
         /\ signs raw (_canonical_session_bytes (VStr (p_user p)) (PyValue.get d "session_public_key")
                         (PyValue.get d "issued_at") (PyValue.get d "expires_at"))
         /\ as_number (PyValue.get d "expires_at") = Some until /\ (t1 <= inject_Z until)%Q
         /\ trunc now1 <= trunc t2 + absolute_ttl_seconds ttl
         /\ (Actions.reinforced p = true -> exists a,
               trunc now2 - REINFORCED_FRESHNESS_SECONDS <= a <= trunc now2
               /\ (a = trunc t2 \/ exists k n, (Attest k n, Truth (Ok true)) ∈ log /\ _hash k = _hash token /\ a = trunc n)).
Proof.
  intros Hs Hd Hy.
  pose proof (serve_traced ttl [] cs no_sessions) as Ht. rewrite Hs in Ht. cbn [app] in Ht.
  assert (traced ttl log s) as Htr by (apply Ht; intros h r; cbn; by rewrite lookup_empty). clear Ht.
  destruct (approval_needs_presence _ acs id body now3 s' answer_body Hd Hy) as (who & p & H1 & H2 & H3 & H4 & _ & H5 & H6 & H7 & H8).
  destruct (view_row _ _ _ _ _ _ _ H1 H2) as (token & ct & r & G1 & G2 & G3 & G4 & -> & G5 & G6). cbn in H5.
  destruct (Htr _ _ G3) as [(b & k & n1 & n2 & sid & csrf0 & c & d & raw & u & L1 & L2 & L3 & L4 & L5 & L6 & L7 & L8 & L9 & L10) Ha].
  exists token, ct, p. split_and!; try done.
  exists b, k, n1, n2, sid, csrf0, c, d, raw, u. rewrite H5. split_and!; try done; [congruence|lia|].
  intros Hr. destruct (H8 Hr) as (a & Ea & Ef). specialize (G6 a Ea Ef).
  destruct Ha as (x & Hx & Hor). unfold Sqlite.authenticated_or_created in G6. rewrite Hx in G6.
  destruct (Z.eqb x 0).
  - exists (created_at r). split; [done|by left].
  - exists x. split; [done|]. destruct Hor as [Hor|Hor]; [left; congruence|by right].
Qed.

(** ** Concrete runs *)

Definition day : terms := {| idle_ttl_seconds := 1800; absolute_ttl_seconds := 43200 |}.
(** A signed assertion of the toy principal, issued at 100 for 900 seconds,
    with fields nobody signed. *)
Definition toy_assertion (extra : list (string * pyval)) : list (string * pyval) :=
  build_session_assertion (E := toy) toy_principal true (public_key_b64 (E := toy) false) 900 100 ++ extra.
Definition toy_post (extra : list (string * pyval)) (now : Q) (sid csrf : string) : Sessions.call :=
  Post (VDict [("assertion", VDict (toy_assertion extra))]) None now now sid csrf.
Definition toy_day : list Sessions.call := [
  toy_post [] 110 "sid" "csrf"; toy_post [] 120 "sid2" "csrf2"; Get (Some "sid") 130;
  Attest "sid" 900; Attestation "sid" 1000 300; Delete (Some "sid") (Some "csrf") 1001 1002; Count 1003].
Definition served_statuses (l : list (Sessions.call * reply)) : list Z :=
  omap (fun x => match x.2 with Http (Ok h) => Some (h_status h) | _ => None end) l.

Lemma postgres_sessions_agree_witness :
  served_statuses (serve (E := toy) (Postgres.repository (String.eqb toy_principal)) day toy_day no_sessions).2 = [201; 401; 200; 204].
Proof.
  rewrite <- (postgres_sessions_agree (E := toy) day (String.eqb toy_principal) toy_day).
  - vm_compute. reflexivity.
  - reflexivity.
  - repeat (constructor; [|repeat (constructor; [by apply Z.leb_le; vm_compute|]); constructor]). constructor.
  - intros c p Hc Hn. unfold toy_day in Hc.
    repeat (apply elem_of_cons in Hc as [->|Hc]; [try (injection Hn as <-; vm_compute; reflexivity); discriminate Hn|]). by apply elem_of_nil in Hc.
Defined.

(** One signed assertion makes two sessions: the fingerprint that is consumed
    once is of everything that was posted, and not all of it is signed. *)
Example one_proof_two_sessions :
  served_statuses (serve (E := toy) Sqlite.repository day
    [toy_post [] 110 "sid" "csrf"; toy_post [] 111 "sid2" "csrf2"; toy_post [("x", VInt 1)] 112 "sid3" "csrf3"] no_sessions).2
  = [201; 401; 201].
Proof. by vm_compute. Qed.

Definition toy_mail : proposal_spec := {|
  sp_user := toy_principal; sp_agent := "agent"; sp_credential := "cred"; sp_capability := "gmail.send";
  sp_payload := VDict demo_payload; sp_expires := 1000; sp_id := Some "p1"; sp_key := Some "key-1";
  sp_revision := Some "legacy"; sp_step := "legacy"; sp_graph_hash := "legacy";
  sp_connection := "legacy"; sp_attempt := 0; sp_profile := "bot"; sp_profile_id := None;
  sp_subject := None; sp_reinforced := true; sp_tenant := None |}.
Lemma approval_traces_to_proof_witness :
  let s := (serve (E := toy) Sqlite.repository day [toy_post [] 110 "sid" "csrf"; Attest "sid" 500] no_sessions).1 in
  let ss := session_view day s (Some "sid") (Some "csrf") 600 601 in
  exists s', decide_request ss "p1" demo_body 602 (perform_all [Propose toy_mail "x" "y"] no_actions)
             = (s', Ok (200, [("status", VStr "approved")]))
  /\ exists p, p ∈ proposals (perform_all [Propose toy_mail "x" "y"] no_actions) /\ pr_status p = proposed.
Proof.
  intros s ss. destruct (serve (E := toy) Sqlite.repository day [toy_post [] 110 "sid" "csrf"; Attest "sid" 500] no_sessions)
    as [s0 log] eqn:Es.
  destruct (decide_request ss "p1" demo_body 602 (perform_all [Propose toy_mail "x" "y"] no_actions)) as [s' r] eqn:Ed.
  assert (r = Ok (200, [("status", VStr "approved")])) as ->.
  { change r with (s', r).2. rewrite <- Ed. subst ss s. change s0 with (s0, log).1. rewrite <- Es. vm_compute. reflexivity. }
  exists s'. split; [reflexivity|].
  destruct (approval_traces_to_proof (E := toy) day _ s0 log [Propose toy_mail "x" "y"] (Some "sid") (Some "csrf") 600 601 602
    "p1" demo_body s' _ Es Ed eq_refl) as (token & ct & p & _ & _ & Hp & _ & Hst & _).
  exists p. split; [exact Hp|exact Hst].
Defined.
