(* ===== verification/OAuthServiceProofs.v ===== *)
(** * What a connection goes back to

    Theorems about OAuthService.v.  The stores are shared by any number of
    requests, of the session service, of the vault and of the OAuth service,
    whose steps interleave.  Each thread is proved on its own ([safe]); what it
    learns is kept as facts that no step of another undoes, and the proofs about
    the vault alone (VaultProofs.v) are lifted as they are ([wp_lift]). *)

From stdpp Require Import gmap pretty.
From Stdlib Require Import QArith.
From S2P Require Import Prelude Rows PyValue Json Sha256 Program Signing Sessions Vault OAuth OAuthService.
From S2P Require VaultProofs SigningProofs.
Local Close Scope Q_scope.
Local Open Scope Z_scope.

(** ** What a session store promises *)

(** No session goes, or changes its principal or its token. *)
Definition extends (s s' : Sessions.store) : Prop :=
  forall h r, web_sessions s !! h = Some r ->
    exists r', web_sessions s' !! h = Some r' /\ principal_id r' = principal_id r /\ csrf_hash r' = csrf_hash r.
#[global] Instance extends_preorder : PreOrder extends.
Proof.
  split; [intros s h r H; by exists r|]. intros a b c H1 H2 h r Hr. destruct (H1 h r Hr) as (r1 & Hr1 & E1 & E2).
  destruct (H2 h r1 Hr1) as (r2 & Hr2 & E3 & E4). exists r2. split; [done|]. by rewrite E3, E4.
Qed.
Lemma extends_same s s' : web_sessions s' = web_sessions s -> extends s s'.
Proof. intros E h r Hr. rewrite E. by exists r. Qed.
Definition widens {A} (m : sm A) : Prop := forall s, extends s (m s).1.
Lemma widens_bind {A C} (m : sm A) (k : A -> sm C) : widens m -> (forall a, widens (k a)) -> widens (stm_bind m k).
Proof.
  intros Hm Hk s. unfold stm_bind. specialize (Hm s). destruct (m s) as [s' [a|e]]; [|done]. etrans; [exact Hm|apply Hk].
Qed.
Lemma widens_read {A} (f : Sessions.store -> A) : widens (fun s => (s, Ok (f s))).
Proof. by intros s. Qed.
Lemma widens_ret {A} (a : A) : widens (stm_ret a).
Proof. by intros s. Qed.
Lemma widens_transaction {A} (m : sm A) : widens m -> widens (transaction m).
Proof. intros Hm s. unfold transaction. specialize (Hm s). by destruct (m s) as [s' [a|e]]. Qed.
Lemma live_row_of s sid r : live s sid = Some r -> web_sessions s !! _hash sid = Some r.
Proof. unfold live. destruct (web_sessions s !! _) as [r'|]; [|done]. destruct (live_row r'); [|done]. by intros [= ->]. Qed.
Lemma put_extends s sid r r' :
  live s sid = Some r -> principal_id r' = principal_id r -> csrf_hash r' = csrf_hash r -> extends s (put s sid r').
Proof.
  intros Hl%live_row_of Hp Hc h x Hx. cbn. destruct (decide (_hash sid = h)) as [<-|].
  - rewrite lookup_insert_eq. exists r'. naive_solver.
  - rewrite lookup_insert_ne by done. by exists x.
Qed.
Lemma insert_extends s sid r : web_sessions s !! _hash sid = None -> extends s (put s sid r).
Proof. intros Hn h x Hx. exists x. cbn. by rewrite lookup_insert_ne by congruence. Qed.

Class SessionLaws (R : SessionStore) := {
  create_widens ttl p proof now previous sid csrf : widens (create ttl p proof now previous sid csrf);
  resolve_widens ttl sid now touch : widens (resolve ttl sid now touch);
  revoke_widens sid now : widens (revoke sid now);
  attest_widens sid now : widens (attest_authentication sid now);
  attestation_widens sid now freshness : widens (authentication_attestation sid now freshness);
  count_widens ttl now : widens (count_active ttl now);
  csrf_reads sid csrf s : csrf_matches sid csrf s = (s, Ok (csrf_of sid csrf s));
  resolve_finds ttl sid now touch s c : (resolve ttl sid now touch s).2 = Ok (Some c) ->
    exists k r, given sid = Some k /\ web_sessions s !! _hash k = Some r /\ principal_id r = r_principal c;
}.

#[export] Instance sqlite_laws : SessionLaws Sqlite.repository.
Proof.
  assert (forall sid now, widens (Sqlite.revoke_live sid now)) as Hrev.
  { intros sid now s. unfold Sqlite.revoke_live. destruct (live s sid) as [r|] eqn:El; [|done]. by apply (put_extends s sid r). }
  constructor; cbn.
  - intros. apply widens_transaction. apply widens_bind; [intros s; unfold Sqlite.consume_proof; case_match; by apply extends_same|]. intros [].
    apply widens_bind; [destruct (given previous); [apply widens_bind; [apply Hrev|intros; apply widens_ret]|apply widens_ret]|]. intros [].
    apply widens_bind; [|intros; apply widens_ret]. intros s. unfold Sqlite.insert_session.
    destruct (web_sessions s !! _) eqn:El; [done|by apply insert_extends].
  - intros. intros s. unfold Sqlite.resolve. destruct (given sid) as [k|]; [|done]. destruct (live s k) as [r|] eqn:El; [|done].
    destruct (is_expired _ _ _); [by apply (put_extends s k r)|]. cbn. destruct (_ && _); [by apply (put_extends s k r)|done].
  - intros. unfold Sqlite.revoke. destruct (given sid); [apply Hrev|apply widens_ret].
  - intros. intros s. unfold Sqlite.attest_authentication. destruct (live s sid) as [r|] eqn:El; [|done]. by apply (put_extends s sid r).
  - intros. apply widens_read.
  - intros. apply widens_read.
  - done.
  - intros ttl sid now touch s c. unfold Sqlite.resolve. destruct (given sid) as [k|]; [|done].
    destruct (live s k) as [r|] eqn:El; [|done]. destruct (is_expired _ _ _); [done|]. intros [= <-]. exists k, r.
    split; [done|]. split; [by apply live_row_of|done].
Qed.
#[export] Instance postgres_laws known : SessionLaws (Postgres.repository known).
Proof.
  assert (forall sid r r' s, live s sid = Some r -> principal_id r' = principal_id r -> csrf_hash r' = csrf_hash r ->
            extends s (Postgres.write sid r' s).1) as Hw.
  { intros sid r r' s Hl Hp Hc. unfold Postgres.write. destruct (Postgres.row_checks r'); [by apply (put_extends s sid r)|done]. }
  assert (forall sid f, (forall r, principal_id (f r) = principal_id r /\ csrf_hash (f r) = csrf_hash r) ->
            widens (Postgres.update_live sid f)) as Hu.
  { intros sid f Hf s. unfold Postgres.update_live, stm_bind, stm_get. destruct (live s sid) as [r|] eqn:El; [|done].
    destruct (Hf r) as [Hp Hc]. specialize (Hw sid r (f r) s El Hp Hc). by destruct (Postgres.write sid (f r) s) as [s' [[]|e]]. }
  constructor; cbn.
  - intros. apply widens_transaction. apply widens_bind; [intros s; unfold Postgres.consume_proof; case_match; by apply extends_same|]. intros [].
    apply widens_bind; [destruct (given previous); [apply widens_bind; [by apply Hu|intros; apply widens_ret]|apply widens_ret]|]. intros [].
    apply widens_bind; [|intros; apply widens_ret]. intros s. unfold Postgres.insert_session. destruct (negb _); [done|].
    destruct (web_sessions s !! _) eqn:El; [done|]. destruct (known _); [by apply insert_extends|done].
  - intros. apply widens_transaction. destruct (given sid) as [k|]; [|apply widens_ret]. intros s. unfold stm_bind, stm_get.
    destruct (live s k) as [r|] eqn:El; [|done]. destruct (is_expired _ _ _).
    + pose proof (Hw k r (Sessions.set_revoked r now) s El eq_refl eq_refl) as H. by destruct (Postgres.write k _ s) as [s' [[]|e]].
    + destruct (_ && _); [|done]. pose proof (Hw k r (Sessions.set_seen r now) s El eq_refl eq_refl) as H.
      by destruct (Postgres.write k _ s) as [s' [[]|e]].
  - intros. unfold Postgres.revoke. destruct (given sid); [apply widens_transaction; by apply Hu|apply widens_ret].
  - intros. unfold Postgres.attest_authentication. apply widens_transaction. by apply Hu.
  - intros. apply widens_read.
  - intros. apply widens_read.
  - done.
  - intros ttl sid now touch s c. unfold Postgres.resolve, transaction. destruct (given sid) as [k|]; [|done].
    unfold stm_bind, stm_get. destruct (live s k) as [r|] eqn:El; [|done]. destruct (is_expired _ _ _).
    + by destruct (Postgres.write k _ s) as [s' [[]|e]].
    + intros H. exists k, r. split; [done|]. split; [by apply live_row_of|].
      destruct (_ && _); [destruct (Postgres.write k _ s) as [s' [[]|e]]; [|done]|]; cbn in H; by injection H as <-.
Qed.

(** ** Requests *)

Inductive call : Type :=
| InSessions (c : Sessions.call)
| InVaultService (c : VaultProofs.call)
| GoogleStatus (session_id : option string)
| InitiateGoogle (session_id csrf : option string) (body : pyval)
| CompleteGoogle (session_id : option string) (code state : pyval) (provider_error : bool)
| DisconnectGoogle (session_id csrf : option string)
| SlackStatus (session_id : option string)
| InitiateSlack (session_id csrf : option string) (body : pyval)
| CompleteSlack (session_id code state : option string) (provider_error : bool)
| DisconnectSlack (session_id csrf : option string) (id : string)
| DecideAuthority (session_id csrf : option string) (connection kind : string) (body : pyval)
| ConnectAccount (session_id csrf : option string) (body : pyval)
| AccountStatus (session_id : option string) (provider : string)
| ApplyState (tenant id : string) (a : account_state)
| ControlStatus (session_id : option string)
| DecideControl (session_id csrf : option string) (body : pyval)
| VoiceRoutes (session_id : option string)
| SaveRoutes (session_id csrf : option string) (body : pyval).

Abbreviation know := VaultProofs.know.
Abbreviation minted := VaultProofs.minted.
Abbreviation events := (list (event (Q := ask_of))).

(** What the vault asked, among what was asked. *)
Definition vault_event (e : event (Q := ask_of)) : option (event (Q := question)) :=
  match e with
  | existT _ (q, x) =>
      match q in ask_of T return T -> option (event (Q := question)) with
      | InCustody q => fun x => Some (answered q x)
      | _ => fun _ => None
      end x
  end.
Definition vault_log (g : events) : list (event (Q := question)) := omap vault_event g.
Lemma vault_log_app g e : vault_log (g ++ [e]) = vault_log g ++ option_list (vault_event e).
Proof. unfold vault_log. rewrite omap_app. cbn. by destruct (vault_event e). Qed.

Section service.
Context {E : Ed25519} {R : SessionStore} {laws : SessionLaws R} {B : SecretBox} (self : OAuthService).

Definition exec (c : call) : oprog unit :=
  match c with
  | InSessions c => atom (fun w => (with_sessions (Sessions.exec R (session_terms self) c (w_sessions w)).1 w, Ok tt))
  | InVaultService c => in_vault (VaultProofs.exec (Some (crypto self)) c)
  | GoogleStatus sid => forget (google_status self sid)
  | InitiateGoogle sid csrf body => forget (initiate_google self sid csrf body)
  | CompleteGoogle sid code state e => forget (complete_google self sid code state e)
  | DisconnectGoogle sid csrf => forget (disconnect_google self sid csrf)
  | SlackStatus sid => forget (slack_status self sid)
  | InitiateSlack sid csrf body => forget (initiate_slack self sid csrf body)
  | CompleteSlack sid code state e => forget (complete_slack self sid code state e)
  | DisconnectSlack sid csrf id => forget (disconnect_slack self sid csrf id)
  | DecideAuthority sid csrf connection kind body => forget (slack_personal_authority_decision self sid csrf connection kind body)
  | ConnectAccount sid csrf body => forget (connect_provider_account self sid csrf body)
  | AccountStatus sid provider => forget (provider_account_status self sid provider)
  | ApplyState tenant id a => forget (apply_verified_account_state self tenant id a)
  | ControlStatus sid => forget (control_plane_status self sid)
  | DecideControl sid csrf body => forget (decide_control_plane self sid csrf body)
  | VoiceRoutes sid => forget (get_voice_routes self sid)
  | SaveRoutes sid csrf body => forget (save_voice_routes self sid csrf body)
  end.

Section system.
Context (asked : call -> Prop).
Definition may_start (p : oprog unit) : Prop := exists c, asked c /\ p = exec c.
Definition asked_of_vault (c : VaultProofs.call) : Prop := asked (InVaultService c).
Abbreviation vault_sound := (VaultProofs.sound asked_of_vault).
Abbreviation vault_inv := (VaultProofs.inv asked_of_vault).

(** *** Consent *)

Definition in_session_of (w : world) (sid : option string) (p : string) : Prop :=
  exists k r, given sid = Some k /\ web_sessions (w_sessions w) !! _hash k = Some r /\ principal_id r = p.
Definition in_own_session_of (w : world) (sid csrf : option string) (p : string) : Prop :=
  exists k token r, given sid = Some k /\ given csrf = Some token
    /\ web_sessions (w_sessions w) !! _hash k = Some r /\ principal_id r = p /\ csrf_hash r = _hash token.
Definition started (w : world) (t : transaction_row) : Prop :=
  exists sid csrf body, in_own_session_of w sid csrf (t_principal t) /\ t_session t = hash_value (default "" sid)
    /\ (asked (InitiateGoogle sid csrf body) /\ t_provider t = GOOGLE
        \/ asked (InitiateSlack sid csrf body) /\ t_provider t = SLACK).
Definition came_back (w : world) (t : transaction_row) (sid : option string) (state : string) : Prop :=
  in_session_of w sid (t_principal t) /\ t_session t = hash_value (default "" sid) /\ t_state t = hash_value state.
Definition google_consent (w : world) (p : string) : Prop :=
  exists t sid code state, started w t /\ t_principal t = p /\ came_back w t sid state
    /\ asked (CompleteGoogle sid (VStr code) (VStr state) false).
Definition slack_consent (w : world) (p : string) : Prop :=
  exists t sid code state, started w t /\ t_provider t = SLACK /\ t_principal t = p /\ came_back w t sid state
    /\ asked (CompleteSlack sid (Some code) (Some state) false).
Definition account_consent (w : world) (p : string) : Prop :=
  exists sid csrf body, in_own_session_of w sid csrf p /\ asked (ConnectAccount sid csrf body).

(** *** Facts *)

(** About the sessions, and about what is known of the vault: neither is ever
    undone. *)
Definition fact : Type := world -> list know -> Prop.
Definition grows (w w' : world) : Prop := extends (w_sessions w) (w_sessions w').
Definition stable (F : fact) : Prop := forall w w' e e', grows w w' -> e ⊆ e' -> F w e -> F w' e'.
Definition entails (F F' : fact) : Prop := forall w e, F w e -> F' w e.
Definition anyone : fact := fun _ _ => True.
Definition both (F F' : fact) : fact := fun w e => F w e /\ F' w e.

Lemma entails_refl F : entails F F.
Proof. by intros w e. Qed.
#[local] Hint Resolve entails_refl : core.
Lemma stable_session sid p : stable (fun w _ => in_session_of w sid p).
Proof.
  intros w w' e e' Hw _ (k & r & Hk & Hr & Hp). destruct (Hw _ _ Hr) as (r' & Hr' & E1 & E2). exists k, r'. by rewrite E1.
Qed.
Lemma stable_own sid csrf p : stable (fun w _ => in_own_session_of w sid csrf p).
Proof.
  intros w w' e e' Hw _ (k & token & r & Hk & Ht & Hr & Hp & Hc). destruct (Hw _ _ Hr) as (r' & Hr' & E1 & E2).
  exists k, token, r'. by rewrite E1, E2.
Qed.
Lemma stable_started t : stable (fun w _ => started w t).
Proof.
  intros w w' e e' Hw He (sid & csrf & body & H1 & H2). exists sid, csrf, body. split; [|done]. by eapply (stable_own sid csrf).
Qed.
Lemma stable_back t sid state : stable (fun w _ => came_back w t sid state).
Proof. intros w w' e e' Hw He (H1 & H2). split; [|done]. by eapply (stable_session sid). Qed.
Lemma stable_google p : stable (fun w _ => google_consent w p).
Proof.
  intros w w' e e' Hw He (t & sid & code & state & H1 & H2 & H3 & H4). exists t, sid, code, state.
  split_and!; [by eapply stable_started|done|by eapply stable_back|done].
Qed.
Lemma stable_slack p : stable (fun w _ => slack_consent w p).
Proof.
  intros w w' e e' Hw He (t & sid & code & state & H1 & H2 & H3 & H4 & H5). exists t, sid, code, state.
  split_and!; [by eapply stable_started|done|done|by eapply stable_back|done].
Qed.
Lemma stable_account p : stable (fun w _ => account_consent w p).
Proof. intros w w' e e' Hw He (sid & csrf & body & H1 & H2). exists sid, csrf, body. split; [by eapply stable_own|done]. Qed.
Lemma stable_both F F' : stable F -> stable F' -> stable (both F F').
Proof. intros H1 H2 w w' e e' Hw He [? ?]. split; [by eapply H1|by eapply H2]. Qed.

(** The rows of the repository. *)
Definition linked (w : world) (e : list know) (p : string) (credential : option string) : Prop :=
  (slack_consent w p \/ account_consent w p) /\ forall c, credential = Some c -> VaultProofs.Kept c p ∈ e.
Record rows_ok (w : world) (e : list know) (o : oauth) : Prop := {
  ro_transactions : forall t, t ∈ transactions o -> started w t;
  ro_connections : forall p provider x, connections o !! (p, provider) = Some x ->
    google_consent w p /\ VaultProofs.Kept (c_credential x) p ∈ e;
  ro_installations : forall x, x ∈ installations o -> linked w e (i_principal x) (i_credential x);
  ro_profiles : forall x, x ∈ profiles o -> slack_consent w (p_owner x) /\ VaultProofs.Kept (p_credential x) (p_owner x) ∈ e;
}.
Lemma stable_linked p credential : stable (fun w e => linked w e p credential).
Proof.
  intros w w' e e' Hw He [H1 H2]. split; [|intros c Hc; by apply He, H2].
  destruct H1; [left; by eapply stable_slack|right; by eapply stable_account].
Qed.
Lemma rows_stable o : stable (fun w e => rows_ok w e o).
Proof.
  intros w w' e e' Hw He [H1 H2 H3 H4]. constructor.
  - intros t Ht. eapply stable_started; [done|exact He|]. by apply H1.
  - intros p provider x Hx. destruct (H2 _ _ _ Hx) as [Hc Hk]. split; [by eapply stable_google|by apply He].
  - intros x Hx. eapply stable_linked; [done|done|]. by apply H3.
  - intros x Hx. destruct (H4 _ Hx) as [Hc Hk]. split; [by eapply stable_slack|by apply He].
Qed.

(** *** The invariant *)

(** What a thread knows: of the vault, and facts. *)
Definition ghost : Type := know * fact.
Definition meaning (l : ghost) : fact := fun w e => (minted l.1 = None -> l.1 ∈ e) /\ l.2 w e.
Record sound (w : world) (e : list know) (ls : list ghost) (g : events) : Prop := {
  so_vault : vault_sound (w_vault w) (map fst ls ++ e) (vault_log g);
  so_known : forall k, k ∈ e -> minted k = None;
  so_facts : forall l, l ∈ ls -> stable l.2 /\ meaning l w e;
  so_rows : rows_ok w e (w_oauth w);
}.
Definition inv (w : world) (ls : list ghost) (g : events) : Prop :=
  NoDup (VaultProofs.freshes (vault_log g)) -> exists e, sound w e ls g.
Definition idle : ghost := (VaultProofs.Nothing, anyone).

Lemma stable_meaning l : stable l.2 -> stable (meaning l).
Proof. intros H w w' e e' Hw He [H1 H2]. split; [intros Hm; by apply He, H1|by eapply H]. Qed.
Lemma world_grows_refl w : grows w w.
Proof. unfold grows. done. Qed.
Lemma known_unminted e : (forall k, k ∈ e -> minted k = None) -> omap minted e = [].
Proof.
  induction e as [|k e IH]; [done|]. intros H. cbn. rewrite (H k) by left. apply IH. intros x Hx. apply H. by right.
Qed.

(** A step that is not one of the vault. *)
Lemma system_inv_step w w' a b l F F' g g' :
  grows w w' -> w_vault w' = w_vault w -> vault_log g' = vault_log g -> (stable F -> stable F') ->
  (forall e, meaning (l, F) w e -> rows_ok w e (w_oauth w) -> F' w' e /\ rows_ok w' e (w_oauth w')) ->
  inv w (a ++ (l, F) :: b) g -> inv w' (a ++ (l, F') :: b) g'.
Proof.
  intros Hw Hv Hg Hs Hf H Hn. unfold inv in H. rewrite Hg in Hn. destruct (H Hn) as (e & [S1 S2 S3 S4]).
  destruct (S3 (l, F)) as [HF Hm]; [set_solver|]. destruct (Hf e Hm S4) as [HF' Hr]. exists e. constructor; [|done| |done].
  - rewrite Hv, Hg. by rewrite map_app in *.
  - intros x Hx. assert (x = (l, F') \/ x ∈ a ++ (l, F) :: b) as [->|Hx'] by set_solver.
    + split; [by apply Hs|]. destruct Hm as [Hm _]. by split.
    + destruct (S3 x Hx') as [Hs' Hm']. split; [done|]. by eapply stable_meaning.
Qed.
Lemma inv_born w ls g : inv w ls g -> inv w (ls ++ [idle]) g.
Proof.
  intros H Hn. destruct (H Hn) as (e & [S1 S2 S3 S4]). exists (e ++ [VaultProofs.Nothing]).
  assert (e ⊆ e ++ [VaultProofs.Nothing]) as He by set_solver. constructor.
  - apply (VaultProofs.sound_shared _ _ (map fst ls ++ e)); [|set_solver|done].
    rewrite map_app. cbn. rewrite !omap_app. cbn. by rewrite !app_nil_r.
  - intros k [Hk| ->%list_elem_of_singleton]%elem_of_app; [by apply S2|done].
  - intros l [Hl| ->%list_elem_of_singleton]%elem_of_app.
    + destruct (S3 l Hl). split; [done|]. eapply stable_meaning; [done|apply world_grows_refl|done|done].
    + split; [done|]. split; [|done]. intros _. set_solver.
  - eapply rows_stable; [apply world_grows_refl|done|done].
Qed.
Lemma inv_dead w a l b g : inv w (a ++ l :: b) g -> inv w (a ++ b) g.
Proof.
  intros H Hn. destruct (H Hn) as (e & [S1 S2 S3 S4]). exists e. constructor; [|done| |done].
  - rewrite map_app in *. cbn in S1. rewrite <- app_assoc in *. by eapply VaultProofs.sound_dead.
  - intros x Hx. apply S3. set_solver.
Qed.
(** A step of the vault. *)
Lemma inv_vault w w' a b l l' F g g' :
  w_sessions w' = w_sessions w -> w_oauth w' = w_oauth w ->
  (NoDup (VaultProofs.freshes (vault_log g')) -> NoDup (VaultProofs.freshes (vault_log g))) ->
  (forall x y, vault_inv (w_vault w) (x ++ l :: y) (vault_log g) -> vault_inv (w_vault w') (x ++ l' :: y) (vault_log g')) ->
  inv w (a ++ (l, F) :: b) g -> inv w' (a ++ (l', F) :: b) g'.
Proof.
  intros Hs Ho Hg Hv H Hn. destruct (H (Hg Hn)) as (e & [S1 S2 S3 S4]).
  rewrite map_app in S1. cbn in S1. rewrite <- app_assoc in S1. cbn in S1.
  assert (vault_sound (w_vault w') (map fst a ++ l' :: map fst b ++ e) (vault_log g')) as S1'.
  { apply Hv; [|done]. by intros _. }
  assert (grows w w') as Hw by (unfold grows; by rewrite Hs).
  set (more := match minted l' with None => [l'] | Some _ => [] end). exists (e ++ more).
  assert (e ⊆ e ++ more) as He by set_solver. constructor.
  - apply (VaultProofs.sound_shared _ _ (map fst a ++ l' :: map fst b ++ e)); [| |done].
    + rewrite map_app. cbn. rewrite <- !app_assoc. cbn. rewrite !omap_app. cbn. subst more.
      destruct (minted l') eqn:El; rewrite !omap_app; cbn; rewrite ?El; by rewrite app_nil_r.
    + subst more. rewrite map_app. cbn. intros x Hx. left. destruct (minted l'); set_solver.
  - intros k [Hk|Hk]%elem_of_app; [by apply S2|]. subst more. destruct (minted l') eqn:El; set_solver.
  - intros x Hx. assert (x = (l', F) \/ x ∈ a ++ (l, F) :: b) as [->|Hx'] by set_solver.
    + destruct (S3 (l, F)) as [HF1 Hm]; [set_solver|]. split; [done|]. split; cbn.
      * intros El. subst more. rewrite El. set_solver.
      * destruct Hm as [_ Hm]. by eapply HF1.
    + destruct (S3 x Hx'). split; [done|]. by eapply stable_meaning.
  - rewrite Ho. by eapply rows_stable.
Qed.

Definition lifted {A} (r : result vault_error A) : result service_error A :=
  match r with Ok a => Ok a | Err e => Err (InVault e) end.
Lemma wp_lift {A} l F (p : vprog A) (P : know -> result vault_error A -> Prop) :
  wp vault_inv l p P ->
  wp inv (l, F) (in_vault p) (fun l' r => l'.2 = F /\ ((exists r0, P l'.1 r0 /\ r = lifted r0)
                                                       \/ (minted l'.1 = None /\ exists e, r = Err e))).
Proof.
  revert l. induction p as [r|D m k IH|D q k IH]; intros l H.
  - cbn. destruct r as [a|e]; cbn; split; try done; left; eexists; split; done.
  - destruct H as (next & Hinv & Hk). cbn.
    exists (fun r => match r with Ok r => (next r, F) | Err _ => (VaultProofs.Nothing, F) end). split.
    + intros w a b g Hw. unfold step_within. specialize (Hinv (w_vault w)). destruct (m (w_vault w)) as [v r]. cbn in *.
      by apply (inv_vault w _ a b l (next r) F g g); [..|intros x y; apply Hinv|].
    + intros [r|e]; [by apply IH|]. cbn. split; [done|]. right. split; [done|]. by exists e.
  - cbn. intros x. destruct (H x) as (l' & Hinv & Hk). exists (l', F). split; [|by apply IH].
    intros w a b g Hw. apply (inv_vault w w a b l l' F g); try done.
    + rewrite vault_log_app. apply VaultProofs.inv_prefix.
    + intros y z Hv. rewrite vault_log_app. by apply Hinv.
Qed.

(** *** Thread by thread *)

(** From [F] the program keeps the invariant, forgets nothing, and returns what
    [P] says. *)
Definition safe {A} (F : fact) (p : oprog A) (P : A -> fact) : Prop :=
  forall l, minted l.1 = None -> stable l.2 -> entails (meaning l) F ->
    wp inv l p (fun l' r => (minted l'.1 = None /\ stable l'.2 /\ entails (meaning l') (meaning l))
                            /\ match r with Ok a => entails (meaning l') (P a) | Err _ => True end).
Definition any {A} : A -> fact := fun _ => anyone.

Lemma safe_weaken {A} F F' (p : oprog A) P P' :
  safe F p P -> entails F' F -> (forall a, entails (both F' (P a)) (P' a)) -> safe F' p P'.
Proof.
  intros H HF HP l Hl Hs He. eapply wp_mono; [apply H; [done|done|]|].
  - intros w e Hm. by apply HF, He.
  - intros l' r [(H1 & H2 & H3) Hr]. split; [done|]. destruct r as [a|]; [|done]. intros w e Hm. apply HP. split; [|by apply Hr].
    by apply He, H3.
Qed.
Lemma safe_any {A} F (p : oprog A) P : safe anyone p P -> safe F p any.
Proof. intros H. by eapply safe_weaken. Qed.
Lemma safe_give {A} F (a : A) P : entails F (P a) -> safe F (give a) P.
Proof. intros H l Hl Hs He. cbn. split; [split_and!; [done|done|by intros w e]|]. intros w e Hm. by apply H, He. Qed.
Lemma safe_raise {A} F e P : safe F (raise (A := A) e) P.
Proof. intros l Hl Hs He. cbn. by split. Qed.
Lemma safe_bind {A C} F (p : oprog A) (f : A -> oprog C) P P' :
  safe F p P -> (forall a, safe (both F (P a)) (f a) P') -> safe F (prog_bind p f) P'.
Proof.
  intros Hp Hf l Hl Hs He. apply wp_bind. eapply wp_mono; [by apply Hp|]. intros l' [a|err] [(H1 & H2 & H3) Hr]; [|done].
  eapply wp_mono; [apply (Hf a); [done|done|]|].
  - intros w e Hm. split; [by apply He, H3|by apply Hr].
  - intros l2 r [(H4 & H5 & H6) Hr2]. split; [|done]. split_and!; [done|done|]. intros w e Hm. by apply H3, H6.
Qed.
Lemma safe_then {A C} F (p : oprog A) (f : A -> oprog C) P : safe anyone p any -> (forall a, safe F (f a) P) -> safe F (prog_bind p f) P.
Proof.
  intros Hp Hf. eapply safe_bind; [by eapply safe_any|]. intros a. eapply safe_weaken; [apply Hf|by intros w e [? _]|by intros ? w e [_ ?]].
Qed.
Lemma safe_attempt {A} F (p : oprog A) P :
  safe F p P -> safe F (attempt p) (fun r => match r with Ok a => P a | Err _ => anyone end).
Proof.
  intros Hp l Hl Hs He. specialize (Hp l Hl Hs He). clear Hl Hs He.
  assert (forall l0, wp inv l p (fun l' r => (minted l'.1 = None /\ stable l'.2 /\ entails (meaning l') (meaning l0))
                            /\ match r with Ok a => entails (meaning l') (P a) | Err _ => True end) ->
     wp inv l (attempt p) (fun l' r => (minted l'.1 = None /\ stable l'.2 /\ entails (meaning l') (meaning l0))
        /\ match r with Ok a => entails (meaning l') (match a with Ok a => P a | Err _ => anyone end) | Err _ => True end)) as Hg; [|by apply Hg].
  clear Hp. intros l0. revert l. induction p as [[a|e]|D m k IH|D q k IH]; intros l H; cbn in *.
  - done.
  - split; [apply H|]. done.
  - destruct H as (next & Hi & Hk). exists next. split; [done|]. intros r. by apply IH.
  - intros x. destruct (H x) as (l' & Hi & Hk). exists l'. split; [done|]. by apply IH.
Qed.
Lemma safe_forget {A} (p : oprog A) P : safe anyone p P -> wp inv idle (forget p) anything.
Proof. intros H. apply (wp_forget inv idle p (fun _ => True)). eapply wp_mono; [by apply H|done]. Qed.

(** A statement that is not one of the vault. *)
Lemma safe_atom {A} F (m : stm world service_error A) P :
  (forall a, stable (P a)) ->
  (forall w, grows w (m w).1 /\ w_vault (m w).1 = w_vault w) ->
  (forall w e, F w e -> rows_ok w e (w_oauth w) ->
     rows_ok (m w).1 e (w_oauth (m w).1) /\ forall a, (m w).2 = Ok a -> P a (m w).1 e) ->
  safe F (atom m) P.
Proof.
  intros HP Hw Hm [k G] Hl Hs He. cbn.
  exists (fun r => (k, both (meaning (k, G)) (match r with Ok a => P a | Err _ => anyone end))). split.
  - intros w a b g. destruct (Hw w) as [H1 H2]. apply system_inv_step; [done|done|done| |].
    + intros HG. apply stable_both; [by apply stable_meaning|]. by destruct (m w).2.
    + intros e Hme Hr. destruct (Hm w e) as [H3 H4]; [by apply He|done|]. split; [|done]. split.
      * eapply stable_meaning; [by destruct Hme|exact H1|reflexivity|done].
      * destruct (m w).2 as [x|]; [by apply H4|done].
  - intros r. cbn. split.
    + split_and!; [done| |by intros w e [_ [? _]]]. apply stable_both; [by apply stable_meaning|]. by destruct r.
    + destruct r as [x|]; [by intros w e [_ [_ ?]]|done].
Qed.
Lemma safe_ask {A} (q : ask_of A) : (forall x, vault_event (answered q x) = None) -> safe anyone (ask q) any.
Proof.
  intros Hq [k G] Hl Hs He x. exists (k, G). split; [|by split; [split_and!; [done|done|by intros w e]|]].
  intros w a b g. apply system_inv_step; [apply world_grows_refl|done| |done|by intros e [_ Hm] Hr].
  rewrite vault_log_app, Hq. by rewrite app_nil_r.
Qed.
(** The vault is called as it is. *)
Lemma wp_meaning {A} k G (p : oprog A) (P : ghost -> result service_error A -> Prop) :
  stable G -> (forall r, P (k, meaning (k, G)) r -> P (k, G) r) -> wp inv (k, meaning (k, G)) p P -> wp inv (k, G) p P.
Proof.
  intros Hs HP. assert (forall w a b g, inv w (a ++ (k, G) :: b) g -> inv w (a ++ (k, meaning (k, G)) :: b) g) as Hi.
  { intros w a b g. apply system_inv_step; [apply world_grows_refl|done|done| |by intros e Hm Hr]. intros _. by apply stable_meaning. }
  destruct p as [r|D m f|D q f]; cbn; [apply HP| |].
  - intros (next & Hn & Hk). exists next. split; [|done]. intros w a b g Hw. by apply Hn, Hi.
  - intros H x. destruct (H x) as (l' & Hn & Hk). exists l'. split; [|done]. intros w a b g Hw. by apply Hn, Hi.
Qed.
Lemma safe_vault {A} F (p : vprog A) (Q : know -> A -> Prop) P :
  (forall l, minted l = None -> wp vault_inv l p (fun l' r => minted l' = None /\ match r with Ok a => Q l' a | Err _ => True end)) ->
  (forall k a, Q k a -> entails (fun _ e => k ∈ e) (P a)) ->
  safe F (in_vault p) P.
Proof.
  intros Hp HQ [k G] Hl Hs He. apply wp_meaning; [done| |].
  - intros r [(H1 & H2 & H3) Hr]. split; [done|]. destruct r as [a|]; [|done]. intros w e Hm. apply Hr. split; [by destruct Hm|done].
  - eapply wp_mono; [apply wp_lift, Hp; done|]. intros [k' G'] r [Hg Hr]. cbn in Hg. subst G'.
    assert (minted k' = None) as Hk' by naive_solver. split.
    + split_and!; [done|by apply stable_meaning|by intros w e [_ ?]].
    + destruct Hr as [(r0 & [_ Hr] & ->)|[_ [err ->]]]; [|done]. destruct r0 as [a|]; cbn; [|done].
      intros w e [Hm _]. by eapply HQ, Hm.
Qed.
Lemma safe_quiet {A} (p : vprog A) : VaultProofs.quiet asked_of_vault p -> safe anyone (in_vault p) any.
Proof. intros Hp. apply (safe_vault _ p (fun _ _ => True)); [|done]. intros l Hl. apply VaultProofs.quiet_wp; [done|]. by intros [a|e]. Qed.

(** *** The stores *)

Lemma safe_sessions {A} F (m : sm A) P :
  widens m -> (forall a, stable (P a)) ->
  (forall w e a, F w e -> (m (w_sessions w)).2 = Ok a -> P a w e) -> safe F (in_sessions m) P.
Proof.
  intros Hm HP H. unfold in_sessions.
  assert (forall w, grows w (stm_within w_sessions with_sessions InSession m w).1) as Hg.
  { intros w. unfold stm_within, grows. specialize (Hm (w_sessions w)). by destruct (m (w_sessions w)). }
  apply safe_atom; [done| |].
  - intros w. split; [apply Hg|]. unfold stm_within. by destruct (m (w_sessions w)).
  - intros w e HF Hr. specialize (Hg w). specialize (H w e). unfold stm_within in *. destruct (m (w_sessions w)) as [s r]. split.
    + by eapply rows_stable.
    + intros a Ha. destruct r as [x|]; [|done]. injection Ha as ->. eapply HP; [exact Hg|reflexivity|]. by apply H.
Qed.
Lemma grows_oauth o w : grows w (with_oauth o w).
Proof. unfold grows. done. Qed.
Lemma safe_oauth {A} F (m : om A) P :
  (forall a, stable (P a)) ->
  (forall w e, F w e -> rows_ok w e (w_oauth w) ->
     rows_ok w e (m (w_oauth w)).1 /\ forall a, (m (w_oauth w)).2 = Ok a -> P a w e) ->
  safe F (in_oauth m) P.
Proof.
  intros HP H. apply safe_atom; [done| |].
  - intros w. unfold stm_within. destruct (m (w_oauth w)) as [o r]. by split; [apply grows_oauth|].
  - intros w e HF Hr. destruct (H w e HF Hr) as [H1 H2]. unfold stm_within. destruct (m (w_oauth w)) as [o r]. cbn in *. split.
    + by eapply rows_stable; [apply grows_oauth|reflexivity|].
    + intros a Ha. destruct r as [x|]; [|done]. injection Ha as ->. eapply HP; [apply grows_oauth|reflexivity|by apply H2].
Qed.
Lemma safe_read {A} F (f : oauth -> A) P :
  (forall a, stable (P a)) -> (forall w e, F w e -> rows_ok w e (w_oauth w) -> P (f (w_oauth w)) w e) -> safe F (read_oauth f) P.
Proof.
  intros HP H. apply safe_atom; [done|by intros w; split; [apply world_grows_refl|]|]. intros w e HF Hr. split; [done|].
  intros a [= <-]. by apply H.
Qed.
Lemma safe_look {A} (f : oauth -> A) : safe anyone (read_oauth f) any.
Proof. by apply safe_read. Qed.

(** Rows that are rows of before, for what matters here. *)
Record rows_from (o o' : oauth) : Prop := {
  rf_transactions : forall t', t' ∈ transactions o' -> exists t, t ∈ transactions o
    /\ t_principal t' = t_principal t /\ t_session t' = t_session t /\ t_provider t' = t_provider t;
  rf_connections : forall k x', connections o' !! k = Some x' -> exists x, connections o !! k = Some x /\ c_credential x' = c_credential x;
  rf_installations : forall x', x' ∈ installations o' -> exists x, x ∈ installations o
    /\ i_principal x' = i_principal x /\ (i_credential x' = i_credential x \/ i_credential x' = None);
  rf_profiles : forall x', x' ∈ profiles o' -> exists x, x ∈ profiles o /\ p_owner x' = p_owner x /\ p_credential x' = p_credential x;
}.
#[global] Instance rows_from_refl : Reflexive rows_from.
Proof. intros o. constructor; naive_solver. Qed.
Lemma started_as w t t' : t_principal t' = t_principal t -> t_session t' = t_session t -> t_provider t' = t_provider t -> started w t -> started w t'.
Proof. unfold started. by intros -> -> ->. Qed.
Lemma rows_from_ok w e o o' : rows_from o o' -> rows_ok w e o -> rows_ok w e o'.
Proof.
  intros [F1 F2 F3 F4] [H1 H2 H3 H4]. constructor.
  - intros t' Ht. destruct (F1 _ Ht) as (t & Hi & E1 & E2 & E3). by apply (started_as w t), H1.
  - intros p provider x' Hx. destruct (F2 _ _ Hx) as (x & Hi & ->). by eapply H2.
  - intros x' Hx. destruct (F3 _ Hx) as (x & Hi & -> & Hc). destruct (H3 x Hi) as [HA HB]. split; [done|].
    destruct Hc as [->| ->]; [done|]. intros c Hc. done.
  - intros x' Hx. destruct (F4 _ Hx) as (x & Hi & -> & ->). by apply H4.
Qed.
Definition harmless {A} (m : om A) : Prop := forall o, rows_from o (m o).1.
Lemma safe_harmless {A} (m : om A) : harmless m -> safe anyone (in_oauth m) any.
Proof. intros Hm. apply safe_oauth; [done|]. intros w e _ Hr. split; [|done]. eapply rows_from_ok; [apply Hm|done]. Qed.

Lemma harmless_consume st sid p now : harmless (consume_transaction st sid p now).
Proof.
  intros o. unfold consume_transaction. destruct st, sid, p; try done. destruct (negb _); [done|].
  constructor; cbn; try naive_solver. intros t (x & -> & Hx)%list_elem_of_fmap. exists x. by destruct (consumable _ _ _ _ x).
Qed.
Lemma harmless_pending p provider now : harmless (mark_pending_revocation p provider now).
Proof.
  intros o. unfold mark_pending_revocation. destruct (_ !! _) as [c|] eqn:Ec; [|done]. constructor; cbn; try naive_solver.
  intros k x'. rewrite lookup_insert_Some. intros [[<- <-]|[_ Hx]]; [by exists c|by exists x'].
Qed.
Lemma harmless_delete p provider credential : harmless (delete_connection p provider credential).
Proof.
  intros o. unfold delete_connection. destruct (_ !! _) as [c|] eqn:Ec; [|done]. destruct (String.eqb _ _); [|done].
  constructor; cbn; try naive_solver. intros k x' [_ Hx]%lookup_delete_Some. by exists x'.
Qed.
Lemma harmless_update (p : installation -> bool) f :
  (forall x, i_principal (f x) = i_principal x /\ (i_credential (f x) = i_credential x \/ i_credential (f x) = None)) ->
  harmless (update_installations p f).
Proof.
  intros Hf o. constructor; cbn; try naive_solver. intros x' (x & -> & Hx)%list_elem_of_fmap. exists x.
  destruct (p x); [by split|by split_and!; [|..|left]].
Qed.
Lemma harmless_tombstone id tenant now : harmless (tombstone_installation id tenant now).
Proof. apply harmless_update. intros x. split; [done|by right]. Qed.
Lemma harmless_mark id tenant st now expected : harmless (mark_installation_status id tenant st now expected).
Proof.
  intros o. unfold mark_installation_status. destruct (negb _); [done|]. apply harmless_update. intros x. split; [done|by left].
Qed.
Lemma harmless_profiles (p : profile -> bool) f :
  (forall x, p_owner (f x) = p_owner x /\ p_credential (f x) = p_credential x) -> harmless (update_profiles p f).
Proof.
  intros Hf o. constructor; cbn; try naive_solver. intros x' (x & -> & Hx)%list_elem_of_fmap. exists x. destruct (p x); [by split|done].
Qed.
Lemma harmless_switch (m : om unit) : (forall o, exists st f sn, (m o).1 = with_switches o st f sn \/ (m o).1 = o) -> harmless m.
Proof.
  intros H o. destruct (H o) as (st & f & sn & [->| ->]); [|done]. constructor; cbn; naive_solver.
Qed.
Lemma harmless_stop tenant active now reason who : harmless (set_emergency_stop tenant active now reason who).
Proof. apply harmless_switch. intros o. unfold set_emergency_stop. destruct (negb _); [exists ∅, ∅, ∅; by right|]. do 3 eexists. by left. Qed.
Lemma harmless_family tenant family enabled now who : harmless (set_capability_family_enabled tenant family enabled now who).
Proof.
  apply harmless_switch. intros o. unfold set_capability_family_enabled.
  do 2 (destruct (negb _); [exists ∅, ∅, ∅; by right|]). do 3 eexists. by left.
Qed.
Lemma harmless_sender tenant sender enabled now family who : harmless (set_control_plane_sender_enabled tenant sender enabled now family who).
Proof.
  apply harmless_switch. intros o. unfold set_control_plane_sender_enabled.
  do 2 (destruct (negb _); [exists ∅, ∅, ∅; by right|]). do 3 eexists. by left.
Qed.
Lemma harmless_routes tenant l : harmless (replace_voice_routes tenant l).
Proof. intros o. unfold replace_voice_routes. case_match; [|done]. constructor; cbn; naive_solver. Qed.
Lemma harmless_state tenant : harmless (fun o => (o, control_plane_state tenant o)).
Proof. by intros o. Qed.

(** Rows that are made. *)
Lemma rows_create_ok w e o t : started w t -> rows_ok w e o -> rows_ok w e (create_transaction t o).1.
Proof.
  intros Ht [H1 H2 H3 H4]. unfold create_transaction.
  assert (forall x, x ∈ List.filter (fun x => t_created_at t <=? t_expires_at x) (transactions o) -> started w x) as Hk.
  { intros x Hx. apply H1. apply list_elem_of_In, filter_In in Hx as [Hx _]. by apply list_elem_of_In. }
  destruct (existsb _ _); constructor; cbn; try done. intros x [Hx| ->%list_elem_of_singleton]%elem_of_app; [by apply Hk|done].
Qed.
Lemma connection_ok w e o p provider c scopes capabilities now :
  google_consent w p -> VaultProofs.Kept c p ∈ e -> rows_ok w e o ->
  rows_ok w e (upsert_connection p provider c scopes capabilities now o).1.
Proof.
  intros Hc Hk [H1 H2 H3 H4]. constructor; cbn; try done.
  intros p' provider' x. rewrite lookup_insert_Some. intros [[[= <- <-] <-]|[_ Hx]]; [done|by eapply H2].
Qed.
Lemma insert_ok w e o new :
  linked w e (i_principal new) (i_credential new) -> rows_ok w e o -> rows_ok w e (insert_installation new o).1.
Proof.
  intros Hn [H1 H2 H3 H4]. unfold insert_installation. destruct (List.find _ _) as [y|]; (destruct (existsb _ _); [done|]);
    constructor; cbn; try done.
  - intros x (z & -> & Hz)%list_elem_of_fmap. destruct (String.eqb _ _); [done|by apply H3].
  - intros x [Hx| ->%list_elem_of_singleton]%elem_of_app; [by apply H3|done].
Qed.
Lemma rows_transaction_ok {A} w e (m : om A) o : (rows_ok w e o -> rows_ok w e (m o).1) -> rows_ok w e o -> rows_ok w e (transaction m o).1.
Proof. intros Hm Ho. specialize (Hm Ho). unfold transaction. by destruct (m o) as [o' [a|err]]. Qed.
Lemma installation_ok w e o q now :
  linked w e (q_principal q) (q_credential q) -> rows_ok w e o -> rows_ok w e (upsert_installation q now o).1.
Proof.
  intros Hq. apply rows_transaction_ok. intros Ho. destruct (q_tenant q) as [tenant|]; [|done].
  do 2 (destruct (negb _); [done|]). destruct (String.eqb (q_provider q) "slack" && _); [done|]. cbv zeta.
  destruct (List.find _ (installations o)) as [x|].
  - destruct (negb _); [done|]. pose proof (insert_ok w e o (new_installation q (i_id x) tenant now) Hq Ho) as H.
    by destruct (insert_installation _ o).
  - pose proof (insert_ok w e o (new_installation q (resolved_id q) tenant now) Hq Ho) as H. by destruct (insert_installation _ o).
Qed.
Lemma profile_ok w e o id tenant connection kind owner c scopes now subject version enabled :
  slack_consent w owner -> VaultProofs.Kept c owner ∈ e -> rows_ok w e o ->
  rows_ok w e (record_authority_profile id tenant connection kind owner c scopes now subject version enabled o).1.
Proof.
  intros Hc Hk [H1 H2 H3 H4]. unfold record_authority_profile. do 3 (case_match; [done|]).
  destruct (get_authority_profile _ _ _ _ _); [|destruct (existsb _ _); [done|]]; constructor; cbn; try done.
  - intros x (y & -> & Hy)%list_elem_of_fmap. destruct (same_profile tenant connection kind owner y) eqn:Es; [|by apply H4].
    unfold same_profile in Es. rewrite !andb_true_iff in Es. destruct Es as [_ Es%String.eqb_eq]. cbn. by rewrite Es.
  - intros x [Hx| ->%list_elem_of_singleton]%elem_of_app; [by apply H4|done].
Qed.

(** *** Sessions, and custody *)

Definition of_session (sid : option string) (p : string) : fact := fun w _ => in_session_of w sid p.
Definition of_own_session (sid csrf : option string) (p : string) : fact := fun w _ => in_own_session_of w sid csrf p.
Lemma safe_current sid : safe anyone (current self sid) (fun o w e => forall p, o = Some p -> in_session_of w sid p).
Proof.
  unfold current. apply safe_then; [by apply safe_ask|]. intros now.
  eapply (safe_bind _ _ _ (fun o w e => forall c, o = Some c -> in_session_of w sid (r_principal c))).
  - apply safe_sessions; [apply resolve_widens| |].
    + intros a w w' e e' Hw He H c Hc. eapply stable_session; [done|exact He|by apply H].
    + intros w e [c|] _ Hr; [|done]. intros c' [= <-]. destruct (resolve_finds _ _ _ _ _ _ Hr) as (k & r & H). by exists k, r.
  - intros [c|]; apply safe_give; intros w e [_ Hc] p [= <-]. by apply Hc.
Qed.
Lemma safe_in_session sid k :
  (forall p, safe (of_session sid p) (k p) any) -> safe anyone (in_session self sid k) any.
Proof.
  intros Hk. unfold in_session. eapply safe_bind; [apply safe_current|]. intros [p|]; [|by apply safe_give].
  eapply safe_weaken; [apply Hk| |done]. intros w e [_ H]. by apply H.
Qed.
Lemma safe_in_own_session sid csrf k :
  (forall p, safe (both (of_session sid p) (of_own_session sid csrf p)) (k p) any) -> safe anyone (in_own_session self sid csrf k) any.
Proof.
  intros Hk. unfold in_own_session. apply safe_in_session. intros p.
  eapply (safe_bind _ _ _ (fun ok : bool => if ok then of_own_session sid csrf p else anyone)).
  - apply safe_sessions.
    + intros s. by rewrite csrf_reads.
    + intros [|]; [apply stable_own|done].
    + intros w e ok (k0 & r & Hk0 & Hr & Hp). rewrite csrf_reads. intros [= <-]. unfold csrf_of. rewrite Hk0.
      destruct (given csrf) as [token|] eqn:Et; [|done]. destruct (live (w_sessions w) k0) as [r'|] eqn:El; [|done].
      destruct (String.eqb_spec (csrf_hash r') (_hash token)) as [Hc|]; [|done]. apply live_row_of in El.
      exists k0, token, r. split_and!; try done. congruence.
  - intros [|]; [|by apply safe_give]. eapply safe_weaken; [apply Hk|done|done].
Qed.

Definition kept (p : string) (c : option string) : fact := fun _ e => forall id, c = Some id -> VaultProofs.Kept id p ∈ e.
Lemma stable_kept p c : stable (kept p c).
Proof. intros w w' e e' _ He H id Hid. by apply He, H. Qed.
Lemma safe_keep p provider scopes secret context : safe anyone (keep self p provider scopes secret context) (kept p).
Proof.
  unfold keep. eapply safe_bind.
  - apply safe_attempt. apply safe_then.
    + apply safe_quiet, VaultProofs.quiet_ingestion.
    + intros envelope. eapply (safe_vault _ _ (fun k x => x.1 = 200 -> exists id, get x.2 "credential_id" = VStr id /\ k = VaultProofs.Kept id p)
          (fun x w e => x.1 = 200 -> exists id, get x.2 "credential_id" = VStr id /\ VaultProofs.Kept id p ∈ e)).
      * intros l Hl. eapply wp_mono; [by apply VaultProofs.wp_store_managed|]. intros l' r [Hm Hr]. split; [done|].
        destruct r as [[status answer]|]; [|done]. intros Hs. destruct (Hr Hs) as (id & p' & H1 & H2 & H3). exists id.
        split; [done|]. rewrite H3. f_equal. destruct p; [done|]. by injection H2.
      * intros k x H w e Hk Hs. destruct (H Hs) as (id & H1 & ->). by exists id.
  - intros [[status answer]|err]; cbn.
    + destruct (Z.eqb_spec status 200) as [->|]; [|by apply safe_give].
      destruct (get answer "credential_id") as [| | |id| |] eqn:Eid; try apply safe_raise. apply safe_give.
      intros w e [_ H] id' [= <-]. destruct (H eq_refl) as (id0 & H1 & H2). unfold get in Eid. cbn in H1. rewrite Eid in H1. by injection H1 as <-.
    + destruct (is_managed_error err); [by apply safe_give|apply safe_raise].
Qed.

(** *** The handlers *)

Lemma safe_now : safe anyone now_int any.
Proof. unfold now_int. apply safe_then; [by apply safe_ask|]. intros t. by apply safe_give. Qed.
Lemma safe_tenant p : safe anyone (_tenant_id p) any.
Proof. unfold _tenant_id. apply safe_then; [by apply safe_ask|]. intros [t|]; [destruct (truthy t)|]; by apply safe_give. Qed.
Lemma safe_text v : safe anyone (optional_text v) any.
Proof. unfold optional_text. destruct v; try (case_match; [by apply safe_give|apply safe_raise]). by apply safe_give. Qed.
Lemma safe_drop c p : safe anyone (drop c p) any.
Proof. apply safe_quiet, VaultProofs.quiet_delete. Qed.
Lemma safe_tried {A} (p : oprog A) : safe anyone p any -> safe anyone (attempt p) any.
Proof. intros Hp. by eapply safe_any, safe_attempt. Qed.

Ltac harmless_one :=
  first [apply harmless_consume|apply harmless_pending|apply harmless_delete|apply harmless_tombstone|apply harmless_mark
        |apply harmless_profiles; by intros|apply harmless_stop|apply harmless_family|apply harmless_sender|apply harmless_routes
        |apply harmless_state].
Ltac walk_step :=
  lazymatch goal with
  | |- safe _ (prog_bind _ _) any => apply safe_then
  | |- safe _ (give _) any => by apply safe_give
  | |- safe _ (error _ _) any => by apply safe_give
  | |- safe _ (pending _ _) any => by apply safe_give
  | |- safe _ (raise _) any => apply safe_raise
  | |- safe _ (require ?b _ _) any => unfold require; destruct b
  | |- safe _ (if ?b then _ else _) any => destruct b
  | |- safe _ (let _ := _ in _) any => cbv zeta
  | |- safe _ (match ?x with _ => _ end) any => destruct x
  | |- safe anyone now_int any => apply safe_now
  | |- safe anyone (_tenant_id _) any => apply safe_tenant
  | |- safe anyone (optional_text _) any => apply safe_text
  | |- safe anyone (drop _ _) any => apply safe_drop
  | |- safe anyone (ask _) any => by apply safe_ask
  | |- safe anyone (read_oauth _) any => apply safe_look
  | |- safe anyone (attempt _) any => apply safe_tried
  | |- safe anyone (in_vault _) any =>
      apply safe_quiet; first [apply VaultProofs.quiet_begin|apply VaultProofs.quiet_revocation|apply VaultProofs.quiet_delete]
  | |- safe anyone (in_oauth _) any => apply safe_harmless; harmless_one
  | |- safe anyone (in_session _ _ _) any => apply safe_in_session; intros ?; apply (safe_any _ _ any)
  | |- safe anyone (in_own_session _ _ _ _) any => apply safe_in_own_session; intros ?; apply (safe_any _ _ any)
  | |- forall _, _ => intros ?
  end.
Ltac walk := repeat walk_step.

Lemma safe_google_status sid : safe anyone (google_status self sid) any.
Proof. unfold google_status. walk. Qed.
Lemma safe_disconnect_google sid csrf : safe anyone (disconnect_google self sid csrf) any.
Proof. unfold disconnect_google. walk. Qed.
Lemma safe_slack_status sid : safe anyone (slack_status self sid) any.
Proof. unfold slack_status. walk. Qed.
Lemma safe_decision sid csrf connection kind body : safe anyone (slack_personal_authority_decision self sid csrf connection kind body) any.
Proof. unfold slack_personal_authority_decision. walk. apply safe_harmless. destruct (String.eqb _ _); by apply harmless_profiles. Qed.
Lemma safe_disconnect_slack sid csrf id : safe anyone (disconnect_slack self sid csrf id) any.
Proof. unfold disconnect_slack. walk. Qed.
Lemma safe_account_status sid provider : safe anyone (provider_account_status self sid provider) any.
Proof. unfold provider_account_status. walk. Qed.
Lemma safe_control_status sid : safe anyone (control_plane_status self sid) any.
Proof. unfold control_plane_status. walk. Qed.
Lemma safe_decide_control sid csrf body : safe anyone (decide_control_plane self sid csrf body) any.
Proof. unfold decide_control_plane, with_flag. walk; apply safe_control_status. Qed.
Lemma safe_voice_routes sid : safe anyone (get_voice_routes self sid) any.
Proof. unfold get_voice_routes, list_voice_routes. walk. Qed.
Lemma safe_save_routes sid csrf body : safe anyone (save_voice_routes self sid csrf body) any.
Proof. unfold save_voice_routes, list_voice_routes. walk. Qed.

Lemma safe_create F t : entails F (fun w _ => started w t) -> safe F (in_oauth (create_transaction t)) any.
Proof. intros Ht. apply safe_oauth; [done|]. intros w e HF Hr. split; [|done]. by apply rows_create_ok; [eapply Ht|]. Qed.
Ltac creating :=
  lazymatch goal with
  | |- safe _ (prog_bind (in_oauth (create_transaction _)) _) any => eapply (safe_bind _ _ _ any); [apply safe_create|]
  end.
Lemma safe_initiate_google sid csrf body : asked (InitiateGoogle sid csrf body) -> safe anyone (initiate_google self sid csrf body) any.
Proof.
  intros Ha. unfold initiate_google. apply safe_in_own_session. intros p. repeat (first [creating|walk_step]).
  intros w e [_ Hs]. exists sid, csrf, (VDict d). split; [exact Hs|]. split; [done|]. by left.
Qed.
Lemma safe_initiate_slack sid csrf body : asked (InitiateSlack sid csrf body) -> safe anyone (initiate_slack self sid csrf body) any.
Proof.
  intros Ha. unfold initiate_slack. apply safe_in_own_session. intros p. repeat (first [creating|walk_step]);
    intros w e [_ Hs]; exists sid, csrf, (VDict d); (split; [exact Hs|]); (split; [done|]); by right.
Qed.

(** What a callback is given. *)
Definition consumed (st sid : option string) (p : string) (o : option transaction_row) : fact := fun w _ =>
  forall t, o = Some t -> exists state, st = Some state /\ started w t /\ t_principal t = p
    /\ t_session t = hash_value (default "" sid) /\ t_state t = hash_value state.
Lemma safe_consume F st sid p now : safe F (in_oauth (consume_transaction st sid (Some p) now)) (consumed st sid p).
Proof.
  apply safe_oauth.
  - intros o w w' e e' Hw He H t Ht. destruct (H t Ht) as (state & H1 & H2 & H3). exists state. split; [done|].
    split; [by eapply stable_started|done].
  - intros w e _ Hr. split; [by eapply rows_from_ok; [apply harmless_consume|]|]. intros o Ho t ->.
    unfold consume_transaction in Ho. destruct st as [st|], sid as [sid|]; try done. destruct (negb _); [done|]. cbn in Ho.
    destruct (List.find _ _) as [r|] eqn:Ef; [|done]. injection Ho as <-. apply find_some in Ef as [Hi%list_elem_of_In Hc].
    unfold consumable in Hc. rewrite !andb_true_iff in Hc.
    destruct Hc as [[[[E1%String.eqb_eq E2%String.eqb_eq] E3%String.eqb_eq] _] _]. exists st. cbn. split_and!; try done.
    by apply (started_as w r), (ro_transactions _ _ _ Hr).
Qed.

Definition google_of (p : string) : fact := fun w _ => google_consent w p.
Definition slack_of (p : string) : fact := fun w _ => slack_consent w p.
Definition account_of (p : string) : fact := fun w _ => account_consent w p.
Definition held (p : string) (o : option connection_row) : fact := fun _ e =>
  forall x, o = Some x -> VaultProofs.Kept (c_credential x) p ∈ e.
Definition chosen (p : string) (r : string * response + response) : fact := fun _ e =>
  forall c answer, r = inl (c, answer) -> VaultProofs.Kept c p ∈ e.
Lemma safe_google_credential p t a existing : safe (held p existing) (google_credential self p t a existing) (chosen p).
Proof.
  unfold google_credential. destruct (refresh_token a) as [tok|].
  - destruct (negb _); [by apply safe_give|]. eapply safe_bind; [eapply safe_weaken; [apply safe_keep|done|by intros c w e [_ H]]|].
    intros [c|]; apply safe_give; intros w e [_ H] c' answer [= <- _]. by apply H.
  - destruct existing as [x|]; apply safe_give; [|done]. intros w e H c answer [= <- _]. by apply H.
Qed.
Lemma safe_complete_google sid code state pe :
  asked (CompleteGoogle sid code state pe) -> safe anyone (complete_google self sid code state pe) any.
Proof.
  intros Ha. unfold complete_google. apply safe_in_session. intros p. apply safe_then; [apply safe_tenant|]. intros tenant.
  unfold require at 1. destruct (_ || _); [|by apply safe_give].
  destruct state as [| | |st| |]; try (by apply safe_give). cbn [given_text]. destruct (truthy st); [|by apply safe_give].
  apply safe_then; [apply safe_now|]. intros now. eapply safe_bind; [apply safe_consume|]. intros [t|]; [|by apply safe_give].
  destruct pe; [by apply safe_give|]. destruct code as [| | |code| |]; try (by apply safe_give). cbn [given_text].
  destruct (truthy code); [|by apply safe_give]. apply safe_then; [by apply safe_ask|]. intros [a|[]]; [|by apply safe_give]. cbv zeta.
  apply (safe_weaken (google_of p) _ _ any any); [| |done].
  2:{ intros w e [Hs Hc]. destruct (Hc t eq_refl) as (state & [= <-] & H1 & H2 & H3 & H4).
      exists t, sid, code, st. split_and!; try done. by subst p. }
  eapply (safe_bind _ _ _ (held p)).
  { apply safe_read; [intros x w w' e e' _ He H y Hy; by apply He, H|]. intros w e _ Hr x Hx. by eapply (ro_connections _ _ _ Hr p GOOGLE). }
  intros existing. eapply safe_bind; [eapply safe_weaken; [apply safe_google_credential|by intros w e [_ H]|by intros r w e [_ H]]|].
  intros [[c answer]|answer]; [|by apply safe_give]. apply safe_then; [apply safe_now|]. intros now'. eapply (safe_bind _ _ _ any).
  - apply safe_oauth; [done|]. intros w e [[Hg _] Hk] Hr. split; [|done]. apply connection_ok; [exact Hg| |done]. by eapply Hk.
  - intros []. walk.
Qed.

Lemma safe_record tenant x p u : safe (slack_of p) (_record_slack_user_authority self tenant x p u) any.
Proof.
  unfold _record_slack_user_authority. destruct u as [u|]; [|by apply safe_give].
  apply safe_then; [walk|]. intros expires. cbv zeta. eapply safe_bind; [eapply safe_weaken; [apply safe_keep|done|by intros c w e [_ H]]|].
  intros [c|]; [|by apply safe_give]. apply safe_then; [apply safe_now|]. intros now. apply safe_then; [by apply safe_ask|]. intros id.
  eapply (safe_bind _ _ _ any); [|intros []; by eapply safe_any, safe_look].
  apply safe_oauth; [done|]. intros w e [Hs Hk] Hr. split; [|done]. apply profile_ok; [exact Hs|by apply Hk|done].
Qed.
Lemma safe_personal p t u : safe (slack_of p) (_complete_slack_personal_consent self p t u) any.
Proof.
  unfold _complete_slack_personal_consent. apply safe_then; [apply safe_tenant|]. intros [tenant|]; [|by apply safe_give].
  unfold require. destruct (bool_decide _); [|by apply safe_give]. apply safe_then; [walk|]. intros [x|]; [|by apply safe_give].
  destruct (String.eqb _ _); [|by apply safe_give]. eapply (safe_bind _ _ _ any); [apply safe_record|]. intros [y|]; by apply safe_give.
Qed.
Lemma safe_install q now F :
  entails F (fun w e => linked w e (q_principal q) (q_credential q)) -> safe F (in_oauth (upsert_installation q now)) any.
Proof. intros H. apply safe_oauth; [done|]. intros w e HF Hr. split; [|done]. by apply installation_ok; [apply H|]. Qed.
Lemma safe_try_install q now F :
  entails F (fun w e => linked w e (q_principal q) (q_credential q)) -> safe F (attempt (in_oauth (upsert_installation q now))) any.
Proof. intros H. eapply safe_weaken; [by apply safe_attempt, safe_install|done|done]. Qed.
Lemma safe_install_slack p t a u : safe (slack_of p) (install_slack self p t a u) any.
Proof.
  unfold install_slack. destruct (given_text _) as [team|]; [|by apply safe_give]. unfold require at 1.
  destruct (_ && _); [|by apply safe_give]. apply safe_then; [apply safe_tenant|]. intros [tenant|]; [|by apply safe_give].
  unfold require at 1. destruct (bool_decide _); [|by apply safe_give]. apply safe_then; [apply safe_look|]. intros previous.
  apply safe_then; [walk|]. intros existing. unfold require. destruct (match existing with Some _ => _ | None => _ end); [|by apply safe_give].
  cbv zeta. apply safe_then; [apply safe_now|]. intros now.
  eapply safe_bind; [eapply safe_weaken; [apply safe_keep|done|by intros c w e [_ H]]|]. intros [c|]; [|by apply safe_give].
  apply safe_then; [apply safe_now|]. intros now'. do 3 (apply safe_then; [apply safe_text|]; intros ?).
  eapply (safe_bind _ _ _ any); [apply safe_try_install|].
  { intros w e [Hs Hk]. split; [by left|]. intros c' [= <-]. by apply Hk. }
  intros [id|err]; [|walk]. apply safe_then; [apply safe_look|]. intros x. apply safe_then; [walk|]. intros [].
  destruct x as [x|]; [|apply safe_raise]. eapply (safe_bind _ _ _ any); [|walk].
  eapply safe_weaken; [apply safe_record|by intros w e [[H _] _]|done].
Qed.
Lemma safe_complete_slack sid code state pe :
  asked (CompleteSlack sid code state pe) -> safe anyone (complete_slack self sid code state pe) any.
Proof.
  intros Ha. unfold complete_slack. apply safe_in_session. intros p. apply safe_then; [apply safe_tenant|]. intros tenant.
  unfold require at 1. destruct (_ || _); [|by apply safe_give]. apply safe_then; [apply safe_now|]. intros now.
  eapply safe_bind; [apply safe_consume|]. intros [t|]; [|by apply safe_give]. unfold require at 1.
  destruct (String.eqb_spec (t_provider t) SLACK) as [Ep|]; [|by apply safe_give]. destruct pe; [by apply safe_give|].
  destruct code as [code|]; [|by apply safe_give]. unfold require at 1. destruct (truthy code); [|by apply safe_give]. cbv zeta.
  unfold require. destruct (_ || _); [|by apply safe_give]. apply safe_then; [by apply safe_ask|]. intros [[a u]|[]]; [|by apply safe_give].
  apply (safe_weaken (slack_of p) _ _ any any); [| |done].
  - destruct (_slack_personal_only_round _ _); [apply safe_personal|apply safe_install_slack].
  - intros w e [Hs Hc]. destruct (Hc t eq_refl) as (st & -> & H1 & H2 & H3 & H4).
    exists t, sid, code, st. split_and!; try done. by subst p.
Qed.
Lemma safe_connect sid csrf body : asked (ConnectAccount sid csrf body) -> safe anyone (connect_provider_account self sid csrf body) any.
Proof.
  intros Ha. unfold connect_provider_account. apply safe_in_own_session. intros p. destruct body as [| | | | |d]; try (by apply safe_give).
  unfold require at 1. destruct (hashable _); [|apply safe_raise]. destruct (connector _ _) as [[provider catalog]|]; [|by apply safe_give].
  apply safe_then; [apply safe_tenant|]. intros tenant. unfold require at 1. destruct (_ || _); [|by apply safe_give].
  destruct (given_text _) as [account|]; [|by apply safe_give]. destruct (given_text _) as [token|]; [|by apply safe_give].
  apply safe_then; [by apply safe_ask|]. intros [a|[]]; [|by apply safe_give].
  unfold require at 1. destruct (_ && _); [|by apply safe_give]. cbv zeta. unfold require at 1. destruct (String.eqb _ _); [|by apply safe_give].
  apply safe_then; [unfold lift_python; walk|]. intros scopes. unfold require at 1. destruct (truthy scopes); [|walk].
  eapply safe_bind; [eapply safe_weaken; [apply safe_keep|done|by intros c w e [_ H]]|]. intros [c|]; [|by apply safe_give].
  apply safe_then; [apply safe_now|]. intros now. eapply (safe_bind _ _ _ any); [apply safe_try_install|].
  { intros w e [[_ Hs] Hk]. split; [right; by exists sid, csrf, (VDict d)|]. intros c' [= <-]. by apply Hk. }
  intros [id|err]; walk.
Qed.
Lemma safe_apply tenant id a : safe anyone (apply_verified_account_state self tenant id a) any.
Proof.
  unfold apply_verified_account_state.
  eapply (safe_bind _ _ _ (fun o w e => forall x, o = Some x -> linked w e (i_principal x) (i_credential x))).
  { apply safe_read; [intros o w w' e e' Hw He H x Hx; eapply stable_linked; [done|done|by apply H]|].
    intros w e _ Hr x Hx. apply (ro_installations _ _ _ Hr). unfold get_installation in Hx. destruct (truthy tenant); [|done].
    by apply find_some in Hx as [Hx%list_elem_of_In _]. }
  intros [x|]; [|by apply safe_give]. unfold require. destruct (String.eqb _ _); [|by apply safe_give].
  destruct (connector _ _) as [[provider catalog]|]; [|by apply safe_give]. apply safe_then; [unfold lift_python; walk|]. intros scopes.
  cbv zeta. apply safe_then; [apply safe_now|]. intros now. eapply (safe_bind _ _ _ any); [apply safe_install|].
  - intros w e [_ H]. by apply H.
  - intros id'. by apply safe_give.
Qed.

(** *** All of them *)

Lemma widens_through {A} (m : sm A) f s : widens m -> extends s (through m f s).1.
Proof. intros Hm. unfold through. specialize (Hm s). by destruct (m s). Qed.
Lemma csrf_widens sid csrf : widens (csrf_matches sid csrf).
Proof. intros s. by rewrite csrf_reads. Qed.
Lemma sessions_widen c s : extends s (Sessions.exec R (session_terms self) c s).1.
Proof.
  destruct c; cbn [Sessions.exec]; apply widens_through.
  - intros o. unfold do_POST. destruct (PyValue.get (as_mapping body) "assertion") as [| | | | |d]; try reflexivity.
    generalize (verify_session_assertion d (PyValue.get d "principal_id") now1) as v. generalize (_proof_fingerprint d) as proof.
    intros proof v. destruct (PyValue.get d "principal_id") as [| | |p| |]; try (destruct v as [?|[]]; reflexivity).
    pose proof (create_widens (session_terms self) p proof (trunc now2) cookie session_id csrf_token o) as Hw.
    destruct v as [?|[]]; try reflexivity. destruct (create _ _ _ _ _ _ _ o) as [s' [x|[]]]; exact Hw.
  - unfold do_GET. apply widens_bind; [apply resolve_widens|intros; apply widens_ret].
  - unfold do_DELETE. apply widens_bind; [apply resolve_widens|]. intros [c|]; [|apply widens_ret].
    apply widens_bind; [apply csrf_widens|]. intros [|]; [|apply widens_ret]. apply widens_bind; [apply revoke_widens|intros; apply widens_ret].
  - apply resolve_widens.
  - apply csrf_widens.
  - apply attest_widens.
  - apply attestation_widens.
  - apply count_widens.
Qed.
Lemma exec_safe c : asked c -> wp inv idle (exec c) anything.
Proof.
  intros Hc. destruct c; cbn [exec].
  - eapply wp_mono; [|done]. apply (safe_atom anyone _ any); [done| | |done|done|done].
    + intros w. split; [apply sessions_widen|done].
    + intros w e _ Hr. split; [|done]. eapply rows_stable; [|reflexivity|done]. apply sessions_widen.
  - eapply wp_mono; [|done]. apply wp_lift. by apply VaultProofs.exec_wp.
  - eapply safe_forget, safe_google_status.
  - eapply safe_forget, safe_initiate_google, Hc.
  - eapply safe_forget, safe_complete_google, Hc.
  - eapply safe_forget, safe_disconnect_google.
  - eapply safe_forget, safe_slack_status.
  - eapply safe_forget, safe_initiate_slack, Hc.
  - eapply safe_forget, safe_complete_slack, Hc.
  - eapply safe_forget, safe_disconnect_slack.
  - eapply safe_forget, safe_decision.
  - eapply safe_forget, safe_connect, Hc.
  - eapply safe_forget, safe_account_status.
  - eapply safe_forget, safe_apply.
  - eapply safe_forget, safe_control_status.
  - eapply safe_forget, safe_decide_control.
  - eapply safe_forget, safe_voice_routes.
  - eapply safe_forget, safe_save_routes.
Qed.
Definition start : system world service_error ask_of := {|
  store_of := {| w_sessions := no_sessions; w_vault := empty_vault; w_oauth := no_oauth |}; pool := []; log := [] |}.
Lemma reachable_system_inv c : rtc (system_step may_start) start c -> exists ls, inv (store_of c) ls (log c).
Proof.
  intros H. apply (system_sound inv idle may_start) with (c := start); [| | |done|].
  - intros p (x & Hx & ->). by apply exec_safe.
  - apply inv_born.
  - apply inv_dead.
  - exists []. split; [constructor|]. intros _. exists []. constructor; try (by intros ? ?%elem_of_nil).
    + apply VaultProofs.sound_start.
    + constructor; cbn; try (by intros ? ?%elem_of_nil). intros p provider x. by rewrite lookup_empty.
Qed.
Lemma kept_custody s ls g e id p : vault_sound s (ls ++ e) g -> VaultProofs.Kept id p ∈ e -> VaultProofs.kept s id p.
Proof. intros [_ _ H _ _] Hk. destruct (H (VaultProofs.Kept id p)) as [_ Hc]; [set_solver|done]. Qed.
End system.

(** C18. What is connected goes back to its owner's consent.  However the
    requests of the OAuth service, of the session service and of the vault's
    clients interleave, and however threads die: a Google connection belongs to
    a principal who started a flow from a session of theirs, with its token, and
    came back to Google's callback in that session with that flow's state; so
    does an installation, through Slack's callback, unless its owner connected
    an account by a request in a session of theirs; and so does a personal
    authority.  And the credential each of them names is, as long as the vault
    has it, a managed one of that same principal. *)
Theorem connections_go_back_to_consent asked c :
  let w := store_of c in
  rtc (system_step (may_start asked)) start c -> NoDup (VaultProofs.freshes (vault_log (log c))) ->
  (forall p provider x, connections (w_oauth w) !! (p, provider) = Some x ->
     google_consent asked w p /\ VaultProofs.kept (w_vault w) (c_credential x) p)
  /\ (forall x, x ∈ installations (w_oauth w) ->
        (slack_consent asked w (i_principal x) \/ account_consent asked w (i_principal x))
        /\ forall id, i_credential x = Some id -> VaultProofs.kept (w_vault w) id (i_principal x))
  /\ (forall x, x ∈ profiles (w_oauth w) ->
        slack_consent asked w (p_owner x) /\ VaultProofs.kept (w_vault w) (p_credential x) (p_owner x)).
Proof.
  intros w Hr Hn. destruct (reachable_system_inv asked c Hr) as (ls & Hi). destruct (Hi Hn) as (e & [Sv _ _ [_ H2 H3 H4]]).
  pose proof (fun id p => kept_custody asked _ _ _ _ id p Sv) as Hk. split_and!.
  - intros p provider x Hx. destruct (H2 p provider x Hx) as [H5 H6]. split; [done|by apply Hk].
  - intros x Hx. destruct (H3 x Hx) as [H5 H6]. split; [done|]. intros id Hid. by apply Hk, H6.
  - intros x Hx. destruct (H4 x Hx) as [H5 H6]. split; [done|by apply Hk].
Qed.
End service.

(** ** A connection, concretely *)

Definition toy_service : OAuthService := {|
  session_terms := {| idle_ttl_seconds := 1800; absolute_ttl_seconds := 43200 |}; crypto := VaultProofs.toy_crypto;
  ingestion := "in"; broker := "broker"; google_catalog := [("mail.read", "mail")]; google_url := fun state _ _ => state;
  slack_configured := false; slack_app_id := None; slack_catalog := []; slack_gives_user := false; slack_url := fun state _ _ => state;
  registry := None; accounts := []; counts_effects := false; requires_tenant_context := true |}.
Definition toy_answers : oracle (Q := ask_of) := fun _ q n =>
  match q with
  | Time => inject_Z 200
  | Token => "token" +:+ pretty (N.of_nat n)
  | TenantOf _ => Some "acme"
  | ExchangeGoogle _ _ => Ok {| access_token := "a"; refresh_token := Some "r"; expires_in := 60; token_type := "Bearer";
                                provider_metadata := []; granted_scopes := ["mail"] |}
  | ExchangeSlack _ _ => Err tt
  | RevokeAtProvider _ _ => Ok (VBool true)
  | VerifyAccount _ _ _ => Err tt
  | EffectCounts _ => None
  | InCustody q => VaultProofs.toy_oracle _ q n
  end.
Definition toy_sign_in : Sessions.call :=
  Post (VDict [("assertion", VDict (build_session_assertion (E := SigningProofs.toy) SigningProofs.toy_principal true
                                      (public_key_b64 (E := SigningProofs.toy) false) 900 100))]) None 110 110 "sid" "csrf".
Definition toy_calls : list call := [
  InSessions toy_sign_in;
  InitiateGoogle (Some "sid") (Some "csrf") (VDict [("capabilities", VList [VStr "mail.read"])]);
  CompleteGoogle (Some "sid") (VStr "code") (VStr "token2") false;
  InitiateSlack (Some "sid") (Some "csrf") VNone].
Abbreviation toy_exec := (exec (E := SigningProofs.toy) (R := Sqlite.repository) (B := VaultProofs.toy_box) toy_service).
Definition toy_schedule : list (move world service_error ask_of) :=
  [Launch (toy_exec (InSessions toy_sign_in)); Turn 0;
   Launch (toy_exec (InitiateGoogle (Some "sid") (Some "csrf") (VDict [("capabilities", VList [VStr "mail.read"])])))]
  ++ replicate 9 (Turn 1)
  ++ [Launch (toy_exec (CompleteGoogle (Some "sid") (VStr "code") (VStr "token2") false))] ++ replicate 30 (Turn 2).
Definition toy_end : system world service_error ask_of := fold_left (play toy_answers) toy_schedule start.
Ltac toy_listed := first [apply list_elem_of_here|apply list_elem_of_further; toy_listed].
Example toy_connected :
  (fun x => (c_credential x, c_scopes x)) <$> connections (w_oauth (store_of toy_end)) !! (SigningProofs.toy_principal, "google")
  = Some ("12", ["mail"]).
Proof. by vm_compute. Qed.

Lemma connections_go_back_to_consent_witness :
  exists x, connections (w_oauth (store_of toy_end)) !! (SigningProofs.toy_principal, "google") = Some x
    /\ google_consent (fun c => c ∈ toy_calls) (store_of toy_end) SigningProofs.toy_principal
    /\ VaultProofs.kept (w_vault (store_of toy_end)) (c_credential x) SigningProofs.toy_principal.
Proof.
  destruct (connections_go_back_to_consent (E := SigningProofs.toy) (R := Sqlite.repository) (laws := sqlite_laws)
              (B := VaultProofs.toy_box) toy_service (fun c => c ∈ toy_calls) toy_end) as [H _].
  - apply play_reach. unfold toy_schedule. cbn [replicate app].
    repeat (apply Forall_cons; split; [first [exact I|eexists; split; [|reflexivity]; unfold toy_calls; toy_listed]|]). apply Forall_nil_2.
  - apply (proj1 (bool_decide_eq_true _)). vm_compute. reflexivity.
  - pose proof toy_connected as Hc. specialize (H SigningProofs.toy_principal "google"). revert H Hc.
    generalize (connections (w_oauth (store_of toy_end)) !! (SigningProofs.toy_principal, "google")) as o.
    intros [x|] H Hc; [|discriminate Hc]. exists x. split; [reflexivity|]. apply H. reflexivity.
Defined.
